(* ===== verification/_CoqProject ===== *)
-Q . S2P
Prelude.v
GoStrings.v
Config.v
TxMonad.v
TaskQueue.v
TaskQueueInv.v
TaskQueueOps.v
TaskQueueSpec.v
TaskQueueTotal.v
TaskQueueLife.v
TaskQueueGraph.v
TaskQueueThms.v
Worker.v
WorkerInv.v
WorkerThms.v
GoSplit.v
Utils.v
Access.v
AccessThms.v
Errors.v
Handlers.v
DaoHelpers.v
Models.v
Sha256.v
Content.v
ContentTables.v
ContentThms.v
ContentMore.v
Introspect.v
IntrospectThms.v
IntrospectContent.v
TaskInfoDao.v
GoText.v
Coverage.v
CoverageMatch.v
PulpTask.v
SnapshotDao.v
SnapshotThms.v
TemplateDao.v
SnapshotHandler.v
SnapshotHandlerThms.v
SnapshotBulk.v
TemplateThms.v
Publication.v
TemplateInv.v
TemplateLists.v
RepoConfigDao.v
RepoConfigThms.v
RepoConfigInv.v
RepoConfigCreate.v
RepoConfigList.v
RepoConfigListThms.v
RepoConfigDue.v
RepoConfigValidate.v
Pulp.v
Distribution.v
TaskEnv.v
PublishTask.v
SnapshotSearch.v
SnapshotTask.v
SnapshotTaskThms.v
DeleteTask.v
DeleteTaskThms.v
Deletion.v
Candlepin.v
TemplateTask.v
TemplateCandlepin.v
TemplatePulp.v
TemplateSync.v
LatestTask.v
LatestThms.v
RepoDeleteTask.v
RepoDeletion.v
TemplateDeletion.v
UploadTask.v
UploadThms.v
UpdateRepoTask.v
RepoHandler.v
RepoHandlerThms.v
