(* ===== verification/Prelude.v ===== *)
(** * Verification of content-sources-backend

    The service manages RPM repositories for organizations: it stores their configuration, reads the metadata of the
    repositories ("introspection"), snapshots them with Pulp, groups snapshots in templates, and answers an HTTP API.
    Long-running work is done by tasks: handlers enqueue them in a Postgres-backed queue, workers dequeue and run
    them, send heartbeats and finish them. This development models the parts in which the program's own logic lives,
    as Rocq functions on explicit state, and proves what they promise.

    ** Conventions

    Definitions carry the names of the source. Code that is not in the repository, and everything the environment
    decides, is an argument: the clock, random identifiers, rows locked by other transactions, the answers of RBAC,
    Kessel and the yum client. A call of the database is a step of the monad [M] of [TxMonad.v]: the state holds the
    tables and a list of faults, each call consumes one and fails if it says so, so that a statement about all lists
    of faults covers every pattern of database failures; [transaction] undoes the changes of a failed body. Tables
    are finite maps by primary key, sets of pairs, or lists; constraints of the schema (db/migrations) are checks of
    the statements. Instants and durations are numbers of nanoseconds, UUIDs are numbers, strings are byte strings.

    ** Files and the code they model

    - [Prelude.v]: notations ([go_scope]), tactics, the hint database [go], shared lemmas.
    - [GoStrings.v], [GoSplit.v], [Sha256.v]: what the code uses of Go's strings, unicode/utf8, crypto/sha256 and of
      Postgres's [left].
    - [Config.v]: constants of src/pkg/config/tasks.go and value_constraints.go.
    - [TxMonad.v]: database calls, faults, transactions, Hoare triples.
    - [TaskQueue.v]: src/pkg/tasks/queue/pgqueue.go and src/pkg/tasks/client/client.go: the tables [db], the SQL
      statements, and every method ([Enqueue], [dequeueMaybe], [Dequeue], [Finish], [Cancel], [Requeue],
      [RequeueFailedTasks], [Heartbeats], [IdFromToken], [RefreshHeartbeat], [UpdatePayload], [RemoveAllTasks]).
      [TaskQueueInv.v] (phases of a task, invariant [wf] and [covered]), [TaskQueueOps.v] (the operations preserve it;
      [step] and [reachable] make the queue a transition system), [TaskQueueSpec.v] (effect of each operation),
      [TaskQueueTotal.v] (they succeed when nothing fails), [TaskQueueLife.v] (refinement of the life cycle),
      [TaskQueueGraph.v] (dependency graph and retries) and [TaskQueueThms.v] (the theorems).
    - [Worker.v], [WorkerInv.v], [WorkerThms.v]: src/pkg/tasks/worker/worker.go, worker_pool.go and
      src/pkg/utils/concurrent_map.go: the pool as a transition system in which the goroutines of every worker
      interleave statement by statement, on top of the queue.
    - [TaskInfoDao.v]: src/pkg/dao/task_info.go: reading tasks, and the periodic clean-up beside the queue.
    - [Content.v], [ContentTables.v], [ContentThms.v], [ContentMore.v]: the writing half of src/pkg/dao/rpms.go,
      package_groups.go, environments.go and module_streams.go: the content tables shared by all repositories.
      [TableLaws] is the interface by which the generic lemmas see a table; each kind of content is an instance.
    - [Introspect.v], [IntrospectThms.v], [IntrospectContent.v]: src/pkg/external_repos/introspect.go,
      src/pkg/dao/repositories.go and src/pkg/tasks/introspect.go, on top of the content tables.
    - [GoText.v], [Coverage.v], [CoverageMatch.v]: the string functions of Go the next files share, and the coverage
      parser and matcher of src/pkg/coverage.
    - [PulpTask.v]: the polling of src/pkg/clients/pulp_client/task.go. [Pulp.v]: the interface of the Pulp client as the
      class [PulpClient], the laws [PulpLaws] the tasks rely on, and an in-memory Pulp that satisfies them.
    - [Distribution.v]: src/pkg/tasks/helpers/pulp_distribution_helper.go against that interface.
    - [SnapshotDao.v], [SnapshotThms.v]: src/pkg/dao/snapshots.go on the tables of snapshots, repositories,
      configurations and templates.
    - [TemplateDao.v], [TemplateThms.v], [TemplateInv.v], [TemplateLists.v]: src/pkg/dao/templates.go with the hooks of
      src/pkg/models/template.go and the requests of src/pkg/api/templates.go, over the same tables.
    - [SnapshotHandler.v], [SnapshotHandlerThms.v], [SnapshotBulk.v], [Publication.v]: publishing and deleting snapshots
      in src/pkg/handler/snapshots.go, the tasks they enqueue, the clean-up of old snapshots
      (src/pkg/external_repos/commands/cleanup.go), and the flag that says whether a partner's repository is public.
    - [RepoConfigDao.v], [RepoConfigThms.v], [RepoConfigInv.v], [RepoConfigCreate.v]: the writing half of
      src/pkg/dao/repository_configs.go (creating, updating, deleting, importing and refreshing configurations, one or
      many) with the requests of src/pkg/api/repositories.go. [RepoConfigList.v], [RepoConfigListThms.v]: its lists and
      lookups. [RepoConfigDue.v]: which repositories are due for a snapshot, and the nightly run of
      src/pkg/external_repos/commands/snapshot.go that enqueues their tasks. [RepoConfigValidate.v]: the validation of
      a request and the reading of its GPG keys.
    - [TaskEnv.v]: the world of the task handlers (database, domains, queue, Pulp, Candlepin, payload), with [zoom] for an
      operation on one of them; src/pkg/dao/domains.go and src/pkg/tasks/utils.go.
    - [PublishTask.v]: src/pkg/tasks/update_snapshot_published.go. [SnapshotTask.v], [SnapshotTaskThms.v]: snapshot_helper.go,
      repository_snapshot.go and orphaned_version.go. [SnapshotSearch.v]: the queries of src/pkg/dao for the content of
      snapshots and templates, answered by tangy (a parameter). [DeleteTask.v], [DeleteTaskThms.v], [Deletion.v]:
      delete_snapshots.go. [RepoDeleteTask.v], [RepoDeletion.v]: delete_repository_snapshots.go.
    - [Candlepin.v]: src/pkg/clients/candlepin_client over the generated client as the class [CandlepinApi], with the laws
      [CandlepinLaws] and a Candlepin in memory.
    - [TemplateTask.v], [TemplateCandlepin.v], [TemplatePulp.v], [TemplateSync.v]: src/pkg/tasks/update_template_content.go and
      candlepin_helpers.go. [LatestTask.v], [LatestThms.v], [TemplateDeletion.v]: update_latest_snapshot.go and
      delete_templates.go. [UpdateRepoTask.v]: update_repository.go.
    - [UploadTask.v], [UploadThms.v]: src/pkg/dao/uploads.go, src/pkg/tasks/add_uploads.go and bulk_remove_rpms.go, over the
      world of [TaskEnv.v] and the content tables; the requests for uploads and packages are the class [UploadClient].
    - [RepoHandler.v], [RepoHandlerThms.v]: src/pkg/handler/repositories.go: the requests that change repositories, with the
      tasks they enqueue and cancel, over the world of [SnapshotHandler.v].
    - [Access.v], [AccessThms.v]: src/pkg/handler/utils/path.go, src/pkg/rbac and the middlewares that decide on a request.
    - [Utils.v], [Errors.v], [Handlers.v], [DaoHelpers.v], [Models.v]: src/pkg/utils, src/pkg/errors, the pagination and
      request helpers of src/pkg/handler, src/pkg/dao/helpers.go, and the hooks and validations of
      src/pkg/models/repository.go and repository_configuration.go.

    ** What the theorems show

    - Queue. In every state reachable by any calls with any failures the tables are well formed and every running
      task is covered by a heartbeat; every operation moves tasks along the life cycle, and one that reports an error
      changed nothing; dequeuing is sound (right type, dependencies finished, best priority) and complete; the
      dependency graph is acyclic, so that a settled queue always makes progress; [Finish], [Requeue], [Cancel] and the
      retry job do exactly what each of their branches says; retries are bounded for tasks without dependencies. Three
      theorems record where the code falls short: tasks that wait for a canceled dependent never run, a dependent
      can exceed the retry limit, and the clean-up of canceled tasks ignores the protection of templates.
    - Workers. What a handler returns is recorded for its task, and its worker is ready again; a worker runs one task at a
      time and never blocks; a cancel reaches the task it names if the worker does not turn to its next task between the
      lookup and the read of its cancel function (the listener takes three steps, as in the code), and a run shows that it
      may hit the next task otherwise; a stopping worker gives its task back, or fails it at the last retry; the heartbeat
      listener recovers the tasks of dead workers; two theorems show what goes wrong after a panic.
    - Content and introspection. For every pattern of database failures: a successful [InsertForRepository] leaves
      exactly the listed content (its result counts new associations, not new packages as its comment says), an introspection
      reported as an update stored the content and checksum it read, other repositories, their rows included, are never
      touched, and the status of a repository tells whether it was ever introspected. The
      exceptions in the code (module streams of an empty list, environments matched by id and name separately,
      metadata reverted after a partial failure) are theorems with concrete runs.
    - Distributions. A template's distribution serves the publication of its snapshot, and has no content guard
      only where the content is open to all or a partner published it; any other has the guard that Pulp gives in its domain
      for the organization, or for the features, of the repository.
    - Snapshots. The snapshots chosen for a date are exactly the last before it, or else the first after; a snapshot is
      deleted only under the guards of the handler, one at a time or in bulk; the public flag of a partner's repository
      is right in every reachable state, the clean-up of old snapshots apart.
    - Templates. In every reachable state a template's content lists the repositories of its organization and their
      snapshots; creating and updating do exactly what they say, listing shows what the filter asks for and an update
      followed by the reading of its changes reports the difference.
    - Tasks, for every pattern of failures after which they report success. Publishing reaches Pulp; a snapshot is complete
      (row, publication, distributions); deleting a snapshot, a repository or a template leaves nothing of it behind and
      touches nothing else; the content task brings the rows of a template, its distributions and its Candlepin
      environment in line with its repositories; the templates that use the latest snapshot follow it; adding or removing
      uploaded packages leaves a complete snapshot and the packages of its version as the content of the repository, and an
      upload that was begun is taken up again; a changed repository has the overrides it needs everywhere; a search in
      snapshots is answered from those the organization may read, and the errata of a template are complete.
    - Repository configurations. In every reachable state, with any failures, a name or a repository is used by one live
      configuration of an organization; a request of an organization changes only its own configurations; what
      was created is what is fetched; a bulk creation stores all or nothing; the repositories due are the ones
      the comments of the queries say, for repositories that take snapshots and whose last snapshot task completed or failed, and a nightly run enqueues one snapshot and one introspection for each; a list shows an organization
      its own and the shared configurations and hides what it may not see; the status filter agrees with the status
      shown; validation reports exactly the faulty parts of a request. Deleting a repository by a request leaves none of its
      snapshots and introspections active; changes of the content of a repository exclude one another, unless the task by
      which templates follow an upload could not be enqueued.
    - Coverage. A printed manifest is read back by [Parse], without repetitions; matching finds exactly the packages of the
      catalog, where the names of Python are compared as PEP 503 says. Polling a Pulp task ends once Pulp answers with a
      final state.
    - Access. A registered route is reached only with an identity and the permission it was first registered with, apart
      from the exempt requests that the theorem lists; responses show no organization id but the caller's; the RBAC client
      fails closed.
    - Helpers. Pagination covers a collection, sorting uses only known columns, stored configurations are valid and in
      normal form.

    ** What is assumed of the services

    [PulpLaws], [PulpVersions] and [UploadLaws] say what the requests to Pulp do once their task has completed: distributions,
    versions, publications, artifacts and packages; [CandlepinLaws] the same of Candlepin. Instances in memory satisfy them.
    [PollTask] returns a canceled or skipped task of Pulp without an error, and its callers do not look at the state: what the
    tasks achieve in Pulp is stated under [tasks_complete], that no task that is waited for is canceled or skipped. The href
    of a template's distribution may be null in the table; the task handlers then skip it, or (when repositories are removed
    from a template) stop, so that the theorems speak of the distributions whose href is stored.

    ** Bounds and fuel

    [Dequeue] waits for ever in the source: its model runs a given list of turns and says when it is still waiting,
    and the theorems about results are on [dequeueMaybe], which always returns. [TrimSpace] and [CleanupURL] recurse with the number of bytes as fuel, the
    loop over batches of [in_batches] with the number of checksums (a batch takes at least one) and [Sum256] with the
    number of words (a block takes sixteen), the splitting of a text into GPG keys with its length (a round
    removes one end mark), the loop over the pages of errata with one round more than there are errata, the loop over the
    packages of a version with one round for every three hundred after the first; the lemmas on them show that this is enough. [PollTask] has the answers of
    Pulp as a stream and more fuel than the position of the first final one. [timeToWait] divides whole
    nanoseconds where the source divides floating-point seconds; the two agree for bounds of whole seconds, which is
    what the configuration gives.

    ** What is not modelled

    Not modelled because they only call third parties or do input and output: the transport of the Pulp, Candlepin, feature
    and roadmap clients, cache, Kafka events, metrics, logging, configuration loading, seeds, database connection, command
    mains, generated mocks and API documentation. [net/url] is a parameter of the task handlers. Not modelled either: the binding
    and rendering of the HTTP handlers and those of them that only pass their arguments on, the importers of external repositories, the
    reading queries on content that are one SQL statement each, and the queries of the lightwell database. *)

From Stdlib Require Export Ascii.
From stdpp Require Export prelude gmap strings list sorting.
From stdpp Require Import options.

(** The notations of the development live in a scope of their own. *)
Declare Scope go_scope.
Delimit Scope go_scope with go.

(** Go's [==] on comparable values. *)
Notation "x == y" := (bool_decide (x = y))
  (at level 70, no associativity) : go_scope.
Notation "x != y" := (negb (bool_decide (x = y)))
  (at level 70, no associativity) : go_scope.

Open Scope go_scope.

(** A UUID is its 128-bit value; the zero value of the Go type is [uuid.Nil]. *)
Abbreviation uuid := N.
Definition uuid_Nil : uuid := 0%N.

(** Instants and durations in nanoseconds, as Go's [time.Duration]. *)
Abbreviation time := Z.
Definition Second : time := 1000000000%Z.

(** ** Tactics *)

(** Case on every boolean decision of the goal and clean up. *)
Ltac go_cases :=
  repeat (case_bool_decide || case_decide || case_match); simplify_eq/=; try done.

(** Split a conjunction and close what is immediate. *)
Ltac go_split := repeat split; try done; eauto with go.

(** A decidable closed proposition, by evaluation. *)
Ltac by_decide := refine (bool_decide_unpack _ _); vm_compute; exact I.

Create HintDb go.

(** ** Booleans *)

Lemma bool_decide_neg_eq {A} `{EqDecision A} (x y : A) :
  negb (bool_decide (x = y)) = true ↔ x ≠ y.
Proof. rewrite negb_true_iff. by rewrite bool_decide_eq_false. Qed.

(** ** Lists *)

(** Go's [slices.Contains], and the loop of the same shape written by hand. *)
Definition contains {A} `{EqDecision A} (elems : list A) (v : A) : bool :=
  existsb (λ s, v == s) elems.

Lemma contains_true {A} `{EqDecision A} (l : list A) v :
  contains l v = true ↔ v ∈ l.
Proof.
  unfold contains. rewrite existsb_exists. split.
  - intros (x & Hx & Heq%bool_decide_eq_true). subst. by apply list_elem_of_In.
  - intros Hv%list_elem_of_In. exists v. split; [done|]. by apply bool_decide_eq_true.
Qed.

Lemma contains_false {A} `{EqDecision A} (l : list A) v :
  contains l v = false ↔ v ∉ l.
Proof. rewrite <- contains_true. by destruct (contains l v). Qed.



(** Every element of a list extended on the right. *)
Lemma Forall_snoc {A} (P : A → Prop) l x : Forall P l → P x → Forall P (l ++ [x]).
Proof. intros. apply Forall_app. auto. Qed.
#[export] Hint Resolve Forall_snoc : go.
