(* ===== verification/GoStrings.v ===== *)
(** * The string functions of the Go standard library and of Postgres

    A Go [string] is a sequence of bytes; it is modelled by [string], whose characters are bytes.
    This file holds the functions of the [strings], [unicode/utf8] packages (and Postgres's [left])
    that the modelled code calls, byte for byte, with the lemmas the components share. *)

From S2P Require Import Prelude.
From stdpp Require Import options.

Open Scope string_scope.
Open Scope nat_scope.

(** ** Bytes *)

Definition byte_in (lo hi : N) (c : ascii) : bool :=
  ((lo <=? N_of_ascii c) && (N_of_ascii c <=? hi))%N.

(** ** UTF-8 *)

(** A continuation byte [10xxxxxx]. *)
Definition is_cont : ascii → bool := byte_in 128 191.

(** The length in bytes of the well-formed UTF-8 sequence at the start of the string, [0] when
    there is none: the table of [unicode/utf8]. *)
Definition utf8_len (s : string) : nat :=
  match s with
  | "" => 0
  | String c r =>
      if byte_in 0 127 c then 1 else
      match r with
      | "" => 0
      | String c2 r2 =>
          if byte_in 194 223 c then (if is_cont c2 then 2 else 0) else
          match r2 with
          | "" => 0
          | String c3 r3 =>
              if byte_in 224 239 c then
                let ok2 := if byte_in 224 224 c then byte_in 160 191 c2
                           else if byte_in 237 237 c then byte_in 128 159 c2
                           else is_cont c2 in
                if ok2 && is_cont c3 then 3 else 0
              else
                match r3 with
                | "" => 0
                | String c4 _ =>
                    let ok2 := if byte_in 240 240 c then byte_in 144 191 c2
                               else if byte_in 244 244 c then byte_in 128 143 c2
                               else is_cont c2 in
                    if byte_in 240 244 c && ok2 && is_cont c3 && is_cont c4 then 4 else 0
                end
          end
      end
  end.

Fixpoint str_take (n : nat) (s : string) : string :=
  match n, s with
  | S n', String c r => String c (str_take n' r)
  | _, _ => ""
  end.

Fixpoint str_drop (n : nat) (s : string) : string :=
  match n, s with
  | S n', String c r => str_drop n' r
  | _, _ => s
  end.

(** [strings.ToValidUTF8(s, "")]: the bytes that are not part of a well-formed sequence are
    dropped. [skip] counts the bytes of the current sequence that are still to be copied. *)
Fixpoint to_valid_utf8_go (skip : nat) (s : string) : string :=
  match s with
  | "" => ""
  | String c r =>
      match skip with
      | S k => String c (to_valid_utf8_go k r)
      | O =>
          match utf8_len s with
          | O => to_valid_utf8_go 0 r
          | S k => String c (to_valid_utf8_go k r)
          end
      end
  end.
Definition to_valid_utf8 (s : string) : string := to_valid_utf8_go 0 s.

(** [utf8.ValidString]. *)
Inductive valid_utf8 : string → Prop :=
  | valid_nil : valid_utf8 ""
  | valid_step s : utf8_len s ≠ 0 → valid_utf8 (str_drop (utf8_len s) s) → valid_utf8 s.

(** The number of characters of a UTF-8 string: its bytes that are not continuation bytes. *)
Fixpoint char_count (s : string) : N :=
  match s with
  | "" => 0
  | String c r => if is_cont c then char_count r else N.succ (char_count r)
  end.

(** Postgres's [left(s, n)]: the first [n] characters of a (well-formed) text. *)
Fixpoint sql_left (n : N) (s : string) : string :=
  match s with
  | "" => ""
  | String c r =>
      if is_cont c then String c (sql_left n r)
      else if (n =? 0)%N then ""
      else String c (sql_left (N.pred n) r)
  end.

Lemma sql_left_char_count n s : (char_count (sql_left n s) ≤ n)%N.
Proof.
  revert n. induction s as [|c s IH]; intros n; simpl; [lia|].
  destruct (is_cont c) eqn:Hc; simpl.
  - rewrite Hc. apply IH.
  - destruct (N.eqb_spec n 0); simpl; [lia|]. rewrite Hc. specialize (IH (N.pred n)). lia.
Qed.

Lemma sql_left_id n s : (char_count s ≤ n)%N → sql_left n s = s.
Proof.
  revert n. induction s as [|c s IH]; intros n; simpl; [done|].
  destruct (is_cont c); intros H; [by rewrite IH|].
  destruct (N.eqb_spec n 0); [lia|]. rewrite IH; [done|lia].
Qed.

(** The bytes of one well-formed sequence: a byte that starts it, then continuation bytes. *)
Definition lead_of (s : string) : bool :=
  match s with "" => false | String c _ => negb (is_cont c) end.
Fixpoint all_cont (s : string) : bool :=
  match s with "" => true | String c r => is_cont c && all_cont r end.

Lemma byte_in_spec lo hi c :
  byte_in lo hi c = true ↔ (lo ≤ N_of_ascii c ≤ hi)%N.
Proof. unfold byte_in. rewrite andb_true_iff, !N.leb_le. done. Qed.

Lemma byte_in_weaken lo hi lo' hi' c :
  byte_in lo hi c = true → (lo' ≤ lo)%N → (hi ≤ hi')%N → byte_in lo' hi' c = true.
Proof. rewrite !byte_in_spec. lia. Qed.

Lemma byte_in_disjoint lo hi lo' hi' c :
  byte_in lo hi c = true → (hi < lo' ∨ hi' < lo)%N → byte_in lo' hi' c = false.
Proof. intros H%byte_in_spec Hd. apply not_true_iff_false. rewrite byte_in_spec. lia. Qed.

Lemma str_app_cons c s t : String c s +:+ t = String c (s +:+ t).
Proof. done. Qed.
Lemma str_app_nil t : "" +:+ t = t.
Proof. done. Qed.
Lemma str_app_nil_r s : s +:+ "" = s.
Proof. induction s as [|c s IH]; [done|]. by rewrite str_app_cons, IH. Qed.
Lemma str_app_assoc s t u : s +:+ (t +:+ u) = (s +:+ t) +:+ u.
Proof. induction s as [|c s IH]; [done|]. by rewrite !str_app_cons, IH. Qed.

(** A well-formed sequence keeps its length whatever follows it. *)
Lemma utf8_len_app s t :
  utf8_len s ≠ 0 → utf8_len (str_take (utf8_len s) s +:+ t) = utf8_len s.
Proof.
  destruct s as [|c [|c2 [|c3 [|c4 s]]]]; simpl; try done;
  intros H; repeat (case_match; simpl in *; simplify_eq; try done).
Qed.

Lemma str_drop_take_app s t :
  utf8_len s ≠ 0 → str_drop (utf8_len s) (str_take (utf8_len s) s +:+ t) = t.
Proof.
  destruct s as [|c [|c2 [|c3 [|c4 s]]]]; simpl; try done;
  intros H; repeat (case_match; simpl in *; simplify_eq; try done).
Qed.

Lemma utf8_len_le s : utf8_len s ≤ String.length s.
Proof.
  destruct s as [|c [|c2 [|c3 [|c4 s]]]]; simpl; repeat case_match; lia.
Qed.

Lemma utf8_len_shape s k :
  utf8_len s = S k →
  ∃ c r, s = String c r ∧ is_cont c = false ∧ all_cont (str_take k r) = true.
Proof.
  destruct s as [|c r]; [done|]. intros H. exists c, r. split; [done|].
  destruct r as [|c2 [|c3 [|c4 r]]]; simpl in H;
    repeat (case_match; simpl in *; simplify_eq; try done);
    unfold is_cont in *;
    repeat match goal with
    | H : _ && _ = true |- _ => apply andb_true_iff in H as [? ?]
    end;
    (split;
      [ eapply byte_in_disjoint; [eassumption|lia]
      | cbn [all_cont str_take]; unfold is_cont; rewrite ?andb_true_r;
        rewrite ?andb_true_iff; split_and?;
        try done; (eapply byte_in_weaken; [eassumption|lia|lia]) ]).
Qed.

Lemma str_take_drop k s : str_take k s +:+ str_drop k s = s.
Proof.
  revert s; induction k as [|k IH]; intros [|c s]; simpl; try done.
  by rewrite str_app_cons, IH.
Qed.

Lemma valid_utf8_app s t :
  utf8_len s ≠ 0 → valid_utf8 t → valid_utf8 (str_take (utf8_len s) s +:+ t).
Proof.
  intros Hs Ht. apply valid_step; rewrite utf8_len_app by done; [done|].
  by rewrite str_drop_take_app.
Qed.

Lemma to_valid_go_skip k s :
  k ≤ String.length s →
  to_valid_utf8_go k s = str_take k s +:+ to_valid_utf8_go 0 (str_drop k s).
Proof.
  revert k. induction s as [|c s IH]; intros [|k] H; simpl in *; [done|lia|done|].
  rewrite str_app_cons. f_equal. apply IH. lia.
Qed.

Lemma length_str_drop k s : String.length (str_drop k s) = String.length s - k.
Proof.
  revert s; induction k as [|k IH]; intros [|c s]; simpl; try done; apply IH.
Qed.

Lemma to_valid_step s :
  utf8_len s ≠ 0 →
  to_valid_utf8 s = str_take (utf8_len s) s +:+ to_valid_utf8 (str_drop (utf8_len s) s).
Proof.
  intros H. pose proof (utf8_len_le s). destruct s as [|c r]; [done|].
  unfold to_valid_utf8. destruct (utf8_len (String c r)) as [|k] eqn:E; [done|].
  change (to_valid_utf8_go 0 (String c r)) with
    (match utf8_len (String c r) with
     | O => to_valid_utf8_go 0 r
     | S k => String c (to_valid_utf8_go k r) end).
  rewrite E. simpl in *. rewrite str_app_cons. f_equal. apply to_valid_go_skip. lia.
Qed.

(** [strings.ToValidUTF8] produces a well-formed string. *)
Lemma to_valid_utf8_valid s : valid_utf8 (to_valid_utf8 s).
Proof.
  induction s as [s IH] using (well_founded_induction (well_founded_ltof _ String.length)).
  destruct (decide (utf8_len s = 0)) as [H|H].
  - destruct s as [|c r]; [apply valid_nil|].
    unfold to_valid_utf8. change (valid_utf8 (match utf8_len (String c r) with
     | O => to_valid_utf8_go 0 r
     | S k => String c (to_valid_utf8_go k r) end)).
    rewrite H. apply IH. unfold ltof. simpl. lia.
  - rewrite to_valid_step by done. apply valid_utf8_app; [done|]. apply IH.
    unfold ltof. rewrite length_str_drop. pose proof (utf8_len_le s). lia.
Qed.

(** A well-formed string is unchanged. *)
Lemma to_valid_utf8_id s : valid_utf8 s → to_valid_utf8 s = s.
Proof.
  induction 1 as [|s Hs _ IH]; [done|].
  rewrite to_valid_step by done. rewrite IH. apply str_take_drop.
Qed.

Lemma sql_left_conts k n s :
  all_cont (str_take k s) = true → k ≤ String.length s →
  sql_left n s = str_take k s +:+ sql_left n (str_drop k s).
Proof.
  revert s. induction k as [|k IH]; intros [|c s]; simpl; try done.
  intros [Hc H]%andb_true_iff Hk. rewrite Hc. rewrite str_app_cons. f_equal. apply IH; [done|lia].
Qed.

Lemma sql_left_step n s :
  utf8_len s ≠ 0 →
  sql_left n s = if (n =? 0)%N then ""
                 else str_take (utf8_len s) s +:+ sql_left (N.pred n) (str_drop (utf8_len s) s).
Proof.
  intros H. pose proof (utf8_len_le s) as Hle.
  destruct (utf8_len s) as [|k] eqn:E; [done|].
  apply utf8_len_shape in E as (c & r & -> & Hc & Hr). simpl in *. rewrite Hc.
  destruct (n =? 0)%N; [done|]. rewrite str_app_cons. f_equal. apply sql_left_conts; [done|lia].
Qed.

(** Truncating to a number of characters never splits a character. *)
Lemma sql_left_valid n s : valid_utf8 s → valid_utf8 (sql_left n s).
Proof.
  intros H. revert n. induction H as [|s Hs _ IH]; intros n.
  { apply valid_nil. }
  rewrite sql_left_step by done. destruct (n =? 0)%N; [apply valid_nil|].
  apply valid_utf8_app; [done|apply IH].
Qed.
