(* ===== verification/Config.v ===== *)
(** * pkg/config: constants and the value constraints of user input *)

From S2P Require Import Prelude.
From stdpp Require Import options.

Open Scope string_scope.

(** ** pkg/config/tasks.go *)

Definition RepositorySnapshotTask := "snapshot".
Definition DeleteRepositorySnapshotsTask := "delete-repository-snapshots".
Definition DeleteSnapshotsTask := "delete-snapshots".
Definition IntrospectTask := "introspect".
Definition DeleteTemplatesTask := "delete-templates".
Definition UpdateTemplateContentTask := "update-template-content".
Definition UpdateRepositoryTask := "update-repository".
Definition AddUploadsTask := "add-uploads-repository".
Definition UpdateLatestSnapshotTask := "update-latest-snapshot".
Definition BulkRemoveRpmsTask := "bulk-remove-rpms".
Definition UpdateSnapshotPublishedTask := "update-snapshot-published".

Definition TaskStatusRunning := "running".
Definition TaskStatusFailed := "failed".
Definition TaskStatusCompleted := "completed".
Definition TaskStatusCanceled := "canceled".
Definition TaskStatusPending := "pending".

Definition TaskTypes : list string :=
  [RepositorySnapshotTask; DeleteRepositorySnapshotsTask; DeleteSnapshotsTask; IntrospectTask;
   DeleteTemplatesTask; UpdateTemplateContentTask; UpdateRepositoryTask; AddUploadsTask;
   UpdateLatestSnapshotTask; BulkRemoveRpmsTask; UpdateSnapshotPublishedTask].

Definition RequeueableTasks : list string :=
  [DeleteTemplatesTask; DeleteRepositorySnapshotsTask; UpdateTemplateContentTask;
   DeleteSnapshotsTask].

Definition CancellableTasks : list string :=
  [IntrospectTask; RepositorySnapshotTask; UpdateTemplateContentTask].

Definition ObjectTypeRepository := "repository".
Definition ObjectTypeTemplate := "template".

Definition TasksToCleanup : list string :=
  [IntrospectTask; RepositorySnapshotTask; UpdateTemplateContentTask; UpdateRepositoryTask;
   UpdateLatestSnapshotTask; AddUploadsTask; BulkRemoveRpmsTask].

Definition TasksToCleanupIfCompleted : list string :=
  [DeleteRepositorySnapshotsTask; DeleteTemplatesTask; DeleteSnapshotsTask].

(** ** pkg/config/value_constraints.go *)

Definition StatusValid := "Valid".
Definition StatusUnavailable := "Unavailable".
Definition StatusInvalid := "Invalid".
Definition StatusPending := "Pending".

Definition OriginExternal := "external".
Definition OriginRedHat := "red_hat".
Definition OriginUpload := "upload".
Definition OriginCommunity := "community".
Definition OriginLightwell := "lightwell".

Definition RedHatOrg := "-1".
Definition CommunityOrg := "-2".
Definition LightwellOrg := "-3".
Definition LightwellDemoOrg := "-4".

Definition FailedIntrospectionsLimit : Z := 20.
