(* ===== verification/TxMonad.v ===== *)
(** * Database transactions

    The Go code talks to Postgres through [pgx]: every call ([Begin], [Exec], [QueryRow],
    [Commit], ...) may fail for reasons of its own (a lost connection, a canceled context), and
    work done inside a transaction that is not committed is undone by the deferred [Rollback].

    This file is the small error-and-state monad the database code is translated to. The state is
    the database [D] together with a list of faults: each database call consumes one element, and
    fails with [e] when it is [Some e] (an exhausted list means that no further call fails). A
    statement about all lists of faults is thus a statement about every pattern of database
    failures. A failing [COMMIT] is taken to leave the transaction unapplied.

    [hoare] is the triple used for the invariants: one postcondition for the normal result and one
    for the error. *)

From S2P Require Import Prelude.
From stdpp Require Import options.

Definition M (D E A : Type) : Type := list (option E) * D → (E + A) * (list (option E) * D).

Section Ops.
Context {D E : Type}.

#[global] Instance M_ret : MRet (M D E) := λ A a w, (inr a, w).
#[global] Instance M_bind : MBind (M D E) := λ A B k m w,
  match m w with
  | (inl e, w') => (inl e, w')
  | (inr a, w') => k a w'
  end.

Definition throw {A} (e : E) : M D E A := λ w, (inl e, w).

(** [fmt.Errorf] around the error of a call. *)
Definition map_err {A} (g : E → E) (m : M D E A) : M D E A := λ w,
  match m w with
  | (inl e, w') => (inl (g e), w')
  | (inr a, w') => (inr a, w')
  end.

(** One call to the database: it fails when the next fault says so, and otherwise runs [f],
    which may itself report an error (a violated constraint, no rows). *)
Definition db_call {A} (f : D → (E + A) * D) : M D E A := λ '(fs, d),
  match fs with
  | Some e :: fs' => (inl e, (fs', d))
  | None :: fs' => let '(r, d') := f d in (r, (fs', d'))
  | [] => let '(r, d') := f d in (r, ([], d'))
  end.

(** A call that reads or changes nothing the model tracks ([Acquire], [Begin], ...). *)
Definition db_noop : M D E () := db_call (λ d, (inr (), d)).

(** [Begin], the body, [Commit], with a deferred [Rollback]. An error of the body rolls back, and
    [on_rollback rb e] is what the function returns when the rollback itself fails with [rb]; an
    error of [Commit] closes the transaction, unapplied. *)
Definition transaction {A} (err_begin err_commit : E → E) (on_rollback : E → E → E)
    (body : M D E A) : M D E A := λ '(fs, d),
  match db_noop (fs, d) with
  | (inl e, w) => (inl (err_begin e), w)
  | (inr _, w) =>
      match body w with
      | (inl e, (fs', _)) =>
          match db_noop (fs', d) with
          | (inl rb, w') => (inl (on_rollback rb e), w')
          | (inr _, w') => (inl e, w')
          end
      | (inr a, w') =>
          match db_noop w' with
          | (inl e, (fs', _)) => (inl (err_commit e), (fs', d))
          | (inr _, w'') => (inr a, w'')
          end
      end
  end.

(** [for _, x := range l { ... }] whose body may return an error. *)
Fixpoint iter {A} (f : A → M D E ()) (l : list A) : M D E () :=
  match l with
  | [] => mret ()
  | x :: l' => mbind (M := M D E) (λ _, iter f l') (f x)
  end.

(** The outcome of a run in which no database call fails. *)
Definition run {A} (m : M D E A) (d : D) : (E + A) * D :=
  let '(r, (_, d')) := m ([], d) in (r, d').
End Ops.

(** ** Triples *)

Definition hoare {D E A} (P : D → Prop) (m : M D E A)
    (Q : A → D → Prop) (R : E → D → Prop) : Prop :=
  ∀ fs d, P d →
    match m (fs, d) with
    | (inr a, (_, d')) => Q a d'
    | (inl e, (_, d')) => R e d'
    end.

Section Rules.
Context {D E : Type}.

Lemma hoare_ret {A} (a : A) (P : D → Prop) (Q : A → D → Prop) (R : E → D → Prop) :
  (∀ d, P d → Q a d) → hoare P (mret a) Q R.
Proof. intros H fs d HP. by apply H. Qed.

Lemma hoare_throw {A} (e : E) (P : D → Prop) (Q : A → D → Prop) (R : E → D → Prop) :
  (∀ d, P d → R e d) → hoare P (throw e) Q R.
Proof. intros H fs d HP. by apply H. Qed.

Lemma hoare_bind {A B} (m : M D E A) (k : A → M D E B) P Q R S :
  hoare P m Q R → (∀ a, hoare (Q a) (k a) S R) → hoare P (m ≫= k) S R.
Proof.
  intros Hm Hk fs d HP. specialize (Hm fs d HP).
  unfold mbind, M_bind. destruct (m (fs, d)) as [[e|a] [fs' d']]; [done|].
  by apply Hk.
Qed.

Lemma hoare_conseq {A} (m : M D E A) (P P' : D → Prop) (Q Q' : A → D → Prop) (R R' : E → D → Prop) :
  hoare P m Q R → (∀ d, P' d → P d) → (∀ a d, Q a d → Q' a d) → (∀ e d, R e d → R' e d) →
  hoare P' m Q' R'.
Proof.
  intros Hm HP HQ HR fs d Hd. specialize (Hm fs d (HP d Hd)).
  destruct (m (fs, d)) as [[e|a] [fs' d']]; auto.
Qed.

Lemma hoare_map_err {A} (g : E → E) (m : M D E A) P Q R :
  hoare P m Q (λ e d, R (g e) d) → hoare P (map_err g m) Q R.
Proof.
  intros H fs d HP. specialize (H fs d HP). unfold map_err.
  by destruct (m (fs, d)) as [[e|a] [fs' d']].
Qed.

Lemma hoare_call {A} (f : D → (E + A) * D) (P : D → Prop) Q R :
  (∀ e d, P d → R e d) →
  (∀ d, P d → match f d with (inr a, d') => Q a d' | (inl e, d') => R e d' end) →
  hoare P (db_call f) Q R.
Proof.
  intros HR Hf fs d HP. specialize (Hf d HP). unfold db_call.
  destruct fs as [|[e|] fs]; [|by apply HR|]; by destruct (f d) as [[] ?].
Qed.

Lemma hoare_noop (P : D → Prop) Q (R : E → D → Prop) :
  (∀ e d, P d → R e d) → (∀ d, P d → Q () d) → hoare P db_noop Q R.
Proof. intros. by apply hoare_call. Qed.

(** A transaction that fails leaves the database as it found it. *)
Lemma transaction_atomic {A} (eb ec : E → E) orb (body : M D E A) fs d e w :
  transaction eb ec orb body (fs, d) = (inl e, w) → w.2 = d.
Proof.
  unfold transaction, db_noop, db_call. intros H.
  repeat (case_match; simplify_eq/=; try done).
Qed.

(** A transaction that succeeds is its body. *)
Lemma transaction_inr {A} (eb ec : E → E) orb (body : M D E A) fs d a fs' d' :
  transaction eb ec orb body (fs, d) = (inr a, (fs', d')) →
  ∃ fs1 fs2, body (fs1, d) = (inr a, (fs2, d')).
Proof.
  unfold transaction, db_noop, db_call. intros H.
  repeat (case_match; simplify_eq/=; try done); eauto.
Qed.

Lemma hoare_transaction {A} (eb ec : E → E) orb (body : M D E A) (P : D → Prop) Q (R : E → D → Prop) R0 :
  hoare P body Q R0 → (∀ e d, P d → R e d) → hoare P (transaction eb ec orb body) Q R.
Proof.
  intros Hb HR fs d HP.
  destruct (transaction _ _ _ body (fs, d)) as [[e|a] [fs' d']] eqn:H.
  - apply transaction_atomic in H. simpl in H. subst. by apply HR.
  - apply transaction_inr in H as (fs1 & fs2 & H).
    specialize (Hb fs1 d HP). by rewrite H in Hb.
Qed.

Lemma hoare_iter {A} (f : A → M D E ()) (l : list A) (I : D → Prop) R :
  (∀ x, x ∈ l → hoare I (f x) (λ _, I) R) → hoare I (iter f l) (λ _, I) R.
Proof.
  induction l as [|x l IH]; intros H.
  - apply hoare_ret. auto.
  - simpl. eapply hoare_bind; [apply H; left|]. intros []. apply IH.
    intros. apply H. by right.
Qed.

(** ** Inversion of a successful run *)

Lemma bind_inr {A B} (m : M D E A) (k : A → M D E B) w b w' :
  (m ≫= k) w = (inr b, w') → ∃ a w1, m w = (inr a, w1) ∧ k a w1 = (inr b, w').
Proof. unfold mbind, M_bind. destruct (m w) as [[e|a] w1]; [done|]. eauto. Qed.

Lemma map_err_inr {A} (g : E → E) (m : M D E A) w a w' :
  map_err g m w = (inr a, w') → m w = (inr a, w').
Proof. unfold map_err. by destruct (m w) as [[|] ?]. Qed.

Lemma call_inr {A} (f : D → (E + A) * D) fs d a fs' d' :
  db_call f (fs, d) = (inr a, (fs', d')) → f d = (inr a, d').
Proof.
  unfold db_call. destruct fs as [|[e|] fs], (f d) as [r d1] eqn:Hf; intros; by simplify_eq.
Qed.

Lemma call_inl {A} (f : D → (E + A) * D) fs d e fs' d' :
  db_call f (fs, d) = (inl e, (fs', d')) → d' = d ∨ f d = (inl e, d').
Proof.
  unfold db_call. destruct fs as [|[e'|] fs], (f d) as [r d1] eqn:Hf; intros; simplify_eq; auto.
Qed.

Lemma noop_inr fs d fs' d' : (db_noop : M D E ()) (fs, d) = (inr (), (fs', d')) → d' = d.
Proof. intros H%call_inr. by simplify_eq. Qed.

Lemma noop_inl fs d e fs' d' : (db_noop : M D E ()) (fs, d) = (inl e, (fs', d')) → d' = d.
Proof. intros [?|?]%call_inl; by simplify_eq. Qed.

Lemma ret_inr {A} (a b : A) w w' : (mret a : M D E A) w = (inr b, w') → a = b ∧ w = w'.
Proof. unfold mret, M_ret. intros; by simplify_eq. Qed.

Lemma throw_inr {A} (e : E) (a : A) w w' : ¬ (throw e : M D E A) w = (inr a, w').
Proof. done. Qed.
(** ** Runs without faults *)

Lemma bind_eq {A B} (m : M D E A) (k : A → M D E B) w a w' :
  m w = (inr a, w') → (m ≫= k) w = k a w'.
Proof. unfold mbind, M_bind. by intros ->. Qed.

Lemma bind_err {A B} (m : M D E A) (k : A → M D E B) w e w' :
  m w = (inl e, w') → (m ≫= k) w = (inl e, w').
Proof. unfold mbind, M_bind. by intros ->. Qed.

Lemma map_err_ok {A} (g : E → E) (m : M D E A) w a w' :
  m w = (inr a, w') → map_err g m w = (inr a, w').
Proof. unfold map_err. by intros ->. Qed.

Lemma map_err_err {A} (g : E → E) (m : M D E A) w e w' :
  m w = (inl e, w') → map_err g m w = (inl (g e), w').
Proof. unfold map_err. by intros ->. Qed.

Lemma call_eq {A} (f : D → (E + A) * D) d r d' :
  f d = (r, d') → db_call f ([], d) = (r, ([], d')).
Proof. simpl. by intros ->. Qed.

Lemma transaction_ok {A} (eb ec : E → E) orb (body : M D E A) d a d' :
  body ([], d) = (inr a, ([], d')) → transaction eb ec orb body ([], d) = (inr a, ([], d')).
Proof. unfold transaction, db_noop, db_call. by intros ->. Qed.

Lemma transaction_err {A} (eb ec : E → E) orb (body : M D E A) d e d' :
  body ([], d) = (inl e, ([], d')) → transaction eb ec orb body ([], d) = (inl e, ([], d)).
Proof. unfold transaction, db_noop, db_call. by intros ->. Qed.
End Rules.
