(* ===== verification/TaskQueue.v ===== *)
(** * pkg/tasks/queue: the Postgres-backed task queue

    The tables [tasks], [task_dependencies] and [task_heartbeats] with their constraints
    (db/migrations), the SQL statements of [pgqueue.go] as functions on them, and the methods of
    [PgQueue] on top, in the transaction monad of [TxMonad].

    What the database chooses or the environment provides is an argument: the instant of
    [clock_timestamp()] and [time.Now()], the random identifiers of [uuid.New()], the rows other
    transactions hold locked ([FOR UPDATE SKIP LOCKED]) and the row Postgres picks among equals in
    an [ORDER BY ... LIMIT 1]. *)

From S2P Require Import Prelude GoStrings Config TxMonad.
From stdpp Require Import options.

Open Scope string_scope.
Open Scope Z_scope.

(** ** Tables *)

(** The columns of [tasks] that no statement changes once the row is inserted. *)
Record task_fixed := mk_task_fixed {
  t_type : string;
  org_id : string;
  account_id : string;
  object_uuid : option uuid;
  object_type : option string;
  request_id : string;
  priority : Z
}.

(** A row of [tasks]; its [id] is the key of the table. *)
Record task := mk_task {
  fixed : task_fixed;
  payload : string;
  queued_at : option time;
  started_at : option time;
  finished_at : option time;
  status : string;
  error : option string;
  token : option uuid;
  retries : Z;
  next_retry_time : option time;
  cancel_attempted : bool
}.

Inductive notification :=
  | NotifyTasks
  | NotifyCancel (id : uuid).

Record db := mk_db {
  tasks : gmap uuid task;
  task_dependencies : list (uuid * uuid);   (* task_id, dependency_id *)
  task_heartbeats : gmap uuid (uuid * time);   (* token -> id, heartbeat *)
  notifications : list notification   (* delivered when the transaction commits *)
}.

Definition empty_db : db := mk_db ∅ [] ∅ [].

Definition set_tasks (m : gmap uuid task) (d : db) : db :=
  mk_db m d.(task_dependencies) d.(task_heartbeats) d.(notifications).
Definition set_heartbeats (m : gmap uuid (uuid * time)) (d : db) : db :=
  mk_db d.(tasks) d.(task_dependencies) m d.(notifications).
Definition set_dependencies (l : list (uuid * uuid)) (d : db) : db :=
  mk_db d.(tasks) l d.(task_heartbeats) d.(notifications).
Definition add_notification (n : notification) (d : db) : db :=
  mk_db d.(tasks) d.(task_dependencies) d.(task_heartbeats) (d.(notifications) ++ [n]).

Definition isSome {A} (o : option A) : bool := match o with Some _ => true | None => false end.
Definition isNone {A} (o : option A) : bool := match o with Some _ => false | None => true end.

(** [a <= b] of SQL inside a CHECK, which a NULL satisfies. *)
Definition check_le (a b : option time) : bool :=
  match a, b with Some x, Some y => x <=? y | _, _ => true end.

(** The CHECK constraints of the table. *)
Definition not_finished_when_not_started (t : task) : bool :=
  isNone t.(finished_at) || isSome t.(started_at).
Definition chronologic_started_at (t : task) : bool := check_le t.(queued_at) t.(started_at).
Definition chronologic_finished_at (t : task) : bool := check_le t.(started_at) t.(finished_at).
Definition token_is_never_uuid_nil (t : task) : bool :=
  match t.(token) with Some k => k != uuid_Nil | None => true end.
Definition token_is_set_when_started (t : task) : bool :=
  isNone t.(started_at) || isSome t.(token).
Definition non_null_obj_type_if_uuid (t : task) : bool :=
  match t.(fixed).(object_uuid) with
  | None => true
  | Some u => if u == uuid_Nil then isNone t.(fixed).(object_type)
              else isSome t.(fixed).(object_type)
  end.
Definition tasks_check (t : task) : bool :=
  not_finished_when_not_started t && chronologic_started_at t && chronologic_finished_at t &&
  token_is_never_uuid_nil t && token_is_set_when_started t && non_null_obj_type_if_uuid t.

(** ** Errors *)

Inductive qerr :=
  | ErrNotExist
  | ErrNotRunning
  | ErrTaskCanceled
  | ErrContextCanceled
  | ErrRowsNotAffected
  | ErrMaxRetriesExceeded
  | ErrNotCancellable
  | ErrNoRows                          (* pgx.ErrNoRows *)
  | ErrTxClosed                        (* pgx.ErrTxClosed *)
  | ErrContextDone                     (* context.Canceled, context.DeadlineExceeded *)
  | ErrConstraint                      (* a constraint of the schema *)
  | ErrOther (msg : string)            (* any other failure of the connection *)
  | Errorf (msg : string)              (* fmt.Errorf without %w *)
  | Wrapf (msg : string) (err : qerr). (* fmt.Errorf with %w *)

#[global] Instance qerr_eq_dec : EqDecision qerr.
Proof. solve_decision. Defined.

(** [errors.Is]: the error itself or one it wraps. *)
Fixpoint errors_Is (e target : qerr) : bool :=
  (e == target) ||
  match e with
  | Wrapf _ e' => errors_Is e' target
  | _ => false
  end.

Abbreviation Q := (M db qerr).
Definition wrap {A} (msg : string) (m : Q A) : Q A := map_err (Wrapf msg) m.
Definition wrapv {A} (msg : string) (m : Q A) : Q A := map_err (λ _, Errorf msg) m.

(** [fmt.Errorf(msg + ": %v", err)]. *)
Definition Printf (msg : string) (_ : qerr) : qerr := Errorf msg.

(** [tx := ...; defer tx.Rollback(...); ...; tx.Commit()]. A failed rollback is only logged, except
    in the function whose error result is named. *)
Definition with_tx {A} (err_begin err_commit : qerr → qerr) (body : Q A) : Q A :=
  transaction err_begin err_commit (λ _ e, e) body.

(** ** SQL statements *)

(** [UPDATE tasks SET ... WHERE ...]: [g] gives the new row of each row the WHERE clause selects.
    The result is the number of rows affected; a row that violates a CHECK fails the statement. *)
Definition sql_update (g : uuid → task → option task) (d : db) : (qerr + Z) * db :=
  let upd := map_imap g d.(tasks) in
  if bool_decide (map_Forall (λ _ t, tasks_check t = true) upd)
  then (inr (Z.of_nat (size upd)), set_tasks (upd ∪ d.(tasks)) d)
  else (inl ErrConstraint, d).

Definition exec {A} (f : db → db) (a : db → A) (d : db) : (qerr + A) * db := (inr (a d), f d).

Record Task := mk_Task {
  Typename : string;
  Payload : string;
  Dependencies : list uuid;
  OrgId : string;
  AccountId : string;
  ObjectUUID : option uuid;
  ObjectType : option string;
  RequestID : string;
  Priority : Z
}.

(** The row [sqlEnqueue] inserts; the columns it does not name take their defaults. *)
Definition new_task (now : time) (t : Task) : task :=
  {| fixed := {| t_type := t.(Typename); org_id := t.(OrgId); account_id := t.(AccountId);
                 object_uuid := t.(ObjectUUID); object_type := t.(ObjectType);
                 request_id := t.(RequestID); priority := t.(Priority) |};
     payload := t.(Payload); queued_at := Some now; started_at := None; finished_at := None;
     status := TaskStatusPending; error := None; token := None; retries := 0;
     next_retry_time := None; cancel_attempted := false |}.

Definition sqlEnqueue (now : time) (id : uuid) (t : Task) (d : db) : (qerr + ()) * db :=
  if isSome (d.(tasks) !! id) || negb (tasks_check (new_task now t)) then (inl ErrConstraint, d)
  else (inr (), set_tasks (<[id := new_task now t]> d.(tasks)) d).

Definition sqlInsertDependency (id dep : uuid) (d : db) : (qerr + ()) * db :=
  if isSome (d.(tasks) !! id) && isSome (d.(tasks) !! dep)
  then (inr (), set_dependencies (d.(task_dependencies) ++ [(id, dep)]) d)
  else (inl ErrConstraint, d).

Definition sqlNotify (d : db) : (qerr + ()) * db := (inr (), add_notification NotifyTasks d).

(** The [NOT EXISTS] of [sqlDequeue]: no dependency of [id] is unfinished. *)
Definition deps_finished (d : db) (id : uuid) : bool :=
  forallb (λ '(task_id, dep_id),
      (task_id != id) ||
      match d.(tasks) !! dep_id with Some dep => isSome dep.(finished_at) | None => true end)
    d.(task_dependencies).

Definition ready (d : db) (taskTypes : list string) (id : uuid) (t : task) : bool :=
  isNone t.(started_at) && (t.(status) != TaskStatusCanceled) &&
  contains taskTypes t.(fixed).(t_type) && deps_finished d id.

(** [ORDER BY priority DESC, queued_at ASC] (NULLs last). *)
Definition queued_le (a b : option time) : bool :=
  match a, b with
  | Some x, Some y => x <=? y
  | Some _, None => true
  | None, Some _ => false
  | None, None => true
  end.
Definition dequeue_le (t1 t2 : task) : bool :=
  (t2.(fixed).(priority) <? t1.(fixed).(priority)) ||
  ((t1.(fixed).(priority) =? t2.(fixed).(priority)) && queued_le t1.(queued_at) t2.(queued_at)).

Definition dequeue_candidates (locked : gset uuid) (taskTypes : list string) (d : db) :
    list (uuid * task) :=
  base.filter (λ '(id, t), ready d taskTypes id t = true ∧ id ∉ locked) (map_to_list d.(tasks)).

(** The rows [LIMIT 1] may keep: those no other candidate precedes. *)
Definition dequeue_best (cands : list (uuid * task)) : list (uuid * task) :=
  base.filter (λ '(_, t), forallb (λ '(_, t'), dequeue_le t t') cands = true) cands.

Definition start_task (now : time) (tok : uuid) (t : task) : task :=
  {| fixed := t.(fixed); payload := t.(payload); queued_at := t.(queued_at);
     started_at := Some now; finished_at := t.(finished_at); status := TaskStatusRunning;
     error := t.(error); token := Some tok; retries := t.(retries);
     next_retry_time := t.(next_retry_time); cancel_attempted := t.(cancel_attempted) |}.

Definition sqlDequeue (now : time) (locked : gset uuid) (pick : nat) (tok : uuid)
    (taskTypes : list string) (d : db) : (qerr + uuid * task) * db :=
  let best := dequeue_best (dequeue_candidates locked taskTypes d) in
  match best !! (pick mod length best)%nat with
  | None => (inl ErrNoRows, d)
  | Some (id, t) =>
      match sql_update (λ i t, if i == id then Some (start_task now tok t) else None) d with
      | (inl e, d') => (inl e, d')
      | (inr _, d') => (inr (id, start_task now tok t), d')
      end
  end.

Definition requeue_row (now : time) (finished : option time) (t : task) : task :=
  {| fixed := t.(fixed); payload := t.(payload); queued_at := Some now; started_at := None;
     finished_at := finished; status := TaskStatusPending; error := t.(error); token := None;
     retries := t.(retries) + 1; next_retry_time := t.(next_retry_time);
     cancel_attempted := t.(cancel_attempted) |}.

Definition sqlRequeue (now : time) (id : uuid) : db → (qerr + Z) * db :=
  sql_update (λ i t,
    if (i == id) && isSome t.(started_at) && isNone t.(finished_at)
    then Some (requeue_row now t.(finished_at) t) else None).

(** The WHERE clause of [v1], repeated in the subquery of [sqlRequeueFailedTasks]. *)
Definition retryable (now : time) (taskTypes : list string) (t : task) : bool :=
  isSome t.(started_at) && isSome t.(finished_at) && (t.(status) == TaskStatusFailed) &&
  (t.(retries) <? 3) &&
  match t.(next_retry_time) with Some n => n <=? now | None => false end &&
  contains taskTypes t.(fixed).(t_type) && negb t.(cancel_attempted).

(** The rows of [v1]: each retryable task joined with its dependents, NULL when it has none. *)
Definition requeue_v1 (now : time) (taskTypes : list string) (d : db) : list (option uuid) :=
  '(id, t) ← base.filter (λ '(_, t), retryable now taskTypes t = true) (map_to_list d.(tasks));
  match base.filter (λ p : uuid * uuid, p.2 = id) d.(task_dependencies) with
  | [] => [None]
  | l => (λ p : uuid * uuid, Some p.1) <$> l
  end.

Definition sqlRequeueFailedTasks (now : time) (taskTypes : list string) (d : db) : (qerr + Z) * db :=
  sql_update (λ i t,
    if existsb (λ task_id, (task_id == Some i) || retryable now taskTypes t)
         (requeue_v1 now taskTypes d)
    then Some (requeue_row now None t) else None) d.

Definition sqlQueryDependencies (id : uuid) (d : db) : list uuid :=
  snd <$> base.filter (λ p : uuid * uuid, p.1 = id) d.(task_dependencies).
Definition sqlQueryDependents (id : uuid) (d : db) : list uuid :=
  fst <$> base.filter (λ p : uuid * uuid, p.2 = id) d.(task_dependencies).

Definition finish_row (now : time) (st : string) (msg : option string) (retry : option time)
    (t : task) : task :=
  {| fixed := t.(fixed); payload := t.(payload); queued_at := t.(queued_at);
     started_at := t.(started_at); finished_at := Some now; status := st;
     error := sql_left 4000 <$> msg; token := t.(token); retries := t.(retries);
     next_retry_time := retry; cancel_attempted := t.(cancel_attempted) |}.

Definition sqlFinishTask (now : time) (st : string) (msg : option string) (retry : option time)
    (id : uuid) (d : db) : (qerr + time) * db :=
  match sql_update (λ i t,
      if (i == id) && isNone t.(finished_at) then Some (finish_row now st msg retry t) else None) d with
  | (inl e, d') => (inl e, d')
  | (inr n, d') => if n =? 0 then (inl ErrNoRows, d') else (inr now, d')
  end.

Definition cancel_row (msg : string) (t : task) : task :=
  {| fixed := t.(fixed); payload := t.(payload); queued_at := t.(queued_at);
     started_at := t.(started_at); finished_at := t.(finished_at); status := TaskStatusCanceled;
     error := Some (sql_left 4000 msg); token := t.(token); retries := t.(retries);
     next_retry_time := t.(next_retry_time); cancel_attempted := true |}.

Definition sqlCancelTask (id : uuid) (msg : string) : db → (qerr + Z) * db :=
  sql_update (λ i t,
    if (i == id) && isNone t.(finished_at) then Some (cancel_row msg t) else None).

Definition mark_cancel_attempted (t : task) : task :=
  {| fixed := t.(fixed); payload := t.(payload); queued_at := t.(queued_at);
     started_at := t.(started_at); finished_at := t.(finished_at); status := t.(status);
     error := t.(error); token := t.(token); retries := t.(retries);
     next_retry_time := t.(next_retry_time); cancel_attempted := true |}.

Definition sqlSetCancelAttempted (id : uuid) : db → (qerr + Z) * db :=
  sql_update (λ i t, if i == id then Some (mark_cancel_attempted t) else None).

Definition set_payload (p : string) (t : task) : task :=
  {| fixed := t.(fixed); payload := p; queued_at := t.(queued_at);
     started_at := t.(started_at); finished_at := t.(finished_at); status := t.(status);
     error := t.(error); token := t.(token); retries := t.(retries);
     next_retry_time := t.(next_retry_time); cancel_attempted := t.(cancel_attempted) |}.

Definition sqlUpdatePayload (p : string) (id : uuid) : db → (qerr + Z) * db :=
  sql_update (λ i t, if i == id then Some (set_payload p t) else None).

(** [task_heartbeats]: [token] is the primary key and never nil, [id] references a task. *)
Definition sqlInsertHeartbeat (now : time) (tok id : uuid) (d : db) : (qerr + ()) * db :=
  if isSome (d.(task_heartbeats) !! tok) || (tok == uuid_Nil) || isNone (d.(tasks) !! id)
  then (inl ErrConstraint, d)
  else (inr (), set_heartbeats (<[tok := (id, now)]> d.(task_heartbeats)) d).

Definition sqlQueryHeartbeats (now olderThan : time) (d : db) : list uuid :=
  fst <$> base.filter (λ '(_, (_, hb)), (now - hb >? olderThan) = true) (map_to_list d.(task_heartbeats)).

Definition sqlRefreshHeartbeat (now : time) (tok : uuid) (d : db) : (qerr + Z) * db :=
  match d.(task_heartbeats) !! tok with
  | None => (inr 0, d)
  | Some (id, _) => (inr 1, set_heartbeats (<[tok := (id, now)]> d.(task_heartbeats)) d)
  end.

Definition sqlDeleteHeartbeat (id : uuid) (d : db) : (qerr + Z) * db :=
  let keep := base.filter (λ '(_, (i, _)), i ≠ id) d.(task_heartbeats) in
  (inr (Z.of_nat (size d.(task_heartbeats) - size keep)), set_heartbeats keep d).

Definition sqlQueryIdFromToken (tok : uuid) (d : db) : (qerr + uuid * string) * db :=
  match base.filter (λ '(_, t), t.(token) = Some tok) (map_to_list d.(tasks)) with
  | [] => (inl ErrNoRows, d)
  | (id, t) :: _ => (inr (id, t.(status)), d)
  end.

Definition sqlDeleteAllTasks (d : db) : (qerr + ()) * db :=
  (inr (), mk_db ∅ [] ∅ d.(notifications)).

(** ** Methods of [PgQueue] *)

Definition MaxTaskRetries : Z := 3.

(** models.TaskInfo, with the columns of [taskInfoReturning]; a NULL uuid scans as [uuid.Nil]. *)
Record TaskInfo := mk_TaskInfo {
  Id : uuid;
  ti_Typename : string;
  ti_Payload : string;
  Queued : option time;
  Started : option time;
  Finished : option time;
  Status : string;
  Error : option string;
  ti_OrgId : string;
  ti_ObjectUUID : uuid;
  ti_ObjectType : option string;
  Token : uuid;
  ti_RequestID : string;
  Retries : Z;
  NextRetryTime : option time;
  ti_Priority : Z;
  CancelAttempted : bool;
  ti_Dependencies : list uuid
}.

Definition scan_task (id : uuid) (t : task) (deps : list uuid) : TaskInfo :=
  {| Id := id; ti_Typename := t.(fixed).(t_type); ti_Payload := t.(payload);
     Queued := t.(queued_at); Started := t.(started_at); Finished := t.(finished_at);
     Status := t.(status); Error := t.(error); ti_OrgId := t.(fixed).(org_id);
     ti_ObjectUUID := default uuid_Nil t.(fixed).(object_uuid);
     ti_ObjectType := t.(fixed).(object_type); Token := default uuid_Nil t.(token);
     ti_RequestID := t.(fixed).(request_id); Retries := t.(retries);
     NextRetryTime := t.(next_retry_time); ti_Priority := t.(fixed).(priority);
     CancelAttempted := t.(cancel_attempted); ti_Dependencies := deps |}.

Definition Enqueue (now : time) (taskID : uuid) (t : Task) : Q uuid :=
  db_noop;;   (* Acquire *)
  with_tx (Wrapf "error starting database transaction") (Wrapf "unable to commit database transaction")
    (wrap "error enqueuing task" (db_call (sqlEnqueue now taskID t));;
     iter (λ d, wrap "error inserting dependency" (db_call (sqlInsertDependency taskID d)))
       t.(Dependencies);;
     wrap "error notifying tasks channel" (db_call sqlNotify);;
     mret taskID).

Definition taskDependencies (id : uuid) : Q (list uuid) :=
  db_call (λ d, (inr (sqlQueryDependencies id d), d)).
Definition taskDependents (id : uuid) : Q (list uuid) :=
  db_call (λ d, (inr (sqlQueryDependents id d), d)).

(** What the environment decides in one attempt to dequeue. *)
Record attempt := mk_attempt {
  at_now : time;
  at_locked : gset uuid;
  at_pick : nat
}.

Definition dequeueMaybe (a : attempt) (tok : uuid) (taskTypes : list string) : Q TaskInfo :=
  transaction (Wrapf "error starting a new transaction when dequeueing")
    (Wrapf "error committing the transaction for dequeueing task")
    (λ rb err, if errors_Is rb ErrTxClosed then err
               else Wrapf "error rolling back dequeue transaction" rb)
    (row ← wrap "error during dequeue query"
             (db_call (sqlDequeue a.(at_now) a.(at_locked) a.(at_pick) tok taskTypes));
     wrap "error inserting the task's heartbeat"
       (db_call (sqlInsertHeartbeat a.(at_now) tok row.1));;
     deps ← wrap "error querying the task's dependencies" (taskDependencies row.1);
     mret (scan_task row.1 row.2 deps)).

(** What happens while [Dequeue] waits in its [select]: other processes change the database, and
    then either the channel receives a notification or the context is done. *)
Inductive wake := WakeNotified | WakeDone.
Record turn := mk_turn {
  tu_attempt : attempt;
  tu_env : db → db;
  tu_wake : wake
}.

(** The loop of [Dequeue], one turn per iteration; [None]: it is still waiting after the turns. *)
Fixpoint Dequeue (turns : list turn) (tok : uuid) (taskTypes : list string) : Q (option TaskInfo) :=
  match turns with
  | [] => mret None
  | tu :: rest => λ w,
      match dequeueMaybe tu.(tu_attempt) tok taskTypes w with
      | (inr info, w') => (inr (Some info), w')
      | (inl err, (fs, d)) =>
          if negb (errors_Is err ErrNoRows) then
            (inl (if errors_Is err ErrContextDone then ErrContextCanceled
                  else Errorf "error dequeuing task"), (fs, d))
          else
            match tu.(tu_wake) with
            | WakeDone => (inl ErrContextCanceled, (fs, tu.(tu_env) d))
            | WakeNotified => Dequeue rest tok taskTypes (fs, tu.(tu_env) d)
            end
      end
  end.

Definition UpdatePayload (info : TaskInfo) (p : string) : Q TaskInfo :=
  db_call (sqlUpdatePayload p info.(Id));; mret info.

Definition statusWithConn (id : uuid) : Q TaskInfo :=
  t ← db_call (λ d, (match d.(tasks) !! id with Some t => inr t | None => inl ErrNoRows end, d));
  deps ← taskDependencies id;
  mret (scan_task id t deps).

Definition PgStatus (id : uuid) : Q TaskInfo := db_noop;; statusWithConn id.

(** The wait before the next retry: [upperBound] seconds divided by the retries left plus one,
    truncated to whole seconds. The source divides floating-point seconds, which gives the same whole seconds
    for an upper bound of whole seconds. *)
Definition timeToWait (upperBound : time) (retries : Z) : time :=
  let retriesRemaining := MaxTaskRetries - retries in
  Second * Z.quot upperBound (Second * (retriesRemaining + 1)).

Definition next_retry (upperBound goNow : time) (st : string) (info : TaskInfo) : option time :=
  if (st == TaskStatusFailed) && (info.(Retries) <? MaxTaskRetries) &&
     contains RequeueableTasks info.(ti_Typename)
  then Some (goNow + timeToWait upperBound info.(Retries)) else None.

(** [goNow] is [time.Now()] of the process, [now] the clock of the database. *)
Definition finishWithTx (upperBound goNow now : time) (taskId : uuid) (taskError : option string) : Q () :=
  let '(st, errMsg) :=
    match taskError with
    | Some msg => (TaskStatusFailed, Some (to_valid_utf8 msg))
    | None => (TaskStatusCompleted, None)
    end in
  info ← wrap "error querying task info" (statusWithConn taskId);
  if isNone info.(Started) || isSome info.(Finished) then throw ErrNotRunning else
  let nextRetryTime := next_retry upperBound goNow st info in
  wrapv "error removing task from heartbeats" (db_call (sqlDeleteHeartbeat taskId));;
  map_err (λ e, if e == ErrNoRows then Wrapf "error finishing task" ErrNotExist
                else Wrapf "error finishing task" e)
    (db_call (sqlFinishTask now st errMsg nextRetryTime taskId));;
  (if st == TaskStatusFailed then
     dependents ← wrap "error fetching task dependents" (taskDependents taskId);
     iter (λ id, wrap "error cancelling dependent task"
                   (db_call (sqlCancelTask id "parent task failed");; mret ())) dependents
   else mret ());;
  wrap "error notifying tasks channel" (db_call sqlNotify).

Definition Finish (upperBound goNow now : time) (taskId : uuid) (taskError : option string) : Q () :=
  with_tx (Printf "error starting database transaction") (Wrapf "unable to commit database transaction")
    (finishWithTx upperBound goNow now taskId taskError).

(** [pg_notify] runs on the connection that holds the transaction, hence inside it. *)
Definition sendCancelNotification (taskId : uuid) : Q () :=
  wrap "error notifying cancel channel"
    (db_call (λ d, (inr (), add_notification (NotifyCancel taskId) d))).

Definition Cancel (taskId : uuid) : Q () :=
  db_noop;;   (* Acquire *)
  with_tx (Wrapf "error starting database transaction") (Wrapf "unable to commit database transaction")
    (sendCancelNotification taskId;;
     wrapv "error removing task from heartbeats" (db_call (sqlDeleteHeartbeat taskId));;
     wrap "error canceling task" (db_call (sqlCancelTask taskId "task canceled"));;
     wrap "error setting cancel_attempted" (db_call (sqlSetCancelAttempted taskId));;
     dependents ← wrap "error fetching task dependents" (taskDependents taskId);
     iter (λ id, wrap "error cancelling dependent task"
                   (db_call (sqlCancelTask id "parent task canceled");; mret ())) dependents;;
     wrap "error notifying tasks channel" (db_call sqlNotify)).

Definition max_retries_msg : string := "task has exceeded the maximum amount of retries".

(** The body of the transaction; [Some e]: it commits, and the method then returns [e]. *)
Definition requeue_body (upperBound goNow now : time) (taskId : uuid) : Q (option qerr) :=
  info ← wrap "error querying task status" (statusWithConn taskId);
  if info.(CancelAttempted) && (info.(Status) != TaskStatusRunning) then throw ErrTaskCanceled else
  if isNone info.(Started) || isSome info.(Finished) then throw ErrNotRunning else
  if info.(Retries) =? MaxTaskRetries then
    wrap "error finishing task"
      (finishWithTx upperBound goNow now info.(Id) (Some max_retries_msg));;
    mret (Some ErrMaxRetriesExceeded)
  else
  wrap "error removing task from heartbeats" (db_call (sqlDeleteHeartbeat taskId));;
  n ← wrapv "error requeueing task" (db_call (sqlRequeue now taskId));
  if negb (n =? 1) then throw (Wrapf "error requeuing task" ErrNotExist) else
  wrap "error notifying tasks channel" (db_call sqlNotify);;
  mret None.

Definition Requeue (upperBound goNow now : time) (taskId : uuid) : Q () :=
  r ← with_tx (Wrapf "error starting database transaction")
        (Wrapf "unable to commit database transaction")
        (requeue_body upperBound goNow now taskId);
  match r with Some e => throw e | None => mret () end.

Definition RequeueFailedTasks (now : time) (taskTypes : list string) : Q () :=
  with_tx (Printf "error starting database transaction") (Printf "unable to commit database transaction")
    (wrap "error requeueing failed tasks" (db_call (sqlRequeueFailedTasks now taskTypes));;
     wrapv "error notifying tasks channel" (db_call sqlNotify)).

(** An error of the query is swallowed: the result is then [nil]. *)
Definition Heartbeats (now olderThan : time) : Q (list uuid) := λ w,
  match db_call (λ d, (inr (sqlQueryHeartbeats now olderThan d), d)) w with
  | (inl _, w') => (inr [], w')
  | (inr l, w') => (inr l, w')
  end.

Definition IdFromToken (tok : uuid) : Q (uuid * bool) :=
  db_noop;;
  r ← map_err (λ e, if e == ErrNoRows then ErrNotExist else Errorf "error retrieving id")
        (db_call (sqlQueryIdFromToken tok));
  mret (r.1, r.2 == TaskStatusRunning).

Definition RefreshHeartbeat (now : time) (tok : uuid) : Q () :=
  if tok == uuid_Nil then mret () else
  n ← db_call (sqlRefreshHeartbeat now tok);
  if n =? 1 then mret () else
  r ← IdFromToken tok;
  if (r.2 : bool) then
    n' ← db_call (sqlRefreshHeartbeat now tok);
    if n' =? 1 then mret () else throw ErrRowsNotAffected
  else mret ().

Definition RemoveAllTasks : Q () :=
  wrap "error removing all tasks" (db_call sqlDeleteAllTasks).

(** ** pkg/tasks/client: the guarded entry points used by the API *)

Definition ClientEnqueue (now : time) (taskID : uuid) (t : Task) : Q uuid := Enqueue now taskID t.

(** [None]: the string is not a UUID, [uuid.Parse] fails. *)
Definition ClientCancel (taskId : option uuid) : Q () :=
  match taskId with
  | None => throw (ErrOther "invalid UUID")
  | Some id =>
      info ← PgStatus id;
      if negb (contains CancellableTasks info.(ti_Typename)) then throw ErrNotCancellable
      else Cancel id
  end.
