(* ===== verification/TaskQueueInv.v ===== *)
(** * The task queue: life cycle of a task and invariant of the tables

    [phase] is the abstract state of a task and [lifecycle] the moves the queue promises; the
    invariant [wf] says that every row is in exactly one phase, that the schema's constraints hold,
    that references resolve and that every running task is covered by a heartbeat row. Every
    operation of the queue preserves it, whatever database calls fail. *)

From S2P Require Import Prelude GoStrings Config TxMonad TaskQueue.
From stdpp Require Import options.

Open Scope string_scope.
Open Scope Z_scope.

(** ** Abstract life cycle *)

(** [Canceled]: canceled before it started; [Aborted]: canceled while running (its worker may still
    report a result). *)
Inductive phase := Pending | Running | Completed | Failed | Canceled | Aborted.

#[global] Instance phase_eq_dec : EqDecision phase.
Proof. solve_decision. Defined.

Definition phase_of (t : task) : option phase :=
  match t.(started_at), t.(finished_at) with
  | None, None =>
      if t.(status) == TaskStatusPending then Some Pending
      else if t.(status) == TaskStatusCanceled then Some Canceled else None
  | Some _, None =>
      if t.(status) == TaskStatusRunning then Some Running
      else if t.(status) == TaskStatusCanceled then Some Aborted else None
  | Some _, Some _ =>
      if t.(status) == TaskStatusCompleted then Some Completed
      else if t.(status) == TaskStatusFailed then Some Failed else None
  | None, Some _ => None
  end.

(** ** Invariant of a row *)

Definition error_ok (t : task) : Prop :=
  match t.(error) with
  | Some e => valid_utf8 e ∧ (char_count e ≤ 4000)%N
  | None => True
  end.

Record row_ok (t : task) : Prop := {
  ok_phase : is_Some (phase_of t);
  ok_check : tasks_check t = true;
  ok_token : isSome t.(token) = isSome t.(started_at);
  ok_error : error_ok t;
  ok_canceled : t.(status) = TaskStatusCanceled → t.(cancel_attempted) = true;
  ok_retries : 0 ≤ t.(retries);
  ok_retry_time : is_Some t.(next_retry_time) → t.(fixed).(t_type) ∈ RequeueableTasks
}.

(** ** Invariant of the tables *)

Record wf (d : db) : Prop := {
  wf_rows : map_Forall (λ _ t, row_ok t) d.(tasks);
  wf_deps : ∀ p, p ∈ d.(task_dependencies) →
    is_Some (d.(tasks) !! p.1) ∧ is_Some (d.(tasks) !! p.2);
  wf_heartbeats : ∀ tok id hb, d.(task_heartbeats) !! tok = Some (id, hb) →
    tok ≠ uuid_Nil ∧ is_Some (d.(tasks) !! id)
}.

(** Every running task other than those of [X] has a heartbeat row under its token. *)
Definition covered_except (X : gset uuid) (d : db) : Prop :=
  ∀ id t, d.(tasks) !! id = Some t → t.(status) = TaskStatusRunning → id ∉ X →
    ∃ tok hb, t.(token) = Some tok ∧ d.(task_heartbeats) !! tok = Some (id, hb).
Definition covered (d : db) : Prop := covered_except ∅ d.

(** ** UPDATE *)

Lemma sql_update_inv g d r d' :
  sql_update g d = (r, d') →
  (r = inl ErrConstraint ∧ d' = d) ∨
  (r = inr (Z.of_nat (size (map_imap g d.(tasks)))) ∧
   d' = set_tasks (map_imap g d.(tasks) ∪ d.(tasks)) d ∧
   ∀ i t t', d.(tasks) !! i = Some t → g i t = Some t' → tasks_check t' = true).
Proof.
  unfold sql_update. case_bool_decide as H; intros; simplify_eq; [right|by left].
  split_and!; [done..|]. intros i t t' Hi Hg. apply (H i).
  by rewrite map_lookup_imap, Hi.
Qed.

Lemma sql_update_lookup g d n d' i :
  sql_update g d = (inr n, d') →
  d'.(tasks) !! i = (λ t, default t (g i t)) <$> d.(tasks) !! i.
Proof.
  intros [[? ?]|(_ & -> & _)]%sql_update_inv; [done|]. simpl.
  rewrite lookup_union, map_lookup_imap.
  destruct (d.(tasks) !! i) as [t|]; simpl; [|done]. by destruct (g i t).
Qed.

Lemma sql_update_other g d r d' :
  sql_update g d = (r, d') →
  d'.(task_dependencies) = d.(task_dependencies) ∧
  d'.(task_heartbeats) = d.(task_heartbeats) ∧
  d'.(notifications) = d.(notifications) ∧
  (∀ i, is_Some (d'.(tasks) !! i) ↔ is_Some (d.(tasks) !! i)).
Proof.
  intros H. destruct (sql_update_inv _ _ _ _ H) as [[-> ->]|(-> & Hd & _)]; [done|].
  rewrite Hd. split_and!; try done. intros i. rewrite <- Hd.
  rewrite (sql_update_lookup _ _ _ _ _ H). by rewrite fmap_is_Some.
Qed.

Lemma sql_update_wf g d r d' :
  (∀ i t t', d.(tasks) !! i = Some t → row_ok t → g i t = Some t' → tasks_check t' = true → row_ok t') →
  sql_update g d = (r, d') → wf d → wf d'.
Proof.
  intros Hg H [Hr Hd Hh]. pose proof (sql_update_other _ _ _ _ H) as (Ed & Eh & _ & Hdom).
  destruct (sql_update_inv _ _ _ _ H) as [[_ ->]|(-> & _ & Hc)]; [done|].
  constructor.
  - intros i t' Hi. rewrite (sql_update_lookup _ _ _ _ _ H) in Hi.
    destruct (d.(tasks) !! i) as [t|] eqn:Ht; simplify_eq/=.
    destruct (g i t) as [t'|] eqn:E; simpl; [|by apply (Hr i)].
    eapply Hg; eauto.
  - intros p. rewrite Ed, !Hdom. apply Hd.
  - intros tok id hb. rewrite Eh, Hdom. apply Hh.
Qed.

(** An update keeps running tasks covered unless it starts some; what it stops needs no cover. *)
Lemma sql_update_covered g d r d' X Y :
  (∀ i t t', g i t = Some t' → t'.(status) = TaskStatusRunning →
     t.(status) = TaskStatusRunning ∧ t'.(token) = t.(token)) →
  (∀ i t, d.(tasks) !! i = Some t → i ∈ X → i ∉ Y →
     (default t (g i t)).(status) ≠ TaskStatusRunning) →
  r ≠ inl ErrConstraint →
  sql_update g d = (r, d') → covered_except X d → covered_except Y d'.
Proof.
  intros Hg HX Hr H Hc. pose proof (sql_update_other _ _ _ _ H) as (_ & Hhb & _).
  destruct (sql_update_inv _ _ _ _ H) as [[-> _]|(-> & _ & _)]; [done|].
  intros id t' Hi Hrun HY. rewrite (sql_update_lookup _ _ _ _ _ H) in Hi.
  destruct (d.(tasks) !! id) as [t|] eqn:Ht; simplify_eq/=.
  destruct (decide (id ∈ X)) as [HinX|HnX].
  { exfalso. by eapply HX. }
  rewrite Hhb. destruct (g id t) as [t'|] eqn:E; simpl in *.
  - destruct (Hg _ _ _ E Hrun) as [? ->]. by eapply Hc.
  - by eapply Hc.
Qed.

(** ** The rows the statements write *)

Ltac row_unfold :=
  unfold phase_of, start_task, requeue_row, finish_row, cancel_row, mark_cancel_attempted,
    set_payload, error_ok in *; simpl in *.

Lemma phase_of_inv t p :
  phase_of t = Some p →
  match p with
  | Pending => t.(status) = TaskStatusPending ∧ t.(started_at) = None ∧ t.(finished_at) = None
  | Running => t.(status) = TaskStatusRunning ∧ is_Some t.(started_at) ∧ t.(finished_at) = None
  | Completed => t.(status) = TaskStatusCompleted ∧ is_Some t.(started_at) ∧ is_Some t.(finished_at)
  | Failed => t.(status) = TaskStatusFailed ∧ is_Some t.(started_at) ∧ is_Some t.(finished_at)
  | Canceled => t.(status) = TaskStatusCanceled ∧ t.(started_at) = None ∧ t.(finished_at) = None
  | Aborted => t.(status) = TaskStatusCanceled ∧ is_Some t.(started_at) ∧ t.(finished_at) = None
  end.
Proof.
  unfold phase_of. destruct (started_at t), (finished_at t); intros; repeat case_bool_decide;
    simplify_eq/=; eauto.
Qed.

Lemma new_task_ok now t : tasks_check (new_task now t) = true → row_ok (new_task now t).
Proof. intros H. constructor; try done. by intros []. Qed.

Lemma start_task_ok now tok t :
  row_ok t → t.(started_at) = None → tasks_check (start_task now tok t) = true →
  row_ok (start_task now tok t).
Proof.
  intros [[p Hp] _ _ ? _ ? ?] Hs Hc. constructor; try done.
  unfold phase_of in *. simpl. rewrite Hs in Hp.
  destruct (finished_at t); [done|]. by eexists.
Qed.

Lemma requeue_row_ok now t :
  row_ok t → tasks_check (requeue_row now None t) = true → row_ok (requeue_row now None t).
Proof.
  intros [? _ _ ? _ ? ?] Hc. constructor; simpl; try done. lia.
Qed.

Lemma finish_row_ok now st msg retry t :
  row_ok t → is_Some t.(started_at) → tasks_check (finish_row now st msg retry t) = true →
  st = TaskStatusCompleted ∨ st = TaskStatusFailed →
  match msg with Some m => valid_utf8 m | None => True end →
  (is_Some retry → t.(fixed).(t_type) ∈ RequeueableTasks) →
  row_ok (finish_row now st msg retry t).
Proof.
  intros [? _ ? ? _ ? ?] [s Hs] Hc Hst Hm Hr. constructor; simpl; try done.
  - unfold phase_of. simpl. rewrite Hs. destruct Hst as [-> | ->]; by eexists.
  - unfold error_ok. simpl. destruct msg as [m|]; simpl; [|done].
    split; [by apply sql_left_valid|apply sql_left_char_count].
  - by destruct Hst as [-> | ->].
Qed.

Lemma cancel_row_ok msg t :
  row_ok t → t.(finished_at) = None → tasks_check (cancel_row msg t) = true →
  valid_utf8 msg → row_ok (cancel_row msg t).
Proof.
  intros [? _ ? ? _ ? ?] Hf Hc Hm. constructor; simpl; try done.
  - unfold phase_of. simpl. rewrite Hf. destruct (started_at t); by eexists.
  - unfold error_ok. simpl. split; [by apply sql_left_valid|apply sql_left_char_count].
Qed.

Lemma mark_cancel_attempted_ok t : row_ok t → row_ok (mark_cancel_attempted t).
Proof. intros [? ? ? ? ? ? ?]. by constructor. Qed.

Lemma set_payload_ok p t : row_ok t → row_ok (set_payload p t).
Proof. intros [? ? ? ? ? ? ?]. by constructor. Qed.

#[export] Hint Resolve new_task_ok start_task_ok requeue_row_ok finish_row_ok cancel_row_ok
  mark_cancel_attempted_ok set_payload_ok : go.

(** The literal messages are ASCII. *)
Fixpoint ascii_only (s : string) : bool :=
  match s with "" => true | String c r => byte_in 0 127 c && ascii_only r end.

Lemma ascii_only_valid s : ascii_only s = true → valid_utf8 s.
Proof.
  induction s as [|c s IH]; simpl; [intros _; apply valid_nil|].
  intros [Hc Hs]%andb_true_iff. apply valid_step; simpl; rewrite Hc; [done|]. simpl. auto.
Qed.

(** ** Statements and the invariant

    Inside a transaction a statement may leave some running tasks uncovered for a moment: [inv X]
    excepts the tasks of [X], and the operations start and end with [inv ∅]. *)

Definition inv (X : gset uuid) (d : db) : Prop := wf d ∧ covered_except X d.

Definition stmt {A} (P : db → Prop) (f : db → (qerr + A) * db) (Q : A → db → Prop) : Prop :=
  ∀ d, P d → match f d with (inr a, d') => Q a d' | (inl _, d') => P d' end.

Lemma stmt_update (g : uuid → task → option task) (P : db → Prop) X Y :
  (∀ d, P d → inv X d) →
  (∀ d i t t', P d → d.(tasks) !! i = Some t → row_ok t → g i t = Some t' →
     tasks_check t' = true → row_ok t') →
  (∀ i t t', g i t = Some t' → t'.(status) = TaskStatusRunning →
     t.(status) = TaskStatusRunning ∧ t'.(token) = t.(token)) →
  (∀ d i t, P d → d.(tasks) !! i = Some t → row_ok t → i ∈ X → i ∉ Y →
     (default t (g i t)).(status) ≠ TaskStatusRunning) →
  stmt P (sql_update g) (λ _, inv Y).
Proof.
  intros HP Hok Hrun HXY d Hd. destruct (HP _ Hd) as [Hwf Hc].
  destruct (sql_update g d) as [[e|n] d'] eqn:E.
  { destruct (sql_update_inv _ _ _ _ E) as [[_ ->]|[? _]]; done. }
  split.
  - eapply sql_update_wf; [|done|done]. intros. by eapply Hok.
  - apply (sql_update_covered g d (inr n) d' X Y); [done| |done..].
    intros i t Hi ? ?. eapply HXY; [done..| |done|done]. by apply (wf_rows _ Hwf i).
Qed.

Lemma row_not_running t : row_ok t → is_Some t.(finished_at) ∨ t.(started_at) = None →
  t.(status) ≠ TaskStatusRunning.
Proof.
  intros [[p Hp] _ _ _ _ _ _] H Hr. apply phase_of_inv in Hp.
  rewrite Hr in Hp. destruct p; destruct Hp as (? & Hs & Hf); try done.
  rewrite Hf in H. destruct H as [[? ?]|H]; [done|]. rewrite H in Hs. by destruct Hs.
Qed.

Lemma excepted_id (X : gset uuid) i id : i ∈ X → i ∉ X ∖ {[id]} → i = id.
Proof. destruct (decide (i = id)); set_solver. Qed.

Lemma stmt_enqueue X now id t : stmt (inv X) (sqlEnqueue now id t) (λ _, inv X).
Proof.
  intros d [[Hr Hd Hh] Hc]. unfold sqlEnqueue.
  destruct (isSome (tasks d !! id) || _) eqn:E; [done|].
  apply orb_false_iff in E as [E1 E2%negb_false_iff].
  destruct (tasks d !! id) eqn:Hi; [done|].
  assert (∀ i, is_Some (tasks d !! i) → is_Some (<[id:=new_task now t]> (tasks d) !! i)) as Hmono.
  { intros i ?. rewrite lookup_insert. by case_decide. }
  split; [constructor; simpl|].
  - apply map_Forall_insert_2; [by apply new_task_ok|done].
  - intros p Hp. destruct (Hd p Hp). split; by apply Hmono.
  - intros tok i hb Hl. destruct (Hh _ _ _ Hl). split; [done|]. by apply Hmono.
  - intros i t' Hi' Hrun HX. simpl in *. rewrite lookup_insert in Hi'.
    case_decide; simplify_eq; by eapply Hc.
Qed.

Lemma stmt_insert_dependency X id dep : stmt (inv X) (sqlInsertDependency id dep) (λ _, inv X).
Proof.
  intros d [[Hr Hd Hh] Hc]. unfold sqlInsertDependency.
  destruct (_ && _) eqn:E; [|done]. apply andb_true_iff in E as [E1 E2].
  split; [constructor; simpl; try done|done].
  intros p [Hp|Hp%list_elem_of_singleton]%elem_of_app; [by apply Hd|]. subst. simpl.
  by destruct (tasks d !! id), (tasks d !! dep).
Qed.

Lemma stmt_add_notification X n :
  stmt (A := ()) (inv X) (λ d, (inr (), add_notification n d)) (λ _, inv X).
Proof. intros d [[] ?]. split; [by constructor|done]. Qed.

Lemma stmt_cancel X id msg :
  valid_utf8 msg → stmt (inv X) (sqlCancelTask id msg) (λ _, inv (X ∖ {[id]})).
Proof.
  intros Hm. eapply stmt_update; [done|..].
  - intros d i t t' _ _ Hok Hg ?. destruct (_ && _) eqn:E; simplify_eq.
    apply andb_true_iff in E as [_ E]. apply cancel_row_ok; try done. by destruct (finished_at t).
  - intros i t t' Hg. by destruct (_ && _); simplify_eq.
  - intros d i t _ Hi Hok HX HY. assert (i = id) as -> by by eapply excepted_id.
    rewrite bool_decide_true by done. simpl.
    destruct (finished_at t) eqn:E; simpl; [|done]. apply row_not_running; [done|].
    rewrite E. eauto.
Qed.

Lemma stmt_set_cancel_attempted X id : stmt (inv X) (sqlSetCancelAttempted id) (λ _, inv X).
Proof.
  eapply stmt_update; [done|..].
  - intros d i t t' _ _ Hok Hg ?. case_bool_decide; simplify_eq. by apply mark_cancel_attempted_ok.
  - intros i t t' Hg. case_bool_decide; by simplify_eq.
  - done.
Qed.

Lemma stmt_update_payload X p id : stmt (inv X) (sqlUpdatePayload p id) (λ _, inv X).
Proof.
  eapply stmt_update; [done|..].
  - intros d i t t' _ _ Hok Hg ?. case_bool_decide; simplify_eq. by apply set_payload_ok.
  - intros i t t' Hg. case_bool_decide; by simplify_eq.
  - done.
Qed.

Lemma stmt_requeue X now id : stmt (inv X) (sqlRequeue now id) (λ _, inv (X ∖ {[id]})).
Proof.
  eapply stmt_update; [done|..].
  - intros d i t t' _ _ Hok Hg ?. destruct (_ && _) eqn:E; simplify_eq.
    apply andb_true_iff in E as [_ E]. destruct (finished_at t); [done|]. by apply requeue_row_ok.
  - intros i t t' Hg. by destruct (_ && _); simplify_eq.
  - intros d i t _ Hi Hok HX HY. assert (i = id) as -> by by eapply excepted_id.
    rewrite bool_decide_true by done. simpl.
    destruct (started_at t) eqn:Es, (finished_at t) eqn:Ef; simpl; try done;
      apply row_not_running; try done; rewrite ?Es, ?Ef; eauto.
Qed.

Lemma stmt_requeue_failed X now types : stmt (inv X) (sqlRequeueFailedTasks now types) (λ _, inv X).
Proof.
  intros d Hd. unfold sqlRequeueFailedTasks. set (g := λ i t, if existsb _ _ then _ else _).
  assert (stmt (λ d', d' = d) (sql_update g) (λ _, inv X)) as H.
  { eapply stmt_update; subst g.
    - by intros ? ->.
    - intros ? i t t' -> _ Hok Hg ?. simpl in Hg. destruct (existsb _ _); simplify_eq.
      by apply requeue_row_ok.
    - intros i t t' Hg. simpl in Hg. by destruct (existsb _ _); simplify_eq.
    - done. }
  specialize (H d eq_refl). destruct (sql_update g d) as [[|] ?]; by simplify_eq.
Qed.

(** [sqlFinishTask] runs on a task whose type is known from the row read before. *)
Definition typed (id : uuid) (ty : string) (d : db) : Prop :=
  ∀ t, d.(tasks) !! id = Some t → t.(fixed).(t_type) = ty.

Lemma check_finished t : tasks_check t = true → is_Some t.(finished_at) → is_Some t.(started_at).
Proof.
  unfold tasks_check, not_finished_when_not_started. intros H [f Hf]. rewrite Hf in H.
  destruct (started_at t); [eauto|done].
Qed.

Lemma stmt_finish X now st msg retry id ty :
  st = TaskStatusCompleted ∨ st = TaskStatusFailed →
  match msg with Some m => valid_utf8 m | None => True end →
  (is_Some retry → ty ∈ RequeueableTasks) →
  stmt (λ d, inv X d ∧ typed id ty d) (sqlFinishTask now st msg retry id) (λ _, inv (X ∖ {[id]})).
Proof.
  intros Hst Hm Hr d Hd. unfold sqlFinishTask.
  set (g := λ i t, if _ && isNone (finished_at t) then _ else _).
  assert (stmt (λ d, inv X d ∧ typed id ty d) (sql_update g) (λ _, inv (X ∖ {[id]}))) as H.
  { eapply stmt_update; subst g; simpl.
    - by intros ? [? _].
    - intros d' i t t' [_ Hty] Hi Hok Hg Hc. case_bool_decide; simplify_eq/=.
      destruct (finished_at t) eqn:E; simplify_eq/=.
      apply finish_row_ok; try done; [|by rewrite (Hty _ Hi)].
      by apply check_finished in Hc.
    - intros i t t' Hg. destruct (_ && _); simplify_eq/=. by destruct Hst as [-> | ->].
    - intros d' i t _ Hi Hok HX HY. assert (i = id) as -> by by eapply excepted_id.
      rewrite bool_decide_true by done. simpl.
      destruct (finished_at t) eqn:E; simpl; [|by destruct Hst as [-> | ->]].
      apply row_not_running; [done|]. rewrite E. eauto. }
  specialize (H d Hd). destruct (sql_update g d) as [[|n] d'] eqn:E; [done|].
  destruct (n =? 0) eqn:En; [|done].
  apply Z.eqb_eq in En. destruct (sql_update_inv _ _ _ _ E) as [[? _]|(Hn & -> & _)]; [done|].
  simplify_eq. assert (map_imap g (tasks d) = ∅) as Hempty.
  { apply map_size_empty_iff. lia. }
  rewrite Hempty, (left_id_L ∅ (∪)). by destruct d.
Qed.

Lemma stmt_delete_heartbeat X id : stmt (inv X) (sqlDeleteHeartbeat id) (λ _, inv (X ∪ {[id]})).
Proof.
  intros d [[Hr Hd Hh] Hc]. split; [constructor; simpl; try done|].
  - intros tok i hb [H _]%map_lookup_filter_Some. by eapply Hh.
  - intros i t Hi Hrun HX. simpl in *. destruct (Hc i t Hi Hrun) as (tok & hb & Ht & Hl);
      [set_solver|]. exists tok, hb. split; [done|]. apply map_lookup_filter_Some.
    split; [done|]. set_solver.
Qed.

Lemma stmt_refresh X now tok : stmt (inv X) (sqlRefreshHeartbeat now tok) (λ _, inv X).
Proof.
  intros d [[Hr Hd Hh] Hc]. unfold sqlRefreshHeartbeat.
  destruct (task_heartbeats d !! tok) as [[id hb]|] eqn:Hl; [|done].
  split; [constructor; simpl; try done|].
  - intros tok' i hb'. rewrite lookup_insert. case_decide; intros; simplify_eq; by eapply Hh.
  - intros i t Hi Hrun HX. simpl in *. destruct (Hc i t Hi Hrun HX) as (tok' & hb' & Ht & Hl').
    exists tok'. rewrite lookup_insert. case_decide; simplify_eq; eauto.
Qed.

Lemma stmt_delete_all X : stmt (inv X) sqlDeleteAllTasks (λ _, inv X).
Proof. intros d _. split; [constructor; simpl|]; try done. intros p []%not_elem_of_nil. Qed.

(** ** Dequeue *)

Lemma candidates_elem locked types d id t :
  (id, t) ∈ dequeue_candidates locked types d ↔
  d.(tasks) !! id = Some t ∧ ready d types id t = true ∧ id ∉ locked.
Proof.
  unfold dequeue_candidates. rewrite list_elem_of_filter, elem_of_map_to_list. naive_solver.
Qed.

Lemma best_elem cands id t :
  (id, t) ∈ dequeue_best cands ↔
  (id, t) ∈ cands ∧ ∀ id' t', (id', t') ∈ cands → dequeue_le t t' = true.
Proof.
  unfold dequeue_best. rewrite list_elem_of_filter, forallb_forall. split.
  - intros [H ?]. split; [done|]. intros id' t' Hin%list_elem_of_In. by apply (H (id', t')).
  - intros [? H]. split; [|done]. intros [id' t'] Hin%list_elem_of_In. by apply (H id').
Qed.

Lemma queued_le_total a b : queued_le a b = true ∨ queued_le b a = true.
Proof. destruct a as [a|], b as [b|]; simpl; auto. rewrite !Z.leb_le. lia. Qed.

Lemma queued_le_trans a b c :
  queued_le a b = true → queued_le b c = true → queued_le a c = true.
Proof. destruct a as [a|], b as [b|], c as [c|]; simpl; try done. rewrite !Z.leb_le. lia. Qed.

Lemma dequeue_le_spec t1 t2 :
  dequeue_le t1 t2 = true ↔
  t2.(fixed).(priority) < t1.(fixed).(priority) ∨
  (t1.(fixed).(priority) = t2.(fixed).(priority) ∧ queued_le t1.(queued_at) t2.(queued_at) = true).
Proof. unfold dequeue_le. by rewrite orb_true_iff, andb_true_iff, Z.ltb_lt, Z.eqb_eq. Qed.

Lemma dequeue_le_total t1 t2 : dequeue_le t1 t2 = true ∨ dequeue_le t2 t1 = true.
Proof.
  rewrite !dequeue_le_spec. pose proof (queued_le_total (queued_at t1) (queued_at t2)).
  destruct (Z.lt_total (priority (fixed t1)) (priority (fixed t2))) as [?|[?|?]]; naive_solver.
Qed.

Lemma dequeue_le_trans t1 t2 t3 :
  dequeue_le t1 t2 = true → dequeue_le t2 t3 = true → dequeue_le t1 t3 = true.
Proof.
  rewrite !dequeue_le_spec. intros [?|[? ?]] [?|[? ?]]; [left; lia..|].
  right. split; [lia|]. by eapply queued_le_trans.
Qed.

(** A non-empty list of candidates has a first one. *)
Lemma best_exists cands : cands ≠ [] → dequeue_best cands ≠ [].
Proof.
  intros Hne.
  assert (∃ x, x ∈ cands ∧ ∀ y, y ∈ cands → dequeue_le x.2 y.2 = true) as ([id t] & Hin & Hall).
  { induction cands as [|x l IH]; [done|]. destruct l as [|y l].
    - exists x. split; [left|]. intros y ->%list_elem_of_singleton.
      destruct (dequeue_le_total x.2 x.2); done.
    - destruct IH as (z & Hz & Hall); [done|].
      destruct (dequeue_le_total x.2 z.2) as [H|H].
      + exists x. split; [left|]. intros w [->|Hw]%elem_of_cons.
        * destruct (dequeue_le_total x.2 x.2); done.
        * eapply dequeue_le_trans; [done|]. by apply Hall.
      + exists z. split; [by right|]. intros w [->|Hw]%elem_of_cons; [done|]. by apply Hall. }
  intros H. assert ((id, t) ∈ dequeue_best cands) as Hb.
  { apply best_elem. split; [done|]. intros id' t' ?. by apply (Hall (id', t')). }
  rewrite H in Hb. by apply not_elem_of_nil in Hb.
Qed.

(** What [sqlDequeue] does when it returns a row. *)
Lemma sqlDequeue_inr now locked pick tok types d id t' d' :
  sqlDequeue now locked pick tok types d = (inr (id, t'), d') →
  ∃ t, d.(tasks) !! id = Some t ∧ ready d types id t = true ∧ id ∉ locked ∧
    (∀ id2 t2, d.(tasks) !! id2 = Some t2 → ready d types id2 t2 = true → id2 ∉ locked →
       dequeue_le t t2 = true) ∧
    t' = start_task now tok t ∧ tasks_check t' = true ∧
    d' = set_tasks (<[id := t']> d.(tasks)) d.
Proof.
  unfold sqlDequeue. destruct (_ !! _) as [[id0 t]|] eqn:Hpick; [|done].
  apply list_elem_of_lookup_2, best_elem in Hpick as [Hc Hbest].
  apply candidates_elem in Hc as (Hi & Hready & Hl).
  destruct (sql_update _ _) as [[|n] d1] eqn:E; [done|]. intros; simplify_eq. exists t.
  split_and!; [done..| |done| |].
  - intros id2 t2 ???. eapply Hbest. by apply candidates_elem.
  - destruct (sql_update_inv _ _ _ _ E) as [[? _]|(_ & _ & Hc)]; [done|].
    eapply Hc; [done|]. by rewrite bool_decide_true.
  - destruct (sql_update_inv _ _ _ _ E) as [[? _]|(_ & -> & _)]; [done|].
    f_equal. apply map_eq. intros j. rewrite lookup_union, map_lookup_imap, lookup_insert.
    case_decide; subst.
    + rewrite Hi. simpl. by rewrite bool_decide_true.
    + destruct (tasks d !! j); simpl; [|done]. by rewrite bool_decide_false.
Qed.

Lemma sqlDequeue_inl now locked pick tok types d e d' :
  sqlDequeue now locked pick tok types d = (inl e, d') → d' = d.
Proof.
  unfold sqlDequeue. destruct (_ !! _) as [[id0 t]|]; [|by intros; simplify_eq].
  destruct (sql_update _ _) as [[|n] d1] eqn:E; intros; simplify_eq.
  by destruct (sql_update_inv _ _ _ _ E) as [[_ ->]|[? _]].
Qed.

Lemma ready_spec d types id t :
  ready d types id t = true ↔
  t.(started_at) = None ∧ t.(status) ≠ TaskStatusCanceled ∧
  t.(fixed).(t_type) ∈ types ∧ deps_finished d id = true.
Proof.
  unfold ready. rewrite !andb_true_iff, contains_true, bool_decide_neg_eq.
  destruct (started_at t); naive_solver.
Qed.

(** A ready task of a well-formed table is pending. *)
Lemma ready_pending d types id t :
  row_ok t → ready d types id t = true → phase_of t = Some Pending.
Proof.
  intros [[p Hp] _ _ _ _ _ _] (Hs & Hc & _)%ready_spec. rewrite Hp. f_equal.
  apply phase_of_inv in Hp. destruct p; try done; destruct Hp as (? & Hs' & ?); try done;
    rewrite Hs in Hs'; by destruct Hs'.
Qed.

(** The postcondition of the statement: the row is started, and the only one left uncovered. *)
Definition started_row (tok id : uuid) (t : task) (d : db) : Prop :=
  inv {[id]} d ∧ d.(tasks) !! id = Some t ∧ t.(token) = Some tok.

Lemma stmt_dequeue now locked pick tok types :
  stmt (inv ∅) (sqlDequeue now locked pick tok types) (λ r, started_row tok r.1 r.2).
Proof.
  intros d [Hwf Hc]. destruct (sqlDequeue _ _ _ _ _ d) as [[e|[id t']] d'] eqn:E.
  { by apply sqlDequeue_inl in E as ->. }
  apply sqlDequeue_inr in E as (t & Hi & Hr & _ & _ & -> & Hck & ->).
  pose proof Hwf as [Hrows Hd Hh]. apply ready_spec in Hr as (Hs & _).
  assert (∀ i, is_Some (tasks d !! i) →
    is_Some (<[id:=start_task now tok t]> (tasks d) !! i)) as Hmono.
  { intros i ?. rewrite lookup_insert. by case_decide. }
  split; [split; [constructor; simpl|]|split; simpl; [by rewrite lookup_insert_eq|done]].
  - apply map_Forall_insert_2; [|done]. apply start_task_ok; try done. by apply (Hrows id).
  - intros p Hp. destruct (Hd p Hp). split; by apply Hmono.
  - intros k i hb Hl. destruct (Hh _ _ _ Hl). split; [done|]. by apply Hmono.
  - intros i t2 Hi2 Hrun HX. simpl in *. rewrite lookup_insert_ne in Hi2 by set_solver.
    eapply Hc; eauto. set_solver.
Qed.

Lemma stmt_insert_heartbeat now tok id t :
  stmt (started_row tok id t) (sqlInsertHeartbeat now tok id) (λ _, inv ∅).
Proof.
  intros d ([[Hr Hd Hh] Hc] & Hi & Ht). unfold sqlInsertHeartbeat.
  destruct (_ || _ || _) eqn:E; [done|].
  apply orb_false_iff in E as [[E1 E2%bool_decide_eq_false]%orb_false_iff E3].
  destruct (task_heartbeats d !! tok) eqn:Hl; [done|].
  split; [constructor; simpl; try done|].
  - intros k i hb. rewrite lookup_insert. case_decide; intros; simplify_eq; eauto.
  - intros i t2 Hi2 Hrun _. simpl in *. destruct (decide (i = id)) as [->|Hne].
    + simplify_eq. exists tok, now. by rewrite lookup_insert_eq.
    + destruct (Hc i t2 Hi2 Hrun) as (k & hb & Hk & Hlk); [set_solver|].
      exists k, hb. split; [done|]. rewrite lookup_insert_ne; [done|]. congruence.
Qed.
