(* ===== verification/TaskQueueOps.v ===== *)
(** * The task queue: the operations preserve the invariant

    Every method of [PgQueue] (and of the task client) takes a well-formed database to a
    well-formed database on every path: success, an error of its own, or a failing database call
    anywhere in it. [step] and [reachable] put the methods together into the queue as a
    transition system. *)

From S2P Require Import Prelude GoStrings Config TxMonad TaskQueue TaskQueueInv.
From stdpp Require Import options.

Open Scope string_scope.
Open Scope Z_scope.

Definition any_error : qerr → db → Prop := λ _ _, True.

Lemma hoare_stmt {A} (P : db → Prop) (f : db → (qerr + A) * db) Q (R : qerr → db → Prop) :
  stmt P f Q → (∀ e d, P d → R e d) → hoare P (db_call f) Q R.
Proof.
  intros Hf HR. apply hoare_call; [done|]. intros d Hd. specialize (Hf d Hd).
  destruct (f d) as [[] ?]; auto.
Qed.

(** A read, whose result is a function of the database. *)
Lemma hoare_read {A} (P : db → Prop) (f : db → qerr + A) (R : qerr → db → Prop) :
  (∀ e d, P d → R e d) →
  hoare P (db_call (λ d, (f d, d))) (λ a d, P d ∧ f d = inr a) R.
Proof. intros HR. apply hoare_call; [done|]. intros d Hd. destruct (f d) eqn:E; auto. Qed.

(** One statement of a transaction, its error wrapped or not. *)
Ltac tx_stmt lem :=
  eapply hoare_bind;
  [ try apply hoare_map_err; eapply hoare_stmt; [apply lem | done] | intros ].
Ltac tx_last lem := try apply hoare_map_err; eapply hoare_stmt; [apply lem | done].

Lemma hoare_with_tx {A} eb ec (body : Q A) P Q' :
  hoare P body Q' any_error → hoare P (with_tx eb ec body) Q' (λ _, P).
Proof. intros H. by eapply hoare_transaction. Qed.

Lemma any_error_intro (P : db → Prop) : ∀ e d, P d → any_error e d.
Proof. done. Qed.
#[export] Hint Resolve any_error_intro : go.

Lemma hoare_pre {A} (m : Q A) (P P' : db → Prop) Q' R :
  (∀ d, P' d → P d) → hoare P m Q' R → hoare P' m Q' R.
Proof. intros HP Hm. by eapply hoare_conseq. Qed.

Lemma hoare_noop_same P : hoare P (db_noop : Q ()) (λ _, P) (λ _, P).
Proof. by apply hoare_noop. Qed.

(** The effect of an operation on the invariant. *)
Definition preserves {A} (m : Q A) : Prop :=
  hoare (inv ∅) m (λ _, inv ∅) (λ _, inv ∅).

Lemma Enqueue_inv now id t : preserves (Enqueue now id t).
Proof.
  eapply hoare_bind; [apply hoare_noop_same|]. intros ?. simpl.
  apply hoare_with_tx. tx_stmt (stmt_enqueue ∅).
  eapply hoare_bind.
  { apply (hoare_iter _ _ (inv ∅)). intros dep _. tx_last (stmt_insert_dependency ∅). }
  intros ?. tx_stmt (stmt_add_notification ∅). by apply hoare_ret.
Qed.

Lemma dequeueMaybe_inv a tok types : preserves (dequeueMaybe a tok types).
Proof.
  eapply hoare_transaction with (R0 := any_error); [|done].
  eapply hoare_bind.
  { apply hoare_map_err. eapply hoare_stmt; [apply stmt_dequeue|done]. }
  intros [id t]. simpl. tx_stmt stmt_insert_heartbeat.
  eapply hoare_bind; [apply hoare_map_err, (hoare_read (inv ∅)); done|].
  intros deps. apply hoare_ret. by intros d [? _].
Qed.

Lemma statusWithConn_read (P : db → Prop) id :
  hoare P (statusWithConn id)
    (λ info d, P d ∧ ∃ t, d.(tasks) !! id = Some t ∧ info = scan_task id t (sqlQueryDependencies id d))
    (λ _, P).
Proof.
  eapply hoare_bind.
  { apply (hoare_call _ P (λ t d, P d ∧ d.(tasks) !! id = Some t) (λ _, P)); [done|].
    intros d Hd. by destruct (tasks d !! id) eqn:E. }
  intros t. simpl. eapply hoare_bind.
  { apply (hoare_call _ (λ d, P d ∧ d.(tasks) !! id = Some t)
             (λ deps d, (P d ∧ d.(tasks) !! id = Some t) ∧ deps = sqlQueryDependencies id d)
             (λ _, P)); [by intros ? ? [? _]|done]. }
  intros deps. apply hoare_ret. intros d [[? ?] ->]. eauto.
Qed.

Lemma cancel_dependents_inv X msg l w :
  valid_utf8 msg →
  hoare (inv X) (iter (λ id, wrap w (db_call (sqlCancelTask id msg);; mret ())) l)
    (λ _, inv X) any_error.
Proof.
  intros Hm. apply hoare_iter. intros id _. apply hoare_map_err.
  eapply hoare_bind; [eapply hoare_stmt; [by apply (stmt_cancel X)|done]|].
  intros n. apply hoare_ret. intros d [? Hc]. split; [done|].
  intros i t ???. apply Hc; [done..|]. set_solver.
Qed.

Lemma inv_except_undo id d : inv ((∅ ∪ {[id]}) ∖ {[id]}) d → inv ∅ d.
Proof. by replace ((∅ ∪ {[id]}) ∖ {[id]} : gset uuid) with (∅ : gset uuid) by set_solver. Qed.

Lemma next_retry_requeueable ub gonow st info :
  is_Some (next_retry ub gonow st info) → info.(ti_Typename) ∈ RequeueableTasks.
Proof.
  unfold next_retry. intros [x Hx]. destruct (_ && _ && _) eqn:E; [|done].
  apply andb_true_iff in E as [_ E]. by apply contains_true in E.
Qed.

Lemma finishWithTx_inv ub gonow now id err :
  hoare (inv ∅) (finishWithTx ub gonow now id err) (λ _, inv ∅) any_error.
Proof.
  unfold finishWithTx.
  destruct (match err with Some _ => _ | None => _ end) as [st errMsg] eqn:Est.
  assert (st = TaskStatusCompleted ∨ st = TaskStatusFailed) as Hst.
  { destruct err; simplify_eq; auto. }
  assert (match errMsg with Some m => valid_utf8 m | None => True end) as Hm.
  { destruct err; simplify_eq; [apply to_valid_utf8_valid|done]. }
  eapply hoare_bind.
  { apply hoare_map_err. eapply hoare_conseq; [apply (statusWithConn_read (inv ∅) id)|done| |done].
    intros info d H. exact H. }
  intros info. simpl. destruct (_ || _); [by apply hoare_throw|].
  eapply hoare_bind.
  { apply hoare_map_err. eapply (hoare_call _ _
      (λ _ d, inv (∅ ∪ {[id]}) d ∧ typed id (ti_Typename info) d)); [done|].
    intros d [Hd (t & Ht & ->)]. split; [by apply stmt_delete_heartbeat|].
    intros t' Ht'. simpl in *. by simplify_eq. }
  intros ?. simpl. eapply hoare_bind.
  { apply hoare_map_err. eapply hoare_stmt; [eapply stmt_finish|]; try done.
    apply next_retry_requeueable. }
  intros ?. eapply (hoare_bind _ _ _ (λ _, inv ∅)).
  { eapply hoare_pre; [apply inv_except_undo|].
    case_bool_decide; [|by apply hoare_ret].
    eapply hoare_bind; [apply hoare_map_err, (hoare_read (inv ∅)); done|].
    intros deps. apply (hoare_pre _ (inv ∅)); [by intros d [? _]|].
    by apply cancel_dependents_inv, ascii_only_valid. }
  intros ?. tx_last (stmt_add_notification ∅).
Qed.

Lemma Finish_inv ub gonow now id err : preserves (Finish ub gonow now id err).
Proof. apply hoare_with_tx, finishWithTx_inv. Qed.

Lemma Cancel_inv id : preserves (Cancel id).
Proof.
  eapply hoare_bind; [apply hoare_noop_same|]. intros ?. simpl. apply hoare_with_tx.
  tx_stmt (stmt_add_notification ∅). tx_stmt (stmt_delete_heartbeat ∅).
  eapply hoare_bind.
  { apply hoare_map_err. eapply hoare_stmt; [|done]. by apply stmt_cancel, ascii_only_valid. }
  intros ?. tx_stmt stmt_set_cancel_attempted.
  eapply hoare_pre; [apply inv_except_undo|].
  eapply hoare_bind; [apply hoare_map_err, (hoare_read (inv ∅)); done|].
  intros deps. simpl. apply (hoare_pre _ (inv ∅)); [by intros d [? _]|].
  eapply hoare_bind; [by apply cancel_dependents_inv, ascii_only_valid|].
  intros ?. tx_last (stmt_add_notification ∅).
Qed.

Lemma requeue_body_inv ub gonow now id :
  hoare (inv ∅) (requeue_body ub gonow now id) (λ _, inv ∅) any_error.
Proof.
  eapply hoare_bind.
  { apply hoare_map_err. eapply hoare_conseq; [apply (statusWithConn_read (inv ∅) id)|done| |done].
    intros info d [H _]. exact H. }
  intros info. simpl. destruct (_ && _); [by apply hoare_throw|].
  destruct (_ || _); [by apply hoare_throw|]. destruct (_ =? _).
  { eapply hoare_bind; [apply hoare_map_err, finishWithTx_inv|]. intros ?. by apply hoare_ret. }
  tx_stmt (stmt_delete_heartbeat ∅). tx_stmt stmt_requeue.
  destruct (negb _); [by apply hoare_throw|].
  eapply hoare_pre; [apply inv_except_undo|].
  tx_stmt (stmt_add_notification ∅). by apply hoare_ret.
Qed.

Lemma Requeue_inv ub gonow now id : preserves (Requeue ub gonow now id).
Proof.
  eapply hoare_bind; [apply hoare_with_tx, requeue_body_inv|].
  intros [e|]; [by apply hoare_throw|by apply hoare_ret].
Qed.

Lemma RequeueFailedTasks_inv now types : preserves (RequeueFailedTasks now types).
Proof.
  apply hoare_with_tx. tx_stmt (stmt_requeue_failed ∅). tx_last (stmt_add_notification ∅).
Qed.

Lemma UpdatePayload_inv info p : preserves (UpdatePayload info p).
Proof. tx_stmt (stmt_update_payload ∅). by apply hoare_ret. Qed.

Lemma IdFromToken_read P tok : hoare P (IdFromToken tok) (λ _, P) (λ _, P).
Proof.
  eapply hoare_bind; [apply hoare_noop_same|]. intros ?. simpl.
  eapply (hoare_bind _ _ _ (λ _, P)).
  { apply hoare_map_err, hoare_call; [done|]. intros d Hd. unfold sqlQueryIdFromToken.
    by destruct (base.filter _ _) as [|[? ?] ?]. }
  intros r. by apply hoare_ret.
Qed.

Lemma RefreshHeartbeat_inv now tok : preserves (RefreshHeartbeat now tok).
Proof.
  unfold preserves, RefreshHeartbeat. case_bool_decide; [by apply hoare_ret|].
  tx_stmt (stmt_refresh ∅). destruct (_ =? _); [by apply hoare_ret|].
  eapply hoare_bind; [apply (IdFromToken_read (inv ∅))|]. intros [id []]; simpl; [|by apply hoare_ret].
  tx_stmt (stmt_refresh ∅). destruct (_ =? _); [by apply hoare_ret|by apply hoare_throw].
Qed.

Lemma RemoveAllTasks_inv : preserves RemoveAllTasks.
Proof. tx_last (stmt_delete_all ∅). Qed.

(** ** The queue as a transition system *)

Inductive op :=
  | OpEnqueue (now : time) (id : uuid) (t : Task)
  | OpDequeue (a : attempt) (tok : uuid) (taskTypes : list string)
  | OpFinish (ub gonow now : time) (id : uuid) (err : option string)
  | OpCancel (id : uuid)
  | OpRequeue (ub gonow now : time) (id : uuid)
  | OpRequeueFailed (now : time) (taskTypes : list string)
  | OpUpdatePayload (info : TaskInfo) (p : string)
  | OpRefreshHeartbeat (now : time) (tok : uuid)
  | OpRemoveAll.

Definition run_op (o : op) : Q () :=
  match o with
  | OpEnqueue now id t => Enqueue now id t;; mret ()
  | OpDequeue a tok types => dequeueMaybe a tok types;; mret ()
  | OpFinish ub gonow now id err => Finish ub gonow now id err
  | OpCancel id => Cancel id
  | OpRequeue ub gonow now id => Requeue ub gonow now id
  | OpRequeueFailed now types => RequeueFailedTasks now types
  | OpUpdatePayload info p => UpdatePayload info p;; mret ()
  | OpRefreshHeartbeat now tok => RefreshHeartbeat now tok
  | OpRemoveAll => RemoveAllTasks
  end.

(** [uuid.New()] returns an identifier the caller cannot have named as a dependency. *)
Definition op_ok (o : op) : Prop :=
  match o with OpEnqueue _ id t => id ∉ t.(Dependencies) | _ => True end.

(** One call of one method by any process, with any pattern of database failures. *)
Inductive step : db → db → Prop :=
  | step_op o fs d r fs' d' : op_ok o → run_op o (fs, d) = (r, (fs', d')) → step d d'.

Definition reachable : db → Prop := rtc step empty_db.

Lemma run_op_inv o : preserves (run_op o).
Proof.
  destruct o; simpl; auto using Finish_inv, Cancel_inv, Requeue_inv, RequeueFailedTasks_inv,
    RefreshHeartbeat_inv, RemoveAllTasks_inv;
  (apply (hoare_bind _ _ _ (λ _, inv ∅)); [|intros ?; by apply hoare_ret]).
  - apply Enqueue_inv.
  - apply dequeueMaybe_inv.
  - apply UpdatePayload_inv.
Qed.

Lemma empty_inv : inv ∅ empty_db.
Proof. split; [constructor|]; try done. intros p []%not_elem_of_nil. Qed.

Lemma step_inv d d' : step d d' → inv ∅ d → inv ∅ d'.
Proof.
  intros [o fs d0 r fs' d1 _ H] Hd. pose proof (run_op_inv o fs d0 Hd) as Hp.
  rewrite H in Hp. by destruct r.
Qed.

Lemma rtc_step_inv d d' : rtc step d d' → inv ∅ d → inv ∅ d'.
Proof. induction 1; eauto using step_inv. Qed.

Lemma reachable_inv d : reachable d → inv ∅ d.
Proof. intros H. eapply rtc_step_inv; [done|apply empty_inv]. Qed.
