(* ===== verification/TaskQueueSpec.v ===== *)
(** * The task queue: what each operation does

    For every method of the queue: the exact change of the tables when it succeeds, that it changes
    nothing when it fails, and when it succeeds. These are the lemmas the theorems of
    [TaskQueueThms] are made of. *)

From S2P Require Import Prelude GoStrings Config TxMonad TaskQueue TaskQueueInv TaskQueueOps.
From stdpp Require Import options.

Open Scope string_scope.
Open Scope Z_scope.

(** ** Row-wise changes of the table *)

Definition map_rows (f : uuid → task → task) (d : db) : db :=
  set_tasks (map_imap (λ i t, Some (f i t)) d.(tasks)) d.

Lemma map_rows_lookup f d i : (map_rows f d).(tasks) !! i = f i <$> d.(tasks) !! i.
Proof. simpl. rewrite map_lookup_imap. by destruct (tasks d !! i). Qed.

Lemma map_rows_compose f g d : map_rows f (map_rows g d) = map_rows (λ i t, f i (g i t)) d.
Proof.
  unfold map_rows, set_tasks. simpl. f_equal. apply map_eq. intros i.
  rewrite !map_lookup_imap. by destruct (tasks d !! i).
Qed.

Lemma map_rows_ext f g d :
  (∀ i t, d.(tasks) !! i = Some t → f i t = g i t) → map_rows f d = map_rows g d.
Proof.
  intros H. unfold map_rows. f_equal. apply map_eq. intros i. rewrite !map_lookup_imap.
  destruct (tasks d !! i) eqn:E; [|done]. simpl. by rewrite (H i).
Qed.

Lemma map_rows_id d : map_rows (λ _ t, t) d = d.
Proof.
  unfold map_rows, set_tasks. destruct d as [m l h n]. simpl. f_equal. apply map_eq. intros i.
  rewrite map_lookup_imap. by destruct (m !! i).
Qed.

(** A successful UPDATE is a row-wise change. *)
Lemma sql_update_rows g d n d' :
  sql_update g d = (inr n, d') → d' = map_rows (λ i t, default t (g i t)) d.
Proof.
  intros H. pose proof (sql_update_inv _ _ _ _ H) as [[? _]|(_ & -> & _)]; [done|].
  unfold map_rows. f_equal. apply map_eq. intros i.
  rewrite lookup_union, !map_lookup_imap. destruct (tasks d !! i) as [t|]; [|done].
  simpl. by destruct (g i t).
Qed.

(** An UPDATE succeeds when the rows it writes satisfy the constraints. *)
Lemma sql_update_total g d :
  (∀ i t t', d.(tasks) !! i = Some t → g i t = Some t' → tasks_check t' = true) →
  sql_update g d = (inr (Z.of_nat (size (map_imap g d.(tasks)))),
                    map_rows (λ i t, default t (g i t)) d).
Proof.
  intros H. assert (map_Forall (λ _ t, tasks_check t = true) (map_imap g (tasks d))) as Hf.
  { intros i t'. rewrite map_lookup_imap. intros (t & Hi & Hg)%bind_Some. by eapply H. }
  destruct (sql_update g d) as [[e|n] d'] eqn:E.
  - unfold sql_update in E. by rewrite bool_decide_true in E.
  - rewrite (sql_update_rows _ _ _ _ E). f_equal.
    unfold sql_update in E. rewrite bool_decide_true in E by done. by simplify_eq.
Qed.

(** ** The row-wise effect of the operations *)

Definition cancel_if (P : uuid → Prop) `{∀ i, Decision (P i)} (msg : string) (i : uuid) (t : task) : task :=
  if decide (P i) then (if isSome t.(finished_at) then t else cancel_row msg t) else t.

Lemma sqlCancelTask_rows id msg d n d' :
  sqlCancelTask id msg d = (inr n, d') → d' = map_rows (cancel_if (λ i, i = id) msg) d.
Proof.
  intros ->%sql_update_rows. apply map_rows_ext. intros i t _. unfold cancel_if.
  case_bool_decide; destruct (finished_at t); simpl; by case_decide.
Qed.

Lemma cancel_dependents_rows w msg l fs d fs' d' :
  iter (λ id, wrap w (db_call (sqlCancelTask id msg);; mret ())) l (fs, d) = (inr (), (fs', d')) →
  d' = map_rows (cancel_if (λ i, i ∈ l) msg) d.
Proof.
  revert fs d. induction l as [|x l IH]; intros fs d H; simpl in H.
  - apply ret_inr in H as [_ H]. simplify_eq. symmetry. etransitivity; [|apply map_rows_id]. apply map_rows_ext.
    intros i t _. unfold cancel_if. by rewrite decide_False by apply not_elem_of_nil.
  - apply bind_inr in H as ([] & [fs1 d1] & H1 & H). apply map_err_inr in H1.
    apply bind_inr in H1 as (n & [fs2 d2] & H2 & H1). apply call_inr, sqlCancelTask_rows in H2.
    apply ret_inr in H1 as [_ H1]. apply IH in H. simplify_eq. rewrite map_rows_compose. apply map_rows_ext. intros i t _.
    unfold cancel_if. destruct (decide (i = x)) as [->|Hne].
    + rewrite (decide_True _ _ (list_elem_of_here x l)). destruct (finished_at t) eqn:Ef; simpl.
      * by case_decide; rewrite ?Ef.
      * rewrite Ef. by case_decide.
    + destruct (decide (i ∈ l)).
      * by rewrite decide_True by by right.
      * by rewrite decide_False by set_solver.
Qed.

(** [Finish]: the row is closed and, when it failed, its unfinished dependents are canceled. *)
Definition finish_effect (ub gonow now : time) (id : uuid) (err : option string) (d : db)
    (info : TaskInfo) (i : uuid) (t : task) : task :=
  match err with
  | Some msg =>
      cancel_if (λ j, j ∈ sqlQueryDependents id d) "parent task failed" i
        (if decide (i = id) then
           finish_row now TaskStatusFailed (Some (to_valid_utf8 msg))
             (next_retry ub gonow TaskStatusFailed info) t
         else t)
  | None => if decide (i = id) then finish_row now TaskStatusCompleted None None t else t
  end.

Definition without_heartbeats (id : uuid) (d : db) : db :=
  set_heartbeats (base.filter (λ '(_, (i, _)), i ≠ id) d.(task_heartbeats)) d.

Lemma next_retry_completed ub gonow info : next_retry ub gonow TaskStatusCompleted info = None.
Proof. done. Qed.

Lemma sqlFinishTask_inr now st msg retry id d a d' t :
  sqlFinishTask now st msg retry id d = (inr a, d') →
  d.(tasks) !! id = Some t → t.(finished_at) = None →
  d' = map_rows (λ i t, if decide (i = id) then finish_row now st msg retry t else t) d.
Proof.
  unfold sqlFinishTask. destruct (sql_update _ d) as [[|n] d1] eqn:E; [done|].
  destruct (n =? 0); [done|]. intros H Ht Hf. simplify_eq.
  apply sql_update_rows in E as ->. apply map_rows_ext. intros i t2 Hi.
  case_decide as Hd; subst; simplify_eq.
  - rewrite bool_decide_true by done. by rewrite Hf.
  - by rewrite bool_decide_false.
Qed.

Lemma statusWithConn_inr id fs d info fs' d' :
  statusWithConn id (fs, d) = (inr info, (fs', d')) →
  d' = d ∧ ∃ t, d.(tasks) !! id = Some t ∧ info = scan_task id t (sqlQueryDependencies id d).
Proof.
  unfold statusWithConn, taskDependencies. intros H.
  apply bind_inr in H as (t & [fs1 d1] & H1%call_inr & H).
  apply bind_inr in H as (deps & [fs2 d2] & H2%call_inr & H).
  apply ret_inr in H as [? H]. destruct (tasks d !! id) eqn:E; simplify_eq. eauto.
Qed.

Lemma finishWithTx_inr ub gonow now id err fs d fs' d' :
  finishWithTx ub gonow now id err (fs, d) = (inr (), (fs', d')) →
  ∃ t info, d.(tasks) !! id = Some t ∧ is_Some t.(started_at) ∧ t.(finished_at) = None ∧
    info = scan_task id t (sqlQueryDependencies id d) ∧
    d' = add_notification NotifyTasks
           (map_rows (finish_effect ub gonow now id err d info) (without_heartbeats id d)).
Proof.
  unfold finishWithTx. destruct (match err with Some _ => _ | None => _ end) as [st msg] eqn:Est.
  unfold wrap, wrapv. intros H. apply bind_inr in H as (info & [fs1 d1] & H1 & H).
  apply map_err_inr, statusWithConn_inr in H1 as (-> & t & Ht & Hinfo). exists t, info.
  destruct (_ || _) eqn:Eg; [by apply throw_inr in H|].
  apply orb_false_iff in Eg as [Es Ef]. subst info. simpl in Es, Ef.
  destruct (started_at t) as [s|] eqn:Hs; [|done]. destruct (finished_at t) eqn:Hf; [done|].
  split_and!; [done|by eexists|done|done|].
  apply bind_inr in H as (n & [fs2 d2] & H2 & H). apply map_err_inr, call_inr in H2.
  unfold sqlDeleteHeartbeat in H2. simplify_eq.
  apply bind_inr in H as (tm & [fs3 d3] & H3 & H). apply map_err_inr, call_inr in H3.
  eapply (sqlFinishTask_inr _ _ _ _ _ _ _ _ t) in H3; [|done|done].
  apply bind_inr in H as ([] & [fs4 d4] & H4 & H). apply map_err_inr, call_inr in H.
  unfold sqlNotify in H. simplify_eq. f_equal.
  destruct err as [m|]; simplify_eq/=.
  - apply bind_inr in H4 as (deps & [fs5 d5] & H5 & H4).
    apply map_err_inr, call_inr in H5. simplify_eq. apply cancel_dependents_rows in H4 as ->.
    fold (without_heartbeats id d). rewrite map_rows_compose. done.
  - apply ret_inr in H4 as [_ H4]. by simplify_eq.
Qed.

Lemma Finish_inr ub gonow now id err fs d fs' d' :
  Finish ub gonow now id err (fs, d) = (inr (), (fs', d')) →
  ∃ t info, d.(tasks) !! id = Some t ∧ is_Some t.(started_at) ∧ t.(finished_at) = None ∧
    info = scan_task id t (sqlQueryDependencies id d) ∧
    d' = add_notification NotifyTasks
           (map_rows (finish_effect ub gonow now id err d info) (without_heartbeats id d)).
Proof. intros (fs1 & fs2 & H)%transaction_inr. by eapply finishWithTx_inr. Qed.

(** [Cancel]: the task and its dependents, as far as they are unfinished, are marked canceled. *)
Definition cancel_effect (id : uuid) (d : db) (i : uuid) (t : task) : task :=
  let t1 := cancel_if (λ j, j = id) "task canceled" i t in
  let t2 := if decide (i = id) then mark_cancel_attempted t1 else t1 in
  cancel_if (λ j, j ∈ sqlQueryDependents id d) "parent task canceled" i t2.

Lemma Cancel_inr id fs d fs' d' :
  Cancel id (fs, d) = (inr (), (fs', d')) →
  d' = add_notification NotifyTasks
         (map_rows (cancel_effect id d)
            (without_heartbeats id (add_notification (NotifyCancel id) d))).
Proof.
  unfold Cancel, sendCancelNotification, wrap, wrapv. intros H.
  apply bind_inr in H as ([] & [fs1 d1] & ->%noop_inr & H).
  apply transaction_inr in H as (fs2 & fs3 & H).
  apply bind_inr in H as (a1 & [fs4 d4] & H4%map_err_inr%call_inr & H).
  apply bind_inr in H as (n1 & [fs5 d5] & H5%map_err_inr%call_inr & H).
  apply bind_inr in H as (n2 & [fs6 d6] & H6%map_err_inr%call_inr & H).
  apply bind_inr in H as (n3 & [fs7 d7] & H7%map_err_inr%call_inr & H).
  apply bind_inr in H as (deps & [fs8 d8] & H8%map_err_inr%call_inr & H).
  apply bind_inr in H as ([] & [fs9 d9] & H9%cancel_dependents_rows & H).
  apply map_err_inr, call_inr in H. unfold sqlNotify in H.
  unfold sqlDeleteHeartbeat in H5. apply sqlCancelTask_rows in H6. apply sql_update_rows in H7.
  simplify_eq. f_equal. rewrite !map_rows_compose. apply map_rows_ext.
  intros i t _. unfold cancel_effect. f_equal. case_decide.
  - by rewrite bool_decide_true.
  - by rewrite bool_decide_false.
Qed.

(** [Requeue]: the row goes back to pending with one more retry. *)
Definition requeue_effect (now : time) (id : uuid) (i : uuid) (t : task) : task :=
  if decide (i = id) then requeue_row now None t else t.

Definition may_requeue (t : task) : Prop :=
  (t.(cancel_attempted) = false ∨ t.(status) = TaskStatusRunning) ∧
  is_Some t.(started_at) ∧ t.(finished_at) = None.

Lemma requeue_body_inr ub gonow now id fs d r fs' d' :
  requeue_body ub gonow now id (fs, d) = (inr r, (fs', d')) →
  ∃ t, d.(tasks) !! id = Some t ∧ may_requeue t ∧
    match r with
    | None => t.(retries) ≠ MaxTaskRetries ∧
        d' = add_notification NotifyTasks
               (map_rows (requeue_effect now id) (without_heartbeats id d))
    | Some e => e = ErrMaxRetriesExceeded ∧ t.(retries) = MaxTaskRetries ∧
        ∃ fs1 fs2, finishWithTx ub gonow now id (Some max_retries_msg) (fs1, d) = (inr (), (fs2, d'))
    end.
Proof.
  unfold requeue_body, wrap, wrapv. intros H.
  apply bind_inr in H as (info & [fs1 d1] & H1%map_err_inr & H).
  apply statusWithConn_inr in H1 as (-> & t & Ht & ->). exists t. split; [done|]. simpl in H.
  destruct (_ && _) eqn:E1; [by apply throw_inr in H|].
  destruct (_ || _) eqn:E2; [by apply throw_inr in H|].
  assert (may_requeue t) as Hmay.
  { apply orb_false_iff in E2 as [? ?]. apply andb_false_iff in E1 as [?|?%negb_false_iff%bool_decide_eq_true];
      (split; [by auto|by destruct (started_at t), (finished_at t)]). }
  split; [done|]. destruct (_ =? _) eqn:E3.
  - apply bind_inr in H as ([] & [fs2 d2] & H2%map_err_inr & H).
    apply ret_inr in H as [<- H]. simplify_eq. apply Z.eqb_eq in E3. eauto.
  - apply bind_inr in H as (n1 & [fs2 d2] & H2%map_err_inr%call_inr & H).
    apply bind_inr in H as (n2 & [fs3 d3] & H3%map_err_inr%call_inr & H).
    destruct (n2 =? 1); simpl in H; [|by apply throw_inr in H].
    apply bind_inr in H as ([] & [fs4 d4] & H4%map_err_inr%call_inr & H).
    apply ret_inr in H as [<- H]. unfold sqlDeleteHeartbeat, sqlNotify in *.
    apply sql_update_rows in H3. simplify_eq. split; [by apply Z.eqb_neq|].
    f_equal. apply map_rows_ext. intros i t2 Hi. unfold requeue_effect. simpl in Hi.
    destruct Hmay as (_ & [s Hs] & Hf). destruct (decide (i = id)) as [->|Hne]; simplify_eq.
    + rewrite (bool_decide_true (id = id)) by done. by rewrite Hs, Hf.
    + by rewrite (bool_decide_false (i = id)).
Qed.

Lemma Requeue_inr ub gonow now id fs d fs' d' :
  Requeue ub gonow now id (fs, d) = (inr (), (fs', d')) →
  ∃ t, d.(tasks) !! id = Some t ∧ may_requeue t ∧ t.(retries) ≠ MaxTaskRetries ∧
    d' = add_notification NotifyTasks
           (map_rows (requeue_effect now id) (without_heartbeats id d)).
Proof.
  unfold Requeue. intros H. apply bind_inr in H as (r & [fs1 d1] & H1 & H).
  destruct r as [e|]; [by apply throw_inr in H|]. apply ret_inr in H as [_ H]. simplify_eq.
  apply transaction_inr in H1 as (? & ? & H1). apply requeue_body_inr in H1 as (t & ? & ? & ? & ?).
  eauto 10.
Qed.

Lemma Requeue_inl ub gonow now id fs d e fs' d' :
  Requeue ub gonow now id (fs, d) = (inl e, (fs', d')) →
  d' = d ∨
  (e = ErrMaxRetriesExceeded ∧ ∃ t fs1 fs2, d.(tasks) !! id = Some t ∧ may_requeue t ∧
     t.(retries) = MaxTaskRetries ∧
     finishWithTx ub gonow now id (Some max_retries_msg) (fs1, d) = (inr (), (fs2, d'))).
Proof.
  unfold Requeue, mbind, M_bind. destruct (with_tx _ _ _ _) as [[e'|[e'|]] [fs1 d1]] eqn:E.
  - intros; simplify_eq. left. by apply transaction_atomic in E.
  - unfold throw. intros; simplify_eq. right.
    apply transaction_inr in E as (fs2 & fs3 & E).
    apply requeue_body_inr in E as (t & Ht & Hm & -> & Hr & fs4 & fs5 & H). split; [done|].
    exists t, fs4, fs5. done.
  - done.
Qed.

(** [RequeueFailedTasks]: the retryable tasks and their direct dependents. *)
Definition requeue_failed_set (now : time) (types : list string) (d : db) (i : uuid) (t : task) : Prop :=
  retryable now types t = true ∨
  ∃ parent tp, (i, parent) ∈ d.(task_dependencies) ∧ d.(tasks) !! parent = Some tp ∧
    retryable now types tp = true.

Lemma requeue_v1_elem now types d o :
  o ∈ requeue_v1 now types d ↔
  ∃ parent tp, d.(tasks) !! parent = Some tp ∧ retryable now types tp = true ∧
    match o with
    | Some i => (i, parent) ∈ d.(task_dependencies)
    | None => ∀ i, (i, parent) ∉ d.(task_dependencies)
    end.
Proof.
  unfold requeue_v1. rewrite list_elem_of_bind. split.
  - intros ([p tp] & Ho & Hp). apply list_elem_of_filter in Hp as [Hr Hp%elem_of_map_to_list].
    exists p, tp. split_and!; [done..|].
    destruct (base.filter _ _) as [|x l] eqn:E.
    + apply list_elem_of_singleton in Ho as ->. intros i Hi.
      assert ((i, p) ∈ base.filter (λ q : uuid * uuid, q.2 = p) (task_dependencies d)) as Hin.
      { by apply list_elem_of_filter. }
      rewrite E in Hin. by apply not_elem_of_nil in Hin.
    + rewrite <- E in Ho. apply list_elem_of_fmap in Ho as ([i q] & -> & Hq).
      apply list_elem_of_filter in Hq as [? Hq]. by simplify_eq/=.
  - intros (p & tp & Hp & Hr & Ho). exists (p, tp). split.
    + destruct o as [i|].
      * assert ((i, p) ∈ base.filter (λ q : uuid * uuid, q.2 = p) (task_dependencies d)) as Hin.
        { by apply list_elem_of_filter. }
        destruct (base.filter _ _) as [|x l] eqn:E; [by apply not_elem_of_nil in Hin|].
        apply list_elem_of_fmap. by exists (i, p).
      * destruct (base.filter _ _) as [|[i q] l] eqn:E; [by apply list_elem_of_singleton|].
        exfalso. assert ((i, q) ∈ base.filter (λ q : uuid * uuid, q.2 = p) (task_dependencies d)) as Hin.
        { rewrite E. left. }
        apply list_elem_of_filter in Hin as [? Hin]. simplify_eq/=. by apply (Ho i).
    + apply list_elem_of_filter. split; [done|]. by apply elem_of_map_to_list.
Qed.

Lemma requeue_failed_cond now types d i t :
  d.(tasks) !! i = Some t →
  existsb (λ task_id, (task_id == Some i) || retryable now types t) (requeue_v1 now types d) = true
  ↔ requeue_failed_set now types d i t.
Proof.
  intros Hi. rewrite existsb_exists. unfold requeue_failed_set. split.
  - intros (o & Ho%list_elem_of_In & Hb). apply orb_true_iff in Hb as [Hb|Hb]; [|by left].
    apply bool_decide_eq_true in Hb as ->. right.
    apply requeue_v1_elem in Ho as (p & tp & ? & ? & ?). eauto.
  - intros [Hr|(p & tp & Hin & Hp & Hr)].
    + destruct (decide (Exists (λ x : uuid * uuid, x.2 = i) (task_dependencies d)))
        as [([j p] & Hj & Hp)%Exists_exists|Hno].
      * simpl in Hp. subst. exists (Some j). rewrite Hr, orb_true_r. split; [|done].
        apply list_elem_of_In, requeue_v1_elem. eauto.
      * exists None. rewrite Hr, orb_true_r. split; [|done].
        apply list_elem_of_In, requeue_v1_elem. exists i, t. split_and!; [done..|].
        intros j Hj. apply Hno, Exists_exists. by exists (j, i).
    + exists (Some i). rewrite bool_decide_true by done. split; [|done].
      apply list_elem_of_In, requeue_v1_elem. eauto.
Qed.

Lemma RequeueFailedTasks_inr now types fs d fs' d' :
  RequeueFailedTasks now types (fs, d) = (inr (), (fs', d')) →
  d'.(task_dependencies) = d.(task_dependencies) ∧ d'.(task_heartbeats) = d.(task_heartbeats) ∧
  d'.(notifications) = (d.(notifications) ++ [NotifyTasks])%list ∧
  ∀ i, match d.(tasks) !! i with
       | None => d'.(tasks) !! i = None
       | Some t =>
           (requeue_failed_set now types d i t ∧ d'.(tasks) !! i = Some (requeue_row now None t)) ∨
           (¬ requeue_failed_set now types d i t ∧ d'.(tasks) !! i = Some t)
       end.
Proof.
  intros (fs1 & fs2 & H)%transaction_inr. unfold wrap, wrapv in H.
  apply bind_inr in H as (n & [fs3 d3] & H3%map_err_inr%call_inr & H%map_err_inr%call_inr).
  unfold sqlNotify in H. apply sql_update_rows in H3. simplify_eq.
  split_and!; [done..|]. intros i. simpl. rewrite map_lookup_imap.
  destruct (tasks d !! i) as [t|] eqn:Hi; [|done]. simpl.
  pose proof (requeue_failed_cond now types d i t Hi) as Hc.
  destruct (existsb _ _); simpl; [left|right]; (split; [|done]); [by apply Hc|].
  intros ?%Hc. done.
Qed.

Lemma iter_deps_inr id l fs d fs' d' :
  iter (λ dep, wrap "error inserting dependency" (db_call (sqlInsertDependency id dep))) l (fs, d)
    = (inr (), (fs', d')) →
  d' = set_dependencies (d.(task_dependencies) ++ ((λ dep, (id, dep)) <$> l))%list d ∧
  Forall (λ dep, is_Some (d.(tasks) !! dep)) l.
Proof.
  revert fs d. induction l as [|x l IH]; intros fs d H; simpl in *.
  - apply ret_inr in H as [_ H]. simplify_eq. rewrite app_nil_r. split; [by destruct d'|done].
  - apply bind_inr in H as ([] & [fs1 d1] & H1%map_err_inr%call_inr & H).
    unfold sqlInsertDependency in H1. destruct (_ && _) eqn:E; simplify_eq.
    apply andb_true_iff in E as [_ E]. apply IH in H as [-> Hl]. simpl in *.
    split; [|constructor; [by destruct (tasks d !! x)|done]].
    unfold set_dependencies. simpl. f_equal. by rewrite <- app_assoc.
Qed.

Lemma Enqueue_inr now id t fs d r fs' d' :
  Enqueue now id t (fs, d) = (inr r, (fs', d')) →
  r = id ∧ d.(tasks) !! id = None ∧ tasks_check (new_task now t) = true ∧
  Forall (λ dep, dep = id ∨ is_Some (d.(tasks) !! dep)) t.(Dependencies) ∧
  d' = add_notification NotifyTasks
         (set_dependencies (d.(task_dependencies) ++ ((λ dep, (id, dep)) <$> t.(Dependencies)))%list
            (set_tasks (<[id := new_task now t]> d.(tasks)) d)).
Proof.
  unfold Enqueue. intros H. apply bind_inr in H as ([] & [fs1 d1] & ->%noop_inr & H).
  apply transaction_inr in H as (fs2 & fs3 & H).
  apply bind_inr in H as ([] & [fs4 d4] & H4%map_err_inr%call_inr & H).
  apply bind_inr in H as ([] & [fs5 d5] & H5%iter_deps_inr & H).
  apply bind_inr in H as ([] & [fs6 d6] & H6%map_err_inr%call_inr & H).
  apply ret_inr in H as [-> H]. unfold sqlEnqueue, sqlNotify in *.
  destruct (_ || _) eqn:E; simplify_eq. apply orb_false_iff in E as [E1 E2%negb_false_iff].
  destruct H5 as [-> Hl]. simpl in Hl.
  split_and!; [done|by destruct (tasks d !! r)|done| |done].
  eapply Forall_impl; [exact Hl|]. simpl. intros dep. rewrite lookup_insert.
  case_decide; auto.
Qed.

Lemma dequeueMaybe_inr a tok types fs d info fs' d' :
  dequeueMaybe a tok types (fs, d) = (inr info, (fs', d')) →
  ∃ id t, d.(tasks) !! id = Some t ∧ ready d types id t = true ∧ id ∉ a.(at_locked) ∧
    (∀ id2 t2, d.(tasks) !! id2 = Some t2 → ready d types id2 t2 = true → id2 ∉ a.(at_locked) →
       dequeue_le t t2 = true) ∧
    d.(task_heartbeats) !! tok = None ∧
    info = scan_task id (start_task a.(at_now) tok t) (sqlQueryDependencies id d) ∧
    d' = set_heartbeats (<[tok := (id, a.(at_now))]> d.(task_heartbeats))
           (set_tasks (<[id := start_task a.(at_now) tok t]> d.(tasks)) d).
Proof.
  intros (fs1 & fs2 & H)%transaction_inr.
  apply bind_inr in H as ([id t'] & [fs3 d3] & H3%map_err_inr%call_inr & H).
  apply sqlDequeue_inr in H3 as (t & Hi & Hr & Hl & Hbest & -> & Hck & ->).
  apply bind_inr in H as ([] & [fs4 d4] & H4%map_err_inr%call_inr & H).
  apply bind_inr in H as (deps & [fs5 d5] & H5%map_err_inr%call_inr & H).
  apply ret_inr in H as [<- H]. simplify_eq. unfold sqlInsertHeartbeat in H4. simpl in H4.
  destruct (_ || _ || _) eqn:E; simplify_eq.
  apply orb_false_iff in E as [[E1 E2]%orb_false_iff E3].
  exists id, t. split_and!; try done. by destruct (task_heartbeats d !! tok).
Qed.

(** ** Failures change nothing *)

Lemma bind_noop_inl {A} (m : Q A) fs d e fs' d' :
  (db_noop;; m) (fs, d) = (inl e, (fs', d')) →
  (∀ fs, m (fs, d) = (inl e, (fs', d')) → d' = d) → d' = d.
Proof.
  unfold mbind, M_bind. destruct (db_noop (fs, d)) as [[e0|[]] [fs1 d1]] eqn:E.
  - intros; simplify_eq. by apply noop_inl in E.
  - apply noop_inr in E as ->. intros H Hm. by eapply Hm.
Qed.

Lemma bind_ret_inl {A} (m : Q A) w e w' :
  (m;; mret ()) w = (inl e, w') → m w = (inl e, w').
Proof. unfold mbind, M_bind, mret, M_ret. destruct (m w) as [[|] ?]; by intros; simplify_eq. Qed.

Lemma RefreshHeartbeat_inl now tok fs d e fs' d' :
  RefreshHeartbeat now tok (fs, d) = (inl e, (fs', d')) → d' = d.
Proof.
  assert (∀ fs r fs' d', db_call (sqlRefreshHeartbeat now tok) (fs, d) = (r, (fs', d')) →
    r ≠ inr 1 → d' = d) as Hcall.
  { intros f [e0|n] f' d0 H Hn.
    - apply call_inl in H as [?|H]; [done|]. unfold sqlRefreshHeartbeat in H.
      destruct (_ !! tok) as [[]|]; by simplify_eq.
    - apply call_inr in H. unfold sqlRefreshHeartbeat in H.
      destruct (_ !! tok) as [[]|]; by simplify_eq. }
  unfold RefreshHeartbeat. case_bool_decide; [done|]. unfold mbind at 1, M_bind at 1.
  destruct (db_call _ _) as [[e0|n] [fs1 d1]] eqn:E.
  { intros; simplify_eq. by eapply Hcall. }
  destruct (Z.eqb_spec n 1) as [|Hn]; [done|]. apply Hcall in E; [|congruence]. subst.
  unfold mbind at 1, M_bind at 1. pose proof (IdFromToken_read (λ x, x = d) tok fs1 d eq_refl) as Hr.
  destruct (IdFromToken tok (fs1, d)) as [[e0|[id b]] [fs2 d2]] eqn:E2; subst.
  { intros; by simplify_eq. }
  destruct b; simpl; [|done]. unfold mbind, M_bind.
  destruct (db_call _ _) as [[e0|n'] [fs3 d3]] eqn:E3.
  { intros; simplify_eq. by eapply Hcall. }
  destruct (Z.eqb_spec n' 1); [done|]. apply Hcall in E3; [|congruence]. subst.
  unfold throw. intros; by simplify_eq.
Qed.

Lemma call_stmt_inl {A} (f : db → (qerr + A) * db) fs d e fs' d' :
  (∀ e d', f d = (inl e, d') → d' = d) →
  db_call f (fs, d) = (inl e, (fs', d')) → d' = d.
Proof. intros Hf [?|H]%call_inl; [done|]. by eapply Hf. Qed.

Lemma map_err_inl {A} (g : qerr → qerr) (m : Q A) w e w' :
  map_err g m w = (inl e, w') → ∃ e', m w = (inl e', w').
Proof. unfold map_err. destruct (m w) as [[|] ?]; intros; simplify_eq; eauto. Qed.

Lemma run_op_inl o fs d e fs' d' :
  run_op o (fs, d) = (inl e, (fs', d')) →
  d' = d ∨ (e = ErrMaxRetriesExceeded ∧ ∃ ub gonow now id, o = OpRequeue ub gonow now id).
Proof.
  destruct o; simpl.
  - intros H%bind_ret_inl. left. apply (bind_noop_inl _ _ _ _ _ _ H).
    intros ? ?%transaction_atomic. done.
  - intros H%bind_ret_inl%transaction_atomic. by left.
  - intros H%transaction_atomic. by left.
  - intros H. left. apply (bind_noop_inl _ _ _ _ _ _ H). intros ? ?%transaction_atomic. done.
  - intros [?|(? & _)]%Requeue_inl; [by left|]. right. eauto 10.
  - intros H%transaction_atomic. by left.
  - intros H%bind_ret_inl. unfold UpdatePayload, mbind, M_bind, mret, M_ret in H.
    destruct (db_call _ _) as [[|] [? ?]] eqn:E; simplify_eq. left.
    eapply call_stmt_inl; [|exact E]. intros e0 d0 H0.
    by destruct (sql_update_inv _ _ _ _ H0) as [[_ ->]|[? _]].
  - intros H. left. by eapply RefreshHeartbeat_inl.
  - intros [e' H]%map_err_inl. left. eapply call_stmt_inl; [|exact H]. done.
Qed.
