(* ===== verification/TaskQueueTotal.v ===== *)
(** * The task queue: the operations succeed when nothing fails

    Total correctness. On a well-formed table, with a clock that does not run behind the instants
    already stored and no failing database call, each operation returns what its branch says: the
    constraints of the schema never fire. *)

From S2P Require Import Prelude GoStrings Config TxMonad TaskQueue TaskQueueInv TaskQueueOps.
From S2P Require Import TaskQueueSpec.
From stdpp Require Import options.

Open Scope string_scope.
Open Scope Z_scope.

(** ** The constraints hold for the rows the statements write *)

Lemma tasks_check_spec t :
  tasks_check t = true ↔
  not_finished_when_not_started t = true ∧ chronologic_started_at t = true ∧
  chronologic_finished_at t = true ∧ token_is_never_uuid_nil t = true ∧
  token_is_set_when_started t = true ∧ non_null_obj_type_if_uuid t = true.
Proof. unfold tasks_check. rewrite !andb_true_iff. tauto. Qed.

Lemma finish_row_check now st m r t s :
  tasks_check t = true → t.(started_at) = Some s → s ≤ now →
  tasks_check (finish_row now st m r t) = true.
Proof.
  rewrite !tasks_check_spec. intros (? & ? & ? & ? & ? & ?) Hs Hle.
  split_and!; try done.
  - unfold not_finished_when_not_started. simpl. by rewrite Hs.
  - unfold chronologic_finished_at. simpl. rewrite Hs. by apply Z.leb_le.
Qed.

Lemma requeue_row_check now t : tasks_check t = true → tasks_check (requeue_row now None t) = true.
Proof. rewrite !tasks_check_spec. intros (? & ? & ? & ? & ? & ?). by split_and!. Qed.

Lemma start_task_check now tok t :
  tasks_check t = true → t.(finished_at) = None → tok ≠ uuid_Nil →
  match t.(queued_at) with Some q => q ≤ now | None => True end →
  tasks_check (start_task now tok t) = true.
Proof.
  rewrite !tasks_check_spec. intros (? & ? & ? & ? & ? & ?) Hf Htok Hq.
  split_and!; try done.
  - unfold not_finished_when_not_started. simpl. by rewrite Hf.
  - unfold chronologic_started_at. simpl. destruct (queued_at t); [by apply Z.leb_le|done].
  - unfold chronologic_finished_at. simpl. by rewrite Hf.
  - unfold token_is_never_uuid_nil. simpl. by apply bool_decide_neg_eq.
Qed.

(** ** Reads *)

Lemma statusWithConn_some id d t :
  d.(tasks) !! id = Some t →
  statusWithConn id ([], d) = (inr (scan_task id t (sqlQueryDependencies id d)), ([], d)).
Proof. intros H. unfold statusWithConn, mbind, M_bind. simpl. by rewrite H. Qed.

Lemma statusWithConn_none id d :
  d.(tasks) !! id = None → statusWithConn id ([], d) = (inl ErrNoRows, ([], d)).
Proof. intros H. unfold statusWithConn, mbind, M_bind. simpl. by rewrite H. Qed.

(** ** Canceling *)

Lemma sqlCancelTask_total id msg d :
  map_Forall (λ _ t, tasks_check t = true) d.(tasks) →
  ∃ n, sqlCancelTask id msg d = (inr n, map_rows (cancel_if (λ i, i = id) msg) d).
Proof.
  intros Hc. destruct (sqlCancelTask id msg d) as [[e|n] d'] eqn:E.
  - unfold sqlCancelTask in E. rewrite sql_update_total in E; [done|].
    intros i t t' Hi Hg. destruct (_ && _); simplify_eq. exact (Hc _ _ Hi).
  - exists n. f_equal. by eapply sqlCancelTask_rows.
Qed.

Lemma map_rows_check f d :
  map_Forall (λ _ t, tasks_check t = true) d.(tasks) →
  (∀ i t, d.(tasks) !! i = Some t → tasks_check t = true → tasks_check (f i t) = true) →
  map_Forall (λ _ t, tasks_check t = true) (map_rows f d).(tasks).
Proof.
  intros Hc Hf i t'. rewrite map_rows_lookup. destruct (tasks d !! i) eqn:E; [|done].
  intros; simplify_eq/=. eapply Hf; [done|]. by apply (Hc i).
Qed.

Lemma cancel_if_check P `{∀ i, Decision (P i)} msg i t :
  tasks_check t = true → tasks_check (cancel_if P msg i t) = true.
Proof. intros. unfold cancel_if. repeat case_match; done. Qed.

Lemma cancel_dependents_total w msg l d :
  map_Forall (λ _ t, tasks_check t = true) d.(tasks) →
  iter (λ id, wrap w (db_call (sqlCancelTask id msg);; mret ())) l ([], d)
    = (inr (), ([], map_rows (cancel_if (λ i, i ∈ l) msg) d)).
Proof.
  intros Hc. destruct (iter _ l ([], d)) as [r [fs' d']] eqn:E.
  assert (r = inr () ∧ fs' = []) as [-> ->].
  { revert d d' Hc E. induction l as [|x l IH]; intros d d' Hc E; simpl in E.
    { unfold mret, M_ret in E. by simplify_eq. }
    destruct (sqlCancelTask_total x msg d Hc) as [n Hn].
    erewrite bind_eq in E.
    2:{ apply map_err_ok. erewrite bind_eq; [|by apply call_eq]. done. }
    eapply IH; [|exact E]. apply map_rows_check; [done|]. intros. by apply cancel_if_check. }
  by apply cancel_dependents_rows in E as ->.
Qed.

Lemma wf_check d : wf d → map_Forall (λ _ t, tasks_check t = true) d.(tasks).
Proof. intros Hwf i t Hi. by apply ok_check, (wf_rows _ Hwf i). Qed.

Lemma Cancel_total id d :
  wf d →
  Cancel id ([], d) =
    (inr (), ([], add_notification NotifyTasks
       (map_rows (cancel_effect id d)
          (without_heartbeats id (add_notification (NotifyCancel id) d))))).
Proof.
  intros Hwf%wf_check. destruct (Cancel id ([], d)) as [r [fs' d']] eqn:E.
  assert (r = inr () ∧ fs' = []) as [-> ->].
  2:{ by apply Cancel_inr in E as ->. }
  set (d1 := without_heartbeats id (add_notification (NotifyCancel id) d)).
  destruct (sqlCancelTask_total id "task canceled" d1 Hwf) as [n1 H1].
  set (d2 := map_rows (cancel_if (λ i, i = id) "task canceled") d1).
  assert (map_Forall (λ _ t, tasks_check t = true) (tasks d2)) as Hc2.
  { apply map_rows_check; [done|]. intros. by apply cancel_if_check. }
  assert (∃ n d3, sqlSetCancelAttempted id d2 = (inr n, d3) ∧
    map_Forall (λ _ t, tasks_check t = true) (tasks d3)) as (n3 & d3 & H3 & Hc3).
  { eexists _, _. split.
    - apply sql_update_total. intros i t t' Hi Hg. case_bool_decide; simplify_eq. exact (Hc2 _ _ Hi).
    - apply map_rows_check; [done|]. intros i t Hi Ht. by case_bool_decide. }
  revert E. unfold Cancel, with_tx. erewrite bind_eq; [|by apply call_eq].
  erewrite transaction_ok; [by intros; simplify_eq|].
  erewrite bind_eq; [|by apply map_err_ok, call_eq].
  erewrite bind_eq; [|by apply map_err_ok, call_eq].
  erewrite bind_eq; [|by apply map_err_ok, call_eq].
  erewrite bind_eq; [|by apply map_err_ok, call_eq].
  erewrite bind_eq; [|by apply map_err_ok, call_eq].
  erewrite bind_eq; [|by apply cancel_dependents_total].
  by apply map_err_ok, call_eq.
Qed.

(** ** Finishing *)

Lemma map_imap_nonempty (g : uuid → task → option task) (m : gmap uuid task) i t t' :
  m !! i = Some t → g i t = Some t' → (Z.of_nat (size (map_imap g m)) =? 0) = false.
Proof.
  intros Hi Hg. apply Z.eqb_neq. intros H.
  assert (map_imap g m = ∅) as He by (apply map_size_empty_iff; lia).
  assert (map_imap g m !! i = Some t') as Hl by by rewrite map_lookup_imap, Hi.
  by rewrite He, lookup_empty in Hl.
Qed.

Lemma sqlFinishTask_total now st msg retry id d t s :
  map_Forall (λ _ t, tasks_check t = true) d.(tasks) →
  d.(tasks) !! id = Some t → t.(started_at) = Some s → t.(finished_at) = None → s ≤ now →
  sqlFinishTask now st msg retry id d =
    (inr now, map_rows (λ i t, if decide (i = id) then finish_row now st msg retry t else t) d).
Proof.
  intros Hc Ht Hs Hf Hle. destruct (sqlFinishTask now st msg retry id d) as [r d'] eqn:E.
  assert (r = inr now) as ->.
  { unfold sqlFinishTask in E. rewrite sql_update_total in E.
    - erewrite map_imap_nonempty in E; [by simplify_eq|done|].
      by rewrite bool_decide_true, Hf by done.
    - intros i t2 t' Hi Hg. case_bool_decide; simplify_eq/=. rewrite Hf in Hg. simplify_eq/=.
      eapply finish_row_check; [|done|done]. by apply (Hc id). }
  f_equal. by eapply sqlFinishTask_inr.
Qed.

Lemma finishWithTx_total ub gonow now id err d t s :
  wf d → d.(tasks) !! id = Some t → t.(started_at) = Some s → t.(finished_at) = None → s ≤ now →
  finishWithTx ub gonow now id err ([], d) =
    (inr (), ([], add_notification NotifyTasks
       (map_rows (finish_effect ub gonow now id err d (scan_task id t (sqlQueryDependencies id d)))
          (without_heartbeats id d)))).
Proof.
  intros Hwf%wf_check Ht Hs Hf Hle.
  destruct (finishWithTx _ _ _ _ _ ([], d)) as [r [fs' d']] eqn:E.
  assert (r = inr () ∧ fs' = []) as [-> ->].
  2:{ by apply finishWithTx_inr in E as (t2 & info & ? & ? & ? & -> & ->); simplify_eq. }
  revert E. unfold finishWithTx.
  destruct (match err with Some _ => _ | None => _ end) as [st msg] eqn:Est.
  erewrite bind_eq; [|by apply map_err_ok, statusWithConn_some].
  cbn [Started Finished scan_task]. rewrite Hs, Hf. cbn [isNone isSome orb].
  erewrite bind_eq; [|by apply map_err_ok, call_eq].
  erewrite bind_eq; [|eapply map_err_ok, call_eq, sqlFinishTask_total; done].
  destruct (bool_decide (st = TaskStatusFailed)).
  - erewrite bind_eq.
    2:{ erewrite bind_eq; [|by apply map_err_ok, call_eq]. apply cancel_dependents_total.
        apply map_rows_check; [done|]. intros i t2 Hi Ht2. case_decide; [|done]. subst. simpl in Hi.
        simplify_eq. by eapply finish_row_check. }
    unfold wrap. erewrite map_err_ok; [|by apply call_eq]. by intros; simplify_eq.
  - erewrite bind_eq; [|done]. unfold wrap. erewrite map_err_ok; [|by apply call_eq]. by intros; simplify_eq.
Qed.

Definition finish_result (ub gonow now : time) (id : uuid) (err : option string) (d : db) (t : task) : db :=
  add_notification NotifyTasks
    (map_rows (finish_effect ub gonow now id err d (scan_task id t (sqlQueryDependencies id d)))
       (without_heartbeats id d)).

Lemma isNone_spec {A} (o : option A) : isNone o = negb (isSome o).
Proof. by destruct o. Qed.

Lemma finishWithTx_not_running ub gonow now id err d t :
  d.(tasks) !! id = Some t → isNone t.(started_at) || isSome t.(finished_at) = true →
  finishWithTx ub gonow now id err ([], d) = (inl ErrNotRunning, ([], d)).
Proof.
  intros Ht Hg. unfold finishWithTx. destruct (match err with Some _ => _ | None => _ end).
  erewrite bind_eq; [|by apply map_err_ok, statusWithConn_some].
  cbn [Started Finished scan_task]. by rewrite Hg.
Qed.

Lemma finishWithTx_missing ub gonow now id err d :
  d.(tasks) !! id = None →
  finishWithTx ub gonow now id err ([], d) =
    (inl (Wrapf "error querying task info" ErrNoRows), ([], d)).
Proof.
  intros Ht. unfold finishWithTx. destruct (match err with Some _ => _ | None => _ end).
  by erewrite bind_err; [|by apply map_err_err, statusWithConn_none].
Qed.

(** ** Requeueing *)

Lemma sqlRequeue_total now id d t :
  map_Forall (λ _ t, tasks_check t = true) d.(tasks) →
  d.(tasks) !! id = Some t → is_Some t.(started_at) → t.(finished_at) = None →
  sqlRequeue now id d = (inr 1, map_rows (requeue_effect now id) d).
Proof.
  intros Hc Ht [s Hs] Hf. unfold sqlRequeue. rewrite sql_update_total.
  - f_equal.
    + f_equal. match goal with |- Z.of_nat (size ?m) = _ =>
        replace m with ({[id := requeue_row now None t]} : gmap uuid task) end.
      { by rewrite map_size_singleton. }
      apply map_eq. intros i. rewrite map_lookup_imap.
      destruct (decide (i = id)) as [->|Hne].
      * rewrite Ht, lookup_singleton_eq. simpl. rewrite bool_decide_true by done. by rewrite Hs, Hf.
      * rewrite lookup_singleton_ne by done. destruct (tasks d !! i); [simpl|done].
        by rewrite bool_decide_false.
    + apply map_rows_ext. intros i t2 Hi. unfold requeue_effect. case_decide; simplify_eq.
      * rewrite bool_decide_true by done. by rewrite Hs, Hf.
      * by rewrite bool_decide_false.
  - intros i t2 t' Hi Hg. destruct (_ && _) eqn:E; simplify_eq.
    apply andb_true_iff in E as [_ E]. destruct (finished_at t2); [done|].
    apply requeue_row_check. by apply (Hc i).
Qed.

Definition requeue_result (now : time) (id : uuid) (d : db) : db :=
  add_notification NotifyTasks (map_rows (requeue_effect now id) (without_heartbeats id d)).

(** What [Requeue] returns and leaves behind, branch by branch. *)
Definition requeue_outcome (ub gonow now : time) (id : uuid) (d : db) : (qerr + ()) * db :=
  match d.(tasks) !! id with
  | None => (inl (Wrapf "error querying task status" ErrNoRows), d)
  | Some t =>
      if t.(cancel_attempted) && (t.(status) != TaskStatusRunning) then (inl ErrTaskCanceled, d)
      else if isNone t.(started_at) || isSome t.(finished_at) then (inl ErrNotRunning, d)
      else if t.(retries) =? MaxTaskRetries then
        (inl ErrMaxRetriesExceeded, finish_result ub gonow now id (Some max_retries_msg) d t)
      else (inr (), requeue_result now id d)
  end.

Definition clock_after (now : time) (d : db) : Prop :=
  map_Forall (λ _ t, ∀ s, t.(started_at) = Some s ∨ t.(queued_at) = Some s → s ≤ now) d.(tasks).

Lemma Requeue_no_faults ub gonow now id d :
  wf d → clock_after now d →
  Requeue ub gonow now id ([], d) =
    ((requeue_outcome ub gonow now id d).1, ([], (requeue_outcome ub gonow now id d).2)).
Proof.
  intros Hwf Hclock. pose proof (wf_check _ Hwf) as Hc. unfold requeue_outcome, Requeue, with_tx.
  destruct (tasks d !! id) as [t|] eqn:Ht.
  2:{ erewrite (bind_err _ _ _ _ ([], d)); [done|]. eapply transaction_err. unfold requeue_body.
      by erewrite bind_err; [|by apply map_err_err, statusWithConn_none]. }
  destruct (cancel_attempted t && _) eqn:E1.
  { erewrite (bind_err _ _ _ _ ([], d)); [done|]. eapply transaction_err. unfold requeue_body.
    erewrite bind_eq; [|by apply map_err_ok, statusWithConn_some]. simpl. by rewrite E1. }
  destruct (isNone _ || _) eqn:E2.
  { erewrite (bind_err _ _ _ _ ([], d)); [done|]. eapply transaction_err. unfold requeue_body.
    erewrite bind_eq; [|by apply map_err_ok, statusWithConn_some]. simpl. by rewrite E1, E2. }
  destruct (started_at t) as [s|] eqn:Hs; [|done]. destruct (finished_at t) eqn:Hf; [done|].
  assert (s ≤ now) as Hle by (eapply (Hclock id); eauto).
  destruct (retries t =? MaxTaskRetries) eqn:E3.
  - erewrite bind_eq.
    2:{ eapply transaction_ok. unfold requeue_body.
        erewrite bind_eq; [|by apply map_err_ok, statusWithConn_some].
        simpl. rewrite E1, Hs, Hf, E3. simpl.
        by erewrite bind_eq; [|by eapply map_err_ok, finishWithTx_total]. }
    done.
  - erewrite bind_eq.
    2:{ eapply transaction_ok. unfold requeue_body.
        erewrite bind_eq; [|by apply map_err_ok, statusWithConn_some].
        simpl. rewrite E1, Hs, Hf, E3. simpl.
        erewrite bind_eq; [|by apply map_err_ok, call_eq].
        erewrite bind_eq; [|eapply map_err_ok, call_eq, sqlRequeue_total; try done; by eexists].
        simpl. by erewrite bind_eq; [|by apply map_err_ok, call_eq]. }
    done.
Qed.

Lemma Requeue_total ub gonow now id d :
  wf d → clock_after now d →
  run (Requeue ub gonow now id) d = requeue_outcome ub gonow now id d.
Proof. intros. unfold run. rewrite Requeue_no_faults by done. by destruct (requeue_outcome _ _ _ _ _). Qed.

Definition finish_outcome (ub gonow now : time) (id : uuid) (err : option string) (d : db) :
    (qerr + ()) * db :=
  match d.(tasks) !! id with
  | None => (inl (Wrapf "error querying task info" ErrNoRows), d)
  | Some t =>
      if isNone t.(started_at) || isSome t.(finished_at) then (inl ErrNotRunning, d)
      else (inr (), finish_result ub gonow now id err d t)
  end.

Lemma Finish_total ub gonow now id err d :
  wf d → clock_after now d →
  run (Finish ub gonow now id err) d = finish_outcome ub gonow now id err d.
Proof.
  intros Hwf Hclock. unfold finish_outcome, run, Finish, with_tx.
  destruct (tasks d !! id) as [t|] eqn:Ht.
  2:{ by erewrite transaction_err; [|by apply finishWithTx_missing]. }
  destruct (isNone _ || _) eqn:E.
  { by erewrite transaction_err; [|by eapply finishWithTx_not_running]. }
  destruct (started_at t) as [s|] eqn:Hs; [|done]. destruct (finished_at t) eqn:Hf; [done|].
  assert (s ≤ now) as Hle by (eapply (Hclock id); eauto).
  by erewrite transaction_ok; [|by eapply finishWithTx_total].
Qed.

(** ** Dequeueing *)

Lemma dequeueMaybe_none a tok types d :
  dequeue_candidates a.(at_locked) types d = [] →
  run (dequeueMaybe a tok types) d = (inl (Wrapf "error during dequeue query" ErrNoRows), d).
Proof.
  intros H. unfold run, dequeueMaybe.
  erewrite transaction_err; [done|]. erewrite bind_err; [done|].
  apply map_err_err, call_eq. unfold sqlDequeue. by rewrite H.
Qed.

Lemma dequeueMaybe_some a tok types d :
  wf d → clock_after a.(at_now) d → tok ≠ uuid_Nil → d.(task_heartbeats) !! tok = None →
  dequeue_candidates a.(at_locked) types d ≠ [] →
  ∃ info d', run (dequeueMaybe a tok types) d = (inr info, d').
Proof.
  intros Hwf Hclock Htok Hhb Hne. apply best_exists in Hne.
  set (best := dequeue_best (dequeue_candidates (at_locked a) types d)) in *.
  assert (is_Some (best !! (at_pick a mod length best)%nat)) as [[id t] Hpick].
  { apply lookup_lt_is_Some_2, Nat.mod_upper_bound. destruct best; simpl; [done|lia]. }
  assert ((id, t) ∈ best) as Hin by by eapply list_elem_of_lookup_2.
  apply best_elem in Hin as [Hin _]. apply candidates_elem in Hin as (Hi & Hr & _).
  assert (row_ok t) as Hok by by apply (wf_rows _ Hwf id).
  assert (phase_of t = Some Pending) as Hp by by eapply ready_pending.
  apply phase_of_inv in Hp as (_ & Hs & Hf).
  set (g := λ i t, if i == id then Some (start_task (at_now a) tok t) else None).
  assert (sqlDequeue (at_now a) (at_locked a) (at_pick a) tok types d =
    (inr (id, start_task (at_now a) tok t), map_rows (λ i t, default t (g i t)) d)) as Hq.
  { unfold sqlDequeue. fold best. rewrite Hpick. fold g. rewrite sql_update_total; [done|].
    intros i t2 t' Hi2 Hg. subst g. simpl in Hg. case_bool_decide; simplify_eq.
    apply start_task_check; [by apply ok_check|done|done|].
    match goal with |- match queued_at ?x with _ => _ end => destruct (queued_at x) eqn:Eq end;
      [|done]. eapply (Hclock id); eauto. }
  unfold run, dequeueMaybe. erewrite transaction_ok.
  { by eexists _, _. }
  erewrite bind_eq; [|by apply map_err_ok, call_eq].
  erewrite bind_eq.
  2:{ apply map_err_ok, call_eq. unfold sqlInsertHeartbeat. simpl.
      rewrite Hhb, map_lookup_imap, Hi. rewrite bool_decide_false by done. done. }
  by erewrite bind_eq; [|by apply map_err_ok, call_eq].
Qed.

(** ** Requeueing failed tasks *)

Lemma RequeueFailedTasks_total now types d :
  wf d → ∃ d', run (RequeueFailedTasks now types) d = (inr (), d').
Proof.
  intros Hwf%wf_check. unfold run, RequeueFailedTasks, with_tx.
  erewrite transaction_ok; [by eexists|].
  erewrite bind_eq; [by apply map_err_ok, call_eq|].
  apply map_err_ok, call_eq. unfold sqlRequeueFailedTasks. apply sql_update_total.
  intros i t t' Hi Hg. destruct (existsb _ _); simplify_eq. apply requeue_row_check.
  by apply (Hwf i).
Qed.
