(* ===== verification/TaskQueueLife.v ===== *)
(** * The task queue refines the life cycle of a task

    [lifecycle] is the abstract specification of the queue, task by task; [life] says what the
    operations do to the phase of each row. *)

From S2P Require Import Prelude GoStrings Config TxMonad TaskQueue TaskQueueInv TaskQueueOps.
From S2P Require Import TaskQueueSpec TaskQueueTotal.
From stdpp Require Import options.

Open Scope string_scope.
Open Scope Z_scope.

Inductive lifecycle : phase → phase → Prop :=
  | lc_stay p : lifecycle p p
  | lc_start : lifecycle Pending Running
  | lc_complete : lifecycle Running Completed
  | lc_fail : lifecycle Running Failed
  | lc_requeue : lifecycle Running Pending
  | lc_cancel : lifecycle Pending Canceled
  | lc_abort : lifecycle Running Aborted
  | lc_late_complete : lifecycle Aborted Completed   (* the worker finished despite the cancel *)
  | lc_late_fail : lifecycle Aborted Failed
  | lc_retry : lifecycle Failed Pending.

(** A dependent goes back to pending whatever its phase when its failed parent is retried. *)
Definition retried_with_parent (o : op) (d : db) (i : uuid) (p' : phase) : Prop :=
  ∃ now types parent tp, o = OpRequeueFailed now types ∧ p' = Pending ∧
    (i, parent) ∈ d.(task_dependencies) ∧ d.(tasks) !! parent = Some tp ∧
    retryable now types tp = true.

(** The abstraction: the phase of every task. *)
Definition phases (d : db) : gmap uuid phase := omap phase_of d.(tasks).

Lemma phases_lookup d i p :
  phases d !! i = Some p ↔ ∃ t, d.(tasks) !! i = Some t ∧ phase_of t = Some p.
Proof. unfold phases. rewrite lookup_omap, bind_Some. done. Qed.

(** ** The phase of the rows the statements write *)

Ltac phase_cases t :=
  destruct t as [? ? ? [?|] [?|] ? ? ? ? ? ?]; simpl in *; repeat case_bool_decide; simplify_eq/=.

Lemma phase_cancel_if P `{∀ i, Decision (P i)} msg i t p :
  phase_of t = Some p →
  ∃ p', phase_of (cancel_if P msg i t) = Some p' ∧
    (p' = p ∨ (p = Pending ∧ p' = Canceled) ∨ (p = Running ∧ p' = Aborted)).
Proof.
  intros Hp. unfold cancel_if. destruct (decide (P i)); [|eauto].
  destruct (finished_at t) eqn:Hf; simpl; [eauto|].
  exists (if isSome (started_at t) then Aborted else Canceled).
  unfold phase_of in *. simpl. rewrite Hf in *. destruct (started_at t); simpl; split; try done;
    repeat case_bool_decide; simplify_eq; auto.
Qed.

Lemma phase_cancel_lifecycle P `{∀ i, Decision (P i)} msg i t p :
  phase_of t = Some p → ∃ p', phase_of (cancel_if P msg i t) = Some p' ∧ lifecycle p p'.
Proof.
  intros Hp. destruct (phase_cancel_if P msg i t p Hp) as (p' & Hp' & H0).
  exists p'. split; [done|]. destruct H0 as [->|[[-> ->]|[-> ->]]]; constructor.
Qed.

Lemma phase_finish now st msg retry t p :
  phase_of t = Some p → is_Some t.(started_at) → t.(finished_at) = None →
  st = TaskStatusCompleted ∨ st = TaskStatusFailed →
  phase_of (finish_row now st msg retry t) =
    Some (if st == TaskStatusCompleted then Completed else Failed) ∧
  (p = Running ∨ p = Aborted).
Proof.
  intros Hp [s Hs] Hf Hst. unfold phase_of in *. simpl. rewrite Hs, Hf in *.
  destruct Hst as [-> | ->]; split; try done; repeat case_bool_decide; simplify_eq; auto.
Qed.

Lemma phase_finish_lifecycle now st msg retry t p :
  phase_of t = Some p → is_Some t.(started_at) → t.(finished_at) = None →
  st = TaskStatusCompleted ∨ st = TaskStatusFailed →
  ∃ p', phase_of (finish_row now st msg retry t) = Some p' ∧ lifecycle p p'.
Proof.
  intros Hp Hs Hf Hst. destruct (phase_finish now st msg retry t p Hp Hs Hf Hst) as [H Hpp].
  rewrite H. eexists; split; [done|]. destruct Hst as [-> | ->], Hpp as [-> | ->]; constructor.
Qed.

Lemma cancel_if_finished P `{∀ i, Decision (P i)} msg i t :
  is_Some t.(finished_at) → cancel_if P msg i t = t.
Proof. intros [f Hf]. unfold cancel_if. rewrite Hf. by case_decide. Qed.

Lemma phase_finish_effect ub gonow now id err d info i t p :
  phase_of t = Some p → (i = id → is_Some t.(started_at) ∧ t.(finished_at) = None) →
  ∃ p', phase_of (finish_effect ub gonow now id err d info i t) = Some p' ∧ lifecycle p p'.
Proof.
  intros Hp Hid. unfold finish_effect. destruct err as [msg|].
  - destruct (decide (i = id)) as [->|].
    + destruct (Hid eq_refl). rewrite cancel_if_finished by by eexists.
      apply phase_finish_lifecycle; auto.
    + by apply phase_cancel_lifecycle.
  - destruct (decide (i = id)) as [->|]; [|eauto using lc_stay].
    destruct (Hid eq_refl). apply phase_finish_lifecycle; auto.
Qed.

Lemma phase_cancel_effect id d i t p :
  phase_of t = Some p → ∃ p', phase_of (cancel_effect id d i t) = Some p' ∧ lifecycle p p'.
Proof.
  intros Hp. unfold cancel_effect.
  destruct (phase_cancel_if (λ j, j = id) "task canceled" i t p Hp) as (p1 & Hp1 & H1).
  set (t1 := cancel_if _ _ i t) in *.
  assert (phase_of (if decide (i = id) then mark_cancel_attempted t1 else t1) = Some p1) as Hp2.
  { by case_decide. }
  destruct (phase_cancel_if (λ j, j ∈ sqlQueryDependents id d) "parent task canceled" i _ _ Hp2)
    as (p2 & Hp2' & H2).
  exists p2. split; [done|].
  destruct H1 as [->|[[-> ->]|[-> ->]]], H2 as [->|[[? ->]|[? ->]]]; simplify_eq; constructor.
Qed.

Lemma phase_requeue now t : phase_of (requeue_row now None t) = Some Pending.
Proof. done. Qed.

Lemma may_requeue_running t :
  row_ok t → may_requeue t → phase_of t = Some Running.
Proof.
  intros [[p Hp] _ _ _ Hcan _ _] (Hc & [s Hs] & Hf). unfold phase_of in *. rewrite Hs, Hf in *.
  repeat case_bool_decide; simplify_eq; auto. destruct Hc as [Hc|Hc]; [|done].
  rewrite Hcan in Hc by done. done.
Qed.

Lemma retryable_failed now types t :
  row_ok t → retryable now types t = true → phase_of t = Some Failed.
Proof.
  intros [[p Hp] _ _ _ _ _ _] H. unfold retryable in H. rewrite !andb_true_iff in H.
  destruct H as ((((((Hs & Hf) & Hst%bool_decide_eq_true) & _) & _) & _) & _).
  unfold phase_of in *. destruct (started_at t), (finished_at t); try done.
  by rewrite Hst in *.
Qed.

(** ** The simulation *)

Lemma map_rows_phase f d d' i p :
  d'.(tasks) = (map_rows f d).(tasks) → phases d !! i = Some p →
  (∀ t, d.(tasks) !! i = Some t → phase_of t = Some p →
     ∃ p', phase_of (f i t) = Some p' ∧ lifecycle p p') →
  ∃ p', phases d' !! i = Some p' ∧ lifecycle p p'.
Proof.
  intros Hd' (t & Hi & Hp)%phases_lookup Hf. destruct (Hf t Hi Hp) as (p' & Hp' & ?).
  exists p'. split; [|done]. apply phases_lookup. exists (f i t). split; [|done].
  by rewrite Hd', map_rows_lookup, Hi.
Qed.

Lemma finish_life ub gonow now id err fs d fs' d' i p :
  finishWithTx ub gonow now id err (fs, d) = (inr (), (fs', d')) → phases d !! i = Some p →
  ∃ p', phases d' !! i = Some p' ∧ lifecycle p p'.
Proof.
  intros (t & info & Ht & Hs & Hf & _ & ->)%finishWithTx_inr Hp.
  eapply (map_rows_phase _ d); [done|done|]. intros t2 Hi Hp2. apply phase_finish_effect; [done|].
  intros ->. by simplify_eq.
Qed.

Lemma requeue_failed_life now types fs d fs' d' i p :
  wf d → RequeueFailedTasks now types (fs, d) = (inr (), (fs', d')) → phases d !! i = Some p →
  ∃ p', phases d' !! i = Some p' ∧
    (lifecycle p p' ∨ retried_with_parent (OpRequeueFailed now types) d i p').
Proof.
  intros Hwf (_ & _ & _ & H)%RequeueFailedTasks_inr (t & Hi & Hp)%phases_lookup.
  specialize (H i). rewrite Hi in H. destruct H as [[Hset Hi']|[_ Hi']].
  - exists Pending. split; [apply phases_lookup; eauto|].
    destruct Hset as [Hr|(parent & tp & ? & ? & ?)]; [left|right].
    + apply retryable_failed in Hr; [|by apply (wf_rows _ Hwf i)]. simplify_eq. constructor.
    + by exists now, types, parent, tp.
  - exists p. split; [apply phases_lookup; eauto|]. left. constructor.
Qed.

Lemma RefreshHeartbeat_tasks now tok fs d r fs' d' :
  RefreshHeartbeat now tok (fs, d) = (r, (fs', d')) →
  d'.(tasks) = d.(tasks) ∧ d'.(task_dependencies) = d.(task_dependencies).
Proof.
  intros H.
  set (P := λ x, tasks x = tasks d ∧ task_dependencies x = task_dependencies d).
  assert (stmt P (sqlRefreshHeartbeat now tok) (λ _, P)) as Hs.
  { intros x Hx. unfold sqlRefreshHeartbeat. by destruct (_ !! tok) as [[]|]. }
  assert (hoare P (RefreshHeartbeat now tok) (λ _, P) (λ _, P)) as Hh.
  { unfold RefreshHeartbeat. case_bool_decide; [by apply hoare_ret|].
    tx_stmt Hs. destruct (_ =? _); [by apply hoare_ret|].
    eapply hoare_bind; [apply (IdFromToken_read P)|]. intros [id []]; simpl; [|by apply hoare_ret].
    tx_stmt Hs. destruct (_ =? _); [by apply hoare_ret|by apply hoare_throw]. }
  pose proof (Hh fs d (conj eq_refl eq_refl)) as Hd. rewrite H in Hd. by destruct r.
Qed.

Lemma UpdatePayload_inr info p fs d r fs' d' :
  UpdatePayload info p (fs, d) = (inr r, (fs', d')) →
  d' = map_rows (λ i t, if i == info.(Id) then set_payload p t else t) d.
Proof.
  unfold UpdatePayload. intros (n & [fs1 d1] & H1%call_inr%sql_update_rows & H)%bind_inr.
  apply ret_inr in H as [_ H]. simplify_eq. apply map_rows_ext. intros i t _.
  by case_bool_decide.
Qed.

Lemma bind_ret_inr {A} (m : Q A) w w' :
  (m;; mret ()) w = (inr (), w') → ∃ a, m w = (inr a, w').
Proof. intros (a & w1 & H & H')%bind_inr. apply ret_inr in H' as [_ <-]. eauto. Qed.

(** Every operation moves each task along the life cycle. *)
Lemma run_op_life o fs d r fs' d' i p :
  wf d → run_op o (fs, d) = (r, (fs', d')) → phases d !! i = Some p → o ≠ OpRemoveAll →
  ∃ p', phases d' !! i = Some p' ∧ (lifecycle p p' ∨ retried_with_parent o d i p').
Proof.
  intros Hwf H Hp Ho. destruct r as [e|[]].
  { pose proof (run_op_inl _ _ _ _ _ _ H) as [->|(-> & ub & gonow & now & id & ->)].
    { exists p. split; [done|left; constructor]. }
    apply Requeue_inl in H as [->|(_ & t & fs1 & fs2 & _ & _ & _ & H)].
    { exists p. split; [done|left; constructor]. }
    destruct (finish_life _ _ _ _ _ _ _ _ _ _ _ H Hp) as (p' & ? & ?). eauto. }
  destruct o; simpl in H; try done.
  - apply bind_ret_inr in H as [a H]. apply Enqueue_inr in H as (-> & Hn & _ & _ & ->).
    exists p. split; [|left; constructor]. apply phases_lookup in Hp as (t0 & Hi & Hp).
    apply phases_lookup. exists t0. split; [|done]. simpl. by rewrite lookup_insert_ne by congruence.
  - apply bind_ret_inr in H as [info H].
    apply dequeueMaybe_inr in H as (id & t & Hi & Hr & _ & _ & _ & -> & ->).
    apply phases_lookup in Hp as (t0 & Hi0 & Hp). destruct (decide (i = id)) as [->|Hne].
    + simplify_eq. exists Running.
      rewrite (ready_pending d taskTypes id) in Hp; [|by apply (wf_rows _ Hwf id)|done].
      simplify_eq. split; [|left; constructor]. apply phases_lookup. simpl.
      rewrite lookup_insert_eq. eexists; split; [done|].
      apply ready_pending in Hr; [|by apply (wf_rows _ Hwf id)].
      apply phase_of_inv in Hr as (_ & _ & Hf). unfold phase_of. simpl. by rewrite Hf.
    + exists p. split; [|left; constructor]. apply phases_lookup. exists t0. simpl.
      by rewrite lookup_insert_ne.
  - apply transaction_inr in H as (? & ? & H).
    destruct (finish_life _ _ _ _ _ _ _ _ _ _ _ H Hp) as (p' & ? & ?). eauto.
  - apply Cancel_inr in H as ->.
    destruct (map_rows_phase (cancel_effect id d) d _ i p eq_refl Hp) as (p' & ? & ?); [|eauto].
    intros. by apply phase_cancel_effect.
  - apply Requeue_inr in H as (t & Hi & Hm & _ & ->).
    destruct (map_rows_phase (requeue_effect now id) d _ i p eq_refl Hp) as (p' & ? & ?); [|eauto].
    intros t2 Hi2 Hp2. unfold requeue_effect. case_decide; [|eauto using lc_stay]. simplify_eq.
    apply may_requeue_running in Hm; [|by apply (wf_rows _ Hwf id)]. simplify_eq.
    eexists; split; [done|constructor].
  - by eapply requeue_failed_life.
  - apply bind_ret_inr in H as [info' H]. apply UpdatePayload_inr in H as ->.
    destruct (map_rows_phase (λ i t, if i == Id info then set_payload p0 t else t) d _ i p eq_refl Hp)
      as (p' & ? & ?); [|eauto].
    intros t Hi Ht. case_bool_decide; eauto using lc_stay.
  - apply RefreshHeartbeat_tasks in H as [H _]. exists p. split; [|left; constructor].
    unfold phases in *. by rewrite H.
Qed.

(** New tasks appear only through [Enqueue], pending. *)
Lemma run_op_new o fs d r fs' d' i p :
  wf d → run_op o (fs, d) = (r, (fs', d')) → d.(tasks) !! i = None → phases d' !! i = Some p →
  p = Pending ∧ ∃ now t, o = OpEnqueue now i t.
Proof.
  intros Hwf H Hn (t' & Hi' & Hp)%phases_lookup. destruct r as [e|[]].
  { pose proof (run_op_inl _ _ _ _ _ _ H) as [->|(-> & ub & gonow & now & id & ->)].
    { congruence. }
    apply Requeue_inl in H as [->|(_ & t & fs1 & fs2 & _ & _ & _ & H)]; [congruence|].
    apply finishWithTx_inr in H as (? & ? & _ & _ & _ & _ & ->). exfalso. simpl in Hi'.
    by rewrite map_lookup_imap, Hn in Hi'. }
  destruct o; simpl in H.
  - apply bind_ret_inr in H as [a H]. apply Enqueue_inr in H as (-> & _ & _ & _ & ->).
    simpl in Hi'. rewrite lookup_insert in Hi'. case_decide; [|congruence].
    simplify_eq. cbv in Hp. simplify_eq. eauto.
  - apply bind_ret_inr in H as [info H].
    apply dequeueMaybe_inr in H as (id0 & t & Hi & _ & _ & _ & _ & _ & ->).
    simpl in Hi'. rewrite lookup_insert in Hi'. case_decide; congruence.
  - apply transaction_inr in H as (? & ? & H).
    apply finishWithTx_inr in H as (? & ? & _ & _ & _ & _ & ->). simpl in Hi'.
    by rewrite map_lookup_imap, Hn in Hi'.
  - apply Cancel_inr in H as ->. simpl in Hi'. by rewrite map_lookup_imap, Hn in Hi'.
  - apply Requeue_inr in H as (t & _ & _ & _ & ->). simpl in Hi'. by rewrite map_lookup_imap, Hn in Hi'.
  - apply RequeueFailedTasks_inr in H as (_ & _ & _ & H). specialize (H i). rewrite Hn in H. congruence.
  - apply bind_ret_inr in H as [info' H]. apply UpdatePayload_inr in H as ->. simpl in Hi'.
    by rewrite map_lookup_imap, Hn in Hi'.
  - apply RefreshHeartbeat_tasks in H as [H _]. congruence.
  - apply map_err_inr, call_inr in H. unfold sqlDeleteAllTasks in H. simplify_eq.
Qed.
