(* ===== verification/TaskQueueGraph.v ===== *)
(** * The task queue: dependency graph, retry counters and what they imply

    Dependencies only ever lead from a new task to older ones, so the graph is acyclic and a queue
    in which nothing runs and nothing was canceled always has a task to hand out. *)

From S2P Require Import Prelude GoStrings Config TxMonad TaskQueue TaskQueueInv TaskQueueOps.
From S2P Require Import TaskQueueSpec TaskQueueTotal TaskQueueLife.
From stdpp Require Import options.

Open Scope string_scope.
Open Scope Z_scope.

(** ** What the operations do to dependencies and retries *)

Lemma run_op_deps o fs d r fs' d' :
  run_op o (fs, d) = (r, (fs', d')) →
  d'.(task_dependencies) = d.(task_dependencies) ∨
  (∃ now id t, o = OpEnqueue now id t ∧ d.(tasks) !! id = None ∧
     d'.(task_dependencies) = (d.(task_dependencies) ++ ((λ dep, (id, dep)) <$> t.(Dependencies)))%list) ∨
  (o = OpRemoveAll ∧ d'.(task_dependencies) = []).
Proof.
  intros H. destruct r as [e|[]].
  { left. pose proof (run_op_inl _ _ _ _ _ _ H) as [->|(-> & ub & gonow & now & id & ->)]; [done|].
    apply Requeue_inl in H as [->|(_ & t & fs1 & fs2 & _ & _ & _ & H)]; [done|].
    by apply finishWithTx_inr in H as (? & ? & _ & _ & _ & _ & ->). }
  destruct o; simpl in H.
  - apply bind_ret_inr in H as [a H]. apply Enqueue_inr in H as (-> & ? & _ & _ & ->). eauto 10.
  - apply bind_ret_inr in H as [info H].
    by apply dequeueMaybe_inr in H as (id0 & t & Hi & _ & _ & _ & _ & _ & ->); left.
  - by apply Finish_inr in H as (? & ? & _ & _ & _ & _ & ->); left.
  - by apply Cancel_inr in H as ->; left.
  - by apply Requeue_inr in H as (t & _ & _ & _ & ->); left.
  - by apply RequeueFailedTasks_inr in H as (H & _); left.
  - by apply bind_ret_inr in H as [info' H]; apply UpdatePayload_inr in H as ->; left.
  - apply RefreshHeartbeat_tasks in H as [_ H]. by left.
  - apply map_err_inr, call_inr in H. unfold sqlDeleteAllTasks in H. simplify_eq. auto.
Qed.

Lemma cancel_if_retries P `{∀ i, Decision (P i)} msg i t :
  (cancel_if P msg i t).(retries) = t.(retries).
Proof. unfold cancel_if. by repeat case_match. Qed.

Lemma finish_retries ub gonow now id err fs d fs' d' i t' :
  finishWithTx ub gonow now id err (fs, d) = (inr (), (fs', d')) → d'.(tasks) !! i = Some t' →
  ∃ t, d.(tasks) !! i = Some t ∧ t'.(retries) = t.(retries).
Proof.
  intros (t & info & _ & _ & _ & _ & ->)%finishWithTx_inr Hi.
  cbn [add_notification tasks] in Hi. rewrite map_rows_lookup in Hi. simpl in Hi.
  destruct (tasks d !! i) as [t0|]; simplify_eq/=. exists t0. split; [done|].
  unfold finish_effect. destruct err; rewrite ?cancel_if_retries; by case_decide.
Qed.

(** A counter grows by one, when the task itself or a parent of it is retried. *)
Lemma run_op_retries o fs d r fs' d' i t' :
  run_op o (fs, d) = (r, (fs', d')) → d'.(tasks) !! i = Some t' →
  (t'.(retries) = 0 ∧ d.(tasks) !! i = None) ∨
  ∃ t, d.(tasks) !! i = Some t ∧
    (t'.(retries) = t.(retries) ∨
     (t'.(retries) = t.(retries) + 1 ∧
      (t.(retries) ≠ MaxTaskRetries ∨
       ∃ now types parent tp, o = OpRequeueFailed now types ∧ (i, parent) ∈ d.(task_dependencies) ∧
         d.(tasks) !! parent = Some tp ∧ retryable now types tp = true))).
Proof.
  intros H Hi. destruct r as [e|[]].
  { right. pose proof (run_op_inl _ _ _ _ _ _ H) as [->|(-> & ub & gonow & now & id & ->)]; [eauto|].
    apply Requeue_inl in H as [->|(_ & t & fs1 & fs2 & _ & _ & _ & H)]; [eauto|].
    destruct (finish_retries _ _ _ _ _ _ _ _ _ _ _ H Hi) as (t0 & ? & ?). eauto. }
  destruct o; simpl in H.
  - apply bind_ret_inr in H as [a H]. apply Enqueue_inr in H as (-> & ? & _ & _ & ->).
    cbn [add_notification set_dependencies set_tasks tasks] in Hi.
    rewrite lookup_insert in Hi. case_decide; simplify_eq; eauto.
  - apply bind_ret_inr in H as [info H].
    apply dequeueMaybe_inr in H as (id0 & t & ? & _ & _ & _ & _ & _ & ->). right.
    cbn [set_heartbeats set_tasks tasks] in Hi.
    rewrite lookup_insert in Hi. case_decide; simplify_eq; eauto.
  - apply transaction_inr in H as (? & ? & H). right.
    destruct (finish_retries _ _ _ _ _ _ _ _ _ _ _ H Hi) as (t0 & ? & ?). eauto.
  - apply Cancel_inr in H as ->. right. cbn [add_notification tasks] in Hi.
    rewrite map_rows_lookup in Hi. simpl in Hi.
    destruct (tasks d !! i) as [t0|]; simplify_eq/=. eexists; split; [done|]. left.
    unfold cancel_effect. rewrite cancel_if_retries. case_decide; simpl; by rewrite cancel_if_retries.
  - apply Requeue_inr in H as (t & Ht & _ & Hm & ->). right. cbn [add_notification tasks] in Hi.
    rewrite map_rows_lookup in Hi. simpl in Hi.
    destruct (tasks d !! i) as [t0|] eqn:E; simplify_eq/=. eexists; split; [done|].
    unfold requeue_effect. case_decide; [right|by left]. simplify_eq/=. auto.
  - apply RequeueFailedTasks_inr in H as (_ & _ & _ & H). right. specialize (H i).
    destruct (tasks d !! i) as [t0|] eqn:E; [|congruence]. exists t0. split; [done|].
    destruct H as [[Hset H]|[_ H]]; [right|left]; simplify_eq/=; [|done]. split; [done|].
    destruct Hset as [Hr|(parent & tp & ? & ? & ?)]; [left|right; eauto 10].
    unfold retryable in Hr. rewrite !andb_true_iff in Hr.
    destruct Hr as ((((_ & Hlt) & _) & _) & _). unfold MaxTaskRetries. lia.
  - apply bind_ret_inr in H as [info' H]. apply UpdatePayload_inr in H as ->. right.
    rewrite map_rows_lookup in Hi. destruct (tasks d !! i) as [t0|]; simplify_eq/=.
    eexists; split; [done|]. left. by case_bool_decide.
  - apply RefreshHeartbeat_tasks in H as [H _]. right. rewrite H in Hi. eauto.
  - apply map_err_inr, call_inr in H. unfold sqlDeleteAllTasks in H. simplify_eq.
Qed.

(** ** Acyclicity *)

Definition ranked (rank : uuid → nat) (d : db) : Prop :=
  ∀ i dep, (i, dep) ∈ d.(task_dependencies) → (rank dep < rank i)%nat.
Definition acyclic (d : db) : Prop := ∃ rank, ranked rank d.

Lemma step_acyclic d d' : step d d' → wf d → acyclic d → acyclic d'.
Proof.
  intros [o fs d0 r fs' d1 Hok H] Hwf [rank Hrank].
  apply run_op_deps in H as [Hd|[(now & id & t & -> & Hn & Hd)|[-> Hd]]].
  - exists rank. intros i dep. rewrite Hd. apply Hrank.
  - assert (∀ i dep, (i, dep) ∈ d0.(task_dependencies) → i ≠ id ∧ dep ≠ id) as Hold.
    { intros i dep [[x Hx] [y Hy]]%(wf_deps _ Hwf). simpl in *. split; congruence. }
    exists (λ i, if decide (i = id) then S (max_list (rank <$> t.(Dependencies))) else rank i).
    intros i dep. rewrite Hd, elem_of_app, list_elem_of_fmap. intros [Hin|(x & ? & Hx)]; simplify_eq.
    + destruct (Hold _ _ Hin). rewrite !decide_False by done. by apply Hrank.
    + rewrite (decide_True (P := id = id)) by done. simpl in Hok.
      rewrite decide_False by congruence. apply Nat.lt_succ_r, max_list_elem_of_le.
      by apply list_elem_of_fmap_2.
  - exists (λ _, 0%nat). intros i dep. rewrite Hd. by intros ?%not_elem_of_nil.
Qed.

Lemma reachable_ind (P : db → Prop) :
  P empty_db → (∀ d d', reachable d → step d d' → P d → P d') → ∀ d, reachable d → P d.
Proof. intros H0 Hs. apply (rtc_ind_r P empty_db); [done|]. intros d d' H Hstep. by apply Hs. Qed.

Lemma reachable_wf d : reachable d → wf d.
Proof. intros H. by destruct (reachable_inv d H). Qed.

Lemma reachable_acyclic d : reachable d → acyclic d.
Proof.
  revert d. apply reachable_ind.
  - exists (λ _, 0%nat). by intros i dep ?%not_elem_of_nil.
  - intros d d' H Hs. apply step_acyclic; [done|by apply reachable_wf].
Qed.

(** ** Progress *)

Definition settled (d : db) : Prop :=
  map_Forall (λ _ t, phase_of t = Some Pending ∨ is_Some t.(finished_at)) d.(tasks).

(** A pending task is ready as soon as its dependencies are finished. *)
Lemma pending_ready d types i t :
  phase_of t = Some Pending → t.(fixed).(t_type) ∈ types →
  (∀ dep tdep, (i, dep) ∈ d.(task_dependencies) → d.(tasks) !! dep = Some tdep →
     is_Some tdep.(finished_at)) →
  ready d types i t = true.
Proof.
  intros Hp Hty Hdeps. unfold ready.
  apply phase_of_inv in Hp as (Hst & Hs & Hf). rewrite Hs, Hst. simpl.
  apply contains_true in Hty as ->. simpl. unfold deps_finished.
  apply forallb_forall. intros [a dep] Hin. apply orb_true_iff.
  destruct (decide (a = i)) as [->|]; [right|left; by apply bool_decide_neg_eq].
  destruct (tasks d !! dep) as [tdep|] eqn:E; [|done].
  destruct (Hdeps dep tdep) as [f ->]; [by apply list_elem_of_In|done|done].
Qed.

(** Descending along dependencies from a pending task of a settled queue ends at a ready one. *)
Lemma settled_ready rank d types n i t :
  ranked rank d → settled d →
  (∀ j tj, d.(tasks) !! j = Some tj → phase_of tj = Some Pending → tj.(fixed).(t_type) ∈ types) →
  (rank i < n)%nat → d.(tasks) !! i = Some t → phase_of t = Some Pending →
  ∃ j tj, d.(tasks) !! j = Some tj ∧ ready d types j tj = true.
Proof.
  intros Hrank Hset Hty. revert i t. induction n as [|n IH]; intros i t Hn Hi Hp; [lia|].
  destruct (decide (Exists (λ p : uuid * uuid, p.1 = i ∧
      finished_at <$> d.(tasks) !! p.2 = Some None)
      d.(task_dependencies))) as [Hex|Hall].
  - apply Exists_exists in Hex as ([a dep] & Hin & Ha & Hf). simpl in *. subst a.
    destruct (tasks d !! dep) as [tdep|] eqn:E; simplify_eq/=.
    assert (rank dep < rank i)%nat by by apply Hrank.
    apply (IH dep tdep); [lia|done|].
    destruct (Hset dep tdep E) as [|[f Hf']]; [done|congruence].
  - exists i, t. split; [done|]. apply pending_ready; [done|by eapply Hty|].
    intros dep tdep Hin Hdep. destruct (finished_at tdep) eqn:Hf; [done|].
    exfalso. apply Hall, Exists_exists. exists (i, dep). split; [done|]. simpl. rewrite Hdep. simpl.
    by rewrite Hf.
Qed.

(** ** Blocking *)

Lemma dequeue_deps_finished a tok types fs d info fs' d' dep t :
  dequeueMaybe a tok types (fs, d) = (inr info, (fs', d')) →
  (info.(Id), dep) ∈ d.(task_dependencies) → d.(tasks) !! dep = Some t → is_Some t.(finished_at).
Proof.
  intros (id & t0 & _ & Hr & _ & _ & _ & -> & _)%dequeueMaybe_inr Hin Hd. simpl in Hin.
  unfold ready in Hr. rewrite !andb_true_iff in Hr. destruct Hr as [_ Hr].
  unfold deps_finished in Hr. rewrite forallb_forall in Hr.
  specialize (Hr (id, dep)). rewrite <- list_elem_of_In in Hr. specialize (Hr Hin). simpl in Hr.
  rewrite Hd in Hr. rewrite (bool_decide_true (id = id)) in Hr by done.
  by destruct (finished_at t).
Qed.

Lemma cancel_if_started P `{∀ i, Decision (P i)} msg i t :
  (cancel_if P msg i t).(started_at) = t.(started_at).
Proof. unfold cancel_if. by repeat case_match. Qed.

(** Only [Dequeue] starts a task. *)
Lemma finish_started ub gonow now id err fs d fs' d' i t t' :
  finishWithTx ub gonow now id err (fs, d) = (inr (), (fs', d')) →
  d.(tasks) !! i = Some t → d'.(tasks) !! i = Some t' → t'.(started_at) = t.(started_at).
Proof.
  intros (t1 & info & _ & _ & _ & _ & ->)%finishWithTx_inr Hi Hi'.
  cbn [add_notification tasks] in Hi'. rewrite map_rows_lookup in Hi'. simpl in Hi'.
  rewrite Hi in Hi'. simplify_eq/=.
  unfold finish_effect. destruct err; rewrite ?cancel_if_started; by case_decide.
Qed.

Lemma run_op_started o fs d r fs' d' i t t' :
  run_op o (fs, d) = (r, (fs', d')) → d.(tasks) !! i = Some t → d'.(tasks) !! i = Some t' →
  t.(started_at) = None → is_Some t'.(started_at) →
  ∃ a tok types info, o = OpDequeue a tok types ∧ info.(Id) = i ∧
    dequeueMaybe a tok types (fs, d) = (inr info, (fs', d')).
Proof.
  intros H Hi Hi' Hn Hs. assert (t'.(started_at) ≠ t.(started_at)) as Hne.
  { rewrite Hn. by destruct Hs as [? ->]. }
  destruct r as [e|[]].
  { pose proof (run_op_inl _ _ _ _ _ _ H) as [->|(-> & ub & gonow & now & id & ->)]; [congruence|].
    apply Requeue_inl in H as [->|(_ & t0 & fs1 & fs2 & _ & _ & _ & H)]; [congruence|].
    by pose proof (finish_started _ _ _ _ _ _ _ _ _ _ _ _ H Hi Hi'). }
  destruct o; simpl in H.
  - apply bind_ret_inr in H as [a H]. apply Enqueue_inr in H as (-> & ? & _ & _ & ->).
    cbn [add_notification set_dependencies set_tasks tasks] in Hi'.
    rewrite lookup_insert in Hi'. case_decide; simplify_eq.
  - apply bind_ret_inr in H as [info H]. exists a, tok, taskTypes, info.
    pose proof H as (id0 & t0 & ? & _ & _ & _ & _ & Hinfo & Hd)%dequeueMaybe_inr.
    rewrite Hd in Hi'. cbn [set_heartbeats set_tasks tasks] in Hi'.
    rewrite lookup_insert in Hi'. case_decide; simplify_eq. done.
  - apply transaction_inr in H as (? & ? & H).
    by pose proof (finish_started _ _ _ _ _ _ _ _ _ _ _ _ H Hi Hi').
  - apply Cancel_inr in H as ->. cbn [add_notification tasks] in Hi'.
    rewrite map_rows_lookup in Hi'. simpl in Hi'. rewrite Hi in Hi'. simplify_eq/=. destruct Hne.
    unfold cancel_effect. rewrite cancel_if_started. case_decide; simpl; by rewrite cancel_if_started.
  - apply Requeue_inr in H as (t0 & Ht & _ & Hm & ->). cbn [add_notification tasks] in Hi'.
    rewrite map_rows_lookup in Hi'. simpl in Hi'. rewrite Hi in Hi'. simplify_eq/=. destruct Hne.
    unfold requeue_effect. by case_decide.
  - apply RequeueFailedTasks_inr in H as (_ & _ & _ & H). specialize (H i). rewrite Hi in H.
    destruct H as [[_ H]|[_ H]]; by simplify_eq/=.
  - apply bind_ret_inr in H as [info' H]. apply UpdatePayload_inr in H as ->.
    rewrite map_rows_lookup in Hi'. rewrite Hi in Hi'. simplify_eq/=. destruct Hne.
    by case_bool_decide.
  - apply RefreshHeartbeat_tasks in H as [H _]. congruence.
  - apply map_err_inr, call_inr in H. unfold sqlDeleteAllTasks in H. simplify_eq.
Qed.

(** The steps that neither retry failed tasks nor delete the table. *)
Definition no_reset (o : op) : Prop :=
  match o with OpRequeueFailed _ _ | OpRemoveAll => False | _ => True end.
Inductive step_no_reset : db → db → Prop :=
  | step_nr o fs d r fs' d' :
      op_ok o → no_reset o → run_op o (fs, d) = (r, (fs', d')) → step_no_reset d d'.

Lemma step_no_reset_step d d' : step_no_reset d d' → step d d'.
Proof. intros [o fs d0 r fs' d1 Hok _ H]. by econstructor. Qed.

(** A task that waits for a canceled one. *)
Definition blocked (i dep : uuid) (d : db) : Prop :=
  (i, dep) ∈ d.(task_dependencies) ∧ phases d !! dep = Some Canceled ∧
  (phases d !! i = Some Pending ∨ phases d !! i = Some Canceled).

Lemma step_no_reset_life d d' i p :
  wf d → step_no_reset d d' → phases d !! i = Some p →
  ∃ p', phases d' !! i = Some p' ∧ lifecycle p p'.
Proof.
  intros Hwf Hs Hp. destruct Hs as [o fs d0 r fs' d1 Hok Hno H].
  destruct (run_op_life _ _ _ _ _ _ _ _ Hwf H Hp) as (p' & Hp' & Hl); [by intros ->|].
  exists p'. split; [done|]. destruct Hl as [|(? & ? & ? & ? & -> & _)]; done.
Qed.

Lemma step_no_reset_blocked d d' i dep :
  wf d → step_no_reset d d' → blocked i dep d → blocked i dep d'.
Proof.
  intros Hwf Hstep (Hin & Hdep & Hi).
  destruct (step_no_reset_life _ _ _ _ Hwf Hstep Hdep) as (pd & Hpd & Hld).
  assert (∃ p, phases d !! i = Some p) as [p Hp] by (destruct Hi; eauto).
  destruct (step_no_reset_life _ _ _ _ Hwf Hstep Hp) as (p' & Hp' & Hl).
  destruct Hstep as [o fs d0 r fs' d1 Hok Hno H]. split_and!.
  - apply run_op_deps in H as [->|[(? & ? & ? & _ & _ & ->)|[-> _]]]; [done| |done].
    apply elem_of_app. by left.
  - rewrite Hpd. by inversion Hld.
  - rewrite Hp'. destruct Hi as [Hi|Hi]; rewrite Hi in Hp; simplify_eq; inversion Hl; subst; auto.
    exfalso. apply phases_lookup in Hi as (t & Ht & Hpt), Hp' as (t' & Ht' & Hpt').
    apply phase_of_inv in Hpt as (_ & Hns & _), Hpt' as (_ & Hs & _).
    destruct (run_op_started _ _ _ _ _ _ _ _ _ H Ht Ht' Hns Hs) as (a & tok & types & info & _ & <- & Hd).
    apply phases_lookup in Hdep as (tdep & Htd & Hptd). apply phase_of_inv in Hptd as (_ & _ & Hf).
    destruct (dequeue_deps_finished _ _ _ _ _ _ _ _ _ _ Hd Hin Htd). congruence.
Qed.

Lemma blocked_forever d d' i dep :
  wf d → covered d → blocked i dep d → rtc step_no_reset d d' → blocked i dep d'.
Proof.
  intros Hwf Hc Hb Hsteps. assert (inv ∅ d) as Hinv by done. clear Hwf Hc.
  induction Hsteps as [|d d1 d2 Hs _ IH]; [done|]. apply IH.
  - by eapply step_no_reset_blocked; [apply Hinv| |].
  - eapply step_inv; [by apply step_no_reset_step|done].
Qed.

(** ** Retry counters *)

Definition independent (i : uuid) (d : db) : Prop := ∀ dep, (i, dep) ∉ d.(task_dependencies).

Lemma reachable_retries d : reachable d →
  map_Forall (λ i t, independent i d → t.(retries) ≤ MaxTaskRetries) d.(tasks).
Proof.
  revert d. apply reachable_ind.
  { by intros i t Hi. }
  intros d d' Hd Hs IH i t' Hi' Hind. destruct Hs as [o fs d0 r fs' d1 Hok H].
  destruct (run_op_retries _ _ _ _ _ _ _ _ H Hi') as [[-> _]|(t & Hi & Hr)].
  { done. }
  assert (o = OpRemoveAll ∨ independent i d0) as [->|Hind0].
  { pose proof (run_op_deps _ _ _ _ _ _ H) as [Hd'|[(now & id & t0 & -> & Hn & Hd')|[-> _]]]; auto.
    - right. intros dep Hin. apply (Hind dep). by rewrite Hd'.
    - right. intros dep Hin. apply (Hind dep). rewrite Hd'. apply elem_of_app. by left. }
  { destruct (run_op OpRemoveAll (fs, d0)) as [[e|[]] [f' x]] eqn:E.
    - apply run_op_inl in E as [->|(_ & ? & ? & ? & ? & ?)]; [|done].
      simplify_eq. apply (IH i); [|done]. congruence.
    - apply map_err_inr, call_inr in E. unfold sqlDeleteAllTasks in E. by simplify_eq. }
  specialize (IH i t Hi Hind0). simpl in IH.
  destruct Hr as [->|[-> [Hne|(? & ? & parent & ? & _ & Hin & _)]]]; [done|lia|].
  by apply Hind0 in Hin.
Qed.
