(* ===== verification/TaskQueueThms.v ===== *)
(** * The task queue: the properties it promises

    Stated for every state reachable by any sequence of calls, with any pattern of database
    failures ([fs]), or, for totality, for a call during which the database does not fail. *)

From S2P Require Import Prelude GoStrings Config TxMonad TaskQueue TaskQueueInv TaskQueueOps.
From S2P Require Import TaskQueueSpec TaskQueueTotal TaskQueueLife TaskQueueGraph.
From stdpp Require Import options.

Open Scope string_scope.
Open Scope Z_scope.

(** ** Concrete runs, for the witnesses *)

(** The database after a sequence of calls without faults. *)
Definition after (ops : list op) (d : db) : db :=
  fold_left (λ d o, (run (run_op o) d).2) ops d.

Lemma after_reachable ops d : reachable d → Forall op_ok ops → reachable (after ops d).
Proof.
  revert d. induction ops as [|o ops IH]; intros d Hd Hops; [done|].
  apply Forall_cons in Hops as [Ho Hops]. simpl. apply IH; [|done].
  eapply rtc_r; [exact Hd|]. unfold run.
  destruct (run_op o ([], d)) as [r [fs' d']] eqn:E. by econstructor.
Qed.

#[global] Instance op_ok_dec o : Decision (op_ok o).
Proof. destruct o; simpl; apply _. Defined.

Lemma runs_reachable ops : bool_decide (Forall op_ok ops) = true → reachable (after ops empty_db).
Proof. intros H%bool_decide_eq_true. apply after_reachable; [apply rtc_refl|done]. Qed.

Definition ex_task (ty : string) (deps : list uuid) (prio : Z) : Task :=
  {| Typename := ty; Payload := "{}"; Dependencies := deps; OrgId := "org"; AccountId := "";
     ObjectUUID := None; ObjectType := None; RequestID := "req"; Priority := prio |}.
Definition ex_types : list string := [IntrospectTask; RepositorySnapshotTask; DeleteSnapshotsTask].

(** Two tasks, the second depending on the first. *)
Definition ex_enqueued : list op :=
  [OpEnqueue 10 1%N (ex_task IntrospectTask [] 0);
   OpEnqueue 11 2%N (ex_task RepositorySnapshotTask [1%N] 0)].
Definition ex_running : list op :=
  (ex_enqueued ++ [OpDequeue (mk_attempt 12 ∅ 0) 100%N ex_types])%list.
Definition ex_failed : list op :=
  [OpEnqueue 10 1%N (ex_task DeleteSnapshotsTask [] 0);
   OpEnqueue 11 2%N (ex_task UpdateTemplateContentTask [1%N] 0);
   OpDequeue (mk_attempt 12 ∅ 0) 100%N ex_types;
   OpFinish (300 * Second) 13 13 1%N (Some "boom")].

Lemma ex_running_reachable : reachable (after ex_running empty_db).
Proof. apply runs_reachable. by vm_compute. Qed.

(** A clock that is ahead of every row, decided on a concrete table. *)
Definition clock_after_b (now : time) (d : db) : bool :=
  bool_decide (map_Forall (λ _ t,
    check_le t.(started_at) (Some now) && check_le t.(queued_at) (Some now) = true) d.(tasks)).

Lemma clock_after_b_true now d : clock_after_b now d = true → clock_after now d.
Proof.
  intros H%bool_decide_eq_true i t Hi s. specialize (H i t Hi). simpl in H.
  apply andb_true_iff in H as [H1 H2]. unfold check_le in *.
  intros [Hs|Hs]; rewrite Hs in *; lia.
Qed.

(** ** Invariants *)

(** [C1] In every reachable state, whatever calls failed on the way: every row is in exactly one phase,
    satisfies the constraints of the schema, carries a token exactly when it has been started and an
    error message of at most 4000 characters of valid UTF-8; dependencies and heartbeats refer to
    existing tasks; and every running task has a heartbeat row under its token, so that a crashed
    worker is noticed. *)
Theorem reachable_invariant d : reachable d → wf d ∧ covered d.
Proof. apply reachable_inv. Qed.

Lemma reachable_invariant_witness : wf (after ex_running empty_db) ∧ covered (after ex_running empty_db).
Proof. apply reachable_invariant, ex_running_reachable. Defined.

(** [C2] The queue refines the life cycle of a task: in a reachable state, a call of any operation (failing
    or not) moves each task along an edge of [lifecycle], except that a retry of a failed parent
    sends its dependents back to pending; and new tasks come only from [Enqueue], pending. *)
Theorem queue_refines_lifecycle d o fs r fs' d' :
  reachable d → run_op o (fs, d) = (r, (fs', d')) → o ≠ OpRemoveAll →
  (∀ i p, phases d !! i = Some p →
     ∃ p', phases d' !! i = Some p' ∧ (lifecycle p p' ∨ retried_with_parent o d i p')) ∧
  (∀ i p, d.(tasks) !! i = None → phases d' !! i = Some p →
     p = Pending ∧ ∃ now t, o = OpEnqueue now i t).
Proof.
  intros Hd%reachable_wf H Ho. split; intros i p.
  - intros Hp. by eapply run_op_life.
  - by apply (run_op_new _ _ _ _ _ _ _ _ Hd H).
Qed.

Lemma queue_refines_lifecycle_witness :
  let d := after ex_running empty_db in
  let o := OpFinish (300 * Second) 13 13 1%N (Some "boom") in
  phases d !! 1%N = Some Running ∧
  (∃ p', phases (after [o] d) !! 1%N = Some p' ∧ (lifecycle Running p' ∨ retried_with_parent o d 1%N p')).
Proof.
  intros d o. split; [by vm_compute|].
  refine (proj1 (queue_refines_lifecycle d o [] _ [] _ ex_running_reachable _ _) 1%N Running _);
    [by vm_compute|done|by vm_compute].
Defined.

(** [C3] An operation that returns an error has changed nothing, whichever of its database calls failed;
    the one exception is [Requeue] with [ErrMaxRetriesExceeded], which reports that it failed the
    task for good, exactly as [Finish] with that message would have. *)
Theorem failed_operation_changes_nothing o fs d e fs' d' :
  run_op o (fs, d) = (inl e, (fs', d')) →
  d' = d ∨
  ∃ ub gonow now id t, o = OpRequeue ub gonow now id ∧ e = ErrMaxRetriesExceeded ∧
    d.(tasks) !! id = Some t ∧ may_requeue t ∧ t.(retries) = MaxTaskRetries ∧
    d' = finish_result ub gonow now id (Some max_retries_msg) d t.
Proof.
  intros H. pose proof (run_op_inl _ _ _ _ _ _ H) as [->|(-> & ub & gonow & now & id & ->)]; [by left|].
  apply Requeue_inl in H as [->|(_ & t & fs1 & fs2 & Ht & Hm & Hr & H)]; [by left|right].
  exists ub, gonow, now, id, t. split_and!; [done..|].
  by apply finishWithTx_inr in H as (t2 & info & ? & _ & _ & -> & ->); simplify_eq.
Qed.

Lemma failed_operation_changes_nothing_witness :
  let d := after ex_running empty_db in
  (run_op (OpFinish (300 * Second) 13 13 1%N None) ([None; None; None; None; Some (ErrOther "lost")], d)).2.2 = d.
Proof.
  intros d.
  destruct (failed_operation_changes_nothing (OpFinish (300 * Second) 13 13 1%N None)
      [None; None; None; None; Some (ErrOther "lost")] d
      (Wrapf "error finishing task" (ErrOther "lost")) [] d) as [H|(? & ? & ? & ? & ? & H & _)].
  - by vm_compute.
  - by vm_compute.
  - done.
Defined.

(** ** Dequeue *)

(** [C4] A successful dequeue hands out a task that was pending, of a requested type and not locked by
    another worker, all of whose dependencies are finished, and that no other such task precedes in
    the order (priority descending, then time of queueing); the task becomes running under the
    worker's token, which was new, with a heartbeat of the same instant, and nothing else changes. *)
Theorem dequeue_sound a tok types fs d info fs' d' :
  wf d → dequeueMaybe a tok types (fs, d) = (inr info, (fs', d')) →
  ∃ t, d.(tasks) !! info.(Id) = Some t ∧ phase_of t = Some Pending ∧
    t.(fixed).(t_type) ∈ types ∧ info.(Id) ∉ a.(at_locked) ∧
    (∀ dep td, (info.(Id), dep) ∈ d.(task_dependencies) → d.(tasks) !! dep = Some td →
       is_Some td.(finished_at)) ∧
    (∀ id2 t2, d.(tasks) !! id2 = Some t2 → ready d types id2 t2 = true → id2 ∉ a.(at_locked) →
       dequeue_le t t2 = true) ∧
    d.(task_heartbeats) !! tok = None ∧
    info = scan_task info.(Id) (start_task a.(at_now) tok t) (sqlQueryDependencies info.(Id) d) ∧
    d' = set_heartbeats (<[tok := (info.(Id), a.(at_now))]> d.(task_heartbeats))
           (set_tasks (<[info.(Id) := start_task a.(at_now) tok t]> d.(tasks)) d).
Proof.
  intros Hwf H. pose proof (λ dep t, dequeue_deps_finished _ _ _ _ _ _ _ _ dep t H) as Hdeps.
  apply dequeueMaybe_inr in H as (id & t & Hid & Hr & Hl & Hbest & Htok & -> & ->).
  exists t. split_and!; try done.
  - eapply ready_pending; [by apply (wf_rows _ Hwf id)|done].
  - unfold ready in Hr. rewrite !andb_true_iff in Hr. destruct Hr as [[_ Hr] _].
    by apply contains_true in Hr.
Qed.

Lemma dequeue_sound_witness :
  let d := after ex_enqueued empty_db in
  match run (dequeueMaybe (mk_attempt 12 ∅ 0) 100%N ex_types) d with
  | (inr info, _) => info.(Id) = 1%N ∧ ∃ t, d.(tasks) !! 1%N = Some t ∧ phase_of t = Some Pending
  | _ => False
  end.
Proof.
  intros d. vm_compute. split; [done|].
  destruct (dequeue_sound (mk_attempt 12 ∅ 0) 100%N ex_types [] d
    (match run (dequeueMaybe (mk_attempt 12 ∅ 0) 100%N ex_types) d with (inr i, _) => i | _ => scan_task 0%N (new_task 0 (ex_task "" [] 0)) [] end)
    [] (after ex_running empty_db)) as (t & Ht & Hp & _).
  - apply reachable_wf, runs_reachable. by vm_compute.
  - by vm_compute.
  - exists t. split; [exact Ht|exact Hp].
Defined.

(** [C5] A dequeue with a fresh token and a healthy database returns a task whenever one is ready and
    unlocked; when there is none it reports that there are no rows and changes nothing. *)
Theorem dequeue_complete a tok types d :
  wf d → clock_after a.(at_now) d → tok ≠ uuid_Nil → d.(task_heartbeats) !! tok = None →
  ((∃ id t, d.(tasks) !! id = Some t ∧ ready d types id t = true ∧ id ∉ a.(at_locked)) →
   ∃ info d', run (dequeueMaybe a tok types) d = (inr info, d')) ∧
  ((∀ id t, d.(tasks) !! id = Some t → ready d types id t = true → id ∈ a.(at_locked)) →
   run (dequeueMaybe a tok types) d = (inl (Wrapf "error during dequeue query" ErrNoRows), d)).
Proof.
  intros Hwf Hclock Htok Hhb. split.
  - intros (id & t & H). apply dequeueMaybe_some; [done..|]. intros Hnil.
    apply candidates_elem in H. rewrite Hnil in H. by apply not_elem_of_nil in H.
  - intros Hno. apply dequeueMaybe_none.
    destruct (dequeue_candidates _ _ _) as [|[id t] l] eqn:E; [done|exfalso].
    assert ((id, t) ∈ dequeue_candidates (at_locked a) types d) as H by (rewrite E; constructor).
    apply candidates_elem in H as (Hi & Hr & Hl). by apply Hl, (Hno id t).
Qed.

Lemma dequeue_complete_witness :
  let d := after ex_running empty_db in
  run (dequeueMaybe (mk_attempt 20 ∅ 0) 101%N ex_types) d =
    (inl (Wrapf "error during dequeue query" ErrNoRows), d).
Proof.
  intros d. apply (dequeue_complete (mk_attempt 20 ∅ 0) 101%N ex_types d).
  - apply reachable_wf, ex_running_reachable.
  - apply clock_after_b_true. by vm_compute.
  - done.
  - by vm_compute.
  - assert (map_Forall (λ id t, ready d ex_types id t = false) d.(tasks)) as H.
    { apply (bool_decide_unpack _). by vm_compute. }
    intros id t Hi Hr. rewrite (H id t Hi) in Hr. done.
Defined.

(** [C6] The dependency graph of a reachable queue is acyclic: it has a ranking that decreases along every
    dependency. *)
Theorem dependencies_acyclic d :
  reachable d → ∃ rank : uuid → nat, ∀ i dep, (i, dep) ∈ d.(task_dependencies) → (rank dep < rank i)%nat.
Proof. apply reachable_acyclic. Qed.

Lemma dependencies_acyclic_witness :
  ∃ rank : uuid → nat, (rank 1%N < rank 2%N)%nat.
Proof.
  destruct (dependencies_acyclic _ ex_running_reachable) as [rank H].
  exists rank. apply H. by vm_compute; constructor.
Defined.

(** [C7] Progress: when every task of a reachable queue is pending or finished (nothing runs, nothing was
    canceled) and one is pending, a worker that accepts all types gets a task: dependencies never
    deadlock. *)
Theorem settled_queue_progresses d types now pick tok i t :
  reachable d → settled d → clock_after now d → tok ≠ uuid_Nil → d.(task_heartbeats) !! tok = None →
  (∀ j tj, d.(tasks) !! j = Some tj → tj.(fixed).(t_type) ∈ types) →
  d.(tasks) !! i = Some t → phase_of t = Some Pending →
  ∃ info d', run (dequeueMaybe (mk_attempt now ∅ pick) tok types) d = (inr info, d').
Proof.
  intros Hd Hset Hclock Htok Hhb Hty Hi Hp. destruct (reachable_acyclic d Hd) as [rank Hrank].
  destruct (settled_ready rank d types (S (rank i)) i t) as (j & tj & Hj & Hr); eauto.
  apply dequeueMaybe_some; [by apply reachable_wf|done..|]. intros Hnil.
  assert ((j, tj) ∈ dequeue_candidates ∅ types d) as H.
  { apply candidates_elem. split_and!; [done..|]. apply not_elem_of_empty. }
  simpl in Hnil. rewrite Hnil in H. by apply not_elem_of_nil in H.
Qed.

Lemma settled_queue_progresses_witness :
  let d := after ex_enqueued empty_db in
  ∃ info d', run (dequeueMaybe (mk_attempt 12 ∅ 0) 100%N ex_types) d = (inr info, d').
Proof.
  intros d. assert (reachable d) as Hd.
  { apply runs_reachable. by vm_compute. }
  apply (settled_queue_progresses d ex_types 12 0 100%N 1%N
           (new_task 10 (ex_task IntrospectTask [] 0))).
  - exact Hd.
  - intros i t Hi. left. revert i t Hi. change (map_Forall (λ _ t, phase_of t = Some Pending) d.(tasks)).
    apply (bool_decide_unpack _). by vm_compute.
  - apply clock_after_b_true. by vm_compute.
  - done.
  - by vm_compute.
  - change (map_Forall (λ _ t, t.(fixed).(t_type) ∈ ex_types) d.(tasks)).
    apply (bool_decide_unpack _). by vm_compute.
  - by vm_compute.
  - by vm_compute.
Defined.

(** A task that waits for a canceled task is never started: it stays pending or canceled in every
    state reached by calls that neither retry failed tasks nor empty the table, because canceling
    leaves [finished_at] empty and [Dequeue] waits for finished dependencies. *)
Theorem waiting_for_canceled_never_runs d d' i dep :
  reachable d → (i, dep) ∈ d.(task_dependencies) → phases d !! dep = Some Canceled →
  phases d !! i = Some Pending → rtc step_no_reset d d' →
  phases d' !! i = Some Pending ∨ phases d' !! i = Some Canceled.
Proof.
  intros Hd Hin Hdep Hi Hsteps. destruct (reachable_inv d Hd) as [Hwf Hc].
  destruct (blocked_forever d d' i dep Hwf Hc) as (_ & _ & H); [|done|done].
  by split_and!; [| |left].
Qed.

(** Three tasks in a chain; canceling the first cancels the second and leaves the third waiting. *)
Definition ex_chain : list op :=
  [OpEnqueue 10 1%N (ex_task IntrospectTask [] 0);
   OpEnqueue 11 2%N (ex_task RepositorySnapshotTask [1%N] 0);
   OpEnqueue 12 3%N (ex_task DeleteSnapshotsTask [2%N] 0);
   OpCancel 1%N].

Lemma waiting_for_canceled_never_runs_witness :
  let d := after ex_chain empty_db in
  phases d !! 1%N = Some Canceled ∧ phases d !! 2%N = Some Canceled ∧ phases d !! 3%N = Some Pending ∧
  ∀ d', rtc step_no_reset d d' → phases d' !! 3%N = Some Pending ∨ phases d' !! 3%N = Some Canceled.
Proof.
  intros d. split_and!; [by vm_compute..|]. intros d' H.
  apply (waiting_for_canceled_never_runs d d' 3%N 2%N).
  - apply runs_reachable. by vm_compute.
  - vm_compute. right. left.
  - by vm_compute.
  - by vm_compute.
  - exact H.
Defined.

(** ** Finish, Requeue, Cancel *)

(** [C8] [Finish] on every branch: an unknown task is an error, a task that is not running is
    [ErrNotRunning], both without effect; a running one is stamped finished, completed or failed with
    the (valid UTF-8) message and the time of its next retry, its heartbeats are removed, its
    unfinished dependents are canceled when it failed, and listeners are notified. *)
Theorem finish_every_branch ub gonow now id err d :
  wf d → clock_after now d →
  run (Finish ub gonow now id err) d =
    match d.(tasks) !! id with
    | None => (inl (Wrapf "error querying task info" ErrNoRows), d)
    | Some t =>
        if isNone t.(started_at) || isSome t.(finished_at) then (inl ErrNotRunning, d)
        else (inr (), add_notification NotifyTasks
               (map_rows (finish_effect ub gonow now id err d (scan_task id t (sqlQueryDependencies id d)))
                  (without_heartbeats id d)))
    end.
Proof. apply Finish_total. Qed.

Lemma finish_every_branch_witness :
  let d := after ex_running empty_db in
  let d' := (run (Finish (300 * Second) 13 13 1%N (Some "boom")) d).2 in
  run (Finish (300 * Second) 13 13 2%N None) d = (inl ErrNotRunning, d) ∧
  phases d' !! 1%N = Some Failed ∧ phases d' !! 2%N = Some Canceled.
Proof.
  intros d d'. split; [|split; by vm_compute].
  rewrite (finish_every_branch (300 * Second) 13 13 2%N None d); [by vm_compute| |].
  - apply reachable_wf, ex_running_reachable.
  - apply clock_after_b_true. by vm_compute.
Defined.

(** [Requeue] on every branch: unknown, canceled and not running tasks are errors without effect; a
    task that has used all its retries is failed and its dependents canceled, with
    [ErrMaxRetriesExceeded]; any other running task goes back to pending, without token and
    heartbeats and with one more retry counted. *)
Theorem requeue_every_branch ub gonow now id d :
  wf d → clock_after now d →
  run (Requeue ub gonow now id) d =
    match d.(tasks) !! id with
    | None => (inl (Wrapf "error querying task status" ErrNoRows), d)
    | Some t =>
        if t.(cancel_attempted) && (t.(status) != TaskStatusRunning) then (inl ErrTaskCanceled, d)
        else if isNone t.(started_at) || isSome t.(finished_at) then (inl ErrNotRunning, d)
        else if t.(retries) =? MaxTaskRetries then
          (inl ErrMaxRetriesExceeded, finish_result ub gonow now id (Some max_retries_msg) d t)
        else (inr (), add_notification NotifyTasks
               (map_rows (λ i t, if decide (i = id) then requeue_row now None t else t)
                  (without_heartbeats id d)))
    end.
Proof. apply Requeue_total. Qed.

Lemma requeue_every_branch_witness :
  let d := after ex_running empty_db in
  let d' := (run (Requeue (300 * Second) 13 13 1%N) d).2 in
  run (Requeue (300 * Second) 13 13 9%N) d = (inl (Wrapf "error querying task status" ErrNoRows), d) ∧
  phases d' !! 1%N = Some Pending ∧ retries <$> d'.(tasks) !! 1%N = Some 1.
Proof.
  intros d d'. split; [|split; by vm_compute].
  rewrite (requeue_every_branch (300 * Second) 13 13 9%N d); [by vm_compute| |].
  - apply reachable_wf, ex_running_reachable.
  - apply clock_after_b_true. by vm_compute.
Defined.

(** [Cancel] of any identifier succeeds on a healthy database: cancel listeners are told, the task's
    heartbeats go, the task is marked canceled unless it has finished (and [cancel_attempted] in any
    case), and so are its direct unfinished dependents. *)
Theorem cancel_effect_total id d :
  wf d →
  run (Cancel id) d =
    (inr (), add_notification NotifyTasks
       (map_rows (λ i t,
          let t1 := if decide (i = id)
                    then mark_cancel_attempted (if isSome t.(finished_at) then t else cancel_row "task canceled" t)
                    else t in
          if decide (i ∈ sqlQueryDependents id d)
          then if isSome t1.(finished_at) then t1 else cancel_row "parent task canceled" t1
          else t1)
          (without_heartbeats id (add_notification (NotifyCancel id) d)))).
Proof.
  intros Hwf. unfold run. rewrite Cancel_total by done. do 2 f_equal. apply map_rows_ext.
  intros i t _. unfold cancel_effect, cancel_if. by destruct (decide (i = id)).
Qed.

Lemma cancel_effect_total_witness :
  let d := after ex_running empty_db in
  (run (Cancel 1%N) d).1 = inr () ∧ phases (run (Cancel 1%N) d).2 !! 1%N = Some Aborted ∧
  phases (run (Cancel 1%N) d).2 !! 2%N = Some Canceled.
Proof.
  intros d. split; [|split; by vm_compute].
  by rewrite (cancel_effect_total 1%N d); [|apply reachable_wf, ex_running_reachable].
Defined.

(** [RequeueFailedTasks] always succeeds on a healthy database and sends back to pending, with one more
    retry counted, exactly the failed tasks whose retry is due (of a requested type, with retries
    left, no cancel attempted) and the direct dependents of such tasks. *)
Theorem requeue_failed_exact now types d :
  wf d →
  ∃ d', run (RequeueFailedTasks now types) d = (inr (), d') ∧
    d'.(task_dependencies) = d.(task_dependencies) ∧ d'.(task_heartbeats) = d.(task_heartbeats) ∧
    ∀ i, match d.(tasks) !! i with
         | None => d'.(tasks) !! i = None
         | Some t =>
             (requeue_failed_set now types d i t ∧ d'.(tasks) !! i = Some (requeue_row now None t)) ∨
             (¬ requeue_failed_set now types d i t ∧ d'.(tasks) !! i = Some t)
         end.
Proof.
  intros Hwf. destruct (RequeueFailedTasks_total now types d Hwf) as [d' H].
  exists d'. split; [done|]. unfold run in H.
  destruct (RequeueFailedTasks now types ([], d)) as [r [fs' d1]] eqn:E. simplify_eq.
  by apply RequeueFailedTasks_inr in E as (? & ? & _ & ?).
Qed.

Lemma requeue_failed_exact_witness :
  let d := after ex_failed empty_db in
  ∃ d', run (RequeueFailedTasks (100 * Second) RequeueableTasks) d = (inr (), d') ∧
    d'.(task_dependencies) = d.(task_dependencies) ∧ phases d' !! 1%N = Some Pending.
Proof.
  intros d.
  destruct (requeue_failed_exact (100 * Second) RequeueableTasks d) as (d' & H & Hdeps & _ & _).
  { apply reachable_wf, runs_reachable. by vm_compute. }
  exists d'. split; [exact H|]. split; [exact Hdeps|].
  assert (d' = (run (RequeueFailedTasks (100 * Second) RequeueableTasks) d).2) as -> by by rewrite H.
  by vm_compute.
Defined.

(** ** Enqueue *)

Lemma iter_deps_total id l d :
  is_Some (d.(tasks) !! id) → Forall (λ dep, is_Some (d.(tasks) !! dep)) l →
  iter (λ dep, wrap "error inserting dependency" (db_call (sqlInsertDependency id dep))) l ([], d)
    = (inr (), ([], set_dependencies (d.(task_dependencies) ++ ((λ dep, (id, dep)) <$> l))%list d)).
Proof.
  revert d. induction l as [|x l IH]; intros d [ti Hid] Hl.
  { simpl. rewrite app_nil_r. by destruct d. }
  apply Forall_cons in Hl as [[tx Hx] Hl]. simpl.
  erewrite bind_eq.
  2:{ unfold wrap. apply map_err_ok, call_eq. unfold sqlInsertDependency. by rewrite Hid, Hx. }
  rewrite IH; [|simpl; by rewrite Hid|done]. simpl. by rewrite <- app_assoc.
Qed.

Lemma query_new_dependencies d id l :
  wf d → d.(tasks) !! id = None →
  snd <$> base.filter (λ p : uuid * uuid, p.1 = id) (d.(task_dependencies) ++ ((λ dep, (id, dep)) <$> l))%list = l.
Proof.
  intros Hwf Hid. rewrite filter_app.
  assert (base.filter (λ p : uuid * uuid, p.1 = id) d.(task_dependencies) = []) as ->.
  { destruct (base.filter _ _) as [|p q] eqn:E; [done|exfalso].
    assert (p ∈ base.filter (λ p : uuid * uuid, p.1 = id) d.(task_dependencies)) as H by (rewrite E; constructor).
    apply list_elem_of_filter in H as [Hp H]. apply (wf_deps _ Hwf) in H as [[x Hx] _]. congruence. }
  simpl. induction l as [|x l IH]; [done|]. rewrite fmap_cons, filter_cons_True by done.
  rewrite fmap_cons. simpl. f_equal. exact IH.
Qed.

(** Enqueue then status: with a new identifier, existing dependencies and a consistent object reference,
    [Enqueue] succeeds and [Status] then reads back exactly what was enqueued: type, payload,
    dependencies in order, organisation, object and priority, pending, unstarted, with no retries. *)
Theorem enqueue_status_roundtrip now id t d :
  wf d → d.(tasks) !! id = None → Forall (λ dep, is_Some (d.(tasks) !! dep)) t.(Dependencies) →
  non_null_obj_type_if_uuid (new_task now t) = true →
  ∃ d', run (Enqueue now id t) d = (inr id, d') ∧
    run (PgStatus id) d' =
      (inr {| Id := id; ti_Typename := t.(Typename); ti_Payload := t.(Payload); Queued := Some now;
              Started := None; Finished := None; Status := TaskStatusPending; Error := None;
              ti_OrgId := t.(OrgId); ti_ObjectUUID := default uuid_Nil t.(ObjectUUID);
              ti_ObjectType := t.(ObjectType); Token := uuid_Nil; ti_RequestID := t.(RequestID);
              Retries := 0; NextRetryTime := None; ti_Priority := t.(Priority);
              CancelAttempted := false; ti_Dependencies := t.(Dependencies) |}, d').
Proof.
  intros Hwf Hid Hdeps Hobj. set (d1 := set_tasks (<[id := new_task now t]> d.(tasks)) d).
  set (d' := add_notification NotifyTasks
    (set_dependencies (d.(task_dependencies) ++ ((λ dep, (id, dep)) <$> t.(Dependencies)))%list d1)).
  assert (Enqueue now id t ([], d) = (inr id, ([], d'))) as H.
  { unfold Enqueue. erewrite bind_eq by done. apply transaction_ok.
    erewrite bind_eq.
    2:{ unfold wrap. apply map_err_ok, call_eq. unfold sqlEnqueue. rewrite Hid.
        assert (tasks_check (new_task now t) = true) as -> by (apply tasks_check_spec; by split_and!). done. }
    erewrite bind_eq; [|apply (iter_deps_total id t.(Dependencies) d1)].
    - done.
    - simpl. by rewrite lookup_insert_eq.
    - eapply Forall_impl; [exact Hdeps|]. intros dep Hdep. simpl in *.
      rewrite lookup_insert. by case_decide. }
  exists d'. unfold run. rewrite H. split; [done|].
  assert (PgStatus id ([], d') = (inr (scan_task id (new_task now t) t.(Dependencies)), ([], d'))) as ->; [|done].
  unfold PgStatus. erewrite bind_eq by done. erewrite statusWithConn_some.
  - unfold sqlQueryDependencies. simpl. by rewrite query_new_dependencies.
  - simpl. by rewrite lookup_insert_eq.
Qed.

Lemma enqueue_status_roundtrip_witness :
  let d := after ex_running empty_db in
  ∃ d', run (Enqueue 20 7%N (ex_task IntrospectTask [1%N; 2%N] 5)) d = (inr 7%N, d').
Proof.
  intros d.
  destruct (enqueue_status_roundtrip 20 7%N (ex_task IntrospectTask [1%N; 2%N] 5) d) as (d' & H & _).
  - apply reachable_wf, ex_running_reachable.
  - by vm_compute.
  - apply (bool_decide_unpack _). by vm_compute.
  - by vm_compute.
  - exists d'. exact H.
Defined.

(** ** Retries *)

(** [C9] A task with no dependency is never retried more than [MaxTaskRetries] times, in any reachable
    state. *)
Theorem independent_retries_bounded d i t :
  reachable d → d.(tasks) !! i = Some t → (∀ dep, (i, dep) ∉ d.(task_dependencies)) →
  0 ≤ t.(retries) ≤ MaxTaskRetries.
Proof.
  intros Hd Hi Hind. split.
  - by apply ok_retries, (wf_rows d (reachable_wf d Hd) i).
  - by apply (reachable_retries d Hd i).
Qed.

Lemma independent_retries_bounded_witness :
  let d := after (ex_running ++ [OpRequeue (300 * Second) 13 13 1%N])%list empty_db in
  ∃ t, d.(tasks) !! 1%N = Some t ∧ t.(retries) = 1 ∧ 0 ≤ t.(retries) ≤ MaxTaskRetries.
Proof.
  intros d. destruct (d.(tasks) !! 1%N) as [t|] eqn:Ht; [|by vm_compute in Ht].
  exists t. split; [done|]. split.
  { assert (retries <$> Some t = Some 1) as H by (rewrite <- Ht; by vm_compute). by injection H. }
  apply (independent_retries_bounded d 1%N t); [apply runs_reachable; by vm_compute|exact Ht|].
  intros dep. replace (task_dependencies d) with [(2%N, 1%N)] by by vm_compute.
  rewrite list_elem_of_singleton. by intros [=].
Defined.

(** One round: task [id] (the only one ready) runs, fails and is retried with whatever depends on it. *)
Definition ex_round (k : N) (id : uuid) : list op :=
  [OpDequeue (mk_attempt (Z.of_N k * 1000) ∅ 0) (100 + k)%N ex_types;
   OpFinish 0 (Z.of_N k * 1000 + 1) (Z.of_N k * 1000 + 1) id (Some "boom");
   OpRequeueFailed (Z.of_N k * 1000 + 2) RequeueableTasks].

(** The bound fails for a task with two parents: each retry of a failed parent counts as a retry of the
    dependent, so that a reachable queue has a task that never ran with more than [MaxTaskRetries]
    retries. *)
Theorem dependent_exceeds_max_retries :
  ∃ d i t, reachable d ∧ d.(tasks) !! i = Some t ∧ t.(started_at) = None ∧ MaxTaskRetries < t.(retries).
Proof.
  set (ops := ([OpEnqueue 10 1%N (ex_task DeleteSnapshotsTask [] 9);
                OpEnqueue 11 2%N (ex_task DeleteSnapshotsTask [] 5);
                OpEnqueue 12 3%N (ex_task UpdateTemplateContentTask [1%N; 2%N] 0)] ++
               ex_round 1 1 ++ ex_round 2 1 ++ ex_round 3 1 ++
               [OpDequeue (mk_attempt 4000 ∅ 0) 200%N ex_types; OpFinish 0 4001 4001 1%N None] ++
               ex_round 5 2)%list).
  destruct ((after ops empty_db).(tasks) !! 3%N) as [t|] eqn:Ht; [|by vm_compute in Ht].
  exists (after ops empty_db), 3%N, t. split_and!; [apply runs_reachable; by vm_compute|done|..].
  - assert (started_at <$> Some t = Some None) as H by (rewrite <- Ht; by vm_compute).
    by injection H.
  - assert (retries <$> Some t = Some 4) as H by (rewrite <- Ht; by vm_compute).
    injection H as ->. done.
Qed.

(** The wait before a retry is a whole number of seconds, never negative and never longer than the
    configured upper bound, and it does not shrink from one retry to the next. *)
Theorem retry_wait_bounds ub r :
  0 ≤ ub → 0 ≤ r ≤ MaxTaskRetries →
  0 ≤ timeToWait ub r ≤ ub ∧ (Second | timeToWait ub r) ∧
  (r < MaxTaskRetries → timeToWait ub r ≤ timeToWait ub (r + 1)).
Proof.
  unfold MaxTaskRetries, timeToWait. intros Hub Hr.
  assert (r = 0 ∨ r = 1 ∨ r = 2 ∨ r = 3) as Hr' by lia. clear Hr.
  split_and!; [| |by apply Z.divide_factor_l|intros Hlt];
    destruct Hr' as [-> | [-> | [-> | ->]]]; unfold Second, MaxTaskRetries; Z.to_euclidean_division_equations; lia.
Qed.

Lemma retry_wait_bounds_witness :
  0 ≤ timeToWait (300 * Second) 1 ≤ 300 * Second ∧ timeToWait (300 * Second) 1 = 100 * Second.
Proof. split; [apply (retry_wait_bounds (300 * Second) 1)|]; by vm_compute. Defined.
