(* ===== verification/Worker.v ===== *)
(** * pkg/tasks/worker: workers and the worker pool

    A worker is two goroutines that share [runningTask] and the pool's [workerMap]: the loop of
    [start] (a [select] over the stop, ready and heartbeat channels) and, while a task runs, the
    goroutine of [process]. The pool is a transition system [pool_step]: an event names the worker,
    the goroutine that moves and what the environment decides (database faults, clock, the outcome
    of a handler), and gives the next state when the move is possible. The clean-up after a handler is kept as the list of
    statements still to run, so that the two goroutines interleave statement by statement.

    Channels have a buffer of one: a send is possible only when the buffer is empty. *)

From S2P Require Import Prelude GoStrings Config TxMonad TaskQueue TaskQueueInv TaskQueueOps.
From stdpp Require Import options.

Open Scope string_scope.
Open Scope Z_scope.

(** ** State *)

(** The cause given to a [context.CancelCauseFunc]; the first one stays. *)
Inductive cause := CauseNotRunning | CauseTaskCanceled.
Definition ctx : Type := nat.

Record runningTask := mk_runningTask {
  rt_id : uuid;
  rt_token : uuid;
  rt_typename : string;
  rt_requestID : string;
  taskCancelFunc : option ctx;   (* the context it cancels *)
  rt_cancelled : bool
}.

Definition setTaskInfo (info : TaskInfo) (t : runningTask) : runningTask :=
  {| rt_id := info.(Id); rt_token := info.(Token); rt_typename := info.(ti_Typename);
     rt_requestID := info.(ti_RequestID); taskCancelFunc := t.(taskCancelFunc);
     rt_cancelled := t.(rt_cancelled) |}.

Definition clear (t : runningTask) : runningTask :=
  {| rt_id := uuid_Nil; rt_token := uuid_Nil; rt_typename := ""; rt_requestID := "";
     taskCancelFunc := t.(taskCancelFunc); rt_cancelled := false |}.

(** Where the loop of [start] is: at its [select], inside [dequeue] with the context it created, or
    gone. *)
Inductive main_pc := AtSelect | Dequeuing (c : ctx) | Exited.

(** The statements that follow the handler in [process] and [recoverOnPanic]. *)
Inductive stmt_todo :=
  | DoFinish (id : uuid) (err : option string)     (* w.queue.Finish(id, handlerErr) *)
  | DoFinishPanic (err : option string)            (* w.queue.Finish(w.runningTask.id, err) *)
  | DoCancelFunc                                   (* w.runningTask.taskCancelFunc(ErrNotRunning) *)
  | DoClear                                        (* w.runningTask.clear() *)
  | DoRemove (id : uuid)                           (* w.workerMap.Remove(id) *)
  | DoRemoveRunning                                (* w.workerMap.Remove(w.runningTask.id) *)
  | DoReady.                                       (* w.readyChan <- struct{}{} *)

#[global] Instance stmt_todo_eq_dec : EqDecision stmt_todo.
Proof. solve_decision. Defined.

(** The goroutine of [process]: the task with the context it was started with, and what is left to do, [None] while the
    handler runs. *)
Record proc := mk_proc {
  p_info : TaskInfo * ctx;
  p_todo : option (list stmt_todo)
}.

(** Where [ListenForCancelledTasks] is: waiting for a notification, holding the worker that the map gave it, or about to
    call the cancel function of a context. *)
Inductive listener_pc := Listening | Found (i : nat) | Calling (c : ctx).

Record worker := mk_worker {
  w_running : runningTask;
  w_ready : bool;   (* readyChan holds a value *)
  w_stop : bool;    (* stopChan holds a value *)
  w_main : main_pc;
  w_proc : option proc;
  w_beat : bool     (* the heartbeat timer is armed *)
}.

Record pool := mk_pool {
  p_db : db;
  p_workers : list worker;
  p_map : gmap uuid nat;          (* workerMap: task -> worker *)
  p_ctxs : gmap ctx cause;        (* the canceled contexts *)
  p_next : ctx;                   (* contexts created so far *)
  p_down : bool;                  (* the server's context is done *)
  p_crashed : bool;               (* a panic nobody recovers *)
  p_listener : listener_pc
}.

Definition set_running (f : runningTask → runningTask) (w : worker) : worker :=
  mk_worker (f w.(w_running)) w.(w_ready) w.(w_stop) w.(w_main) w.(w_proc) w.(w_beat).
Definition set_ready (b : bool) (w : worker) : worker :=
  mk_worker w.(w_running) b w.(w_stop) w.(w_main) w.(w_proc) w.(w_beat).
Definition set_stop (b : bool) (w : worker) : worker :=
  mk_worker w.(w_running) w.(w_ready) b w.(w_main) w.(w_proc) w.(w_beat).
Definition set_main (pc : main_pc) (w : worker) : worker :=
  mk_worker w.(w_running) w.(w_ready) w.(w_stop) pc w.(w_proc) w.(w_beat).
Definition set_proc (p : option proc) (w : worker) : worker :=
  mk_worker w.(w_running) w.(w_ready) w.(w_stop) w.(w_main) p w.(w_beat).
Definition set_beat (b : bool) (w : worker) : worker :=
  mk_worker w.(w_running) w.(w_ready) w.(w_stop) w.(w_main) w.(w_proc) b.

Definition set_db (d : db) (p : pool) : pool :=
  mk_pool d p.(p_workers) p.(p_map) p.(p_ctxs) p.(p_next) p.(p_down) p.(p_crashed) p.(p_listener).
Definition set_worker (i : nat) (w : worker) (p : pool) : pool :=
  mk_pool p.(p_db) (<[i := w]> p.(p_workers)) p.(p_map) p.(p_ctxs) p.(p_next) p.(p_down) p.(p_crashed) p.(p_listener).
Definition set_map (m : gmap uuid nat) (p : pool) : pool :=
  mk_pool p.(p_db) p.(p_workers) m p.(p_ctxs) p.(p_next) p.(p_down) p.(p_crashed) p.(p_listener).
Definition set_next (n : ctx) (p : pool) : pool :=
  mk_pool p.(p_db) p.(p_workers) p.(p_map) p.(p_ctxs) n p.(p_down) p.(p_crashed) p.(p_listener).
Definition set_ctxs (m : gmap ctx cause) (p : pool) : pool :=
  mk_pool p.(p_db) p.(p_workers) p.(p_map) m p.(p_next) p.(p_down) p.(p_crashed) p.(p_listener).
Definition set_down (p : pool) : pool :=
  mk_pool p.(p_db) p.(p_workers) p.(p_map) p.(p_ctxs) p.(p_next) true p.(p_crashed) p.(p_listener).
Definition set_crashed (p : pool) : pool :=
  mk_pool p.(p_db) p.(p_workers) p.(p_map) p.(p_ctxs) p.(p_next) p.(p_down) true p.(p_listener).
Definition set_listener (l : listener_pc) (p : pool) : pool :=
  mk_pool p.(p_db) p.(p_workers) p.(p_map) p.(p_ctxs) p.(p_next) p.(p_down) p.(p_crashed) l.

(** ** utils.ConcurrentMap *)

Definition map_Set (key : uuid) (value : nat) (p : pool) : pool := set_map (<[key := value]> p.(p_map)) p.
Definition map_Get (key : uuid) (p : pool) : option nat := p.(p_map) !! key.
Definition map_Remove (key : uuid) (p : pool) : pool := set_map (delete key p.(p_map)) p.

(** [cancel(cause)]: a context already canceled keeps its cause. *)
Definition cancel (f : option ctx) (why : cause) (p : pool) : pool :=
  match f with
  | None => p
  | Some c => match p.(p_ctxs) !! c with
              | Some _ => p
              | None => set_ctxs (<[c := why]> p.(p_ctxs)) p
              end
  end.

Definition ctx_done (c : ctx) (p : pool) : bool := p.(p_down) || isSome (p.(p_ctxs) !! c).

(** ** process *)

(** How the handler of a task ends: it returns an error ([None]: nil) of one of the kinds [process]
    distinguishes, or panics, with an error or with another value. *)
Inductive handler_outcome :=
  | Returned (err : option string)
  | ReturnedServerExited
  | ReturnedCanceled            (* context.Canceled, ErrTaskCanceled or sql.ErrTxDone *)
  | Panicked (err : option string).

(** [recoverOnPanic], from the inside of [process]. *)
Definition recoverOnPanic (err : option string) : list stmt_todo :=
  [DoFinishPanic err; DoCancelFunc; DoClear; DoRemoveRunning; DoReady].

(** The statements [process] still runs after its handler, or when there is no handler. *)
Definition process_rest (hasHandler : bool) (info : TaskInfo) (o : handler_outcome) : list stmt_todo :=
  if negb hasHandler then [DoClear; DoRemove info.(Id); DoCancelFunc; DoReady] else
  match o with
  | ReturnedServerExited => [DoCancelFunc]
  | ReturnedCanceled => [DoCancelFunc; DoClear; DoRemove info.(Id); DoReady]
  | Returned err => [DoFinish info.(Id) err; DoClear; DoRemove info.(Id); DoCancelFunc; DoReady]
  | Panicked err => recoverOnPanic err
  end.

(** What the environment decides about a call to the queue. *)
Record call_env := mk_call_env {
  ce_faults : list (option qerr);
  ce_upperBound : time;
  ce_goNow : time;
  ce_now : time
}.

Definition queue_Finish (env : call_env) (id : uuid) (err : option string) (p : pool) : (qerr + ()) * pool :=
  let '(r, (_, d)) := Finish env.(ce_upperBound) env.(ce_goNow) env.(ce_now) id err (env.(ce_faults), p.(p_db)) in
  (r, set_db d p).

(** One statement of the clean-up of worker [i]; [None]: it blocks. *)
Definition run_todo (env : call_env) (i : nat) (w : worker) (s : stmt_todo) (p : pool) : option pool :=
  match s with
  | DoFinish id err => Some (queue_Finish env id err p).2
  | DoFinishPanic err =>
      match queue_Finish env w.(w_running).(rt_id) err p with
      | (inl _, p') => Some (if isNone err then set_crashed p' else p')   (* err.Error() of a nil error *)
      | (inr _, p') => Some p'
      end
  | DoCancelFunc => Some (cancel w.(w_running).(taskCancelFunc) CauseNotRunning p)
  | DoClear => Some (set_worker i (set_running clear w) p)
  | DoRemove id => Some (map_Remove id p)
  | DoRemoveRunning => Some (map_Remove w.(w_running).(rt_id) p)
  | DoReady => if w.(w_ready) then None else Some (set_worker i (set_ready true w) p)
  end.

(** ** The pool *)

Inductive event :=
  | EReady (i : nat)                                            (* case <-w.readyChan *)
  | EDequeue (i : nat) (fs : list (option qerr)) (a : attempt) (tok : uuid)   (* an attempt of w.dequeue *)
  | EDequeueCanceled (i : nat)                                  (* ctx.Done() while w.dequeue waits *)
  | EHandler (i : nat) (o : handler_outcome)                    (* the handler ends *)
  | ETodo (i : nat) (env : call_env)                            (* the next statement of process *)
  | EBeat (i : nat) (fs : list (option qerr)) (now : time)      (* case <-beat.C *)
  | EStopSent (i : nat)                                         (* w.stop(), from WorkerPool.Stop *)
  | EStop (i : nat) (env : call_env)                            (* case <-w.stopChan *)
  | ECancelNotified (id : uuid)                                 (* ListenForCancelledTasks: workerMap.Get *)
  | ECancelRead                                                 (* it reads wrk.runningTask.taskCancelFunc *)
  | ECancelCall                                                 (* and calls it *)
  | EServerExit                                                 (* the server's context is done *)
  | EQueue (o : op) (fs : list (option qerr)).                  (* anybody else uses the queue *)

Definition upd (i : nat) (f : worker → worker) (p : pool) : pool :=
  match p.(p_workers) !! i with Some w => set_worker i (f w) p | None => p end.

(** [requeue]: the error of a task that used up its retries is not an error. *)
Definition worker_requeue (env : call_env) (id : uuid) (p : pool) : (qerr + ()) * pool :=
  let '(r, (_, d)) := Requeue env.(ce_upperBound) env.(ce_goNow) env.(ce_now) id (env.(ce_faults), p.(p_db)) in
  (match r with
   | inl e => if errors_Is e ErrMaxRetriesExceeded then inr () else inl e
   | inr _ => inr ()
   end, set_db d p).

(** The end of an attempt of [dequeue] and what [start] does with it. *)
Definition worker_dequeue (taskTypes : list string) (i : nat) (w : worker) (c : ctx)
    (fs : list (option qerr)) (a : attempt) (tok : uuid) (p : pool) : option pool :=
  let '(r, (_, d)) := dequeueMaybe a tok taskTypes (fs, p.(p_db)) in
  let p := set_db d p in
  match r with
  | inr info =>
      Some (map_Set info.(Id) i
        (set_worker i (set_proc (Some (mk_proc (info, c) None)) (set_main AtSelect (set_running (setTaskInfo info) w))) p))
  | inl e =>
      if errors_Is e ErrNoRows then Some p                               (* keeps waiting *)
      else if errors_Is e ErrContextDone then Some (set_worker i (set_main AtSelect w) p)
      else if w.(w_ready) then None
      else Some (set_worker i (set_ready true (set_main AtSelect w)) p)
  end.

(** The heartbeat case: the timer is armed again unless the refresh found no row. *)
Definition worker_beat (i : nat) (w : worker) (fs : list (option qerr)) (now : time) (p : pool) : pool :=
  if w.(w_running).(rt_token) == uuid_Nil then p else
  let '(r, (_, d)) := RefreshHeartbeat now w.(w_running).(rt_token) (fs, p.(p_db)) in
  match r with
  | inl ErrRowsNotAffected => set_worker i (set_beat false w) (set_db d p)
  | _ => set_db d p
  end.

Section Pool.
(** The registered handlers: the task types that have one. *)
Context (handlers : list string).

Definition worker_step (e : event) (i : nat) (w : worker) (p : pool) : option pool :=
  match e with
  | EReady _ =>
      match w.(w_main), w.(w_ready) with
      | AtSelect, true =>
          Some (set_next (S p.(p_next)) (set_worker i
            (set_ready false (set_main (Dequeuing p.(p_next))
               (set_running (λ t, mk_runningTask t.(rt_id) t.(rt_token) t.(rt_typename) t.(rt_requestID)
                                    (Some p.(p_next)) t.(rt_cancelled)) w))) p))
      | _, _ => None
      end
  | EDequeue _ fs a tok =>
      match w.(w_main) with
      | Dequeuing c => worker_dequeue handlers i w c fs a tok p
      | _ => None
      end
  | EDequeueCanceled _ =>
      match w.(w_main) with
      | Dequeuing c => if ctx_done c p then Some (set_worker i (set_main AtSelect w) p) else None
      | _ => None
      end
  | EHandler _ o =>
      match w.(w_proc) with
      | Some (mk_proc info None) =>
          Some (set_worker i
            (set_proc (Some (mk_proc info (Some (process_rest (contains handlers info.1.(ti_Typename)) info.1 o)))) w) p)
      | _ => None
      end
  | ETodo _ env =>
      match w.(w_proc) with
      | Some (mk_proc info (Some (s :: rest))) =>
          upd i (set_proc (match rest with [] => None | _ => Some (mk_proc info (Some rest)) end))
            <$> run_todo env i w s p
      | _ => None
      end
  | EBeat _ fs now =>
      match w.(w_main), w.(w_beat) with
      | AtSelect, true => Some (worker_beat i w fs now p)
      | _, _ => None
      end
  | EStopSent _ => if w.(w_stop) then None else Some (set_worker i (set_stop true w) p)
  | EStop _ env =>
      match w.(w_main), w.(w_stop) with
      | AtSelect, true =>
          let p' := if w.(w_running).(rt_id) == uuid_Nil then p
                    else (worker_requeue env w.(w_running).(rt_id) p).2 in
          Some (set_worker i (set_stop false (set_main Exited w)) p')
      | _, _ => None
      end
  | _ => None
  end.

(** [ListenForCancelledTasks], in three steps: the lock of the map is held for the first one only, so that the worker
    goes on in between. *)
Definition listener_step (e : event) (p : pool) : option pool :=
  match e, p.(p_listener) with
  | ECancelNotified id, Listening =>
      Some (match map_Get id p with Some i => set_listener (Found i) p | None => p end)
  | ECancelRead, Found i =>
      Some (set_listener (match p.(p_workers) !! i with
                          | Some w => match w.(w_running).(taskCancelFunc) with Some c => Calling c | None => Listening end
                          | None => Listening
                          end) p)
  | ECancelCall, Calling c => Some (set_listener Listening (cancel (Some c) CauseTaskCanceled p))
  | _, _ => None
  end.

Definition pool_step (e : event) (p : pool) : option pool :=
  if p.(p_crashed) then None else
  match e with
  | EReady i | EDequeue i _ _ _ | EDequeueCanceled i | EHandler i _ | ETodo i _ | EBeat i _ _
  | EStopSent i | EStop i _ =>
      match p.(p_workers) !! i with Some w => worker_step e i w p | None => None end
  | ECancelNotified _ | ECancelRead | ECancelCall => listener_step e p
  | EServerExit => Some (set_down p)
  | EQueue o fs => let '(_, (_, d)) := run_op o (fs, p.(p_db)) in Some (set_db d p)
  end.
End Pool.

(** [newWorker] and the beginning of [start]. *)
Definition newWorker : worker :=
  mk_worker (mk_runningTask uuid_Nil uuid_Nil "" "" None false) true false AtSelect None true.

(** [StartWorkers]. *)
Definition StartWorkers (workerCount : nat) (d : db) : pool :=
  mk_pool d (replicate workerCount newWorker) ∅ ∅ 0%nat false false Listening.

(** ** Background loops of the pool *)

(** One tick of [HeartbeatListener]: errors are logged and ignored. An error of [IdFromToken] leaves
    [isRunning] false. *)
Definition ignore {A} (m : Q A) : Q () := λ w, let '(_, w') := m w in (inr (), w').

Definition heartbeat_check (ub gonow now : time) (tok : uuid) : Q () := λ w,
  match IdFromToken tok w with
  | (inr (id, true), w') => ignore (Requeue ub gonow now id) w'
  | (_, w') => (inr (), w')
  end.

Definition heartbeat_tick (ub gonow now heartbeat : time) : Q () :=
  toks ← Heartbeats now heartbeat;
  iter (heartbeat_check ub gonow now) toks.

(** One tick of [WorkerPool.RequeueFailedTasks]. *)
Definition requeue_failed_tick (now : time) : Q () := ignore (RequeueFailedTasks now RequeueableTasks).

(** [RegisterHandler]: the set of types with a handler and the list handed to [Dequeue]. *)
Definition RegisterHandler (taskType : string) (s : gset string * list string) : gset string * list string :=
  ({[taskType]} ∪ s.1,
   if contains s.2 taskType then s.2 else (s.2 ++ [taskType])%list).
