(* ===== verification/WorkerInv.v ===== *)
(** * Workers: invariants of the pool

    A worker holds a single token that moves between its ready channel, its dequeue and the
    goroutine of its task; hence it never runs two tasks and never blocks on a send. *)

From S2P Require Import Prelude GoStrings Config TxMonad TaskQueue TaskQueueInv TaskQueueOps.
From S2P Require Import Worker.
From stdpp Require Import options.

Open Scope string_scope.
Open Scope Z_scope.

(** ** Runs of the pool *)

Definition event_ok (e : event) : Prop :=
  match e with EQueue o _ => op_ok o | _ => True end.
Definition no_panic (e : event) : Prop :=
  match e with EHandler _ (Panicked _) => False | _ => True end.

Definition pool_rel (h : list string) (ok : event → Prop) (p p' : pool) : Prop :=
  ∃ e, event_ok e ∧ ok e ∧ pool_step h e p = Some p'.
Definition pool_reachable (h : list string) (n : nat) (ok : event → Prop) : pool → Prop :=
  rtc (pool_rel h ok) (StartWorkers n empty_db).

Lemma pool_reachable_ind h n ok (P : pool → Prop) :
  P (StartWorkers n empty_db) →
  (∀ p e p', P p → event_ok e → ok e → pool_step h e p = Some p' → P p') →
  ∀ p, pool_reachable h n ok p → P p.
Proof.
  intros H0 Hs. apply (rtc_ind_r P); [done|]. intros p p' _ (e & He & Hok & H) HP. by eapply Hs.
Qed.

(** ** One token per worker *)

Definition todo_ok (l : list stmt_todo) : Prop :=
  l = [DoCancelFunc] ∨ ∃ l', l = (l' ++ [DoReady])%list ∧ DoReady ∉ l'.

Record worker_ok (w : worker) : Prop := {
  wk_ready : w.(w_ready) = true → w.(w_proc) = None ∧ ∀ c, w.(w_main) ≠ Dequeuing c;
  wk_deq : ∀ c, w.(w_main) = Dequeuing c → w.(w_proc) = None ∧ w.(w_ready) = false ∧
             w.(w_running).(taskCancelFunc) = Some c;
  wk_todo : ∀ info l, w.(w_proc) = Some (mk_proc info (Some l)) → todo_ok l;
  wk_ctx : ∀ q, w.(w_proc) = Some q → w.(w_running).(taskCancelFunc) = Some q.(p_info).2
}.

Lemma process_rest_ok b info o : todo_ok (process_rest b info o).
Proof.
  unfold process_rest, recoverOnPanic, todo_ok. destruct b; simpl.
  - destruct o as [err| | |err].
    + right. exists [DoFinish info.(Id) err; DoClear; DoRemove info.(Id); DoCancelFunc].
      split; [done|]. by apply (bool_decide_unpack _).
    + by left.
    + right. exists [DoCancelFunc; DoClear; DoRemove info.(Id)].
      split; [done|]. by apply (bool_decide_unpack _).
    + right. exists [DoFinishPanic err; DoCancelFunc; DoClear; DoRemoveRunning].
      split; [done|]. by apply (bool_decide_unpack _).
  - right. exists [DoClear; DoRemove info.(Id); DoCancelFunc].
    split; [done|]. by apply (bool_decide_unpack _).
Qed.

Lemma todo_ok_tail s rest :
  todo_ok (s :: rest) → (s = DoReady → rest = []) ∧ (rest ≠ [] → todo_ok rest).
Proof.
  intros [H|([|x l'] & H & Hn)]; simplify_eq/=.
  - done.
  - done.
  - apply not_elem_of_cons in Hn as [Hx Hn]. split; [congruence|]. right. eauto.
Qed.

(** The next statement never blocks. *)
Lemma todo_never_blocks env i w info s rest p :
  worker_ok w → w.(w_proc) = Some (mk_proc info (Some (s :: rest))) → is_Some (run_todo env i w s p).
Proof.
  intros Hok Hp. destruct s; simpl; try done.
  - by destruct (queue_Finish _ _ _ _) as [[] ?].
  - destruct (w_ready w) eqn:E; [|done]. apply (wk_ready _ Hok) in E as [E _]. congruence.
Qed.

Lemma queue_Finish_frame env id err p :
  let p' := (queue_Finish env id err p).2 in
  p'.(p_workers) = p.(p_workers) ∧ p'.(p_map) = p.(p_map) ∧ p'.(p_ctxs) = p.(p_ctxs) ∧
  p'.(p_next) = p.(p_next) ∧ p'.(p_crashed) = p.(p_crashed).
Proof. unfold queue_Finish. by destruct (Finish _ _ _ _ _ _) as [r [fs d]]. Qed.

Lemma cancel_frame f why p :
  (cancel f why p).(p_workers) = p.(p_workers) ∧ (cancel f why p).(p_map) = p.(p_map) ∧
  (cancel f why p).(p_db) = p.(p_db).
Proof. unfold cancel. by repeat case_match. Qed.

Lemma requeue_frame env id p :
  (worker_requeue env id p).2.(p_workers) = p.(p_workers) ∧
  (worker_requeue env id p).2.(p_map) = p.(p_map).
Proof. unfold worker_requeue. by destruct (Requeue _ _ _ _ _) as [r [fs d]]. Qed.

(** What a statement does to the workers and to the map. *)
Lemma run_todo_frame env i w s p p' :
  run_todo env i w s p = Some p' →
  p'.(p_workers) = match s with
                   | DoClear => <[i := set_running clear w]> p.(p_workers)
                   | DoReady => <[i := set_ready true w]> p.(p_workers)
                   | _ => p.(p_workers)
                   end ∧
  p'.(p_map) = match s with
               | DoRemove id => delete id p.(p_map)
               | DoRemoveRunning => delete w.(w_running).(rt_id) p.(p_map)
               | _ => p.(p_map)
               end.
Proof.
  destruct s; simpl; intros H; simplify_eq/=; try done.
  - pose proof (queue_Finish_frame env id err p) as (? & ? & _). done.
  - pose proof (queue_Finish_frame env (rt_id (w_running w)) err p) as (? & ? & _).
    destruct (queue_Finish _ _ _ _) as [[] ?]; simplify_eq/=; [by destruct (isNone err)|done].
  - pose proof (cancel_frame (taskCancelFunc (w_running w)) CauseNotRunning p) as (? & ? & _). done.
  - by destruct (w_ready w); simplify_eq/=.
Qed.

(** The worker after a move of one of its goroutines. *)
Definition next_worker (e : event) (w w' : worker) (p : pool) : Prop :=
  match e with
  | EReady _ => w.(w_main) = AtSelect ∧ w.(w_ready) = true ∧ w'.(w_ready) = false ∧
      w'.(w_main) = Dequeuing p.(p_next) ∧ w'.(w_proc) = w.(w_proc) ∧
      w'.(w_running).(taskCancelFunc) = Some p.(p_next) ∧ w'.(w_running).(rt_id) = w.(w_running).(rt_id)
  | EDequeue _ _ _ _ => ∃ c, w.(w_main) = Dequeuing c ∧
      (w' = w ∨ w' = set_main AtSelect w ∨ w' = set_ready true (set_main AtSelect w) ∨
       ∃ info, w' = set_proc (Some (mk_proc (info, c) None)) (set_main AtSelect (set_running (setTaskInfo info) w)))
  | EDequeueCanceled _ => (∃ c, w.(w_main) = Dequeuing c) ∧ w' = set_main AtSelect w
  | EHandler _ o => ∃ info b, w.(w_proc) = Some (mk_proc info None) ∧
      w' = set_proc (Some (mk_proc info (Some (process_rest b info.1 o)))) w
  | ETodo _ _ => ∃ info s rest, w.(w_proc) = Some (mk_proc info (Some (s :: rest))) ∧
      w' = set_proc (match rest with [] => None | _ => Some (mk_proc info (Some rest)) end)
             (match s with DoClear => set_running clear w | DoReady => set_ready true w | _ => w end)
  | EBeat _ _ _ => ∃ b, w' = set_beat b w
  | EStopSent _ => w' = set_stop true w
  | EStop _ _ => w.(w_main) = AtSelect ∧ w' = set_stop false (set_main Exited w)
  | _ => False
  end.

Lemma set_beat_same w : set_beat w.(w_beat) w = w.
Proof. by destruct w. Qed.

Lemma insert_same (l : list worker) i w : l !! i = Some w → l = <[i := w]> l.
Proof. intros. by rewrite list_insert_id. Qed.

Lemma worker_step_next h e i w p p' :
  p.(p_workers) !! i = Some w → worker_step h e i w p = Some p' →
  ∃ w', p'.(p_workers) = <[i := w']> p.(p_workers) ∧ next_worker e w w' p.
Proof.
  intros Hi H. pose proof (lookup_lt_Some _ _ _ Hi) as Hlt.
  destruct e; simpl in H; try done.
  - destruct (w_main w) eqn:Em, (w_ready w) eqn:Er; simplify_eq. eexists; split; [done|]. done.
  - destruct (w_main w) as [|c|] eqn:Em; simplify_eq. unfold worker_dequeue in H.
    destruct (dequeueMaybe _ _ _ _) as [[e|info] [fs' d]]; simplify_eq/=.
    + destruct (errors_Is e ErrNoRows); simplify_eq/=.
      { exists w. split; [by apply insert_same|]. eauto. }
      destruct (errors_Is e ErrContextDone); simplify_eq/=.
      { eexists; split; [done|]. exists c. split; [done|]. auto. }
      destruct (w_ready w); simplify_eq/=.
      eexists; split; [done|]. exists c. split; [done|]. auto.
    + eexists; split; [done|]. exists c. split; [done|]. eauto.
  - destruct (w_main w) as [|c|] eqn:Em; simplify_eq. destruct (ctx_done c p); simplify_eq/=.
    eexists; split; [done|]. eauto.
  - destruct (w_proc w) as [[info [l|]]|] eqn:Ep; simplify_eq/=.
    eexists; split; [done|]. eauto.
  - destruct (w_proc w) as [[info [[|s rest]|]]|] eqn:Ep; simplify_eq/=.
    destruct (run_todo env i w s p) as [p1|] eqn:Er; simplify_eq/=.
    apply run_todo_frame in Er as [Hw _].
    set (f := set_proc _).
    exists (f (match s with DoClear => set_running clear w | DoReady => set_ready true w | _ => w end)).
    split; [|by eexists _, _, _].
    unfold upd. rewrite Hw. destruct s; simpl; rewrite ?Hi, ?list_lookup_insert_eq by done; simpl;
      by rewrite ?Hw, ?list_insert_insert_eq.
  - destruct (w_main w) eqn:Em, (w_beat w) eqn:Eb; simplify_eq/=. unfold worker_beat.
    case_bool_decide; [exists w; split; [by apply insert_same|]; exists true; by rewrite <- Eb, set_beat_same|].
    destruct (RefreshHeartbeat _ _ _) as [r [fs' d]].
    assert (∃ w', p_workers p = <[i:=w']> (p_workers p) ∧ ∃ b, w' = set_beat b w) as Hsame.
    { exists w. split; [by apply insert_same|]. exists true. by rewrite <- Eb, set_beat_same. }
    destruct r as [[]|]; simpl; eauto.
  - destruct (w_stop w); simplify_eq/=. eauto.
  - destruct (w_main w) eqn:Em, (w_stop w) eqn:Es; simplify_eq/=.
    eexists; split; [|done]. case_bool_decide; simpl; [done|].
    by destruct (requeue_frame env (rt_id (w_running w)) p) as [-> _].
Qed.

Lemma next_worker_ok e w w' p : worker_ok w → next_worker e w w' p → worker_ok w'.
Proof.
  intros [Hr Hd Ht Hx] H. destruct e; simpl in H; try done.
  - destruct H as (Em & Er & Er' & Em' & Ep & Ec & _). destruct (Hr Er) as [Hp _].
    split; rewrite ?Er', ?Em', ?Ep, ?Hp; try done. intros c [= <-]. done.
  - destruct H as (c & Em & H). destruct (Hd c Em) as (Hp & Hrd & Hc).
    destruct H as [->|[->|[->|(info & ->)]]]; [by split|split; simpl; rewrite ?Hp, ?Hrd; try done..]. by intros q [= <-].
  - destruct H as ([c Em] & ->). destruct (Hd c Em) as (Hp & Hrd & Hc).
    split; simpl; rewrite ?Hp, ?Hrd; done.
  - destruct H as (info & b & Ep & ->). split; simpl.
    + intros Er. destruct (Hr Er). congruence.
    + intros c Em. destruct (Hd c Em). congruence.
    + intros ? ? [= <- <-]. apply process_rest_ok.
    + intros q [= <-]. apply (Hx _ Ep).
  - destruct H as (info & s & rest & Ep & ->).
    destruct (todo_ok_tail s rest (Ht _ _ Ep)) as [Hready Htail].
    assert (w_ready w = false) as Er.
    { apply not_true_is_false. intros E. destruct (Hr E). congruence. }
    assert (∀ c, w_main w ≠ Dequeuing c) as Em.
    { intros c E. destruct (Hd c E). congruence. }
    split.
    + intros E. destruct s; simpl in E; try congruence. rewrite Hready by done. simpl. auto.
    + intros c E. exfalso. apply (Em c). by destruct s.
    + intros info' l. simpl. destruct rest; [done|]. intros [= <- <-]. by apply Htail.
    + intros q. simpl. pose proof (Hx _ Ep) as Hc. destruct rest; [done|]. intros [= <-]. by destruct s.
  - destruct H as [b ->]. by split.
  - subst. by split.
  - destruct H as [Em ->]. split; simpl; [|done|done|done]. intros E. by destruct (Hr E).
Qed.

(** ** The invariant of the pool *)

Definition workers_ok (p : pool) : Prop := ∀ i w, p.(p_workers) !! i = Some w → worker_ok w.

Lemma newWorker_ok : worker_ok newWorker.
Proof. by split. Qed.

Lemma pool_step_cases h e p p' :
  pool_step h e p = Some p' →
  (∃ i w, p.(p_workers) !! i = Some w ∧ worker_step h e i w p = Some p') ∨
  listener_step e p = Some p' ∨
  (e = EServerExit ∧ p' = set_down p) ∨
  (∃ o fs r fs' d, e = EQueue o fs ∧ run_op o (fs, p.(p_db)) = (r, (fs', d)) ∧ p' = set_db d p).
Proof.
  unfold pool_step. destruct (p_crashed p); [done|]. intros H.
  destruct e; try (destruct (p_workers p !! i) as [w|] eqn:E; [|done]; left; by eauto);
    simplify_eq; eauto 10.
  destruct (run_op o (fs, p_db p)) as [r [fs' d]] eqn:E. simplify_eq. eauto 12.
Qed.

Lemma listener_frame e p p' :
  listener_step e p = Some p' → p'.(p_workers) = p.(p_workers) ∧ p'.(p_map) = p.(p_map) ∧ p'.(p_db) = p.(p_db).
Proof.
  unfold listener_step. intros H. destruct e; try done; destruct (p_listener p); simplify_eq/=; [by case_match|done|].
  exact (cancel_frame (Some c) CauseTaskCanceled p).
Qed.

Lemma workers_ok_step h e p p' : workers_ok p → pool_step h e p = Some p' → workers_ok p'.
Proof.
  intros Hok H. apply pool_step_cases in H as [(i & w & Hi & H)|[Hl|[[_ ->]|(? & ? & ? & ? & d & _ & _ & ->)]]].
  - destruct (worker_step_next _ _ _ _ _ _ Hi H) as (w' & Hw & Hn).
    intros j w2. rewrite Hw, list_lookup_insert_Some. intros [(-> & -> & _)|[_ Hj]]; [|by eapply Hok].
    eapply next_worker_ok; [|done]. by eapply Hok.
  - intros j w2. destruct (listener_frame _ _ _ Hl) as [-> _]. apply Hok.
  - apply Hok.
  - apply Hok.
Qed.

Lemma reachable_workers_ok h n ok p : pool_reachable h n ok p → workers_ok p.
Proof.
  revert p. apply pool_reachable_ind.
  - intros i w H. apply lookup_replicate in H as [-> _]. apply newWorker_ok.
  - intros p e p' Hp _ _ H. by eapply workers_ok_step.
Qed.

(** ** The map of running tasks *)

(** Worker [w] is busy with task [id]: its goroutine has still to take [id] out of the map, or it
    left with the server and [id] waits to be requeued. *)
Definition busy_with (id : uuid) (w : worker) : Prop :=
  w.(w_ready) = false ∧ (∀ c, w.(w_main) ≠ Dequeuing c) ∧
  match w.(w_proc) with
  | Some (mk_proc info None) => info.1.(Id) = id
  | Some (mk_proc info (Some l)) =>
      info.1.(Id) = id ∧ (DoRemove id ∈ l ∨ (l = [DoCancelFunc] ∧ w.(w_running).(rt_id) = id))
  | None => w.(w_running).(rt_id) = id
  end.

Definition running_id_ok (w : worker) : Prop :=
  ∀ info, w.(w_proc) = Some (mk_proc info None) → w.(w_running).(rt_id) = info.1.(Id).

Lemma next_running_id_ok e w w' p : running_id_ok w → next_worker e w w' p → running_id_ok w'.
Proof.
  intros Hid H. unfold running_id_ok in *. destruct e; simpl in H; try done.
  - destruct H as (_ & _ & _ & _ & -> & _ & ->). done.
  - destruct H as (c & _ & [->|[->|[->|(info & ->)]]]); try done. simpl. by intros ? [= <-].
  - by destruct H as (_ & ->).
  - by destruct H as (info & b & _ & ->).
  - destruct H as (info & s & rest & Ep & ->). simpl. by destruct rest.
  - by destruct H as [b ->].
  - by subst.
  - by destruct H as [_ ->].
Qed.

Lemma process_rest_removes b info o :
  (∀ err, o ≠ Panicked err) →
  DoRemove info.(Id) ∈ process_rest b info o ∨ process_rest b info o = [DoCancelFunc].
Proof.
  intros Hp. unfold process_rest. destruct b; simpl; [destruct o as [err| | |err]|].
  - left. do 2 right. left.
  - by right.
  - left. do 2 right. left.
  - by destruct (Hp err).
  - left. right. left.
Qed.

(** A worker stays busy with its task until it removes it from the map. *)
Lemma next_busy e w w' p id :
  worker_ok w → running_id_ok w → no_panic e → next_worker e w w' p → busy_with id w →
  busy_with id w' ∨
  ∃ info rest, w.(w_proc) = Some (mk_proc info (Some (DoRemove id :: rest))) ∧ ∃ i env, e = ETodo i env.
Proof.
  intros Hok Hid Hnp H (Hr & Hm & Hp). destruct e; simpl in H; try done.
  - destruct H as (_ & Er & _). congruence.
  - destruct H as (c & Em & _). by destruct (Hm c).
  - destruct H as ([c Em] & _). by destruct (Hm c).
  - left. destruct H as (info & b & Ep & ->). rewrite Ep in Hp. split_and!; [done..|]. simpl.
    split; [done|]. destruct (process_rest_removes b info.1 o) as [Hin|Heq].
    + intros err ->. done.
    + left. by rewrite <- Hp.
    + right. split; [done|]. rewrite (Hid info Ep). done.
  - destruct H as (info & s & rest & Ep & ->). rewrite Ep in Hp. destruct Hp as [Hinfo Hp].
    destruct Hp as [Hin|[Hl Hrt]].
    + apply elem_of_cons in Hin as [<-|Hin]; [right; eauto 10|left].
      destruct (todo_ok_tail s rest (wk_todo _ Hok _ _ Ep)) as [Hready _].
      assert (s ≠ DoReady) as Hs.
      { intros ->. rewrite Hready in Hin by done. by apply not_elem_of_nil in Hin. }
      destruct rest as [|s' rest]; [by apply not_elem_of_nil in Hin|].
      split_and!; [by destruct s|by destruct s|]. simpl. auto.
    + left. simplify_eq. by split_and!.
  - left. destruct H as [b ->]. by split_and!.
  - left. subst. by split_and!.
  - left. destruct H as [_ ->]. by split_and!.
Qed.

Definition map_ok (p : pool) : Prop :=
  ∀ id i, p.(p_map) !! id = Some i → ∃ w, p.(p_workers) !! i = Some w ∧ busy_with id w.

(** The statement the goroutine of [process] runs in the event, if it is one of those. *)
Definition stmt_of (e : event) (w : worker) : option stmt_todo :=
  match e, w.(w_proc) with
  | ETodo _ _, Some (mk_proc _ (Some (s :: _))) => Some s
  | _, _ => None
  end.

(** The map after a move of a worker. *)
Lemma worker_step_map h e i w p p' :
  worker_step h e i w p = Some p' →
  (p'.(p_map) = match stmt_of e w with
                | Some (DoRemove id) => delete id p.(p_map)
                | Some DoRemoveRunning => delete w.(w_running).(rt_id) p.(p_map)
                | _ => p.(p_map)
                end) ∨
  (∃ info c, w.(w_main) = Dequeuing c ∧ p'.(p_map) = <[info.(Id) := i]> p.(p_map) ∧
     p'.(p_workers) = <[i := set_proc (Some (mk_proc (info, c) None)) (set_main AtSelect (set_running (setTaskInfo info) w))]> p.(p_workers)).
Proof.
  intros H. destruct e; simpl in H; try done.
  - by destruct (w_main w), (w_ready w); simplify_eq; left.
  - destruct (w_main w) as [|c|]; simplify_eq. unfold worker_dequeue in H.
    destruct (dequeueMaybe _ _ _ _) as [[e|info] [fs' d]]; simplify_eq/=.
    + left. repeat (case_match; simplify_eq/=; try done).
    + right. by exists info, c.
  - destruct (w_main w) as [|c|]; simplify_eq. by destruct (ctx_done c p); simplify_eq/=; left.
  - by destruct (w_proc w) as [[info [l|]]|]; simplify_eq/=; left.
  - destruct (w_proc w) as [[info [[|s rest]|]]|] eqn:Ep; simplify_eq/=.
    destruct (run_todo env i w s p) as [p1|] eqn:Er; simplify_eq/=.
    apply run_todo_frame in Er as [_ Hm]. left. rewrite Ep.
    assert (∀ f, p_map (upd i f p1) = p_map p1) as Hupd.
    { intros f. unfold upd. by destruct (p_workers p1 !! i). }
    by rewrite Hupd.
  - destruct (w_main w), (w_beat w); simplify_eq/=. left. unfold worker_beat.
    case_bool_decide; [done|]. destruct (RefreshHeartbeat _ _ _) as [[[]|] [fs' d]]; done.
  - by destruct (w_stop w); simplify_eq/=; left.
  - destruct (w_main w), (w_stop w); simplify_eq/=. left. simpl. case_bool_decide; simpl; [done|].
    by destruct (requeue_frame env (rt_id (w_running w)) p) as [_ ->].
Qed.

Definition no_remove_running (w : worker) : Prop :=
  ∀ info l, w.(w_proc) = Some (mk_proc info (Some l)) → DoRemoveRunning ∉ l.

Lemma next_no_remove_running e w w' p :
  no_panic e → no_remove_running w → next_worker e w w' p → no_remove_running w'.
Proof.
  intros Hnp Hn H. unfold no_remove_running in *. destruct e; simpl in H; try done.
  - destruct H as (_ & _ & _ & _ & -> & _ & _). done.
  - destruct H as (c & _ & [->|[->|[->|(info & ->)]]]); done.
  - by destruct H as (_ & ->).
  - destruct H as (info & b & _ & ->). simpl. intros ? ? [= <- <-]. unfold process_rest.
    destruct b, o; simpl in *; try done; by apply (bool_decide_unpack _).
  - destruct H as (info & s & rest & Ep & ->). simpl. destruct rest; [done|].
    intros ? ? [= <- <-]. by apply Hn, not_elem_of_cons in Ep as [_ ?].
  - by destruct H as [b ->].
  - by subst.
  - by destruct H as [_ ->].
Qed.

Record pool_ok (p : pool) : Prop := {
  po_workers : workers_ok p;
  po_ids : ∀ i w, p.(p_workers) !! i = Some w → running_id_ok w ∧ no_remove_running w;
  po_map : map_ok p
}.

Lemma worker_step_pool_ok h e i w p p' :
  no_panic e → p.(p_workers) !! i = Some w → worker_step h e i w p = Some p' → pool_ok p → workers_ok p' →
  pool_ok p'.
Proof.
  intros Hnp Hi H [Hok Hids Hmap] Hok'. destruct (worker_step_next _ _ _ _ _ _ Hi H) as (w' & Hw & Hn).
  destruct (Hids i w Hi) as [Hid Hrr]. pose proof (lookup_lt_Some _ _ _ Hi) as Hlt. split; [done| |].
  { intros j w2. rewrite Hw, list_lookup_insert_Some. intros [(-> & -> & _)|[_ Hj]]; [|by eapply Hids].
    split; [by eapply next_running_id_ok|by eapply next_no_remove_running]. }
  assert (∀ id j, p.(p_map) !! id = Some j → stmt_of e w ≠ Some (DoRemove id) →
      ∃ w, p'.(p_workers) !! j = Some w ∧ busy_with id w) as Hkeep.
  { intros id j Hj Hno. destruct (Hmap id j Hj) as (w2 & Hw2 & Hb). rewrite Hw.
    destruct (decide (i = j)) as [<-|Hne]; [|exists w2; by rewrite list_lookup_insert_ne].
    exists w'. rewrite list_lookup_insert_eq by done. split; [done|]. rewrite Hi in Hw2. simplify_eq.
    destruct (next_busy e w2 w' p id) as [?|(info & rest & Ep & i' & env & ->)]; eauto.
    destruct Hno. simpl. by rewrite Ep. }
  apply worker_step_map in H as [Hm|(info & c & Hc & Hm & Hws)].
  - intros id j. rewrite Hm. intros Hj. destruct (stmt_of e w) as [s|] eqn:Es; [|by apply Hkeep].
    destruct s; try (by apply Hkeep).
    + apply lookup_delete_Some in Hj as [Hne Hj]. apply Hkeep; [done|]. congruence.
    + exfalso. destruct e; simpl in Es; try done.
      destruct (w_proc w) as [[info [[|s rest]|]]|] eqn:Ep; simplify_eq.
      apply (Hrr _ _ Ep). left.
  - intros id j. rewrite Hm, lookup_insert_Some. intros [[<- <-]|[Hne Hj]].
    + rewrite Hws, list_lookup_insert_eq by done. eexists; split; [done|].
      destruct (wk_deq w (Hok i w Hi) c Hc) as (_ & Hr & _). by split_and!.
    + apply Hkeep; [done|]. destruct e; simpl in *; try done.
      destruct Hn as (info2 & s & rest & Ep & _).
      destruct (wk_deq w (Hok i w Hi) c Hc) as (Hp & _). congruence.
Qed.

Lemma reachable_pool_ok h n p : pool_reachable h n no_panic p → pool_ok p.
Proof.
  revert p. apply pool_reachable_ind.
  - split.
    + intros i w H. apply lookup_replicate in H as [-> _]. apply newWorker_ok.
    + intros i w H. apply lookup_replicate in H as [-> _]. by split.
    + by intros id i.
  - intros p e p' Hp _ Hnp H. pose proof (workers_ok_step _ _ _ _ (po_workers _ Hp) H) as Hok'.
    apply pool_step_cases in H as [(i & w & Hi & H)|[Hl|[[_ ->]|(? & ? & ? & ? & d & _ & _ & ->)]]].
    + by eapply worker_step_pool_ok.
    + destruct Hp as [? ? Hm]. destruct (listener_frame _ _ _ Hl) as (Hw & Hmm & _).
      split; [done|by rewrite Hw|]. intros id' i. rewrite Hmm, Hw. apply Hm.
    + by destruct Hp.
    + by destruct Hp.
Qed.

(** ** The pool only uses the queue *)

Lemma step_of o fs d r fs' d' : op_ok o → run_op o (fs, d) = (r, (fs', d')) → rtc step d d'.
Proof. intros. apply rtc_once. by econstructor. Qed.

Lemma dequeue_step a tok types fs d r fs' d' :
  dequeueMaybe a tok types (fs, d) = (r, (fs', d')) → rtc step d d'.
Proof.
  intros H. destruct (run_op (OpDequeue a tok types) (fs, d)) as [r2 [fs2 d2]] eqn:E.
  assert (d2 = d') as <-; [|by apply (step_of (OpDequeue a tok types) fs d r2 fs2 d2)].
  simpl in E. unfold mbind, M_bind, mret, M_ret in E. rewrite H in E. by destruct r; simplify_eq.
Qed.

Lemma queue_Finish_step env id err p : rtc step p.(p_db) (queue_Finish env id err p).2.(p_db).
Proof.
  unfold queue_Finish. destruct (Finish _ _ _ _ _ _) as [r [fs d]] eqn:E. simpl.
  eapply (step_of (OpFinish (ce_upperBound env) (ce_goNow env) (ce_now env) id err)); [done|exact E].
Qed.

Lemma run_todo_step env i w s p p' : run_todo env i w s p = Some p' → rtc step p.(p_db) p'.(p_db).
Proof.
  destruct s; simpl; intros H; simplify_eq/=; try apply rtc_refl.
  - apply queue_Finish_step.
  - pose proof (queue_Finish_step env (rt_id (w_running w)) err p) as Hs.
    destruct (queue_Finish _ _ _ _) as [[] ?]; simplify_eq/=; [by destruct (isNone err)|done].
  - destruct (cancel_frame (taskCancelFunc (w_running w)) CauseNotRunning p) as (_ & _ & ->).
    apply rtc_refl.
  - destruct (w_ready w); simplify_eq/=. apply rtc_refl.
Qed.

Lemma upd_db i f p : (upd i f p).(p_db) = p.(p_db).
Proof. unfold upd. by case_match. Qed.

Lemma worker_step_db h e i w p p' : worker_step h e i w p = Some p' → rtc step p.(p_db) p'.(p_db).
Proof.
  intros H. destruct e; simpl in H; try done.
  - destruct (w_main w), (w_ready w); simplify_eq. apply rtc_refl.
  - destruct (w_main w) as [|c|]; simplify_eq. unfold worker_dequeue in H.
    destruct (dequeueMaybe _ _ _ _) as [r [fs' d]] eqn:E. apply dequeue_step in E.
    repeat (case_match; simplify_eq/=; try done).
  - destruct (w_main w) as [|c|]; simplify_eq. destruct (ctx_done c p); simplify_eq/=. apply rtc_refl.
  - destruct (w_proc w) as [[info [l|]]|]; simplify_eq/=. apply rtc_refl.
  - destruct (w_proc w) as [[info [[|s rest]|]]|]; simplify_eq/=.
    destruct (run_todo env i w s p) as [p1|] eqn:Er; simplify_eq/=. rewrite upd_db.
    by eapply run_todo_step.
  - destruct (w_main w), (w_beat w); simplify_eq/=. unfold worker_beat.
    case_bool_decide; [apply rtc_refl|]. destruct (RefreshHeartbeat _ _ _) as [r [fs' d]] eqn:E.
    apply (step_of (OpRefreshHeartbeat now (rt_token (w_running w)))) in E; [|done].
    by destruct r as [[]|].
  - destruct (w_stop w); simplify_eq/=. apply rtc_refl.
  - destruct (w_main w), (w_stop w); simplify_eq/=. case_bool_decide; simpl; [apply rtc_refl|].
    unfold worker_requeue. destruct (Requeue _ _ _ _ _) as [r [fs d]] eqn:E. simpl.
    eapply (step_of (OpRequeue (ce_upperBound env) (ce_goNow env) (ce_now env) (rt_id (w_running w)))); [done|exact E].
Qed.

Lemma pool_step_db h e p p' : event_ok e → pool_step h e p = Some p' → rtc step p.(p_db) p'.(p_db).
Proof.
  intros He H.
  apply pool_step_cases in H as [(i & w & _ & H)|[Hl|[[_ ->]|(o & ? & ? & ? & d & -> & H & ->)]]].
  - by eapply worker_step_db.
  - destruct (listener_frame _ _ _ Hl) as (_ & _ & ->). apply rtc_refl.
  - apply rtc_refl.
  - by eapply step_of.
Qed.

Lemma pool_reachable_db h n ok p : pool_reachable h n ok p → reachable p.(p_db).
Proof.
  revert p. apply pool_reachable_ind; [apply rtc_refl|].
  intros p e p' Hp He _ H. eapply rtc_trans; [exact Hp|]. by eapply pool_step_db.
Qed.
