(* ===== verification/WorkerThms.v ===== *)
(** * Workers: the properties of the pool

    What a pool promises about its workers and to the queue, and how the heartbeat listener recovers
    the tasks of a worker that died. *)

From S2P Require Import Prelude GoStrings Config TxMonad TaskQueue TaskQueueInv TaskQueueOps.
From S2P Require Import TaskQueueSpec TaskQueueTotal TaskQueueLife TaskQueueGraph TaskQueueThms.
From S2P Require Import Worker WorkerInv.
From stdpp Require Import options.

Open Scope string_scope.
Open Scope Z_scope.

(** ** Heartbeats *)

Definition tokens_unique (d : db) : Prop :=
  ∀ i j t u k, d.(tasks) !! i = Some t → d.(tasks) !! j = Some u →
    t.(token) = Some k → u.(token) = Some k → i = j.

Lemma IdFromToken_unique d tok i t :
  tokens_unique d → d.(tasks) !! i = Some t → t.(token) = Some tok →
  IdFromToken tok ([], d) = (inr (i, t.(status) == TaskStatusRunning), ([], d)).
Proof.
  intros Hu Hi Ht. unfold IdFromToken. erewrite bind_eq by done.
  assert (sqlQueryIdFromToken tok d = (inr (i, t.(status)), d)) as Hq.
  { unfold sqlQueryIdFromToken. destruct (base.filter _ _) as [|[j u] l] eqn:E.
    - assert ((i, t) ∈ ([] : list (uuid * task))) as Hin%not_elem_of_nil; [|done].
      rewrite <- E. apply list_elem_of_filter. split; [done|]. by apply elem_of_map_to_list.
    - assert ((j, u) ∈ base.filter (λ '(_, t), t.(token) = Some tok) (map_to_list d.(tasks))) as Hin
        by (rewrite E; constructor).
      apply list_elem_of_filter in Hin as [Htok Hin%elem_of_map_to_list].
      assert (j = i) as -> by by eapply Hu. by simplify_eq. }
  erewrite bind_eq; [|by apply map_err_ok, call_eq]. done.
Qed.

Lemma IdFromToken_db tok fs d r fs' d' : IdFromToken tok (fs, d) = (r, (fs', d')) → d' = d.
Proof.
  intros H. pose proof (IdFromToken_read (λ x, x = d) tok fs d eq_refl) as Hh.
  rewrite H in Hh. by destruct r.
Qed.

(** A pass over the tokens is a sequence of [Requeue] calls. *)
Lemma heartbeat_check_step ub gonow now tok fs d r fs' d' :
  heartbeat_check ub gonow now tok (fs, d) = (r, (fs', d')) → rtc step_no_reset d d'.
Proof.
  unfold heartbeat_check. destruct (IdFromToken tok (fs, d)) as [r1 [fs1 d1]] eqn:E.
  apply IdFromToken_db in E as ->. intros H.
  destruct r1 as [e|[id []]]; simplify_eq; try apply rtc_refl.
  unfold ignore in H. destruct (Requeue _ _ _ _ _) as [r2 [fs2 d2]] eqn:E. simplify_eq.
  apply rtc_once. by apply (step_nr (OpRequeue ub gonow now id) fs1 d r2 fs' d').
Qed.

(** No [Requeue] starts a task. *)
Lemma requeue_not_started ub gonow now id fs d r fs' d' i p :
  wf d → Requeue ub gonow now id (fs, d) = (r, (fs', d')) → phases d !! i = Some p → p ≠ Running →
  ∃ p', phases d' !! i = Some p' ∧ p' ≠ Running.
Proof.
  intros Hwf H Hp Hne.
  destruct (run_op_life (OpRequeue ub gonow now id) _ _ _ _ _ _ _ Hwf H Hp) as (p' & Hp' & Hl); [done|].
  exists p'. split; [done|]. intros ->.
  destruct Hl as [Hl|(? & ? & ? & ? & ? & _)]; [|done]. inversion Hl; subst; [done|].
  apply phases_lookup in Hp as (t & Ht & Hpt), Hp' as (t' & Ht' & Hpt').
  apply phase_of_inv in Hpt as (_ & Hns & _), Hpt' as (_ & Hs & _).
  by destruct (run_op_started (OpRequeue ub gonow now id) _ _ _ _ _ _ _ _ H Ht Ht' Hns Hs)
    as (? & ? & ? & ? & ? & _).
Qed.

Lemma heartbeat_check_settles ub gonow now tok fs d r fs' d' i p :
  wf d → heartbeat_check ub gonow now tok (fs, d) = (r, (fs', d')) → phases d !! i = Some p → p ≠ Running →
  ∃ p', phases d' !! i = Some p' ∧ p' ≠ Running.
Proof.
  intros Hwf H Hp Hne. unfold heartbeat_check in H.
  destruct (IdFromToken tok (fs, d)) as [r1 [fs1 d1]] eqn:E. apply IdFromToken_db in E as ->.
  destruct r1 as [e|[id []]]; simplify_eq; eauto.
  unfold ignore in H. destruct (Requeue _ _ _ _ _) as [r2 [fs2 d2]] eqn:E. simplify_eq.
  by eapply requeue_not_started.
Qed.

(** What a healthy pass over one token does to the running task it belongs to. *)
Lemma heartbeat_check_requeues ub gonow now tok d i t :
  wf d → clock_after now d → tokens_unique d → d.(tasks) !! i = Some t → t.(token) = Some tok →
  phase_of t = Some Running →
  heartbeat_check ub gonow now tok ([], d) = (inr (), ([], (requeue_outcome ub gonow now i d).2)).
Proof.
  intros Hwf Hclock Hu Hi Ht Hp. unfold heartbeat_check.
  rewrite (IdFromToken_unique d tok i t Hu Hi Ht).
  apply phase_of_inv in Hp as (Hst & _ & _). rewrite Hst. simpl. unfold ignore.
  by rewrite Requeue_no_faults.
Qed.

(** After a pass the task is pending again, or failed for good. *)
Lemma requeue_outcome_not_running ub gonow now i d t :
  wf d → d.(tasks) !! i = Some t → phase_of t = Some Running →
  ∃ p, phases (requeue_outcome ub gonow now i d).2 !! i = Some p ∧ p ≠ Running ∧
    p = (if t.(retries) =? MaxTaskRetries then Failed else Pending).
Proof.
  intros Hwf Hi Hp. pose proof (phase_of_inv _ _ Hp) as (Hst & [s Hs] & Hf).
  unfold requeue_outcome. rewrite Hi, Hst, Hs, Hf. simpl.
  rewrite andb_false_r. destruct (retries t =? MaxTaskRetries) eqn:E.
  - exists Failed. split_and!; [|done|done]. apply phases_lookup.
    exists (finish_effect ub gonow now i (Some max_retries_msg) d (scan_task i t (sqlQueryDependencies i d)) i t).
    split; [cbn [snd finish_result add_notification tasks]; rewrite map_rows_lookup; simpl; by rewrite Hi|].
    unfold finish_effect. rewrite (decide_True (P := i = i)) by done.
    rewrite cancel_if_finished by by eexists. unfold phase_of. simpl. by rewrite Hs.
  - exists Pending. split_and!; [|done|done]. apply phases_lookup. exists (requeue_row now None t).
    split; [|done]. cbn [snd requeue_result add_notification tasks]. rewrite map_rows_lookup. simpl.
    rewrite Hi. simpl. unfold requeue_effect. by rewrite (decide_True (P := i = i)).
Qed.

(** [Requeue] keeps what the loop relies on. *)
Lemma requeue_outcome_tasks ub gonow now id d j u :
  (requeue_outcome ub gonow now id d).2.(tasks) !! j = Some u →
  ∃ t, d.(tasks) !! j = Some t ∧ (u.(token) = t.(token) ∨ u.(token) = None) ∧
    (u.(started_at) = t.(started_at) ∨ u.(started_at) = None) ∧
    (u.(queued_at) = t.(queued_at) ∨ u.(queued_at) = Some now) ∧
    (phase_of u = Some Running → u = t).
Proof.
  unfold requeue_outcome. destruct (tasks d !! id) as [t|] eqn:Hid; [|simpl; eauto 10].
  destruct (_ && _); [simpl; eauto 10|]. destruct (_ || _) eqn:Hrun; [simpl; eauto 10|].
  apply orb_false_iff in Hrun as [Hrun Hfin].
  destruct (_ =? _); cbn [snd finish_result requeue_result add_notification tasks];
    rewrite map_rows_lookup; simpl;
    (destruct (tasks d !! j) as [v|] eqn:Hj; [|done]); intros [= <-]; exists v; (split; [done|]).
  - unfold finish_effect. set (f := finish_row _ _ _ _).
    assert (∀ x : task, x.(token) = v.(token) ∧ x.(started_at) = v.(started_at) ∧ x.(queued_at) = v.(queued_at) →
      (phase_of x = Some Running → x = v) →
      let y := cancel_if (λ k, k ∈ sqlQueryDependents id d) "parent task failed" j x in
      (y.(token) = v.(token) ∨ y.(token) = None) ∧ (y.(started_at) = v.(started_at) ∨ y.(started_at) = None) ∧
      (y.(queued_at) = v.(queued_at) ∨ y.(queued_at) = Some now) ∧ (phase_of y = Some Running → y = v)) as H.
    { intros x (H1 & H2 & H3) H4. cbv zeta. unfold cancel_if. case_decide; [|split_and!; auto].
      destruct (isSome (finished_at x)); [split_and!; auto|].
      simpl. split_and!; auto. intros (Hs & _)%phase_of_inv. done. }
    case_decide; apply H; try done.
    intros (_ & _ & Hf)%phase_of_inv. done.
  - unfold requeue_effect. case_decide; [|split_and!; auto]. simpl. split_and!; auto. done.
Qed.

Lemma requeue_outcome_keeps ub gonow now id d :
  wf d → covered d → clock_after now d → tokens_unique d →
  let d' := (requeue_outcome ub gonow now id d).2 in
  wf d' ∧ covered d' ∧ clock_after now d' ∧ tokens_unique d'.
Proof.
  intros Hwf Hc Hclock Hu d'. pose proof (Requeue_inv ub gonow now id [] d (conj Hwf Hc)) as Hinv.
  rewrite Requeue_no_faults in Hinv by done. fold d' in Hinv.
  assert (inv ∅ d') as [Hwf' Hc'] by (by destruct (requeue_outcome _ _ _ _ _).1). split_and!; try done.
  - intros j u Hj s. apply requeue_outcome_tasks in Hj as (t & Ht & _ & H1 & H2 & _).
    intros [Hs|Hs].
    + destruct H1 as [H1|H1]; [|congruence]. apply (Hclock j t Ht). left. congruence.
    + destruct H2 as [H2|H2]; [|simplify_eq; lia]. apply (Hclock j t Ht). right. congruence.
  - intros i j t u k Hi Hj Hk Hk'.
    apply requeue_outcome_tasks in Hi as (t0 & Hi0 & Ht & _), Hj as (u0 & Hj0 & Hu0 & _).
    apply (Hu i j t0 u0 k); [done..| |].
    + by destruct Ht; congruence.
    + by destruct Hu0; congruence.
Qed.

Lemma IdFromToken_healthy tok d : ∃ r, IdFromToken tok ([], d) = (r, ([], d)).
Proof.
  unfold IdFromToken, mbind, M_bind, map_err, db_noop, db_call, sqlQueryIdFromToken.
  destruct (base.filter _ _) as [|[] ?]; by eexists.
Qed.

Definition loop_inv (now : time) (d : db) : Prop :=
  wf d ∧ covered d ∧ clock_after now d ∧ tokens_unique d.

Lemma heartbeat_check_healthy ub gonow now tok d :
  loop_inv now d →
  ∃ d', heartbeat_check ub gonow now tok ([], d) = (inr (), ([], d')) ∧ loop_inv now d' ∧
    (d' = d ∨ ∃ id, d' = (requeue_outcome ub gonow now id d).2).
Proof.
  intros Hinv. pose proof Hinv as (Hwf & Hc & Hclock & Hu). unfold heartbeat_check.
  destruct (IdFromToken_healthy tok d) as [r ->].
  destruct r as [e|[id []]]; [exists d; by auto| |exists d; by auto].
  exists (requeue_outcome ub gonow now id d).2. unfold ignore. rewrite Requeue_no_faults by done.
  split; [done|]. split; [by apply requeue_outcome_keeps|]. eauto.
Qed.

Definition not_running (d : db) (i : uuid) : Prop := ∃ p, phases d !! i = Some p ∧ p ≠ Running.

Lemma heartbeat_loop ub gonow now toks d :
  loop_inv now d →
  ∃ d', iter (heartbeat_check ub gonow now) toks ([], d) = (inr (), ([], d')) ∧
    (∀ i, not_running d i → not_running d' i) ∧
    (∀ i t tok, tok ∈ toks → d.(tasks) !! i = Some t → t.(token) = Some tok → phase_of t = Some Running →
       not_running d' i).
Proof.
  revert d. induction toks as [|x toks IH]; intros d Hinv.
  { exists d. split_and!; [done..|]. by intros ? ? ? ?%not_elem_of_nil. }
  destruct (heartbeat_check_healthy ub gonow now x d Hinv) as (d1 & E1 & Hinv1 & Hd1).
  destruct (IH d1 Hinv1) as (d2 & E2 & Hkeep & Htoks). exists d2.
  assert (∀ i, not_running d i → not_running d1 i) as Hkeep1.
  { intros i (p & Hp & Hne). eapply heartbeat_check_settles; [apply Hinv|exact E1|done|done]. }
  split_and!.
  - simpl. by erewrite bind_eq.
  - auto.
  - intros i t tok Hin Hi Ht Hp. destruct (decide (tok = x)) as [->|Hne].
    + apply Hkeep. destruct Hinv as (Hwf & _ & Hclock & Hu).
      rewrite (heartbeat_check_requeues ub gonow now x d i t) in E1 by done.
      simplify_eq. destruct (requeue_outcome_not_running ub gonow now i d t Hwf Hi Hp) as (p & ? & ? & _).
      by exists p.
    + apply elem_of_cons in Hin as [?|Hin]; [done|].
      destruct Hd1 as [->|[id ->]]; [by eapply Htoks|].
      assert (∃ p, phases (requeue_outcome ub gonow now id d).2 !! i = Some p) as [p Hpi].
      { destruct Hinv as (Hwf & _ & Hclock & _).
        destruct (run_op_life (OpRequeue ub gonow now id) [] d
          _ _ _ i Running Hwf (Requeue_no_faults ub gonow now id d Hwf Hclock)) as (p' & ? & _); [|done|eauto].
        apply phases_lookup. eauto. }
      destruct (decide (p = Running)) as [->|Hnr]; [|apply Hkeep; by exists p].
      apply phases_lookup in Hpi as (u & Hu & Hpu).
      pose proof (requeue_outcome_tasks _ _ _ _ _ _ _ Hu) as (t0 & Ht0 & _ & _ & _ & Hsame).
      simplify_eq. rewrite (Hsame Hpu) in Hu. by eapply Htoks.
Qed.

(** ** Properties *)

(** [C10] Crash recovery: every running task of a reachable queue has a heartbeat row, and when that heartbeat
    is older than the limit, the next tick of the heartbeat listener on a healthy database takes the
    task out of the running phase (back to pending, or failed when its retries are used up). Tokens
    are taken to be unique, as the random UUIDs they are. *)
Theorem heartbeat_listener_recovers ub gonow now heartbeat d i t :
  reachable d → clock_after now d → tokens_unique d →
  d.(tasks) !! i = Some t → phase_of t = Some Running →
  ∃ tok hb, t.(token) = Some tok ∧ d.(task_heartbeats) !! tok = Some (i, hb) ∧
    (heartbeat < now - hb →
     ∃ d' p, run (heartbeat_tick ub gonow now heartbeat) d = (inr (), d') ∧
       phases d' !! i = Some p ∧ p ≠ Running).
Proof.
  intros Hd Hclock Hu Hi Hp. destruct (reachable_inv d Hd) as [Hwf Hc].
  pose proof (phase_of_inv _ _ Hp) as (Hst & _ & _).
  destruct (Hc i t Hi Hst) as (tok & hb & Htok & Hhb); [apply not_elem_of_empty|].
  exists tok, hb. split_and!; [done..|]. intros Hold.
  destruct (heartbeat_loop ub gonow now (sqlQueryHeartbeats now heartbeat d) d) as (d' & E & _ & Htoks); [done|].
  destruct (Htoks i t tok) as (p & Hp' & Hne); [|done..|].
  { unfold sqlQueryHeartbeats. apply list_elem_of_fmap. exists (tok, (i, hb)). split; [done|].
    apply list_elem_of_filter. split; [lia|]. by apply elem_of_map_to_list. }
  exists d', p. split_and!; [|done|done]. unfold run, heartbeat_tick.
  erewrite bind_eq; [|done]. by rewrite E.
Qed.

Lemma heartbeat_listener_recovers_witness :
  let d := after ex_running empty_db in
  phases d !! 1%N = Some Running ∧
  phases (run (heartbeat_tick (300 * Second) 1000 1000 60) d).2 !! 1%N = Some Pending ∧
  ∃ tok hb, d.(task_heartbeats) !! tok = Some (1%N, hb).
Proof.
  intros d. split; [by vm_compute|]. split; [by vm_compute|].
  destruct (d.(tasks) !! 1%N) as [t|] eqn:Ht; [|by vm_compute in Ht].
  destruct (heartbeat_listener_recovers (300 * Second) 1000 1000 60 d 1%N t) as (tok & hb & _ & H & _).
  - apply ex_running_reachable.
  - apply clock_after_b_true. by vm_compute.
  - assert (map_Forall (λ i t, i = 1%N ∨ t.(token) = None) d.(tasks)) as Hone.
    { apply (bool_decide_unpack _). by vm_compute. }
    intros i j u v k Hi Hj Hk Hk'.
    destruct (Hone i u Hi), (Hone j v Hj); congruence.
  - exact Ht.
  - assert (from_option phase_of None (Some t) = Some Running) as H by (rewrite <- Ht; by vm_compute).
    exact H.
  - exists tok, hb. exact H.
Defined.

(** The state after a list of events, when all are possible. *)
Fixpoint pool_run (h : list string) (es : list event) (p : pool) : option pool :=
  match es with
  | [] => Some p
  | e :: es' => p' ← pool_step h e p; pool_run h es' p'
  end.

Lemma pool_run_cons h e es p p' : pool_step h e p = Some p' → pool_run h (e :: es) p = pool_run h es p'.
Proof. intros H. simpl. by rewrite H. Qed.

Lemma pool_run_reachable h n ok es p p' :
  pool_reachable h n ok p → Forall event_ok es → Forall ok es → pool_run h es p = Some p' →
  pool_reachable h n ok p'.
Proof.
  revert p. induction es as [|e es IH]; intros p Hp He Hok H; simpl in H; [by simplify_eq|].
  apply Forall_cons in He as [He Hes], Hok as [Ho Hoks].
  destruct (pool_step h e p) as [p1|] eqn:E; simplify_eq/=.
  apply (IH p1); [|done..]. eapply rtc_r; [exact Hp|]. by exists e.
Qed.

Definition ex_env : call_env := mk_call_env [] (300 * Second) 20 20.
Definition ex_pool_events : list event :=
  [EQueue (OpEnqueue 10 1%N (ex_task IntrospectTask [] 0)) [];
   EQueue (OpEnqueue 11 2%N (ex_task IntrospectTask [] 0)) [];
   EReady 0; EDequeue 0 [] (mk_attempt 12 ∅ 0) 100%N].

Lemma ex_pool_reachable ok es p :
  Forall event_ok es → Forall ok es → pool_run ex_types es (StartWorkers 1 empty_db) = Some p →
  pool_reachable ex_types 1 ok p.
Proof. intros. eapply pool_run_reachable; [apply rtc_refl|done..]. Qed.

(** ** The result of a handler *)

Definition after_todo (i : nat) (info : TaskInfo * ctx) (rest : list stmt_todo) (p : pool) : pool :=
  upd i (set_proc (match rest with [] => None | _ => Some (mk_proc info (Some rest)) end)) p.

Lemma todo_step h i w info s rest env p p' :
  p.(p_crashed) = false → p.(p_workers) !! i = Some w → w.(w_proc) = Some (mk_proc info (Some (s :: rest))) →
  run_todo env i w s p = Some p' → pool_step h (ETodo i env) p = Some (after_todo i info rest p').
Proof. intros Hc Hi Hp Hr. unfold pool_step. rewrite Hc, Hi. simpl. by rewrite Hp, Hr. Qed.

Lemma upd_set i f w p : (i < length p.(p_workers))%nat → upd i f (set_worker i w p) = set_worker i (f w) p.
Proof.
  intros Hi. unfold upd. simpl. rewrite list_lookup_insert_eq by done. unfold set_worker. simpl. by rewrite list_insert_insert_eq.
Qed.

(** A worker of which the rest of the clean-up is known. *)
Definition cleaning (i : nat) (w : worker) (info : TaskInfo * ctx) (l : list stmt_todo) (p : pool) : pool :=
  set_worker i (set_proc (match l with [] => None | _ => Some (mk_proc info (Some l)) end) w) p.

Lemma cleaning_step h i w info s rest env p p' w' :
  p.(p_crashed) = false → (i < length p.(p_workers))%nat →
  run_todo env i (set_proc (Some (mk_proc info (Some (s :: rest)))) w) s (cleaning i w info (s :: rest) p) =
    Some (cleaning i w' info (s :: rest) p') →
  p'.(p_workers) = p.(p_workers) →
  pool_step h (ETodo i env) (cleaning i w info (s :: rest) p) = Some (cleaning i w' info rest p').
Proof.
  intros Hc Hi Hr Hw. erewrite todo_step; [|done|by apply list_lookup_insert_eq|done|exact Hr].
  unfold after_todo, cleaning. by rewrite upd_set by (by rewrite Hw).
Qed.

Lemma set_worker_db i w d p : set_db d (set_worker i w p) = set_worker i w (set_db d p).
Proof. done. Qed.

(** The phase a handler's result leads to. *)
Definition result_phase (err : option string) : phase := match err with None => Completed | Some _ => Failed end.

Lemma finish_recorded env id err t p :
  wf p.(p_db) → clock_after env.(ce_now) p.(p_db) → env.(ce_faults) = [] → p.(p_db).(tasks) !! id = Some t → phase_of t = Some Running →
  ∃ d, (∀ q, q.(p_db) = p.(p_db) → (queue_Finish env id err q).2 = set_db d q) ∧ phases d !! id = Some (result_phase err).
Proof.
  intros Hwf Hclock Hf Ht Hp. pose proof (phase_of_inv _ _ Hp) as (Hst & [s Hs] & Hfin).
  pose proof (Finish_total (ce_upperBound env) (ce_goNow env) (ce_now env) id err (p_db p) Hwf Hclock) as Hrun.
  unfold finish_outcome in Hrun. rewrite Ht, Hs, Hfin in Hrun. simpl in Hrun. unfold run in Hrun.
  exists (finish_result (ce_upperBound env) (ce_goNow env) (ce_now env) id err (p_db p) t). split.
  - intros q Hq. unfold queue_Finish. rewrite Hf, Hq. destruct (Finish _ _ _ _ _ _) as [r [fs d]]. by simplify_eq.
  - apply phases_lookup.
    exists (finish_effect (ce_upperBound env) (ce_goNow env) (ce_now env) id err (p_db p) (scan_task id t (sqlQueryDependencies id (p_db p))) id t).
    split; [cbn [finish_result add_notification tasks]; rewrite map_rows_lookup; simpl; by rewrite Ht|].
    unfold finish_effect, result_phase. destruct err; rewrite (decide_True (P := id = id)) by done; [rewrite cancel_if_finished by by eexists|];
      unfold phase_of; simpl; by rewrite Hs.
Qed.



(** [C12] A worker has one task at a time and none of its sends blocks: in every state of a pool (panics
    included), a worker whose ready channel is full neither dequeues nor runs a task, a worker that
    dequeues has an empty ready channel and no task, and the next statement of the goroutine of a
    task can always run. *)
Theorem worker_one_task_no_blocking h n ok p i w env :
  pool_reachable h n ok p → p.(p_workers) !! i = Some w →
  (w.(w_ready) = true → w.(w_proc) = None ∧ ∀ c, w.(w_main) ≠ Dequeuing c) ∧
  (∀ c, w.(w_main) = Dequeuing c → w.(w_proc) = None ∧ w.(w_ready) = false) ∧
  (∀ info s rest, w.(w_proc) = Some (mk_proc info (Some (s :: rest))) → p.(p_crashed) = false →
     is_Some (pool_step h (ETodo i env) p)).
Proof.
  intros Hr Hi. pose proof (reachable_workers_ok h n ok p Hr i w Hi) as Hok. split_and!.
  - apply (wk_ready _ Hok).
  - intros c Hc. by destruct (wk_deq _ Hok c Hc) as (? & ? & _).
  - intros info s rest Hp Hcr. unfold pool_step. rewrite Hcr, Hi. simpl. rewrite Hp.
    destruct (todo_never_blocks env i w info s rest p Hok Hp) as [p' ->]. by eexists.
Qed.

(** ** Cancellation *)

Definition of_listener (e : event) : bool := match e with ECancelNotified _ | ECancelRead | ECancelCall => true | _ => false end.

Lemma run_todo_listener env i w s p p' : run_todo env i w s p = Some p' → p'.(p_listener) = p.(p_listener).
Proof.
  assert (∀ id err, p_listener (queue_Finish env id err p).2 = p_listener p) as Hf
    by (intros; unfold queue_Finish; by destruct (Finish _ _ _ _ _ _) as [? []]).
  destruct s; simpl; intros H; simplify_eq/=; try done.
  - specialize (Hf (rt_id (w_running w)) err). destruct (queue_Finish _ _ _ _) as [[] ?]; simplify_eq/=; [by destruct (isNone err)|done].
  - unfold cancel. by repeat case_match.
  - by destruct (w_ready w); simplify_eq/=.
Qed.

Lemma worker_step_listener h e i w p p' : worker_step h e i w p = Some p' → p'.(p_listener) = p.(p_listener).
Proof.
  intros H. destruct e; simpl in H; try done.
  - by destruct (w_main w), (w_ready w); simplify_eq.
  - destruct (w_main w) as [|c|]; simplify_eq. unfold worker_dequeue in H.
    destruct (dequeueMaybe _ _ _ _) as [[e|info] [fs' d]]; [repeat (case_match; simplify_eq/=; try done)|by simplify_eq].
  - destruct (w_main w) as [|c|]; simplify_eq. by destruct (ctx_done c p); simplify_eq/=.
  - by destruct (w_proc w) as [[info [l|]]|]; simplify_eq/=.
  - destruct (w_proc w) as [[info [[|s rest]|]]|]; simplify_eq/=. destruct (run_todo env i w s p) as [p1|] eqn:Er; simplify_eq/=.
    transitivity (p_listener p1); [unfold upd; by case_match|].
    by eapply run_todo_listener.
  - destruct (w_main w), (w_beat w); simplify_eq/=. unfold worker_beat. by repeat case_match.
  - by destruct (w_stop w); simplify_eq/=.
  - destruct (w_main w), (w_stop w); simplify_eq/=. case_bool_decide; simpl; [done|]. unfold worker_requeue. by repeat case_match.
Qed.

(** Only [EReady] gives a worker a new context. *)
Lemma next_cancel_func e w w' p : (∀ i, e ≠ EReady i) → next_worker e w w' p → w'.(w_running).(taskCancelFunc) = w.(w_running).(taskCancelFunc).
Proof.
  intros Hr H. destruct e; simpl in H; try done.
  - by destruct (Hr i).
  - by destruct H as (c & _ & [->|[->|[->|(info & ->)]]]).
  - by destruct H as (_ & ->).
  - by destruct H as (info & b & _ & ->).
  - destruct H as (info & s & rest & _ & ->). simpl. by destruct s.
  - by destruct H as [b ->].
  - by subst.
  - by destruct H as [_ ->].
Qed.

Definition cancel_func (i : nat) (p : pool) : option ctx := p.(p_workers) !! i ≫= λ w, w.(w_running).(taskCancelFunc).

Lemma pool_step_quiet h i e p p' :
  of_listener e = false → pool_step h e p = Some p' →
  p'.(p_listener) = p.(p_listener) ∧ (e ≠ EReady i → cancel_func i p' = cancel_func i p).
Proof.
  intros Hl H. pose proof H as [(j & w & Hj & Hs)|[Hs|[[-> ->]|(? & ? & ? & ? & ? & -> & _ & ->)]]]%pool_step_cases; [|by destruct e|done|done].
  split; [by eapply worker_step_listener|]. intros He. destruct (worker_step_next _ _ _ _ _ _ Hj Hs) as (w' & Hw & Hn).
  unfold cancel_func. rewrite Hw. destruct (decide (i = j)) as [->|Hne]; [|by rewrite list_lookup_insert_ne].
  rewrite list_lookup_insert_eq, Hj by by eapply lookup_lt_Some. simpl. eapply next_cancel_func; [|exact Hn]. intros k ->. apply He. f_equal.
  unfold pool_step in H. destruct (p_crashed p); [done|]. destruct (p_workers p !! k) as [wk|] eqn:Hk; [|done].
  destruct (decide (k = j)) as [|Hkj]; [done|exfalso].
  apply (worker_step_next _ _ _ _ _ _ Hk) in H as (wk' & Hwk & Hnk). rewrite Hw in Hwk.
  assert (<[j := w']> (p_workers p) !! k = Some wk') as Hk' by (rewrite Hwk; apply list_lookup_insert_eq; by eapply lookup_lt_Some).
  rewrite list_lookup_insert_ne, Hk in Hk' by done. simplify_eq. destruct Hnk as (_ & ? & ? & _). congruence.
Qed.

Lemma pool_run_quiet h i es p p' :
  Forall (λ e, of_listener e = false) es → pool_run h es p = Some p' →
  p'.(p_listener) = p.(p_listener) ∧ (Forall (λ e, e ≠ EReady i) es → cancel_func i p' = cancel_func i p).
Proof.
  revert p. induction es as [|e es IH]; intros p Hl H; simpl in H; [by simplify_eq|].
  apply Forall_cons in Hl as [He Hl]. destruct (pool_step h e p) as [p1|] eqn:E; simplify_eq/=.
  apply (pool_step_quiet _ i) in E as [E1 E2]; [|done]. destruct (IH p1 Hl H) as [I1 I2]. split; [congruence|].
  intros [Hne Hes]%Forall_cons. rewrite I2, E2 by done. done.
Qed.

(** [C13] A cancel notification reaches the right task, if the worker is not faster than the listener. In a pool in which no handler has
    panicked, the listener looks up a task, other goroutines run, the listener reads the cancel function of the worker it
    found, other goroutines run, and it calls the function. If the worker did not turn to its next task between the
    first two, the context that is canceled is the one the looked-up task was started with. *)
Theorem cancel_reaches_its_task h n p id i p1 es1 p2 p3 es2 p4 p5 :
  pool_reachable h n no_panic p → map_Get id p = Some i → pool_step h (ECancelNotified id) p = Some p1 →
  Forall (λ e, of_listener e = false) (es1 ++ es2) → Forall (λ e, e ≠ EReady i) es1 →
  pool_run h es1 p1 = Some p2 → pool_step h ECancelRead p2 = Some p3 → pool_run h es2 p3 = Some p4 → pool_step h ECancelCall p4 = Some p5 →
  ∃ w c, p.(p_workers) !! i = Some w ∧ w.(w_running).(taskCancelFunc) = Some c ∧
    match w.(w_proc) with
    | Some q => q.(p_info).1.(Id) = id ∧ q.(p_info).2 = c
    | None => w.(w_running).(rt_id) = id
    end ∧
    (p4.(p_ctxs) !! c = None → p5.(p_ctxs) = <[c := CauseTaskCanceled]> p4.(p_ctxs)) ∧
    (is_Some (p4.(p_ctxs) !! c) → p5.(p_ctxs) = p4.(p_ctxs)).
Proof.
  intros Hr Hm H1 [Hl1 Hl2]%Forall_app Hn E1 H2 E2 H3.
  pose proof (reachable_pool_ok h n p Hr) as [Hok _ Hmap]. destruct (Hmap id i Hm) as (w & Hw & _ & _ & Hb).
  assert (p1 = set_listener (Found i) p) as ->.
  { unfold pool_step in H1. destruct (p_crashed p); [done|]. unfold listener_step in H1. rewrite Hm in H1. by destruct (p_listener p); simplify_eq. }
  apply (pool_run_quiet _ i) in E1 as [F1 F2]; [|done]. specialize (F2 Hn). simpl in F1.
  assert (p3 = set_listener (match cancel_func i p with Some c => Calling c | None => Listening end) p2) as ->.
  { unfold pool_step in H2. destruct (p_crashed p2); [done|]. unfold listener_step in H2. rewrite F1 in H2. simplify_eq. f_equal.
    change (cancel_func i (set_listener (Found i) p)) with (cancel_func i p) in F2. rewrite <- F2. unfold cancel_func. by destruct (p_workers p2 !! i). }
  apply (pool_run_quiet _ i) in E2 as [G _]; [|done]. simpl in G.
  unfold pool_step in H3. destruct (p_crashed p4); [done|]. unfold listener_step in H3. rewrite G in H3. unfold cancel_func in H3. rewrite Hw in H3. simpl in H3.
  destruct (taskCancelFunc (w_running w)) as [c|] eqn:Hc; simplify_eq. exists w, c. split_and!; [done..| | |].
  - destruct (w_proc w) as [[info l]|] eqn:Hq; [|done]. pose proof (wk_ctx _ (Hok i w Hw) _ Hq) as Hx. simpl in Hx. rewrite Hc in Hx. simplify_eq.
    split; [|done]. by destruct l; [destruct Hb|].
  - intros Hno. unfold cancel. simpl. by rewrite Hno.
  - intros [x Hx]. unfold cancel. simpl. by rewrite Hx.
Qed.

Lemma ex_pool_events_ok : Forall event_ok ex_pool_events ∧ Forall no_panic ex_pool_events.
Proof. split; repeat constructor; by intros ?%not_elem_of_nil. Qed.

Lemma worker_one_task_no_blocking_witness :
  match pool_run ex_types (ex_pool_events ++ [EHandler 0 (Returned None)])%list (StartWorkers 1 empty_db) with
  | Some p => is_Some (pool_step ex_types (ETodo 0 ex_env) p)
  | None => False
  end.
Proof.
  destruct (pool_run _ _ _) as [p|] eqn:E; [|by vm_compute in E].
  assert (pool_reachable ex_types 1 (λ _, True) p) as Hr.
  { eapply ex_pool_reachable; [| |exact E]; [|by apply Forall_true].
    apply Forall_app. split; [apply ex_pool_events_ok|by repeat constructor]. }
  destruct (p.(p_workers) !! 0%nat) as [w|] eqn:Hw.
  2:{ exfalso. assert (from_option (λ p, isSome (p_workers p !! 0%nat)) false (Some p) = true) as H
        by (rewrite <- E; by vm_compute). simpl in H. by rewrite Hw in H. }
  destruct (worker_one_task_no_blocking ex_types 1 (λ _, True) p 0%nat w ex_env Hr Hw) as (_ & _ & H).
  assert (from_option (λ p, option_map w_proc (p_workers p !! 0%nat)) None (Some p) = Some (w_proc w)) as Hp
    by (simpl; by rewrite Hw).
  assert (from_option p_crashed true (Some p) = false) as Hc by (rewrite <- E; by vm_compute).
  rewrite <- E in Hp. vm_compute in Hp. injection Hp as Hp. eapply H; [symmetry; exact Hp|exact Hc].
Defined.

Lemma cancel_reaches_its_task_witness :
  match pool_run ex_types ex_pool_events (StartWorkers 1 empty_db) with
  | Some p => ∃ p5, pool_run ex_types [ECancelNotified 1%N; EBeat 0 [] 15; ECancelRead; EHandler 0 ReturnedCanceled; ECancelCall] p = Some p5 ∧
      ∃ w c, p.(p_workers) !! 0%nat = Some w ∧ w.(w_running).(taskCancelFunc) = Some c ∧ p5.(p_ctxs) !! c = Some CauseTaskCanceled
  | None => False
  end.
Proof.
  destruct (pool_run ex_types ex_pool_events (StartWorkers 1 empty_db)) as [p|] eqn:E; [|by vm_compute in E].
  assert (pool_reachable ex_types 1 no_panic p) as Hr by (eapply ex_pool_reachable; [apply ex_pool_events_ok..|exact E]).
  vm_compute in E. injection E as E.
  destruct (pool_step ex_types (ECancelNotified 1%N) p) as [p1|] eqn:E1; [|subst p; by vm_compute in E1].
  destruct (pool_run ex_types [EBeat 0 [] 15] p1) as [p2|] eqn:E2; [|subst p; vm_compute in E1; injection E1 as <-; by vm_compute in E2].
  destruct (pool_step ex_types ECancelRead p2) as [p3|] eqn:E3; [|subst p; vm_compute in E1; injection E1 as <-; vm_compute in E2; injection E2 as <-; by vm_compute in E3].
  destruct (pool_run ex_types [EHandler 0 ReturnedCanceled] p3) as [p4|] eqn:E4;
    [|subst p; vm_compute in E1; injection E1 as <-; vm_compute in E2; injection E2 as <-; vm_compute in E3; injection E3 as <-; by vm_compute in E4].
  destruct (pool_step ex_types ECancelCall p4) as [p5|] eqn:E5;
    [|subst p; vm_compute in E1; injection E1 as <-; vm_compute in E2; injection E2 as <-; vm_compute in E3; injection E3 as <-; vm_compute in E4; injection E4 as <-; by vm_compute in E5].
  destruct (cancel_reaches_its_task ex_types 1 p 1%N 0%nat p1 [EBeat 0 [] 15] p2 p3 [EHandler 0 ReturnedCanceled] p4 p5) as (w & c & Hw & Hc & _ & Hx & _);
    [exact Hr|subst p; reflexivity|exact E1|by repeat constructor|by repeat constructor|exact E2|exact E3|exact E4|exact E5|].
  exists p5. split.
  - rewrite (pool_run_cons _ _ _ _ _ E1). simpl in E2, E4 |- *. destruct (pool_step ex_types (EBeat 0 [] 15) p1); simplify_eq/=.
    rewrite E3. simpl. destruct (pool_step ex_types (EHandler 0 ReturnedCanceled) p3); simplify_eq/=. by rewrite E5.
  - exists w, c. split; [exact Hw|]. split; [exact Hc|]. rewrite Hx; [apply lookup_insert_eq|].
    subst p. injection Hw as <-. injection Hc as <-. vm_compute in E1. injection E1 as <-. vm_compute in E2. injection E2 as <-. vm_compute in E3. injection E3 as <-.
    vm_compute in E4. injection E4 as <-. reflexivity.
Defined.

(** The worker may be faster: it finishes task 1 and starts task 2 after the listener has looked up task 1, and the
    notification to cancel task 1 cancels the context of task 2, without any panic. *)
Theorem cancel_may_hit_the_next_task :
  ∃ p w q, pool_run ex_types (ex_pool_events ++ [ECancelNotified 1%N; EHandler 0 (Returned None)] ++ replicate 5 (ETodo 0 ex_env) ++
      [EReady 0; EDequeue 0 [] (mk_attempt 21 ∅ 0) 101%N; ECancelRead; ECancelCall])%list (StartWorkers 1 empty_db) = Some p ∧
    phases p.(p_db) !! 1%N = Some Completed ∧ p.(p_workers) !! 0%nat = Some w ∧ w.(w_proc) = Some q ∧ q.(p_info).1.(Id) = 2%N ∧
    p.(p_ctxs) !! q.(p_info).2 = Some CauseTaskCanceled.
Proof. do 3 eexists. split; [by vm_compute|]. split_and!; [by vm_compute|done..]. Qed.

(** A worker whose first handler panics and that goes on to its second task. *)
Definition ex_panic_events (v : option string) : list event :=
  (ex_pool_events ++ [EHandler 0 (Panicked v)] ++ replicate 5 (ETodo 0 ex_env) ++
   [EReady 0; EDequeue 0 [] (mk_attempt 21 ∅ 0) 101%N])%list.

(** After a panic the clean-up forgets the task before it removes it from the map, so the entry stays: a
    reachable pool has an entry for task 1 that names a worker running task 2, and a notification to
    cancel task 1 cancels the context of task 2. *)
Theorem panic_leaves_stale_entry :
  ∃ p w q, pool_reachable ex_types 1 (λ _, True) p ∧ map_Get 1%N p = Some 0%nat ∧
    p.(p_workers) !! 0%nat = Some w ∧ w.(w_proc) = Some q ∧ q.(p_info).1.(Id) = 2%N ∧ p.(p_ctxs) !! q.(p_info).2 = None ∧
    ∃ p', pool_run ex_types [ECancelNotified 1%N; ECancelRead; ECancelCall] p = Some p' ∧ p'.(p_ctxs) !! q.(p_info).2 = Some CauseTaskCanceled.
Proof.
  destruct (pool_run ex_types (ex_panic_events (Some "boom")) (StartWorkers 1 empty_db)) as [p|] eqn:E;
    [|by vm_compute in E].
  assert (pool_reachable ex_types 1 (λ _, True) p) as Hr.
  { eapply ex_pool_reachable; [|by apply Forall_true|exact E].
    apply Forall_app. split; [apply ex_pool_events_ok|by repeat constructor]. }
  vm_compute in E. injection E as E.
  do 3 eexists. split; [exact Hr|]. clear Hr. subst p. split_and!; [done..|].
  eexists. split; [by vm_compute|done].
Qed.

(** A panic with a value that is not an error is recorded as success: the failed type assertion leaves a
    nil error, and [Finish] with no error marks the task completed. *)
Theorem panic_without_error_completes :
  ∃ p, pool_run ex_types (ex_panic_events None) (StartWorkers 1 empty_db) = Some p ∧
    phases p.(p_db) !! 1%N = Some Completed.
Proof. eexists. split; by vm_compute. Qed.

(** [C14] Graceful stop: a worker at its select that is told to stop while its task is running exits, and on a healthy database its task is
    pending again, or failed when it has used up its retries. *)
Theorem stop_requeues_running_task h n ok p i w id t env :
  pool_reachable h n ok p → p.(p_crashed) = false → p.(p_workers) !! i = Some w →
  w.(w_main) = AtSelect → w.(w_running).(rt_id) = id → id ≠ uuid_Nil →
  p.(p_db).(tasks) !! id = Some t → phase_of t = Some Running →
  env.(ce_faults) = [] → clock_after env.(ce_now) p.(p_db) →
  ∃ p' w', pool_run h ((if w.(w_stop) then [] else [EStopSent i]) ++ [EStop i env]) p = Some p' ∧
    p'.(p_workers) !! i = Some w' ∧ w'.(w_main) = Exited ∧
    phases p'.(p_db) !! id = Some (if t.(retries) =? MaxTaskRetries then Failed else Pending).
Proof.
  intros Hr Hcr Hi Hm Hid Hnil Ht Hp Hf Hclock.
  destruct (reachable_inv _ (pool_reachable_db h n ok p Hr)) as [Hwf Hc]. pose proof (lookup_lt_Some _ _ _ Hi) as Hlt.
  destruct (requeue_outcome_not_running (ce_upperBound env) (ce_goNow env) (ce_now env) id (p_db p) t Hwf Ht Hp)
    as (ph & Hph & _ & ->).
  set (d' := (requeue_outcome (ce_upperBound env) (ce_goNow env) (ce_now env) id (p_db p)).2) in *.
  assert (∀ q w0, q.(p_db) = p.(p_db) → (worker_requeue env id (set_worker i w0 q)).2 = set_worker i w0 (set_db d' q)) as Hreq.
  { intros q w0 Hq. unfold worker_requeue. simpl. rewrite Hq, Hf, Requeue_no_faults by done. done. }
  exists (set_worker i (set_stop false (set_main Exited w)) (set_db d' p)), (set_stop false (set_main Exited w)).
  split; [|by simpl; rewrite list_lookup_insert_eq].
  assert (pool_step h (EStop i env) (set_worker i (set_stop true w) p) = Some (set_worker i (set_stop false (set_main Exited w)) (set_db d' p))) as Hstop.
  { unfold pool_step. simpl. rewrite Hcr, list_lookup_insert_eq by done. simpl. rewrite Hm, Hid, bool_decide_false, Hreq by done.
    f_equal. unfold set_worker. simpl. by rewrite list_insert_insert_eq. }
  destruct (w_stop w) eqn:Hs; cbn [app].
  - assert (set_worker i (set_stop true w) p = p) as Hsame; [|rewrite Hsame in Hstop; by rewrite (pool_run_cons _ _ _ _ _ Hstop)].
    destruct p as [? ws ? ? ? ? ? ?], w as [? ? ? ? ? ?]. simpl in *. subst. unfold set_worker. simpl. by rewrite list_insert_id.
  - rewrite (pool_run_cons _ _ _ _ (set_worker i (set_stop true w) p)); [by rewrite (pool_run_cons _ _ _ _ _ Hstop)|].
    unfold pool_step. rewrite Hcr, Hi. simpl. by rewrite Hs.
Qed.

Lemma stop_requeues_running_task_witness :
  match pool_run ex_types ex_pool_events (StartWorkers 1 empty_db) with
  | Some p => ∃ p' w', pool_run ex_types [EStopSent 0; EStop 0 ex_env] p = Some p' ∧ p'.(p_workers) !! 0%nat = Some w' ∧
      w'.(w_main) = Exited ∧ phases p'.(p_db) !! 1%N = Some Pending
  | None => False
  end.
Proof.
  destruct (pool_run ex_types ex_pool_events _) as [p|] eqn:E; [|by vm_compute in E].
  assert (pool_reachable ex_types 1 (λ _, True) p) as Hr.
  { eapply ex_pool_reachable; [apply ex_pool_events_ok|by apply Forall_true|exact E]. }
  assert (clock_after (ce_now ex_env) (p_db p)) as Hclock.
  { apply clock_after_b_true.
    assert (from_option (λ p, clock_after_b 20 (p_db p)) false (Some p) = true) as H by (rewrite <- E; by vm_compute).
    exact H. }
  vm_compute in E. injection E as E.
  edestruct (stop_requeues_running_task ex_types 1 (λ _, True) p 0%nat) with (id := 1%N) (env := ex_env) as (p' & w' & H1 & H2 & H3 & H4);
    [exact Hr|subst p; reflexivity|subst p; reflexivity|reflexivity|reflexivity|done|subst p; reflexivity|reflexivity|reflexivity|exact Hclock|].
  exists p', w'. split; [exact H1|]. split; [exact H2|]. split; [exact H3|exact H4].
Defined.
