(* ===== verification/GoSplit.v ===== *)
(** * The string functions of Go's [strings] package the repository relies on

    [Split] and [Join] with a one-character separator, [Trim], [TrimSuffix], [HasSuffix],
    [TrimSpace] and [ReplaceAll] of single characters, on strings of bytes. *)

From S2P Require Import Prelude GoStrings.
From stdpp Require Import options.

Open Scope string_scope.

(** ** Split and Join *)

Fixpoint strings_Split (c : ascii) (s : string) : list string :=
  match s with
  | EmptyString => [""]
  | String a s' =>
      if a == c then "" :: strings_Split c s'
      else match strings_Split c s' with
           | h :: t => String a h :: t
           | [] => [String a ""]
           end
  end.

Fixpoint strings_Join (sep : string) (l : list string) : string :=
  match l with
  | [] => ""
  | [x] => x
  | x :: l' => x +:+ sep +:+ strings_Join sep l'
  end.

(** The bytes of a string. *)
Fixpoint chars (s : string) : list ascii :=
  match s with EmptyString => [] | String a s' => a :: chars s' end.
Fixpoint of_chars (l : list ascii) : string :=
  match l with [] => "" | a :: l' => String a (of_chars l') end.

Lemma of_chars_chars s : of_chars (chars s) = s.
Proof. induction s as [|a s IH]; simpl; congruence. Qed.

Lemma chars_of_chars l : chars (of_chars l) = l.
Proof. induction l as [|a l IH]; simpl; congruence. Qed.

Lemma chars_app s t : chars (s +:+ t) = (chars s ++ chars t)%list.
Proof. induction s as [|a s IH]; [done|]. rewrite str_app_cons. simpl. by rewrite IH. Qed.

Lemma split_nonempty c s : strings_Split c s ≠ [].
Proof. destruct s as [|a s]; simpl; [done|]. case_bool_decide; [done|]. by destruct (strings_Split c s). Qed.

Lemma join_cons sep x l : l ≠ [] → strings_Join sep (x :: l) = x +:+ sep +:+ strings_Join sep l.
Proof. by destruct l. Qed.

Lemma join_split c s : strings_Join (String c "") (strings_Split c s) = s.
Proof.
  induction s as [|a s IH]; [done|]. simpl. case_bool_decide as Hc.
  - subst. rewrite join_cons by apply split_nonempty. rewrite IH.
    rewrite str_app_nil, str_app_cons, str_app_nil. done.
  - destruct (strings_Split c s) as [|h t] eqn:E; [by apply split_nonempty in E|].
    destruct t as [|h' t].
    + simpl in *. by rewrite IH.
    + rewrite !join_cons in * by done. rewrite str_app_cons. by rewrite IH.
Qed.

Lemma split_no_sep c s : Forall (λ x, c ∉ chars x) (strings_Split c s).
Proof.
  induction s as [|a s IH]; simpl; [by repeat constructor; intros ?%not_elem_of_nil|].
  case_bool_decide as Hc.
  - constructor; [by intros ?%not_elem_of_nil|done].
  - destruct (strings_Split c s) as [|h t]; inversion IH; subst; constructor; try done.
    + simpl. intros [?|?]%elem_of_cons; [congruence|by apply not_elem_of_nil in H].
    + simpl. intros [?|?]%elem_of_cons; congruence.
Qed.

Lemma split_plain c x : c ∉ chars x → strings_Split c x = [x].
Proof.
  induction x as [|a x IH]; simpl; [done|]. rewrite not_elem_of_cons. intros [Ha Hx].
  rewrite bool_decide_false by congruence. by rewrite IH.
Qed.

Lemma split_app c x s : c ∉ chars x → strings_Split c (x +:+ String c s) = x :: strings_Split c s.
Proof.
  induction x as [|a x IH]; cbn [chars].
  - intros _. rewrite str_app_nil. simpl. by rewrite bool_decide_true.
  - rewrite not_elem_of_cons. intros [Ha Hx]. rewrite str_app_cons. simpl.
    rewrite bool_decide_false by congruence. by rewrite IH.
Qed.

Lemma split_join c l :
  l ≠ [] → Forall (λ x, c ∉ chars x) l → strings_Split c (strings_Join (String c "") l) = l.
Proof.
  intros Hne Hl. induction Hl as [|x l Hx Hl IH]; [done|].
  destruct l as [|y l]; [by apply split_plain|].
  rewrite join_cons by done. rewrite str_app_cons, str_app_nil.
  rewrite split_app by done. by rewrite IH.
Qed.

(** ** Trimming *)

Fixpoint drop_while (f : ascii → bool) (l : list ascii) : list ascii :=
  match l with [] => [] | a :: l' => if f a then drop_while f l' else l end.

(** [strings.Trim(s, cutset)] for a cutset of one character. *)
Definition trim_char (c : ascii) (s : string) : string :=
  of_chars (reverse (drop_while (λ a, a == c) (reverse (drop_while (λ a, a == c) (chars s))))).

Fixpoint has_prefix (p l : list ascii) : bool :=
  match p, l with
  | [], _ => true
  | a :: p', b :: l' => (a == b) && has_prefix p' l'
  | _, [] => false
  end.

Definition HasSuffix (s suffix : string) : bool := has_prefix (reverse (chars suffix)) (reverse (chars s)).
Definition TrimSuffix (s suffix : string) : string :=
  if HasSuffix s suffix
  then of_chars (take (length (chars s) - length (chars suffix)) (chars s)) else s.

(** The UTF-8 encodings of the runes of [unicode.IsSpace]. *)
Definition b (l : list N) : list ascii := ascii_of_N <$> l.
Definition spaces : list (list ascii) :=
  b <$> [[9]; [10]; [11]; [12]; [13]; [32]; [194; 133]; [194; 160]; [225; 154; 128];
         [226; 128; 128]; [226; 128; 129]; [226; 128; 130]; [226; 128; 131]; [226; 128; 132];
         [226; 128; 133]; [226; 128; 134]; [226; 128; 135]; [226; 128; 136]; [226; 128; 137];
         [226; 128; 138]; [226; 128; 168]; [226; 128; 169]; [226; 128; 175]; [226; 129; 159];
         [227; 128; 128]]%N.

(** The space rune at the start, as the bytes after it. *)
Fixpoint strip_space (sps : list (list ascii)) (l : list ascii) : option (list ascii) :=
  match sps with
  | [] => None
  | sp :: sps' => if has_prefix sp l then Some (drop (length sp) l) else strip_space sps' l
  end.

(** Every space rune has at least one byte, so that as many rounds as there are bytes suffice. *)
Fixpoint trim_left_go (sps : list (list ascii)) (fuel : nat) (l : list ascii) : list ascii :=
  match fuel with
  | O => l
  | S fuel' => match strip_space sps l with
               | Some l' => trim_left_go sps fuel' l'
               | None => l
               end
  end.
Definition trim_left (sps : list (list ascii)) (l : list ascii) : list ascii :=
  trim_left_go sps (length l) l.

Definition TrimSpace (s : string) : string :=
  of_chars (reverse (trim_left (reverse <$> spaces) (reverse (trim_left spaces (chars s))))).

(** ** Lemmas on trimming *)

Lemma has_prefix_app p l k : has_prefix p l = true → has_prefix p (l ++ k)%list = true.
Proof.
  revert l. induction p as [|a p IH]; intros [|x l]; simpl; try done.
  rewrite !andb_true_iff. intros [? ?]. auto.
Qed.

Lemma strip_space_app sps l k : is_Some (strip_space sps l) → is_Some (strip_space sps (l ++ k)%list).
Proof.
  induction sps as [|sp sps IH]; simpl; [by intros [? ?]|].
  destruct (has_prefix sp l) eqn:E; [by rewrite (has_prefix_app _ _ _ E)|].
  intros H. destruct (has_prefix sp (l ++ k)); [done|]. by apply IH.
Qed.

Definition no_space_first (sps : list (list ascii)) (l : list ascii) : Prop := strip_space sps l = None.

Lemma strip_space_shorter sps l l' :
  Forall (λ sp, sp ≠ []) sps → strip_space sps l = Some l' →
  (length l' < length l)%nat ∧ ∃ p, l = (p ++ l')%list.
Proof.
  induction 1 as [|sp sps Hsp _ IH]; simpl; [done|].
  destruct (has_prefix sp l) eqn:E; [|done]. intros [= <-]. split.
  - rewrite length_drop. destruct sp as [|a sp]; [done|]. destruct l; simpl in *; [done|lia].
  - exists (take (length sp) l). by rewrite take_drop.
Qed.

Lemma trim_left_go_spec sps fuel l :
  Forall (λ sp, sp ≠ []) sps → (length l ≤ fuel)%nat →
  no_space_first sps (trim_left_go sps fuel l) ∧ ∃ p, l = (p ++ trim_left_go sps fuel l)%list.
Proof.
  intros Hsps. revert l. induction fuel as [|fuel IH]; intros l Hf; simpl.
  - destruct l; [|simpl in *; lia]. split; [|by exists []]. unfold no_space_first.
    destruct (strip_space sps []) eqn:E; [|done].
    apply strip_space_shorter in E as [E _]; [simpl in E; lia|done].
  - destruct (strip_space sps l) as [l'|] eqn:E; [|split; [done|by exists []]].
    destruct (strip_space_shorter _ _ _ Hsps E) as [Hlt [p Hp]].
    destruct (IH l') as [H1 [q Hq]]; [lia|]. split; [done|]. exists (p ++ q)%list.
    rewrite Hp at 1. rewrite Hq at 1. by rewrite app_assoc.
Qed.

Lemma trim_left_spec sps l :
  Forall (λ sp, sp ≠ []) sps →
  no_space_first sps (trim_left sps l) ∧ ∃ p, l = (p ++ trim_left sps l)%list.
Proof. intros. by apply trim_left_go_spec. Qed.

Lemma trim_left_id sps l : no_space_first sps l → trim_left sps l = l.
Proof. unfold trim_left, no_space_first. intros H. destruct l; [done|]. simpl. simpl in H. by rewrite H. Qed.

Lemma spaces_nonempty : Forall (λ sp, sp ≠ []) spaces ∧ Forall (λ sp, sp ≠ []) (reverse <$> spaces).
Proof. split; apply (bool_decide_unpack _); by vm_compute. Qed.

(** [TrimSpace] leaves no space at either end, is a part of its argument and is idempotent. *)
Definition trimmed (s : string) : Prop :=
  no_space_first spaces (chars s) ∧ no_space_first (reverse <$> spaces) (reverse (chars s)).

Lemma TrimSpace_trimmed s : trimmed (TrimSpace s).
Proof.
  destruct spaces_nonempty as [H1 H2]. unfold trimmed, TrimSpace. rewrite chars_of_chars, reverse_involutive.
  destruct (trim_left_spec spaces (chars s) H1) as [Hn _].
  destruct (trim_left_spec (reverse <$> spaces) (reverse (trim_left spaces (chars s))) H2) as [Hr [p Hp]].
  split; [|done]. unfold no_space_first.
  destruct (strip_space spaces (reverse _)) eqn:E; [|done]. exfalso.
  apply (f_equal reverse) in Hp. rewrite reverse_involutive, reverse_app in Hp.
  assert (is_Some (strip_space spaces (trim_left spaces (chars s)))) as [x Hx].
  { rewrite Hp. apply strip_space_app. by eexists. }
  unfold no_space_first in Hn. congruence.
Qed.

Lemma TrimSpace_id s : trimmed s → TrimSpace s = s.
Proof.
  intros [H1 H2]. unfold TrimSpace. rewrite (trim_left_id spaces) by done.
  rewrite trim_left_id by done. by rewrite reverse_involutive, of_chars_chars.
Qed.

Lemma TrimSpace_part s : ∃ p q, chars s = (p ++ chars (TrimSpace s) ++ q)%list.
Proof.
  destruct spaces_nonempty as [H1 H2]. unfold TrimSpace. rewrite chars_of_chars.
  destruct (trim_left_spec spaces (chars s) H1) as [_ [p Hp]].
  destruct (trim_left_spec (reverse <$> spaces) (reverse (trim_left spaces (chars s))) H2) as [_ [q Hq]].
  apply (f_equal reverse) in Hq. rewrite reverse_involutive, reverse_app in Hq.
  exists p, (reverse q). rewrite Hp at 1. f_equal. by rewrite Hq at 1.
Qed.

(** [strings.ReplaceAll] of one character by another. *)
Definition replace_char (x y : ascii) (s : string) : string :=
  of_chars ((λ a, if a == x then y else a) <$> chars s).
