(* ===== verification/Utils.v ===== *)
(** * pkg/utils: slices and feature names

    The helpers on slices used across the service, and the parser of the feature names that gate
    repositories. *)

From S2P Require Import Prelude GoStrings GoSplit.
From stdpp Require Import sorting options.

Open Scope string_scope.

(** ** utils.go *)

Section Slices.
Context {T : Type} `{EqDecision T}.

Definition SlicesEqual (s1 s2 : list T) : bool :=
  if length s1 != length s2 then false
  else forallb (λ i, s1 !! i == s2 !! i) (seq 0 (length s1)).

(** The map built from [s2] is its set of elements. *)
Definition SubtractSlices (s1 s2 : list T) : list T :=
  base.filter (λ elem, contains s2 elem = false) s1.

Fixpoint AtIndexes_from (i : nat) (elems : list T) (v : T) : list nat :=
  match elems with
  | [] => []
  | s :: elems' => if s == v then i :: AtIndexes_from (S i) elems' v else AtIndexes_from (S i) elems' v
  end.
Definition AtIndexes (elems : list T) (v : T) : list nat := AtIndexes_from 0 elems v.

Definition ContainsAny (s1 s2 : list T) : bool := existsb (λ v1, existsb (λ v2, v1 == v2) s2) s1.

Definition AllIn (names l : list T) : bool := forallb (contains l) names.

(** [seen] is the map, [result] the slice built so far. *)
Fixpoint Deduplicate_go (seen result s : list T) : list T :=
  match s with
  | [] => result
  | item :: s' => if contains seen item then Deduplicate_go seen result s'
                  else Deduplicate_go (item :: seen) (result ++ [item])%list s'
  end.
Definition Deduplicate (s : list T) : list T := Deduplicate_go [] [] s.
End Slices.

Definition AllStringsIn (names l : list string) : bool := AllIn names l.

Definition OptionalStringsEqual (left right : option string) : bool :=
  match left, right with
  | Some l, Some r => l == r
  | None, None => true
  | _, _ => false
  end.

(** ** feature_names.go *)

(** The byte order of [slices.Sort] on strings. *)
Fixpoint lex_le (l k : list ascii) : bool :=
  match l, k with
  | [], _ => true
  | _ :: _, [] => false
  | x :: l', y :: k' =>
      (N_of_ascii x <? N_of_ascii y)%N || ((N_of_ascii x =? N_of_ascii y)%N && lex_le l' k')
  end.
Definition str_le (x y : string) : Prop := lex_le (chars x) (chars y) = true.
#[global] Instance str_le_dec : RelDecision str_le.
Proof. intros x y. unfold str_le. apply _. Defined.

Definition slices_Sort (l : list string) : list string := merge_sort str_le l.

(** The loop of [ParseFeatures]. *)
Fixpoint feature_tokens (seen out parts : list string) : list string :=
  match parts with
  | [] => out
  | p :: parts' =>
      let t := TrimSpace p in
      if t == "" then feature_tokens seen out parts'
      else if contains seen t then feature_tokens seen out parts'
      else feature_tokens (t :: seen) (out ++ [t])%list parts'
  end.

Definition comma : ascii := ascii_of_N 44.
Definition plus_sign : ascii := ascii_of_N 43.

Definition ParseFeatures (featureNames : string) : list string :=
  if featureNames == "" then []
  else slices_Sort (feature_tokens [] [] (strings_Split comma (replace_char plus_sign comma featureNames))).

Definition AnyFeatureMatch (featureNames : string) (l : list string) : bool :=
  let names := ParseFeatures featureNames in
  if (length names =? 0)%nat then true else existsb (contains l) names.

(** ** Lemmas on slices *)

Section SliceLemmas.
Context {T : Type} `{EqDecision T}.

Lemma SlicesEqual_true (s1 s2 : list T) : SlicesEqual s1 s2 = true ↔ s1 = s2.
Proof.
  unfold SlicesEqual. destruct (decide (length s1 = length s2)) as [Hl|Hl].
  - rewrite (bool_decide_true (length s1 = length s2)) by done. simpl. rewrite forallb_forall. split.
    + intros H. apply list_eq. intros i.
      destruct (decide (i < length s1)) as [Hi|Hi].
      * specialize (H i). rewrite in_seq, bool_decide_eq_true in H. apply H. lia.
      * rewrite !lookup_ge_None_2 by lia. done.
    + intros -> i _. by apply bool_decide_eq_true.
  - rewrite (bool_decide_false (length s1 = length s2)) by done. simpl. split; [done|]. by intros ->.
Qed.

Lemma SubtractSlices_elem (s1 s2 : list T) x : x ∈ SubtractSlices s1 s2 ↔ x ∈ s1 ∧ x ∉ s2.
Proof. unfold SubtractSlices. rewrite list_elem_of_filter, contains_false. tauto. Qed.

Lemma SubtractSlices_sublist (s1 s2 : list T) : SubtractSlices s1 s2 `sublist_of` s1.
Proof.
  unfold SubtractSlices. induction s1 as [|x s1 IH]; [done|]. rewrite filter_cons.
  case_decide; by constructor.
Qed.

Lemma AtIndexes_from_elem i (l : list T) v j :
  j ∈ AtIndexes_from i l v ↔ (i ≤ j)%nat ∧ l !! (j - i)%nat = Some v.
Proof.
  revert i. induction l as [|x l IH]; intros i; simpl.
  { split; [by intros ?%not_elem_of_nil|]. by intros [_ ?]. }
  assert (j = i ∨ j ≠ i) as [->|Hne] by lia.
  - rewrite Nat.sub_diag. simpl. case_bool_decide.
    + subst. rewrite elem_of_cons. intuition (auto; lia).
    + rewrite IH. split; [intros [? _]; lia|]. intros [_ ?]. congruence.
  - assert ((if x == v then i :: AtIndexes_from (S i) l v else AtIndexes_from (S i) l v) = AtIndexes_from (S i) l v
      ∨ (if x == v then i :: AtIndexes_from (S i) l v else AtIndexes_from (S i) l v) = i :: AtIndexes_from (S i) l v) as Hc
      by (case_bool_decide; auto).
    assert (j ∈ (if x == v then i :: AtIndexes_from (S i) l v else AtIndexes_from (S i) l v)
      ↔ j ∈ AtIndexes_from (S i) l v) as ->.
    { destruct Hc as [-> | ->]; [done|]. rewrite elem_of_cons. intuition congruence. }
    rewrite IH. destruct (decide (i ≤ j)%nat) as [Hle|Hle].
    + replace (j - i)%nat with (S (j - S i)) by lia. simpl. intuition lia.
    + intuition lia.
Qed.

Lemma AtIndexes_elem (l : list T) v j : j ∈ AtIndexes l v ↔ l !! j = Some v.
Proof. unfold AtIndexes. rewrite AtIndexes_from_elem, Nat.sub_0_r. intuition lia. Qed.

Lemma ContainsAny_true (s1 s2 : list T) : ContainsAny s1 s2 = true ↔ ∃ x, x ∈ s1 ∧ x ∈ s2.
Proof.
  unfold ContainsAny. rewrite existsb_exists. split.
  - intros (x & Hx%list_elem_of_In & H). apply existsb_exists in H as (y & Hy%list_elem_of_In & H).
    apply bool_decide_eq_true in H as <-. eauto.
  - intros (x & Hx & Hy). exists x. split; [by apply list_elem_of_In|].
    apply existsb_exists. exists x. split; [by apply list_elem_of_In|]. by apply bool_decide_eq_true.
Qed.

Lemma AllIn_true (names l : list T) : AllIn names l = true ↔ ∀ x, x ∈ names → x ∈ l.
Proof.
  unfold AllIn. rewrite forallb_forall. setoid_rewrite contains_true.
  setoid_rewrite list_elem_of_In. done.
Qed.

Lemma Deduplicate_go_spec (seen result s : list T) :
  (∀ x, x ∈ seen ↔ x ∈ result) → NoDup result →
  NoDup (Deduplicate_go seen result s) ∧
  (∀ x, x ∈ Deduplicate_go seen result s ↔ x ∈ result ∨ x ∈ s) ∧
  ∃ k, Deduplicate_go seen result s = (result ++ k)%list ∧ k `sublist_of` s.
Proof.
  revert seen result. induction s as [|a s IH]; intros seen result Hsame Hnd; simpl.
  - split_and!; [done| |by exists []; rewrite app_nil_r].
    intros x. split; [by left|]. by intros [?|?%not_elem_of_nil].
  - destruct (contains seen a) eqn:E.
    + apply contains_true in E. destruct (IH seen result Hsame Hnd) as (H1 & H2 & k & H3 & H4).
      split_and!; [done| |exists k; split; [done|by constructor]].
      intros x. rewrite H2, elem_of_cons. rewrite Hsame in E. intuition (subst; auto).
    + apply contains_false in E.
      destruct (IH (a :: seen) (result ++ [a])%list) as (H1 & H2 & k & H3 & H4).
      { intros x. rewrite elem_of_cons, elem_of_app, list_elem_of_singleton, Hsame. tauto. }
      { apply NoDup_app. split_and!; [done| |apply NoDup_singleton].
        intros x Hx ->%list_elem_of_singleton. by rewrite Hsame in E. }
      split_and!; [done| |exists (a :: k); split; [by rewrite H3, <- app_assoc|by constructor]].
      intros x. rewrite H2, elem_of_app, list_elem_of_singleton, elem_of_cons. tauto.
Qed.

Lemma Deduplicate_id (seen result s : list T) :
  NoDup s → (∀ x, x ∈ s → x ∉ seen) → Deduplicate_go seen result s = (result ++ s)%list.
Proof.
  revert seen result. induction s as [|a s IH]; intros seen result Hnd Hs; simpl; [by rewrite app_nil_r|].
  apply NoDup_cons in Hnd as [Ha Hnd].
  assert (contains seen a = false) as -> by (apply contains_false, Hs; left).
  rewrite IH; [by rewrite <- app_assoc|done|].
  intros x Hx [->|Hseen]%elem_of_cons; [done|]. eapply Hs; [right; exact Hx|exact Hseen].
Qed.

(** [Deduplicate] keeps exactly one of each element, in the order of first occurrence, and changes
    nothing when there are no duplicates (in particular it is idempotent). *)
Theorem Deduplicate_correct (s : list T) :
  NoDup (Deduplicate s) ∧ (∀ x, x ∈ Deduplicate s ↔ x ∈ s) ∧ Deduplicate s `sublist_of` s ∧
  (NoDup s → Deduplicate s = s) ∧ Deduplicate (Deduplicate s) = Deduplicate s.
Proof.
  destruct (Deduplicate_go_spec [] [] s) as (H1 & H2 & k & H3 & H4); [done|apply NoDup_nil_2|].
  assert (∀ l : list T, NoDup l → Deduplicate l = l) as Hid.
  { intros l Hl. unfold Deduplicate. rewrite Deduplicate_id; [done|done|].
    intros x _. apply not_elem_of_nil. }
  split_and!; [done| |by unfold Deduplicate; rewrite H3|by apply Hid|by apply Hid].
  intros x. unfold Deduplicate. rewrite H2. split; [by intros [?%not_elem_of_nil|?]|by right].
Qed.
End SliceLemmas.

(** ** Lemmas on feature names *)

Lemma lex_le_refl l : lex_le l l = true.
Proof. induction l as [|x l IH]; simpl; [done|]. rewrite N.eqb_refl, IH. by rewrite orb_true_r. Qed.

Lemma lex_le_trans l k m : lex_le l k = true → lex_le k m = true → lex_le l m = true.
Proof.
  revert k m. induction l as [|x l IH]; intros [|y k] [|z m]; simpl; try done.
  rewrite !orb_true_iff, !andb_true_iff, !N.ltb_lt, !N.eqb_eq.
  intros [?|[? ?]] [?|[? ?]]; try (left; lia). right. split; [lia|]. eauto.
Qed.

Lemma lex_le_total l k : lex_le l k = true ∨ lex_le k l = true.
Proof.
  revert k. induction l as [|x l IH]; intros [|y k]; simpl; try auto.
  rewrite !orb_true_iff, !andb_true_iff, !N.ltb_lt, !N.eqb_eq.
  destruct (IH k), (N.lt_trichotomy (N_of_ascii x) (N_of_ascii y)) as [?|[?|?]]; auto.
Qed.

Lemma lex_le_antisym l k : lex_le l k = true → lex_le k l = true → l = k.
Proof.
  revert k. induction l as [|x l IH]; intros [|y k]; simpl; try done.
  rewrite !orb_true_iff, !andb_true_iff, !N.ltb_lt, !N.eqb_eq.
  intros [?|[? ?]] [?|[? ?]]; try lia. f_equal; [|by apply IH].
  rewrite <- (ascii_N_embedding x), <- (ascii_N_embedding y). by f_equal.
Qed.

#[global] Instance str_le_total : Total str_le.
Proof. intros x y. apply lex_le_total. Qed.
#[global] Instance str_le_trans : Transitive str_le.
Proof. intros x y z. apply lex_le_trans. Qed.
#[global] Instance str_le_antisym : AntiSymm (=) str_le.
Proof.
  intros x y H1 H2. rewrite <- (of_chars_chars x), <- (of_chars_chars y). f_equal.
  by apply lex_le_antisym.
Qed.

Lemma slices_Sort_spec l : Sorted str_le (slices_Sort l) ∧ slices_Sort l ≡ₚ l.
Proof. split; [apply Sorted_merge_sort, _|apply merge_sort_Permutation]. Qed.

Lemma slices_Sort_id l : Sorted str_le l → slices_Sort l = l.
Proof.
  intros H. destruct (slices_Sort_spec l) as [H1 H2].
  by apply (Sorted_unique str_le).
Qed.

Definition token_of (parts : list string) (x : string) : Prop :=
  x ≠ "" ∧ ∃ p, p ∈ parts ∧ x = TrimSpace p.

Lemma token_of_cons p parts x :
  token_of (p :: parts) x ↔ (x ≠ "" ∧ x = TrimSpace p) ∨ token_of parts x.
Proof.
  unfold token_of. split.
  - intros (Hx & q & [->|Hq]%elem_of_cons & ->); [by left|right]. split; [done|]. by exists q.
  - intros [[Hx ->]|(Hx & q & Hq & ->)]; (split; [done|]).
    + exists p. split; [left|done].
    + exists q. split; [by right|done].
Qed.

Lemma feature_tokens_spec seen out parts :
  (∀ x, x ∈ seen ↔ x ∈ out) → NoDup out →
  NoDup (feature_tokens seen out parts) ∧
  ∀ x, x ∈ feature_tokens seen out parts ↔ x ∈ out ∨ token_of parts x.
Proof.
  revert seen out. induction parts as [|p parts IH]; intros seen out Hsame Hnd; simpl.
  - split; [done|]. intros x. split; [by left|]. intros [?|(_ & p & ?%not_elem_of_nil & _)]; done.
  - case_bool_decide as Hp; [|destruct (contains seen (TrimSpace p)) eqn:E].
    + destruct (IH seen out Hsame Hnd) as [H1 H2]. split; [done|]. intros x.
      rewrite H2, token_of_cons, Hp. tauto.
    + apply contains_true in E. destruct (IH seen out Hsame Hnd) as [H1 H2]. split; [done|].
      intros x. rewrite H2, token_of_cons. rewrite Hsame in E.
      split; [tauto|]. intros [?|[[_ ->]|?]]; auto.
    + apply contains_false in E.
      destruct (IH (TrimSpace p :: seen) (out ++ [TrimSpace p])%list) as [H1 H2].
      { intros x. rewrite elem_of_cons, elem_of_app, list_elem_of_singleton, Hsame. tauto. }
      { apply NoDup_app. split_and!; [done| |apply NoDup_singleton].
        intros x Hx ->%list_elem_of_singleton. by rewrite Hsame in E. }
      split; [done|]. intros x. rewrite H2, elem_of_app, list_elem_of_singleton, token_of_cons.
      split; [|tauto]. intros [[? | ->]|?]; auto.
Qed.

Lemma ParseFeatures_spec s :
  Sorted str_le (ParseFeatures s) ∧ NoDup (ParseFeatures s) ∧
  ∀ x, x ∈ ParseFeatures s ↔ token_of (strings_Split comma (replace_char plus_sign comma s)) x.
Proof.
  unfold ParseFeatures. case_bool_decide as Hs.
  - subst. split_and!; [done|apply NoDup_nil_2|]. intros x. split; [by intros ?%not_elem_of_nil|].
    intros (Hx & p & Hp & ->). simpl in Hp. apply list_elem_of_singleton in Hp as ->.
    by vm_compute in Hx.
  - destruct (slices_Sort_spec (feature_tokens [] [] (strings_Split comma (replace_char plus_sign comma s)))) as [H1 H2].
    destruct (feature_tokens_spec [] [] (strings_Split comma (replace_char plus_sign comma s))) as [H3 H4];
      [done|apply NoDup_nil_2|].
    split_and!; [done|by rewrite H2|]. intros x. rewrite H2, H4. split; [|by right].
    by intros [?%not_elem_of_nil|?].
Qed.

Lemma replace_char_id x y s : x ∉ chars s → replace_char x y s = s.
Proof.
  intros H. unfold replace_char. rewrite <- (of_chars_chars s) at 2. f_equal.
  induction (chars s) as [|a l IH]; [done|]. rewrite fmap_cons.
  apply not_elem_of_cons in H as [Ha Hl]. rewrite bool_decide_false by congruence. by rewrite IH.
Qed.

Lemma replace_char_gone x y s : x ≠ y → x ∉ chars (replace_char x y s).
Proof.
  intros Hxy. unfold replace_char. rewrite chars_of_chars, list_elem_of_fmap.
  intros (a & Ha & _). case_bool_decide; congruence.
Qed.

Lemma Split_elem_chars c s p a : p ∈ strings_Split c s → a ∈ chars p → a ∈ chars s.
Proof.
  revert p. induction s as [|x s IH]; intros p; simpl.
  - intros ->%list_elem_of_singleton. done.
  - case_bool_decide as Hx.
    + intros [->|Hp]%elem_of_cons Ha; [by apply not_elem_of_nil in Ha|right; eauto].
    + destruct (strings_Split c s) as [|h t] eqn:E; [by apply split_nonempty in E|].
      intros [->|Hp]%elem_of_cons Ha.
      * simpl in Ha. apply elem_of_cons in Ha as [->|Ha]; [left|right]. eapply IH; [left|done].
      * right. eapply IH; [by right|done].
Qed.

(** A token is trimmed and holds neither separator. *)
Lemma token_clean s x :
  token_of (strings_Split comma (replace_char plus_sign comma s)) x →
  x ≠ "" ∧ trimmed x ∧ comma ∉ chars x ∧ plus_sign ∉ chars x.
Proof.
  intros (Hx & p & Hp & ->). split_and!; [done|apply TrimSpace_trimmed|..]; intros Hin;
    destruct (TrimSpace_part p) as (u & v & Hpart);
    (assert (∀ a, a ∈ chars (TrimSpace p) → a ∈ chars p) as Hsub
      by (intros a Ha; rewrite Hpart, !elem_of_app; auto)); apply Hsub in Hin.
  - pose proof (split_no_sep comma (replace_char plus_sign comma s)) as Hf.
    rewrite Forall_forall in Hf. by apply (Hf p Hp).
  - eapply Split_elem_chars in Hin; [|exact Hp]. by apply (replace_char_gone plus_sign comma s).
Qed.

Lemma chars_Join_elem sep l a : a ∈ chars (strings_Join sep l) → a ∈ chars sep ∨ ∃ x, x ∈ l ∧ a ∈ chars x.
Proof.
  induction l as [|x [|y l] IH].
  - by intros ?%not_elem_of_nil.
  - intros H. right. exists x. split; [left|done].
  - rewrite join_cons by done. rewrite !chars_app, !elem_of_app. intros [H|[H|H]].
    + right. exists x. split; [left|done].
    + by left.
    + destruct (IH H) as [?|(z & ? & ?)]; [by left|right]. exists z. split; [by right|done].
Qed.

(** [ParseFeatures] returns a sorted list without duplicates whose members are exactly the non-empty
    trimmed tokens between commas and plus signs, and parsing the list it returns, joined by commas,
    gives the same list: the canonical form is stable. *)
Theorem ParseFeatures_canonical s :
  Sorted str_le (ParseFeatures s) ∧ NoDup (ParseFeatures s) ∧
  (∀ x, x ∈ ParseFeatures s ↔
     x ≠ "" ∧ ∃ p, p ∈ strings_Split comma (replace_char plus_sign comma s) ∧ x = TrimSpace p) ∧
  ParseFeatures (strings_Join "," (ParseFeatures s)) = ParseFeatures s.
Proof.
  destruct (ParseFeatures_spec s) as (H1 & H2 & H3). split_and!; [done..|].
  set (l := ParseFeatures s) in *.
  assert (∀ x, x ∈ l → x ≠ "" ∧ trimmed x ∧ comma ∉ chars x ∧ plus_sign ∉ chars x) as Hclean.
  { intros x Hx. apply H3 in Hx. by eapply token_clean. }
  destruct (decide (l = [])) as [->|Hne]; [done|].
  assert (replace_char plus_sign comma (strings_Join "," l) = strings_Join "," l) as Hrep.
  { apply replace_char_id. intros H%chars_Join_elem. destruct H as [H|(x & Hx & H)].
    - by vm_compute in H; apply elem_of_cons in H as [H|H%not_elem_of_nil].
    - by destruct (Hclean x Hx) as (_ & _ & _ & ?). }
  assert (strings_Split comma (strings_Join "," l) = l) as Hsplit.
  { apply (split_join comma); [done|]. apply Forall_forall. intros x Hx. by apply Hclean. }
  destruct (ParseFeatures_spec (strings_Join "," l)) as (K1 & K2 & K3). rewrite Hrep, Hsplit in K3.
  apply (Sorted_unique str_le); [done..|]. apply NoDup_Permutation; [done..|].
  intros x. rewrite K3. unfold token_of. split.
  - intros (_ & p & Hp & ->). rewrite TrimSpace_id; [done|]. by apply Hclean.
  - intros Hx. split; [by apply Hclean|]. exists x. split; [done|]. rewrite TrimSpace_id; [done|].
    by apply Hclean.
Qed.
