(* ===== verification/Access.v ===== *)
(** * Who may do what: request paths, RBAC permissions and the middlewares that enforce them

    [pkg/handler/utils/path.go], [pkg/rbac] and [pkg/middleware]. A request is the data the
    middlewares read from it; a middleware gives the decision it takes, and the handler behind it is
    an argument. The RBAC and Kessel services are third parties: their answers are arguments. *)

From S2P Require Import Prelude GoStrings GoSplit Config.
From stdpp Require Import options.

Open Scope string_scope.

(** ** Paths (handler/utils/path.go) *)

Definition slash : ascii := ascii_of_N 47.

(** The scan from the end for the last non-empty component. *)
Fixpoint drop_empty_tail (l : list string) : list string :=
  match l with
  | [] => []
  | x :: l' => match drop_empty_tail l' with
               | [] => if x == "" then [] else [x]
               | r => x :: r
               end
  end.

Definition NewPathWithString (path : string) : list string :=
  if (path == "") || (path == "/") then [] else
  match path with
  | EmptyString => []
  | String c _ => if c != slash then [] else drop_empty_tail (tail (strings_Split slash path))
  end.

(** [None]: [output[idx][0]] of an empty component, which panics. *)
Definition RemovePrefixes (p : list string) : option (list string) :=
  if (length p <? 4)%nat then Some [] else
  let beta := nth 0 p "" == "beta" in
  if beta && (length p <? 5)%nat then Some [] else
  let idx := if beta then 1%nat else 0%nat in
  if nth idx p "" != "api" then Some [] else
  if nth (S idx) p "" != "content-sources" then Some [] else
  match nth (S (S idx)) p "" with
  | EmptyString => None
  | String c _ => if c != "v"%char then Some [] else Some (drop (S (S (S idx))) p)
  end.

(** The loop over the components of one resource: [flag]. *)
Fixpoint matches_resource (p r : list string) : bool :=
  match r, p with
  | [], _ => true
  | y :: r', x :: p' => if x != y then false else matches_resource p' r'
  | _ :: _, [] => false   (* lenComponents < lenResource *)
  end.

Fixpoint StartWithResources (p : list string) (resources : list (list string)) : bool :=
  match resources with
  | [] => false
  | r :: resources' =>
      if (length p <? length r)%nat then StartWithResources p resources'
      else if matches_resource p r then true else StartWithResources p resources'
  end.

(** ** Permissions (rbac/permission_map.go) *)

Definition RbacVerbAny := "*".
Definition RbacVerbRead := "read".
Definition RbacVerbWrite := "write".
Definition RbacVerbUpload := "upload".
Definition RbacVerbUndefined := "".
Definition ResourceRepositories := "repositories".
Definition ResourceTemplates := "templates".
Definition ResourceAny := "*".
Definition ResourceUndefined := "".

Record rbacEntry := mk_rbacEntry { resource : string; verb : string }.

(** method -> path -> entry *)
Abbreviation PermissionsMap := (gmap string (gmap string rbacEntry)).
Definition NewPermissionsMap : PermissionsMap := ∅.

(** [None]: no permission found. *)
Definition Permission (pm : PermissionsMap) (method path : string) : option (string * string) :=
  let path := trim_char slash path in
  match pm !! method with
  | Some paths => match paths !! path with
                  | Some permission => Some (permission.(resource), permission.(verb))
                  | None => None
                  end
  | None => None
  end.

(** The map afterwards, and whether the result is non-nil. The entry of a known path is read into a
    variable, and the assignments to that variable do not reach the map. *)
Definition Add (pm : PermissionsMap) (method path res v : string) : PermissionsMap * bool :=
  if (method == "") || (path == "") || (res == "") || (v == "") then (pm, false) else
  if (res == "*") || (v == "*") then (pm, false) else
  let path := trim_char slash path in
  match pm !! method with
  | Some paths =>
      match paths !! path with
      | Some permission => (pm, true)
      | None => (<[method := <[path := mk_rbacEntry res v]> paths]> pm, true)
      end
  | None => (<[method := {[path := mk_rbacEntry res v]}]> pm, true)
  end.

(** ** The RBAC client (rbac/client_wrapper.go) *)

Section Client.
(** The access lists of rbac-client-go, and its [IsAllowed(application, resource, verb)]. *)
Context {AccessList : Type} (empty_list : AccessList) (IsAllowed : AccessList → string → string → string → bool).

Definition application := "content-sources".

(** What one call sees: the cache, if there is one, with what it holds and whether storing into it
    fails, and the answer of the RBAC service. *)
Record rbac_env := mk_rbac_env {
  re_cache : option (option AccessList * option string);
  re_access : string + AccessList
}.

Inductive allowed_result :=
  | Allowed_is (b : bool)
  | Allowed_err (msg : string)
  | Allowed_panic.   (* the cache is nil *)

(** The answer, and the list stored into the cache. *)
Definition Allowed (env : rbac_env) (res v : string) : allowed_result * option AccessList :=
  match env.(re_cache) with
  | Some (Some acl, _) => (Allowed_is (IsAllowed acl application res v), None)
  | _ =>
      match env.(re_access), env.(re_cache) with
      | _, None => (Allowed_panic, None)
      | inl _, Some (_, Some set_err) => (Allowed_err set_err, None)
      | inl _, Some (_, None) => (Allowed_is false, Some empty_list)
      | inr acl, Some (_, Some _) => (Allowed_is (IsAllowed acl application res v), None)
      | inr acl, Some (_, None) => (Allowed_is (IsAllowed acl application res v), Some acl)
      end
  end.
End Client.

(** ** Kessel (rbac/kessel.go) *)

Definition mapToKesselPermission (res v : string) : string :=
  if (res == ResourceAny) || (res == ResourceUndefined) || (res == "") then "" else
  let kesselVerb :=
    if v == RbacVerbRead then Some "view"
    else if v == RbacVerbWrite then Some "edit"
    else if v == RbacVerbUpload then Some "upload"
    else None in
  match kesselVerb with
  | None => ""
  | Some kv =>
      let kesselResource :=
        if res == ResourceRepositories then "repository"
        else if res == ResourceTemplates then "template"
        else "" in
      "content_sources_" +:+ kesselResource +:+ "_" +:+ kv
  end.

(** The identity of a request, as far as the middlewares read it. *)
Record Identity := mk_Identity {
  id_Type : string;
  id_OrgID : string;
  id_InternalOrgID : string;
  id_AccountNumber : string;
  id_Username : option string;        (* User, if present *)
  id_ServiceAccount : bool
}.

(** The Kessel client: the default workspace of an organisation, and the two checks. *)
Record KesselClient := mk_KesselClient {
  GetDefaultWorkspaceID : string → string + string;
  CheckRead : string → string → string + bool;
  CheckWrite : string → string → string + bool
}.

Definition KesselAllowed (k : KesselClient) (id : Identity) (res v : string) : string + bool :=
  match id.(id_Username), id.(id_ServiceAccount) with
  | None, false => inl "no user or service account identity found in context"
  | _, _ =>
      match k.(GetDefaultWorkspaceID) id.(id_OrgID) with
      | inl e => inl ("failed to get root workspace ID: " +:+ e)
      | inr workspaceID =>
          let p := mapToKesselPermission res v in
          if v == RbacVerbRead then k.(CheckRead) workspaceID p else k.(CheckWrite) workspaceID p
      end
  end.

(** ** Requests *)

Record Request := mk_Request {
  rq_Method : string;
  rq_Path : string;        (* c.Path(): the pattern of the matched route *)
  rq_XrhidHeader : string;
  rq_Identity : Identity
}.

(** middleware/utils.go *)
Definition MatchedRoute (routes : list string) (pathx : string) : string :=
  if contains routes pathx then pathx else "".

(** middleware/rbac.go: what the middleware does with a request. *)
Inductive decision := Next | ErrBadRequest | ErrNotFound | ErrUnauthorized | Panic.

#[global] Instance decision_eq_dec : EqDecision decision.
Proof. solve_decision. Defined.

Section RbacMiddleware.
Context (routes : list string) (skipper : option (Request → bool)) (pm : PermissionsMap).
(** Whether the Kessel feature is on for the request, and the two clients' answers. *)
Context (useKessel : Request → bool) (kesselAllowed rbacAllowed : Request → string → string → string + bool).

Definition NewRbac (r : Request) : decision :=
  if match skipper with Some f => f r | None => false end then Next else
  match RemovePrefixes (NewPathWithString (MatchedRoute routes r.(rq_Path))) with
  | None => Panic
  | Some comps =>
      let path := strings_Join "/" comps in
      if path == "" then ErrBadRequest else
      match Permission pm r.(rq_Method) path with
      | None => ErrNotFound
      | Some (res, v) =>
          if r.(rq_XrhidHeader) == "" then ErrUnauthorized else
          match (if useKessel r then kesselAllowed r res v else rbacAllowed r res v) with
          | inl _ => ErrUnauthorized
          | inr false => ErrUnauthorized
          | inr true => Next
          end
      end
  end.
End RbacMiddleware.

(** middleware/enforce_identity.go *)

Definition SkipAuth (p : string) : bool :=
  let skipped := ["/ping"; "/openapi.json"; "/repository_gpg_key/:uuid"] in
  contains skipped p || contains skipped (TrimSuffix p "/").

Definition SkipRbac (internalUser : string) (r : Request) (p : string) : bool :=
  let skipped := ["/templates/:template_uuid/config.repo"] in
  (contains skipped p && (r.(rq_Identity).(id_Type) == "System")) ||
  ((p == "/templates/:uuid/advisories/ids") && (r.(rq_Identity).(id_Username) == Some internalUser) &&
   (r.(rq_Method) == "GET")).

Definition getPath (routes : list string) (fullRootPath : string) (r : Request) : string :=
  let path := MatchedRoute routes r.(rq_Path) in
  if path == "" then path else
  let lengthOfPrefix := length (strings_Split slash fullRootPath) in
  let splitPath := strings_Split slash path in
  if (lengthOfPrefix <? length splitPath)%nat
  then "/" +:+ strings_Join "/" (drop lengthOfPrefix splitPath) else path.

Definition SkipMiddleware (routes : list string) (fullRootPath internalUser : string) (r : Request) : bool :=
  let p := getPath routes fullRootPath r in SkipRbac internalUser r p || SkipAuth p.

(** [None]: the request goes on; [Some d]: 403 with that detail. *)
Definition EnforceOrgId (id : Identity) : option string :=
  if (id.(id_InternalOrgID) == RedHatOrg) || (id.(id_OrgID) == RedHatOrg) then Some "Org ID cannot be -1"
  else if (id.(id_InternalOrgID) == CommunityOrg) || (id.(id_OrgID) == CommunityOrg) then Some "Org ID cannot be -2"
  else if (id.(id_InternalOrgID) == LightwellOrg) || (id.(id_OrgID) == LightwellOrg) then Some "Org ID cannot be -3"
  else None.

(** ** middleware/enforce_consistent_org_id.go *)

(** A decoded JSON value. *)
Inductive json :=
  | JNull
  | JBool (x : bool)
  | JNumber (x : string)
  | JString (x : string)
  | JArray (x : list json)
  | JObject (x : list (string * json)).

(** A decoded object keeps the last value of a key. *)
Fixpoint jget (k : string) (o : list (string * json)) : option json :=
  match o with
  | [] => None
  | (k', v) :: o' => match jget k o' with Some v' => Some v' | None => if k == k' then Some v else None end
  end.

Definition org_id_field (o : list (string * json)) : list string :=
  match jget "org_id" o with
  | Some (JString s) => if s != "" then [s] else []
  | _ => []
  end.

Definition extractOrgIds (response : list (string * json)) : list string :=
  (org_id_field response ++
   match jget "data" response with
   | Some (JArray items) => flat_map (λ item, match item with JObject o => org_id_field o | _ => [] end) items
   | Some (JObject o) => org_id_field o
   | _ => []
   end)%list.

(** A response body: its bytes, and what [json.Unmarshal] into a map makes of them. *)
Record Body := mk_Body { bytes : string; decoded : option (list (string * json)) }.

Record Response := mk_Response {
  rs_code : Z;
  rs_headers : gmap string (list string);
  rs_body : Body
}.

(** What the middleware returns: an error, and nothing is written, or what the client receives. *)
Inductive outcome :=
  | HandlerError (msg : string)            (* the handler's own error *)
  | MissingOrgId                           (* 400 *)
  | OrgIdMismatch                          (* 500 *)
  | Written (code : Z) (headers : gmap string (list string)) (body : string)
  | Skipped.

Definition SkipEnforceConsistentOrgId (path : string) : bool :=
  contains ["/admin/tasks/"; "/admin/tasks/:uuid"; "/admin/features/"; "/admin/features/:name/content/";
            "/rpms/names"; "/package_groups/names"; "/environments/names"; "/module_streams/search"] path.

(** [Header().Set] for each value in turn: the last one stays. *)
Definition copy_headers (from to : gmap string (list string)) : gmap string (list string) :=
  map_imap (λ _ values, match last values with Some v => Some [v] | None => None end) from ∪ to.

Definition org_id_allowed (orgId responseOrgId : string) : bool :=
  (responseOrgId == orgId) || (responseOrgId == RedHatOrg) || (responseOrgId == CommunityOrg) ||
  (responseOrgId == LightwellOrg) || (responseOrgId == LightwellDemoOrg).

Section OrgMiddleware.
Context (routes : list string) (fullRootPath internalUser : string).

Definition EnforceConsistentOrgId (r : Request) (original : gmap string (list string))
    (next : string + Response) : outcome :=
  if SkipMiddleware routes fullRootPath internalUser r then Skipped else
  if SkipEnforceConsistentOrgId (getPath routes fullRootPath r) then Skipped else
  let orgId := r.(rq_Identity).(id_InternalOrgID) in
  if orgId == "" then MissingOrgId else
  match next with
  | inl e => HandlerError e
  | inr rec =>
      let write := Written rec.(rs_code) (copy_headers rec.(rs_headers) original) rec.(rs_body).(bytes) in
      if (rec.(rs_code) =? 200)%Z && (rec.(rs_body).(bytes) != "") then
        match rec.(rs_body).(decoded) with
        | None => write
        | Some response =>
            if forallb (org_id_allowed orgId) (extractOrgIds response) then write else OrgIdMismatch
        end
      else write
  end.
End OrgMiddleware.
