(* ===== verification/AccessThms.v ===== *)
(** * Access control: the properties

    End to end from the registration of a route to the decision on a request, and the guarantees of
    the organisation checks. *)

From S2P Require Import Prelude GoStrings GoSplit Config Access.
From stdpp Require Import options.

Open Scope string_scope.

(** ** Paths *)

(** The components of a path that survives printing and parsing: none holds a slash and the last is
    not empty. *)
Definition path_ok (l : list string) : Prop :=
  Forall (λ x, slash ∉ chars x) l ∧ ∃ x, last l = Some x ∧ x ≠ "".

Lemma drop_empty_tail_id l : (∃ x, last l = Some x ∧ x ≠ "") → drop_empty_tail l = l.
Proof.
  intros (x & Hl & Hx). induction l as [|y l IH]; [done|]. simpl.
  destruct l as [|z l]; simpl in *.
  - simplify_eq. by rewrite bool_decide_false.
  - rewrite IH by done. done.
Qed.

Lemma strings_Join_cons_ne x l : l ≠ [] → strings_Join "/" (x :: l) = x +:+ String slash (strings_Join "/" l).
Proof. intros. rewrite join_cons by done. by rewrite str_app_cons, str_app_nil. Qed.

(** Printing a path and parsing it again. *)
Lemma path_roundtrip l : path_ok l → NewPathWithString ("/" +:+ strings_Join "/" l) = l.
Proof.
  intros [Hns (x & Hl & Hx)]. assert (l ≠ []) as Hne by by intros ->.
  rewrite str_app_cons, str_app_nil. unfold NewPathWithString.
  assert (strings_Join "/" l ≠ "") as Hj.
  { intros Hj. assert (strings_Split slash (strings_Join "/" l) = l) as Hs by by apply split_join.
    rewrite Hj in Hs. simpl in Hs. subst l. simpl in Hl. by simplify_eq. }
  rewrite (bool_decide_false (_ = "")) by done.
  rewrite (bool_decide_false (_ = "/")) by (intros [= H]; done). simpl.
  rewrite (split_join slash) by done. apply drop_empty_tail_id. eauto.
Qed.

(** The prefixes every route of the service is registered under. *)
Definition prefix (beta : bool) (version : string) : list string :=
  ((if beta then ["beta"] else []) ++ ["api"; "content-sources"; version])%list.

Lemma RemovePrefixes_prefix beta c version l :
  l ≠ [] → c = "v"%char → RemovePrefixes (prefix beta (String c version) ++ l)%list = Some l.
Proof.
  intros Hl ->. destruct l as [|x l]; [done|]. unfold RemovePrefixes.
  by destruct beta.
Qed.

(** Paths round trip: printing components and parsing the result gives them back; a path under the
    service's prefix (with or without beta, any version v...) loses exactly that prefix; and
    [RemovePrefixes] panics exactly on a long enough path under the prefix whose version component is
    empty, such as "/api/content-sources//x". *)
Theorem path_prefixes beta version l p :
  l ≠ [] → path_ok (prefix beta ("v" +:+ version) ++ l) →
  NewPathWithString ("/" +:+ strings_Join "/" (prefix beta ("v" +:+ version) ++ l)) = (prefix beta ("v" +:+ version) ++ l)%list ∧
  RemovePrefixes (prefix beta ("v" +:+ version) ++ l) = Some l ∧
  (RemovePrefixes p = None ↔ ∃ bt q, p = (prefix bt "" ++ q)%list ∧ q ≠ []).
Proof.
  intros Hl Hok. split_and!.
  - by apply path_roundtrip.
  - rewrite str_app_cons, str_app_nil. by apply RemovePrefixes_prefix.
  - split.
    + unfold RemovePrefixes.
      destruct p as [|a [|c [|d [|e p]]]]; try done. simpl.
      destruct (decide (a = "beta")) as [->|Hb].
      * rewrite (bool_decide_true ("beta" = "beta")) by done. simpl.
        destruct p as [|f p]; [done|]. simpl.
        destruct (decide (c = "api")) as [->|Hc]; [|by rewrite (bool_decide_false (c = "api"))].
        destruct (decide (d = "content-sources")) as [->|Hd]; [|by rewrite (bool_decide_false (d = "content-sources"))].
        simpl. destruct e as [|ch e]; [|by case_match]. intros _. by exists true, (f :: p).
      * rewrite (bool_decide_false (a = "beta")) by done. simpl.
        destruct (decide (a = "api")) as [->|Hc]; [|by rewrite (bool_decide_false (a = "api"))].
        destruct (decide (c = "content-sources")) as [->|Hd]; [|by rewrite (bool_decide_false (c = "content-sources"))].
        simpl. destruct d as [|ch d]; [|by case_match]. intros _. by exists false, (e :: p).
    + intros (bt & q & -> & Hq). destruct q as [|x q]; [done|]. by destruct bt.
Qed.

Lemma path_prefixes_witness :
  RemovePrefixes (prefix true "v1.0" ++ ["repositories"; ":uuid"]) = Some ["repositories"; ":uuid"] ∧
  RemovePrefixes ["api"; "content-sources"; ""; "x"] = None.
Proof.
  destruct (path_prefixes true "1.0" ["repositories"; ":uuid"] ["api"; "content-sources"; ""; "x"]) as (_ & H & H').
  - done.
  - split; [repeat constructor; by apply (bool_decide_unpack _)|by exists ":uuid"].
  - split; [exact H|]. apply H'. by exists false, ["x"].
Defined.

(** ** Permissions *)

Definition add_valid (method path res v : string) : Prop :=
  method ≠ "" ∧ path ≠ "" ∧ res ≠ "" ∧ v ≠ "" ∧ res ≠ "*" ∧ v ≠ "*".

Lemma Add_valid pm method path res v :
  add_valid method path res v →
  Add pm method path res v =
    (match Permission pm method path with
     | Some _ => pm
     | None => <[method := <[trim_char slash path := mk_rbacEntry res v]> (default ∅ (pm !! method))]> pm
     end, true).
Proof.
  intros (H1 & H2 & H3 & H4 & H5 & H6). unfold Add, Permission.
  rewrite (bool_decide_false (method = "")), (bool_decide_false (path = "")), (bool_decide_false (res = "")),
    (bool_decide_false (v = "")), (bool_decide_false (res = "*")), (bool_decide_false (v = "*")) by done.
  simpl. destruct (pm !! method) as [paths|] eqn:E; simpl; [|done].
  by destruct (paths !! trim_char slash path).
Qed.

Lemma Permission_Add pm method path res v m2 p2 :
  add_valid method path res v →
  Permission (Add pm method path res v).1 m2 p2 =
    if decide (m2 = method ∧ trim_char slash p2 = trim_char slash path)
    then Some (default (res, v) (Permission pm method path)) else Permission pm m2 p2.
Proof.
  intros H. rewrite Add_valid by done. simpl. case_decide as Hd.
  - destruct Hd as [-> Hp]. destruct (Permission pm method path) as [[r' v']|] eqn:E; simpl.
    + unfold Permission in *. by rewrite Hp.
    + unfold Permission. rewrite lookup_insert_eq. simpl. by rewrite Hp, lookup_insert_eq.
  - destruct (Permission pm method path) as [?|]; [done|]. unfold Permission.
    destruct (decide (m2 = method)) as [->|Hm].
    + rewrite lookup_insert_eq. simpl. rewrite lookup_insert_ne by (intros ?; by destruct Hd).
      destruct (pm !! method); simpl; [done|]. by rewrite lookup_empty.
    + by rewrite lookup_insert_ne.
Qed.

(** The permission map: a lookup after [Add], with any leading or trailing slashes, gives the resource and
    verb first registered for that method and path and leaves all others alone; a second [Add] for
    the same method and path is accepted but has no effect; an invalid one (an empty argument or a
    wildcard) is refused without effect. *)
Theorem permissions_first_registration_wins pm method path res v :
  (add_valid method path res v →
   (Add pm method path res v).2 = true ∧
   ∀ m2 p2, Permission (Add pm method path res v).1 m2 p2 =
     if decide (m2 = method ∧ trim_char slash p2 = trim_char slash path)
     then Some (default (res, v) (Permission pm method path)) else Permission pm m2 p2) ∧
  (¬ add_valid method path res v → Add pm method path res v = (pm, false)).
Proof.
  split.
  - intros H. split; [by rewrite Add_valid|]. intros. by apply Permission_Add.
  - intros H. unfold Add.
    destruct (bool_decide (method = "") || _ || _ || _) eqn:E1; [done|].
    destruct (bool_decide (res = "*") || _) eqn:E2; [done|]. destruct H.
    repeat (match goal with H : _ || _ = false |- _ => apply orb_false_iff in H as [? ?] end).
    unfold add_valid. split_and!; by eapply bool_decide_eq_false.
Qed.

(** ** Routes

    The pattern of a route: the components below the prefix, and a slash at the end or not. *)
Definition route_end (slashed : bool) : list string := if slashed then [""] else [].
Definition route (beta : bool) (version : string) (comps : list string) (slashed : bool) : string :=
  "/" +:+ strings_Join "/" (prefix beta ("v" +:+ version) ++ comps ++ route_end slashed).

(** The requests the service lets through without a check of permissions. *)
Definition exempt (internalUser : string) (r : Request) (comps : list string) (slashed : bool) : bool :=
  contains [["ping"]; ["openapi.json"]; ["repository_gpg_key"; ":uuid"]] comps ||
  negb slashed &&
  ((comps == ["templates"; ":template_uuid"; "config.repo"]) && (r.(rq_Identity).(id_Type) == "System") ||
   (comps == ["templates"; ":uuid"; "advisories"; "ids"]) && (r.(rq_Identity).(id_Username) == Some internalUser) && (r.(rq_Method) == "GET")).

Definition slash_free (l : list string) : Prop := Forall (λ x, slash ∉ chars x) l.

Lemma split_path l : l ≠ [] → slash_free l → strings_Split slash ("/" +:+ strings_Join "/" l) = "" :: l.
Proof. intros Hne Hl. rewrite str_app_cons, str_app_nil. simpl. by rewrite (split_join slash). Qed.

Lemma path_inj l l' : l ≠ [] → l' ≠ [] → slash_free l → slash_free l' →
  "/" +:+ strings_Join "/" l = "/" +:+ strings_Join "/" l' ↔ l = l'.
Proof.
  intros Hne Hne' Hl Hl'. split; [|by intros ->]. intros H%(f_equal (strings_Split slash)). rewrite !split_path in H by done. by simplify_eq.
Qed.

Lemma join_slash l : l ≠ [] → strings_Join "/" (l ++ [""]) = strings_Join "/" l +:+ "/".
Proof.
  induction l as [|x l IH]; [done|]. intros _. destruct l as [|y l]; [done|].
  rewrite <-app_comm_cons, (join_cons _ x), (join_cons _ x), IH by done. by rewrite !str_app_assoc.
Qed.

Lemma split_snoc c s : strings_Split c (s +:+ String c "") = (strings_Split c s ++ [""])%list.
Proof.
  induction s as [|a s IH]; [rewrite str_app_nil; simpl; by rewrite bool_decide_true|].
  rewrite str_app_cons. simpl. rewrite IH. case_bool_decide; [done|]. pose proof (split_nonempty c s). by destruct (strings_Split c s).
Qed.

Lemma TrimSuffix_snoc s c : TrimSuffix (s +:+ String c "") (String c "") = s.
Proof.
  unfold TrimSuffix, HasSuffix. rewrite chars_app, reverse_app. simpl. rewrite bool_decide_true by done. simpl.
  rewrite length_app. simpl. rewrite Nat.add_sub, take_app_length. apply of_chars_chars.
Qed.

Lemma HasSuffix_snoc s c : HasSuffix s (String c "") = true → ∃ q, s = q +:+ String c "".
Proof.
  unfold HasSuffix. simpl. destruct (reverse (chars s)) as [|a l] eqn:E; [done|]. simpl. rewrite andb_true_r. intros ->%bool_decide_eq_true.
  exists (of_chars (reverse l)). rewrite <-(of_chars_chars s), <-(of_chars_chars (_ +:+ _)). f_equal.
  rewrite chars_app, chars_of_chars. rewrite <-(reverse_involutive (chars s)), E. by rewrite reverse_cons.
Qed.

(** A trailing slash is what [TrimSuffix] removes. *)
Lemma trim_route comps slashed : path_ok comps → TrimSuffix ("/" +:+ strings_Join "/" (comps ++ route_end slashed)) "/" = "/" +:+ strings_Join "/" comps.
Proof.
  intros [Hf (x & Hx & Hne)]. assert (comps ≠ []) as Hc by by intros ->. destruct slashed; simpl.
  - rewrite join_slash, str_app_assoc by done. apply TrimSuffix_snoc.
  - rewrite app_nil_r. unfold TrimSuffix. destruct (HasSuffix _ "/") eqn:E; [|done]. exfalso.
    apply HasSuffix_snoc in E as (q & E). apply (f_equal (strings_Split slash)) in E. rewrite split_path in E by done.
    rewrite (split_snoc slash) in E. apply (f_equal last) in E. rewrite last_snoc, last_cons, Hx in E. congruence.
Qed.

Lemma route_slash_free comps slashed : path_ok comps → slash_free (comps ++ route_end slashed).
Proof. intros [Hf _]. apply Forall_app. split; [done|]. destruct slashed; repeat constructor. by intros ?%not_elem_of_nil. Qed.

Lemma literal_path p comps :
  comps ≠ [] → slash_free comps → bool_decide ("/" +:+ strings_Join "/" comps = String "/"%char p) = (comps == strings_Split slash p).
Proof.
  intros Hne Hf. apply bool_decide_ext. rewrite <-(path_inj comps) by (done || apply split_nonempty || apply split_no_sep).
  change "/" with (String slash "") at 4. by rewrite join_split.
Qed.

Lemma slashed_literal comps x l : last l = Some x → x ≠ "" → (comps ++ [""])%list ≠ l.
Proof. intros Hl Hx <-. rewrite last_snoc in Hl. congruence. Qed.

(** The skipper lets through exactly the exempt requests. *)
Lemma SkipMiddleware_exempt routes beta root version comps slashed internalUser r :
  comps ≠ [] → path_ok (prefix beta ("v" +:+ version) ++ comps) → slash ∉ chars root →
  r.(rq_Path) = route beta version comps slashed → r.(rq_Path) ∈ routes →
  SkipMiddleware routes ("/" +:+ strings_Join "/" (prefix beta root)) internalUser r = exempt internalUser r comps slashed.
Proof.
  intros Hne [Hf Hlast] Hroot Hp Hin. unfold SkipMiddleware.
  apply Forall_app in Hf as [Hpre Hf]. assert (path_ok comps) as Hok.
  { split; [done|]. rewrite last_app in Hlast. destruct (last comps) eqn:E; [done|]. by apply last_None in E. }
  assert (getPath routes ("/" +:+ strings_Join "/" (prefix beta root)) r = "/" +:+ strings_Join "/" (comps ++ route_end slashed)) as ->.
  { unfold getPath, MatchedRoute. apply contains_true in Hin as ->. rewrite Hp. rewrite bool_decide_false by done. unfold route.
    rewrite (split_path (prefix beta root)); [|by destruct beta|].
    2: { destruct beta; repeat (constructor; [by_decide || done|]); constructor. }
    rewrite split_path; [|by destruct beta|apply Forall_app; split; [done|by apply route_slash_free]].
    destruct comps as [|x comps]; [done|]. by destruct beta. }
  unfold SkipRbac, SkipAuth, exempt. rewrite trim_route by done.
  pose proof (route_slash_free comps slashed Hok) as Hf'.
  assert (comps ++ route_end slashed ≠ [])%list as Hne' by by destruct comps.
  pose proof (λ p, literal_path p _ Hne' Hf') as Hlit'. pose proof (λ p, literal_path p _ Hne Hf) as Hlit.
  unfold contains. cbn [existsb]. rewrite !Hlit, !Hlit', !orb_false_r.
  change (strings_Split slash "templates/:template_uuid/config.repo") with ["templates"; ":template_uuid"; "config.repo"].
  change (strings_Split slash "templates/:uuid/advisories/ids") with ["templates"; ":uuid"; "advisories"; "ids"].
  change (strings_Split slash "ping") with ["ping"]. change (strings_Split slash "openapi.json") with ["openapi.json"].
  change (strings_Split slash "repository_gpg_key/:uuid") with ["repository_gpg_key"; ":uuid"].
  destruct slashed; cbn [route_end negb andb].
  - rewrite !(bool_decide_false (_ ++ [""] = _)%list) by (eapply slashed_literal; [reflexivity|discriminate]). cbn [orb andb]. by rewrite !orb_false_r.
  - rewrite app_nil_r. set (a := bool_decide (comps = ["ping"]) || _). by destruct a; rewrite ?orb_true_r, ?orb_false_r.
Qed.

(** A path below the prefix is looked up without its trailing slash. *)
Lemma drop_empty_tail_slash l : (∃ x, last l = Some x ∧ x ≠ "") → drop_empty_tail (l ++ [""]) = l.
Proof.
  intros (x & Hl & Hx). induction l as [|y l IH]; [done|]. simpl. destruct l as [|z l]; simpl in *.
  - simplify_eq. by rewrite bool_decide_false.
  - by rewrite IH.
Qed.

Lemma route_components l slashed : path_ok l → NewPathWithString ("/" +:+ strings_Join "/" (l ++ route_end slashed)) = l.
Proof.
  intros Hok. destruct slashed; simpl; [|rewrite app_nil_r; by apply path_roundtrip]. destruct Hok as [Hf (x & Hl & Hx)].
  assert (l ≠ []) as Hne by by intros ->. pose proof (split_path l Hne Hf) as Hs. rewrite join_slash, str_app_assoc by done.
  unfold NewPathWithString. rewrite (str_app_cons _ "" (strings_Join "/" l)), str_app_nil, str_app_cons in *.
  rewrite (bool_decide_false (_ = "")) by done. rewrite (bool_decide_false (_ = "/")).
  2: { intros [= H]. by destruct (strings_Join "/" l). }
  simpl in *. injection Hs as Hs. rewrite (split_snoc slash), Hs.
  apply drop_empty_tail_slash. eauto.
Qed.

(** [C37] End to end: what guards a registered route, behind the service's own skipper. A request to a route registered with [Add]
    under the service's prefix, with or without a slash at the end, goes through without a check exactly when it is exempt:
    the ping, the OpenAPI document, a repository's GPG key, a template's config.repo for a system, the advisory ids of a
    template for the internal user. Any other goes through precisely when it has an identity header and the client in
    charge (Kessel or RBAC) answers, without error, that the resource and verb are allowed; otherwise it is unauthorized.
    The resource and verb are those of the first registration of the method and path: an earlier one is not replaced. *)
Theorem registered_route_guarded routes root internalUser pm useKessel kessel rbac beta version comps slashed method res v r :
  comps ≠ [] → path_ok (prefix beta ("v" +:+ version) ++ comps) → slash ∉ chars root →
  add_valid method (strings_Join "/" comps) res v →
  r.(rq_Method) = method → r.(rq_Path) = route beta version comps slashed → r.(rq_Path) ∈ routes →
  NewRbac routes (Some (SkipMiddleware routes ("/" +:+ strings_Join "/" (prefix beta root)) internalUser))
      (Add pm method (strings_Join "/" comps) res v).1 useKessel kessel rbac r =
    if exempt internalUser r comps slashed then Next
    else if r.(rq_XrhidHeader) == "" then ErrUnauthorized
    else let '(res', v') := default (res, v) (Permission pm method (strings_Join "/" comps)) in
         match (if useKessel r then kessel r res' v' else rbac r res' v') with
         | inr true => Next
         | _ => ErrUnauthorized
         end.
Proof.
  intros Hne Hok Hroot Hadd Hm Hp Hroute. unfold NewRbac.
  rewrite (SkipMiddleware_exempt routes beta root version comps slashed) by done. destruct (exempt _ _ _ _); [done|].
  unfold MatchedRoute. apply contains_true in Hroute as ->. rewrite Hp. unfold route. rewrite app_assoc, route_components by done.
  rewrite str_app_cons, str_app_nil. rewrite RemovePrefixes_prefix by done.
  destruct Hadd as (? & Hpath & Hrest). rewrite (bool_decide_false (strings_Join "/" comps = "")) by done.
  rewrite Permission_Add by done. rewrite Hm, decide_True by done.
  destruct (default (res, v) _) as [res' v']. case_bool_decide; [done|]. by destruct (if useKessel r then _ else _) as [|[]].
Qed.

Definition ex_identity : Identity := mk_Identity "User" "1" "1" "acc" (Some "u") false.
Definition ex_decide (path : string) (comps : list string) (allowed : bool) : decision :=
  NewRbac [path] (Some (SkipMiddleware [path] "/api/content-sources/v1.0" "internal"))
    (Add NewPermissionsMap "GET" (strings_Join "/" comps) "repositories" "read").1
    (λ _, false) (λ _ _ _, inl "") (λ _ _ _, inr allowed) (mk_Request "GET" path "abc" ex_identity).

Lemma registered_route_guarded_witness :
  ex_decide "/api/content-sources/v1.0/repositories/:uuid" ["repositories"; ":uuid"] true = Next ∧
  ex_decide "/api/content-sources/v1.0/repositories/" ["repositories"] false = ErrUnauthorized ∧
  ex_decide "/api/content-sources/v1.0/repository_gpg_key/:uuid" ["repository_gpg_key"; ":uuid"] false = Next.
Proof.
  assert (∀ comps slashed allowed x, last comps = Some x → x ≠ "" → slash_free comps → strings_Join "/" comps ≠ "" →
    ex_decide (route false "1.0" comps slashed) comps allowed =
      if exempt "internal" (mk_Request "GET" (route false "1.0" comps slashed) "abc" ex_identity) comps slashed then Next
      else if allowed then Next else ErrUnauthorized) as H.
  { intros comps slashed allowed x Hl Hx Hf Hj. unfold ex_decide. assert (comps ≠ []) as Hne by by intros ->.
    refine (eq_trans (registered_route_guarded [route false "1.0" comps slashed] "v1.0" "internal" NewPermissionsMap (λ _, false) (λ _ _ _, inl "")
      (λ _ _ _, inr allowed) false "1.0" comps slashed "GET" "repositories" "read" (mk_Request "GET" (route false "1.0" comps slashed) "abc" ex_identity) _ _ _ _ _ _ _) _).
    - exact Hne.
    - split; [apply Forall_app; split; [repeat (constructor; [by_decide|]); constructor|exact Hf]|exists x; split; [|exact Hx]].
      rewrite last_app, Hl. reflexivity.
    - by_decide.
    - by split_and!.
    - reflexivity.
    - reflexivity.
    - left.
    - reflexivity. }
  split_and!.
  - apply (H ["repositories"; ":uuid"] false true ":uuid"); try done. by_decide.
  - apply (H ["repositories"] true false "repositories"); try done. by_decide.
  - apply (H ["repository_gpg_key"; ":uuid"] false false ":uuid"); try done. by_decide.
Defined.

(** ** The clients *)

(** The RBAC client fails closed: it answers yes only on the strength of an access list, cached or just
    fetched, that allows the resource and verb; and after a failed fetch it answers no and caches the
    empty list, whose answers later calls then get until the entry expires. *)
Theorem rbac_client_fails_closed {AccessList} (empty : AccessList) IsAllowed env res v b stored :
  Allowed empty IsAllowed env res v = (Allowed_is b, stored) →
  (b = true → ∃ acl, IsAllowed acl application res v = true ∧
     ((∃ e, env.(re_cache) = Some (Some acl, e)) ∨ env.(re_access) = inr acl)) ∧
  (∀ e, env.(re_access) = inl e → env.(re_cache) = Some (None, None) → b = false ∧ stored = Some empty).
Proof.
  unfold Allowed. destruct env as [[[[acl|] [se|]]|] [err|acl']]; simpl; intros H; simplify_eq;
    (split; [|by intros]); intros Hb; try done; eauto 10.
Qed.

Lemma rbac_client_fails_closed_witness :
  let allowed (l : list (string * string)) (_ : string) (res v : string) := contains l (res, v) in
  Allowed [] allowed (mk_rbac_env (Some (None, None)) (inl "timeout")) "repositories" "read" =
    (Allowed_is false, Some []) ∧ (false = false ∧ Some (@nil (string * string)) = Some []).
Proof.
  intros allowed. split; [reflexivity|].
  apply (rbac_client_fails_closed [] allowed (mk_rbac_env (Some (None, None)) (inl "timeout")) "repositories"
           "read" false (Some []) eq_refl) with "timeout"; reflexivity.
Defined.

(** ** Organisations *)

(** The objects of a response whose [org_id] the middleware looks at. *)
Definition visible_object (response o : list (string * json)) : Prop :=
  o = response ∨ jget "data" response = Some (JObject o) ∨
  ∃ items, jget "data" response = Some (JArray items) ∧ JObject o ∈ items.

Lemma org_id_field_elem o org : org ∈ org_id_field o ↔ jget "org_id" o = Some (JString org) ∧ org ≠ "".
Proof.
  unfold org_id_field. destruct (jget "org_id" o) as [[]|];
    try (split; [by intros ?%not_elem_of_nil|by intros [? _]]).
  case_bool_decide; simpl.
  - subst. split; [by intros ?%not_elem_of_nil|]. intros [[= <-] ?]. done.
  - rewrite list_elem_of_singleton. split; [by intros ->|by intros [[= ->] _]].
Qed.

Lemma extractOrgIds_elem response org :
  org ∈ extractOrgIds response ↔
  ∃ o, visible_object response o ∧ jget "org_id" o = Some (JString org) ∧ org ≠ "".
Proof.
  unfold extractOrgIds, visible_object. rewrite elem_of_app, org_id_field_elem. split.
  - intros [H|H]; [eauto|].
    destruct (jget "data" response) as [[| | | |items|o]|]; try by apply not_elem_of_nil in H.
    + apply list_elem_of_In, in_flat_map in H as (item & Hin%list_elem_of_In & H%list_elem_of_In).
      destruct item as [| | | | |o]; try by apply not_elem_of_nil in H.
      apply org_id_field_elem in H. exists o. split; [|done]. right. right. eauto.
    + apply org_id_field_elem in H. exists o. auto.
  - intros (o & [->|[Hd|(items & Hd & Hin)]] & H); [by left|right..]; rewrite Hd.
    + by apply org_id_field_elem.
    + apply list_elem_of_In, in_flat_map. exists (JObject o). split; [by apply list_elem_of_In|].
      by apply list_elem_of_In, org_id_field_elem.
Qed.

Definition shared_org (org : string) : Prop :=
  org ∈ [RedHatOrg; CommunityOrg; LightwellOrg; LightwellDemoOrg].

Lemma org_id_allowed_spec orgId org : org_id_allowed orgId org = true ↔ org = orgId ∨ shared_org org.
Proof.
  unfold org_id_allowed, shared_org. rewrite !orb_true_iff, !bool_decide_eq_true, !elem_of_cons.
  rewrite elem_of_nil. tauto.
Qed.

(** No response leaks another organisation's data: on a route that is not exempt, what the client receives
    for a successful JSON response carries, in every object the check looks at, only the caller's own
    or a shared organisation id; conversely a response all of whose ids are such is passed on with
    its status and body, and any other is replaced by an error without a byte of it being written. *)
Theorem org_ids_consistent routes root user r original rec :
  SkipMiddleware routes root user r = false → SkipEnforceConsistentOrgId (getPath routes root r) = false →
  r.(rq_Identity).(id_InternalOrgID) ≠ "" →
  let orgId := r.(rq_Identity).(id_InternalOrgID) in
  let good := ∀ response o org, rec.(rs_code) = 200%Z → rec.(rs_body).(bytes) ≠ "" →
    rec.(rs_body).(decoded) = Some response → visible_object response o →
    jget "org_id" o = Some (JString org) → org ≠ "" → org = orgId ∨ shared_org org in
  (good ∧ EnforceConsistentOrgId routes root user r original (inr rec) =
     Written rec.(rs_code) (copy_headers rec.(rs_headers) original) rec.(rs_body).(bytes)) ∨
  (¬ good ∧ EnforceConsistentOrgId routes root user r original (inr rec) = OrgIdMismatch).
Proof.
  intros Hs1 Hs2 Horg orgId good. unfold EnforceConsistentOrgId. rewrite Hs1, Hs2.
  rewrite (bool_decide_false (_ = "")) by done.
  destruct (decide (rec.(rs_code) = 200%Z ∧ rec.(rs_body).(bytes) ≠ "")) as [[Hc Hb]|Hn].
  - rewrite Hc, (bool_decide_false (bytes _ = "")) by done. simpl.
    destruct (decoded (rs_body rec)) as [response|] eqn:Hd.
    + destruct (forallb _ _) eqn:E; [left|right]; (split; [|done]).
      * intros response' o org _ _ [= <-] Ho Hj Hne. rewrite forallb_forall in E.
        apply org_id_allowed_spec, E, list_elem_of_In, extractOrgIds_elem. eauto.
      * intros Hgood. apply not_true_iff_false in E. apply E, forallb_forall.
        intros org (o & Ho & Hj & Hne)%list_elem_of_In%extractOrgIds_elem.
        apply org_id_allowed_spec. by eapply Hgood.
    + left. split; [|done]. by intros ????? [=].
  - left. split; [intros response o org ? ?; by destruct Hn|].
    destruct (rs_code rec =? 200)%Z eqn:Ec; [|done]. apply Z.eqb_eq in Ec.
    destruct (decide (bytes (rs_body rec) = "")) as [He|He]; [by rewrite He|by destruct Hn].
Qed.

Lemma org_ids_consistent_witness :
  let r := mk_Request "GET" "/api/content-sources/v1.0/repositories/" "abc" ex_identity in
  let leak := mk_Response 200 ∅ (mk_Body "{..}" (Some [("org_id", JString "2")])) in
  EnforceConsistentOrgId [r.(rq_Path)] "/api/content-sources/v1.0" "admin" r ∅ (inr leak) = OrgIdMismatch.
Proof.
  intros r leak.
  destruct (org_ids_consistent [r.(rq_Path)] "/api/content-sources/v1.0" "admin" r ∅ leak) as [[Hgood _]|[_ H]].
  - reflexivity.
  - reflexivity.
  - done.
  - destruct (Hgood [("org_id", JString "2")] [("org_id", JString "2")] "2") as [H|H];
      [done|done|done|by left|done|done|done|]. unfold shared_org in H.
    rewrite !elem_of_cons, elem_of_nil in H. destruct H as [H|[H|[H|[H|H]]]]; done.
  - exact H.
Defined.

(** Callers cannot claim the organisations of shared content: a request goes on exactly when neither of
    its organisation ids is that of Red Hat, the community or Lightwell content. *)
Theorem reserved_orgs_refused id :
  EnforceOrgId id = None ↔
  ∀ org, org = id.(id_InternalOrgID) ∨ org = id.(id_OrgID) → org ∉ [RedHatOrg; CommunityOrg; LightwellOrg].
Proof.
  unfold EnforceOrgId.
  destruct (_ || _) eqn:E1.
  { split; [done|]. intros H. apply orb_true_iff in E1. rewrite !bool_decide_eq_true in E1.
    destruct E1 as [E|E]; [destruct (H (id_InternalOrgID id))|destruct (H (id_OrgID id))]; auto; rewrite E; left. }
  destruct (bool_decide (id_InternalOrgID id = CommunityOrg) || _) eqn:E2.
  { split; [done|]. intros H. apply orb_true_iff in E2. rewrite !bool_decide_eq_true in E2.
    destruct E2 as [E|E]; [destruct (H (id_InternalOrgID id))|destruct (H (id_OrgID id))]; auto; rewrite E;
      right; left. }
  destruct (bool_decide (id_InternalOrgID id = LightwellOrg) || _) eqn:E3.
  { split; [done|]. intros H. apply orb_true_iff in E3. rewrite !bool_decide_eq_true in E3.
    destruct E3 as [E|E]; [destruct (H (id_InternalOrgID id))|destruct (H (id_OrgID id))]; auto; rewrite E;
      right; right; left. }
  split; [|done]. intros _ org Ho. rewrite !elem_of_cons, elem_of_nil.
  repeat (match goal with H : _ || _ = false |- _ => apply orb_false_iff in H as [?%bool_decide_eq_false ?%bool_decide_eq_false] end).
  destruct Ho as [-> | ->]; tauto.
Qed.
