(* ===== verification/Errors.v ===== *)
(** * pkg/errors: errors of the data layer and the HTTP responses made of them *)

From S2P Require Import Prelude GoStrings.
From stdpp Require Import options.

Open Scope string_scope.
Open Scope Z_scope.

(** Go errors: a plain one, one made by [fmt.Errorf("%s: %w", msg, err)], or a [*DaoError]. *)
Inductive goerr :=
  | ErrPlain (msg : string)
  | ErrWrapped (msg : string) (err : goerr)
  | DaoError (Err : option goerr) (Message : string) (NotFound BadValidation AlreadyExists Forbidden : bool).

Fixpoint Error (e : goerr) : string :=
  match e with
  | ErrPlain m => m
  | ErrWrapped m e' => m +:+ ": " +:+ Error e'
  | DaoError None m _ _ _ _ => m
  | DaoError (Some e') _ _ _ _ _ => Error e'
  end.

(** [errors.Unwrap]; a [DaoError] unwraps the error it wraps. *)
Fixpoint Unwrap (e : goerr) : option goerr :=
  match e with
  | ErrPlain _ => None
  | ErrWrapped _ e' => Some e'
  | DaoError None _ _ _ _ _ => None
  | DaoError (Some e') _ _ _ _ _ => Unwrap e'
  end.

(** [e.Wrap(err)] on a [DaoError]. *)
Definition Wrap (e : goerr) (err : goerr) : goerr :=
  match e with
  | DaoError _ m nf bv ae fb => DaoError (Some (ErrWrapped m err)) m nf bv ae fb
  | _ => e
  end.

(** [errors.As(err, &daoError)]: the first [DaoError] of the chain. *)
Fixpoint as_dao (e : goerr) : option goerr :=
  match e with
  | ErrPlain _ => None
  | ErrWrapped _ e' => as_dao e'
  | DaoError _ _ _ _ _ _ => Some e
  end.

Definition HttpCodeForDaoError (err : option goerr) : Z :=
  match err ≫= as_dao with
  | Some (DaoError _ _ nf bv ae fb) =>
      if (nf : bool) then 404 else if (bv : bool) then 400 else if (ae : bool) then 409
      else if (fb : bool) then 403 else 500
  | _ => 500
  end.

Record HandlerError := mk_HandlerError { Status : Z; Title : string; Detail : string }.

Definition NewErrorResponse (code : Z) (title detail : string) : list HandlerError :=
  [mk_HandlerError code title detail].

(** [None]: the method call on a nil error panics. *)
Definition NewErrorResponseFromError (title : string) (errs : list (option goerr)) : option (list HandlerError) :=
  match errs with
  | [] => Some []
  | [None] => None
  | [Some e] => Some [mk_HandlerError (HttpCodeForDaoError (Some e)) title (Error e)]
  | _ => Some ((λ err, match err with
                       | Some e => mk_HandlerError (HttpCodeForDaoError err) title (Error e)
                       | None => mk_HandlerError 0 "" ""
                       end) <$> errs)
  end.

(** The index into [codes] an error is counted under. *)
Definition code_index (code : Z) : nat :=
  if (100 <=? code) && (code <? 200) then 0
  else if ((200 <=? code) && (code <? 300)) || (code =? 0) then 1
  else if (300 <=? code) && (code <? 400) then 2
  else if (400 <=? code) && (code <? 500) then 3
  else 4.

Fixpoint count_codes (errs : list HandlerError) (codes : list Z) : list Z :=
  match errs with
  | [] => codes
  | e :: errs' => count_codes errs' (alter (λ n, n + 1) (code_index e.(Status)) codes)
  end.

(** The scan from the last class down; 0 when no counter is positive. *)
Fixpoint max_index (i : nat) (codes : list Z) : nat :=
  match i with
  | O => 0
  | S i' => if match codes !! i with Some n => 0 <? n | None => false end then i else max_index i' codes
  end.

Definition GetGeneralResponseCode (errs : list HandlerError) : Z :=
  match errs with
  | [] => 200
  | [e] => e.(Status)
  | _ => (Z.of_nat (max_index 4 (count_codes errs [0; 0; 0; 0; 0])) + 1) * 100
  end.

(** middleware/extract_status.go: the status set from the errors of a response. *)
Definition largest_status (errs : list HandlerError) : Z :=
  fold_left (λ largest e, if largest <? e.(Status) then e.(Status) else largest) errs 0.

(** ** Lemmas *)

Lemma code_index_le c : (code_index c ≤ 4)%nat.
Proof. unfold code_index. repeat case_match; lia. Qed.

Lemma count_codes_length errs codes : length (count_codes errs codes) = length codes.
Proof. revert codes. induction errs as [|e errs IH]; intros codes; simpl; [done|]. by rewrite IH, length_alter. Qed.

Lemma count_codes_pos errs codes i n :
  Forall (λ n, 0 ≤ n) codes → count_codes errs codes !! i = Some n →
  0 ≤ n ∧ (0 < n ↔ (∃ k, codes !! i = Some k ∧ 0 < k) ∨ ∃ e, e ∈ errs ∧ code_index e.(Status) = i).
Proof.
  revert codes. induction errs as [|e errs IH]; intros codes Hpos H; simpl in H.
  - rewrite Forall_lookup in Hpos. specialize (Hpos i n H). split; [done|]. split.
    + intros. left. eauto.
    + intros [(k & ? & ?)|(? & ?%not_elem_of_nil & _)]; [|done]. simpl in *. congruence.
  - destruct (IH (alter (λ n, n + 1) (code_index e.(Status)) codes)) as [H0 H1]; [|done|].
    { apply Forall_lookup. intros j m Hj. rewrite Forall_lookup in Hpos.
      destruct (decide (code_index e.(Status) = j)) as [<-|Hne].
      - rewrite list_lookup_alter_eq in Hj. destruct (codes !! _) eqn:E; simplify_eq/=.
        apply Hpos in E. lia.
      - rewrite list_lookup_alter_ne in Hj by done. by eapply Hpos. }
    split; [done|]. rewrite H1. split.
    + intros [(k & Hk & Hlt)|(e' & ? & ?)].
      * destruct (decide (code_index e.(Status) = i)) as [<-|Hne].
        { right. exists e. split; [left|done]. }
        rewrite list_lookup_alter_ne in Hk by done. left. eauto.
      * right. exists e'. split; [by right|done].
    + intros [(k & Hk & Hlt)|(e' & [->|?]%elem_of_cons & Hi)].
      * left. destruct (decide (code_index e.(Status) = i)) as [<-|Hne].
        { exists (k + 1). rewrite list_lookup_alter_eq, Hk. split; [done|lia]. }
        exists k. by rewrite list_lookup_alter_ne.
      * left. assert (i < length codes)%nat as Hlt.
        { apply lookup_lt_Some in H. by rewrite count_codes_length, length_alter in H. }
        apply lookup_lt_is_Some_2 in Hlt as [k Hk]. exists (k + 1). rewrite <- Hi in *.
        rewrite list_lookup_alter_eq, Hk. split; [done|].
        rewrite Forall_lookup in Hpos. specialize (Hpos _ _ Hk). simpl in Hpos. lia.
      * right. eauto.
Qed.

Lemma max_index_spec i codes j n :
  (∃ k m, (k ≤ i)%nat ∧ codes !! k = Some m ∧ 0 < m) → codes !! j = Some n → 0 < n → (j ≤ i)%nat →
  (j ≤ max_index i codes)%nat ∧ ∃ m, codes !! max_index i codes = Some m ∧ 0 < m.
Proof.
  intros _ Hj Hn. induction i as [|i IH]; intros Hle.
  - assert (j = 0)%nat as -> by lia. simpl. eauto.
  - simpl. destruct (codes !! S i) as [m|] eqn:E; [destruct (0 <? m) eqn:Em|].
    + split; [lia|]. exists m. split; [done|lia].
    + apply IH. destruct (decide (j = S i)) as [->|]; [|lia]. simplify_eq. lia.
    + apply IH. destruct (decide (j = S i)) as [->|]; [|lia]. congruence.
Qed.

(** The counters at the start. *)
Definition no_codes : list Z := [0; 0; 0; 0; 0].

(** The code of a response made of several errors is that of the highest class among them (1xx to 5xx;
    an absent error counts as 2xx, an unknown code as 5xx), not of the most common one. *)
Theorem general_code_is_highest_class errs :
  (2 ≤ length errs)%nat →
  ∃ e, e ∈ errs ∧ GetGeneralResponseCode errs = 100 * (Z.of_nat (code_index e.(Status)) + 1) ∧
    ∀ e', e' ∈ errs → (code_index e'.(Status) ≤ code_index e.(Status))%nat.
Proof.
  intros Hlen. destruct errs as [|e1 [|e2 errs]]; simpl in Hlen; [lia..|].
  set (l := e1 :: e2 :: errs) in *.
  assert (∀ e, e ∈ l → ∃ n, count_codes l no_codes !! code_index e.(Status) = Some n ∧ 0 < n) as Hpos.
  { intros e He. assert (code_index e.(Status) < length (count_codes l no_codes))%nat as Hlt.
    { rewrite count_codes_length. simpl. pose proof (code_index_le e.(Status)). lia. }
    apply lookup_lt_is_Some_2 in Hlt as [n Hn]. exists n. split; [done|].
    eapply count_codes_pos in Hn as [_ ->]; [right; eauto|by repeat constructor]. }
  assert (∀ e, e ∈ l → (code_index e.(Status) ≤ max_index 4 (count_codes l no_codes))%nat ∧
    ∃ m, count_codes l no_codes !! max_index 4 (count_codes l no_codes) = Some m ∧ 0 < m) as Hmax.
  { intros e He. destruct (Hpos e He) as (n & Hn & Hp). eapply max_index_spec; [|done|done|apply code_index_le].
    eexists _, _. split; [apply code_index_le|done]. }
  destruct (Hmax e1) as [_ (m & Hm & Hp)]; [left|].
  eapply count_codes_pos in Hm as [_ H]; [|by repeat constructor]. apply H in Hp as [(k & Hk & Hlt)|(e & He & Hi)].
  { change no_codes with (replicate 5 0) in Hk. apply lookup_replicate in Hk as [-> _]. lia. }
  exists e. split_and!; [done| |].
  - rewrite Hi. unfold GetGeneralResponseCode, l. fold l. fold no_codes. lia.
  - intros e' He'. rewrite Hi. by apply Hmax.
Qed.

Lemma general_code_is_highest_class_witness :
  let errs := [mk_HandlerError 500 "" ""; mk_HandlerError 404 "" ""; mk_HandlerError 404 "" ""] in
  GetGeneralResponseCode errs = 500 ∧
  ∃ e, e ∈ errs ∧ GetGeneralResponseCode errs = 100 * (Z.of_nat (code_index e.(Status)) + 1).
Proof.
  intros errs. split; [reflexivity|].
  destruct (general_code_is_highest_class errs) as (e & He & H & _); [simpl; lia|]. exists e. split; [exact He|exact H].
Defined.
