(* ===== verification/Handlers.v ===== *)
(** * pkg/handler: pagination and the preparation of requests

    [api.go] (pages, filters and links) and the string helpers of [utils.go]. What echo's binder
    reads from the query string is an argument: [None] for a parameter that is absent or does not
    parse. Rendering a link's parameters as text is left out. *)

From S2P Require Import Prelude GoStrings GoSplit.
From stdpp Require Import options.

Open Scope string_scope.
Open Scope Z_scope.

(** ** Pages *)

Definition DefaultOffset : Z := 0.
Definition DefaultLimit : Z := 100.
Definition MaxLimit : Z := 200.

Record PaginationData := mk_PaginationData { Limit : Z; Offset : Z; SortBy : string }.

(** The bound parameters of a request and its form values of [sort_by[]]. *)
Record query := mk_query {
  q_limit : option Z;
  q_offset : option Z;
  q_sort_by : option string;
  q_sort_by_list : list string
}.

Definition ParsePagination (q : query) : PaginationData :=
  let limit := default DefaultLimit q.(q_limit) in
  let offset := default DefaultOffset q.(q_offset) in
  let sortBy := default "" q.(q_sort_by) in
  let sortBy := if sortBy == "" then strings_Join "," q.(q_sort_by_list) else sortBy in
  let limit := if limit >? MaxLimit then MaxLimit else limit in
  let limit := if limit =? 0 then DefaultLimit else limit in
  mk_PaginationData limit offset sortBy.

(** The filters that a link repeats. *)
Record FilterData := mk_FilterData {
  f_Search : string;
  f_Arch : string;
  f_Version : string;
  f_AvailableForArch : string;
  f_AvailableForVersion : string
}.

Definition set_if (k v : string) (q : gmap string (list string)) : gmap string (list string) :=
  if v == "" then q else <[k := [v]]> q.

(** The parameters of the link, before they are encoded. *)
Definition createLink (values : gmap string (list string)) (page : PaginationData) (filters : FilterData)
    (itoa : Z → string) (offset : Z) : gmap string (list string) :=
  set_if "available_for_version" filters.(f_AvailableForVersion)
    (set_if "available_for_arch" filters.(f_AvailableForArch)
      (set_if "version" filters.(f_Version)
        (set_if "arch" filters.(f_Arch)
          (set_if "search" filters.(f_Search)
            (<["offset" := [itoa offset]]> (<["limit" := [itoa page.(Limit)]]> values)))))).

(** The offsets of the four links: first, last, and next and previous when there is one. *)
Record Links := mk_Links { First : Z; Last : Z; NextOffset : option Z; Prev : option Z }.

(** [%] of Go truncates towards zero. *)
Definition lastPage (page : PaginationData) (totalCount : Z) : Z :=
  if (totalCount >? 0) && (Z.rem totalCount page.(Limit) =? 0)
  then totalCount - page.(Limit)
  else totalCount - Z.rem totalCount page.(Limit).

Definition setCollectionResponseMetadata (page : PaginationData) (totalCount : Z) : Links :=
  mk_Links 0 (lastPage page totalCount)
    (if page.(Offset) + page.(Limit) <? totalCount then Some (page.(Offset) + page.(Limit)) else None)
    (if page.(Offset) - page.(Limit) >=? 0 then Some (page.(Offset) - page.(Limit)) else None).

(** ** utils.go *)

(** [removeEndSuffix] for a suffix of one character: the loop stops when the suffix is gone, and is
    not entered for a source of at most one byte. *)
Definition removeEndSuffix (source : string) (c : ascii) : string :=
  if (length (chars source) <=? 1)%nat then source
  else of_chars (reverse (drop_while (λ a, a == c) (reverse (chars source)))).

Definition ContentUnitSearchRequestLimitDefault : Z := 100.
Definition ContentUnitSearchRequestLimitMaximum : Z := 500.

Record ContentUnitSearchRequest := mk_ContentUnitSearchRequest {
  URLs : list string;
  UUIDs : list string;
  Search : string;
  ExactNames : list string;
  RequestLimit : option Z;
  IncludePackageSources : bool
}.

Definition preprocessInput (input : ContentUnitSearchRequest) : ContentUnitSearchRequest :=
  let limit := default ContentUnitSearchRequestLimitDefault input.(RequestLimit) in
  {| URLs := (λ url, removeEndSuffix url (ascii_of_N 47)) <$> input.(URLs); UUIDs := input.(UUIDs);
     Search := input.(Search); ExactNames := input.(ExactNames);
     RequestLimit := Some (if limit >? ContentUnitSearchRequestLimitMaximum
                           then ContentUnitSearchRequestLimitMaximum else limit);
     IncludePackageSources := input.(IncludePackageSources) |}.

(** [strings.LastIndex(s, "/")], as the bytes after it. *)
Fixpoint after_last (c : ascii) (l : list ascii) : option (list ascii) :=
  match l with
  | [] => None
  | a :: l' => match after_last c l' with
               | Some r => Some r
               | None => if a == c then Some l' else None
               end
  end.

Definition extractUploadUuid (href : string) : string :=
  match after_last (ascii_of_N 47) (chars (TrimSuffix href "/")) with
  | None => ""
  | Some r => of_chars r
  end.

(** ** Properties *)

(** The offsets the next links lead to, starting at [offset]. *)
Fixpoint follow_next (fuel : nat) (limit offset totalCount : Z) : list Z :=
  match fuel with
  | O => []
  | S fuel' =>
      offset :: match (setCollectionResponseMetadata (mk_PaginationData limit offset "") totalCount).(NextOffset) with
                | Some o => follow_next fuel' limit o totalCount
                | None => []
                end
  end.

Lemma lastPage_bounds limit offset sb total :
  0 < limit → 0 ≤ total →
  let p := mk_PaginationData limit offset sb in
  (limit | lastPage p total) ∧ 0 ≤ lastPage p total ∧
  (0 < total → lastPage p total < total ≤ lastPage p total + limit).
Proof.
  intros Hl Ht. unfold lastPage. simpl. rewrite Z.rem_mod_nonneg by lia.
  pose proof (Z.div_mod total limit). pose proof (Z.mod_pos_bound total limit).
  pose proof (Z.mod_le total limit).
  destruct (total >? 0) eqn:E; simpl.
  - destruct (total mod limit =? 0) eqn:E2.
    + assert (total = limit * (total / limit)) as Hq by lia.
      assert (1 ≤ total / limit) by nia. split_and!; [|nia|lia].
      exists (total / limit - 1). lia.
    + split_and!; [|lia|lia]. exists (total / limit). lia.
  - assert (total = 0) as -> by lia. rewrite Z.mod_0_l by lia. split_and!; [by exists 0|lia|lia].
Qed.

Lemma follow_next_spec limit total k n :
  0 < limit → 0 < total →
  let last := lastPage (mk_PaginationData limit 0 "") total in
  k * limit + Z.of_nat n * limit = last → 0 ≤ k →
  follow_next (S n) limit (k * limit) total = (λ i, (k + Z.of_nat i) * limit) <$> seq 0 (S n).
Proof.
  intros Hl Ht last. destruct (lastPage_bounds limit 0 "" total Hl) as (_ & _ & Hb); [lia|].
  fold last in Hb. specialize (Hb Ht). revert k. induction n as [|n IH]; intros k Hk Hk0.
  - simpl. destruct (k * limit + limit <? total) eqn:E; [lia|]. f_equal. lia.
  - assert ((k * limit + limit <? total) = true) as E by nia.
    cbn [follow_next setCollectionResponseMetadata NextOffset Offset Limit]. rewrite E.
    cbn [follow_next setCollectionResponseMetadata NextOffset Offset Limit] in IH.
    replace (k * limit + limit) with ((k + 1) * limit) by lia.
    rewrite IH by lia. change (seq 0 (S (S n))) with (0%nat :: seq 1 (S n)).
    rewrite fmap_cons. f_equal; [lia|]. rewrite <- (fmap_S_seq 0 (S n)), <- list_fmap_compose.
    apply list_fmap_ext. intros i x Hx. simpl. lia.
Qed.

(** Pages: whatever a request asks for, the page size used is never 0 nor above 200; with a positive size
    the last link is the start of the page that holds the last result, and following next links from
    the first page visits the page starts 0, limit, 2*limit, ... up to exactly the last link, so that
    every result is on one of the pages. *)
Theorem pagination_covers_collection q limit total :
  let l := (ParsePagination q).(Limit) in
  l ≠ 0 ∧ l ≤ MaxLimit ∧
  (0 < limit → 0 < total →
   let last := (setCollectionResponseMetadata (mk_PaginationData limit 0 "") total).(Last) in
   last < total ≤ last + limit ∧
   follow_next (S (Z.to_nat (last / limit))) limit 0 total =
     (λ i, Z.of_nat i * limit) <$> seq 0 (S (Z.to_nat (last / limit))) ∧
   (setCollectionResponseMetadata (mk_PaginationData limit last "") total).(NextOffset) = None).
Proof.
  cbv zeta. unfold ParsePagination. cbn [Limit Last setCollectionResponseMetadata].
  unfold MaxLimit, DefaultLimit. split_and!.
  - destruct (default 100 (q_limit q) >? 200); simpl; [done|]. destruct (_ =? 0) eqn:E; lia.
  - destruct (default 100 (q_limit q) >? 200) eqn:E1; simpl; [done|]. destruct (_ =? 0) eqn:E; lia.
  - intros Hl Ht. destruct (lastPage_bounds limit 0 "" total Hl) as (Hd & H0 & Hb); [lia|].
    set (last := lastPage _ total) in *. specialize (Hb Ht). split_and!; [lia..| |].
    + destruct Hd as [m Hm]. rewrite Hm, Z.div_mul by lia.
      assert (0 ≤ m) by nia.
      pose proof (follow_next_spec limit total 0 (Z.to_nat m) Hl Ht) as Hf. rewrite Z.mul_0_l in Hf.
      rewrite Hf by lia.
      apply list_fmap_ext. intros i x _. f_equal.
    + cbn [NextOffset Offset Limit setCollectionResponseMetadata].
      destruct (last + limit <? total) eqn:E; [lia|done].
Qed.

Lemma drop_while_head f l : match drop_while f l with [] => True | a :: _ => f a = false end.
Proof. induction l as [|a l IH]; simpl; [done|]. by destruct (f a) eqn:E. Qed.

(** Search requests are normalised: the limit handed on is set and at most 500 (and the caller's own value
    when that is smaller), and a URL of more than one byte no longer ends in a slash. *)
Theorem preprocessInput_normalises input :
  let r := preprocessInput input in
  (∃ l, r.(RequestLimit) = Some l ∧ l ≤ ContentUnitSearchRequestLimitMaximum ∧
     (∀ l0, input.(RequestLimit) = Some l0 → l0 ≤ ContentUnitSearchRequestLimitMaximum → l = l0)) ∧
  (∀ i url, r.(URLs) !! i = Some url → (1 < length (chars url))%nat → HasSuffix url "/" = false) ∧
  length r.(URLs) = length input.(URLs).
Proof.
  split_and!.
  - eexists. split; [done|]. simpl. unfold ContentUnitSearchRequestLimitMaximum.
    destruct (_ >? 500) eqn:E; simpl; (split; [lia|]); intros l0 H0 H; rewrite H0 in *;
      simpl in *; [lia|done].
  - intros i url. simpl. rewrite list_lookup_fmap.
    destruct (URLs input !! i) as [s|]; simpl; [|done]. intros [= <-] Hlen.
    unfold removeEndSuffix in *. destruct (length (chars s) <=? 1)%nat eqn:E.
    { apply Nat.leb_le in E. lia. }
    unfold HasSuffix. rewrite chars_of_chars, reverse_involutive.
    pose proof (drop_while_head (λ a, a == ascii_of_N 47) (reverse (chars s))) as H.
    destruct (drop_while _ _) as [|a l]; [done|]. simpl. simpl in H.
    rewrite bool_decide_eq_false in *. rewrite bool_decide_false; [done|]. intros ?. by destruct H.
  - simpl. apply length_fmap.
Qed.
