(* ===== verification/DaoHelpers.v ===== *)
(** * pkg/dao/helpers.go: building queries from request parameters

    A gorm condition is modelled by the predicate on rows it selects. *)

From S2P Require Import Prelude GoStrings GoSplit Config Handlers.
From stdpp Require Import options.

Open Scope string_scope.

Definition colon : ascii := ascii_of_N 58.
Definition comma : ascii := ascii_of_N 44.
Definition dot : ascii := ascii_of_N 46.

(** [uuid2.Parse] is a parameter: [None] when the string is not a UUID. *)
Section Uuids.
Context (Parse : string → option uuid).

Definition UuidifyString (possibleUuid : string) : uuid := default uuid_Nil (Parse possibleUuid).
Definition UuidifyStrings (possibleUuids : list string) : list uuid := UuidifyString <$> possibleUuids.

(** The rows the checks look at. *)
Record RepoConfigRow := mk_RepoConfigRow { rc_uuid : uuid; rc_org_id : string }.

Definition isOwnedRepository (rows : list RepoConfigRow) (orgID repositoryConfigUUID : string) : bool :=
  existsb (λ r, contains [orgID; RedHatOrg; CommunityOrg; LightwellOrg; LightwellDemoOrg] r.(rc_org_id) &&
                (r.(rc_uuid) == UuidifyString repositoryConfigUUID)) rows.

(** The first element of the list that the table does not hold. *)
Fixpoint first_missing (found : string → bool) (l : list string) : option string :=
  match l with
  | [] => None
  | x :: l' => if found x then first_missing found l' else Some x
  end.

(** uuids valid, urls valid, the offending uuid, the offending url *)
Definition checkForValidRepoUuidsUrls (configs : list RepoConfigRow) (repo_urls : list string)
    (uuids urls : list string) : bool * bool * string * string :=
  match first_missing (λ u, existsb (λ r, r.(rc_uuid) == UuidifyString u) configs) uuids with
  | Some u => (false, true, u, "")
  | None =>
      match first_missing (contains repo_urls) urls with
      | Some url => (true, false, "", url)
      | None => (true, true, "", "")
      end
  end.

Definition checkForValidSnapshotUuids (snapshots : list uuid) (uuids : list string) : bool * string :=
  match first_missing (λ u, contains snapshots (UuidifyString u)) uuids with
  | Some u => (false, u)
  | None => (true, "")
  end.
End Uuids.

(** ** Sorting *)

(** The direction and the name in one element of the list. *)
Definition sort_item (sortBy : string) : string * string :=
  let split := strings_Split colon sortBy in
  (TrimSpace (nth 0 split ""),
   if (1 <? length split)%nat && (nth 1 split "" == "desc") then " desc" else " asc").

(** The loop: [sortByArray[i:]] and what has been built. *)
Fixpoint sort_loop (SortMap : gmap string string) (items : list string) (sqlOrderBy : string) : string :=
  match items with
  | [] => sqlOrderBy
  | sortBy :: items' =>
      let '(name, ascOrDesc) := sort_item sortBy in
      match SortMap !! name with
      | Some sortField =>
          sort_loop SortMap items'
            (sqlOrderBy +:+ sortField +:+ ascOrDesc +:+ (if (0 <? length items')%nat then ", " else ""))
      | None => sort_loop SortMap items' sqlOrderBy
      end
  end.

Definition convertSortByToSQL (SortBy : string) (SortMap : gmap string string) (defaultSortBy : string) : string :=
  let sqlOrderBy := sort_loop SortMap (strings_Split comma SortBy) "" in
  if (sqlOrderBy == "") && (defaultSortBy != "") then defaultSortBy else sqlOrderBy.

(** ** Search requests *)

Definition checkRequestUrlAndUuids (request : ContentUnitSearchRequest) : option string :=
  match request.(URLs), request.(UUIDs) with
  | [], [] => Some "must contain at least 1 URL or 1 UUID"
  | _, _ => None
  end.

Definition checkRequestLimit (request : ContentUnitSearchRequest) : Z :=
  let limit := default ContentUnitSearchRequestLimitDefault request.(RequestLimit) in
  if (limit >? ContentUnitSearchRequestLimitMaximum)%Z then ContentUnitSearchRequestLimitMaximum else limit.

(** Element [2i] is the URL, element [2i+1] the URL with a slash. *)
Definition handleTailChars (request : ContentUnitSearchRequest) : list string :=
  flat_map (λ url, [url; url +:+ "/"]) request.(URLs).

(** ** Filters on versions *)

(** The two columns the filter reads. *)
Record TemplateRow := mk_TemplateRow { t_version : string; t_extended : option string }.

Definition noMinorVersion (t : TemplateRow) : bool :=
  match t.(t_extended) with None => true | Some e => e == "" end.
Definition extended_in (l : list string) (t : TemplateRow) : bool :=
  match t.(t_extended) with None => false | Some e => contains l e end.

Definition splitVersionFilters (values : list string) : list string * list string :=
  fold_left (λ '(majors, minors) value,
      let value := TrimSpace value in
      if value == "" then (majors, minors)
      else if contains (chars value) dot then (majors, (minors ++ [value])%list)
      else ((majors ++ [value])%list, minors)) values ([], []).

(** Whether a row passes. *)
Definition applyVersionFilter (version : string) (restrictToMajor : bool) (t : TemplateRow) : bool :=
  if version == "" then (if restrictToMajor then noMinorVersion t else true) else
  let '(majorVersions, minorVersions) := splitVersionFilters (strings_Split comma version) in
  match majorVersions, minorVersions with
  | _ :: _, _ :: _ =>
      if restrictToMajor
      then (contains majorVersions t.(t_version) && noMinorVersion t) || extended_in minorVersions t
      else contains majorVersions t.(t_version) || extended_in minorVersions t
  | _ :: _, [] =>
      if restrictToMajor then contains majorVersions t.(t_version) && noMinorVersion t
      else contains majorVersions t.(t_version)
  | [], _ :: _ => extended_in minorVersions t
  | [], [] => true
  end.

(** ** Lemmas *)

Definition known (m : gmap string string) (item : string) : option (string * string) :=
  let '(name, dir) := sort_item item in (λ f, (f, dir)) <$> m !! name.

Definition render (fd : string * string) : string := fd.1 +:+ fd.2.

Lemma str_app_nil_left s : "" +:+ s = s.
Proof. apply str_app_nil. Qed.

Lemma sort_loop_acc m items acc : sort_loop m items acc = acc +:+ sort_loop m items "".
Proof.
  revert acc. induction items as [|x items IH]; intros acc; cbn [sort_loop]; [by rewrite str_app_nil_r|].
  destruct (sort_item x) as [name dir]. destruct (m !! name) as [f|]; [|apply IH].
  rewrite IH. rewrite (IH ("" +:+ _)). by rewrite str_app_nil, !str_app_assoc.
Qed.

Lemma sort_loop_cons m x items :
  sort_loop m (x :: items) "" =
    match known m x with
    | Some fd => render fd +:+ (if (0 <? length items)%nat then ", " else "") +:+ sort_loop m items ""
    | None => sort_loop m items ""
    end.
Proof.
  unfold known, render. cbn [sort_loop]. destruct (sort_item x) as [name dir]. destruct (m !! name) as [f|]; simpl; [|done].
  rewrite sort_loop_acc. by rewrite str_app_nil, !str_app_assoc.
Qed.

(** The list ends in an item the map does not know. *)
Definition ends_unknown (m : gmap string string) (items : list string) : bool :=
  match last items with Some x => match known m x with None => true | Some _ => false end | None => false end.

Lemma ends_unknown_none m items : omap (known m) items = [] → items ≠ [] → ends_unknown m items = true.
Proof.
  unfold ends_unknown. induction items as [|x items IH]; [done|]. intros H _. simpl in H.
  destruct (known m x) as [fd|] eqn:E; [done|]. destruct items as [|y items].
  - simpl. by rewrite E.
  - rewrite last_cons_cons. by apply IH.
Qed.

Lemma sort_loop_spec m items :
  sort_loop m items "" =
    strings_Join ", " (render <$> omap (known m) items) +:+
    (if (0 <? length (omap (known m) items))%nat && ends_unknown m items then ", " else "").
Proof.
  induction items as [|x items IH]; [done|]. rewrite sort_loop_cons.
  assert (ends_unknown m (x :: items) = match items with [] => match known m x with None => true | Some _ => false end
    | _ => ends_unknown m items end) as Hend by by destruct items.
  destruct (known m x) as [fd|] eqn:E.
  - assert (omap (known m) (x :: items) = fd :: omap (known m) items) as Ho by (simpl; by rewrite E).
    rewrite Ho. destruct items as [|y items].
    { rewrite Hend. simpl. by rewrite !str_app_nil_r. }
    rewrite Hend, IH. cbn [length]. simpl (0 <? S _)%nat. cbn [andb].
    destruct (omap (known m) (y :: items)) as [|fd2 l] eqn:El.
    + rewrite ends_unknown_none by done. simpl. by rewrite !str_app_nil_r.
    + rewrite (fmap_cons render fd), (join_cons _ (render fd)) by done. simpl (0 <? _)%nat. cbn [andb].
      by rewrite !str_app_assoc.
  - assert (omap (known m) (x :: items) = omap (known m) items) as Ho by (simpl; by rewrite E).
    rewrite Ho, IH, Hend. destruct items; [done|]. done.
Qed.

(** The ORDER BY built from a request holds nothing of the request: it is the default, or the columns that
    the sort map gives for the names it knows, each with a direction, in order and separated by
    commas; an unknown name at the end leaves a dangling comma behind the known ones. *)
Theorem sort_by_uses_only_the_map SortBy m def :
  let items := strings_Split comma SortBy in
  let fields := omap (known m) items in
  Forall (λ fd, (∃ name, m !! name = Some fd.1) ∧ (fd.2 = " asc" ∨ fd.2 = " desc")) fields ∧
  convertSortByToSQL SortBy m def =
    (if (strings_Join ", " (render <$> fields) == "") && negb (ends_unknown m items && (0 <? length fields)%nat) && (def != "")
     then def
     else strings_Join ", " (render <$> fields) +:+ (if (0 <? length fields)%nat && ends_unknown m items then ", " else "")).
Proof.
  intros items fields. split.
  - apply Forall_forall. intros [f dir] (x & Hx & Hk)%list_elem_of_omap. unfold known, sort_item in Hk.
    destruct (m !! _) as [g|] eqn:E; simplify_eq/=. split; [by eauto|]. case_match; auto.
  - unfold convertSortByToSQL. fold items. rewrite sort_loop_spec. fold fields.
    destruct ((0 <? length fields)%nat) eqn:E1, (ends_unknown m items) eqn:E2; cbn [andb negb];
      rewrite ?str_app_nil_r, ?andb_true_r; try done.
    rewrite bool_decide_false; [by rewrite andb_false_r|].
    intros H. apply (f_equal chars) in H. rewrite chars_app in H. by destruct (chars _).
Qed.

Lemma splitVersionFilters_spec values majors minors :
  fold_left (λ '(majors, minors) value,
      let value := TrimSpace value in
      if value == "" then (majors, minors)
      else if contains (chars value) dot then (majors, (minors ++ [value])%list)
      else ((majors ++ [value])%list, minors)) values (majors, minors) =
  ((majors ++ base.filter (λ v, v ≠ "" ∧ dot ∉ chars v) (TrimSpace <$> values))%list,
   (minors ++ base.filter (λ v, v ≠ "" ∧ dot ∈ chars v) (TrimSpace <$> values))%list).
Proof.
  revert majors minors. induction values as [|v values IH]; intros majors minors; simpl.
  { by rewrite !app_nil_r. }
  case_bool_decide as Hv; [|destruct (contains (chars (TrimSpace v)) dot) eqn:E].
  - rewrite IH, !filter_cons_False by naive_solver. done.
  - apply contains_true in E. rewrite IH, filter_cons_False, filter_cons_True by naive_solver.
    by rewrite <- app_assoc.
  - apply contains_false in E. rewrite IH, filter_cons_True, filter_cons_False by naive_solver.
    by rewrite <- app_assoc.
Qed.

(** The version filter of templates, whatever mix of versions it is given, is one condition: a template
    passes when no version was named, when its major version was named and (if the filter is
    restricted to majors) it has no minor version, or when its minor version was named. *)
Theorem version_filter_is_one_condition version restrict t :
  version ≠ "" →
  let named := TrimSpace <$> strings_Split comma version in
  (applyVersionFilter version restrict t = true) ↔
    (∀ v, v ∈ named → v = "") ∨
    (t.(t_version) ∈ named ∧ t.(t_version) ≠ "" ∧ dot ∉ chars t.(t_version) ∧
       (restrict = true → noMinorVersion t = true)) ∨
    (∃ e, t.(t_extended) = Some e ∧ e ∈ named ∧ e ≠ "" ∧ dot ∈ chars e).
Proof.
  intros Hv named. unfold applyVersionFilter. rewrite bool_decide_false by done.
  unfold splitVersionFilters. rewrite splitVersionFilters_spec. cbn [app]. fold named.
  set (majors := base.filter _ named). set (minors := base.filter (λ v, v ≠ "" ∧ dot ∈ chars v) named).
  assert (∀ v, v ∈ majors ↔ v ∈ named ∧ v ≠ "" ∧ dot ∉ chars v) as HM.
  { intros v. unfold majors. rewrite list_elem_of_filter. tauto. }
  assert (∀ v, v ∈ minors ↔ v ∈ named ∧ v ≠ "" ∧ dot ∈ chars v) as HN.
  { intros v. unfold minors. rewrite list_elem_of_filter. tauto. }
  assert (contains majors t.(t_version) = true ↔ t.(t_version) ∈ named ∧ t.(t_version) ≠ "" ∧ dot ∉ chars t.(t_version)) as Hmaj.
  { by rewrite contains_true, HM. }
  assert (extended_in minors t = true ↔ ∃ e, t.(t_extended) = Some e ∧ e ∈ named ∧ e ≠ "" ∧ dot ∈ chars e) as Hmin.
  { unfold extended_in. destruct (t_extended t) as [e|].
    - rewrite contains_true, HN. split; [eauto|]. intros (e' & [= <-] & H). done.
    - split; [done|]. by intros (? & [=] & _). }
  assert ((∀ v, v ∈ named → v = "") ↔ majors = [] ∧ minors = []) as Hempty.
  { split.
    - intros H. split; [destruct majors as [|x l] eqn:E|destruct minors as [|x l] eqn:E]; try done; exfalso;
        [destruct (HM x) as [H' _]|destruct (HN x) as [H' _]]; destruct H' as (H1 & H2 & _); try left; by apply H2, H.
    - intros [H1 H2] v Hin. destruct (decide (v = "")) as [|Hne]; [done|]. exfalso.
      destruct (decide (dot ∈ chars v)) as [Hd|Hd].
      + assert (v ∈ minors) as H by by apply HN. rewrite H2 in H. by apply not_elem_of_nil in H.
      + assert (v ∈ majors) as H by by apply HM. rewrite H1 in H. by apply not_elem_of_nil in H. }
  rewrite Hempty. clear Hempty HM HN.
  destruct majors as [|ma majors], minors as [|mi minors].
  - tauto.
  - rewrite Hmin. simpl in Hmaj. intuition congruence.
  - assert (extended_in [] t = false) as Hf by (unfold extended_in; by destruct (t_extended t)).
    rewrite Hf in Hmin. destruct restrict; rewrite ?andb_true_iff, Hmaj, <- Hmin; intuition congruence.
  - destruct restrict; rewrite ?orb_true_iff, ?andb_true_iff, Hmaj, Hmin; intuition congruence.
Qed.

Lemma version_filter_is_one_condition_witness :
  applyVersionFilter "9, 9.4" true (mk_TemplateRow "9" (Some "9.4")) = true ∧
  applyVersionFilter "9" true (mk_TemplateRow "9" (Some "9.4")) = false.
Proof.
  split; [|reflexivity].
  apply (version_filter_is_one_condition "9, 9.4" true (mk_TemplateRow "9" (Some "9.4"))); [done|].
  right. right. exists "9.4". split; [reflexivity|]. split; [apply (bool_decide_unpack _); by vm_compute|].
  split; [done|]. apply (bool_decide_unpack _). by vm_compute.
Defined.
