(* ===== verification/Models.v ===== *)
(** * pkg/models and pkg/config: repositories and repository configurations

    The hooks gorm runs before it stores a row: normalisation of versions, architecture, label and
    URL, and validation. [tx.Statement.SetColumn] assigns the field of the row being stored; the
    lookup of an existing label, the random suffix and [url.ParseRequestURI] are arguments. *)

From S2P Require Import Prelude GoStrings GoSplit Config Utils.
From stdpp Require Import sorting options.

Open Scope string_scope.

(** ** config/value_constraints.go *)

Definition ANY_VERSION := "any".
Definition ANY_ARCH := "any".
Definition EUS := "eus".
Definition E4S := "e4s".
Definition EEUS := "eeus".

(** The labels of [DistributionVersions], [DistributionArches] and [DistributionMinorVersions], and the
    keys of [ExtendedReleaseStreamNames]. *)
Definition DistributionVersions : list string := [ANY_VERSION; "7"; "8"; "9"; "10"].
Definition DistributionArches : list string := [ANY_ARCH; "aarch64"; "ppc64le"; "s390x"; "x86_64"].
Definition DistributionMinorVersions : list string :=
  ["8.6"; "8.8"; "9.0"; "9.2"; "9.4"; "9.6"; "9.8"; "10.0"; "10.2"].
Definition ExtendedReleaseStreamNames : list string := [EUS; E4S; EEUS].

Fixpoint ValidDistributionVersionLabels (labels : list string) : bool * string :=
  match labels with
  | [] => (true, "")
  | l :: labels' => if contains DistributionVersions l then ValidDistributionVersionLabels labels' else (false, l)
  end.
Definition ValidArchLabel (label : string) : bool := contains DistributionArches label.
Definition ValidDistributionMinorVersionLabel (label : string) : bool := contains DistributionMinorVersions label.
Definition ValidExtendedReleaseLabel (label : string) : bool := contains ExtendedReleaseStreamNames label.

(** ** models/repository_configuration.go *)

Record RepositoryConfiguration := mk_RepositoryConfiguration {
  rc_Name : string;
  rc_Versions : list string;
  rc_Arch : string;
  rc_Label : string;
  rc_OrgID : string;
  rc_RepositoryUUID : string;
  rc_Origin : string;    (* Repository.Origin *)
  rc_Snapshot : bool;
  rc_ExtendedRelease : string;
  rc_ExtendedReleaseVersion : string
}.

Definition set_Versions (v : list string) (rc : RepositoryConfiguration) : RepositoryConfiguration :=
  mk_RepositoryConfiguration rc.(rc_Name) v rc.(rc_Arch) rc.(rc_Label) rc.(rc_OrgID) rc.(rc_RepositoryUUID)
    rc.(rc_Origin) rc.(rc_Snapshot) rc.(rc_ExtendedRelease) rc.(rc_ExtendedReleaseVersion).
Definition set_Arch (a : string) (rc : RepositoryConfiguration) : RepositoryConfiguration :=
  mk_RepositoryConfiguration rc.(rc_Name) rc.(rc_Versions) a rc.(rc_Label) rc.(rc_OrgID) rc.(rc_RepositoryUUID)
    rc.(rc_Origin) rc.(rc_Snapshot) rc.(rc_ExtendedRelease) rc.(rc_ExtendedReleaseVersion).
Definition set_Label (l : string) (rc : RepositoryConfiguration) : RepositoryConfiguration :=
  mk_RepositoryConfiguration rc.(rc_Name) rc.(rc_Versions) rc.(rc_Arch) l rc.(rc_OrgID) rc.(rc_RepositoryUUID)
    rc.(rc_Origin) rc.(rc_Snapshot) rc.(rc_ExtendedRelease) rc.(rc_ExtendedReleaseVersion).

Definition IsRedHat (rc : RepositoryConfiguration) : bool := rc.(rc_OrgID) == RedHatOrg.
Definition IsCommunity (rc : RepositoryConfiguration) : bool := rc.(rc_OrgID) == CommunityOrg.

Definition DedupeVersions (rc : RepositoryConfiguration) : RepositoryConfiguration :=
  set_Versions (slices_Sort (Deduplicate rc.(rc_Versions))) rc.

(** After [DedupeVersions] the slice is never nil. *)
Definition ReplaceEmptyValues (rc : RepositoryConfiguration) : RepositoryConfiguration :=
  let rc := match rc.(rc_Versions) with [] => set_Versions [ANY_VERSION] rc | _ => rc end in
  if rc.(rc_Arch) == "" then set_Arch ANY_ARCH rc else rc.

Definition versionContainsAnyAndOthers (arr : list string) : bool :=
  if (length arr <=? 1)%nat then false else contains arr ANY_VERSION.

(** [None]: valid; [Some m]: the message of the error. *)
Definition validate (rc : RepositoryConfiguration) : option string :=
  if rc.(rc_Name) == "" then Some "Name cannot be blank." else
  if rc.(rc_OrgID) == "" then Some "Org ID cannot be blank." else
  if rc.(rc_RepositoryUUID) == "" then Some "Repository UUID foreign key cannot be blank." else
  if (rc.(rc_Arch) != "") && negb (ValidArchLabel rc.(rc_Arch))
  then Some ("Specified distribution architecture " +:+ rc.(rc_Arch) +:+ " is invalid.") else
  let '(valid, invalidVer) := ValidDistributionVersionLabels rc.(rc_Versions) in
  if (0 <? length rc.(rc_Versions))%nat && negb valid
  then Some ("Specified distribution version " +:+ invalidVer +:+ " is invalid.") else
  if versionContainsAnyAndOthers rc.(rc_Versions)
  then Some "Specified a distribution version of 'any' along with other version types, this is invalid." else
  if (rc.(rc_ExtendedReleaseVersion) != "") && negb (ValidDistributionMinorVersionLabel rc.(rc_ExtendedReleaseVersion))
  then Some ("Specified extended release version " +:+ rc.(rc_ExtendedReleaseVersion) +:+ " is invalid.") else
  if (rc.(rc_ExtendedRelease) != "") && negb (ValidExtendedReleaseLabel rc.(rc_ExtendedRelease))
  then Some ("Specified extended release " +:+ rc.(rc_ExtendedRelease) +:+ " is invalid.") else
  if (rc.(rc_Origin) == OriginUpload) && negb rc.(rc_Snapshot)
  then Some "Snapshot must be true for upload repositories" else None.

(** The characters the expression [[^a-zA-Z0-9:space]] leaves alone. *)
Definition label_char (a : ascii) : bool :=
  byte_in 97 122 a || byte_in 65 90 a || byte_in 48 57 a || (a == ascii_of_N 58).

(** [re.ReplaceAllString(name, "_")]: one underscore per rune; a byte that starts no valid rune is one.
    [k]: bytes of the current rune still to skip. *)
Fixpoint label_go (k : nat) (s : string) : string :=
  match s with
  | EmptyString => ""
  | String a r =>
      match k with
      | S k' => label_go k' r
      | O => if label_char a then String a (label_go 0 r)
             else String (ascii_of_N 95) (label_go (Nat.pred (utf8_len s)) r)
      end
  end.
Definition label_of (name : string) : string := label_go 0 name.

(** [found]: the answer of the count for the label, [None] when the query fails. *)
Definition SetLabel (found : string → option bool) (suffix : string) (rc : RepositoryConfiguration) :
    RepositoryConfiguration :=
  if IsRedHat rc then rc else
  if IsCommunity rc then rc else
  let label := label_of rc.(rc_Name) in
  match found label with
  | None => rc
  | Some true => set_Label (label +:+ "_" +:+ suffix) rc
  | Some false => set_Label label rc
  end.

(** The columns a hook sets: of a creation in the struct itself, of an update in the map of changes, so that an update
    validates the values as they were given. *)
Definition BeforeUpdate (rc : RepositoryConfiguration) : string + RepositoryConfiguration :=
  match validate rc with Some e => inl e | None => inr (ReplaceEmptyValues (DedupeVersions rc)) end.

Definition BeforeCreate (found : string → option bool) (suffix : string) (rc : RepositoryConfiguration) :
    string + RepositoryConfiguration :=
  let rc := ReplaceEmptyValues (DedupeVersions (SetLabel found suffix rc)) in
  match validate rc with Some e => inl e | None => inr rc end.

Definition CandlepinContentGpgKeyUrl (externalURL fullRootPath orgID repoConfigUUID : string) : option string :=
  if orgID == RedHatOrg then None
  else Some (TrimSuffix externalURL "/" +:+ fullRootPath +:+ "/repository_gpg_key/" +:+ repoConfigUUID).
Definition RepoConfigGpgKeyURL (externalURL fullRootPath orgID repoConfigUUID : string) : option string :=
  if orgID == RedHatOrg then Some "file:///etc/pki/rpm-gpg/RPM-GPG-KEY-redhat-release"
  else CandlepinContentGpgKeyUrl externalURL fullRootPath orgID repoConfigUUID.

(** ** models/repository.go *)

Definition whitespace : list ascii := ascii_of_N <$> [32; 9; 10; 11; 13; 12]%N.
Definition stringContainsInternalWhitespace (s : string) : bool :=
  existsb (contains whitespace) (chars (TrimSpace s)).

Definition CleanupURL (url : string) : string :=
  let url := of_chars (reverse (drop_while (λ a, a == ascii_of_N 47) (reverse (chars (TrimSpace url))))) in
  if url != "" then url +:+ "/" else url.

(** models/base.go: the cut is by bytes. *)
Definition trimString (str : option string) (limit : nat) : option string :=
  match str with
  | None => None
  | Some s => if (String.length s <? limit)%nat then str else Some (str_take limit s)
  end.

Record Repository := mk_Repository {
  r_URL : string;
  r_Origin : string;
  r_LastIntrospectionStatus : string;
  r_LastIntrospectionTime : option time;
  r_LastIntrospectionSuccessTime : option time;
  r_LastIntrospectionUpdateTime : option time;
  r_LastIntrospectionError : option string;
  r_RepomdChecksum : string;
  r_PackageCount : Z;
  r_BuildCount : Z;
  r_VersionCount : Z;
  r_FailedIntrospectionsCount : Z;
  r_Public : bool
}.

Section Repositories.
(** [url.ParseRequestURI] succeeds. *)
Context (valid_uri : string → bool).

Definition repository_validate (r : Repository) : option string :=
  if (r.(r_Origin) == OriginUpload) || (r.(r_Origin) == OriginLightwell) then
    if r.(r_URL) == "" then None else Some "URL cannot be specified for upload repositories."
  else if r.(r_URL) == "" then Some "URL cannot be blank for custom and Red Hat repositories."
  else if stringContainsInternalWhitespace r.(r_URL) then Some "URL cannot contain whitespace."
  else if valid_uri r.(r_URL) then None else Some "Invalid URL for request.".

Definition repository_BeforeCreate (now : time) (r : Repository) : string + Repository :=
  match repository_validate r with
  | Some e => inl e
  | None =>
      let url := CleanupURL r.(r_URL) in
      inr (if r.(r_Origin) == OriginUpload
           then mk_Repository url r.(r_Origin) StatusValid (Some now) (Some now) (Some now)
                  r.(r_LastIntrospectionError) r.(r_RepomdChecksum) r.(r_PackageCount)
                  r.(r_BuildCount) r.(r_VersionCount) r.(r_FailedIntrospectionsCount) r.(r_Public)
           else mk_Repository url r.(r_Origin) r.(r_LastIntrospectionStatus) r.(r_LastIntrospectionTime)
                  r.(r_LastIntrospectionSuccessTime) r.(r_LastIntrospectionUpdateTime)
                  r.(r_LastIntrospectionError) r.(r_RepomdChecksum) r.(r_PackageCount)
                  r.(r_BuildCount) r.(r_VersionCount) r.(r_FailedIntrospectionsCount) r.(r_Public))
  end.
End Repositories.

(** [Updates(r.MapForUpdate())] on the stored row [cur]: a blank URL is left out of the map, and so is
    the origin. *)
Definition repository_MapForUpdate (r cur : Repository) : Repository :=
  mk_Repository (if r.(r_URL) != "" then r.(r_URL) else cur.(r_URL)) cur.(r_Origin)
    r.(r_LastIntrospectionStatus) r.(r_LastIntrospectionTime) r.(r_LastIntrospectionSuccessTime)
    r.(r_LastIntrospectionUpdateTime) (trimString r.(r_LastIntrospectionError) 255) r.(r_RepomdChecksum)
    r.(r_PackageCount) r.(r_BuildCount) r.(r_VersionCount) r.(r_FailedIntrospectionsCount) r.(r_Public).

(** ** Lemmas *)

Lemma ValidDistributionVersionLabels_spec l :
  (ValidDistributionVersionLabels l).1 = true ↔ Forall (λ v, v ∈ DistributionVersions) l.
Proof.
  induction l as [|x l IH]; cbn [ValidDistributionVersionLabels]; [done|]. rewrite Forall_cons.
  destruct (contains DistributionVersions x) eqn:E.
  - apply contains_true in E. simpl. rewrite IH. tauto.
  - apply contains_false in E. simpl. split; [done|]. by intros [? _].
Qed.

(** A configuration in normal form. *)
Record rc_normal (rc : RepositoryConfiguration) : Prop := {
  rn_sorted : Sorted str_le rc.(rc_Versions);
  rn_nodup : NoDup rc.(rc_Versions);
  rn_nonempty : rc.(rc_Versions) ≠ [];
  rn_arch : rc.(rc_Arch) ≠ ""
}.

Lemma ReplaceEmptyValues_Versions rc :
  (ReplaceEmptyValues rc).(rc_Versions) = match rc.(rc_Versions) with [] => [ANY_VERSION] | l => l end.
Proof. unfold ReplaceEmptyValues. destruct (rc_Versions rc) eqn:E; case_bool_decide; simpl; by rewrite ?E. Qed.

Lemma ReplaceEmptyValues_Arch rc :
  (ReplaceEmptyValues rc).(rc_Arch) = if rc.(rc_Arch) == "" then ANY_ARCH else rc.(rc_Arch).
Proof. unfold ReplaceEmptyValues. by destruct (rc_Versions rc); simpl; case_bool_decide. Qed.

Lemma dedupe_sorted l : Sorted str_le (slices_Sort (Deduplicate l)) ∧ NoDup (slices_Sort (Deduplicate l)).
Proof.
  destruct (slices_Sort_spec (Deduplicate l)) as [H1 H2]. split; [done|]. rewrite H2.
  by destruct (Deduplicate_go_spec [] [] l) as (H & _); [|apply NoDup_nil_2|].
Qed.

Lemma normalise_normal rc : rc_normal (ReplaceEmptyValues (DedupeVersions rc)).
Proof.
  destruct (dedupe_sorted rc.(rc_Versions)) as [H1 H2].
  split; rewrite ?ReplaceEmptyValues_Versions, ?ReplaceEmptyValues_Arch; simpl.
  - destruct (slices_Sort _); [by repeat constructor|done].
  - destruct (slices_Sort _); [apply NoDup_singleton|done].
  - by destruct (slices_Sort _).
  - by case_bool_decide.
Qed.

Lemma set_Versions_id rc : set_Versions rc.(rc_Versions) rc = rc.
Proof. by destruct rc. Qed.

Lemma normal_id rc : rc_normal rc → ReplaceEmptyValues (DedupeVersions rc) = rc.
Proof.
  intros [H1 H2 H3 H4]. unfold DedupeVersions.
  assert (Deduplicate rc.(rc_Versions) = rc.(rc_Versions)) as ->.
  { unfold Deduplicate. rewrite Deduplicate_id; [done|done|]. intros x _. apply not_elem_of_nil. }
  rewrite slices_Sort_id, set_Versions_id by done. unfold ReplaceEmptyValues.
  destruct (rc_Versions rc); [done|]. by rewrite bool_decide_false.
Qed.

Lemma blank_or_valid (x : string) b : (x != "") && negb b = false → x = "" ∨ b = true.
Proof. case_bool_decide; simpl; [by left|]. intros ?%negb_false_iff. by right. Qed.

Lemma blank_or_valid_iff (x : string) b : (x != "") && negb b = false ↔ x = "" ∨ b = true.
Proof. split; [apply blank_or_valid|]. intros [-> | ->]; [done|]. by rewrite andb_false_r. Qed.

Lemma if_none {A} (b : bool) (m : A) (o : option A) : (if b then Some m else o) = None ↔ b = false ∧ o = None.
Proof. destruct b; naive_solver. Qed.

Definition rc_valid (rc : RepositoryConfiguration) : Prop :=
  rc.(rc_Name) ≠ "" ∧ rc.(rc_OrgID) ≠ "" ∧ rc.(rc_RepositoryUUID) ≠ "" ∧
  (rc.(rc_Arch) = "" ∨ rc.(rc_Arch) ∈ DistributionArches) ∧
  Forall (λ v, v ∈ DistributionVersions) rc.(rc_Versions) ∧
  ((length rc.(rc_Versions) ≤ 1)%nat ∨ ANY_VERSION ∉ rc.(rc_Versions)) ∧
  (rc.(rc_ExtendedReleaseVersion) = "" ∨ rc.(rc_ExtendedReleaseVersion) ∈ DistributionMinorVersions) ∧
  (rc.(rc_ExtendedRelease) = "" ∨ rc.(rc_ExtendedRelease) ∈ ExtendedReleaseStreamNames) ∧
  (rc.(rc_Origin) = OriginUpload → rc.(rc_Snapshot) = true).

Lemma versions_iff l :
  (let '(valid, _) := ValidDistributionVersionLabels l in (0 <? length l)%nat && negb valid) = false ↔
  Forall (λ v, v ∈ DistributionVersions) l.
Proof.
  rewrite <- ValidDistributionVersionLabels_spec. destruct l as [|x l]; [done|].
  destruct (ValidDistributionVersionLabels _) as [v i]. simpl. by rewrite negb_false_iff.
Qed.

Lemma any_and_others_iff l : versionContainsAnyAndOthers l = false ↔ (length l ≤ 1)%nat ∨ ANY_VERSION ∉ l.
Proof.
  unfold versionContainsAnyAndOthers. destruct (Nat.leb_spec (length l) 1); [tauto|]. rewrite contains_false. intuition lia.
Qed.

Lemma validate_iff rc : validate rc = None ↔ rc_valid rc.
Proof.
  unfold validate, rc_valid. rewrite <- versions_iff, <- any_and_others_iff.
  destruct (ValidDistributionVersionLabels (rc_Versions rc)) as [valid inv]. rewrite !if_none, !bool_decide_eq_false, !blank_or_valid_iff.
  unfold ValidArchLabel, ValidDistributionMinorVersionLabel, ValidExtendedReleaseLabel. rewrite !contains_true.
  assert (∀ b, (rc_Origin rc == OriginUpload) && negb b = false ↔ (rc_Origin rc = OriginUpload → b = true)) as ->; [|naive_solver].
  intros b. case_bool_decide; simpl; [rewrite negb_false_iff|]; naive_solver.
Qed.

(** The normal form of valid values is valid. *)
Lemma normalise_valid rc : rc_valid rc → rc_valid (ReplaceEmptyValues (DedupeVersions rc)).
Proof.
  intros (H1 & H2 & H3 & H4 & H5 & H6 & H7). set (n := ReplaceEmptyValues _).
  assert (∃ l a, n = set_Versions l (set_Arch a rc) ∧ l = n.(rc_Versions) ∧ a = n.(rc_Arch)) as (l & a & Hn & Hl & Ha).
  { subst n. unfold ReplaceEmptyValues, DedupeVersions. destruct (slices_Sort _) eqn:E; simpl; case_bool_decide; do 2 eexists;
      (split; [|done]); unfold set_Versions, set_Arch; simpl; by rewrite ?E. }
  subst n. rewrite ReplaceEmptyValues_Versions in Hl. rewrite ReplaceEmptyValues_Arch in Ha. simpl in Hl, Ha.
  destruct (slices_Sort_spec (Deduplicate rc.(rc_Versions))) as [_ Hp]. destruct (Deduplicate_correct rc.(rc_Versions)) as (Hnd & Hin & _).
  assert (∀ v, v ∈ slices_Sort (Deduplicate rc.(rc_Versions)) ↔ v ∈ rc.(rc_Versions)) as Hel by (intros v; rewrite Hp; apply Hin).
  rewrite Hn. unfold rc_valid. simpl. rewrite Hl, Ha. clear Hl Ha Hn l a. split; [done|]. split; [done|]. split; [done|]. split_and!; [| | |by apply H7..].
  - case_bool_decide; [right; by_decide|]. done.
  - destruct (slices_Sort _) eqn:E; [by_decide|]. apply Forall_forall. intros v Hv%Hel. rewrite Forall_forall in H5. by apply H5.
  - destruct (slices_Sort (Deduplicate rc.(rc_Versions))) as [|x l'] eqn:E; [left; simpl; lia|]. destruct H6 as [Hlen|Hany].
    + left. rewrite Hp. etrans; [|exact Hlen]. apply submseteq_length, NoDup_submseteq; [done|]. by intros v ?%Hin.
    + right. by rewrite Hel.
Qed.

(** A repository configuration that gets past the hooks, of a creation or of an update, is in normal form and valid:
    versions sorted, without duplicates and not empty, each a known label, "any" only on its own; a known architecture;
    no blank name, organisation or repository; and running the update hook on it again changes nothing. *)
Theorem stored_configuration_valid found suffix rc rc' :
  BeforeCreate found suffix rc = inr rc' ∨ BeforeUpdate rc = inr rc' →
  rc_normal rc' ∧ rc'.(rc_Name) ≠ "" ∧ rc'.(rc_OrgID) ≠ "" ∧ rc'.(rc_RepositoryUUID) ≠ "" ∧
  rc'.(rc_Arch) ∈ DistributionArches ∧ Forall (λ v, v ∈ DistributionVersions) rc'.(rc_Versions) ∧
  (ANY_VERSION ∈ rc'.(rc_Versions) → rc'.(rc_Versions) = [ANY_VERSION]) ∧
  BeforeUpdate rc' = inr rc'.
Proof.
  intros H. assert (rc_normal rc' ∧ rc_valid rc') as [Hn Hv].
  { unfold BeforeCreate, BeforeUpdate in H. destruct H as [H|H]; destruct (validate _) eqn:E; simplify_eq/=;
      apply validate_iff in E; (split; [apply normalise_normal|]); [done|by apply normalise_valid]. }
  unfold BeforeUpdate. rewrite (proj2 (validate_iff rc') Hv), (normal_id rc' Hn). pose proof Hn as [_ _ Hne Ha].
  destruct Hv as (? & ? & ? & Harch & ? & Hany & _). split_and!; try done.
  - naive_solver.
  - intros Hin. destruct Hany as [Hlen|]; [|done]. destruct (rc_Versions rc') as [|x [|y l]]; [done| |simpl in Hlen; lia].
    by apply list_elem_of_singleton in Hin as <-.
Qed.

Definition ex_rc : RepositoryConfiguration :=
  mk_RepositoryConfiguration "my repo" ["9"; "8"; "9"] "" "" "org" "uuid" OriginExternal true "" "".

Lemma stored_configuration_valid_witness :
  ∃ rc', BeforeCreate (λ _, Some false) "xyz" ex_rc = inr rc' ∧ rc'.(rc_Versions) = ["8"; "9"] ∧
    rc'.(rc_Arch) = ANY_ARCH ∧ rc'.(rc_Label) = "my_repo" ∧ BeforeUpdate rc' = inr rc'.
Proof.
  eexists. split; [by vm_compute|]. split; [reflexivity|]. split; [reflexivity|]. split; [reflexivity|].
  eapply (stored_configuration_valid (λ _, Some false) "xyz" ex_rc). left. by vm_compute.
Defined.

(** ** Labels and URLs *)

Lemma label_go_chars k s : Forall (λ a, label_char a = true ∨ a = ascii_of_N 95) (chars (label_go k s)).
Proof.
  revert k. induction s as [|a s IH]; intros [|k]; simpl; [constructor..| |apply IH].
  destruct (label_char a) eqn:E; simpl; constructor; auto.
Qed.

Lemma label_go_id s : Forall (λ a, label_char a = true) (chars s) → label_go 0 s = s.
Proof.
  induction s as [|a s IH]; simpl; [done|]. rewrite Forall_cons. intros [-> H]. by rewrite IH.
Qed.

(** The label derived from a name consists of letters, digits, colons and underscores only, and a name
    made of letters, digits and colons is its own label: the colon survives, because the class
    [[^a-zA-Z0-9:space]] is not the POSIX class it looks like. *)
Theorem label_alphabet name :
  Forall (λ a, byte_in 97 122 a = true ∨ byte_in 65 90 a = true ∨ byte_in 48 57 a = true ∨
               a = ascii_of_N 58 ∨ a = ascii_of_N 95) (chars (label_of name)) ∧
  (Forall (λ a, label_char a = true) (chars name) → label_of name = name) ∧
  label_of "a:b" = "a:b".
Proof.
  split_and!; [|apply label_go_id|done].
  eapply Forall_impl; [apply label_go_chars|]. intros a [H| ->]; [|by auto 10].
  unfold label_char in H. rewrite !orb_true_iff, bool_decide_eq_true in H. tauto.
Qed.

Definition slash47 : ascii := ascii_of_N 47.

Lemma drop_while_reverse_split f (l : list ascii) :
  ∃ k, l = (reverse (drop_while f (reverse l)) ++ k)%list.
Proof.
  assert (∀ m : list ascii, ∃ k, m = (k ++ drop_while f m)%list) as H.
  { induction m as [|a m [k IH]]; simpl; [by exists []|]. destruct (f a); [|by exists []].
    exists (a :: k). simpl. by rewrite <- IH. }
  destruct (H (reverse l)) as [k Hk]. exists (reverse k).
  rewrite <- (reverse_involutive l) at 1. rewrite Hk at 1. by rewrite reverse_app.
Qed.

(** The end of a string that is not a byte of any space rune. *)
Lemma has_prefix_snoc sp l a : a ∉ sp → has_prefix sp (l ++ [a])%list = true → has_prefix sp l = true.
Proof.
  revert l. induction sp as [|x sp IH]; intros l Ha; [done|]. apply not_elem_of_cons in Ha as [Hx Ha].
  destruct l as [|y l]; simpl.
  - rewrite andb_true_iff, bool_decide_eq_true. by intros [? _].
  - rewrite !andb_true_iff. intros [? ?]. auto.
Qed.

Lemma strip_space_snoc sps l a :
  Forall (λ sp, a ∉ sp) sps → strip_space sps l = None → strip_space sps (l ++ [a])%list = None.
Proof.
  induction 1 as [|sp sps Hsp _ IH]; simpl; [done|].
  destruct (has_prefix sp l) eqn:E; [done|]. intros H.
  destruct (has_prefix sp (l ++ [a])) eqn:E2; [|by apply IH].
  apply has_prefix_snoc in E2; [congruence|done].
Qed.

Lemma no_slash_in_spaces : Forall (λ sp, slash47 ∉ sp) spaces ∧ Forall (λ sp, slash47 ∉ sp) (reverse <$> spaces).
Proof. split; apply (bool_decide_unpack _); by vm_compute. Qed.

Lemma strip_space_head_slash sps l :
  Forall (λ sp, sp ≠ []) sps → Forall (λ sp, slash47 ∉ sp) sps → strip_space sps (slash47 :: l) = None.
Proof.
  induction sps as [|sp sps IH]; [done|]. rewrite !Forall_cons. intros [H1 H2] [H3 H4]. simpl.
  destruct sp as [|x sp]; [done|]. simpl. apply not_elem_of_cons in H3 as [Hx _].
  rewrite bool_decide_false by congruence. simpl. by apply IH.
Qed.

(** Stripping trailing slashes and appending one. *)
Definition strip_slashes (s : string) : string :=
  of_chars (reverse (drop_while (λ a, a == slash47) (reverse (chars s)))).

Lemma strip_slashes_append s : strip_slashes (strip_slashes s +:+ "/") = strip_slashes s.
Proof.
  unfold strip_slashes at 1. rewrite chars_app, reverse_app.
  change (reverse (chars "/")) with [slash47].
  change ([slash47] ++ ?x)%list with (slash47 :: x). cbn [app drop_while].
  rewrite bool_decide_true by done. unfold strip_slashes. rewrite chars_of_chars, reverse_involutive.
  f_equal. f_equal. induction (reverse (chars s)) as [|a l IH]; [done|]. simpl.
  destruct (bool_decide (a = slash47)) eqn:E; [done|]. simpl. by rewrite E.
Qed.

Lemma TrimSpace_append_slash s :
  trimmed s → strip_slashes s ≠ "" → TrimSpace (strip_slashes s +:+ "/") = strip_slashes s +:+ "/".
Proof.
  intros [H1 _] Hne. destruct no_slash_in_spaces as [Hs1 Hs2], spaces_nonempty as [Hn1 Hn2].
  destruct (drop_while_reverse_split (λ a, a == slash47) (chars s)) as [k Hk].
  apply TrimSpace_id. split; unfold no_space_first in *; rewrite chars_app.
  - change (chars "/") with [slash47]. apply strip_space_snoc; [done|].
    unfold strip_slashes. rewrite chars_of_chars.
    destruct (strip_space spaces (reverse _)) eqn:E; [|done].
    destruct (strip_space_app spaces _ k (ex_intro _ _ E)) as [y Hy]. rewrite <- Hk in Hy. congruence.
  - rewrite reverse_app. by apply strip_space_head_slash.
Qed.

Lemma CleanupURL_alt url :
  CleanupURL url = let u := strip_slashes (TrimSpace url) in if u == "" then "" else u +:+ "/".
Proof.
  change (CleanupURL url) with (if strip_slashes (TrimSpace url) != "" then strip_slashes (TrimSpace url) +:+ "/"
    else strip_slashes (TrimSpace url)). cbv zeta.
  destruct (decide (strip_slashes (TrimSpace url) = "")) as [H|H].
  - by rewrite H.
  - by rewrite !(bool_decide_false (strip_slashes (TrimSpace url) = "")).
Qed.

(** [CleanupURL] gives a canonical form: cleaning twice is cleaning once, and a URL that is not empty ends
    in exactly one slash and has no space around it. *)
Theorem CleanupURL_canonical url :
  CleanupURL (CleanupURL url) = CleanupURL url ∧
  (CleanupURL url = "" ∨
   ∃ u, CleanupURL url = u +:+ "/" ∧ u ≠ "" ∧ HasSuffix u "/" = false ∧ trimmed (CleanupURL url)).
Proof.
  rewrite (CleanupURL_alt url). cbv zeta. set (u := strip_slashes (TrimSpace url)).
  destruct (decide (u = "")) as [Hu|Hu].
  { rewrite (bool_decide_true (u = "")) by done. split; [by vm_compute|by left]. }
  rewrite (bool_decide_false (u = "")) by done.
  assert (TrimSpace (u +:+ "/") = u +:+ "/") as Ht by by apply TrimSpace_append_slash, Hu; apply TrimSpace_trimmed.
  split.
  - assert (strip_slashes (u +:+ "/") = u) as Hs by apply strip_slashes_append.
    rewrite CleanupURL_alt. cbv zeta. rewrite Ht, Hs. by rewrite (bool_decide_false (u = "")) by done.
  - right. exists u. split_and!; [done|done| |].
    + unfold HasSuffix, u, strip_slashes. rewrite chars_of_chars, reverse_involutive.
      destruct (drop_while _ _) as [|a l] eqn:E; [done|].
      assert (bool_decide (a = slash47) = false) as Ha.
      { clear -E. induction (reverse _) as [|x m IH]; simpl in E; [done|].
        destruct (bool_decide (x = slash47)) eqn:Ex; [by apply IH|]. by simplify_eq. }
      change (reverse (chars "/")) with [slash47]. simpl. rewrite bool_decide_eq_false in Ha.
      rewrite bool_decide_false; [done|]. intros ?. by destruct Ha.
    + rewrite <- Ht. apply TrimSpace_trimmed.
Qed.

Lemma str_take_length k s : (String.length (str_take k s) ≤ k)%nat.
Proof. revert k. induction s as [|a s IH]; intros [|k]; simpl; [lia..|]. specialize (IH k). lia. Qed.

(** A message of 254 letters and a two-byte character. *)
Definition ex_message : string :=
  of_chars (replicate 254 "a"%char ++ [ascii_of_N 195; ascii_of_N 169])%list.

Lemma valid_ascii_app n s :
  valid_utf8 s → valid_utf8 (of_chars (replicate n "a"%char ++ chars s)%list).
Proof.
  intros Hs. induction n as [|n IH]; simpl; [by rewrite of_chars_chars|].
  apply valid_step; simpl; [done|exact IH].
Qed.

(** The cut string still starts with the letters; its last byte begins no character. *)
Lemma invalid_letters_app n s :
  valid_utf8 (of_chars (replicate n "a"%char ++ chars s)%list) → valid_utf8 s.
Proof.
  induction n as [|n IH]; simpl; [by rewrite of_chars_chars|].
  intros H. apply IH. inversion H as [|s' _ H']; subst. exact H'.
Qed.

(** [trimString] keeps an error message within its limit of bytes, but cuts inside a character when one
    straddles the limit: a valid message can become a string that is not valid UTF-8. *)
Theorem trimString_cuts_bytes s limit :
  (∃ t, trimString (Some s) limit = Some t ∧ (String.length t ≤ limit)%nat) ∧
  (∃ t, valid_utf8 ex_message ∧ trimString (Some ex_message) 255 = Some t ∧ ¬ valid_utf8 t).
Proof.
  split.
  - unfold trimString. destruct (String.length s <? limit)%nat eqn:E.
    + exists s. split; [done|]. apply Nat.ltb_lt in E. lia.
    + eexists. split; [done|]. apply str_take_length.
  - exists (of_chars (replicate 254 "a"%char ++ chars (String (ascii_of_N 195) ""))%list). split_and!.
    + apply (valid_ascii_app 254 (of_chars [ascii_of_N 195; ascii_of_N 169])).
      apply valid_step; [done|]. apply valid_nil.
    + by vm_compute.
    + intros H%invalid_letters_app. inversion H as [|s' H' _]; subst. by vm_compute in H'.
Qed.
