(* ===== verification/Sha256.v ===== *)
(** * crypto/sha256 and encoding/hex

    Introspection recognises an unchanged repository by the SHA-256 of its [repomd.xml], and package
    groups and module streams are identified by the SHA-256 of their description. This file is
    FIPS 180-4 on bytes, with 32-bit words as numbers below [2^32], and the lower-case hexadecimal
    of the digest. *)

From S2P Require Import Prelude GoSplit.
From stdpp Require Import options.

Open Scope N_scope.

Definition mask32 : N := 4294967295.
Definition add32 (x y : N) : N := N.land (x + y) mask32.
Definition rotr (k x : N) : N := N.lor (N.shiftr x k) (N.land (N.shiftl x (32 - k)) mask32).
Definition xor3 (x y z : N) : N := N.lxor x (N.lxor y z).
Definition Sigma0 (x : N) : N := xor3 (rotr 2 x) (rotr 13 x) (rotr 22 x).
Definition Sigma1 (x : N) : N := xor3 (rotr 6 x) (rotr 11 x) (rotr 25 x).
Definition sigma0 (x : N) : N := xor3 (rotr 7 x) (rotr 18 x) (N.shiftr x 3).
Definition sigma1 (x : N) : N := xor3 (rotr 17 x) (rotr 19 x) (N.shiftr x 10).
Definition choose (x y z : N) : N := N.lxor (N.land x y) (N.land (N.lxor x mask32) z).
Definition majority (x y z : N) : N := xor3 (N.land x y) (N.land x z) (N.land y z).

(** The constants of the standard are the first 32 bits of the fractional parts of the cube roots of the first 64
    primes, and of the square roots of the first eight. *)
Definition primes : list N :=
  base.filter (λ k, forallb (λ j, negb (k mod N.of_nat j =? 0)) (seq 2 (N.to_nat (N.sqrt k) - 1)) = true)
    (N.of_nat <$> seq 2 310).

(** The largest [r] with [r^3 <= x], bit by bit from bit [k - 1] down. *)
Fixpoint cube_root (k : nat) (r x : N) : N :=
  match k with
  | O => r
  | S k' => let r' := r + N.shiftl 1 (N.of_nat k') in cube_root k' (if r' * r' * r' <=? x then r' else r) x
  end.

Definition round_constants : list N :=
  Eval vm_compute in (λ p, N.land (cube_root 40 0 (N.shiftl p 96)) mask32) <$> primes.
Definition root_constants : list N :=
  Eval vm_compute in (λ p, N.land (N.sqrt (N.shiftl p 64)) mask32) <$> take 8 primes.

(** The eight words of the state. *)
Record digest := mk_digest { hA : N; hB : N; hC : N; hD : N; hE : N; hF : N; hG : N; hH : N }.

Definition initial : digest :=
  let h i := default 0 (root_constants !! i) in
  mk_digest (h 0%nat) (h 1%nat) (h 2%nat) (h 3%nat) (h 4%nat) (h 5%nat) (h 6%nat) (h 7%nat).

(** The message schedule, newest word first: 16 words of the block, extended [k] times. *)
Fixpoint schedule (k : nat) (ws : list N) : list N :=
  match k with
  | O => ws
  | S k' =>
      let w i := default 0 (ws !! i) in
      schedule k' (add32 (add32 (sigma1 (w 1%nat)) (w 6%nat)) (add32 (sigma0 (w 14%nat)) (w 15%nat)) :: ws)
  end.

Definition sha_round (s : digest) (kw : N * N) : digest :=
  let t1 := add32 (add32 (add32 s.(hH) (Sigma1 s.(hE))) (choose s.(hE) s.(hF) s.(hG))) (add32 kw.1 kw.2) in
  let t2 := add32 (Sigma0 s.(hA)) (majority s.(hA) s.(hB) s.(hC)) in
  mk_digest (add32 t1 t2) s.(hA) s.(hB) s.(hC) (add32 s.(hD) t1) s.(hE) s.(hF) s.(hG).

Definition sha_block (s : digest) (ws : list N) : digest :=
  let s' := fold_left sha_round (zip round_constants (reverse (schedule 48 (reverse ws)))) s in
  mk_digest (add32 s.(hA) s'.(hA)) (add32 s.(hB) s'.(hB)) (add32 s.(hC) s'.(hC)) (add32 s.(hD) s'.(hD))
            (add32 s.(hE) s'.(hE)) (add32 s.(hF) s'.(hF)) (add32 s.(hG) s'.(hG)) (add32 s.(hH) s'.(hH)).

(** The bytes of the message, a one bit, zeroes up to 56 modulo 64, the length in bits. *)
Definition sha_pad (bytes : list N) : list N :=
  let len := length bytes in
  (bytes ++ 128 :: replicate ((119 - len mod 64) mod 64)%nat 0 ++
    ((λ i, N.land (N.shiftr (8 * N.of_nat len) (8 * i)) 255) <$> [7; 6; 5; 4; 3; 2; 1; 0]))%list.

Fixpoint words (l : list N) : list N :=
  match l with
  | b3 :: b2 :: b1 :: b0 :: l' =>
      N.lor (N.shiftl b3 24) (N.lor (N.shiftl b2 16) (N.lor (N.shiftl b1 8) b0)) :: words l'
  | _ => []
  end.

(** One block of 16 words at a time; [fuel] bounds the number of blocks. *)
Fixpoint sha_blocks (fuel : nat) (s : digest) (ws : list N) : digest :=
  match fuel, ws with
  | S fuel', _ :: _ => sha_blocks fuel' (sha_block s (take 16 ws)) (drop 16 ws)
  | _, _ => s
  end.

Definition Sum256 (bytes : list N) : list N :=
  let ws := words (sha_pad bytes) in
  let s := sha_blocks (length ws) initial ws in
  [s.(hA); s.(hB); s.(hC); s.(hD); s.(hE); s.(hF); s.(hG); s.(hH)].

Definition hex_digit (d : N) : ascii := ascii_of_N (if d <? 10 then 48 + d else 87 + d).
Definition hex_word (w : N) : list ascii :=
  (λ i, hex_digit (N.land (N.shiftr w (4 * i)) 15)) <$> [7; 6; 5; 4; 3; 2; 1; 0].

(** [hex.EncodeToString(sha256.Sum256([]byte(s)))]. *)
Definition sha256_hex (s : string) : string :=
  of_chars (mjoin (hex_word <$> Sum256 (N_of_ascii <$> chars s))).

(** The test vectors of FIPS 180-4: the empty message, one block, two blocks. *)
Example sha256_empty :
  sha256_hex "" = "e3b0c44298fc1c149afbf4c8996fb92427ae41e4649b934ca495991b7852b855"%string.
Proof. by vm_compute. Qed.

Example sha256_abc :
  sha256_hex "abc" = "ba7816bf8f01cfea414140de5dae2223b00361a396177a9cb410ff61f20015ad"%string.
Proof. by vm_compute. Qed.

Example sha256_two_blocks :
  sha256_hex "abcdbcdecdefdefgefghfghighijhijkijkljklmklmnlmnomnopnopq" =
  "248d6a61d20638b8e5c026930c3e6039a33ce45964ff2167f6ecedd419db06c1"%string.
Proof. by vm_compute. Qed.

Lemma length_of_chars l : String.length (of_chars l) = length l.
Proof. induction l as [|a l IH]; [done|]. simpl. by rewrite IH. Qed.

(** A digest is always 64 characters, in particular never the empty string. *)
Lemma sha256_hex_length s : String.length (sha256_hex s) = 64%nat.
Proof. unfold sha256_hex. rewrite length_of_chars. done. Qed.

Lemma sha256_hex_nonempty s : sha256_hex s ≠ ""%string.
Proof. intros H. pose proof (sha256_hex_length s) as Hl. by rewrite H in Hl. Qed.
