(* ===== verification/Content.v ===== *)
(** * pkg/dao: the content of a repository

    The packages, package groups, environments and module streams found by introspection
    ([dao/rpms.go], [dao/package_groups.go], [dao/environments.go], [dao/module_streams.go]). Each kind has a
    table of its own, shared by all repositories, and a table of associations with the repositories;
    [InsertForRepository] makes the associations of one repository those of a list read from the
    repository's metadata.

    The store is one record; a statement of gorm is a [db_call] on it, which may fail. A [Create] of
    many rows runs in batches within one transaction, so that it applies wholly or not at all. Rows
    get their UUID from [uuid.NewString] in the [BeforeCreate] hook: [ids i] is the one drawn for the
    [i]-th row of a call. The structs of the [yum] package carry the fields the code reads. *)

From S2P Require Import Prelude GoStrings GoSplit TxMonad Utils Models Sha256.
From stdpp Require Import options.

Open Scope string_scope.

(** ** The tables *)

Record table (R : Type) := mk_table { rows : gmap uuid R; links : gset (uuid * uuid) }.
Arguments mk_table {R}.
Arguments rows {R}.
Arguments links {R}.

(** models/rpm.go *)
Record Rpm := mk_Rpm {
  rpm_Name : string; rpm_Arch : string; rpm_Version : string; rpm_Release : string;
  rpm_Epoch : Z; rpm_Summary : string; rpm_Checksum : string }.

(** models/package_group.go *)
Record PackageGroup := mk_PackageGroup {
  pg_ID : string; pg_Name : string; pg_Description : string; pg_PackageList : list string; pg_HashValue : string }.

(** models/environment.go *)
Record Environment := mk_Environment { env_ID : string; env_Name : string; env_Description : string }.

(** models/module_stream.go *)
Record ModuleStream := mk_ModuleStream {
  ms_Name : string; ms_Stream : string; ms_Version : string; ms_Context : string; ms_Arch : string;
  ms_Summary : string; ms_Description : string; ms_PackageNames : list string; ms_Packages : list string;
  ms_Profiles : gmap string (list string); ms_HashValue : string }.

Record store := mk_store {
  repositories : gmap uuid Repository;
  t_rpms : table Rpm;
  t_package_groups : table PackageGroup;
  t_environments : table Environment;
  t_module_streams : table ModuleStream
}.

(** Where a table lives in the store. *)
Record tbl (R : Type) := mk_tbl { tget : store → table R; tset : table R → store → store }.
Arguments mk_tbl {R}.
Arguments tget {R}.
Arguments tset {R}.

Definition Rpms : tbl Rpm := mk_tbl t_rpms
  (λ t d, mk_store d.(repositories) t d.(t_package_groups) d.(t_environments) d.(t_module_streams)).
Definition PackageGroups : tbl PackageGroup := mk_tbl t_package_groups
  (λ t d, mk_store d.(repositories) d.(t_rpms) t d.(t_environments) d.(t_module_streams)).
Definition Environments : tbl Environment := mk_tbl t_environments
  (λ t d, mk_store d.(repositories) d.(t_rpms) d.(t_package_groups) t d.(t_module_streams)).
Definition ModuleStreams : tbl ModuleStream := mk_tbl t_module_streams
  (λ t d, mk_store d.(repositories) d.(t_rpms) d.(t_package_groups) d.(t_environments) t).

(** ** Statements *)

Abbreviation DB := (M store string).

(** The rows that satisfy [p], in the order of the table. *)
Definition matching {R} (p : R → bool) (m : gmap uuid R) : list (uuid * R) :=
  base.filter (λ kv, p kv.2 = true) (map_to_list m).

(** [Where(p).Pluck(column, &l)]. *)
Definition pluck {R A} (T : tbl R) (p : R → bool) (column : uuid * R → A) : DB (list A) :=
  db_call (λ d, (inr (column <$> matching p (tget T d).(rows)), d)).

(** One row of an INSERT. [conflict old new] tells which stored rows an [ON CONFLICT ... DO NOTHING]
    clause looks at; the primary key has no such clause. *)
Definition insert_row {R} (conflict : R → R → bool) (u : uuid) (r : R) (m : gmap uuid R) : option (gmap uuid R) :=
  if existsb (λ kv, conflict kv.2 r) (map_to_list m) then Some m
  else match m !! u with Some _ => None | None => Some (<[u := r]> m) end.

Fixpoint insert_rows {R} (conflict : R → R → bool) (ids : nat → uuid) (i : nat) (l : list R)
    (m : gmap uuid R) : option (gmap uuid R) :=
  match l with
  | [] => Some m
  | r :: l' => m' ← insert_row conflict (ids i) r m; insert_rows conflict ids (S i) l' m'
  end.

(** The first error of the [BeforeCreate] hooks of the rows. *)
Definition hook_error {R} (hook : R → option string) (l : list R) : option string :=
  head (omap hook l).

Definition create_rows {R} (T : tbl R) (hook : R → option string) (conflict : R → R → bool)
    (ids : nat → uuid) (l : list R) : DB () :=
  db_call (λ d,
    match hook_error hook l with
    | Some e => (inl e, d)
    | None =>
        match insert_rows conflict ids 0 l (tget T d).(rows) with
        | None => (inl "duplicate key value violates unique constraint", d)
        | Some m => (inr (), tset T (mk_table m (tget T d).(links)) d)
        end
    end).

(** INSERT of associations, ON CONFLICT on the pair DO NOTHING; the value is [RowsAffected]. [None] is an
    association whose UUIDs are the empty string, which Postgres refuses. *)
Fixpoint insert_links {R} (d : store) (m : gmap uuid R) (n : Z) (l : list (option (uuid * uuid)))
    (ls : gset (uuid * uuid)) : string + Z * gset (uuid * uuid) :=
  match l with
  | [] => inr (n, ls)
  | None :: _ => inl "invalid input syntax for type uuid"
  | Some (repo, u) :: l' =>
      if bool_decide ((repo, u) ∈ ls) then insert_links d m n l' ls
      else if bool_decide (is_Some (d.(repositories) !! repo)) && bool_decide (is_Some (m !! u))
      then insert_links d m (n + 1) l' ({[(repo, u)]} ∪ ls)
      else inl "insert violates foreign key constraint"
  end.

Definition create_links {R} (T : tbl R) (l : list (option (uuid * uuid))) : DB Z :=
  db_call (λ d,
    match insert_links d (tget T d).(rows) 0 l (tget T d).(links) with
    | inl e => (inl e, d)
    | inr (n, ls) => (inr n, tset T (mk_table (tget T d).(rows) ls) d)
    end).

(** [Where("repository_uuid = ?", repo)] on the associations. *)
Definition linked (repo : uuid) (ls : gset (uuid * uuid)) : list uuid :=
  snd <$> base.filter (λ l, l.1 = repo) (elements ls).

Definition pluck_links {R} (T : tbl R) (repo : uuid) : DB (list uuid) :=
  db_call (λ d, (inr (linked repo (tget T d).(links)), d)).

(** DELETE of the associations of [repo] whose content satisfies [p]. *)
Definition delete_links {R} (T : tbl R) (repo : uuid) (p : uuid → bool) : DB () :=
  db_call (λ d, (inr (), tset T (mk_table (tget T d).(rows)
    (base.filter (λ l, ¬ (l.1 = repo ∧ p l.2 = true)) (tget T d).(links))) d)).

(** DELETE of rows; the foreign keys of the associations cascade. *)
Definition delete_rows {R} (T : tbl R) (p : uuid → bool) : DB () :=
  db_call (λ d, (inr (), tset T (mk_table
    (base.filter (λ kv, p kv.1 = false) (tget T d).(rows))
    (base.filter (λ l, p l.2 = false) (tget T d).(links))) d)).

(** [x IN (?)] and [x NOT IN (?)]: gorm renders an empty slice as [(NULL)], for which both conditions
    are unknown, hence not satisfied. *)
Definition sql_in {A} `{EqDecision A} (l : list A) (x : A) : bool := contains l x.
Definition sql_not_in {A} `{EqDecision A} (l : list A) (x : A) : bool :=
  match l with [] => false | _ => negb (contains l x) end.

(** A row without any association. *)
Definition unlinked {R} (t : table R) (u : uuid) : bool :=
  negb (existsb (λ l, l.2 == u) (elements t.(links))).

(** ** dao/rpms.go *)

Definition errorf (prefix e : string) : string := prefix +:+ ": " +:+ e.

Definition fetchRepo (id : uuid) : DB uuid :=
  db_call (λ d, match d.(repositories) !! id with
                | Some _ => (inr id, d)
                | None => (inl "record not found", d)
                end).

Definition DbInClauseLimit : nat := N.to_nat 60000.

Definition stringInSlice (a : string) (l : list string) : bool := contains l a.

(** The map built from [b] is its set of elements. *)
Definition difference (a b : list uuid) : list uuid := base.filter (λ x, contains b x = false) a.

Record yum_Package := mk_yum_Package {
  yp_Name : string; yp_Arch : string; yp_Version : string; yp_Release : string; yp_Epoch : Z;
  yp_Checksum : string; yp_Summary : string }.

Fixpoint FilteredConvert (yumPkgs : list yum_Package) (excludeChecksums : list string) : list Rpm :=
  match yumPkgs with
  | [] => []
  | p :: ps =>
      if negb (stringInSlice p.(yp_Checksum) excludeChecksums)
      then mk_Rpm p.(yp_Name) p.(yp_Arch) p.(yp_Version) p.(yp_Release) p.(yp_Epoch) p.(yp_Summary) p.(yp_Checksum)
           :: FilteredConvert ps excludeChecksums
      else FilteredConvert ps excludeChecksums
  end.

(** models/rpm.go: the validations of the hook. *)
Definition Rpm_BeforeCreate (r : Rpm) : option string :=
  if r.(rpm_Name) == "" then Some "Name cannot be empty" else
  if r.(rpm_Arch) == "" then Some "Arch cannot be empty" else
  if r.(rpm_Version) == "" then Some "Version cannot be empty" else
  if (r.(rpm_Epoch) <? 0)%Z then Some "Epoch cannot be lower than 0" else
  if r.(rpm_Summary) == "" then Some "Summary cannot be empty" else
  if r.(rpm_Checksum) == "" then Some "Checksum cannot be empty" else None.

Definition prepRepositoryRpms (repo : uuid) (rpm_uuids : list uuid) : list (option (uuid * uuid)) :=
  (λ u, Some (repo, u)) <$> rpm_uuids.

(** [for i := 0; i < len(checksums); i = i + DbInClauseLimit { ... }]: [query] on each slice, the results
    appended. [fuel] bounds the number of rounds. *)
Fixpoint in_batches {A} (lim : nat) (query : list string → DB (list A)) (fuel i : nat)
    (checksums : list string) (acc : list A) : DB (list A) :=
  match fuel with
  | O => mret acc
  | S fuel' =>
      if (i <? length checksums)%nat then
        let final := (if (length checksums - 1 <? i + lim)%nat then length checksums else i + lim)%nat in
        batch ← query (take (final - i) (drop i checksums));
        in_batches lim query fuel' (i + lim) checksums (acc ++ batch)%list
      else mret acc
  end.

Definition by_checksum (l : list string) (r : Rpm) : bool := sql_in l r.(rpm_Checksum).

Definition Rpm_deleteUnneeded (repo : uuid) (rpm_uuids : list uuid) : DB () :=
  existing ← pluck_links Rpms repo;
  let rpmsToDelete := difference existing rpm_uuids in
  delete_links Rpms repo (sql_in rpmsToDelete).

Definition Rpm_InsertForRepository (lim : nat) (ids : nat → uuid) (repoUuid : uuid) (pkgs : list yum_Package) : DB Z :=
  repo ← map_err (errorf "failed to fetchRepo") (fetchRepo repoUuid);
  let checksums := yp_Checksum <$> pkgs in
  existingChecksums ← in_batches lim (λ l, map_err (errorf "failed retrieving existing checksum in rpms")
    (pluck Rpms (by_checksum l) (λ kv, kv.2.(rpm_Checksum)))) (length checksums) 0 checksums [];
  let dbPkgs := FilteredConvert pkgs existingChecksums in
  _ ← map_err (errorf "failed to PagedRpmInsert")
    (create_rows Rpms Rpm_BeforeCreate (λ old new, old.(rpm_Checksum) == new.(rpm_Checksum)) ids dbPkgs);
  rpmUuids ← in_batches lim (λ l, map_err (errorf "failed retrieving rpms.uuid for the package checksums")
    (pluck Rpms (by_checksum l) fst)) (length checksums) 0 checksums [];
  _ ← map_err (errorf "failed to deleteUnneeded") (Rpm_deleteUnneeded repo rpmUuids);
  map_err (errorf "failed to Create") (create_links Rpms (prepRepositoryRpms repo rpmUuids)).

Definition OrphanCleanup {R} (T : tbl R) : DB () :=
  dangling ← db_call (λ d, (inr (base.filter (λ u, unlinked (tget T d) u = true)
                                   (map_to_list (tget T d).(rows)).*1), d));
  if (length dangling =? 0)%nat then mret () else delete_rows T (sql_in dangling).

Definition Rpm_OrphanCleanup : DB () := OrphanCleanup Rpms.

(** ** dao/package_groups.go *)

(** [fmt.Sprint] of a slice of strings. *)
Definition Sprint_slice (l : list string) : string := "[" +:+ strings_Join " " l +:+ "]".

Definition generateHash (input : string) : string := sha256_hex input.

Record yum_PackageGroup := mk_yum_PackageGroup {
  yg_ID : string; yg_Name : string; yg_Description : string; yg_PackageList : list string }.

(** [concatenateStrings(ID, Name, PackageList)]. *)
Definition concatenateStrings (id name : string) (packages : list string) : string :=
  id +:+ name +:+ Sprint_slice packages.

Definition group_hash (g : yum_PackageGroup) : string :=
  generateHash (concatenateStrings g.(yg_ID) g.(yg_Name) g.(yg_PackageList)).

Fixpoint FilteredConvertPackageGroups (yumPkgGroups : list yum_PackageGroup) (excludedHashes : list string) :
    list PackageGroup :=
  match yumPkgGroups with
  | [] => []
  | g :: gs =>
      if negb (stringInSlice (group_hash g) excludedHashes)
      then mk_PackageGroup g.(yg_ID) g.(yg_Name) g.(yg_Description) g.(yg_PackageList) (group_hash g)
           :: FilteredConvertPackageGroups gs excludedHashes
      else FilteredConvertPackageGroups gs excludedHashes
  end.

Definition PackageGroup_BeforeCreate (r : PackageGroup) : option string :=
  if r.(pg_ID) == "" then Some "ID cannot be empty" else
  if r.(pg_Name) == "" then Some "Name cannot be empty" else None.

Definition prepRepositoryPackageGroups (repo : uuid) (package_group_uuids : list uuid) : list (option (uuid * uuid)) :=
  (λ u, Some (repo, u)) <$> package_group_uuids.

Definition PackageGroup_deleteUnneeded (repo : uuid) (package_group_uuids : list uuid) : DB () :=
  existing ← pluck_links PackageGroups repo;
  let packageGroupsToDelete := difference existing package_group_uuids in
  delete_links PackageGroups repo (sql_in packageGroupsToDelete).

Definition by_group_hash (l : list string) (r : PackageGroup) : bool := sql_in l r.(pg_HashValue).

(** [hashValues] is made with the length of the input and then appended to: it starts with that many
    empty strings. The table has no unique key but the UUID. *)
Definition PackageGroup_InsertForRepository (ids : nat → uuid) (repoUuid : uuid) (pkgGroups : list yum_PackageGroup) : DB Z :=
  repo ← map_err (errorf "failed to fetchRepo") (fetchRepo repoUuid);
  let hashValues := (replicate (length pkgGroups) "" ++ (group_hash <$> pkgGroups))%list in
  existingHashes ← map_err (errorf "failed retrieving existing id in package_groups")
    (pluck PackageGroups (by_group_hash hashValues) (λ kv, kv.2.(pg_HashValue)));
  let dbPkgGroups := FilteredConvertPackageGroups pkgGroups existingHashes in
  _ ← map_err (λ _, "failed to PagedPackageGroupInsert: %!w(<nil>)")
    (create_rows PackageGroups PackageGroup_BeforeCreate (λ _ _, false) ids dbPkgGroups);
  pkgGroupUuids ← map_err (errorf "failed retrieving package_groups.uuid for the given package groups")
    (pluck PackageGroups (by_group_hash hashValues) fst);
  _ ← map_err (errorf "failed to deleteUnneeded") (PackageGroup_deleteUnneeded repo pkgGroupUuids);
  map_err (errorf "failed to Create") (create_links PackageGroups (prepRepositoryPackageGroups repo pkgGroupUuids)).

Definition PackageGroup_OrphanCleanup : DB () := OrphanCleanup PackageGroups.

(** ** dao/environments.go *)

Record yum_Environment := mk_yum_Environment { ye_ID : string; ye_Name : string; ye_Description : string }.

Fixpoint FilteredConvertEnvironments (yumEnvironments : list yum_Environment) (excludedEnvs : list string) : list Environment :=
  match yumEnvironments with
  | [] => []
  | e :: es =>
      if negb (stringInSlice e.(ye_ID) excludedEnvs)
      then mk_Environment e.(ye_ID) e.(ye_Name) e.(ye_Description) :: FilteredConvertEnvironments es excludedEnvs
      else FilteredConvertEnvironments es excludedEnvs
  end.

Definition Environment_BeforeCreate (r : Environment) : option string :=
  if r.(env_ID) == "" then Some "ID cannot be empty" else
  if r.(env_Name) == "" then Some "Name cannot be empty" else None.

Definition prepRepositoryEnvironments (repo : uuid) (environmentUuids : list uuid) : list (option (uuid * uuid)) :=
  (λ u, Some (repo, u)) <$> environmentUuids.

Definition Environment_deleteUnneeded (repo : uuid) (environmentUuids : list uuid) : DB () :=
  existing ← pluck_links Environments repo;
  let environmentsToDelete := difference existing environmentUuids in
  delete_links Environments repo (sql_in environmentsToDelete).

(** [Where("id in (?)", ids).Where("name in (?)", names)]: the two conditions are independent. *)
Definition by_id_and_name (ids names : list string) (r : Environment) : bool :=
  sql_in ids r.(env_ID) && sql_in names r.(env_Name).

Definition Environment_InsertForRepository (newids : nat → uuid) (repoUuid : uuid) (environments : list yum_Environment) : DB Z :=
  repo ← map_err (errorf "failed to fetchRepo") (fetchRepo repoUuid);
  let ids := ye_ID <$> environments in
  let names := ye_Name <$> environments in
  existingEnvs ← map_err (errorf "failed retrieving existing id in environments")
    (pluck Environments (by_id_and_name ids names) (λ kv, kv.2.(env_ID)));
  let dbEnvironments := FilteredConvertEnvironments environments existingEnvs in
  _ ← map_err (λ _, "failed to PagedEnvironmentInsert: %!w(<nil>)")
    (create_rows Environments Environment_BeforeCreate (λ _ _, false) newids dbEnvironments);
  environmentUuids ← map_err (errorf "failed retrieving environments.uuid for the given environments")
    (pluck Environments (by_id_and_name ids names) fst);
  _ ← map_err (errorf "failed to deleteUnneeded") (Environment_deleteUnneeded repo environmentUuids);
  map_err (errorf "failed to Create") (create_links Environments (prepRepositoryEnvironments repo environmentUuids)).

Definition Environment_OrphanCleanup : DB () := OrphanCleanup Environments.

(** ** dao/module_streams.go *)

Record yum_ModuleMD := mk_yum_ModuleMD {
  ym_Name : string; ym_Stream : string; ym_Version : string; ym_Context : string; ym_Arch : string;
  ym_Summary : string; ym_Description : string; ym_Rpms : list string; ym_Profiles : gmap string (list string) }.

Definition dash : ascii := ascii_of_N 45.

Definition extractRpmName (nvrea : string) : string :=
  let parts := strings_Split dash nvrea in
  if (length parts <? 3)%nat then nvrea else strings_Join "-" (take (length parts - 2) parts).

(** models/module_stream.go *)
Definition ToHashString (name stream version context arch description : string) (packageNames : list string) : string :=
  strings_Join "-" [name; stream; version; context; arch; description; Sprint_slice packageNames].

Definition module_stream (m : yum_ModuleMD) : ModuleStream :=
  let packageNames := slices_Sort (extractRpmName <$> m.(ym_Rpms)) in
  mk_ModuleStream m.(ym_Name) m.(ym_Stream) m.(ym_Version) m.(ym_Context) m.(ym_Arch) m.(ym_Summary)
    m.(ym_Description) packageNames m.(ym_Rpms) m.(ym_Profiles)
    (generateHash (ToHashString m.(ym_Name) m.(ym_Stream) m.(ym_Version) m.(ym_Context) m.(ym_Arch)
                     m.(ym_Description) packageNames)).

Definition ModuleMdToModuleStreams (moduleMds : list yum_ModuleMD) : list ModuleStream := module_stream <$> moduleMds.

Definition ModuleStream_deleteUnneeded (repo : uuid) (moduleStreamUUIDs : list uuid) : DB () :=
  delete_links ModuleStreams repo (sql_not_in moduleStreamUUIDs).

(** [repoModStreams] has the length of [moduleStreams]; the loop over [uuids] fills its front, and
    indexing past the end panics. *)
Definition prepRepositoryModuleStreams (repo : uuid) (n : nat) (uuids : list uuid) : option (list (option (uuid * uuid))) :=
  if (n <? length uuids)%nat then None
  else Some (((λ u, Some (repo, u)) <$> uuids) ++ replicate (n - length uuids) None)%list.

Definition by_module_hash (l : list string) (r : ModuleStream) : bool := sql_in l r.(ms_HashValue).

Definition ModuleStream_InsertForRepository (ids : nat → uuid) (repoUuid : uuid) (modules : list yum_ModuleMD) : DB Z :=
  repo ← map_err (errorf "failed to fetchRepo") (fetchRepo repoUuid);
  let moduleStreams := ModuleMdToModuleStreams modules in
  _ ← map_err (errorf "failed to insert module streams")
    (create_rows ModuleStreams (λ _, None) (λ old new, old.(ms_HashValue) == new.(ms_HashValue)) ids moduleStreams);
  let hashes := (replicate (length moduleStreams) "" ++ (ms_HashValue <$> moduleStreams))%list in
  uuids ← map_err (errorf "failed retrieving existing ids in module_streams")
    (pluck ModuleStreams (by_module_hash hashes) fst);
  _ ← map_err (errorf "failed to delete unneeded module streams") (ModuleStream_deleteUnneeded repo uuids);
  match prepRepositoryModuleStreams repo (length moduleStreams) uuids with
  | None => throw "index out of range"
  | Some repoModStreams =>
      _ ← map_err (errorf "failed to insert repo module streams") (create_links ModuleStreams repoModStreams);
      mret (Z.of_nat (length repoModStreams))
  end.

(** [NOT EXISTS (select from repositories_module_streams where ...)], in one statement. *)
Definition ModuleStream_OrphanCleanup : DB () :=
  db_call (λ d, (inr (), tset ModuleStreams (mk_table
    (base.filter (λ kv, unlinked (tget ModuleStreams d) kv.1 = false) (tget ModuleStreams d).(rows))
    (tget ModuleStreams d).(links)) d)).
