(* ===== verification/ContentTables.v ===== *)
(** * Lemmas on the content tables

    What the statements of [Content.v] do to one table: a frame shared by all kinds of content (rows are
    only added, the associations of other repositories and the other tables are left alone, foreign keys
    hold), and the effect of a successful run. *)

From S2P Require Import Prelude TxMonad Content.
From stdpp Require Import options.

Open Scope string_scope.

(** A lens into the store that leaves the repositories alone. *)
Class TableLaws {R} (T : tbl R) := {
  tget_tset t d : tget T (tset T t d) = t;
  tset_tset t t' d : tset T t (tset T t' d) = tset T t d;
  tset_tget d : tset T (tget T d) d = d;
  tset_repositories t d : (tset T t d).(repositories) = d.(repositories)
}.

#[global] Instance Rpms_laws : TableLaws Rpms.
Proof. split; try done. by intros []. Qed.
#[global] Instance PackageGroups_laws : TableLaws PackageGroups.
Proof. split; try done. by intros []. Qed.
#[global] Instance Environments_laws : TableLaws Environments.
Proof. split; try done. by intros []. Qed.
#[global] Instance ModuleStreams_laws : TableLaws ModuleStreams.
Proof. split; try done. by intros []. Qed.

(** ** Rows *)

Section Rows.
Context {R : Type}.
Implicit Types (m : gmap uuid R) (conflict : R → R → bool).

Lemma elem_of_matching (p : R → bool) m u r : (u, r) ∈ matching p m ↔ m !! u = Some r ∧ p r = true.
Proof. unfold matching. rewrite list_elem_of_filter, elem_of_map_to_list. simpl. tauto. Qed.

(** The conflict test sees every stored row. *)
Lemma conflict_exists conflict r m :
  existsb (λ kv, conflict kv.2 r) (map_to_list m) = true ↔ ∃ u r', m !! u = Some r' ∧ conflict r' r = true.
Proof.
  rewrite existsb_exists. split.
  - intros ([u r'] & H%list_elem_of_In & Hc). apply elem_of_map_to_list in H. eauto.
  - intros (u & r' & H & Hc). exists (u, r'). split; [|done]. by apply list_elem_of_In, elem_of_map_to_list.
Qed.

Lemma insert_row_spec conflict u r m m' :
  insert_row conflict u r m = Some m' →
  (m' = m ∧ ∃ u' r', m !! u' = Some r' ∧ conflict r' r = true) ∨
  (m' = <[u := r]> m ∧ m !! u = None ∧ ∀ u' r', m !! u' = Some r' → conflict r' r = false).
Proof.
  unfold insert_row. intros H.
  destruct (existsb _ _) eqn:He; simplify_eq.
  - left. split; [done|]. by apply conflict_exists.
  - destruct (m !! u) eqn:Hu; simplify_eq. right. split_and!; [done..|].
    intros u' r' Hr. apply not_true_is_false. intros Hc.
    assert (existsb (λ kv, conflict kv.2 r) (map_to_list m) = true) by (apply conflict_exists; eauto).
    congruence.
Qed.

Lemma insert_row_subseteq conflict u r m m' : insert_row conflict u r m = Some m' → m ⊆ m'.
Proof. intros [[-> _]|(-> & Hu & _)]%insert_row_spec; [done|]. by apply insert_subseteq. Qed.

Lemma insert_rows_subseteq conflict ids i l m m' : insert_rows conflict ids i l m = Some m' → m ⊆ m'.
Proof.
  revert i m. induction l as [|r l IH]; simpl; intros i m H; simplify_eq; [done|].
  apply bind_Some in H as (m1 & H1 & H2). transitivity m1; [by eapply insert_row_subseteq|by eapply IH].
Qed.

(** Every row asked for is stored, or a row it conflicts with is. *)
Lemma insert_rows_covers conflict ids i l m m' r :
  insert_rows conflict ids i l m = Some m' → r ∈ l →
  ∃ u r', m' !! u = Some r' ∧ (r' = r ∨ conflict r' r = true).
Proof.
  revert i m. induction l as [|r0 l IH]; simpl; intros i m H Hr; [by apply elem_of_nil in Hr|].
  apply bind_Some in H as (m1 & H1 & H2). apply elem_of_cons in Hr as [->|Hr]; [|by eapply IH].
  pose proof (insert_rows_subseteq _ _ _ _ _ _ H2) as Hs.
  destruct (insert_row_spec _ _ _ _ _ H1) as [(-> & u & r' & Hu & Hc)|(-> & _ & _)].
  - exists u, r'. split; [|by right]. by eapply lookup_weaken.
  - exists (ids i), r0. split; [|by left]. eapply lookup_weaken; [|done]. apply lookup_insert_eq.
Qed.

Lemma insert_rows_origin conflict ids i l m m' u r :
  insert_rows conflict ids i l m = Some m' → m' !! u = Some r → m !! u = Some r ∨ r ∈ l.
Proof.
  revert i m. induction l as [|r0 l IH]; simpl; intros i m H Hu; simplify_eq; [by left|].
  apply bind_Some in H as (m1 & H1 & H2). destruct (IH _ _ H2 Hu) as [Hm|Hl]; [|right; by right].
  destruct (insert_row_spec _ _ _ _ _ H1) as [(-> & _)|(-> & _ & _)]; [by left|].
  apply lookup_insert_Some in Hm as [[_ <-]|[_ Hm]]; [right; by left|by left].
Qed.

(** No two rows share a key. *)
Definition key_unique (key : R → string) m : Prop :=
  ∀ u u' r r', m !! u = Some r → m !! u' = Some r' → key r = key r' → u = u'.

Lemma insert_rows_unique (key : R → string) ids i l m m' :
  insert_rows (λ old new, key old == key new) ids i l m = Some m' → key_unique key m → key_unique key m'.
Proof.
  revert i m. induction l as [|r l IH]; simpl; intros i m H Hk; simplify_eq; [done|].
  apply bind_Some in H as (m1 & H1 & H2). eapply IH; [done|].
  destruct (insert_row_spec _ _ _ _ _ H1) as [(-> & _)|(-> & _ & Hc)]; [done|].
  intros u u' r1 r2 [[<- <-]|[_ Hu]]%lookup_insert_Some [[<- <-]|[_ Hu']]%lookup_insert_Some He; try done.
  - specialize (Hc _ _ Hu'). by rewrite bool_decide_eq_false in Hc.
  - specialize (Hc _ _ Hu). by rewrite bool_decide_eq_false in Hc.
  - by eapply Hk.
Qed.

(** Distinct fresh UUIDs never violate the primary key. *)
Lemma insert_rows_total conflict ids i l m :
  (∀ j, i ≤ j < i + length l → m !! ids j = None) → (∀ j k, ids j = ids k → j = k) →
  is_Some (insert_rows conflict ids i l m).
Proof.
  revert i m. induction l as [|r l IH]; simpl; intros i m Hf Hinj; [by eexists|].
  unfold insert_row. destruct (existsb _ _); simpl.
  - apply IH; [|done]. intros j Hj. apply Hf. lia.
  - rewrite (Hf i) by lia. simpl. apply IH; [|done]. intros j Hj.
    rewrite lookup_insert_ne; [apply Hf; lia|]. intros He%Hinj. lia.
Qed.
End Rows.

(** ** Associations *)

Lemma elem_of_linked repo ls u : u ∈ linked repo ls ↔ (repo, u) ∈ ls.
Proof.
  unfold linked. rewrite list_elem_of_fmap. split.
  - intros ([r v] & -> & H). apply list_elem_of_filter in H as [<- H]. by apply elem_of_elements.
  - intros H. exists (repo, u). split; [done|]. apply list_elem_of_filter. split; [done|]. by apply elem_of_elements.
Qed.

Lemma difference_elem a l u : u ∈ difference a l ↔ u ∈ a ∧ u ∉ l.
Proof. unfold difference. rewrite list_elem_of_filter, contains_false. tauto. Qed.

Lemma unlinked_true {R} (t : table R) u : unlinked t u = true ↔ ∀ repo, (repo, u) ∉ t.(links).
Proof.
  unfold unlinked. rewrite negb_true_iff, <- not_true_iff_false, existsb_exists. split.
  - intros H repo Hl. apply H. exists (repo, u). split; [|by apply bool_decide_eq_true].
    by apply list_elem_of_In, elem_of_elements.
  - intros H ([repo v] & Hl%list_elem_of_In & Hv%bool_decide_eq_true). simpl in Hv. subst v.
    by apply (H repo), elem_of_elements.
Qed.

(** A successful INSERT adds the pairs and counts the new ones. *)
Lemma insert_links_inr {R} d (m : gmap uuid R) n l ls n' ls' :
  insert_links d m n l ls = inr (n', ls') →
  (None ∉ l) ∧ (∀ p, p ∈ ls' ↔ p ∈ ls ∨ Some p ∈ l) ∧ n' = (n + Z.of_nat (size (ls' ∖ ls)))%Z ∧
  (∀ repo u, (repo, u) ∈ ls' → (repo, u) ∉ ls → is_Some (d.(repositories) !! repo) ∧ is_Some (m !! u)).
Proof.
  revert n ls. induction l as [|[[repo u]|] l IH]; cbn [insert_links]; intros n ls H; [| |done].
  - simplify_eq. split_and!; [apply not_elem_of_nil| | |].
    + intros p. split; [by left|]. intros [?|?%elem_of_nil]; done.
    + rewrite difference_diag_L, size_empty. lia.
    + intros ????. done.
  - case_bool_decide as Hin.
    + destruct (IH _ _ H) as (HN & Hp & Hn & Hk). split_and!; [| |done|done].
      * intros [?|?]%elem_of_cons; done.
      * intros p. rewrite Hp, elem_of_cons. split; [tauto|]. intros [?|[[= ->]|?]]; auto.
    + destruct (bool_decide _ && bool_decide _) eqn:Hb; [|done].
      apply andb_true_iff in Hb as [Hr%bool_decide_eq_true Hm%bool_decide_eq_true].
      destruct (IH _ _ H) as (HN & Hp & Hn & Hk). split_and!.
      * intros [?|?]%elem_of_cons; done.
      * intros p. rewrite Hp, elem_of_union, elem_of_singleton, elem_of_cons. split.
        -- intros [[->|?]|?]; auto.
        -- intros [?|[[= ->]|?]]; auto.
      * rewrite Hn. replace (ls' ∖ ls) with ({[(repo, u)]} ∪ (ls' ∖ ({[(repo, u)]} ∪ ls))).
        { rewrite (size_union {[(repo, u)]} (ls' ∖ ({[(repo, u)]} ∪ ls)))
            by (clear; set_solver).
          rewrite (size_singleton (repo, u)). lia. }
        apply set_eq. intros p. rewrite elem_of_union, !elem_of_difference, elem_of_union, elem_of_singleton.
        destruct (decide (p = (repo, u))) as [->|Hne]; [|tauto].
        split; [|tauto]. intros _. split; [|done]. apply Hp. left.
        by apply elem_of_union_l, elem_of_singleton.
      * intros repo' u' Hp' Hl'. destruct (decide ((repo', u') = (repo, u))) as [[= -> ->]|Hne]; [done|].
        apply (Hk repo' u'); [done|]. rewrite elem_of_union, elem_of_singleton. tauto.
Qed.

(** Pairs whose ends exist are accepted. *)
Lemma insert_links_total {R} d (m : gmap uuid R) n repo us ls :
  is_Some (d.(repositories) !! repo) → (∀ u, u ∈ us → is_Some (m !! u)) →
  ∃ r, insert_links d m n ((λ u, Some (repo, u)) <$> us) ls = inr r.
Proof.
  revert n ls. induction us as [|u us IH]; intros n ls Hr Hu; cbn [insert_links fmap list_fmap].
  - eexists; done.
  - case_bool_decide; [apply IH; auto; intros; apply Hu; by right|].
    rewrite !bool_decide_true by (done || (apply Hu; left)). apply IH; [done|]. intros. apply Hu. by right.
Qed.

(** ** The frame of an operation on one repository *)

Section Frame.
#[local] Set Default Proof Using "Type*".
Context {R : Type} (T : tbl R) `{!TableLaws T}.
(** What the rows satisfy, besides the foreign keys. *)
Context (Inv : gmap uuid R → Prop).

Definition links_ok (d : store) : Prop :=
  ∀ repo u, (repo, u) ∈ (tget T d).(links) →
    is_Some (d.(repositories) !! repo) ∧ is_Some ((tget T d).(rows) !! u).

Definition table_ok (d : store) : Prop := Inv (tget T d).(rows) ∧ links_ok d.

(** From [d0] to [d] only this table changed, rows were only added, and so were or went associations of
    [repo] alone. *)
Definition framed (repo : uuid) (d0 d : store) : Prop :=
  d = tset T (tget T d) d0 ∧ (tget T d0).(rows) ⊆ (tget T d).(rows) ∧
  ∀ repo' u, repo' ≠ repo → (repo', u) ∈ (tget T d).(links) ↔ (repo', u) ∈ (tget T d0).(links).

Definition frame (repo : uuid) (d0 d : store) : Prop := table_ok d ∧ framed repo d0 d.

Lemma frame_refl repo d : table_ok d → frame repo d d.
Proof. intros H. split; [done|]. split_and!; [by rewrite tset_tget|done|done]. Qed.

Lemma framed_repositories repo d0 d : framed repo d0 d → d.(repositories) = d0.(repositories).
Proof. intros (-> & _). by rewrite tset_repositories. Qed.

(** A new value of the table that extends the rows. *)
Lemma frame_set repo d0 d t :
  frame repo d0 d → Inv t.(rows) →
  (∀ r u, (r, u) ∈ t.(links) → is_Some (d.(repositories) !! r) ∧ is_Some (t.(rows) !! u)) →
  (tget T d).(rows) ⊆ t.(rows) →
  (∀ r u, r ≠ repo → (r, u) ∈ t.(links) ↔ (r, u) ∈ (tget T d).(links)) →
  frame repo d0 (tset T t d).
Proof.
  intros [Hok (Hd & Hr & Hl)] Hi Hk Hs Hl'. split.
  - split; [by rewrite tget_tset|]. intros r u. rewrite tget_tset, tset_repositories. apply Hk.
  - split_and!; rewrite ?tget_tset.
    + rewrite Hd at 1. by rewrite tset_tset.
    + by transitivity (tget T d).(rows).
    + intros r u Hne. rewrite Hl' by done. by apply Hl.
Qed.

Abbreviation framed_op repo m := (∀ d0, hoare (frame repo d0) m (λ _, frame repo d0) (λ _, frame repo d0)).

Lemma frame_pluck {A} repo p (column : uuid * R → A) : framed_op repo (pluck T p column).
Proof. intros d0. by apply hoare_call. Qed.

Lemma frame_pluck_links repo : framed_op repo (pluck_links T repo).
Proof. intros d0. by apply hoare_call. Qed.

Lemma frame_fetchRepo repo id : framed_op repo (fetchRepo id).
Proof. intros d0. apply hoare_call; [done|]. intros d H. by destruct (d.(repositories) !! id). Qed.

Lemma frame_create_rows repo hook conflict ids l :
  (∀ i m m', insert_rows conflict ids i l m = Some m' → Inv m → Inv m') →
  framed_op repo (create_rows T hook conflict ids l).
Proof.
  intros HInv d0. apply hoare_call; [done|]. intros d H.
  destruct (hook_error hook l); [done|]. destruct (insert_rows _ _ _ _ _) as [m|] eqn:Hm; [|done].
  destruct (H) as [[Hi Hk] _]. pose proof (insert_rows_subseteq _ _ _ _ _ _ Hm) as Hs.
  apply frame_set; simpl; [done|by eapply HInv| |done|done].
  intros r u Hl. destruct (Hk _ _ Hl) as [? Hu]. split; [done|]. by eapply lookup_weaken_is_Some.
Qed.

Lemma frame_delete_links repo p : framed_op repo (delete_links T repo p).
Proof.
  intros d0. apply hoare_call; [done|]. intros d H. destruct (H) as [[Hi Hk] _].
  apply frame_set; simpl; [done|done| |done|].
  - intros r u [_ Hl]%elem_of_filter. by apply Hk.
  - intros r u Hne. rewrite elem_of_filter. simpl. clear - Hne. tauto.
Qed.

Lemma frame_create_links repo l :
  (∀ r u, Some (r, u) ∈ l → r = repo) → framed_op repo (create_links T l).
Proof.
  intros Hl d0. apply hoare_call; [done|]. intros d H. destruct (H) as [[Hi Hk] _].
  destruct (insert_links _ _ _ _ _) as [e|[n ls]] eqn:He; [done|].
  apply insert_links_inr in He as (_ & Hp & _ & Hn).
  apply frame_set; simpl; [done|done| |done|].
  - intros r u Hin. destruct (decide ((r, u) ∈ (tget T d).(links))) as [?|?]; [by apply Hk|by apply Hn].
  - intros r u Hne. rewrite Hp. split; [|by left]. intros [?|?%Hl]; done.
Qed.

Lemma frame_bind {A B} repo (m : DB A) (k : A → DB B) :
  framed_op repo m → (∀ a, framed_op repo (k a)) → framed_op repo (m ≫= k).
Proof. intros Hm Hk d0. eapply hoare_bind; [apply Hm|]. intros a. apply Hk. Qed.

Lemma frame_map_err {A} repo g (m : DB A) : framed_op repo m → framed_op repo (map_err g m).
Proof. intros Hm d0. by apply hoare_map_err. Qed.

Lemma frame_ret {A} repo (a : A) : framed_op repo (mret a : DB A).
Proof. intros d0. by apply hoare_ret. Qed.

Lemma frame_throw {A} repo e : framed_op repo (throw e : DB A).
Proof. intros d0. by apply hoare_throw. Qed.

Lemma frame_fetch {A} repo g (k : uuid → DB A) :
  framed_op repo (k repo) → framed_op repo (map_err g (fetchRepo repo) ≫= k).
Proof.
  intros Hk d0. apply (hoare_bind _ _ _ (λ r d, r = repo ∧ frame repo d0 d)).
  - apply hoare_map_err, hoare_call; [done|]. intros d H. by destruct (d.(repositories) !! repo).
  - intros r fs d [-> H]. by apply Hk.
Qed.

Lemma frame_in_batches {A} repo lim (q : list string → DB (list A)) fuel i l acc :
  (∀ k, framed_op repo (q k)) → framed_op repo (in_batches lim q fuel i l acc).
Proof.
  intros Hq. revert i acc. induction fuel as [|fuel IH]; intros i acc; cbn [in_batches]; [apply frame_ret|].
  destruct (i <? length l)%nat; [|apply frame_ret]. apply frame_bind; [apply Hq|]. intros. apply IH.
Qed.
End Frame.

(** Walk through the calls of an operation; what is left are the rows and associations it inserts. *)
Ltac frame_steps :=
  repeat first
    [ apply frame_fetch; [apply _|]
    | apply frame_bind; [apply _| |intro]
    | apply frame_map_err; [apply _|]
    | apply frame_in_batches; [apply _|intro]
    | apply frame_pluck; apply _
    | apply frame_pluck_links; apply _
    | apply frame_delete_links; apply _
    | apply frame_ret; apply _
    | apply frame_throw; apply _ ].

(** ** Effects *)

Section Effects.
#[local] Set Default Proof Using "Type*".
Context {R : Type} (T : tbl R) `{!TableLaws T}.

Lemma pluck_inr {A} p (column : uuid * R → A) fs d l fs' d' :
  pluck T p column (fs, d) = (inr l, (fs', d')) → d' = d ∧ l = column <$> matching p (tget T d).(rows).
Proof. intros H%call_inr. by simplify_eq. Qed.

Lemma create_rows_inr hook conflict ids l fs d fs' d' :
  create_rows T hook conflict ids l (fs, d) = (inr (), (fs', d')) →
  ∃ m, insert_rows conflict ids 0 l (tget T d).(rows) = Some m ∧ d' = tset T (mk_table m (tget T d).(links)) d.
Proof.
  intros H%call_inr. destruct (hook_error hook l); [done|].
  destruct (insert_rows _ _ _ _ _) as [m|]; simplify_eq. eauto.
Qed.

Lemma fetchRepo_inr id fs d r fs' d' :
  fetchRepo id (fs, d) = (inr r, (fs', d')) → d' = d ∧ r = id ∧ is_Some (d.(repositories) !! id).
Proof. intros H%call_inr. destruct (d.(repositories) !! id) eqn:He; simplify_eq. eauto. Qed.

(** The slice a round takes and the slice left to the next ones make up the rest. *)
Lemma batch_elem (lim i : nat) (cs : list string) :
  (i < length cs)%nat → (0 < lim)%nat →
  let final := (if (length cs - 1 <? i + lim)%nat then length cs else i + lim)%nat in
  ∀ k, k ∈ drop i cs ↔ k ∈ take (final - i) (drop i cs) ∨ k ∈ drop (i + lim) cs.
Proof.
  intros Hi Hl final k. rewrite <- elem_of_app. subst final.
  destruct (Nat.ltb_spec (length cs - 1) (i + lim)) as [H|H].
  - rewrite (drop_ge cs (i + lim)) by lia. rewrite app_nil_r, take_ge; [done|]. rewrite length_drop. lia.
  - replace (i + lim - i)%nat with lim by lia. by rewrite <- drop_drop, take_drop.
Qed.

(** Batches of any positive size read what one query would. *)
Lemma in_batches_inr {A} (key : R → string) (column : uuid * R → A) g lim fuel i cs acc fs d res fs' d' :
  (0 < lim)%nat → (length cs - i ≤ fuel)%nat →
  in_batches lim (λ l, map_err g (pluck T (λ r, sql_in l (key r)) column)) fuel i cs acc (fs, d) =
    (inr res, (fs', d')) →
  d' = d ∧ ∀ x, x ∈ res ↔ x ∈ acc ∨ ∃ u r, (tget T d).(rows) !! u = Some r ∧ key r ∈ drop i cs ∧ x = column (u, r).
Proof.
  intros Hl. revert i acc fs. induction fuel as [|fuel IH]; intros i acc fs Hf; cbn [in_batches].
  - intros [-> [=]]%ret_inr. simplify_eq. split; [done|]. rewrite drop_ge by lia. intros x. split; [by left|].
    intros [?|(?&?&_&?%elem_of_nil&_)]; done.
  - destruct (Nat.ltb_spec i (length cs)) as [Hi|Hi].
    + intros (batch & [fs1 d1] & Hq%map_err_inr & Hrec)%bind_inr.
      apply pluck_inr in Hq as [-> ->]. apply IH in Hrec as [-> Hx]; [|lia]. split; [done|].
      pose proof (batch_elem lim i cs Hi Hl) as Hs. cbv zeta in Hs.
      intros x. rewrite Hx, elem_of_app, list_elem_of_fmap. split.
      * intros [[?|([u r] & -> & [Hu Hk]%elem_of_matching)]|(u & r & Hu & Hk & ->)]; [by left|right..].
        -- exists u, r. split_and!; [done| |done]. apply Hs. left. by apply contains_true.
        -- exists u, r. split_and!; [done| |done]. apply Hs. by right.
      * intros [?|(u & r & Hu & [Hk|Hk]%Hs & ->)]; [by left; left|left; right|right; eauto].
        exists (u, r). split; [done|]. apply elem_of_matching. split; [done|]. by apply contains_true.
    + intros [-> [=]]%ret_inr. simplify_eq. split; [done|]. rewrite drop_ge by lia. intros x. split; [by left|].
      intros [?|(?&?&_&?%elem_of_nil&_)]; done.
Qed.

Lemma in_batches_total {A} lim (q : list string → DB (list A)) fuel i cs acc d :
  (∀ l, ∃ r, q l ([], d) = (inr r, ([], d))) →
  ∃ res, in_batches lim q fuel i cs acc ([], d) = (inr res, ([], d)).
Proof.
  intros Hq. revert i acc. induction fuel as [|fuel IH]; intros i acc; cbn [in_batches]; [by eexists|].
  destruct (i <? length cs)%nat; [|by eexists].
  destruct (Hq (take ((if (length cs - 1 <? i + lim)%nat then length cs else i + lim) - i) (drop i cs))) as [r Hr].
  rewrite (bind_eq _ _ _ _ _ Hr). apply IH.
Qed.

(** The shape of [deleteUnneeded]. *)
Definition delete_unneeded (repo : uuid) (us : list uuid) : DB () :=
  existing ← pluck_links T repo;
  delete_links T repo (sql_in (difference existing us)).

Definition insert_needed (repo : uuid) (us : list uuid) : DB Z :=
  create_links T ((λ u, Some (repo, u)) <$> us).

(** The associations of [repo] are [us], those of other repositories are unchanged. *)
Definition links_set (repo : uuid) (us : list uuid) (d d' : store) : Prop :=
  ∀ r u, (r, u) ∈ (tget T d').(links) ↔ (if decide (r = repo) then u ∈ us else (r, u) ∈ (tget T d).(links)).

Lemma delete_unneeded_inr repo us fs d fs' d' :
  delete_unneeded repo us (fs, d) = (inr (), (fs', d')) →
  (tget T d').(rows) = (tget T d).(rows) ∧
  (∀ r u, (r, u) ∈ (tget T d').(links) ↔ (r, u) ∈ (tget T d).(links) ∧ (r = repo → u ∈ us)) ∧
  d'.(repositories) = d.(repositories).
Proof.
  intros (ex & [fs1 d1] & Hp%call_inr & H%call_inr)%bind_inr. simplify_eq.
  rewrite tget_tset, tset_repositories. simpl. split_and!; [done| |done]. intros r u.
  rewrite elem_of_filter. simpl. unfold sql_in. rewrite contains_true, difference_elem, elem_of_linked.
  destruct (decide (u ∈ us)); naive_solver.
Qed.

Lemma insert_needed_inr repo us fs d n fs' d' :
  insert_needed repo us (fs, d) = (inr n, (fs', d')) →
  (tget T d').(rows) = (tget T d).(rows) ∧
  (∀ r u, (r, u) ∈ (tget T d').(links) ↔ (r, u) ∈ (tget T d).(links) ∨ (r = repo ∧ u ∈ us)) ∧
  n = Z.of_nat (size ((tget T d').(links) ∖ (tget T d).(links))).
Proof.
  intros H%call_inr. destruct (insert_links _ _ _ _ _) as [e|[k ls]] eqn:Hi; simplify_eq.
  apply insert_links_inr in Hi as (_ & Hp & -> & _). rewrite tget_tset. simpl. split_and!; [done| |lia].
  intros r u. rewrite Hp, list_elem_of_fmap. naive_solver.
Qed.

Lemma sync_inr repo us fs d fs1 d1 n fs' d' :
  delete_unneeded repo us (fs, d) = (inr (), (fs1, d1)) →
  insert_needed repo us (fs1, d1) = (inr n, (fs', d')) →
  (tget T d').(rows) = (tget T d).(rows) ∧ links_set repo us d d' ∧
  n = Z.of_nat (size ((tget T d').(links) ∖ (tget T d).(links))).
Proof.
  intros (Hr1 & Hl1 & _)%delete_unneeded_inr (Hr2 & Hl2 & ->)%insert_needed_inr.
  split_and!; [congruence| |].
  - intros r u. rewrite Hl2, Hl1. destruct (decide (r = repo)); naive_solver.
  - do 2 f_equal. apply set_eq. intros [r u]. rewrite !elem_of_difference, Hl2, Hl1. naive_solver.
Qed.

Lemma sync_total repo us d :
  is_Some (d.(repositories) !! repo) → (∀ u, u ∈ us → is_Some ((tget T d).(rows) !! u)) →
  ∃ d1 n d', delete_unneeded repo us ([], d) = (inr (), ([], d1)) ∧
    insert_needed repo us ([], d1) = (inr n, ([], d')).
Proof.
  intros Hr Hu.
  destruct (delete_unneeded repo us ([], d)) as [r1 [fs1 d1]] eqn:Hd.
  assert (r1 = inr () ∧ fs1 = []) as [-> ->]. {
    unfold delete_unneeded, mbind, M_bind, pluck_links, delete_links, db_call in Hd. by simplify_eq. }
  pose proof (delete_unneeded_inr _ _ _ _ _ _ Hd) as (Hrows & _ & Hrep).
  destruct (insert_links_total d1 (tget T d1).(rows) 0 repo us (tget T d1).(links)) as [[n ls] He].
  { by rewrite Hrep. } { by rewrite Hrows. }
  eexists d1, n, _. split; [done|]. apply call_eq. by rewrite He.
Qed.
End Effects.
