(* ===== verification/ContentThms.v ===== *)
(** * Introspected content: theorems

    What [InsertForRepository] leaves in the tables, for each kind of content, whatever database calls fail;
    and what [OrphanCleanup] removes. *)

From S2P Require Import Prelude GoStrings GoSplit TxMonad Utils Models Sha256 Content.
From S2P Require Import ContentTables.
From stdpp Require Import options.

Open Scope string_scope.

(** [repo] has content with key [k]. *)
Definition has_content {R} (key : R → string) (t : table R) (repo : uuid) (k : string) : Prop :=
  ∃ u r, (repo, u) ∈ t.(links) ∧ t.(rows) !! u = Some r ∧ key r = k.

(** The associations are exactly the rows whose key is listed. *)
Lemma has_content_exact {R} (T : tbl R) (key : R → string) repo us (keys : list string) d d' :
  links_set T repo us d d' →
  (∀ u, u ∈ us ↔ ∃ r, (tget T d').(rows) !! u = Some r ∧ key r ∈ keys) →
  (∀ k, k ∈ keys → ∃ u r, (tget T d').(rows) !! u = Some r ∧ key r = k) →
  ∀ k, has_content key (tget T d') repo k ↔ k ∈ keys.
Proof.
  intros Hl Hu Hc k. split.
  - intros (u & r & Hin & Hr & <-). apply Hl in Hin. rewrite decide_True in Hin by done.
    apply Hu in Hin as (r' & Hr' & Hk). by simplify_eq.
  - intros Hk. destruct (Hc k Hk) as (u & r & Hr & <-). exists u, r. split_and!; [|done..].
    apply Hl. rewrite decide_True by done. apply Hu. eauto.
Qed.

(** ** RPMs *)

Abbreviation rpms_ok := (table_ok Rpms (key_unique rpm_Checksum)).
Abbreviation rpms_frame := (frame Rpms (key_unique rpm_Checksum)).

Lemma FilteredConvert_elem pkgs ex r :
  r ∈ FilteredConvert pkgs ex ↔ ∃ p, p ∈ pkgs ∧ (p.(yp_Checksum) ∉ ex) ∧
    r = mk_Rpm p.(yp_Name) p.(yp_Arch) p.(yp_Version) p.(yp_Release) p.(yp_Epoch) p.(yp_Summary) p.(yp_Checksum).
Proof.
  induction pkgs as [|p ps IH]; simpl.
  - split; [by intros ?%elem_of_nil|]. by intros (? & ?%elem_of_nil & _).
  - setoid_rewrite elem_of_cons. destruct (stringInSlice p.(yp_Checksum) ex) eqn:Hs; simpl.
    + apply contains_true in Hs. rewrite IH. split; [naive_solver|].
      intros (q & [->|Hq] & Hn & ->); [done|]. eauto.
    + apply contains_false in Hs. rewrite elem_of_cons, IH. naive_solver.
Qed.

(** Of the rows to be inserted every listed checksum is stored in the end. *)
Lemma checksums_stored pkgs ex ids m m' k :
  insert_rows (λ old new, old.(rpm_Checksum) == new.(rpm_Checksum)) ids 0 (FilteredConvert pkgs ex) m = Some m' →
  (∀ c, c ∈ ex → ∃ u r, m !! u = Some r ∧ r.(rpm_Checksum) = c) →
  k ∈ yp_Checksum <$> pkgs → ∃ u r, m' !! u = Some r ∧ r.(rpm_Checksum) = k.
Proof.
  intros Hi Hex (p & -> & Hp)%list_elem_of_fmap. destruct (decide (p.(yp_Checksum) ∈ ex)) as [He|He].
  - destruct (Hex _ He) as (u & r & Hu & Hk). exists u, r. split; [|done].
    eapply lookup_weaken; [done|]. by eapply insert_rows_subseteq.
  - destruct (insert_rows_covers _ _ _ _ _ _ _ Hi (proj2 (FilteredConvert_elem _ _ _)
      (ex_intro _ p (conj Hp (conj He eq_refl))))) as (u & r & Hu & [->|Hc%bool_decide_eq_true]); eauto.
Qed.

Lemma Rpm_insert_frame lim ids repo pkgs d0 :
  hoare (rpms_frame repo d0) (Rpm_InsertForRepository lim ids repo pkgs) (λ _, rpms_frame repo d0) (λ _, rpms_frame repo d0).
Proof.
  revert d0. unfold Rpm_InsertForRepository, Rpm_deleteUnneeded.
  frame_steps.
  - apply frame_create_rows; [apply _|]. intros. by eapply insert_rows_unique.
  - apply frame_create_links; [apply _|]. by intros r' u (u' & [= -> ->] & _)%list_elem_of_fmap.
Qed.

Lemma Rpm_insert_inr lim ids repo pkgs fs d n fs' d' :
  (0 < lim)%nat →
  Rpm_InsertForRepository lim ids repo pkgs (fs, d) = (inr n, (fs', d')) →
  (∀ k, has_content rpm_Checksum d'.(t_rpms) repo k ↔ k ∈ yp_Checksum <$> pkgs) ∧
  n = Z.of_nat (size (d'.(t_rpms).(links) ∖ d.(t_rpms).(links))).
Proof.
  intros Hlim (r & [fs1 d1] & (-> & -> & Hrepo)%map_err_inr%fetchRepo_inr & H)%bind_inr.
  apply bind_inr in H as (ex & [fs2 d2] & (-> & Hex)%(in_batches_inr Rpms rpm_Checksum) & H); [|lia..].
  apply bind_inr in H as ([] & [fs3 d3] & (m & Hm & ->)%map_err_inr%(create_rows_inr Rpms) & H).
  apply bind_inr in H as (us & [fs4 d4] & (-> & Hus)%(in_batches_inr Rpms rpm_Checksum) & H); [|lia..].
  apply bind_inr in H as ([] & [fs5 d5] & Hdel%map_err_inr & Hins%map_err_inr).
  destruct (sync_inr Rpms _ _ _ _ _ _ _ _ _ Hdel Hins) as (Hrows & Hlinks & ->).
  rewrite drop_0 in Hex, Hus. rewrite tget_tset in Hrows, Hus. simpl in Hrows, Hus. split; [|done].
  apply (has_content_exact Rpms rpm_Checksum repo us _ _ _ Hlinks); simpl; rewrite Hrows.
  - intros u. rewrite Hus. split.
    + intros [?%elem_of_nil|(u' & r & Hr & Hk & ->)]; [done|]. eauto.
    + intros (r & Hr & Hk). right. eauto.
  - intros k Hk. eapply checksums_stored; [done| |done]. intros c Hc%Hex.
    destruct Hc as [?%elem_of_nil|(u & r & Hr & _ & ->)]; [done|]. eauto.
Qed.

(** The rows a list of packages may insert pass the validation of [BeforeCreate]. *)
Definition package_valid (p : yum_Package) : Prop :=
  Rpm_BeforeCreate (mk_Rpm p.(yp_Name) p.(yp_Arch) p.(yp_Version) p.(yp_Release) p.(yp_Epoch) p.(yp_Summary) p.(yp_Checksum)) = None.

Lemma hook_error_None {R} (hook : R → option string) l : (∀ r, r ∈ l → hook r = None) → hook_error hook l = None.
Proof.
  induction l as [|r l IH]; intros H; [done|]. unfold hook_error. simpl. rewrite H by left.
  apply IH. intros. apply H. by right.
Qed.

Lemma pluck_total {R A} (T : tbl R) g p (column : uuid * R → A) d :
  ∃ r, map_err g (pluck T p column) ([], d) = (inr r, ([], d)).
Proof. eexists. by apply map_err_ok, call_eq. Qed.

Lemma create_rows_total {R} (T : tbl R) hook conflict ids l d :
  (∀ r, r ∈ l → hook r = None) → (∀ j k, ids j = ids k → j = k) → (∀ j, (tget T d).(rows) !! ids j = None) →
  ∃ m, create_rows T hook conflict ids l ([], d) = (inr (), ([], tset T (mk_table m (tget T d).(links)) d)).
Proof.
  intros Hh Hinj Hf. destruct (insert_rows_total conflict ids 0 l (tget T d).(rows)) as [m Hm]; [auto..|].
  exists m. apply call_eq. by rewrite hook_error_None, Hm.
Qed.

Lemma Rpm_insert_total lim ids repo pkgs d :
  (0 < lim)%nat → is_Some (d.(repositories) !! repo) → Forall package_valid pkgs →
  (∀ j k, ids j = ids k → j = k) → (∀ j, d.(t_rpms).(rows) !! ids j = None) →
  ∃ n d', Rpm_InsertForRepository lim ids repo pkgs ([], d) = (inr n, ([], d')).
Proof.
  intros Hlim [x Hr] Hv Hinj Hf. unfold Rpm_InsertForRepository.
  rewrite (bind_eq _ _ _ repo ([], d)) by (apply map_err_ok, call_eq; by rewrite Hr). cbv zeta.
  lazymatch goal with |- context [(in_batches lim ?q ?f ?i ?cs ?acc ≫= _) (_, ?d1)] =>
    destruct (in_batches_total lim q f i cs acc d1) as [ex Hex]; [intros; apply pluck_total|] end.
  rewrite (bind_eq _ _ _ _ _ Hex).
  destruct (create_rows_total Rpms Rpm_BeforeCreate (λ old new, old.(rpm_Checksum) == new.(rpm_Checksum)) ids
    (FilteredConvert pkgs ex) d) as [m Hm]; [|done|done|].
  { intros r (p & Hp & _ & ->)%FilteredConvert_elem. rewrite Forall_forall in Hv. by apply (Hv p). }
  rewrite (bind_eq _ _ _ _ _ (map_err_ok _ _ _ _ _ Hm)).
  lazymatch goal with |- context [(in_batches lim ?q ?f ?i ?cs ?acc ≫= _) (_, ?d1)] =>
    destruct (in_batches_total lim q f i cs acc d1) as [us Hus]; [intros; apply pluck_total|] end.
  rewrite (bind_eq _ _ _ _ _ Hus).
  apply (in_batches_inr Rpms rpm_Checksum) in Hus as [_ Hus]; [|lia..].
  edestruct (sync_total Rpms repo us) as (d1 & n & d' & Hd & Hi).
  3: { exists n, d'. rewrite (bind_eq _ _ _ _ _ (map_err_ok _ _ _ _ _ Hd)). by apply map_err_ok. }
  - rewrite tset_repositories. by eexists.
  - intros u [?%elem_of_nil|(u' & r & Hu & _ & ->)]%Hus; [done|]. by eexists.
Qed.

(** [C35] [InsertForRepository] of RPMs makes the packages of the repository exactly the listed ones, whatever
    the size of the batches of its queries and whichever database calls fail. When it returns without an error,
    the checksums of the packages associated with the repository are those of the list. In every case, error or not, rows are only added to the shared table, no
    two of its rows share a checksum, associations point at existing rows, and other repositories and other
    tables are untouched. When the repository exists, the packages pass validation, the UUIDs drawn are new and
    the database does not fail, it does return without an error. *)
Theorem Rpm_insert_exact lim ids repo pkgs d :
  (0 < lim)%nat → rpms_ok d →
  (∀ fs, match Rpm_InsertForRepository lim ids repo pkgs (fs, d) with
         | (inr _, (_, d')) =>
             rpms_frame repo d d' ∧
             (∀ k, has_content rpm_Checksum d'.(t_rpms) repo k ↔ k ∈ yp_Checksum <$> pkgs)
         | (inl _, (_, d')) => rpms_frame repo d d'
         end) ∧
  (is_Some (d.(repositories) !! repo) → Forall package_valid pkgs →
   (∀ j k, ids j = ids k → j = k) → (∀ j, d.(t_rpms).(rows) !! ids j = None) →
   ∃ n d', Rpm_InsertForRepository lim ids repo pkgs ([], d) = (inr n, ([], d'))).
Proof.
  intros Hlim Hok. split; [|by apply Rpm_insert_total]. intros fs.
  pose proof (Rpm_insert_frame lim ids repo pkgs d fs d (frame_refl _ _ _ _ Hok)) as Hfr.
  destruct (Rpm_InsertForRepository _ _ _ _ _) as [[e|n] [fs' d']] eqn:H; [done|]. split; [done|].
  by eapply Rpm_insert_inr.
Qed.

(** The number returned counts the new associations of the repository; the comment of the function announces the
    RPMs new to the system. *)
Theorem Rpm_insert_counts_links lim ids repo pkgs fs d n fs' d' :
  (0 < lim)%nat → Rpm_InsertForRepository lim ids repo pkgs (fs, d) = (inr n, (fs', d')) →
  n = Z.of_nat (size (d'.(t_rpms).(links) ∖ d.(t_rpms).(links))).
Proof. intros Hlim H. by eapply Rpm_insert_inr. Qed.

(** A store with two repositories that share a package; the second drops one package and gains two, read in
    batches of two checksums. *)
Definition ex_repo : Repository :=
  mk_Repository "https://example.com/repo/" "external" "Pending" None None None None "" 0 0 0 0 false.
Definition ex_rpm (name sum : string) : Rpm := mk_Rpm name "x86_64" "1.0" "1" 0 "summary" sum.
Definition ex_pkg (name sum : string) : yum_Package := mk_yum_Package name "x86_64" "1.0" "1" 0 sum "summary".
Definition ex_rows : gmap uuid Rpm := {[ 10%N := ex_rpm "bash" "aa"; 11%N := ex_rpm "zsh" "bb" ]}.
Definition ex_store : store := mk_store
  {[ 1%N := ex_repo; 2%N := ex_repo ]}
  (mk_table ex_rows {[ (1%N, 10%N); (2%N, 10%N); (2%N, 11%N) ]})
  (mk_table ∅ ∅) (mk_table ∅ ∅) (mk_table ∅ ∅).
Definition ex_ids (i : nat) : uuid := (100 + N.of_nat i)%N.
Definition ex_pkgs : list yum_Package := [ex_pkg "bash" "aa"; ex_pkg "vim" "cc"; ex_pkg "vim" "cc"; ex_pkg "git" "dd"].

Lemma ex_ids_inj j k : ex_ids j = ex_ids k → j = k.
Proof. unfold ex_ids. lia. Qed.

Lemma ex_store_ok : rpms_ok ex_store.
Proof.
  split.
  - intros u u' r r' Hu Hu' Hk. change (ex_rows !! u = Some r) in Hu. change (ex_rows !! u' = Some r') in Hu'.
    unfold ex_rows in Hu, Hu'. apply lookup_insert_Some in Hu as [[<- <-]|[_ [<- <-]%lookup_singleton_Some]];
    apply lookup_insert_Some in Hu' as [[<- <-]|[_ [<- <-]%lookup_singleton_Some]]; done.
  - intros repo u H. simpl in H. rewrite !elem_of_union, !elem_of_singleton in H.
    destruct H as [[H|H]|H]; simplify_eq; split; vm_compute; by eexists.
Qed.

(** The first repository gains a package the system already has: the result is 1, not 0. *)
Example Rpm_insert_counts_known :
  ∃ d', Rpm_InsertForRepository 2 ex_ids 1%N [ex_pkg "bash" "aa"; ex_pkg "zsh" "bb"] ([], ex_store) = (inr 1%Z, ([], d')) ∧
    d'.(t_rpms).(rows) = ex_store.(t_rpms).(rows).
Proof. eexists. split; vm_compute; reflexivity. Qed.

Lemma Rpm_insert_exact_witness :
  ∃ n d', Rpm_InsertForRepository 2 ex_ids 2%N ex_pkgs ([], ex_store) = (inr n, ([], d')) ∧ n = 2%Z ∧
    has_content rpm_Checksum d'.(t_rpms) 2%N "dd".
Proof.
  destruct (Rpm_insert_exact 2 ex_ids 2%N ex_pkgs ex_store) as [Hexact Htotal]; [lia|apply ex_store_ok|].
  destruct Htotal as (n & d' & H).
  - vm_compute. by eexists.
  - by repeat constructor.
  - apply ex_ids_inj.
  - intros j. change (ex_rows !! ex_ids j = None). unfold ex_rows, ex_ids. by rewrite lookup_insert_ne, lookup_singleton_ne by lia.
  - specialize (Hexact []). rewrite H in Hexact. destruct Hexact as (_ & Hc).
    exists n, d'. split_and!; [done| |].
    + revert H. vm_compute. intros H. by injection H as <- _.
    + apply Hc. apply (bool_decide_unpack _). by vm_compute.
Defined.

(** ** Package groups *)

(** Every stored group carries the hash of some description. *)
Definition groups_hashed (m : gmap uuid PackageGroup) : Prop := map_Forall (λ _ r, r.(pg_HashValue) ≠ "") m.
Abbreviation groups_ok := (table_ok PackageGroups groups_hashed).
Abbreviation groups_frame := (frame PackageGroups groups_hashed).

(** The empty strings in front of the hashes match no row. *)
Lemma padded_in n hs h : h ≠ "" → contains (replicate n "" ++ hs)%list h = true ↔ h ∈ hs.
Proof.
  intros Hh. rewrite contains_true, elem_of_app, elem_of_replicate. split; [|by right].
  by intros [[-> _]|?].
Qed.

Lemma FilteredConvertPackageGroups_elem gs ex r :
  r ∈ FilteredConvertPackageGroups gs ex ↔ ∃ g, g ∈ gs ∧ (group_hash g ∉ ex) ∧
    r = mk_PackageGroup g.(yg_ID) g.(yg_Name) g.(yg_Description) g.(yg_PackageList) (group_hash g).
Proof.
  induction gs as [|g gs IH]; cbn [FilteredConvertPackageGroups].
  - split; [by intros ?%elem_of_nil|]. by intros (? & ?%elem_of_nil & _).
  - setoid_rewrite elem_of_cons. destruct (stringInSlice (group_hash g) ex) eqn:Hs; cbn [negb].
    + apply contains_true in Hs. rewrite IH. split; [intros (q & ? & ? & ->); eauto|].
      intros (q & [->|Hq] & Hn & ->); [done|]. eauto.
    + apply contains_false in Hs. rewrite elem_of_cons, IH. split.
      * intros [->|(q & ? & ? & ->)]; eauto.
      * intros (q & [->|Hq] & Hn & ->); eauto.
Qed.

Lemma groups_hashed_insert gs ex conflict ids i m m' :
  insert_rows conflict ids i (FilteredConvertPackageGroups gs ex) m = Some m' → groups_hashed m → groups_hashed m'.
Proof.
  intros Hi Hm u r Hu. destruct (insert_rows_origin _ _ _ _ _ _ _ _ Hi Hu) as [?|Hr]; [by eapply Hm|].
  apply FilteredConvertPackageGroups_elem in Hr as (g & _ & _ & ->). apply sha256_hex_nonempty.
Qed.

Lemma PackageGroup_insert_frame ids repo gs d0 :
  hoare (groups_frame repo d0) (PackageGroup_InsertForRepository ids repo gs)
    (λ _, groups_frame repo d0) (λ _, groups_frame repo d0).
Proof.
  revert d0. unfold PackageGroup_InsertForRepository, PackageGroup_deleteUnneeded. frame_steps.
  - apply frame_create_rows; [apply _|]. intros. by eapply groups_hashed_insert.
  - apply frame_create_links; [apply _|]. by intros r' u (u' & [= -> ->] & _)%list_elem_of_fmap.
Qed.

Lemma PackageGroup_insert_inr ids repo gs fs d n fs' d' :
  groups_ok d → PackageGroup_InsertForRepository ids repo gs (fs, d) = (inr n, (fs', d')) →
  (∀ k, has_content pg_HashValue d'.(t_package_groups) repo k ↔ k ∈ group_hash <$> gs) ∧
  n = Z.of_nat (size (d'.(t_package_groups).(links) ∖ d.(t_package_groups).(links))).
Proof.
  intros [Hh _] (r & [fs1 d1] & (-> & -> & Hrepo)%map_err_inr%fetchRepo_inr & H)%bind_inr.
  apply bind_inr in H as (ex & [fs2 d2] & (-> & ->)%map_err_inr%(pluck_inr PackageGroups) & H).
  apply bind_inr in H as ([] & [fs3 d3] & (m & Hm & ->)%map_err_inr%(create_rows_inr PackageGroups) & H).
  apply bind_inr in H as (us & [fs4 d4] & (-> & ->)%map_err_inr%(pluck_inr PackageGroups) & H).
  apply bind_inr in H as ([] & [fs5 d5] & Hdel%map_err_inr & Hins%map_err_inr).
  destruct (sync_inr PackageGroups _ _ _ _ _ _ _ _ _ Hdel Hins) as (Hrows & Hlinks & ->).
  rewrite tget_tset in Hrows, Hlinks. cbn [rows] in Hrows, Hlinks. split; [|done].
  pose proof (groups_hashed_insert _ _ _ _ _ _ _ Hm Hh) as Hh'.
  apply (has_content_exact PackageGroups pg_HashValue repo _ _ _ _ Hlinks); rewrite Hrows.
  - intros u. rewrite list_elem_of_fmap. split.
    + intros ([u' r] & -> & [Hr Hk]%elem_of_matching). exists r. split; [done|].
      apply padded_in in Hk; [done|]. by eapply Hh'.
    + intros (r & Hr & Hk). exists (u, r). split; [done|]. apply elem_of_matching. split; [done|].
      apply padded_in; [|done]. by eapply Hh'.
  - intros k (g & -> & Hg)%list_elem_of_fmap.
    destruct (decide (group_hash g ∈ (λ kv, pg_HashValue kv.2) <$>
      matching (by_group_hash (replicate (length gs) "" ++ (group_hash <$> gs))%list) (tget PackageGroups d).(rows))) as [He|He].
    + apply list_elem_of_fmap in He as ([u r] & Hk & [Hr _]%elem_of_matching). exists u, r. split; [|done].
      eapply lookup_weaken; [done|]. by eapply insert_rows_subseteq.
    + destruct (insert_rows_covers _ _ _ _ _ _ _ Hm (proj2 (FilteredConvertPackageGroups_elem _ _ _)
        (ex_intro _ g (conj Hg (conj He eq_refl))))) as (u & r & Hu & [->|?]); [|done]. eauto.
Qed.

(** [InsertForRepository] of package groups makes the groups of the repository exactly the listed ones,
    up to the SHA-256 by which groups are told apart, and returns the number of new associations; the empty
    strings its query starts with match nothing, because every stored group has a non-empty hash, which the
    operation preserves. Whatever fails, it only adds rows and leaves other repositories and tables alone. *)
Theorem PackageGroup_insert_exact ids repo gs d fs :
  groups_ok d →
  match PackageGroup_InsertForRepository ids repo gs (fs, d) with
  | (inr n, (_, d')) =>
      groups_frame repo d d' ∧
      (∀ k, has_content pg_HashValue d'.(t_package_groups) repo k ↔ k ∈ group_hash <$> gs) ∧
      n = Z.of_nat (size (d'.(t_package_groups).(links) ∖ d.(t_package_groups).(links)))
  | (inl _, (_, d')) => groups_frame repo d d'
  end.
Proof.
  intros Hok.
  pose proof (PackageGroup_insert_frame ids repo gs d fs d (frame_refl _ _ _ _ Hok)) as Hfr.
  destruct (PackageGroup_InsertForRepository _ _ _ _) as [[e|n] [fs' d']] eqn:H; [done|]. split; [done|].
  by eapply PackageGroup_insert_inr.
Qed.

Definition ex_group : yum_PackageGroup := mk_yum_PackageGroup "core" "Core" "minimal" ["bash"; "vim"].

Lemma PackageGroup_insert_exact_witness :
  ∃ d', PackageGroup_InsertForRepository ex_ids 1%N [ex_group] ([], ex_store) = (inr 1%Z, ([], d')) ∧
    has_content pg_HashValue d'.(t_package_groups) 1%N (group_hash ex_group).
Proof.
  assert (groups_ok ex_store) as Hok.
  { split; [by intros ?? ?|]. intros ?? H. by apply elem_of_empty in H. }
  pose proof (PackageGroup_insert_exact ex_ids 1%N [ex_group] ex_store [] Hok) as H.
  destruct (PackageGroup_InsertForRepository _ _ _ _) as [[e|n] [fs' d']] eqn:E.
  - exfalso. revert E. vm_compute. done.
  - destruct H as (_ & Hc & _). exists d'.
    assert (n = 1%Z ∧ fs' = []) as [-> ->]. { revert E. vm_compute. intros E. by simplify_eq. }
    split; [done|]. apply Hc. simpl. left.
Defined.
