(* ===== verification/ContentMore.v ===== *)
(** * Introspected content: module streams, environments, orphans

    The two kinds of content whose [InsertForRepository] differs from the others, and the clean-up of rows no
    repository refers to. *)

From S2P Require Import Prelude GoStrings GoSplit TxMonad Utils Models Sha256 Content.
From S2P Require Import ContentTables ContentThms.
From stdpp Require Import options.

Open Scope string_scope.

(** ** Module streams *)

Definition streams_hashed (m : gmap uuid ModuleStream) : Prop :=
  key_unique ms_HashValue m ∧ map_Forall (λ _ r, r.(ms_HashValue) ≠ "") m.
Abbreviation streams_ok := (table_ok ModuleStreams streams_hashed).
Abbreviation streams_frame := (frame ModuleStreams streams_hashed).

Definition module_hash (m : yum_ModuleMD) : string := (module_stream m).(ms_HashValue).

Lemma module_hash_nonempty m : module_hash m ≠ "".
Proof. apply sha256_hex_nonempty. Qed.

Lemma streams_hashed_insert mods ids i m m' :
  insert_rows (λ old new, old.(ms_HashValue) == new.(ms_HashValue)) ids i (ModuleMdToModuleStreams mods) m = Some m' →
  streams_hashed m → streams_hashed m'.
Proof.
  intros Hi [Hu Hn]. split; [by eapply insert_rows_unique|]. intros u r Hr.
  destruct (insert_rows_origin _ _ _ _ _ _ _ _ Hi Hr) as [?|Hl]; [by eapply Hn|].
  apply list_elem_of_fmap in Hl as (x & -> & _). apply module_hash_nonempty.
Qed.

Lemma prep_links repo n us l r u :
  prepRepositoryModuleStreams repo n us = Some l → Some (r, u) ∈ l → r = repo ∧ u ∈ us.
Proof.
  unfold prepRepositoryModuleStreams. destruct (n <? length us)%nat; [done|]. intros [= <-].
  intros [(u' & [= -> ->] & ?)%list_elem_of_fmap|[? _]%elem_of_replicate]%elem_of_app; done.
Qed.

Lemma ModuleStream_insert_frame ids repo mods d0 :
  hoare (streams_frame repo d0) (ModuleStream_InsertForRepository ids repo mods)
    (λ _, streams_frame repo d0) (λ _, streams_frame repo d0).
Proof.
  revert d0. unfold ModuleStream_InsertForRepository, ModuleStream_deleteUnneeded. frame_steps.
  - apply frame_create_rows; [apply _|]. intros. by eapply streams_hashed_insert.
  - destruct (prepRepositoryModuleStreams _ _ _) as [l|] eqn:Hp; frame_steps.
    apply frame_create_links; [apply _|]. intros r u H. by eapply prep_links in H as [-> _].
Qed.

(** A list no longer than its duplicate-free version has no duplicates. *)
Lemma length_remove_dups {A} `{EqDecision A} (l : list A) : (length (remove_dups l) ≤ length l)%nat.
Proof. induction l; simpl; [done|]. case_decide; simpl; lia. Qed.

Lemma NoDup_of_length {A} `{EqDecision A} (l : list A) : (length l ≤ length (remove_dups l))%nat → NoDup l.
Proof.
  induction l as [|x l IH]; simpl; intros H; [constructor|]. pose proof (length_remove_dups l).
  case_decide; simpl in H; [lia|]. constructor; [done|]. apply IH. lia.
Qed.

Lemma covering_NoDup {A} `{EqDecision A} (l k : list A) : NoDup k → k ⊆ l → length k = length l → NoDup l.
Proof.
  intros Hk Hs He. apply NoDup_of_length. rewrite <- He. apply submseteq_length, NoDup_submseteq; [done|].
  intros x Hx%Hs. by apply elem_of_remove_dups.
Qed.

Lemma NoDup_matching {R} (p : R → bool) (m : gmap uuid R) : NoDup (matching p m).
Proof. apply NoDup_filter, NoDup_map_to_list. Qed.

Lemma NoDup_matching_uuids {R} (p : R → bool) (m : gmap uuid R) : NoDup (matching p m).*1.
Proof.
  apply NoDup_fmap_2_strong; [|apply NoDup_matching].
  intros [u r] [u' r'] [Hu _]%elem_of_matching [Hu' _]%elem_of_matching Heq. simpl in Heq. subst u'. by simplify_eq.
Qed.

Lemma NoDup_matching_keys {R} (key : R → string) p (m : gmap uuid R) :
  key_unique key m → NoDup ((λ kv, key kv.2) <$> matching p m).
Proof.
  intros Hk. apply NoDup_fmap_2_strong; [|apply NoDup_matching].
  intros [u r] [u' r'] [Hu _]%elem_of_matching [Hu' _]%elem_of_matching Heq.
  pose proof (Hk _ _ _ _ Hu Hu' Heq) as ->. by simplify_eq.
Qed.

(** The rows found after the insertion: exactly the listed hashes. *)
Lemma streams_found mods ids m m' :
  insert_rows (λ old new, old.(ms_HashValue) == new.(ms_HashValue)) ids 0 (ModuleMdToModuleStreams mods) m = Some m' →
  streams_hashed m →
  let found := matching (by_module_hash (replicate (length (ModuleMdToModuleStreams mods)) "" ++
                 (ms_HashValue <$> ModuleMdToModuleStreams mods))%list) m' in
  (∀ u, u ∈ found.*1 ↔ ∃ r, m' !! u = Some r ∧ r.(ms_HashValue) ∈ module_hash <$> mods) ∧
  (∀ k, k ∈ module_hash <$> mods → ∃ u r, m' !! u = Some r ∧ r.(ms_HashValue) = k) ∧
  (length found = length mods → NoDup (module_hash <$> mods)).
Proof.
  intros Hi Hh found. pose proof (streams_hashed_insert _ _ _ _ _ Hi Hh) as [Hu Hn].
  assert (ms_HashValue <$> ModuleMdToModuleStreams mods = module_hash <$> mods) as Hhs.
  { unfold ModuleMdToModuleStreams. by rewrite <- list_fmap_compose. }
  assert (∀ u r, (u, r) ∈ found ↔ m' !! u = Some r ∧ r.(ms_HashValue) ∈ module_hash <$> mods) as Hf.
  { intros u r. unfold found. rewrite elem_of_matching, Hhs. split; intros [Hr Hk]; (split; [done|]).
    - apply padded_in in Hk; [done|]. by eapply Hn.
    - apply padded_in; [|done]. by eapply Hn. }
  split_and!.
  - intros u. rewrite list_elem_of_fmap. split.
    + intros ([u' r] & -> & Hr). apply Hf in Hr. eauto.
    + intros (r & Hr). exists (u, r). split; [done|]. by apply Hf.
  - intros k (x & -> & Hx)%list_elem_of_fmap.
    destruct (insert_rows_covers _ _ _ _ _ _ (module_stream x) Hi) as (u & r & Hr & [->|Hc%bool_decide_eq_true]); eauto.
    apply list_elem_of_fmap. eauto.
  - intros Hl. apply (covering_NoDup _ ((λ kv, kv.2.(ms_HashValue)) <$> found)).
    + by apply NoDup_matching_keys.
    + intros k ([u r] & -> & Hr)%list_elem_of_fmap. by apply Hf in Hr as [_ ?].
    + by rewrite !length_fmap.
Qed.

(** A prepared list without blank entries pairs every UUID found. *)
Lemma prep_full repo n us l :
  prepRepositoryModuleStreams repo n us = Some l → None ∉ l →
  l = (λ u, Some (repo, u)) <$> us ∧ length us = n.
Proof.
  unfold prepRepositoryModuleStreams. destruct (Nat.ltb_spec n (length us)); [done|]. intros [= <-] HN.
  destruct (n - length us)%nat as [|k] eqn:Hk; [|exfalso; apply HN, elem_of_app; right; left].
  rewrite app_nil_r. split; [done|lia].
Qed.

Lemma ModuleStream_insert_inr ids repo mods fs d n fs' d' :
  streams_ok d → ModuleStream_InsertForRepository ids repo mods (fs, d) = (inr n, (fs', d')) →
  n = Z.of_nat (length mods) ∧ NoDup (module_hash <$> mods) ∧
  if decide (mods = []) then d'.(t_module_streams).(links) = d.(t_module_streams).(links)
  else ∀ k, has_content ms_HashValue d'.(t_module_streams) repo k ↔ k ∈ module_hash <$> mods.
Proof.
  intros [Hh _] (r & [fs1 d1] & (-> & -> & Hrepo)%map_err_inr%fetchRepo_inr & H)%bind_inr.
  apply bind_inr in H as ([] & [fs3 d3] & (m & Hm & ->)%map_err_inr%(create_rows_inr ModuleStreams) & H).
  apply bind_inr in H as (us & [fs4 d4] & (-> & Hus)%map_err_inr%(pluck_inr ModuleStreams) & H).
  apply bind_inr in H as ([] & [fs5 d5] & Hdel%map_err_inr%call_inr & H).
  destruct (prepRepositoryModuleStreams _ _ _) as [l|] eqn:Hprep; [|done].
  apply bind_inr in H as (k & [fs6 d6] & Hins%map_err_inr%call_inr & [<- [= -> ->]]%ret_inr).
  rewrite tget_tset in Hus. cbn [rows] in Hus. injection Hdel as <-.
  destruct (insert_links _ _ _ _ _) as [e|[k' ls]] eqn:Hi; [done|]. injection Hins as <- <-.
  apply insert_links_inr in Hi as (HN & Hp & _ & _).
  destruct (prep_full _ _ _ _ Hprep HN) as [-> Hlen].
  unfold ModuleMdToModuleStreams in Hlen. rewrite length_fmap in Hlen.
  destruct (streams_found _ _ _ _ Hm Hh) as (Hf & Hc & Hd). rewrite <- Hus in Hf.
  split_and!; [by rewrite length_fmap, Hlen| |].
  { apply Hd. rewrite Hus, length_fmap in Hlen. done. }
  destruct (decide (mods = [])) as [->|Hne].
  - simpl. apply set_eq. intros [r u]. rewrite Hp. destruct us as [|u0 us]; [|done]. simpl. rewrite elem_of_filter. simpl.
    split; [|naive_solver]. intros [[_ ?]|?%elem_of_nil]; done.
  - lazymatch goal with |- ∀ k, has_content _ (t_module_streams ?d2) _ _ ↔ _ =>
      apply (has_content_exact ModuleStreams ms_HashValue repo us _ d d2); [|exact Hf|exact Hc] end.
    intros r u. simpl. rewrite Hp, list_elem_of_fmap. simpl. rewrite elem_of_filter. simpl.
    destruct us as [|u0 us]; [by destruct mods|]. cbn [sql_not_in]. rewrite negb_true_iff, contains_false.
    destruct (decide (r = repo)) as [->|Hr]; [|naive_solver].
    split; [|intros Hu; right; eauto]. intros [[H _]|(? & [= ->] & ?)]; [|done].
    destruct (decide (u ∈ u0 :: us)); [done|]. destruct H. eauto.
Qed.

(** [InsertForRepository] of module streams: when it returns without an error and the list is not empty, the
    module streams of the repository are exactly the listed ones, up to their SHA-256; the listed streams are then
    pairwise different, because a repeated one leaves a blank association, which the database refuses after the
    old ones have been removed. With an empty list it succeeds and removes nothing: [NOT IN] of an empty
    list selects no row, so the repository keeps the streams of its previous metadata. Whatever fails, rows
    are only added and other repositories and tables are untouched. *)
Theorem ModuleStream_insert_cases ids repo mods d fs :
  streams_ok d →
  match ModuleStream_InsertForRepository ids repo mods (fs, d) with
  | (inr n, (_, d')) =>
      streams_frame repo d d' ∧ n = Z.of_nat (length mods) ∧ NoDup (module_hash <$> mods) ∧
      if decide (mods = []) then d'.(t_module_streams).(links) = d.(t_module_streams).(links)
      else ∀ k, has_content ms_HashValue d'.(t_module_streams) repo k ↔ k ∈ module_hash <$> mods
  | (inl _, (_, d')) => streams_frame repo d d'
  end.
Proof.
  intros Hok.
  pose proof (ModuleStream_insert_frame ids repo mods d fs d (frame_refl _ _ _ _ Hok)) as Hfr.
  destruct (ModuleStream_InsertForRepository _ _ _ _) as [[e|n] [fs' d']] eqn:H; [done|]. split; [done|].
  by eapply ModuleStream_insert_inr.
Qed.

Definition ex_module : yum_ModuleMD :=
  mk_yum_ModuleMD "ruby" "3.1" "1" "ctx" "x86_64" "s" "d" ["rubygem-bson-0:4.3.0-2.el8.x86_64"] {[ "common" := ["ruby"] ]}.
Definition ex_ms_rows : gmap uuid ModuleStream := {[ 50%N := module_stream ex_module ]}.
Definition ex_ms_store : store := mk_store {[ 1%N := ex_repo ]} (mk_table ∅ ∅) (mk_table ∅ ∅) (mk_table ∅ ∅)
  (mk_table ex_ms_rows {[ (1%N, 50%N) ]}).

Lemma ex_ms_store_ok : streams_ok ex_ms_store.
Proof.
  split; [change (streams_hashed {[ 50%N := module_stream ex_module ]}); split|].
  - by intros u u' r r' [<- _]%lookup_singleton_Some [<- _]%lookup_singleton_Some _.
  - intros u r [_ <-]%lookup_singleton_Some. apply module_hash_nonempty.
  - intros repo u H. change ((repo, u) ∈ ({[ (1%N, 50%N) ]} : gset (uuid * uuid))) in H.
    apply elem_of_singleton in H as [= -> ->]. split; [by eexists|]. exists (module_stream ex_module).
    apply lookup_singleton_eq.
Qed.

(** The repository drops its only module stream, and still has it. *)
Lemma ModuleStream_insert_cases_witness :
  ∃ d', ModuleStream_InsertForRepository ex_ids 1%N [] ([], ex_ms_store) = (inr 0%Z, ([], d')) ∧
    d'.(t_module_streams).(links) = {[ (1%N, 50%N) ]}.
Proof.
  pose proof (ModuleStream_insert_cases ex_ids 1%N [] ex_ms_store [] ex_ms_store_ok) as H.
  destruct (ModuleStream_InsertForRepository _ _ _ _) as [[e|n] [fs' d']] eqn:E.
  - exfalso. revert E. vm_compute. done.
  - destruct H as (_ & -> & _ & Hl). exists d'.
    assert (fs' = []) as ->. { revert E. vm_compute. intros E. by simplify_eq. }
    split; [done|]. apply Hl.
Defined.

(** ** Environments *)

Abbreviation envs_ok := (table_ok Environments (λ _, True)).
Abbreviation envs_frame := (frame Environments (λ _, True)).

Definition has_environment (t : table Environment) (repo : uuid) (i nm : string) : Prop :=
  ∃ u r, (repo, u) ∈ t.(links) ∧ t.(rows) !! u = Some r ∧ r.(env_ID) = i ∧ r.(env_Name) = nm.
Definition stored_environment (t : table Environment) (i nm : string) : Prop :=
  ∃ u r, t.(rows) !! u = Some r ∧ r.(env_ID) = i ∧ r.(env_Name) = nm.
Definition listed_environment (envs : list yum_Environment) (i nm : string) : Prop :=
  ∃ e, e ∈ envs ∧ e.(ye_ID) = i ∧ e.(ye_Name) = nm.

(** The list has one name per id, and no stored environment has the id of one listed environment and the name of
    another. *)
Definition envs_consistent (envs : list yum_Environment) (t : table Environment) : Prop :=
  (∀ e e', e ∈ envs → e' ∈ envs → e.(ye_ID) = e'.(ye_ID) → e.(ye_Name) = e'.(ye_Name)) ∧
  (∀ i nm, stored_environment t i nm → i ∈ ye_ID <$> envs → nm ∈ ye_Name <$> envs → listed_environment envs i nm).

Lemma FilteredConvertEnvironments_elem es ex r :
  r ∈ FilteredConvertEnvironments es ex ↔ ∃ e, e ∈ es ∧ (e.(ye_ID) ∉ ex) ∧
    r = mk_Environment e.(ye_ID) e.(ye_Name) e.(ye_Description).
Proof.
  induction es as [|e es IH]; cbn [FilteredConvertEnvironments].
  - split; [by intros ?%elem_of_nil|]. by intros (? & ?%elem_of_nil & _).
  - setoid_rewrite elem_of_cons. destruct (stringInSlice e.(ye_ID) ex) eqn:Hs; cbn [negb].
    + apply contains_true in Hs. rewrite IH. split; [intros (q & ? & ? & ->); eauto|].
      intros (q & [->|Hq] & Hn & ->); [done|]. eauto.
    + apply contains_false in Hs. rewrite elem_of_cons, IH. split.
      * intros [->|(q & ? & ? & ->)]; eauto.
      * intros (q & [->|Hq] & Hn & ->); eauto.
Qed.

Lemma by_id_and_name_true ids names r :
  by_id_and_name ids names r = true ↔ r.(env_ID) ∈ ids ∧ r.(env_Name) ∈ names.
Proof. unfold by_id_and_name, sql_in. by rewrite andb_true_iff, !contains_true. Qed.

Lemma Environment_insert_frame ids repo envs d0 :
  hoare (envs_frame repo d0) (Environment_InsertForRepository ids repo envs)
    (λ _, envs_frame repo d0) (λ _, envs_frame repo d0).
Proof.
  revert d0. unfold Environment_InsertForRepository, Environment_deleteUnneeded. frame_steps.
  - by apply frame_create_rows; [apply _|].
  - apply frame_create_links; [apply _|]. by intros r' u (u' & [= -> ->] & _)%list_elem_of_fmap.
Qed.

(** Every listed environment is stored in the end. *)
Lemma environments_stored envs ids d m i nm :
  envs_consistent envs d.(t_environments) →
  insert_rows (λ _ _, false) ids 0 (FilteredConvertEnvironments envs ((λ kv, kv.2.(env_ID)) <$>
    matching (by_id_and_name (ye_ID <$> envs) (ye_Name <$> envs)) d.(t_environments).(rows))) d.(t_environments).(rows) = Some m →
  listed_environment envs i nm → ∃ u r, m !! u = Some r ∧ r.(env_ID) = i ∧ r.(env_Name) = nm.
Proof.
  intros [H1 H2] Hi (e & He & <- & <-).
  destruct (decide (e.(ye_ID) ∈ (λ kv, kv.2.(env_ID)) <$>
    matching (by_id_and_name (ye_ID <$> envs) (ye_Name <$> envs)) d.(t_environments).(rows))) as [Hx|Hx].
  - apply list_elem_of_fmap in Hx as ([u r] & Hid & [Hr [Hri Hrn]%by_id_and_name_true]%elem_of_matching).
    simpl in Hid. destruct (H2 r.(env_ID) r.(env_Name) ltac:(by exists u, r) Hri Hrn) as (e' & He' & Hi' & Hn').
    exists u, r. split_and!; [|done|].
    + eapply lookup_weaken; [done|]. by eapply insert_rows_subseteq.
    + rewrite <- Hn'. symmetry. apply H1; [done..|]. congruence.
  - destruct (insert_rows_covers _ _ _ _ _ _ _ Hi (proj2 (FilteredConvertEnvironments_elem _ _ _)
      (ex_intro _ e (conj He (conj Hx eq_refl))))) as (u & r & Hu & [->|?]); [|done]. eauto.
Qed.

Lemma Environment_insert_inr ids repo envs fs d n fs' d' :
  Environment_InsertForRepository ids repo envs (fs, d) = (inr n, (fs', d')) →
  (∀ i nm, has_environment d'.(t_environments) repo i nm ↔
     stored_environment d'.(t_environments) i nm ∧ i ∈ ye_ID <$> envs ∧ nm ∈ ye_Name <$> envs) ∧
  (envs_consistent envs d.(t_environments) →
   ∀ i nm, has_environment d'.(t_environments) repo i nm ↔ listed_environment envs i nm).
Proof.
  intros (r & [fs1 d1] & (-> & -> & Hrepo)%map_err_inr%fetchRepo_inr & H)%bind_inr.
  apply bind_inr in H as (ex & [fs2 d2] & (-> & ->)%map_err_inr%(pluck_inr Environments) & H).
  apply bind_inr in H as ([] & [fs3 d3] & (m & Hm & ->)%map_err_inr%(create_rows_inr Environments) & H).
  apply bind_inr in H as (us & [fs4 d4] & (-> & Hus)%map_err_inr%(pluck_inr Environments) & H).
  apply bind_inr in H as ([] & [fs5 d5] & Hdel%map_err_inr & Hins%map_err_inr).
  destruct (sync_inr Environments _ _ _ _ _ _ _ _ _ Hdel Hins) as (Hrows & Hlinks & _).
  rewrite tget_tset in Hrows, Hus. cbn [rows] in Hrows, Hus. change (tget Environments d') with d'.(t_environments) in Hrows.
  assert (∀ i nm, has_environment d'.(t_environments) repo i nm ↔
     stored_environment d'.(t_environments) i nm ∧ i ∈ ye_ID <$> envs ∧ nm ∈ ye_Name <$> envs) as Hall.
  { intros i nm. unfold has_environment, stored_environment. rewrite Hrows. split.
    - intros (u & r & Hl & Hr & <- & <-). apply Hlinks in Hl. rewrite decide_True, Hus in Hl by done.
      apply list_elem_of_fmap in Hl as ([u' r'] & -> & [Hr' Hb%by_id_and_name_true]%elem_of_matching).
      simpl in Hr. simplify_eq. split; eauto.
    - intros [(u & r & Hr & <- & <-) Hb]. exists u, r. split_and!; [|done..]. apply Hlinks.
      rewrite decide_True, Hus by done. apply list_elem_of_fmap. exists (u, r). split; [done|].
      apply elem_of_matching. split; [done|]. by apply by_id_and_name_true. }
  split; [done|]. intros Hcons i nm. rewrite Hall. unfold stored_environment. rewrite Hrows. split.
  - intros [(u & r & Hr & <- & <-) [Hi Hn]]. destruct Hcons as [_ H2].
    destruct (insert_rows_origin _ _ _ _ _ _ _ _ Hm Hr) as [Hold|Hnew].
    + apply H2; [|done..]. by exists u, r.
    + apply FilteredConvertEnvironments_elem in Hnew as (e & He & _ & ->). by exists e.
  - intros Hlist. split; [by eapply environments_stored|].
    destruct Hlist as (e & He & <- & <-). split; apply list_elem_of_fmap; eauto.
Qed.

(** [InsertForRepository] of environments looks stored environments up by id and, independently, by name.
    When it returns without an error, the environments of the repository are the stored ones whose id is the id of
    some listed environment and whose name is the name of some listed environment; they are the listed ones when
    the list has one name per id and no stored environment mixes the id of one with the name of another.
    Whatever fails, rows are only added and other repositories and tables are untouched. *)
Theorem Environment_insert_cross ids repo envs d fs :
  envs_ok d →
  match Environment_InsertForRepository ids repo envs (fs, d) with
  | (inr _, (_, d')) =>
      envs_frame repo d d' ∧
      (∀ i nm, has_environment d'.(t_environments) repo i nm ↔
         stored_environment d'.(t_environments) i nm ∧ i ∈ ye_ID <$> envs ∧ nm ∈ ye_Name <$> envs) ∧
      (envs_consistent envs d.(t_environments) →
       ∀ i nm, has_environment d'.(t_environments) repo i nm ↔ listed_environment envs i nm)
  | (inl _, (_, d')) => envs_frame repo d d'
  end.
Proof.
  intros Hok.
  pose proof (Environment_insert_frame ids repo envs d fs d (frame_refl _ _ _ _ Hok)) as Hfr.
  destruct (Environment_InsertForRepository _ _ _ _) as [[e|n] [fs' d']] eqn:H; [done|]. split; [done|].
  by eapply Environment_insert_inr.
Qed.

(** Another repository stored environment [a] under the name [Y]. The list has [a] under the name [X] and [b]
    under the name [Y]: the repository gets [a]/[Y], which it does not list, and [a]/[X] is never stored. *)
Definition ex_env_store : store := mk_store {[ 1%N := ex_repo; 2%N := ex_repo ]} (mk_table ∅ ∅) (mk_table ∅ ∅)
  (mk_table {[ 60%N := mk_Environment "a" "Y" "" ]} {[ (2%N, 60%N) ]}) (mk_table ∅ ∅).
Definition ex_envs : list yum_Environment := [mk_yum_Environment "a" "X" ""; mk_yum_Environment "b" "Y" ""].

Lemma ex_env_store_ok : envs_ok ex_env_store.
Proof.
  split; [done|]. intros repo u H. change ((repo, u) ∈ ({[ (2%N, 60%N) ]} : gset (uuid * uuid))) in H.
  apply elem_of_singleton in H as [= -> ->]. split; vm_compute; by eexists.
Qed.

Lemma Environment_insert_cross_witness :
  ∃ d' n, Environment_InsertForRepository ex_ids 1%N ex_envs ([], ex_env_store) = (inr n, ([], d')) ∧
    has_environment d'.(t_environments) 1%N "a" "Y" ∧ ¬ has_environment d'.(t_environments) 1%N "a" "X".
Proof.
  pose proof (Environment_insert_cross ex_ids 1%N ex_envs ex_env_store [] ex_env_store_ok) as H.
  destruct (Environment_InsertForRepository _ _ _ _) as [[e|n] [fs' d']] eqn:E.
  - exfalso. revert E. vm_compute. done.
  - destruct H as (_ & Hc & _). exists d', n.
    assert (fs' = [] ∧ d'.(t_environments).(rows) =
      {[ 60%N := mk_Environment "a" "Y" ""; 100%N := mk_Environment "b" "Y" "" ]}) as [-> Hrows].
    { revert E. vm_compute. intros E. by simplify_eq. }
    split; [done|]. rewrite !Hc. unfold stored_environment. rewrite Hrows. split.
    + split_and!; [|left|right; left]. exists 60%N, (mk_Environment "a" "Y" ""). split; [|done]. apply lookup_insert_eq.
    + intros [(u & r & Hr & Hi & Hn) _].
      apply lookup_insert_Some in Hr as [[_ <-]|[_ [_ <-]%lookup_singleton_Some]]; done.
Defined.

(** ** Orphans *)

Section Orphans.
#[local] Set Default Proof Using "Type*".
Context {R : Type} (T : tbl R) `{!TableLaws T}.

(** Rows without an association are gone, the rest of the table and the store is as before. *)
Definition cleaned (d d' : store) : Prop :=
  d' = tset T (tget T d') d ∧ (tget T d').(links) = (tget T d).(links) ∧
  ∀ u, (tget T d').(rows) !! u = if unlinked (tget T d) u then None else (tget T d).(rows) !! u.

Lemma cleaned_set d m :
  (∀ u, m !! u = if unlinked (tget T d) u then None else (tget T d).(rows) !! u) →
  cleaned d (tset T (mk_table m (tget T d).(links)) d).
Proof. intros H. split_and!; rewrite ?tget_tset; done. Qed.

Lemma OrphanCleanup_inr fs d fs' d' :
  OrphanCleanup T (fs, d) = (inr (), (fs', d')) → cleaned d d'.
Proof.
  intros (dang & [fs1 d1] & H1%call_inr & H)%bind_inr. simplify_eq.
  set (dang := base.filter _ _) in H.
  assert (∀ u, u ∈ dang ↔ unlinked (tget T d1) u = true ∧ is_Some ((tget T d1).(rows) !! u)) as Hd.
  { intros u. unfold dang. rewrite list_elem_of_filter, list_elem_of_fmap. split.
    - intros (Hu & [u' r] & -> & Hr%elem_of_map_to_list). split; [done|]. by eexists.
    - intros (Hu & r & Hr). split; [done|]. exists (u, r). split; [done|]. by apply elem_of_map_to_list. }
  assert (∀ u, (if unlinked (tget T d1) u then None else (tget T d1).(rows) !! u) =
               if contains dang u then None else (tget T d1).(rows) !! u) as Hif.
  { intros u. destruct (contains dang u) eqn:Hc; [apply contains_true, Hd in Hc as [-> _]; done|].
    apply contains_false in Hc. destruct (unlinked _ u) eqn:Hu; [|done].
    destruct (_ !! u) eqn:Hr; [|done]. destruct Hc. apply Hd. split; [done|]. rewrite Hr. by eexists. }
  destruct (Nat.eqb_spec (length dang) 0) as [Hl|Hl].
  - apply ret_inr in H as [_ [= -> ->]]. apply nil_length_inv in Hl. split_and!; [by rewrite tset_tget|done|].
    intros u. rewrite Hif, Hl. done.
  - apply call_inr in H. injection H as <-.
    assert (base.filter (λ l, sql_in dang l.2 = false) (tget T d1).(links) = (tget T d1).(links)) as ->.
    { apply set_eq. intros [repo u]. rewrite elem_of_filter. simpl. split; [tauto|]. intros Hin. split; [|done].
      apply contains_false. rewrite Hd, unlinked_true. intros [Hn _]. by apply (Hn repo). }
    apply cleaned_set. intros u. rewrite Hif, map_lookup_filter. unfold sql_in. simpl.
    destruct (_ !! u) as [r|]; simpl; destruct (contains dang u) eqn:Hc; simpl; try done;
      case_guard; simpl in *; congruence.
Qed.

Lemma OrphanCleanup_inl fs d e fs' d' : OrphanCleanup T (fs, d) = (inl e, (fs', d')) → d' = d.
Proof.
  unfold OrphanCleanup, mbind, M_bind. destruct (db_call _ (fs, d)) as [[e1|dang] [fs1 d1]] eqn:H1.
  - intros [= -> -> ->]. by apply call_inl in H1 as [?|?].
  - apply call_inr in H1. injection H1 as <- <-. case_match; [done|]. intros Hx. by apply call_inl in Hx as [?|?].
Qed.

Lemma OrphanCleanup_total d : ∃ d', OrphanCleanup T ([], d) = (inr (), ([], d')).
Proof. unfold OrphanCleanup, mbind, M_bind, db_call. case_match; by eexists. Qed.
End Orphans.

(** A clean-up of table [T]: exactly the orphans go, or nothing when a call fails; it succeeds when none fails. *)
Definition cleans {R} (T : tbl R) (m : DB ()) : Prop :=
  ∀ d, (∀ fs, match m (fs, d) with
              | (inr _, (_, d')) => cleaned T d d'
              | (inl _, (_, d')) => d' = d
              end) ∧
       ∃ d', m ([], d) = (inr (), ([], d')).

Lemma OrphanCleanup_cleans {R} (T : tbl R) `{!TableLaws T} : cleans T (OrphanCleanup T).
Proof.
  intros d. split; [|by apply OrphanCleanup_total]. intros fs.
  destruct (OrphanCleanup T (fs, d)) as [[e|[]] [fs' d']] eqn:H.
  - by eapply OrphanCleanup_inl.
  - by eapply OrphanCleanup_inr.
Qed.

(** The clean-up of orphaned RPMs, package groups, environments and module streams removes exactly the rows no
    repository refers to, and no association; when a database call fails nothing has been removed, and when none
    fails it succeeds. *)
Theorem orphans_cleaned :
  cleans Rpms Rpm_OrphanCleanup ∧ cleans PackageGroups PackageGroup_OrphanCleanup ∧
  cleans Environments Environment_OrphanCleanup ∧ cleans ModuleStreams ModuleStream_OrphanCleanup.
Proof.
  split_and!; [exact (OrphanCleanup_cleans _)..|].
  intros d. split; [|by eexists]. intros fs. unfold ModuleStream_OrphanCleanup.
  destruct (db_call _ (fs, d)) as [[e|[]] [fs' d']] eqn:H.
  - apply call_inl in H as [?|?]; done.
  - apply call_inr in H. injection H as <-. apply (cleaned_set ModuleStreams). intros u. rewrite map_lookup_filter.
    destruct (_ !! u) as [r|]; simpl; destruct (unlinked _ u) eqn:Hu; simpl; try done;
      case_guard; simpl in *; congruence.
Qed.
