(* ===== verification/Introspect.v ===== *)
(** * Introspection of repositories

    [external_repos/introspect.go], [dao/repositories.go] and [tasks/introspect.go]: reading the metadata of a
    repository, storing its content, and the status of the last introspections kept with the repository.

    The yum client is code outside the repository: what it answers for one repository at one time is the
    record [YumRepo]. The certificates of the CDN client, the clock, and the UUIDs drawn for new rows are
    arguments as well. An error of [Introspect] is a value, because [IntrospectUrl] records it; the repository
    passed by pointer is returned with the changes made to it. *)

From S2P Require Import Prelude GoStrings GoSplit Config TxMonad Utils Models Sha256 Content.
From stdpp Require Import options.

Open Scope string_scope.

(** ** dao/repositories.go *)

Record dao_Repository := mk_dao_Repository {
  dr_UUID : uuid; dr_URL : string; dr_Public : bool; dr_RepomdChecksum : string;
  dr_LastIntrospectionTime : option time; dr_LastIntrospectionSuccessTime : option time;
  dr_LastIntrospectionUpdateTime : option time; dr_LastIntrospectionError : option string;
  dr_LastIntrospectionStatus : string; dr_PackageCount : Z; dr_BuildCount : Z; dr_VersionCount : Z;
  dr_FailedIntrospectionsCount : Z; dr_Origin : string }.

(** [None]: do not change. *)
Record RepositoryUpdate := mk_RepositoryUpdate {
  ru_UUID : uuid; ru_URL : option string; ru_Public : option bool; ru_RepomdChecksum : option string;
  ru_LastIntrospectionTime : option time; ru_LastIntrospectionSuccessTime : option time;
  ru_LastIntrospectionUpdateTime : option time; ru_LastIntrospectionError : option string;
  ru_LastIntrospectionStatus : option string; ru_PackageCount : option Z; ru_BuildCount : option Z;
  ru_VersionCount : option Z; ru_FailedIntrospectionsCount : option Z }.

Definition modelToInternal (id : uuid) (m : Repository) : dao_Repository :=
  mk_dao_Repository id m.(r_URL) m.(r_Public) m.(r_RepomdChecksum) m.(r_LastIntrospectionTime)
    m.(r_LastIntrospectionSuccessTime) m.(r_LastIntrospectionUpdateTime) m.(r_LastIntrospectionError)
    m.(r_LastIntrospectionStatus) m.(r_PackageCount) m.(r_BuildCount) m.(r_VersionCount)
    m.(r_FailedIntrospectionsCount) m.(r_Origin).

(** [if internal.X != nil { model.X = ... }] *)
Definition override {A} (new : option A) (old : A) : A := default old new.
Definition override_ptr {A} (new old : option A) : option A := match new with Some _ => new | None => old end.

(** The build and version counts of the update are not copied. *)
Definition internalToModel (u : RepositoryUpdate) (m : Repository) : Repository :=
  mk_Repository (override u.(ru_URL) m.(r_URL)) m.(r_Origin)
    (override u.(ru_LastIntrospectionStatus) m.(r_LastIntrospectionStatus))
    (override_ptr u.(ru_LastIntrospectionTime) m.(r_LastIntrospectionTime))
    (override_ptr u.(ru_LastIntrospectionSuccessTime) m.(r_LastIntrospectionSuccessTime))
    (override_ptr u.(ru_LastIntrospectionUpdateTime) m.(r_LastIntrospectionUpdateTime))
    (match u.(ru_LastIntrospectionError) with
     | Some e => Some (to_valid_utf8 e)
     | None => m.(r_LastIntrospectionError)
     end)
    (override u.(ru_RepomdChecksum) m.(r_RepomdChecksum))
    (override u.(ru_PackageCount) m.(r_PackageCount)) m.(r_BuildCount) m.(r_VersionCount)
    (override u.(ru_FailedIntrospectionsCount) m.(r_FailedIntrospectionsCount))
    (override u.(ru_Public) m.(r_Public)).

Definition set_repositories (rs : gmap uuid Repository) (d : store) : store :=
  mk_store rs d.(t_rpms) d.(t_package_groups) d.(t_environments) d.(t_module_streams).

(** [Where("uuid = ?", id).First(&r)]. *)
Definition first_repository (id : uuid) : DB Repository :=
  db_call (λ d, match d.(repositories) !! id with
                | Some r => (inr r, d)
                | None => (inl "record not found", d)
                end).

(** [Model(&r).Updates(r.MapForUpdate())], by the primary key of [r]. *)
Definition update_repository (id : uuid) (r : Repository) : DB () :=
  db_call (λ d, (inr (), set_repositories (alter (repository_MapForUpdate r) id d.(repositories)) d)).

Definition Update (repoIn : RepositoryUpdate) : DB () :=
  dbRepo ← first_repository repoIn.(ru_UUID);
  update_repository repoIn.(ru_UUID) (internalToModel repoIn dbRepo).

Definition FetchRepositoryRPMCount (repoUUID : uuid) : DB Z :=
  db_call (λ d, (inr (Z.of_nat (length (linked repoUUID d.(t_rpms).(links)))), d)).

Definition uuid_le (x y : uuid * Repository) : Prop := (x.1 ≤ y.1)%N.
#[global] Instance uuid_le_dec : RelDecision uuid_le.
Proof. intros x y. unfold uuid_le. apply _. Defined.

Definition url_matches (url : string) (origin : option string) (r : Repository) : bool :=
  (r.(r_URL) == url) && match origin with Some o => r.(r_Origin) == o | None => true end.

(** [First] takes the least UUID among the rows with the least URL, and here all have the same one. *)
Definition FetchForUrl (url : string) (origin : option string) : DB dao_Repository :=
  db_call (λ d,
    match merge_sort uuid_le (matching (url_matches (CleanupURL url) origin) d.(repositories)) with
    | (id, r) :: _ => (inr (modelToInternal id r), d)
    | [] => (inl "record not found", d)
    end).

Definition Hour : time := (3600 * Second)%Z.
Definition IntrospectTimeInterval : time := (23 * Hour)%Z.

(** The WHERE clause of [ListForIntrospection] when the list is not forced. *)
Definition due_for_introspection (now : time) (r : Repository) : bool :=
  let introspectThreshold := (now - IntrospectTimeInterval)%Z in
  ((r.(r_LastIntrospectionStatus) != StatusValid) ||
   match r.(r_LastIntrospectionTime) with None => true | Some t => (t <? introspectThreshold)%Z end) &&
  ((r.(r_FailedIntrospectionsCount) <? FailedIntrospectionsLimit + 1)%Z || r.(r_Public)).

Definition listed_for_introspection (alwaysRun : bool) (now : time) (urls : option (list string)) (force : bool)
    (r : Repository) : bool :=
  (force || alwaysRun || due_for_introspection now r) &&
  match urls with None => true | Some us => sql_in (CleanupURL <$> us) r.(r_URL) end &&
  sql_in [OriginExternal; OriginRedHat; OriginCommunity] r.(r_Origin).

Definition ListForIntrospection (alwaysRun : bool) (now : time) (urls : option (list string)) (force : bool) :
    DB (list dao_Repository) :=
  db_call (λ d, (inr ((λ kv, modelToInternal kv.1 kv.2) <$>
    matching (listed_for_introspection alwaysRun now urls force) d.(repositories)), d)).

Definition set_Public (b : bool) (r : Repository) : Repository :=
  mk_Repository r.(r_URL) r.(r_Origin) r.(r_LastIntrospectionStatus) r.(r_LastIntrospectionTime)
    r.(r_LastIntrospectionSuccessTime) r.(r_LastIntrospectionUpdateTime) r.(r_LastIntrospectionError)
    r.(r_RepomdChecksum) r.(r_PackageCount) r.(r_BuildCount) r.(r_VersionCount)
    r.(r_FailedIntrospectionsCount) b.

Definition MarkAsNotPublic (url : string) : DB () :=
  map_err (errorf "could not mark as public")
    (db_call (λ d, (inr (), set_repositories
      ((λ r, if r.(r_URL) == url then set_Public false r else r) <$> d.(repositories)) d))).

Definition set_Counts (p b v : Z) (r : Repository) : Repository :=
  mk_Repository r.(r_URL) r.(r_Origin) r.(r_LastIntrospectionStatus) r.(r_LastIntrospectionTime)
    r.(r_LastIntrospectionSuccessTime) r.(r_LastIntrospectionUpdateTime) r.(r_LastIntrospectionError)
    r.(r_RepomdChecksum) p b v r.(r_FailedIntrospectionsCount) r.(r_Public).

Definition InternalOnly_UpdateCounts (repoUUID : uuid) (packageCount buildCount versionCount : Z) : DB () :=
  affected ← map_err (errorf "could not update counts")
    (db_call (λ d, (inr (bool_decide (is_Some (d.(repositories) !! repoUUID))),
       set_repositories (alter (set_Counts packageCount buildCount versionCount) repoUUID d.(repositories)) d)));
  if affected : bool then mret () else throw "repository not found".

(** ** external_repos/introspect.go *)

Definition RhCdnHost := "cdn.redhat.com".

(** [strings.Contains]. *)
Fixpoint str_contains (s sub : string) : bool :=
  has_prefix (chars sub) (chars s) || match s with "" => false | String _ s' => str_contains s' sub end.

Definition IsRedHatUrl (url : string) : bool := str_contains url RhCdnHost.

(** The certificate pair of the configuration is loaded; the result of [LoadCA]. *)
Record certs := mk_certs { CdnCertPair : bool; LoadCA : option string }.

(** [None]: a client; [Some e]: an error. *)
Definition httpClient (c : certs) (useCert : bool) : option string :=
  if useCert then if negb c.(CdnCertPair) then Some "no certificate loaded" else c.(LoadCA) else None.

(** The answers of the yum client. *)
Record YumRepo := mk_YumRepo {
  Repomd : string + option string;             (* RepomdString *)
  yr_Packages : string + list yum_Package;
  yr_PackageGroups : string + list yum_PackageGroup;
  yr_Environments : string + list yum_Environment;
  yr_ModuleMDs : string + list yum_ModuleMD }.

(** The result of a call of the yum client, as a step. *)
Definition lift {A} (r : string + A) : DB A := match r with inl e => throw e | inr a => mret a end.

(** The error of a step, as a value. *)
Definition try_ {A} (m : DB A) : DB (string + A) := λ w, let '(r, w') := m w in (inr r, w').

Definition RepoToRepoUpdate (r : dao_Repository) : RepositoryUpdate :=
  mk_RepositoryUpdate r.(dr_UUID) (Some r.(dr_URL)) None (Some r.(dr_RepomdChecksum))
    r.(dr_LastIntrospectionTime) r.(dr_LastIntrospectionSuccessTime) r.(dr_LastIntrospectionUpdateTime)
    r.(dr_LastIntrospectionError) (Some r.(dr_LastIntrospectionStatus)) (Some r.(dr_PackageCount))
    (Some r.(dr_BuildCount)) (Some r.(dr_VersionCount)) (Some r.(dr_FailedIntrospectionsCount)).

Definition checksum_of (repomd : option string) : string :=
  match repomd with
  | Some s => if s != "" then sha256_hex s else ""
  | None => ""
  end.

(** The UUIDs drawn for the new rows of each kind. *)
Record new_ids := mk_new_ids { ids_rpms : nat → uuid; ids_groups : nat → uuid; ids_envs : nat → uuid; ids_modules : nat → uuid }.

(** The phases between the check of the checksum and the final update: the number of new packages and the
    number of packages found. *)
Definition introspect_phases (lim : nat) (ids : new_ids) (yr : YumRepo) (repoUUID : uuid) : DB (Z * Z) :=
  packages ← lift yr.(yr_Packages);
  total ← Rpm_InsertForRepository lim ids.(ids_rpms) repoUUID packages;
  foundCount ← FetchRepositoryRPMCount repoUUID;
  packageGroups ← lift yr.(yr_PackageGroups);
  _ ← PackageGroup_InsertForRepository ids.(ids_groups) repoUUID packageGroups;
  environments ← lift yr.(yr_Environments);
  _ ← Environment_InsertForRepository ids.(ids_envs) repoUUID environments;
  modMds ← lift yr.(yr_ModuleMDs);
  _ ← ModuleStream_InsertForRepository ids.(ids_modules) repoUUID modMds;
  mret (total, foundCount).

Definition set_content (checksum : string) (count : Z) (r : dao_Repository) : dao_Repository :=
  mk_dao_Repository r.(dr_UUID) r.(dr_URL) r.(dr_Public) checksum r.(dr_LastIntrospectionTime)
    r.(dr_LastIntrospectionSuccessTime) r.(dr_LastIntrospectionUpdateTime) r.(dr_LastIntrospectionError)
    r.(dr_LastIntrospectionStatus) count r.(dr_BuildCount) r.(dr_VersionCount)
    r.(dr_FailedIntrospectionsCount) r.(dr_Origin).

Definition skipped_message :=
  "introspection skipped because this repository has failed more than 20 times in a row".

(** The repository as the call leaves it, and the error or the number of new packages with the [updated] flag. *)
Definition Introspect (lim : nat) (ids : new_ids) (c : certs) (yr : YumRepo) (repo : dao_Repository) :
    DB (dao_Repository * (string + Z * bool)) :=
  if (repo.(dr_FailedIntrospectionsCount) =? FailedIntrospectionsLimit)%Z then mret (repo, inl skipped_message)
  else match httpClient c (IsRedHatUrl repo.(dr_URL)) with
  | Some e => mret (repo, inl e)
  | None =>
      match yr.(Repomd) with
      | inl e => mret (repo, inl e)
      | inr repomd =>
          let checksumStr := checksum_of repomd in
          if (repo.(dr_RepomdChecksum) != "") && (checksumStr != "") && (checksumStr == repo.(dr_RepomdChecksum))
          then mret (repo, inr (0%Z, false))
          else
            phases ← try_ (introspect_phases lim ids yr repo.(dr_UUID));
            match phases with
            | inl e => mret (repo, inl e)
            | inr (total, foundCount) =>
                let repo := set_content checksumStr foundCount repo in
                updated ← try_ (Update (RepoToRepoUpdate repo));
                match updated with
                | inl e => mret (repo, inl e)
                | inr _ => mret (repo, inr (total, true))
                end
            end
      end
  end.

(** The status after a failure. *)
Definition status_after_failure (status : string) (successTime : option time) : string :=
  if status == StatusValid then StatusUnavailable
  else if status == StatusInvalid then StatusInvalid
  else if status == StatusPending then match successTime with None => StatusInvalid | Some _ => StatusUnavailable end
  else if status == StatusUnavailable then StatusUnavailable
  else StatusUnavailable.

Definition updateIntrospectionStatusMetadata (input : dao_Repository) (count : Z) (err : option string) (timeEnd : time) :
    RepositoryUpdate :=
  match err with
  | None =>
      RepoToRepoUpdate (mk_dao_Repository input.(dr_UUID) input.(dr_URL) input.(dr_Public) input.(dr_RepomdChecksum)
        (Some timeEnd) (Some timeEnd)
        (if (count =? 0)%Z then input.(dr_LastIntrospectionUpdateTime) else Some timeEnd) (Some "")
        StatusValid input.(dr_PackageCount) input.(dr_BuildCount) input.(dr_VersionCount) 0 input.(dr_Origin))
  | Some e =>
      RepoToRepoUpdate (mk_dao_Repository input.(dr_UUID) input.(dr_URL) input.(dr_Public) input.(dr_RepomdChecksum)
        (Some timeEnd) input.(dr_LastIntrospectionSuccessTime) input.(dr_LastIntrospectionUpdateTime) (Some e)
        (status_after_failure input.(dr_LastIntrospectionStatus) input.(dr_LastIntrospectionSuccessTime))
        input.(dr_PackageCount) input.(dr_BuildCount) input.(dr_VersionCount)
        (input.(dr_FailedIntrospectionsCount) + 1) input.(dr_Origin))
  end.

Definition UpdateIntrospectionStatusMetadata (now : time) (repo : dao_Repository) (count : Z) (err : option string) : DB () :=
  map_err (errorf "failed to update introspection timestamps")
    (Update (updateIntrospectionStatusMetadata repo count err now)).

Inductive event := RepositoryIntrospected | RepositoryIntrospectionFailure.

(** The notifications sent, as pairs of an organization and an event; [configs] are the organizations with a
    configuration of a repository. The goroutines of one batch of the source run in any order. *)
Definition sendIntrospectionNotifications (configs : uuid → list string) (successUuids failedUuids : list uuid) :
    list (string * event) :=
  (((λ org, (org, RepositoryIntrospected)) <$> mjoin (configs <$> successUuids)) ++
   ((λ org, (org, RepositoryIntrospectionFailure)) <$> mjoin (configs <$> failedUuids)))%list.

Record introspection := mk_introspection {
  i_count : Z; i_error : option string; i_fatal : option string; i_notified : list (string * event) }.

Section IntrospectUrl.
Context (lim : nat) (ids : new_ids) (c : certs) (now : time) (configs : uuid → list string).

(** The number of new packages, the introspection error, the fatal error, and the notifications. *)
Definition IntrospectUrl (yr : dao_Repository → YumRepo) (url : string) (origin : option string) : DB introspection :=
  found ← try_ (FetchForUrl url origin);
  match found with
  | inl e => mret (mk_introspection 0 None (Some e) [])
  | inr repo =>
      res ← Introspect lim ids c (yr repo) repo;
      let '(repo, outcome) := res in
      let count := match outcome with inl _ => 0%Z | inr (n, _) => n end in
      let err := match outcome with inl e => Some e | inr _ => None end in
      let introspectionError := match outcome with
        | inl e => Some ("error introspecting " +:+ repo.(dr_URL) +:+ ": " +:+ e) | inr _ => None end in
      let failed := match outcome with inl _ => [repo.(dr_UUID)] | inr _ => [] end in
      let success := match outcome with inr (_, true) => [repo.(dr_UUID)] | _ => [] end in
      saved ← try_ (UpdateIntrospectionStatusMetadata now repo count err);
      mret (mk_introspection count introspectionError
              (match saved with inl e => Some e | inr _ => None end)
              (sendIntrospectionNotifications configs success failed))
  end.

(** ** tasks/introspect.go *)

(** [IntrospectionTask.Run]; [canceled] is [IsTaskCancelled]. The error of the task, if any. *)
Definition IntrospectionTask_Run (canceled : bool) (yr : dao_Repository → YumRepo) (url : string) (origin : option string) :
    DB (option string) :=
  found ← try_ (FetchForUrl url origin);
  match found with
  | inl e => mret (Some ("error loading repository during introspection " +:+ e))
  | inr _ =>
      r ← IntrospectUrl yr url origin;
      match r.(i_fatal), r.(i_error) with
      | Some e, nonFatalErr => if negb canceled then mret (Some e)
                               else match nonFatalErr with
                                    | Some e' => if negb canceled then mret (Some e') else mret None
                                    | None => mret None
                                    end
      | None, Some e => if negb canceled then mret (Some e) else mret None
      | None, None => mret None
      end
  end.
End IntrospectUrl.
