(* ===== verification/IntrospectThms.v ===== *)
(** * Introspection: theorems

    What one introspection leaves in the store, whichever database calls fail: the content of the repository, its
    row, and the rows and content of the others. *)

From S2P Require Import Prelude GoStrings GoSplit Config TxMonad Utils Models Sha256 Content.
From S2P Require Import ContentTables ContentThms ContentMore Introspect.
From stdpp Require Import options.

Open Scope string_scope.

(** ** Content operations and the rest of the store *)

(** A property of the store that does not look at table [T]. *)
Definition stable {R} (T : tbl R) (P : store → Prop) : Prop := ∀ t d, P d → P (tset T t d).

Abbreviation keeps P m := (hoare P m (λ _, P) (λ _, P)) (only parsing).

Section Keeps.
#[local] Set Default Proof Using "Type*".
Context (P : store → Prop).

Lemma keeps_fetchRepo id : keeps P (fetchRepo id).
Proof. apply hoare_call; [done|]. intros d H. by destruct (d.(repositories) !! id). Qed.

Lemma keep_bind {A B} (m : DB A) (k : A → DB B) : keeps P m → (∀ a, keeps P (k a)) → keeps P (m ≫= k).
Proof. intros. by eapply hoare_bind. Qed.

Lemma keep_map_err {A} g (m : DB A) : keeps P m → keeps P (map_err g m).
Proof. intros. by apply hoare_map_err. Qed.

Lemma keep_ret {A} (a : A) : keeps P (mret a : DB A).
Proof. by apply hoare_ret. Qed.

Lemma keep_throw {A} e : keeps P (throw e : DB A).
Proof. by apply hoare_throw. Qed.

Lemma keeps_lift {A} (r : string + A) : keeps P (lift r).
Proof. destruct r; [apply keep_throw|apply keep_ret]. Qed.

Lemma keeps_in_batches {A} lim (q : list string → DB (list A)) fuel i l acc :
  (∀ k, keeps P (q k)) → keeps P (in_batches lim q fuel i l acc).
Proof.
  intros Hq. revert i acc. induction fuel as [|fuel IH]; intros i acc; cbn [in_batches]; [apply keep_ret|].
  destruct (i <? length l)%nat; [|apply keep_ret]. apply keep_bind; [apply Hq|]. intros. apply IH.
Qed.

Lemma keeps_count id : keeps P (FetchRepositoryRPMCount id).
Proof. by apply hoare_call. Qed.

Section Table.
Context {R} (T : tbl R) (HT : stable T P).

Lemma keeps_pluck {A} p (column : uuid * R → A) : keeps P (pluck T p column).
Proof. by apply hoare_call. Qed.

Lemma keeps_pluck_links repo : keeps P (pluck_links T repo).
Proof. by apply hoare_call. Qed.

Lemma keeps_create_rows hook conflict ids l : keeps P (create_rows T hook conflict ids l).
Proof using HT.
  apply hoare_call; [done|]. intros d H. destruct (hook_error hook l); [done|].
  destruct (insert_rows _ _ _ _ _); [by apply HT|done].
Qed.

Lemma keeps_create_links l : keeps P (create_links T l).
Proof using HT.
  apply hoare_call; [done|]. intros d H. destruct (insert_links _ _ _ _ _) as [|[]]; [done|by apply HT].
Qed.

Lemma keeps_delete_links repo p : keeps P (delete_links T repo p).
Proof using HT. apply hoare_call; [done|]. intros d H. by apply HT. Qed.
End Table.

(** Walk through the calls of an operation. *)
Ltac keeps_steps :=
  repeat first
    [ apply keep_bind; [|intro] | apply keep_map_err | apply keeps_in_batches; intro
    | apply keeps_fetchRepo | apply keeps_lift | apply keeps_pluck; assumption | apply keeps_pluck_links; assumption | apply keeps_count
    | apply keeps_create_rows; assumption | apply keeps_create_links; assumption
    | apply keeps_delete_links; assumption | apply keep_ret | apply keep_throw ].

Lemma keeps_rpms lim ids repo pkgs : stable Rpms P → keeps P (Rpm_InsertForRepository lim ids repo pkgs).
Proof. intros HT. unfold Rpm_InsertForRepository, Rpm_deleteUnneeded. keeps_steps. Qed.

Lemma keeps_groups ids repo gs : stable PackageGroups P → keeps P (PackageGroup_InsertForRepository ids repo gs).
Proof. intros HT. unfold PackageGroup_InsertForRepository, PackageGroup_deleteUnneeded. keeps_steps. Qed.

Lemma keeps_envs ids repo es : stable Environments P → keeps P (Environment_InsertForRepository ids repo es).
Proof. intros HT. unfold Environment_InsertForRepository, Environment_deleteUnneeded. keeps_steps. Qed.

Lemma keeps_modules ids repo ms : stable ModuleStreams P → keeps P (ModuleStream_InsertForRepository ids repo ms).
Proof.
  intros HT. unfold ModuleStream_InsertForRepository, ModuleStream_deleteUnneeded. keeps_steps.
  destruct (prepRepositoryModuleStreams _ _ _); keeps_steps.
Qed.

Lemma keeps_phases lim ids yr repo :
  stable Rpms P → stable PackageGroups P → stable Environments P → stable ModuleStreams P →
  keeps P (introspect_phases lim ids yr repo).
Proof.
  intros. unfold introspect_phases.
  repeat first [ by apply keeps_rpms | by apply keeps_groups | by apply keeps_envs | by apply keeps_modules
               | apply keeps_lift | apply keeps_count | apply keep_ret | apply keep_bind; [|intro] ].
Qed.
End Keeps.

(** The phases do not write the rows of the repositories. *)
Lemma phases_repositories lim ids yr repo fs d r fs' d' :
  introspect_phases lim ids yr repo (fs, d) = (r, (fs', d')) → d'.(repositories) = d.(repositories).
Proof.
  intros H. pose proof (keeps_phases (λ x, x.(repositories) = d.(repositories)) lim ids yr repo) as Hk.
  specialize (Hk ltac:(by intros ??) ltac:(by intros ??) ltac:(by intros ??) ltac:(by intros ??) fs d eq_refl).
  rewrite H in Hk. by destruct r.
Qed.

(** ** Rows of repositories *)

Lemma try_eq {A} (m : DB A) w r w' : try_ m w = (inr r, w') ↔ m w = (r, w').
Proof. unfold try_. destruct (m w). split; by intros [= -> ->]. Qed.

Definition updated_row (u : RepositoryUpdate) (m : Repository) : Repository :=
  repository_MapForUpdate (internalToModel u m) m.

(** [Update] changes the row of its UUID, or nothing. *)
Lemma Update_cases u fs d r fs' d' :
  Update u (fs, d) = (r, (fs', d')) →
  match r with
  | inl _ => d' = d
  | inr _ => ∃ m, d.(repositories) !! u.(ru_UUID) = Some m ∧
      d' = set_repositories (<[u.(ru_UUID) := updated_row u m]> d.(repositories)) d
  end.
Proof.
  unfold Update. destruct (first_repository u.(ru_UUID) (fs, d)) as [[e|m] [fs1 d1]] eqn:H1.
  - rewrite (bind_err _ _ _ _ _ H1). intros [= <- <- <-].
    apply call_inl in H1 as [?|H1]; [done|]. by destruct (_ !! _); simplify_eq.
  - rewrite (bind_eq _ _ _ _ _ H1). apply call_inr in H1.
    destruct (d.(repositories) !! u.(ru_UUID)) as [m'|] eqn:Hm; simplify_eq. intros H2.
    destruct r as [e|[]].
    + apply call_inl in H2 as [?|?]; done.
    + apply call_inr in H2. simplify_eq. exists m. split; [done|]. f_equal.
      apply map_eq. intros i. destruct (decide (i = u.(ru_UUID))) as [->|Hi].
      * by rewrite lookup_alter_eq, Hm, lookup_insert_eq.
      * by rewrite lookup_alter_ne, lookup_insert_ne.
Qed.

(** What [IntrospectUrl] decides on and writes: the same in the repository in memory and in its row. *)
Definition same_status (r r' : Repository) : Prop :=
  r'.(r_LastIntrospectionStatus) = r.(r_LastIntrospectionStatus) ∧
  r'.(r_LastIntrospectionTime) = r.(r_LastIntrospectionTime) ∧
  r'.(r_LastIntrospectionSuccessTime) = r.(r_LastIntrospectionSuccessTime) ∧
  r'.(r_FailedIntrospectionsCount) = r.(r_FailedIntrospectionsCount) ∧
  r'.(r_Public) = r.(r_Public) ∧ r'.(r_Origin) = r.(r_Origin).

(** ** One introspection *)

(** An unchanged repository has the stored checksum. *)
Lemma unchanged_checksum md cs :
  (cs != "") && (checksum_of md != "") && (checksum_of md == cs) = true →
  ∃ s, (inr md : string + option string) = inr (Some s) ∧ sha256_hex s = cs.
Proof.
  rewrite !andb_true_iff. intros [[_ Hn%bool_decide_neg_eq] Heq%bool_decide_eq_true]. destruct md as [s|]; [|done].
  exists s. split; [done|]. simpl in *. by destruct (s != "").
Qed.

(** A branch that ends here. *)
Ltac introspect_stop := intros [= <- <- <-]; do 2 eexists; split; [reflexivity|simpl; eauto].

Lemma Introspect_cases lim ids c yr repo fs d res fs' d' :
  Introspect lim ids c yr repo (fs, d) = (res, (fs', d')) →
  ∃ repo' out, res = inr (repo', out) ∧
    match out with
    | inl _ => (repo' = repo ∨ ∃ cs n, repo' = set_content cs n repo) ∧ d'.(repositories) = d.(repositories)
    | inr (n, false) => repo' = repo ∧ d' = d ∧ n = 0%Z ∧
        ∃ s, yr.(Repomd) = inr (Some s) ∧ sha256_hex s = repo.(dr_RepomdChecksum)
    | inr (n, true) => ∃ repomd count fs1 d1 m,
        yr.(Repomd) = inr repomd ∧ repo' = set_content (checksum_of repomd) count repo ∧
        introspect_phases lim ids yr repo.(dr_UUID) (fs, d) = (inr (n, count), (fs1, d1)) ∧
        d.(repositories) !! repo.(dr_UUID) = Some m ∧
        d' = set_repositories (<[repo.(dr_UUID) := updated_row (RepoToRepoUpdate repo') m]> d.(repositories)) d1
    end.
Proof.
  unfold Introspect. destruct (_ =? _)%Z; [introspect_stop|].
  destruct (httpClient _ _); [introspect_stop|].
  destruct (Repomd yr) as [e|repomd] eqn:Hmd; [introspect_stop|]. cbv zeta.
  destruct (_ && _ && _) eqn:Hsame.
  { intros [= <- <- <-]. do 2 eexists. split; [reflexivity|]. split_and!; [done..|]. by apply unchanged_checksum. }
  destruct (introspect_phases lim ids yr repo.(dr_UUID) (fs, d)) as [ph [fs1 d1]] eqn:Hph.
  rewrite (bind_eq _ _ _ ph (fs1, d1)) by (by apply try_eq).
  pose proof (phases_repositories _ _ _ _ _ _ _ _ _ Hph) as Hr.
  destruct ph as [e|[total count]]; [introspect_stop|].
  destruct (Update (RepoToRepoUpdate (set_content (checksum_of repomd) count repo)) (fs1, d1)) as [up [fs2 d2]] eqn:Hup.
  rewrite (bind_eq _ _ _ up (fs2, d2)) by (by apply try_eq). apply Update_cases in Hup.
  destruct up as [e|[]]; intros [= <- <- <-]; (do 2 eexists; split; [reflexivity|]).
  - subst d2. eauto.
  - destruct Hup as (m & Hm & ->). rewrite Hr in Hm |- *. eexists repomd, count, fs1, d1, m. done.
Qed.

(** The row [IntrospectUrl] works on. *)
Definition row_for_url (url : string) (origin : option string) (d : store) : option (uuid * Repository) :=
  head (merge_sort uuid_le (matching (url_matches (CleanupURL url) origin) d.(repositories))).

Lemma row_for_url_Some url origin d id r : row_for_url url origin d = Some (id, r) → d.(repositories) !! id = Some r.
Proof.
  unfold row_for_url. destruct (merge_sort _ _) as [|kv l] eqn:H; [done|]. intros [= ->].
  assert ((id, r) ∈ merge_sort uuid_le (matching (url_matches (CleanupURL url) origin) d.(repositories))) as Hin
    by (rewrite H; left).
  rewrite merge_sort_Permutation in Hin. by apply elem_of_matching in Hin as [? _].
Qed.

Lemma FetchForUrl_cases url origin fs d r fs' d' :
  FetchForUrl url origin (fs, d) = (r, (fs', d')) →
  d' = d ∧ match r with
           | inl _ => True
           | inr repo => ∃ id row, row_for_url url origin d = Some (id, row) ∧ repo = modelToInternal id row
           end.
Proof.
  intros H. unfold row_for_url. destruct r as [e|repo].
  - apply call_inl in H as [->|H]; [done|]. destruct (merge_sort _ _) as [|[]]; by simplify_eq.
  - apply call_inr in H. destruct (merge_sort _ _) as [|[id row] l]; simplify_eq. split; [done|]. eauto.
Qed.

(** The status tells whether the repository was ever introspected, and failures are counted from zero. *)
Definition status_ok (r : Repository) : Prop :=
  (r.(r_LastIntrospectionStatus) = StatusValid ∨ r.(r_LastIntrospectionStatus) = StatusUnavailable →
     is_Some r.(r_LastIntrospectionSuccessTime)) ∧
  (r.(r_LastIntrospectionStatus) = StatusInvalid → r.(r_LastIntrospectionSuccessTime) = None) ∧
  r.(r_LastIntrospectionStatus) ∈ [StatusValid; StatusUnavailable; StatusInvalid; StatusPending] ∧
  (0 ≤ r.(r_FailedIntrospectionsCount))%Z.

Definition introspected (now : time) (r' : Repository) : Prop :=
  r'.(r_LastIntrospectionStatus) = StatusValid ∧ r'.(r_LastIntrospectionTime) = Some now ∧
  r'.(r_LastIntrospectionSuccessTime) = Some now ∧ r'.(r_FailedIntrospectionsCount) = 0%Z ∧
  r'.(r_LastIntrospectionError) = Some "".

Definition introspection_failed (now : time) (r r' : Repository) : Prop :=
  (status_ok r → r'.(r_LastIntrospectionStatus) =
     match r.(r_LastIntrospectionSuccessTime) with None => StatusInvalid | Some _ => StatusUnavailable end) ∧
  r'.(r_LastIntrospectionTime) = Some now ∧
  r'.(r_LastIntrospectionSuccessTime) = r.(r_LastIntrospectionSuccessTime) ∧
  r'.(r_FailedIntrospectionsCount) = (r.(r_FailedIntrospectionsCount) + 1)%Z ∧ r'.(r_Public) = r.(r_Public).

(** What becomes of the row of the introspected repository. *)
Definition row_outcome (now : time) (res : introspection) (r r' : Repository) : Prop :=
  match res.(i_fatal), res.(i_error) with
  | Some _, _ => same_status r r'
  | None, None => introspected now r'
  | None, Some _ => introspection_failed now r r'
  end.

Lemma same_status_refl r : same_status r r.
Proof. done. Qed.

Lemma override_ptr_id {A} (x : option A) : override_ptr x x = x.
Proof. by destruct x. Qed.

Lemma content_update_same_status cs n id r :
  same_status r (updated_row (RepoToRepoUpdate (set_content cs n (modelToInternal id r))) r).
Proof. unfold same_status. simpl. by rewrite !override_ptr_id. Qed.

Lemma success_update now n repo r1 :
  introspected now (updated_row (updateIntrospectionStatusMetadata repo n None now) r1).
Proof. done. Qed.

(** On a row in order the status after a failure depends on the last success alone. *)
Lemma status_after_failure_ok r :
  status_ok r → status_after_failure r.(r_LastIntrospectionStatus) r.(r_LastIntrospectionSuccessTime) =
    match r.(r_LastIntrospectionSuccessTime) with None => StatusInvalid | Some _ => StatusUnavailable end.
Proof.
  intros (H1 & H2 & H3 & _). unfold status_after_failure. rewrite !elem_of_cons in H3.
  destruct H3 as [H|[H|[H|[H|H%elem_of_nil]]]]; [rewrite H in *..|done]; simpl.
  - destruct (H1 ltac:(by left)) as [x ->]. done.
  - destruct (H1 ltac:(by right)) as [x ->]. done.
  - by rewrite H2.
  - done.
Qed.

Lemma failure_update now repo id r r1 e :
  (repo = modelToInternal id r ∨ ∃ cs n, repo = set_content cs n (modelToInternal id r)) → same_status r r1 →
  introspection_failed now r (updated_row (updateIntrospectionStatusMetadata repo 0 (Some e) now) r1).
Proof.
  intros Hrepo (Hs & Ht & Hsu & Hf & Hp & _). unfold introspection_failed.
  destruct Hrepo as [->|(cs & n & ->)]; simpl; rewrite Hsu, Hp, override_ptr_id; split_and!; try done;
    apply status_after_failure_ok.
Qed.

(** The row after [Introspect]: its status is untouched. *)
Lemma Introspect_row lim ids c yr id r fs d repo' out fs' d' :
  d.(repositories) !! id = Some r →
  Introspect lim ids c yr (modelToInternal id r) (fs, d) = (inr (repo', out), (fs', d')) →
  (repo' = modelToInternal id r ∨ ∃ cs n, repo' = set_content cs n (modelToInternal id r)) ∧
  ∃ r1, same_status r r1 ∧ d'.(repositories) = <[id := r1]> d.(repositories).
Proof.
  intros Hr H. destruct (Introspect_cases _ _ _ _ _ _ _ _ _ _ H) as (repo1 & out1 & [= <- <-] & Hout).
  destruct out as [e|[n []]].
  - destruct Hout as [Hrepo ->]. split; [done|]. exists r. split; [done|]. by rewrite insert_id.
  - destruct Hout as (md & count & fs1 & d1 & m & _ & -> & _ & Hm & ->). simpl in Hm. simplify_eq.
    split; [eauto|]. eexists. split; [|reflexivity]. apply content_update_same_status.
  - destruct Hout as (-> & -> & _). split; [by left|]. exists r. split; [done|]. by rewrite insert_id.
Qed.

Section Url.
#[local] Set Default Proof Using "Type*".
Context (lim : nat) (ids : new_ids) (c : certs) (now : time) (configs : uuid → list string).
Context (yr : dao_Repository → YumRepo) (url : string) (origin : option string).

Lemma IntrospectUrl_rows fs d res fs' d' :
  IntrospectUrl lim ids c now configs yr url origin (fs, d) = (res, (fs', d')) →
  ∃ i, res = inr i ∧
    ((d'.(repositories) = d.(repositories) ∧ is_Some i.(i_fatal)) ∨
     ∃ id r r', row_for_url url origin d = Some (id, r) ∧
       d'.(repositories) = <[id := r']> d.(repositories) ∧ row_outcome now i r r').
Proof.
  unfold IntrospectUrl. destruct (FetchForUrl url origin (fs, d)) as [f [fs1 d1]] eqn:Hf.
  rewrite (bind_eq _ _ _ f (fs1, d1)) by (by apply try_eq).
  apply FetchForUrl_cases in Hf as [-> Hf]. destruct f as [e|repo].
  { intros [= <- <- <-]. eexists. split; [done|]. left. simpl. eauto. }
  destruct Hf as (id & r & Hrow & ->). pose proof (row_for_url_Some _ _ _ _ _ Hrow) as Hr.
  destruct (Introspect lim ids c (yr (modelToInternal id r)) (modelToInternal id r) (fs1, d)) as [ires [fs2 d2]] eqn:Hi.
  destruct (Introspect_cases _ _ _ _ _ _ _ _ _ _ Hi) as (repo' & out & -> & _).
  rewrite (bind_eq _ _ _ _ _ Hi). destruct (Introspect_row _ _ _ _ _ _ _ _ _ _ _ _ Hr Hi) as (Hrepo & r1 & Hs1 & Hd2).
  assert (repo'.(dr_UUID) = id) as Hid by (by destruct Hrepo as [->|(cs & n & ->)]). clear Hi.
  set (upd := updateIntrospectionStatusMetadata repo' (match out with inl _ => 0%Z | inr (n, _) => n end)
    (match out with inl e => Some e | inr _ => None end) now).
  assert (upd.(ru_UUID) = id) as Huid by (unfold upd; by destruct out as [|[]]).
  destruct (UpdateIntrospectionStatusMetadata now repo' (match out with inl _ => 0%Z | inr (n, _) => n end)
    (match out with inl e => Some e | inr _ => None end) (fs2, d2)) as [sv [fs3 d3]] eqn:Hu.
  rewrite (bind_eq _ _ _ sv (fs3, d3)) by (by apply try_eq). intros [= <- <- <-]. eexists. split; [done|]. right.
  unfold UpdateIntrospectionStatusMetadata, map_err in Hu. fold upd in Hu.
  destruct (Update upd (fs2, d2)) as [ur [fs4 d4]] eqn:Hup. apply Update_cases in Hup.
  destruct ur as [e|[]]; injection Hu as <- <- <-.
  - subst d4. exists id, r, r1. split_and!; [done|done|]. by unfold row_outcome.
  - destruct Hup as (m & Hm & ->). rewrite Huid, Hd2, lookup_insert_eq in Hm. injection Hm as <-.
    eexists id, r, _. split_and!; [done|simpl; by rewrite Huid, Hd2, insert_insert_eq|].
    unfold row_outcome, upd. destruct out as [e|[n b]]; simpl; [by eapply failure_update|by apply success_update].
Qed.
End Url.

Lemma status_ok_outcome now i r r' : row_outcome now i r r' → status_ok r → status_ok r'.
Proof.
  unfold row_outcome, status_ok. intros H (H1 & H2 & H3 & H4).
  destruct (i_fatal i); [|destruct (i_error i)].
  - destruct H as (-> & _ & -> & -> & _). done.
  - destruct H as (Hs & _ & -> & -> & _). rewrite Hs by done. destruct (r_LastIntrospectionSuccessTime r) as [x|].
    + split_and!; [by eexists|done|right; left|lia].
    + split_and!; [by intros [?|?]|done|do 2 right; left|lia].
  - destruct H as (-> & _ & -> & -> & _). split_and!; [by eexists|done|left|done].
Qed.

(** [IntrospectUrl] always returns, whatever fails on the way, and writes at most the row of the repository found for
    the URL. Without a fatal error that row records the outcome: after a success it is [Valid] with the time of this
    introspection, no error message and no failures; after a failure it keeps the time of its last success, has one
    more failure, and is [Invalid] if it never was introspected and [Unavailable] if it was. With a fatal error (the
    lookup or the recording failed) status, times and count are as before. It follows that the status of every
    repository tells whether it was ever introspected successfully. *)
Theorem introspection_status lim ids c now configs yr url origin d :
  (∀ fs, match IntrospectUrl lim ids c now configs yr url origin (fs, d) with
         | (inl _, _) => False
         | (inr i, (_, d')) =>
             (d'.(repositories) = d.(repositories) ∧ is_Some i.(i_fatal)) ∨
             ∃ id r r', row_for_url url origin d = Some (id, r) ∧
               d'.(repositories) = <[id := r']> d.(repositories) ∧ row_outcome now i r r'
         end) ∧
  (map_Forall (λ _, status_ok) d.(repositories) →
   ∀ fs, map_Forall (λ _, status_ok) (IntrospectUrl lim ids c now configs yr url origin (fs, d)).2.2.(repositories)).
Proof.
  split; intros H; [rename H into fs|intros fs].
  - destruct (IntrospectUrl _ _ _ _ _ _ _ _ _) as [res [fs' d']] eqn:E.
    by destruct (IntrospectUrl_rows _ _ _ _ _ _ _ _ _ _ _ _ _ E) as (i & -> & Hi).
  - destruct (IntrospectUrl _ _ _ _ _ _ _ _ _) as [res [fs' d']] eqn:E. simpl.
    destruct (IntrospectUrl_rows _ _ _ _ _ _ _ _ _ _ _ _ _ E) as (i & -> & [[-> _]|(id & r & r' & Hrow & -> & Ho)]); [done|].
    apply map_Forall_insert_2; [|done]. eapply status_ok_outcome; [done|]. by eapply H, row_for_url_Some.
Qed.

Definition ex_certs : certs := mk_certs false None.
Definition ex_new_ids (k : nat) : new_ids :=
  mk_new_ids (λ i, (1000 * N.of_nat k + 100 + N.of_nat i)%N) (λ i, (1000 * N.of_nat k + 200 + N.of_nat i)%N)
    (λ i, (1000 * N.of_nat k + 300 + N.of_nat i)%N) (λ i, (1000 * N.of_nat k + 400 + N.of_nat i)%N).
Definition ex_url := "https://example.com/repo".

(** A repository that was never reached: the client reports an error, and the row becomes [Invalid]. *)
Lemma introspection_status_witness :
  ∃ i d' r', IntrospectUrl 2 (ex_new_ids 1) ex_certs 77 (λ _, []) (λ _, mk_YumRepo (inl "timeout") (inr []) (inr []) (inr []) (inr []))
      ex_url None ([], ex_store) = (inr i, ([], d')) ∧
    introspection_failed 77 ex_repo r' ∧ r'.(r_LastIntrospectionStatus) = StatusInvalid ∧
    map_Forall (λ _, status_ok) d'.(repositories).
Proof.
  set (yr := λ _ : dao_Repository, mk_YumRepo (inl "timeout") (inr []) (inr []) (inr []) (inr [])).
  destruct (introspection_status 2 (ex_new_ids 1) ex_certs 77 (λ _, []) yr ex_url None ex_store) as [H Hinv].
  specialize (H []).
  assert (map_Forall (λ _, status_ok) ex_store.(repositories)) as Hok.
  { intros id r Hr. assert (r = ex_repo) as ->.
    { change (({[ 1%N := ex_repo; 2%N := ex_repo ]} : gmap uuid Repository) !! id = Some r) in Hr.
      apply lookup_insert_Some in Hr as [[_ <-]|[_ [_ <-]%lookup_singleton_Some]]; done. }
    split_and!; [by intros [?|?]|done|do 3 right; left|done]. }
  specialize (Hinv Hok []).
  destruct (IntrospectUrl _ _ _ _ _ _ _ _ _) as [[e|i] [fs' d']] eqn:E; [done|].
  assert (fs' = [] ∧ i.(i_fatal) = None ∧ is_Some i.(i_error)) as (-> & Hf & x & He).
  { revert E. vm_compute. intros E. simplify_eq. split_and!; [done|done|by eexists]. }
  destruct H as [[_ [? ?]]|(id & r & r' & Hrow & Hd & Ho)]; [congruence|].
  exists i, d', r'. split; [done|]. unfold row_outcome in Ho. rewrite Hf, He in Ho.
  assert (r = ex_repo) as ->. { revert Hrow. vm_compute. intros Hrow. by simplify_eq. }
  split_and!; [done| |done]. destruct Ho as (-> & _); [done|]. by eapply Hok, lookup_insert_eq.
Defined.
