(* ===== verification/IntrospectContent.v ===== *)
(** * Introspection: the content it stores

    The content and the stored checksum after one introspection, the repositories it gives up on, and a sequence
    of introspections after which the stored checksum does not describe the stored content. *)

From S2P Require Import Prelude GoStrings GoSplit Config TxMonad Utils Models Sha256 Content.
From S2P Require Import ContentTables ContentThms ContentMore Introspect IntrospectThms.
From stdpp Require Import options.

Open Scope string_scope.

Definition store_ok (d : store) : Prop := rpms_ok d ∧ groups_ok d ∧ envs_ok d ∧ streams_ok d.

(** The stored rows stay as they are; new ones may join them. *)
Definition rows_kept (d0 d : store) : Prop :=
  d0.(t_rpms).(rows) ⊆ d.(t_rpms).(rows) ∧ d0.(t_package_groups).(rows) ⊆ d.(t_package_groups).(rows) ∧
  d0.(t_environments).(rows) ⊆ d.(t_environments).(rows) ∧ d0.(t_module_streams).(rows) ⊆ d.(t_module_streams).(rows).

(** The content of the repositories other than [repo] is the same. *)
Definition others_same (repo : uuid) (d0 d : store) : Prop :=
  rows_kept d0 d ∧ ∀ repo' u, repo' ≠ repo →
    ((repo', u) ∈ d.(t_rpms).(links) ↔ (repo', u) ∈ d0.(t_rpms).(links)) ∧
    ((repo', u) ∈ d.(t_package_groups).(links) ↔ (repo', u) ∈ d0.(t_package_groups).(links)) ∧
    ((repo', u) ∈ d.(t_environments).(links) ↔ (repo', u) ∈ d0.(t_environments).(links)) ∧
    ((repo', u) ∈ d.(t_module_streams).(links) ↔ (repo', u) ∈ d0.(t_module_streams).(links)).

Definition content_ok (repo : uuid) (d0 d : store) : Prop := store_ok d ∧ others_same repo d0 d.

(** An operation framed to one of the tables keeps the whole store in order. *)
Lemma content_of_frame {A R} (T : tbl R) (Inv : gmap uuid R → Prop) repo d0 (m : DB A) :
  (∀ d, content_ok repo d0 d → table_ok T Inv d) →
  (∀ d d', content_ok repo d0 d → frame T Inv repo d d' → content_ok repo d0 d') → TableLaws T →
  (∀ d, hoare (frame T Inv repo d) m (λ _, frame T Inv repo d) (λ _, frame T Inv repo d)) →
  keeps (content_ok repo d0) m.
Proof.
  intros Hin Hout HT Hm fs d Hd. specialize (Hm d fs d (frame_refl T Inv repo d (Hin d Hd))).
  destruct (m (fs, d)) as [[e|a] [fs' d']]; by eapply Hout.
Qed.

(** The other tables and the repositories of a framed step are those before it. *)
Ltac framed_table :=
  let Hok := fresh "Hok" in let Hth := fresh "Hth" in let Hrows := fresh "Hrows" in
  intros d d' [(H1 & H2 & H3 & H4) [(R1 & R2 & R3 & R4) Ho]] [Hok (Heq & Hrows & Hth)]; split; [|split];
  [ unfold store_ok; rewrite Heq in Hok |- *; split_and!; first [exact Hok|assumption]
  | rewrite Heq in Hrows |- *; unfold rows_kept; simpl in *; split_and!; first [assumption|etrans; [eassumption|exact Hrows]]
  | intros repo' u Hne; specialize (Ho repo' u Hne); specialize (Hth repo' u Hne); rewrite Heq in Hth |- *;
    simpl in *; tauto ].

Lemma content_rpms lim ids repo pkgs d0 : keeps (content_ok repo d0) (Rpm_InsertForRepository lim ids repo pkgs).
Proof.
  eapply (content_of_frame Rpms (key_unique rpm_Checksum)); [|framed_table|apply _|apply Rpm_insert_frame].
  by intros d [(? & _) _].
Qed.

Lemma content_groups ids repo gs d0 : keeps (content_ok repo d0) (PackageGroup_InsertForRepository ids repo gs).
Proof.
  eapply (content_of_frame PackageGroups groups_hashed); [|framed_table|apply _|apply PackageGroup_insert_frame].
  by intros d [(_ & ? & _) _].
Qed.

Lemma content_envs ids repo es d0 : keeps (content_ok repo d0) (Environment_InsertForRepository ids repo es).
Proof.
  eapply (content_of_frame Environments (λ _, True)); [|framed_table|apply _|apply Environment_insert_frame].
  by intros d [(_ & _ & ? & _) _].
Qed.

Lemma content_modules ids repo ms d0 : keeps (content_ok repo d0) (ModuleStream_InsertForRepository ids repo ms).
Proof.
  eapply (content_of_frame ModuleStreams streams_hashed); [|framed_table|apply _|apply ModuleStream_insert_frame].
  by intros d [(_ & _ & _ & ?) _].
Qed.

Lemma content_phases lim ids yr repo d0 : keeps (content_ok repo d0) (introspect_phases lim ids yr repo).
Proof.
  unfold introspect_phases.
  repeat first [ apply content_rpms | apply content_groups | apply content_envs | apply content_modules
               | apply keeps_lift | apply keeps_count | apply keep_ret | apply keep_bind; [|intro] ].
Qed.

Lemma lift_inr {A} (r : string + A) w a w' : lift r w = (inr a, w') → r = inr a ∧ w' = w.
Proof. destruct r; [done|]. by intros [-> ->]%ret_inr. Qed.

(** A successful run of an operation that keeps a property. *)
Lemma keeps_inr {A} (P : store → Prop) (m : DB A) fs d a fs' d' :
  m (fs, d) = (inr a, (fs', d')) → keeps P m → P d → P d'.
Proof. intros H Hk Hd. specialize (Hk fs d Hd). by rewrite H in Hk. Qed.

(** The content of [repo] is that of the metadata; module streams only when there are some. *)
Definition content_stored (repo : uuid) (yr : YumRepo) (d : store) : Prop :=
  ∃ pkgs gs es ms, yr.(yr_Packages) = inr pkgs ∧ yr.(yr_PackageGroups) = inr gs ∧
    yr.(yr_Environments) = inr es ∧ yr.(yr_ModuleMDs) = inr ms ∧
    (∀ k, has_content rpm_Checksum d.(t_rpms) repo k ↔ k ∈ yp_Checksum <$> pkgs) ∧
    (∀ k, has_content pg_HashValue d.(t_package_groups) repo k ↔ k ∈ group_hash <$> gs) ∧
    (∀ i nm, has_environment d.(t_environments) repo i nm ↔
       stored_environment d.(t_environments) i nm ∧ i ∈ ye_ID <$> es ∧ nm ∈ ye_Name <$> es) ∧
    (ms ≠ [] → ∀ k, has_content ms_HashValue d.(t_module_streams) repo k ↔ k ∈ module_hash <$> ms).

Lemma phases_inr lim ids yr repo fs d n count fs' d' :
  (0 < lim)%nat → store_ok d →
  introspect_phases lim ids yr repo (fs, d) = (inr (n, count), (fs', d')) →
  content_stored repo yr d' ∧ count = Z.of_nat (length (linked repo d'.(t_rpms).(links))).
Proof.
  intros Hlim Hok H. assert (content_ok repo d d) as C0 by (by split).
  apply bind_inr in H as (pkgs & w0 & [Hp ->]%lift_inr & H).
  apply bind_inr in H as (total & [fs1 d1] & H1 & H).
  pose proof (keeps_inr _ _ _ _ _ _ _ H1 (content_rpms _ _ _ _ d) C0) as C1.
  destruct (Rpm_insert_inr _ _ _ _ _ _ _ _ _ Hlim H1) as [E1 _].
  apply bind_inr in H as (found & [fs1' d1'] & Hc%call_inr & H). injection Hc as <- <-.
  apply bind_inr in H as (gs & w2 & [Hg ->]%lift_inr & H).
  apply bind_inr in H as (n2 & [fs2 d2] & H2 & H).
  pose proof (keeps_inr _ _ _ _ _ _ _ H2 (content_groups _ _ _ d) C1) as C2.
  destruct (PackageGroup_insert_inr _ _ _ _ _ _ _ _ (proj1 (proj2 (proj1 C1))) H2) as [E2 _].
  pose proof (keeps_inr _ _ _ _ _ _ _ H2 (keeps_groups (λ x, x.(t_rpms) = d1.(t_rpms)) _ _ _ (λ _ _ HP, HP)) eq_refl) as K2.
  apply bind_inr in H as (es & w3 & [He ->]%lift_inr & H).
  apply bind_inr in H as (n3 & [fs3 d3] & H3 & H).
  pose proof (keeps_inr _ _ _ _ _ _ _ H3 (content_envs _ _ _ d) C2) as C3.
  destruct (Environment_insert_inr _ _ _ _ _ _ _ _ H3) as [E3 _].
  pose proof (keeps_inr _ _ _ _ _ _ _ H3
    (keeps_envs (λ x, x.(t_rpms) = d2.(t_rpms) ∧ x.(t_package_groups) = d2.(t_package_groups)) _ _ _ (λ _ _ HP, HP)) (conj eq_refl eq_refl)) as [K3 K3'].
  apply bind_inr in H as (ms & w4 & [Hm ->]%lift_inr & H).
  apply bind_inr in H as (n4 & [fs4 d4] & H4 & [[= <- <-] [= <- <-]]%ret_inr).
  destruct (ModuleStream_insert_inr _ _ _ _ _ _ _ _ (proj2 (proj2 (proj2 (proj1 C3)))) H4) as (_ & _ & E4).
  pose proof (keeps_inr _ _ _ _ _ _ _ H4
    (keeps_modules (λ x, x.(t_rpms) = d3.(t_rpms) ∧ x.(t_package_groups) = d3.(t_package_groups) ∧
      x.(t_environments) = d3.(t_environments)) _ _ _ (λ _ _ HP, HP)) (conj eq_refl (conj eq_refl eq_refl))) as (K4 & K4' & K4'').
  rewrite K4, K3, K2. split; [|done]. exists pkgs, gs, es, ms.
  rewrite K4, K3, K2, K4', K3', K4''. split_and!; [done..|]. intros Hne. by rewrite decide_False in E4.
Qed.

(** Rows of repositories do not matter to the tables, as long as none goes. *)
Lemma content_ok_repositories repo d0 d id r :
  content_ok repo d0 d → content_ok repo d0 (set_repositories (<[id := r]> d.(repositories)) d).
Proof.
  intros [(H1 & H2 & H3 & H4) Ho].
  assert (∀ k, is_Some (d.(repositories) !! k) → is_Some (<[id := r]> d.(repositories) !! k)) as Hk.
  { intros k Hk. destruct (decide (id = k)) as [->|]; [rewrite lookup_insert_eq; by eexists|by rewrite lookup_insert_ne]. }
  split; [|done]. unfold store_ok, table_ok, links_ok in *. simpl in *. naive_solver.
Qed.

Lemma keeps_try {A} (P : store → Prop) (m : DB A) : keeps P m → keeps P (try_ m).
Proof. intros Hm fs d Hd. specialize (Hm fs d Hd). unfold try_. by destruct (m (fs, d)) as [[] [? ?]]. Qed.

Lemma content_update repo d0 u : keeps (content_ok repo d0) (Update u).
Proof.
  intros fs d Hd. destruct (Update u (fs, d)) as [r [fs' d']] eqn:H. apply Update_cases in H. destruct r as [e|a].
  - by subst d'.
  - destruct H as (m & _ & ->). by apply content_ok_repositories.
Qed.

Lemma content_Introspect lim ids c yr repo d0 : keeps (content_ok repo.(dr_UUID) d0) (Introspect lim ids c yr repo).
Proof.
  unfold Introspect. destruct (_ =? _)%Z; [apply keep_ret|]. destruct (httpClient _ _); [apply keep_ret|].
  destruct (Repomd yr) as [e|md]; [apply keep_ret|]. cbv zeta. destruct (_ && _ && _); [apply keep_ret|].
  apply keep_bind; [apply keeps_try, content_phases|]. intros [e|[total count]]; [apply keep_ret|].
  apply keep_bind; [apply keeps_try, content_update|]. intros [e|[]]; apply keep_ret.
Qed.


(** The metadata of the example: two packages, a package group and a module stream. *)
Definition ex_yum (repomd : string) (pkgs : list yum_Package) (groups : string + list yum_PackageGroup) : YumRepo :=
  mk_YumRepo (inr (Some repomd)) (inr pkgs) groups (inr []) (inr [ex_module]).

Lemma ex_store_all_ok : store_ok ex_store.
Proof.
  split_and!; [apply ex_store_ok| | |].
  - split; [by intros ?? ?|]. intros ?? H. by apply elem_of_empty in H.
  - split; [done|]. intros ?? H. by apply elem_of_empty in H.
  - split; [split; [by intros ?????|by intros ?? ?]|]. intros ?? H. by apply elem_of_empty in H.
Qed.


(** ** Giving up *)

Definition same_content (d d' : store) : Prop :=
  d'.(t_rpms) = d.(t_rpms) ∧ d'.(t_package_groups) = d.(t_package_groups) ∧
  d'.(t_environments) = d.(t_environments) ∧ d'.(t_module_streams) = d.(t_module_streams).

Lemma update_same_content u fs d r fs' d' : Update u (fs, d) = (r, (fs', d')) → same_content d d'.
Proof. intros H%Update_cases. destruct r; [by subst d'|]. by destruct H as (m & _ & ->). Qed.

(** At the limit of failed introspections [IntrospectUrl] does not contact the repository: no content is touched,
    and unless the database fails the call reports the skip and records one more failure. From then on the
    repository, when it is not public, is not listed for introspection again, at whatever time and for whatever
    URLs, until the list is forced or its count is reset. *)
Theorem introspection_gives_up lim ids c now configs yr url origin d fs id r :
  row_for_url url origin d = Some (id, r) → r.(r_FailedIntrospectionsCount) = FailedIntrospectionsLimit →
  match IntrospectUrl lim ids c now configs yr url origin (fs, d) with
  | (inl _, _) => False
  | (inr i, (_, d')) =>
      same_content d d' ∧ i.(i_count) = 0%Z ∧
      (i.(i_fatal) = None →
       i.(i_error) = Some ("error introspecting " +:+ r.(r_URL) +:+ ": " +:+ skipped_message) ∧
       ∃ r', d'.(repositories) !! id = Some r' ∧
         r'.(r_FailedIntrospectionsCount) = (FailedIntrospectionsLimit + 1)%Z ∧
         (r.(r_Public) = false → ∀ now' urls, listed_for_introspection false now' urls false r' = false))
  end.
Proof.
  intros Hrow Hcount. pose proof (row_for_url_Some _ _ _ _ _ Hrow) as Hr.
  destruct (IntrospectUrl _ _ _ _ _ _ _ _ _) as [res [fs' d']] eqn:E.
  destruct (IntrospectUrl_rows _ _ _ _ _ _ _ _ _ _ _ _ _ E) as (i & -> & Hi). revert E. unfold IntrospectUrl.
  destruct (FetchForUrl url origin (fs, d)) as [f [fs1 d1]] eqn:Hf.
  rewrite (bind_eq _ _ _ f (fs1, d1)) by (by apply try_eq).
  apply FetchForUrl_cases in Hf as [-> Hf]. destruct f as [e|repo]; [by intros [= <- <- <-]|].
  destruct Hf as (id' & r1 & Hrow' & ->). simplify_eq.
  rewrite (bind_eq _ _ _ (modelToInternal id r, inl skipped_message) (fs1, d))
    by (unfold Introspect; simpl; by rewrite Hcount).
  destruct (UpdateIntrospectionStatusMetadata now (modelToInternal id r) 0 (Some skipped_message) (fs1, d)) as [sv [fs2 d2]] eqn:Hu.
  rewrite (bind_eq _ _ _ sv (fs2, d2)) by (by apply try_eq). intros [= <- <- <-].
  split_and!; [|done|].
  - unfold UpdateIntrospectionStatusMetadata, map_err in Hu.
    destruct (Update _ (fs1, d)) as [ur [fs4 d4]] eqn:Hup. apply update_same_content in Hup.
    by destruct ur; injection Hu as <- <- <-.
  - simpl. intros Hsv. split; [done|]. destruct Hi as [[_ [? Hx]]|(id' & r0 & r' & Hrow0 & Hd & Ho)].
    { simpl in Hx. congruence. }
    rewrite Hrow in Hrow0. injection Hrow0 as <- <-. unfold row_outcome in Ho. simpl in Ho. rewrite Hsv in Ho.
    destruct Ho as (_ & _ & _ & Hfail & Hpub). exists r'. split_and!; [by rewrite Hd, lookup_insert_eq|by rewrite Hfail, Hcount|].
    intros Hpriv now' urls. unfold listed_for_introspection, due_for_introspection.
    rewrite Hfail, Hpub, Hpriv, Hcount. simpl. by rewrite andb_false_r.
Qed.

Definition ex_failing : Repository :=
  mk_Repository "https://example.com/repo/" "external" "Invalid" None None None None "" 0 0 0 20 false.

Lemma introspection_gives_up_witness :
  let d := set_repositories {[ 1%N := ex_failing ]} ex_store in
  row_for_url ex_url None d = Some (1%N, ex_failing) ∧
  same_content d (IntrospectUrl 2 (ex_new_ids 1) ex_certs 77 (λ _, []) (λ _, ex_yum "md" [] (inr [])) ex_url None ([], d)).2.2.
Proof.
  intros d. assert (row_for_url ex_url None d = Some (1%N, ex_failing)) as Hrow by (by vm_compute).
  split; [done|].
  pose proof (introspection_gives_up 2 (ex_new_ids 1) ex_certs 77 (λ _, []) (λ _, ex_yum "md" [] (inr [])) ex_url None d []
    1%N ex_failing Hrow eq_refl) as H.
  destruct (IntrospectUrl _ _ _ _ _ _ _ _ _) as [[e|i] [fs' d']]; [destruct H|]. destruct H as (Hc & _). exact Hc.
Defined.

(** ** The stored checksum need not describe the stored content *)

Definition ex_introspect (k : nat) (yr : YumRepo) (d : store) : (string + introspection) * store :=
  let '(r, (_, d')) := IntrospectUrl 2 (ex_new_ids k) ex_certs 77 (λ _, []) (λ _, yr) ex_url None ([], d) in (r, d').

(** An empty store with one repository; the first metadata has package [aa]; the second has package [bb] and a
    group file that cannot be read; then the first metadata is served again. *)
Definition rev_0 : store :=
  mk_store {[ 1%N := ex_repo ]} (mk_table ∅ ∅) (mk_table ∅ ∅) (mk_table ∅ ∅) (mk_table ∅ ∅).
Definition rev_old : YumRepo := ex_yum "old" [ex_pkg "bash" "aa"] (inr []).
Definition rev_new : YumRepo := ex_yum "new" [ex_pkg "vim" "bb"] (inl "timeout").
Definition rev_1 : store := (ex_introspect 1 rev_old rev_0).2.
Definition rev_2 : store := (ex_introspect 2 rev_new rev_1).2.
Definition rev_3 : (string + introspection) * store := ex_introspect 3 rev_old rev_2.

(** A concrete run in which the shortcut on the checksum leaves the wrong content. The first introspection
    stores package [aa] and the checksum of the metadata; the second replaces the packages by [bb] and then fails on
    the package groups, which leaves the old checksum; the third finds the old metadata again, reports an unchanged
    repository, and marks it [Valid]: its content is [bb], which its metadata does not list. *)
Theorem revert_after_partial_failure :
  (∀ k, has_content rpm_Checksum rev_1.(t_rpms) 1%N k ↔ k = "aa") ∧
  (∃ i r, rev_3.1 = inr i ∧ i.(i_error) = None ∧ i.(i_fatal) = None ∧
     rev_3.2.(repositories) !! 1%N = Some r ∧ r.(r_LastIntrospectionStatus) = StatusValid ∧
     r.(r_RepomdChecksum) = sha256_hex "old") ∧
  (∀ k, has_content rpm_Checksum rev_3.2.(t_rpms) 1%N k ↔ k = "bb").
Proof.
  assert (∀ (t : table Rpm) u r, t.(links) = {[ (1%N, u) ]} → t.(rows) !! u = Some r →
    ∀ k, has_content rpm_Checksum t 1%N k ↔ k = r.(rpm_Checksum)) as Hsingle.
  { intros t u r Hl Hu k. unfold has_content. rewrite Hl. split.
    - intros (u' & r' & [= ->]%elem_of_singleton & Hr & <-). by simplify_eq.
    - intros ->. exists u, r. split; [by apply elem_of_singleton|done]. }
  split_and!.
  - apply (Hsingle _ 1100%N (ex_rpm "bash" "aa")); by vm_compute.
  - eexists _, _. split; [by vm_compute|]. split_and!; by vm_compute.
  - apply (Hsingle _ 2100%N (ex_rpm "vim" "bb")); by vm_compute.
Qed.
