(* ===== verification/TaskInfoDao.v ===== *)
(** * pkg/dao/task_info.go: reading and cleaning up the task table

    The data layer reads the tables of the queue, joined with repository configurations and templates, and a
    periodic job deletes old tasks from under the queue. The state is the database of [TaskQueue] with the two
    other tables; [today] is the start of the current date. Deleting a task cascades to its dependencies and
    heartbeats (db/migrations). *)

From S2P Require Import Prelude GoStrings GoSplit Config TxMonad TaskQueue TaskQueueInv.
From S2P Require Import TaskQueueOps TaskQueueSpec TaskQueueTotal TaskQueueLife TaskQueueGraph.
From S2P Require Import TaskQueueThms.
From stdpp Require Import options.

Open Scope string_scope.
Open Scope Z_scope.

(** ** Tables *)

Record repo_config := mk_repo_config {
  rcf_uuid : uuid; rcf_name : string; rcf_org_id : string; rcf_repository_uuid : uuid; rcf_deleted : bool }.
Record template := mk_template {
  tpl_uuid : uuid; tpl_name : string; tpl_org_id : string; tpl_last_update_task_uuid : option uuid }.

Record world := mk_world { w_db : db; w_repo_configs : list repo_config; w_templates : list template }.
Definition set_db (d : db) (w : world) : world := mk_world d w.(w_repo_configs) w.(w_templates).

Abbreviation W := (M world qerr).

(** ** Cleanup *)

Definition Day : time := 86400 * Second.

(** [a < b] of SQL, not satisfied by a NULL. *)
Definition sql_lt (a : option time) (b : time) : bool := match a with Some x => x <? b | None => false end.

(** The WHERE clause of the first DELETE. AND binds tighter than OR: the condition on canceled tasks is an
    alternative to the type and to the protection of templates. *)
Definition cleanup_row (today : time) (w : world) (id : uuid) (t : task) : bool :=
  ((contains TasksToCleanup t.(fixed).(t_type) &&
    negb (existsb (λ tp, tp.(tpl_last_update_task_uuid) == Some id) w.(w_templates)) &&
    (((t.(status) == TaskStatusCompleted) || (t.(status) == TaskStatusFailed)) &&
     sql_lt t.(finished_at) (today - 20 * Day))) ||
   ((t.(status) == TaskStatusCanceled) && sql_lt t.(queued_at) (today - 20 * Day))) ||
  (contains TasksToCleanupIfCompleted t.(fixed).(t_type) &&
   (t.(status) == TaskStatusCompleted) && sql_lt t.(finished_at) (today - 10 * Day)).

(** The tasks [orphanQ] selects: snapshot tasks with an object that no configuration of the same organization
    refers to. The statement sees soft-deleted configurations. *)
Definition orphan_row (w : world) (t : task) : bool :=
  match t.(fixed).(object_uuid) with
  | None => false
  | Some o =>
      negb (existsb (λ rc, (rc.(rcf_org_id) == t.(fixed).(org_id)) && (rc.(rcf_repository_uuid) == o) &&
                           (t.(fixed).(object_type) == Some ObjectTypeRepository)) w.(w_repo_configs)) &&
      (t.(fixed).(t_type) == RepositorySnapshotTask)
  end.

Definition delete_tasks (p : uuid → task → bool) (d : db) : db :=
  let tasks' := base.filter (λ kv, p kv.1 kv.2 = false) d.(tasks) in
  mk_db tasks'
    (base.filter (λ e, is_Some (tasks' !! e.1) ∧ is_Some (tasks' !! e.2)) d.(task_dependencies))
    (base.filter (λ kv, is_Some (tasks' !! kv.2.1)) d.(task_heartbeats)) d.(notifications).

Definition TaskInfo_Cleanup (today : time) : W () :=
  _ ← db_call (λ w, (inr (), set_db (delete_tasks (cleanup_row today w) w.(w_db)) w));
  db_call (λ w, (inr (), set_db (delete_tasks (λ _, orphan_row w) w.(w_db)) w)).

(** [fmt.Sprintf("'%v'", v)] for each element, separated by commas. *)
Fixpoint stringSliceToQueryList_go (i n : nat) (s : list string) : string :=
  match s with
  | [] => ""
  | v :: s' => "'" +:+ v +:+ "'" +:+ (if (i <? n - 1)%nat then "," else "") +:+ stringSliceToQueryList_go (S i) n s'
  end.
Definition stringSliceToQueryList (s : list string) : string := stringSliceToQueryList_go 0 (length s) s.

(** ** Reading *)

(** One row of the joins: a task, a configuration of its repository, a template. *)
Record joined := mk_joined { j_id : uuid; j_task : task; j_rc : option repo_config; j_template : option template }.

Definition shared_orgs (orgID : string) : list string := [RedHatOrg; orgID; CommunityOrg].

(** [LEFT JOIN]: the matches, or NULL when there are none. *)
Definition left_join {A} (l : list A) : list (option A) := match l with [] => [None] | _ => Some <$> l end.

Definition joined_rows (orgID : string) (w : world) : list joined :=
  '(id, t) ← map_to_list w.(w_db).(tasks);
  rc ← left_join (base.filter (λ rc, t.(fixed).(object_uuid) = Some rc.(rcf_repository_uuid) ∧
                     t.(fixed).(object_type) = Some ObjectTypeRepository ∧ rc.(rcf_org_id) ∈ shared_orgs orgID)
                     w.(w_repo_configs));
  tp ← left_join (base.filter (λ tp, t.(fixed).(object_uuid) = Some tp.(tpl_uuid) ∧
                     t.(fixed).(object_type) = Some ObjectTypeTemplate ∧ tp.(tpl_org_id) = orgID) w.(w_templates));
  [mk_joined id t rc tp].

(** [rc.deleted_at is NULL], which an absent configuration satisfies. *)
Definition rc_not_deleted (j : joined) : bool := match j.(j_rc) with Some rc => negb rc.(rcf_deleted) | None => true end.

(** [First]: a row with the least primary key. *)
Definition joined_le (a b : joined) : Prop := (a.(j_id) ≤ b.(j_id))%N.
#[global] Instance joined_le_dec : RelDecision joined_le.
Proof. intros x y. unfold joined_le. apply _. Defined.

Definition TaskInfo_Fetch (orgID : string) (id : uuid) : W joined :=
  db_call (λ w,
    match merge_sort joined_le (base.filter (λ j, j.(j_id) = id ∧ j.(j_task).(fixed).(org_id) ∈ shared_orgs orgID ∧
                                  rc_not_deleted j = true) (joined_rows orgID w)) with
    | j :: _ => (inr j, w)
    | [] => (inl ErrNoRows, w)
    end).

Record TaskInfoFilterData := mk_TaskInfoFilterData {
  f_Status : string; f_Typename : string; f_RepoConfigUUID : option uuid; f_TemplateUUID : option uuid;
  f_ExcludeRedHatOrg : bool }.

(** A UUID of the filter, when it is not the empty string, restricts the rows; both together are an OR. *)
Definition filter_objects (f : TaskInfoFilterData) (j : joined) : bool :=
  let is_rc u := match j.(j_rc) with Some rc => rc.(rcf_uuid) == u | None => false end in
  let is_tp u := match j.(j_template) with Some tp => tp.(tpl_uuid) == u | None => false end in
  match f.(f_RepoConfigUUID), f.(f_TemplateUUID) with
  | Some u, Some v => is_rc u || is_tp v
  | Some u, None => is_rc u
  | None, Some v => is_tp v
  | None, None => true
  end.

Definition list_filter (orgID : string) (f : TaskInfoFilterData) (j : joined) : bool :=
  let orgsForQuery := if f.(f_ExcludeRedHatOrg) then [orgID] else shared_orgs orgID in
  contains orgsForQuery j.(j_task).(fixed).(org_id) && rc_not_deleted j &&
  ((f.(f_Status) == "") || (j.(j_task).(status) == f.(f_Status))) &&
  ((f.(f_Typename) == "") || (j.(j_task).(fixed).(t_type) == f.(f_Typename))) &&
  filter_objects f j.

(** [ORDER BY queued_at DESC], NULLs first. *)
Definition queued_desc (a b : joined) : Prop :=
  match a.(j_task).(queued_at), b.(j_task).(queued_at) with
  | None, _ => True
  | Some _, None => False
  | Some x, Some y => y ≤ x
  end.
#[global] Instance queued_desc_dec : RelDecision queued_desc.
Proof. intros x y. unfold queued_desc. repeat case_match; apply _. Defined.

(** The page and the total; a limit of -1 of gorm means no limit, and is not sent by the handlers. *)
Definition TaskInfo_List (orgID : string) (offset limit : nat) (f : TaskInfoFilterData) : W (list joined * Z) :=
  rows ← db_call (λ w, (inr (base.filter (λ j, list_filter orgID f j = true) (joined_rows orgID w)), w));
  page ← db_call (λ w, (inr (take limit (drop offset (merge_sort queued_desc
            (base.filter (λ j, list_filter orgID f j = true) (joined_rows orgID w))))), w));
  mret (page, Z.of_nat (length rows)).

Definition FetchActiveTasks (orgID : string) (objectUUID : uuid) (taskTypes : list string) : W (list uuid) :=
  db_call (λ w, (inr (fst <$> base.filter (λ '(_, t),
      t.(fixed).(org_id) = orgID ∧ t.(fixed).(object_uuid) = Some objectUUID ∧ contains taskTypes t.(fixed).(t_type) = true ∧
      ((t.(status) == TaskStatusPending) || (t.(status) == TaskStatusRunning) ||
       ((t.(status) == TaskStatusFailed) && isSome t.(next_retry_time))) = true) (map_to_list w.(w_db).(tasks))), w)).

(** The fields of api.TaskInfoResponse that depend on the joins; times are left as they are stored. *)
Record TaskInfoResponse := mk_TaskInfoResponse {
  r_UUID : uuid; r_OrgId : string; r_Status : string; r_Typename : string; r_ObjectType : string;
  r_ObjectUUID : option uuid; r_ObjectName : string; r_Error : string; r_CreatedAt : option time; r_EndedAt : option time;
  r_Dependencies : list uuid; r_Dependents : list uuid }.

Definition taskInfoModelToApiFields (d : db) (j : joined) : TaskInfoResponse :=
  let t := j.(j_task) in
  let '(ty, u, n) := match t.(fixed).(object_type) with
    | Some o => if o == ObjectTypeTemplate then (o, tpl_uuid <$> j.(j_template), default "" (tpl_name <$> j.(j_template)))
                else if o == ObjectTypeRepository then (o, rcf_uuid <$> j.(j_rc), default "" (rcf_name <$> j.(j_rc)))
                else ("", None, "")
    | None => ("", None, "")
    end in
  mk_TaskInfoResponse j.(j_id) t.(fixed).(org_id) t.(status) t.(fixed).(t_type) ty u n (default "" t.(error))
    t.(queued_at) t.(finished_at) (sqlQueryDependencies j.(j_id) d) (sqlQueryDependents j.(j_id) d).

Definition convertTaskInfoToResponses (d : db) (l : list joined) : list TaskInfoResponse := taskInfoModelToApiFields d <$> l.

(** ** Theorems *)

(** Why a task may be removed: it finished long ago, it was canceled long ago, or it is a snapshot of a repository
    its organization no longer has. *)
Definition removable (today : time) (w : world) (t : task) : Prop :=
  orphan_row w t = true ∨
  ((phase_of t = Some Completed ∨ phase_of t = Some Failed) ∧ ∃ x, t.(finished_at) = Some x ∧ x < today - 10 * Day) ∨
  ((phase_of t = Some Canceled ∨ phase_of t = Some Aborted) ∧ ∃ x, t.(queued_at) = Some x ∧ x < today - 20 * Day).

Lemma sql_lt_true a b : sql_lt a b = true ↔ ∃ x, a = Some x ∧ x < b.
Proof.
  destruct a as [x|]; simpl; [rewrite Z.ltb_lt|]; split; [by eauto|by intros (? & [= ->] & ?)|done|by intros (? & ? & ?)].
Qed.

Lemma phase_of_canceled t : row_ok t → t.(status) = TaskStatusCanceled → phase_of t = Some Canceled ∨ phase_of t = Some Aborted.
Proof. intros [[p Hp] _ _ _ _ _ _] Hs. apply phase_of_inv in Hp as Hi. destruct p; destruct Hi as [H _]; auto; by rewrite H in Hs. Qed.

Lemma phase_of_finished t :
  row_ok t → t.(status) = TaskStatusCompleted ∨ t.(status) = TaskStatusFailed →
  phase_of t = Some Completed ∨ phase_of t = Some Failed.
Proof.
  intros [[p Hp] _ _ _ _ _ _] Hs. apply phase_of_inv in Hp as Hi.
  destruct p; destruct Hi as [H _]; auto; rewrite H in Hs; by destruct Hs as [Hs|Hs].
Qed.

Lemma cleanup_row_removable today w id t : row_ok t → cleanup_row today w id t = true → removable today w t.
Proof.
  intros Hok. unfold cleanup_row. rewrite !orb_true_iff, !andb_true_iff, !orb_true_iff, !bool_decide_eq_true, !sql_lt_true.
  intros [[[_ [Hs (x & Hx & Hl)]]|[Hs (x & Hx & Hl)]]|[[_ Hs] (x & Hx & Hl)]]; right.
  - left. split; [by apply phase_of_finished|]. exists x. split; [done|]. unfold Day, Second in *. lia.
  - right. split; [by apply phase_of_canceled|eauto].
  - left. split; [apply phase_of_finished; auto|eauto].
Qed.

(** A deletion leaves the queue in order. *)
Lemma delete_tasks_lookup p d id :
  (delete_tasks p d).(tasks) !! id = match d.(tasks) !! id with Some t => if p id t then None else Some t | None => None end.
Proof.
  simpl. rewrite map_lookup_filter. destruct (d.(tasks) !! id) as [t|]; simpl; [|done].
  destruct (p id t); case_guard; done.
Qed.

Lemma delete_tasks_some p d id t : (delete_tasks p d).(tasks) !! id = Some t → d.(tasks) !! id = Some t.
Proof. rewrite delete_tasks_lookup. repeat case_match; naive_solver. Qed.

Lemma delete_tasks_wf p d : wf d → wf (delete_tasks p d).
Proof.
  intros [Hr Hd Hh]. constructor.
  - intros id t Ht%delete_tasks_some. by eapply Hr.
  - intros e [He _]%list_elem_of_filter. done.
  - intros tok id hb H. apply map_lookup_filter_Some in H as [H Hin]. split; [by eapply Hh|done].
Qed.

Lemma delete_tasks_covered p d : covered d → covered (delete_tasks p d).
Proof.
  intros Hc id t Ht Hs HX. pose proof (delete_tasks_some _ _ _ _ Ht) as Ht'.
  destruct (Hc id t Ht' Hs HX) as (tok & hb & Htok & Hhb). exists tok, hb. split; [done|].
  apply map_lookup_filter_Some. split; [done|]. simpl in Ht |- *. by eexists.
Qed.

(** One of the two statements: the tasks selected go, the others and the other tables stay. *)
Definition deleted_by (p : task → Prop) (w w' : world) : Prop :=
  wf w'.(w_db) ∧ covered w'.(w_db) ∧ w'.(w_repo_configs) = w.(w_repo_configs) ∧ w'.(w_templates) = w.(w_templates) ∧
  (∀ id, match w.(w_db).(tasks) !! id with
         | Some t => w'.(w_db).(tasks) !! id = Some t ∨ (w'.(w_db).(tasks) !! id = None ∧ p t)
         | None => w'.(w_db).(tasks) !! id = None
         end).

Lemma deleted_by_step (p : uuid → task → bool) (P : task → Prop) w0 w :
  deleted_by P w0 w →
  (∀ id t, w0.(w_db).(tasks) !! id = Some t → p id t = true → P t) →
  deleted_by P w0 (set_db (delete_tasks p w.(w_db)) w).
Proof.
  intros (Hwf & Hc & Hrc & Htp & Ht) Hp. split_and!; [by apply delete_tasks_wf|by apply delete_tasks_covered|done|done|].
  intros id. specialize (Ht id). cbn [w_db set_db]. rewrite delete_tasks_lookup.
  destruct (w0.(w_db).(tasks) !! id) as [t|] eqn:Hid; [|by rewrite Ht].
  destruct Ht as [->|[-> HP]]; [|by right]. destruct (p id t) eqn:Hpt; [|by left]. right. split; [done|]. by eapply Hp.
Qed.

(** The clean-up of old tasks, run beside the queue and whichever of its statements fails, leaves the queue in
    order (its invariant holds and every running task keeps its heartbeat) and removes a task only if it finished
    more than ten days ago, was canceled and queued more than twenty days ago, or is a snapshot of a repository of
    which its organization has no configuration; the tasks that stay are unchanged. In particular pending and
    running tasks stay, except such snapshots. When no statement fails, exactly the tasks its two conditions
    select are gone. *)
Theorem cleanup_keeps_queue today w :
  wf w.(w_db) → covered w.(w_db) →
  (∀ fs, deleted_by (removable today w) w (TaskInfo_Cleanup today (fs, w)).2.2) ∧
  ∃ w', TaskInfo_Cleanup today ([], w) = (inr (), ([], w')) ∧
    ∀ id, w'.(w_db).(tasks) !! id = match w.(w_db).(tasks) !! id with
      | Some t => if cleanup_row today w id t || orphan_row w t then None else Some t
      | None => None
      end.
Proof.
  intros Hwf Hc.
  assert (deleted_by (removable today w) w w) as H0.
  { split_and!; [done..|]. intros id. destruct (_ !! id); [by left|done]. }
  set (w1 := set_db (delete_tasks (cleanup_row today w) w.(w_db)) w).
  assert (deleted_by (removable today w) w w1) as H1.
  { apply deleted_by_step; [done|]. intros id t Ht. apply cleanup_row_removable. by eapply wf_rows. }
  assert (deleted_by (removable today w) w (set_db (delete_tasks (λ _, orphan_row w1) w1.(w_db)) w1)) as H2.
  { apply deleted_by_step; [done|]. intros id t Ht Ho. by left. }
  split.
  - intros fs. unfold TaskInfo_Cleanup, mbind, M_bind, db_call.
    destruct fs as [|[e|] [|[e'|] fs]]; first [exact H0|exact H1|exact H2].
  - exists (set_db (delete_tasks (λ _, orphan_row w1) w1.(w_db)) w1). split; [reflexivity|]. intros id.
    unfold w1 at 2. cbn [w_db set_db]. rewrite !delete_tasks_lookup.
    destruct (w.(w_db).(tasks) !! id) as [t|]; [|done]. destruct (cleanup_row today w id t); [done|].
    by change (orphan_row w1 t) with (orphan_row w t).
Qed.

(** A chain of three tasks of which the first was canceled: the second is canceled with it, the third waits. The
    first is the last update of a template. *)
Definition ex_cleanup_chain : list op :=
  [OpEnqueue 10 1%N (ex_task UpdateTemplateContentTask [] 0);
   OpEnqueue 11 2%N (ex_task RepositorySnapshotTask [1%N] 0);
   OpEnqueue 12 3%N (ex_task DeleteSnapshotsTask [2%N] 0);
   OpCancel 1%N].
Definition ex_cleanup_world : world :=
  mk_world (after ex_cleanup_chain empty_db) [] [mk_template 9%N "tpl" "org" (Some 1%N)].

Lemma cleanup_keeps_queue_witness :
  deleted_by (removable (21 * Day) ex_cleanup_world) ex_cleanup_world
    (TaskInfo_Cleanup (21 * Day) ([], ex_cleanup_world)).2.2.
Proof.
  assert (reachable ex_cleanup_world.(w_db)) as Hr by (apply runs_reachable; by vm_compute).
  destruct (reachable_inv _ Hr) as [Hwf Hc].
  exact (proj1 (cleanup_keeps_queue (21 * Day) ex_cleanup_world Hwf Hc) []).
Defined.

(** A concrete run of the clean-up after three weeks on a chain of tasks whose first one, the last update of a
    template, was canceled. The canceled update is removed although a template refers to it: the protection of
    templates does not cover canceled tasks. The third task could not be dequeued while its canceled
    dependency was stored; removing the dependency makes it ready. *)
Theorem cleanup_of_canceled_tasks :
  let w' := (TaskInfo_Cleanup (21 * Day) ([], ex_cleanup_world)).2.2 in
  existsb (λ tp, tp.(tpl_last_update_task_uuid) == Some 1%N) ex_cleanup_world.(w_templates) = true ∧
  w'.(w_db).(tasks) !! 1%N = None ∧
  (∃ t, ex_cleanup_world.(w_db).(tasks) !! 3%N = Some t ∧ ready ex_cleanup_world.(w_db) ex_types 3%N t = false ∧
        w'.(w_db).(tasks) !! 3%N = Some t ∧ ready w'.(w_db) ex_types 3%N t = true).
Proof.
  intros w'. split_and!; [by vm_compute..|]. eexists. split; [by vm_compute|]. split_and!; by vm_compute.
Qed.

(** Reading is scoped: whatever the filters, tasks of other organizations are never returned. *)
Theorem task_reads_scoped orgID offset limit f fs w w' fs' :
  (∀ id j, TaskInfo_Fetch orgID id (fs, w) = (inr j, (fs', w')) →
     j.(j_task).(fixed).(org_id) ∈ shared_orgs orgID ∧ w.(w_db).(tasks) !! id = Some j.(j_task)) ∧
  (∀ l n, TaskInfo_List orgID offset limit f (fs, w) = (inr (l, n), (fs', w')) →
     (length l ≤ limit)%nat ∧
     ∀ j, j ∈ l → j.(j_task).(fixed).(org_id) ∈ shared_orgs orgID ∧ w.(w_db).(tasks) !! j.(j_id) = Some j.(j_task)).
Proof.
  assert (∀ j, j ∈ joined_rows orgID w → w.(w_db).(tasks) !! j.(j_id) = Some j.(j_task)) as Hj.
  { intros j. unfold joined_rows. rewrite list_elem_of_bind. intros ([id t] & Hj & Hin%elem_of_map_to_list).
    apply list_elem_of_bind in Hj as (rc & Hj & _). apply list_elem_of_bind in Hj as (tp & Hj & _).
    by apply list_elem_of_singleton in Hj as ->. }
  split.
  - intros id j H%call_inr. destruct (merge_sort _ _) as [|j' l] eqn:E; simplify_eq.
    assert (j ∈ merge_sort joined_le (base.filter (λ j, j.(j_id) = id ∧ j.(j_task).(fixed).(org_id) ∈ shared_orgs orgID ∧
      rc_not_deleted j = true) (joined_rows orgID w'))) as Hin by (rewrite E; left).
    rewrite merge_sort_Permutation, list_elem_of_filter in Hin. destruct Hin as [(<- & Ho & _) Hin]. split; [done|by apply Hj].
  - intros l n (rows & [fs1 w1] & H1%call_inr & H)%bind_inr. simplify_eq.
    apply bind_inr in H as (page & [fs2 w2] & H2%call_inr & [[= <- <-] _]%ret_inr). simplify_eq.
    split; [rewrite length_take; lia|]. intros j Hin.
    apply list_elem_of_lookup in Hin as (i & Hi%lookup_take_Some). destruct Hi as [Hi _].
    rewrite lookup_drop in Hi. apply list_elem_of_lookup_2 in Hi as Hk.
    rewrite merge_sort_Permutation, list_elem_of_filter in Hk. destruct Hk as [Hf Hin]. split; [|by apply Hj].
    unfold list_filter in Hf. rewrite !andb_true_iff in Hf. destruct Hf as [[[[Ho _] _] _] _].
    apply contains_true in Ho. destruct (f_ExcludeRedHatOrg f); [|done].
    apply list_elem_of_singleton in Ho as ->. right; left.
Qed.
