(* ===== verification/GoText.v ===== *)
(** * Text processing of the Go standard library

    [strings.Cut], [strings.CutPrefix], [strings.IndexAny], [strings.LastIndex], [strings.TrimLeft], [strings.ToLower],
    [bufio.ScanLines] and the reader of [encoding/csv] with lazy quotes and records of any width, as far as the manifest
    parser uses them. The functions work on the bytes of a string. *)

From S2P Require Import Prelude GoStrings GoSplit.
From stdpp Require Import options.

Open Scope string_scope.

Abbreviation text := (list ascii).

(** ** Searching *)

(** The bytes before and after the first occurrence of [sep]. *)
Fixpoint cut (sep l : text) : option (text * text) :=
  if has_prefix sep l then Some ([], drop (length sep) l)
  else match l with
       | [] => None
       | a :: l' => match cut sep l' with Some (x, y) => Some (a :: x, y) | None => None end
       end.

Definition strings_Cut (s sep : string) : option (string * string) :=
  match cut (chars sep) (chars s) with
  | Some (x, y) => Some (of_chars x, of_chars y)
  | None => None
  end.

Definition strings_Contains (s sub : string) : bool := match strings_Cut s sub with Some _ => true | None => false end.

Definition strings_CutPrefix (s prefix : string) : option string :=
  if has_prefix (chars prefix) (chars s) then Some (of_chars (drop (length (chars prefix)) (chars s))) else None.

(** The string up to the first byte in the set [f], and the rest with that byte: [s[:idx]] and [s[idx:]] for
    [idx = IndexAny(s, f)], or the whole string and nothing. *)
Fixpoint break (f : ascii → bool) (l : text) : text * text :=
  match l with
  | [] => ([], [])
  | a :: l' => if f a then ([], l) else let '(x, y) := break f l' in (a :: x, y)
  end.

(** [s[:idx]] and [s[idx+1:]] for the last index of the byte [c]. *)
Definition cut_last (c : ascii) (l : text) : option (text * text) :=
  match break (λ a, a == c) (reverse l) with
  | (_, []) => None
  | (x, _ :: y) => Some (reverse y, reverse x)
  end.
Definition strings_CutLast (s : string) (c : ascii) : option (string * string) :=
  match cut_last c (chars s) with
  | Some (x, y) => Some (of_chars x, of_chars y)
  | None => None
  end.

(** Membership in a set of bytes given by a string. *)
Definition any_of (cutset : string) (a : ascii) : bool := contains (chars cutset) a.

(** ** Case *)

Definition isASCII (s : string) : bool := forallb (byte_in 0 127) (chars s).

Definition lower_byte (a : ascii) : ascii :=
  if byte_in 65 90 a then ascii_of_N (N_of_ascii a + 32) else a.

Section Lower.
(** [strings.Map(unicode.ToLower, s)], which is used for the strings with a byte outside of ASCII: the tables of the
    package unicode. *)
Context (map_ToLower : string → string).

Definition strings_ToLower (s : string) : string :=
  if isASCII s then of_chars (lower_byte <$> chars s) else map_ToLower s.
End Lower.

(** ** bufio.Scanner with ScanLines *)

Definition nl : ascii := "010"%char.
Definition cr : ascii := "013"%char.

Definition dropCR (line : string) : string := TrimSuffix line (String cr "").

(** A scanner holds at most [MaxScanTokenSize] bytes of a line and its end. *)
Definition MaxScanTokenSize : Z := 65536.

Definition raw_lines (data : string) : list string :=
  let ls := strings_Split nl data in
  if list.last ls == Some "" then removelast ls else ls.

Definition line_too_long (line : string) : bool :=
  (MaxScanTokenSize <=? Z.of_nat (String.length line))%Z.

(** The lines, or the error of a line that is too long. *)
Definition scan_lines (data : string) : string + list string :=
  if existsb line_too_long (raw_lines data) then inl "bufio.Scanner: token too long"
  else inr (dropCR <$> raw_lines data).

(** ** encoding/csv *)

(** [readLine]: a carriage return before a newline, or at the end of the input, is dropped. *)
Fixpoint csv_lines (l : text) : text :=
  match l with
  | [] => []
  | a :: l' =>
      if a == cr then
        match l' with
        | [] => []
        | c :: _ => if c == nl then csv_lines l' else a :: csv_lines l'
        end
      else a :: csv_lines l'
  end.

Definition quote : ascii := ascii_of_N 34.
Definition comma_byte : ascii := ","%char.

(** Where [readRecord] is: before a record, at the start of a field, in a field without quotes, in a quoted field. *)
Inductive csv_state := RecordStart | FieldStart | InField | InQuotes.

(** [fields] are the fields of the record read so far and [acc] the bytes of the current one. In a quoted field a quote
    is doubled, or ends the field if a comma, a newline or the end of the input follows, and is otherwise literal
    ([LazyQuotes]). *)
Fixpoint csv_records (st : csv_state) (fields : list text) (acc : text) (l : text) : list (list text) :=
  match l with
  | [] =>
      match st with
      | RecordStart => []
      | _ => [fields ++ [acc]]%list
      end
  | a :: l' =>
      match st with
      | InQuotes =>
          if a == quote then
            match l' with
            | [] => [fields ++ [acc]]%list
            | c :: l'' =>
                if c == quote then csv_records InQuotes fields (acc ++ [quote])%list l''
                else if c == comma_byte then csv_records FieldStart (fields ++ [acc])%list [] l''
                else if c == nl then (fields ++ [acc])%list :: csv_records RecordStart [] [] l''
                else csv_records InQuotes fields (acc ++ [quote])%list l'
            end
          else csv_records InQuotes fields (acc ++ [a])%list l'
      | _ =>
          if (a == nl) && (match st with RecordStart => true | _ => false end) then csv_records RecordStart [] [] l'
          else if (a == quote) && (match st with InField => false | _ => true end) then csv_records InQuotes fields [] l'
          else if a == comma_byte then csv_records FieldStart (fields ++ [acc])%list [] l'
          else if a == nl then (fields ++ [acc])%list :: csv_records RecordStart [] [] l'
          else csv_records InField fields (acc ++ [a])%list l'
      end
  end.

(** All records, as [Read] returns them one by one; with lazy quotes and records of any width nothing is an error. *)
Definition csv_ReadAll (data : string) : list (list string) :=
  map (map of_chars) (csv_records RecordStart [] [] (csv_lines (chars data))).

(** Text with a quote written as a backtick. *)
Definition quoted (s : string) : string := replace_char "`"%char quote s.

Example csv_quotes :
  csv_ReadAll (quoted (of_chars (chars "a,`b,``c`,d" ++ [cr; nl; nl] ++ chars "e`f,`x`y`,")%list)) =
  [["a"; quoted "b,`c"; "d"]; [quoted "e`f"; quoted "x`y"; ""]].
Proof. by vm_compute. Qed.

(** ** Lemmas on searching *)

Lemma chars_inj s t : chars s = chars t → s = t.
Proof. intros H. by rewrite <-(of_chars_chars s), H, of_chars_chars. Qed.

Lemma has_prefix_self p l : has_prefix p (p ++ l)%list = true.
Proof. induction p as [|a p IH]; simpl; [done|]. by rewrite bool_decide_true, IH. Qed.

Lemma cut_char c x y : c ∉ x → cut [c] (x ++ c :: y)%list = Some (x, y).
Proof.
  induction x as [|a x IH]; simpl; [by rewrite bool_decide_true|].
  rewrite not_elem_of_cons. intros [Ha Hx]. rewrite bool_decide_false by done. simpl. by rewrite IH.
Qed.

Lemma cut_char_none c x : c ∉ x → cut [c] x = None.
Proof.
  induction x as [|a x IH]; simpl; [done|]. rewrite not_elem_of_cons. intros [Ha Hx].
  rewrite bool_decide_false by done. simpl. by rewrite IH.
Qed.

(** A separator of several bytes does not occur if its first byte does not. *)
Lemma cut_none c sep x : c ∉ x → cut (c :: sep) x = None.
Proof.
  induction x as [|a x IH]; simpl; [done|]. rewrite not_elem_of_cons. intros [Ha Hx].
  rewrite bool_decide_false by done. simpl. by rewrite IH.
Qed.

Lemma break_app f x a y : Forall (λ c, f c = false) x → f a = true → break f (x ++ a :: y)%list = (x, a :: y).
Proof.
  intros Hx Ha. induction Hx as [|c x Hc Hx IH]; simpl; [by rewrite Ha|]. by rewrite Hc, IH.
Qed.

Lemma break_all f x : Forall (λ c, f c = false) x → break f x = (x, []).
Proof. induction 1 as [|c x Hc Hx IH]; simpl; [done|]. by rewrite Hc, IH. Qed.

Lemma cut_last_app c x y : c ∉ y → cut_last c (x ++ c :: y)%list = Some (x, y).
Proof.
  intros Hy. unfold cut_last. rewrite reverse_app, reverse_cons, <-app_assoc. simpl.
  rewrite break_app.
  - by rewrite !reverse_involutive.
  - apply Forall_reverse, Forall_forall. intros a Ha. rewrite bool_decide_false; [done|]. congruence.
  - by rewrite bool_decide_true.
Qed.

Lemma cut_last_none c x : c ∉ x → cut_last c x = None.
Proof.
  intros Hx. unfold cut_last. rewrite break_all; [done|].
  apply Forall_reverse, Forall_forall. intros a Ha. rewrite bool_decide_false; [done|]. congruence.
Qed.

Lemma any_of_false cutset (x : text) :
  Forall (λ c, any_of cutset c = false) x ↔ ∀ c, c ∈ chars cutset → c ∉ x.
Proof.
  rewrite Forall_forall. unfold any_of. split.
  - intros H c Hc Hx. specialize (H c Hx). by apply contains_false in H.
  - intros H c Hc. apply contains_false. intros Hin. by apply (H c).
Qed.

Lemma strings_CutPrefix_app p s : strings_CutPrefix (p +:+ s) p = Some s.
Proof.
  unfold strings_CutPrefix. rewrite chars_app, has_prefix_self. f_equal.
  rewrite drop_app_length. apply of_chars_chars.
Qed.

Lemma strings_Cut_char c x y : c ∉ chars x → strings_Cut (x +:+ String c "" +:+ y) (String c "") = Some (x, y).
Proof.
  intros Hx. unfold strings_Cut. rewrite !chars_app. simpl. rewrite cut_char by done. by rewrite !of_chars_chars.
Qed.

Lemma strings_Cut_none c sep x : c ∉ chars x → strings_Cut x (String c sep) = None.
Proof. intros Hx. unfold strings_Cut. simpl. by rewrite cut_none. Qed.

Lemma strings_CutLast_app c x y : c ∉ chars y → strings_CutLast (x +:+ String c "" +:+ y) c = Some (x, y).
Proof.
  intros Hy. unfold strings_CutLast. rewrite !chars_app. simpl. rewrite cut_last_app by done. by rewrite !of_chars_chars.
Qed.

Lemma strings_CutLast_none c x : c ∉ chars x → strings_CutLast x c = None.
Proof. intros Hx. unfold strings_CutLast. by rewrite cut_last_none. Qed.

(** ** Writing CSV *)

(** A field in quotes, a record, a file. *)
Definition csv_escape (f : text) : text := f ≫= λ a, if a == quote then [quote; quote] else [a].
Definition csv_field (f : text) : text := (quote :: csv_escape f ++ [quote])%list.
Fixpoint csv_record (record : list text) : text :=
  match record with
  | [] => [nl]
  | [f] => (csv_field f ++ [nl])%list
  | f :: record' => (csv_field f ++ comma_byte :: csv_record record')%list
  end.
Definition csv_file (records : list (list text)) : text := records ≫= csv_record.
Definition csv_print (records : list (list string)) : string := of_chars (csv_file (map (map chars) records)).

Lemma csv_escape_read f rest fields acc :
  csv_records InQuotes fields acc (csv_escape f ++ rest) = csv_records InQuotes fields (acc ++ f) rest.
Proof.
  revert acc. induction f as [|a f IH]; intros acc; [by rewrite app_nil_r|].
  unfold csv_escape. cbn [mbind list_bind]. case_bool_decide as Ha.
  - subst a. rewrite <-app_assoc. cbn [app csv_records]. rewrite !bool_decide_true by done.
    fold (csv_escape f). rewrite IH, <-app_assoc. done.
  - rewrite <-app_assoc. cbn [app csv_records]. rewrite (bool_decide_false (a = quote)) by done.
    fold (csv_escape f). rewrite IH, <-app_assoc. done.
Qed.

Lemma csv_field_read st f rest fields :
  st ≠ InField → st ≠ InQuotes →
  csv_records st fields [] (csv_field f ++ rest) = csv_records InQuotes fields f (quote :: rest).
Proof.
  intros H1 H2. unfold csv_field. rewrite <-app_comm_cons. cbn [csv_records].
  destruct st; try done; rewrite (bool_decide_false (quote = nl)) by done; simpl;
    by rewrite <-app_assoc, csv_escape_read.
Qed.

(** [rest] is read as from the start of a record, after the one in front of it. *)
Lemma csv_record_read st record rest fields :
  record ≠ [] → st ≠ InField → st ≠ InQuotes →
  csv_records st fields [] (csv_record record ++ rest) =
  (fields ++ record)%list :: csv_records RecordStart [] [] rest.
Proof.
  revert st fields. induction record as [|f [|g record] IH]; intros st fields Hne H1 H2; [done| |].
  - cbn [csv_record]. rewrite <-app_assoc, csv_field_read by done. done.
  - change (csv_record (f :: g :: record)) with (csv_field f ++ comma_byte :: csv_record (g :: record))%list.
    rewrite <-app_assoc, csv_field_read by done. rewrite <-app_comm_cons.
    change (csv_records InQuotes fields f (quote :: comma_byte :: (csv_record (g :: record) ++ rest)))
      with (csv_records FieldStart (fields ++ [f])%list [] (csv_record (g :: record) ++ rest)).
    rewrite IH by done. by rewrite <-app_assoc.
Qed.

Lemma csv_file_read records :
  Forall (λ r, r ≠ []) records → csv_records RecordStart [] [] (csv_file records) = records.
Proof.
  induction 1 as [|r records Hr Hrs IH]; [done|]. unfold csv_file. cbn [mbind list_bind].
  rewrite csv_record_read by done. simpl. f_equal. apply IH.
Qed.

Lemma csv_lines_id l : cr ∉ l → csv_lines l = l.
Proof.
  induction l as [|a l IH]; [done|]. rewrite not_elem_of_cons. intros [Ha Hl]. simpl.
  rewrite bool_decide_false by congruence. by rewrite IH.
Qed.

Lemma csv_field_no_cr f : cr ∉ f → cr ∉ csv_field f.
Proof.
  intros Hf. unfold csv_field. rewrite not_elem_of_cons, not_elem_of_app, list_elem_of_singleton.
  split; [done|]. split; [|done]. unfold csv_escape. intros (a & Ha & Hin)%list_elem_of_bind.
  case_bool_decide; set_solver.
Qed.

Lemma csv_record_no_cr r : Forall (λ f, cr ∉ f) r → cr ∉ csv_record r.
Proof.
  induction 1 as [|f r Hf Hr IH]; [set_solver|]. apply csv_field_no_cr in Hf.
  destruct r as [|g r]; cbn [csv_record] in *; rewrite not_elem_of_app.
  - split; [done|set_solver].
  - rewrite not_elem_of_cons. done.
Qed.

(** What is written with every field in quotes is read back. *)
Lemma csv_roundtrip records :
  Forall (λ r, r ≠ [] ∧ Forall (λ f, cr ∉ chars f) r) records → csv_ReadAll (csv_print records) = records.
Proof.
  intros H. unfold csv_ReadAll, csv_print. rewrite chars_of_chars, csv_lines_id.
  - rewrite csv_file_read.
    + rewrite map_map, (map_ext _ id), map_id; [done|]. intros r. rewrite map_map, (map_ext _ id), map_id; [done|].
      intros f. apply of_chars_chars.
    + apply Forall_fmap. eapply Forall_impl; [exact H|]. intros [|f r] [? _]; [done|]. by simpl.
  - unfold csv_file. intros (r & Hr & Hin)%list_elem_of_bind. apply list_elem_of_fmap in Hin as (fs & -> & Hin).
    rewrite Forall_forall in H. destruct (H fs Hin) as [_ Hfs]. revert Hr. apply csv_record_no_cr. by apply Forall_fmap.
Qed.
