(* ===== verification/Coverage.v ===== *)
(** * coverage: manifests of packages and their match against a catalog

    [coverage/parser] reads a manifest (a CSV file with a column of package URLs, or a requirements.txt) into packages;
    [coverage/matcher] compares them with a catalog. Both packages declare the same struct [Package]. *)

From S2P Require Import Prelude GoStrings GoSplit GoText Utils.
From stdpp Require Import options.

Open Scope string_scope.

Definition EcosystemJava := "Java".
Definition EcosystemPython := "Python".
Definition FormatCSV := "csv".
Definition FormatRequirements := "requirements.txt".
Definition MatchStatusExact := "exact".
Definition MatchStatusPartial := "partial".
Definition MatchStatusNone := "none".

Record Package := mk_Package { Ecosystem : string; Name : string; Version : string; Namespace : string }.
Record ParseResult := mk_ParseResult { Packages : list Package; InputFormat : string }.

#[global] Instance Package_eq_dec : EqDecision Package.
Proof. solve_decision. Defined.

(** ** purl.go *)

Definition parsePURL (raw : string) : option Package :=
  rest ← strings_CutPrefix raw "pkg:";
  '(typePart, remainder) ← strings_Cut rest "/";
  if remainder == "" then None
  else
    ecosystem ← (if typePart == "maven" then Some EcosystemJava
                 else if typePart == "pypi" then Some EcosystemPython
                 else None);
    let remainder := of_chars (break (any_of "?#") (chars remainder)).1 in
    let '(nameBlock, version) := default (remainder, "") (strings_CutLast remainder "@"%char) in
    let '(namespace, name) := default ("", nameBlock) (strings_CutLast nameBlock "/"%char) in
    if name == "" then None else Some (mk_Package ecosystem name version namespace).

(** ** requirements.go *)

(** The text before [sep], if there is one, trimmed. *)
Definition strip_after (sep line : string) : string :=
  match strings_Cut line sep with Some (before, _) => TrimSpace before | None => line end.

(** [name[extra1,extra2]]: everything from the bracket to its end, or to the end of the line. *)
Definition strip_extras (line : string) : string :=
  match strings_Cut line "[" with
  | Some (before, after) => before +:+ match strings_Cut after "]" with Some (_, rest) => rest | None => "" end
  | None => line
  end.

Definition version_ops := "=~!><".

(** A complete line; [None] when it is skipped. *)
Definition requirement (line : string) : option Package :=
  let line := match strings_Cut line "#" with Some (before, _) => before | None => line end in
  let line := TrimSpace line in
  if (line == "") || has_prefix (chars "-") (chars line) then None
  else
    let line := strip_after " --" line in
    let line := strip_after ";" line in
    let line := strip_after " @ " line in
    let line := strip_extras line in
    let '(pkgName, op) := break (any_of version_ops) (chars line) in
    let rest := of_chars (drop_while (any_of version_ops) op) in
    let version :=
      if has_prefix (chars "==") op
      then match strings_Cut (TrimSpace rest) "," with Some (v, _) => v | None => TrimSpace rest end
      else "" in
    let pkgName := TrimSpace (of_chars pkgName) in
    if pkgName == "" then None else Some (mk_Package EcosystemPython pkgName version "").

(** The loop over the lines; [continuation] holds the lines that ended in a backslash. *)
Fixpoint requirement_lines (continuation : string) (packages : list Package) (lines : list string) :
    string + list Package :=
  match lines with
  | [] => if continuation == "" then inr packages else inl "unexpected end of file during line continuation"
  | line :: lines' =>
      if HasSuffix line "\" then
        requirement_lines (continuation +:+ TrimSuffix line "\") packages lines'
      else
        requirement_lines "" (packages ++ option_list (requirement (continuation +:+ line)))%list lines'
  end.

Definition parseRequirements (data : string) : string + list Package :=
  match scan_lines data with
  | inl e => inl e
  | inr lines => requirement_lines "" [] lines
  end.

Section Tables.
(** The case tables of the package unicode, for strings that are not ASCII. *)
Context (map_ToLower : string → string).
Abbreviation ToLower := (strings_ToLower map_ToLower).

(** ** csv.go *)

Definition packageurl_column (record : list string) : option nat :=
  fst <$> list_find (λ field, TrimSpace (ToLower field) = "packageurl") record.

(** The loop over the records; [purlCol] is the column once the header was seen. *)
Fixpoint csv_packages (purlCol : option nat) (packages : list Package) (records : list (list string)) :
    string + list Package :=
  match records with
  | [] => if purlCol is Some _ then inr packages else inl "CSV missing required 'packageurl' header column"
  | record :: records' =>
      match purlCol with
      | None => csv_packages (packageurl_column record) packages records'
      | Some i =>
          match record !! i with
          | None => csv_packages purlCol packages records'
          | Some field =>
              let purl := TrimSpace field in
              if purl == "" then csv_packages purlCol packages records'
              else csv_packages purlCol (packages ++ option_list (parsePURL purl))%list records'
          end
      end
  end.

Definition parseCSV (data : string) : string + list Package := csv_packages None [] (csv_ReadAll data).

(** ** parser.go *)

Definition detectFormat (filename : string) : string + string :=
  let lower := ToLower filename in
  if HasSuffix lower ".csv" then inr FormatCSV
  else if HasSuffix lower "requirements.txt" then inr FormatRequirements
  else inl ("unsupported manifest format for file " +:+ filename).

Definition dedup_key (p : Package) : string :=
  p.(Ecosystem) +:+ "|" +:+ p.(Namespace) +:+ "|" +:+ p.(Name) +:+ "|" +:+ p.(Version).

Fixpoint deduplicate_go (seen : gset string) (pkgs : list Package) : list Package :=
  match pkgs with
  | [] => []
  | p :: pkgs' =>
      let key := dedup_key p in
      if decide (key ∈ seen) then deduplicate_go seen pkgs' else p :: deduplicate_go ({[ key ]} ∪ seen) pkgs'
  end.
Definition deduplicate (pkgs : list Package) : list Package := deduplicate_go ∅ pkgs.

(** [data] is what the reader returns. *)
Definition Parse (filename : string) (data : string + string) : string + ParseResult :=
  match data with
  | inl e => inl ("reading manifest: " +:+ e)
  | inr data =>
      match detectFormat filename with
      | inl e => inl e
      | inr format =>
          let packages := if format == FormatCSV then parseCSV data
                          else if format == FormatRequirements then parseRequirements data
                          else inr [] in
          match packages with
          | inl e => inl e
          | inr packages => inr (mk_ParseResult (deduplicate packages) format)
          end
      end
  end.

(** ** matcher.go *)

Definition separator (ch : ascii) : bool := any_of "-_." ch.

(** The loop over the runes of the lower-case name; the separators are single bytes of UTF-8. *)
Fixpoint normalize_go (separatorWritten : bool) (name : text) : text :=
  match name with
  | [] => []
  | ch :: name' =>
      if separator ch then
        if separatorWritten then normalize_go true name' else "-"%char :: normalize_go true name'
      else ch :: normalize_go false name'
  end.

Definition normalizePythonName (name : string) : string := of_chars (normalize_go false (chars (ToLower name))).

Definition normalizeKey (pkg : Package) : string :=
  if pkg.(Ecosystem) == EcosystemPython then normalizePythonName pkg.(Name)
  else if pkg.(Ecosystem) == EcosystemJava then ToLower pkg.(Namespace) +:+ ":" +:+ ToLower pkg.(Name)
  else ToLower pkg.(Ecosystem) +:+ ":" +:+ ToLower pkg.(Name).

(** The sets of keys, and of keys with versions. *)
Fixpoint buildIndex (catalog : list Package) : gset string * gset string :=
  match catalog with
  | [] => (∅, ∅)
  | pkg :: catalog' =>
      let '(names, nameVersions) := buildIndex catalog' in
      let key := normalizeKey pkg in
      ({[ key ]} ∪ names,
       if pkg.(Version) != "" then {[ key +:+ ":" +:+ pkg.(Version) ]} ∪ nameVersions else nameVersions)
  end.

Definition matchPackage (pkg : Package) (catalogedNames catalogedNameVersions : gset string) : string :=
  let nameKey := normalizeKey pkg in
  if (pkg.(Version) != "") && bool_decide (nameKey +:+ ":" +:+ pkg.(Version) ∈ catalogedNameVersions)
  then MatchStatusExact
  else if bool_decide (nameKey ∈ catalogedNames) then MatchStatusPartial
  else MatchStatusNone.

Record MatchResult := mk_MatchResult { r_Package : Package; MatchStatus : string }.
Record EcosystemSummary := mk_EcosystemSummary {
  e_Ecosystem : string; e_Total : Z; e_Exact : Z; e_Partial : Z; e_Unmatched : Z }.
Record MatchSummary := mk_MatchSummary {
  Total : Z; ExactMatches : Z; PartialMatches : Z; Unmatched : Z;
  EcosystemCoverageSummary : list EcosystemSummary; CatalogSnapshotAt : time }.

Definition empty_summary (ecosystem : string) : EcosystemSummary := mk_EcosystemSummary ecosystem 0 0 0 0.

(** One more package with [status]. *)
Definition count_status (status : string) (e : EcosystemSummary) : EcosystemSummary :=
  let '(mk_EcosystemSummary eco t x p u) := e in
  if status == MatchStatusExact then mk_EcosystemSummary eco (t + 1) (x + 1) p u
  else if status == MatchStatusPartial then mk_EcosystemSummary eco (t + 1) x (p + 1) u
  else if status == MatchStatusNone then mk_EcosystemSummary eco (t + 1) x p (u + 1)
  else mk_EcosystemSummary eco (t + 1) x p u.

Fixpoint match_loop (names nameVersions : gset string) (summaries : gmap string EcosystemSummary)
    (pkgs : list Package) : list MatchResult * gmap string EcosystemSummary :=
  match pkgs with
  | [] => ([], summaries)
  | pkg :: pkgs' =>
      let status := matchPackage pkg names nameVersions in
      let entry := default (empty_summary pkg.(Ecosystem)) (summaries !! pkg.(Ecosystem)) in
      let '(results, summaries') :=
        match_loop names nameVersions (<[pkg.(Ecosystem) := count_status status entry]> summaries) pkgs' in
      (mk_MatchResult pkg status :: results, summaries')
  end.

Definition add_entry (s : MatchSummary) (e : EcosystemSummary) : MatchSummary :=
  mk_MatchSummary (s.(Total) + e.(e_Total)) (s.(ExactMatches) + e.(e_Exact)) (s.(PartialMatches) + e.(e_Partial))
    (s.(Unmatched) + e.(e_Unmatched)) (s.(EcosystemCoverageSummary) ++ [e])%list s.(CatalogSnapshotAt).

(** [range] is the order in which Go iterates over the map, which it does not specify. *)
Definition MatchCatalog (range : gmap string EcosystemSummary → list EcosystemSummary)
    (catalog parsedPackages : list Package) (snapshotAt : time) : list MatchResult * MatchSummary :=
  let '(names, nameVersions) := buildIndex catalog in
  let '(results, summaries) := match_loop names nameVersions ∅ parsedPackages in
  (results, foldl add_entry (mk_MatchSummary 0 0 0 0 [] snapshotAt) (range summaries)).
End Tables.

(** ** Manifests written and read back *)

(** The package URL of a package. *)
Definition purl_type (p : Package) : string := if p.(Ecosystem) == EcosystemJava then "maven" else "pypi".
Definition purl_name (p : Package) : string :=
  if p.(Namespace) == "" then p.(Name) else p.(Namespace) +:+ "/" +:+ p.(Name).
Definition purl_path (p : Package) : string :=
  if p.(Version) == "" then purl_name p else purl_name p +:+ "@" +:+ p.(Version).
Definition purl_of (p : Package) : string := "pkg:" +:+ purl_type p +:+ "/" +:+ purl_path p.

(** None of the bytes of [cs] occurs in [s]. *)
Definition free_of (cs s : string) : Prop := ∀ c, c ∈ chars cs → c ∉ chars s.
#[global] Instance free_of_dec cs s : Decision (free_of cs s).
Proof.
  refine (cast_if (decide (Forall (λ c, c ∉ chars s) (chars cs))));
    unfold free_of; by rewrite <-Forall_forall.
Defined.

Definition purl_ok (p : Package) : Prop :=
  (p.(Ecosystem) = EcosystemJava ∨ p.(Ecosystem) = EcosystemPython) ∧ p.(Name) ≠ "" ∧
  free_of "/?#@" p.(Name) ∧ free_of "?#@" p.(Namespace) ∧ free_of "?#@" p.(Version).

Lemma free_of_app cs s t : free_of cs (s +:+ t) ↔ free_of cs s ∧ free_of cs t.
Proof. unfold free_of. setoid_rewrite chars_app. set_solver. Qed.

Lemma free_of_sub cs cs' s : (∀ c, c ∈ chars cs → c ∈ chars cs') → free_of cs' s → free_of cs s.
Proof. unfold free_of. set_solver. Qed.

Lemma free_of_1 c s : free_of (String c "") s ↔ c ∉ chars s.
Proof. unfold free_of. simpl. set_solver. Qed.

Lemma purl_path_cut p : purl_ok p →
  free_of "?#" (purl_path p) ∧
  default (purl_path p, "") (strings_CutLast (purl_path p) "@"%char) = (purl_name p, p.(Version)) ∧
  default ("", purl_name p) (strings_CutLast (purl_name p) "/"%char) = (p.(Namespace), p.(Name)) ∧
  purl_path p ≠ "".
Proof.
  intros (_ & Hne & Hn & Hns & Hv).
  assert (free_of "?#@" (purl_name p)) as Hpn.
  { unfold purl_name. case_bool_decide; [by eapply free_of_sub; [|exact Hn]; set_solver|].
    rewrite !free_of_app. split; [done|]. split; [by_decide|].
    by eapply free_of_sub; [|exact Hn]; set_solver. }
  assert (purl_name p ≠ "") as Hpne.
  { unfold purl_name. case_bool_decide; [done|]. by destruct (Namespace p). }
  assert ("@"%char ∉ chars (purl_name p)) as Hat by (apply Hpn; set_solver).
  split_and!.
  - unfold purl_path. case_bool_decide; [by eapply free_of_sub; [|exact Hpn]; set_solver|].
    rewrite !free_of_app. split; [by eapply free_of_sub; [|exact Hpn]; set_solver|].
    split; [by_decide|]. by eapply free_of_sub; [|exact Hv]; set_solver.
  - unfold purl_path. case_bool_decide as Hver; [by rewrite strings_CutLast_none, Hver|].
    rewrite (strings_CutLast_app "@"%char); [done|]. apply Hv. set_solver.
  - unfold purl_name. assert ("/"%char ∉ chars (Name p)) by (apply Hn; set_solver).
    case_bool_decide as Hnamespace; [by rewrite strings_CutLast_none, Hnamespace|].
    by rewrite (strings_CutLast_app "/"%char).
  - unfold purl_path. case_bool_decide; [done|]. by destruct (purl_name p).
Qed.

(** A package URL is read back, whatever qualifiers or subpath follow it. *)
Lemma purl_roundtrip p suffix :
  purl_ok p → (suffix = "" ∨ ∃ c s, suffix = String c s ∧ any_of "?#" c = true) →
  parsePURL (purl_of p +:+ suffix) = Some p.
Proof.
  intros Hp Hs. destruct (purl_path_cut p Hp) as (Hfree & Hat & Hslash & Hne). destruct Hp as (Heco & Hname & _).
  unfold parsePURL, purl_of. rewrite <-!str_app_assoc, strings_CutPrefix_app. simpl.
  rewrite (strings_Cut_char "/"%char).
  2: { unfold purl_type. case_bool_decide; by_decide. }
  simpl. rewrite bool_decide_false by (by destruct (purl_path p)).
  assert ((break (any_of "?#") (chars (purl_path p +:+ suffix))).1 = chars (purl_path p)) as ->.
  { rewrite chars_app. apply any_of_false in Hfree.
    destruct Hs as [->|(c & s & -> & Hc)]; simpl; [by rewrite app_nil_r, break_all|by rewrite break_app]. }
  rewrite of_chars_chars, Hat, Hslash. rewrite bool_decide_false by done.
  unfold purl_type. destruct p as [eco name ver ns], Heco as [Heco|Heco]; simpl in *; by subst.
Qed.

(** Printable ASCII without spaces: nothing [TrimSpace] removes. *)
Definition printable (s : string) : Prop := Forall (λ a, byte_in 33 126 a = true) (chars s).

Lemma no_printable_space sps l :
  Forall (λ sp, (match head sp with Some a => byte_in 33 126 a | None => true end) = false) sps →
  match head l with Some a => byte_in 33 126 a = true | None => True end → no_space_first sps l.
Proof.
  unfold no_space_first. intros Hsps Hl. induction Hsps as [|sp sps Hsp Hsps IH]; simpl; [done|].
  destruct sp as [|a sp]; [done|]. destruct l as [|c l]; simpl in *; [apply IH|].
  case_bool_decide; [|apply IH]. congruence.
Qed.

Lemma printable_trimmed s : printable s → trimmed s.
Proof.
  unfold printable. intros Hs. split; apply no_printable_space.
  - by_decide.
  - destruct Hs; done.
  - by_decide.
  - apply Forall_reverse in Hs. destruct Hs; done.
Qed.

(** A requirement pinned to a version, as [pip freeze] writes it. *)
Definition requirement_of (p : Package) : string :=
  if p.(Version) == "" then p.(Name) else p.(Name) +:+ "==" +:+ p.(Version).

Definition requirement_specials := "#;[\=~!><,".

Definition requirement_ok (p : Package) : Prop :=
  p.(Ecosystem) = EcosystemPython ∧ p.(Namespace) = "" ∧ p.(Name) ≠ "" ∧
  has_prefix (chars "-") (chars p.(Name)) = false ∧
  printable p.(Name) ∧ printable p.(Version) ∧
  free_of requirement_specials p.(Name) ∧ free_of requirement_specials p.(Version).

Lemma printable_app s t : printable (s +:+ t) ↔ printable s ∧ printable t.
Proof. unfold printable. rewrite chars_app. apply Forall_app. Qed.

Lemma printable_no s c : printable s → byte_in 33 126 c = false → c ∉ chars s.
Proof. unfold printable. rewrite Forall_forall. intros H Hc Hin. specialize (H c Hin). congruence. Qed.

Lemma requirement_of_ok p : requirement_ok p →
  printable (requirement_of p) ∧ free_of "#;[\," (requirement_of p) ∧ requirement_of p ≠ "" ∧
  has_prefix (chars "-") (chars (requirement_of p)) = false.
Proof.
  intros (_ & _ & Hne & Hdash & Hn & Hv & Hfn & Hfv). unfold requirement_of. split_and!.
  - case_bool_decide; [done|]. rewrite !printable_app. split; [done|]. split; [by_decide|done].
  - case_bool_decide; rewrite ?free_of_app; split_and?; try by_decide;
      (eapply free_of_sub; [|eassumption]; set_solver).
  - case_bool_decide; [done|]. by destruct (Name p).
  - case_bool_decide; [done|]. by destruct (Name p).
Qed.

Lemma strip_after_none c sep line : c ∉ chars line → strip_after (String c sep) line = line.
Proof. intros H. unfold strip_after. by rewrite strings_Cut_none. Qed.

(** The name ends at the first operator; [==] pins the version. *)
Lemma requirement_version p : requirement_ok p →
  break (any_of version_ops) (chars (requirement_of p)) =
  (chars p.(Name), if p.(Version) == "" then [] else (chars "==" ++ chars p.(Version))%list).
Proof.
  intros (_ & _ & _ & _ & _ & _ & Hfn & _). unfold requirement_of.
  assert (Forall (λ c, any_of version_ops c = false) (chars (Name p))) as Hops.
  { apply any_of_false. eapply free_of_sub; [|exact Hfn]; set_solver. }
  case_bool_decide as Hver; [by rewrite break_all|]. rewrite !chars_app. simpl. by rewrite break_app.
Qed.

Lemma drop_ops (l : text) : Forall (λ c, any_of version_ops c = false) l → drop_while (any_of version_ops) ("=" :: "=" :: l)%char = l.
Proof. by intros [|c l' Hc _]; simpl; [|rewrite Hc]. Qed.

Lemma requirement_roundtrip p : requirement_ok p → requirement (requirement_of p) = Some p.
Proof.
  intros Hp. destruct (requirement_of_ok p Hp) as (Hpr & Hfree & Hne & Hdash).
  pose proof (requirement_version p Hp) as Hbreak. destruct Hp as (Heco & Hns & Hname & _ & Hpn & Hpv & _ & Hfv).
  unfold requirement. rewrite (strings_Cut_none "#"%char) by (apply Hfree; set_solver).
  rewrite TrimSpace_id by by apply printable_trimmed. rewrite bool_decide_false by done. rewrite Hdash. simpl.
  rewrite (strip_after_none " "%char "--") by (apply (printable_no _ _ Hpr); by vm_compute).
  rewrite (strip_after_none ";"%char "") by (apply Hfree; set_solver).
  rewrite (strip_after_none " "%char "@ ") by (apply (printable_no _ _ Hpr); by vm_compute).
  unfold strip_extras. rewrite strings_Cut_none by (apply Hfree; set_solver). rewrite Hbreak.
  rewrite of_chars_chars, (TrimSpace_id (Name p)) by by apply printable_trimmed. rewrite bool_decide_false by done.
  destruct p as [eco name ver ns]; simpl in *. subst eco ns. case_bool_decide as Hver; [by subst|].
  rewrite (drop_ops (chars ver)).
  2: { apply any_of_false. eapply free_of_sub; [|exact Hfv]; set_solver. }
  rewrite of_chars_chars, TrimSpace_id by by apply printable_trimmed.
  rewrite strings_Cut_none; [done|]. apply Hfv. set_solver.
Qed.

Lemma HasSuffix_absent c s : c ∉ chars s → HasSuffix s (String c "") = false.
Proof.
  intros Hc. unfold HasSuffix. simpl.
  destruct (reverse (chars s)) as [|a l] eqn:E; [done|]. simpl.
  rewrite bool_decide_false; [done|]. intros ->. apply Hc. rewrite <-elem_of_reverse, E. by left.
Qed.

Lemma requirement_lines_read ps acc :
  Forall requirement_ok ps → requirement_lines "" acc (requirement_of <$> ps) = inr (acc ++ ps)%list.
Proof.
  intros Hps. revert acc. induction Hps as [|p ps Hp Hps IH]; intros acc; simpl; [by rewrite app_nil_r|].
  destruct (requirement_of_ok p Hp) as (_ & Hfree & _).
  rewrite HasSuffix_absent by (apply Hfree; set_solver). rewrite str_app_nil, requirement_roundtrip by done. simpl.
  by rewrite IH, <-app_assoc.
Qed.

(** A file of requirements, one per line. *)
Definition requirements_file (ps : list Package) : string :=
  strings_Join (String nl "") ((requirement_of <$> ps) ++ [""])%list.

Lemma requirements_file_lines ps :
  Forall requirement_ok ps → raw_lines (requirements_file ps) = requirement_of <$> ps.
Proof.
  intros Hps. unfold raw_lines, requirements_file. rewrite split_join.
  - rewrite last_snoc, bool_decide_true by done. apply removelast_last.
  - by destruct (requirement_of <$> ps).
  - apply Forall_app. split; [|constructor; [set_solver|done]]. apply Forall_fmap.
    eapply Forall_impl; [exact Hps|]. intros p Hp. simpl. destruct (requirement_of_ok p Hp) as [Hpr _].
    apply (printable_no _ _ Hpr). by vm_compute.
Qed.

(** A row that describes the package in column [i]. *)
Definition csv_row (i : nat) (row : list string) (p : Package) : Prop :=
  ∃ suffix, row !! i = Some (purl_of p +:+ suffix) ∧ purl_ok p ∧ trimmed (purl_of p +:+ suffix) ∧
    (suffix = "" ∨ ∃ c s, suffix = String c s ∧ any_of "?#" c = true).

(** ** The key of [deduplicate] *)

Definition key_ok (p : Package) : Prop :=
  free_of "|" p.(Ecosystem) ∧ free_of "|" p.(Namespace) ∧ free_of "|" p.(Name) ∧ free_of "|" p.(Version).

Lemma dedup_key_split p : key_ok p →
  strings_Split "|"%char (dedup_key p) = [p.(Ecosystem); p.(Namespace); p.(Name); p.(Version)].
Proof.
  intros (He & Hns & Hn & Hv). apply (split_join "|"%char [_; _; _; _]); [done|].
  repeat constructor; by apply free_of_1.
Qed.

Lemma dedup_key_inj p q : key_ok p → key_ok q → dedup_key p = dedup_key q → p = q.
Proof.
  intros Hp Hq Heq. apply (f_equal (strings_Split "|"%char)) in Heq. rewrite !dedup_key_split in Heq by done.
  destruct p, q; simpl in *. by simplify_eq.
Qed.

(** The first occurrences of a list, in order. *)
Fixpoint first_occurrences (ps : list Package) : list Package :=
  match ps with
  | [] => []
  | p :: ps' => p :: base.filter (λ q, q ≠ p) (first_occurrences ps')
  end.

(** The loop keeps the first occurrences of what it has not seen. *)
Lemma deduplicate_go_spec seen pkgs (l : list Package) :
  Forall key_ok pkgs → Forall key_ok l → (∀ k, k ∈ seen ↔ ∃ p, p ∈ l ∧ dedup_key p = k) →
  deduplicate_go seen pkgs = base.filter (.∉ l) (first_occurrences pkgs).
Proof.
  intros Hpk. revert seen l. induction Hpk as [|p pkgs Hp Hpk IH]; intros seen l Hl Hseen; [done|]. simpl. rewrite filter_cons.
  assert (dedup_key p ∈ seen ↔ p ∈ l) as Hiff.
  { rewrite Hseen. split; [|by eauto]. intros (q & Hq & Hk). rewrite Forall_forall in Hl.
    apply dedup_key_inj in Hk; [by subst|by apply Hl|done]. }
  destruct (decide (p ∈ l)) as [Hin|Hin].
  - rewrite decide_True by by apply Hiff. rewrite decide_False by tauto. rewrite (IH _ l) by done.
    rewrite list_filter_filter. apply list_filter_iff. set_solver.
  - rewrite decide_False by by rewrite Hiff. rewrite decide_True by done. f_equal.
    rewrite (IH ({[dedup_key p]} ∪ seen) (p :: l)); [|by constructor|intros k; rewrite elem_of_union, elem_of_singleton, Hseen; set_solver].
    rewrite list_filter_filter. apply list_filter_iff. set_solver.
Qed.

(** The parser drops exactly the repeated packages, keeping first occurrences in order, when no field contains a bar. *)
Lemma deduplicate_exact pkgs : Forall key_ok pkgs → deduplicate pkgs = first_occurrences pkgs.
Proof.
  intros H. unfold deduplicate. rewrite (deduplicate_go_spec ∅ pkgs []); [|done|done|set_solver].
  rewrite (list_filter_iff _ (λ _, True)) by set_solver. by induction (first_occurrences pkgs) as [|p l IH]; [|rewrite filter_cons_True, IH].
Qed.

(** A bar inside a field lets two different packages share a key, so that one of them is lost. *)
Example bar_collision :
  let p := mk_Package EcosystemJava "c" "1" "a|b" in
  let q := mk_Package EcosystemJava "b|c" "1" "a" in
  p ≠ q ∧ deduplicate [p; q] = [p].
Proof. by vm_compute. Qed.

Section Manifests.
Context (map_ToLower : string → string).

Lemma csv_packages_rows i rows ps acc :
  Forall2 (csv_row i) rows ps → csv_packages map_ToLower (Some i) acc rows = inr (acc ++ ps)%list.
Proof.
  intros H. revert acc. induction H as [|row p rows ps Hrow Hrows IH]; intros acc; simpl; [by rewrite app_nil_r|].
  destruct Hrow as (suffix & -> & Hp & Htrim & Hs). rewrite TrimSpace_id by done.
  rewrite bool_decide_false by done. rewrite purl_roundtrip by done. simpl. by rewrite IH, <-app_assoc.
Qed.

Lemma csv_packages_meta meta header rows acc :
  Forall (λ r, packageurl_column map_ToLower r = None) meta →
  csv_packages map_ToLower None acc (meta ++ header :: rows) =
  csv_packages map_ToLower (packageurl_column map_ToLower header) acc rows.
Proof. induction 1 as [|r meta Hr Hm IH]; simpl; [done|]. by rewrite Hr, IH. Qed.

(** Which parser reads a file. *)
Lemma csv_detected filename : HasSuffix (strings_ToLower map_ToLower filename) ".csv" = true → detectFormat map_ToLower filename = inr FormatCSV.
Proof. unfold detectFormat. by intros ->. Qed.

Lemma requirements_detected filename :
  HasSuffix (strings_ToLower map_ToLower filename) "requirements.txt" = true → detectFormat map_ToLower filename = inr FormatRequirements.
Proof.
  unfold detectFormat. intros H. rewrite H. replace (HasSuffix _ ".csv") with false; [done|]. symmetry.
  unfold HasSuffix in *. revert H. destruct (reverse (chars (strings_ToLower _ _))) as [|a l]; [done|]. simpl.
  destruct (decide (a = "t"%char)) as [->|Ha]; [done|]. rewrite (bool_decide_false (_ = a)) by congruence. done.
Qed.

Lemma csv_read meta header rows i ps :
  Forall (λ r, packageurl_column map_ToLower r = None) meta → packageurl_column map_ToLower header = Some i →
  Forall2 (csv_row i) rows ps → Forall (λ r, r ≠ [] ∧ Forall (λ f, cr ∉ chars f) r) (meta ++ header :: rows) →
  parseCSV map_ToLower (csv_print (meta ++ header :: rows)) = inr ps.
Proof.
  intros Hm Hh Hrows Hcsv. unfold parseCSV. by rewrite csv_roundtrip, csv_packages_meta, Hh, (csv_packages_rows i rows ps).
Qed.

Lemma requirements_read ps :
  Forall requirement_ok ps → Forall (λ p, line_too_long (requirement_of p) = false) ps →
  parseRequirements (requirements_file ps) = inr ps.
Proof.
  intros Hps Hlen. unfold parseRequirements, scan_lines. rewrite requirements_file_lines by done.
  replace (existsb line_too_long (requirement_of <$> ps)) with false.
  2: { symmetry. apply not_true_iff_false. intros (l & Hl & Ht)%existsb_exists. apply list_elem_of_In in Hl.
       apply list_elem_of_fmap in Hl as (p & -> & Hp). rewrite Forall_forall in Hlen. by rewrite Hlen in Ht. }
  replace (dropCR <$> (requirement_of <$> ps)) with (requirement_of <$> ps); [by rewrite requirement_lines_read|].
  rewrite <-list_fmap_compose. apply list_fmap_ext. intros i p Hi%list_elem_of_lookup_2. simpl.
  unfold dropCR, TrimSuffix. rewrite HasSuffix_absent; [done|]. rewrite Forall_forall in Hps.
  destruct (requirement_of_ok p (Hps p Hi)) as [Hpr _]. apply (printable_no _ _ Hpr). by vm_compute.
Qed.

(** [C39] Manifests are read back by [Parse]. For a file whose name ends in .csv, in any case, written with every field in quotes
    and without carriage returns: whatever rows without a packageurl column come before the header, the result is the packages
    whose package URLs, with any qualifiers, the rows have in the column the header names. For a file whose name ends in
    requirements.txt with one pinned requirement or bare name per line, no line beyond the scanner's limit, it is the packages
    of the lines. Either way repeated packages are left out and the others are in the order of their first occurrence. The
    fields of the packages are free of the characters that separate parts of a package URL or of a requirement (a slash in the
    name, [?], [#], [@]; for requirements printable ASCII without operators, comments, markers, extras and continuations) and of
    bars. A file of any other name is refused. *)
Theorem manifest_roundtrip filename :
  (∀ meta header rows i ps,
     HasSuffix (strings_ToLower map_ToLower filename) ".csv" = true →
     Forall (λ r, packageurl_column map_ToLower r = None) meta → packageurl_column map_ToLower header = Some i →
     Forall2 (csv_row i) rows ps →
     Forall (λ r, r ≠ [] ∧ Forall (λ f, cr ∉ chars f) r) (meta ++ header :: rows) → Forall key_ok ps →
     Parse map_ToLower filename (inr (csv_print (meta ++ header :: rows))) = inr (mk_ParseResult (first_occurrences ps) FormatCSV)) ∧
  (∀ ps, HasSuffix (strings_ToLower map_ToLower filename) "requirements.txt" = true →
     Forall requirement_ok ps → Forall (λ p, line_too_long (requirement_of p) = false) ps → Forall key_ok ps →
     Parse map_ToLower filename (inr (requirements_file ps)) = inr (mk_ParseResult (first_occurrences ps) FormatRequirements)) ∧
  (∀ data, HasSuffix (strings_ToLower map_ToLower filename) ".csv" = false → HasSuffix (strings_ToLower map_ToLower filename) "requirements.txt" = false →
     ∃ e, Parse map_ToLower filename data = inl e).
Proof.
  split_and!.
  - intros meta header rows i ps Hf Hm Hh Hrows Hcsv Hk. unfold Parse. rewrite csv_detected by done. simpl.
    by rewrite (csv_read meta header rows i ps), deduplicate_exact.
  - intros ps Hf Hps Hlen Hk. unfold Parse. rewrite requirements_detected by done. simpl. by rewrite requirements_read, deduplicate_exact.
  - intros [e|data] H1 H2; simpl; [by eexists|]. unfold detectFormat. rewrite H1, H2. by eexists.
Qed.
End Manifests.

Definition ex_java : Package := mk_Package EcosystemJava "spring-core" "5.3.20" "org.springframework".
Definition ex_flask : Package := mk_Package EcosystemPython "flask" "2.3.0" "".

Lemma purl_ok_ex : purl_ok ex_java ∧ purl_ok ex_flask ∧ requirement_ok ex_flask.
Proof. unfold purl_ok, requirement_ok, printable. by_decide. Qed.

Lemma key_ok_ex : key_ok ex_java ∧ key_ok ex_flask.
Proof. unfold key_ok. by_decide. Qed.

Lemma manifest_roundtrip_witness :
  Parse id "report.CSV" (inr (csv_print [["Report"; ""]; ["id"; "PackageURL"]; ["CVE-1"; purl_of ex_java +:+ "?type=jar#sub"]; ["CVE-2"; purl_of ex_java]])) =
    inr (mk_ParseResult [ex_java] FormatCSV) ∧
  Parse id "my-requirements.txt" (inr (requirements_file [ex_flask; ex_flask])) = inr (mk_ParseResult [ex_flask] FormatRequirements).
Proof.
  split.
  - apply (proj1 (manifest_roundtrip id "report.CSV") [["Report"; ""]] ["id"; "PackageURL"] _ 1%nat [ex_java; ex_java]).
    + by vm_compute.
    + repeat constructor.
    + by vm_compute.
    + constructor; [|constructor; [|constructor]].
      * exists "?type=jar#sub". split; [done|]. split; [apply purl_ok_ex|].
        split; [apply printable_trimmed; unfold printable; by_decide|]. right. eauto.
      * exists "". split; [done|]. split; [apply purl_ok_ex|]. split; [apply printable_trimmed; unfold printable; by_decide|by left].
    + by_decide.
    + repeat constructor; apply key_ok_ex.
  - apply (proj1 (proj2 (manifest_roundtrip id "my-requirements.txt")) [ex_flask; ex_flask]); [by vm_compute|..];
      (constructor; [|constructor; [|by constructor]]); try apply purl_ok_ex; try apply key_ok_ex; by vm_compute.
Defined.
