(* ===== verification/CoverageMatch.v ===== *)
(** * coverage: what [MatchCatalog] reports

    The status of every package against its specification, and the summary against the statuses. *)

From S2P Require Import Prelude GoStrings GoSplit GoText Utils Coverage.
From stdpp Require Import options.

Open Scope string_scope.

Definition colon58 : ascii := ":"%char.

(** Two concatenations around a separator that does not occur after (before) it. *)
Lemma app_sep_inj_r (x x' y y' : text) c :
  c ∉ y → c ∉ y' → (x ++ c :: y = x' ++ c :: y')%list → x = x' ∧ y = y'.
Proof.
  intros Hy Hy' H. apply (f_equal (cut_last c)) in H. rewrite !cut_last_app in H by done. by simplify_eq.
Qed.

Lemma app_sep_inj_l (x x' y y' : text) c :
  c ∉ x → c ∉ x' → (x ++ c :: y = x' ++ c :: y')%list → x = x' ∧ y = y'.
Proof.
  intros Hx Hx' H. apply (f_equal (cut [c])) in H. rewrite !cut_char in H by done. by simplify_eq.
Qed.

(** ** Names of Python

    Two spellings of a name are the same when they differ only in their runs of separators (PEP 503: hyphens, underscores and
    dots). This says it without a normal form. *)
Definition python_separator (c : ascii) : Prop := c = "-"%char ∨ c = "_"%char ∨ c = "."%char.
Definition starts_word (l : text) : Prop := ∀ c, head l = Some c → ¬ python_separator c.

Inductive same_name : text → text → Prop :=
  | same_nil : same_name [] []
  | same_char c l l' : ¬ python_separator c → same_name l l' → same_name (c :: l) (c :: l')
  | same_run s s' l l' :
      s ≠ [] → s' ≠ [] → Forall python_separator s → Forall python_separator s' → starts_word l → starts_word l' →
      same_name l l' → same_name (s ++ l) (s' ++ l').

Lemma separator_spec c : separator c = true ↔ python_separator c.
Proof. unfold separator, any_of. rewrite contains_true. unfold python_separator. simpl. set_solver. Qed.

Lemma separator_not c : separator c = false ↔ ¬ python_separator c.
Proof. rewrite <-separator_spec. by destruct (separator c). Qed.

Lemma normalize_word w l : starts_word l → normalize_go w l = normalize_go false l.
Proof. destruct l as [|c l]; [done|]. intros H. simpl. by rewrite (proj2 (separator_not c) (H c eq_refl)). Qed.

Lemma normalize_run_true s l : Forall python_separator s → normalize_go true (s ++ l) = normalize_go true l.
Proof. induction 1 as [|c s Hc%separator_spec _ IH]; simpl; [done|]. by rewrite Hc. Qed.

Lemma normalize_run s l :
  s ≠ [] → Forall python_separator s → starts_word l → normalize_go false (s ++ l) = "-"%char :: normalize_go false l.
Proof.
  intros Hne Hs Hl. destruct Hs as [|c s Hc%separator_spec Hs]; [done|]. simpl. by rewrite Hc, normalize_run_true, normalize_word.
Qed.

(** A text that starts with a separator starts with a run. *)
Lemma run_split c l :
  python_separator c → ∃ s rest, c :: l = (s ++ rest)%list ∧ s ≠ [] ∧ Forall python_separator s ∧ starts_word rest.
Proof.
  revert c. induction l as [|c' l IH]; intros c Hc.
  - exists [c], []. split_and!; [done..|by constructor|done].
  - destruct (separator c') eqn:E.
    + apply separator_spec in E. destruct (IH c' E) as (s & rest & -> & Hne & Hs & Hr).
      exists (c :: s), rest. split_and!; [done..|by constructor|done].
    + exists [c], (c' :: l). split_and!; [done..|by constructor|]. intros ? [= <-]. by apply separator_not.
Qed.

(** The loop of the code decides it. *)
Lemma normalize_same l l' : normalize_go false l = normalize_go false l' ↔ same_name l l'.
Proof.
  split.
  - remember (length l) as n eqn:Hn. revert l l' Hn. induction n as [n IH] using lt_wf_ind. intros l l' -> H.
    destruct l as [|c l].
    { destruct l' as [|c' l']; [constructor|]. simpl in H. by destruct (separator c'). }
    destruct l' as [|c' l']; [simpl in H; by destruct (separator c)|].
    destruct (separator c) eqn:E, (separator c') eqn:E'.
    + apply separator_spec in E, E'. destruct (run_split c l E) as (s & r & El & Hne & Hs & Hr), (run_split c' l' E') as (s' & r' & El' & Hne' & Hs' & Hr').
      rewrite El, El' in H |- *. rewrite !normalize_run in H by done. injection H as H. constructor; try done. eapply IH; [|done|done].
      rewrite El, length_app. destruct s; [done|simpl; lia].
    + simpl in H. rewrite E, E' in H. injection H as <- _. by vm_compute in E'.
    + simpl in H. rewrite E, E' in H. injection H as -> _. by vm_compute in E.
    + simpl in H. rewrite E, E' in H. injection H as <- H. constructor; [by apply separator_not|]. eapply IH; [|done|done]. simpl. lia.
  - induction 1 as [|c l l' Hc%separator_not _ IH|s s' l l' Hne Hne' Hs Hs' Hl Hl' _ IH]; [done|simpl; by rewrite Hc, IH|].
    by rewrite !normalize_run, IH.
Qed.

#[global] Instance same_name_dec l l' : Decision (same_name l l').
Proof. refine (cast_if (decide (normalize_go false l = normalize_go false l'))); by rewrite <-normalize_same. Defined.

Section Match.
Context (map_ToLower : string → string).
Abbreviation ToLower := (strings_ToLower map_ToLower).
Abbreviation normalizePythonName := (normalizePythonName map_ToLower).
Abbreviation normalizeKey := (normalizeKey map_ToLower).

(** The same package under another spelling: names of Python up to case and separators, coordinates of Java up to case. *)
Definition equivalent (p q : Package) : Prop :=
  p.(Ecosystem) = q.(Ecosystem) ∧
  if p.(Ecosystem) == EcosystemPython then same_name (chars (ToLower p.(Name))) (chars (ToLower q.(Name)))
  else ToLower p.(Namespace) = ToLower q.(Namespace) ∧ ToLower p.(Name) = ToLower q.(Name).
#[global] Instance equivalent_dec p q : Decision (equivalent p q).
Proof. unfold equivalent. destruct (bool_decide _); apply _. Defined.

(** What the parser produces, with no colon inside a field. *)
Definition matchable (p : Package) : Prop :=
  (p.(Ecosystem) = EcosystemJava ∨ p.(Ecosystem) = EcosystemPython) ∧
  colon58 ∉ chars p.(Version) ∧ colon58 ∉ chars (ToLower p.(Name)) ∧ colon58 ∉ chars (ToLower p.(Namespace)).
#[global] Instance matchable_dec p : Decision (matchable p).
Proof. unfold matchable. apply _. Defined.

Definition status_of (catalog : list Package) (p : Package) : string :=
  if decide (p.(Version) ≠ "" ∧ Exists (λ q, equivalent p q ∧ q.(Version) = p.(Version)) catalog) then MatchStatusExact
  else if decide (Exists (equivalent p) catalog) then MatchStatusPartial
  else MatchStatusNone.

Lemma normalize_go_elem w l c : c ∈ normalize_go w l → c = "-"%char ∨ c ∈ l.
Proof.
  revert w. induction l as [|a l IH]; intros w; simpl; [by intros ?%not_elem_of_nil|].
  destruct (separator a), w; rewrite ?elem_of_cons; naive_solver.
Qed.

Lemma python_key_no_colon p : matchable p → colon58 ∉ chars (normalizePythonName p.(Name)).
Proof.
  intros (_ & _ & Hn & _). unfold Coverage.normalizePythonName. rewrite chars_of_chars.
  by intros [?|?]%normalize_go_elem.
Qed.

Lemma java_key p : matchable p → p.(Ecosystem) ≠ EcosystemPython →
  chars (normalizeKey p) = (chars (ToLower p.(Namespace)) ++ colon58 :: chars (ToLower p.(Name)))%list.
Proof.
  intros ([Hj|Hj] & _) Hp; [|done]. unfold Coverage.normalizeKey. rewrite Hj. simpl.
  by rewrite !chars_app.
Qed.

Lemma python_key p : p.(Ecosystem) = EcosystemPython → normalizeKey p = normalizePythonName p.(Name).
Proof. intros Hp. unfold Coverage.normalizeKey. by rewrite bool_decide_true. Qed.

Lemma python_names p q :
  normalizePythonName p.(Name) = normalizePythonName q.(Name) ↔ same_name (chars (ToLower p.(Name))) (chars (ToLower q.(Name))).
Proof.
  rewrite <-normalize_same. unfold Coverage.normalizePythonName. split; [|by intros ->].
  intros H%(f_equal chars). by rewrite !chars_of_chars in H.
Qed.

(** Keys decide equivalence. *)
Lemma key_equivalent p q : matchable p → matchable q → normalizeKey p = normalizeKey q ↔ equivalent p q.
Proof.
  intros Hp Hq. unfold equivalent.
  destruct (decide (p.(Ecosystem) = EcosystemPython)) as [Ep|Ep], (decide (q.(Ecosystem) = EcosystemPython)) as [Eq|Eq].
  - rewrite !python_key, python_names, Ep, Eq, bool_decide_true by done. naive_solver.
  - split; [|by intros [? _]; congruence]. intros H. apply (f_equal chars) in H.
    rewrite python_key, java_key in H by done. exfalso. apply (python_key_no_colon p Hp). rewrite H. set_solver.
  - split; [|by intros [? _]; congruence]. intros H. apply (f_equal chars) in H.
    rewrite java_key, python_key in H by done. exfalso. apply (python_key_no_colon q Hq). rewrite <-H. set_solver.
  - rewrite bool_decide_false by done.
    assert (p.(Ecosystem) = q.(Ecosystem)) as Heco.
    { destruct Hp as ([Hpe|Hpe] & _), Hq as ([Hqe|Hqe] & _); congruence. }
    split.
    + intros Hk. apply (f_equal chars) in Hk. rewrite !java_key in Hk by done.
      apply app_sep_inj_r in Hk as [?%chars_inj ?%chars_inj]; [done|apply Hp|apply Hq].
    + intros [_ [H1 H2]]. apply chars_inj. by rewrite !java_key, H1, H2.
Qed.

Lemma versioned_key_equivalent p q : matchable p → matchable q →
  normalizeKey p +:+ ":" +:+ p.(Version) = normalizeKey q +:+ ":" +:+ q.(Version) ↔
  equivalent p q ∧ q.(Version) = p.(Version).
Proof.
  intros Hp Hq. rewrite <-key_equivalent by done. split; [|by intros [-> ->]].
  intros H. apply (f_equal chars) in H. rewrite !chars_app in H. simpl in H.
  apply app_sep_inj_r in H as [?%chars_inj ?%chars_inj]; [by split|by apply Hp|by apply Hq].
Qed.

Lemma buildIndex_spec catalog names nameVersions k :
  buildIndex map_ToLower catalog = (names, nameVersions) →
  (k ∈ names ↔ Exists (λ q, k = normalizeKey q) catalog) ∧
  (k ∈ nameVersions ↔ Exists (λ q, q.(Version) ≠ "" ∧ k = normalizeKey q +:+ ":" +:+ q.(Version)) catalog).
Proof.
  revert names nameVersions. induction catalog as [|q catalog IH]; simpl; intros names nv H.
  - simplify_eq. rewrite !Exists_nil. set_solver.
  - destruct (buildIndex map_ToLower catalog) as [names' nv'] eqn:E. simplify_eq.
    destruct (IH _ _ eq_refl) as [IH1 IH2]. rewrite !Exists_cons, <-IH1, <-IH2.
    split; [set_solver|]. case_bool_decide; simpl; set_solver.
Qed.

Lemma matchPackage_status catalog names nameVersions p :
  Forall matchable catalog → matchable p → buildIndex map_ToLower catalog = (names, nameVersions) →
  matchPackage map_ToLower p names nameVersions = status_of catalog p.
Proof.
  intros Hcat Hp Hix. unfold matchPackage, status_of. rewrite Forall_forall in Hcat.
  assert (normalizeKey p ∈ names ↔ Exists (equivalent p) catalog) as Hn.
  { rewrite (proj1 (buildIndex_spec _ _ _ _ Hix)), !Exists_exists. split; intros (q & Hq & H); exists q; split; try done.
    all: by apply key_equivalent; auto. }
  assert (p.(Version) ≠ "" → normalizeKey p +:+ ":" +:+ p.(Version) ∈ nameVersions ↔
          Exists (λ q, equivalent p q ∧ q.(Version) = p.(Version)) catalog) as Hv.
  { intros Hne. rewrite (proj2 (buildIndex_spec _ _ _ _ Hix)), !Exists_exists. split.
    - intros (q & Hq & _ & H). exists q. split; [done|]. apply versioned_key_equivalent in H; auto.
    - intros (q & Hq & H). exists q. split; [done|]. split; [by destruct H as [_ ->]|].
      apply versioned_key_equivalent; auto. }
  destruct (decide (p.(Version) = "")) as [Hver|Hver].
  - rewrite (bool_decide_true (p.(Version) = "")) by done. simpl. repeat (case_bool_decide || case_decide); tauto.
  - rewrite (bool_decide_false (p.(Version) = "")) by done. specialize (Hv Hver). simpl.
    repeat (case_bool_decide || case_decide); tauto.
Qed.

(** ** The summary *)

(** The number of results of a status, in one ecosystem or in all. *)
Definition count (f : MatchResult → bool) (results : list MatchResult) : Z := Z.of_nat (length (List.filter f results)).
Definition has_status (status : string) (r : MatchResult) : bool := r.(MatchStatus) == status.
Definition in_ecosystem (eco : string) (r : MatchResult) : bool := r.(r_Package).(Ecosystem) == eco.

Definition tally (eco : string) (results : list MatchResult) : EcosystemSummary :=
  let rs := List.filter (in_ecosystem eco) results in
  mk_EcosystemSummary eco (count (λ _, true) rs) (count (has_status MatchStatusExact) rs)
    (count (has_status MatchStatusPartial) rs) (count (has_status MatchStatusNone) rs).

Definition add_summary (e f : EcosystemSummary) : EcosystemSummary :=
  mk_EcosystemSummary e.(e_Ecosystem) (e.(e_Total) + f.(e_Total)) (e.(e_Exact) + f.(e_Exact))
    (e.(e_Partial) + f.(e_Partial)) (e.(e_Unmatched) + f.(e_Unmatched)).

Lemma matchPackage_cases p names nv :
  let st := matchPackage map_ToLower p names nv in
  st = MatchStatusExact ∨ st = MatchStatusPartial ∨ st = MatchStatusNone.
Proof. unfold matchPackage. repeat case_match; auto. Qed.

Lemma count_cons f r results : count f (r :: results) = ((if f r then 1 else 0) + count f results)%Z.
Proof. unfold count. simpl. destruct (f r); simpl; lia. Qed.

Lemma tally_cons eco r results :
  (r.(MatchStatus) = MatchStatusExact ∨ r.(MatchStatus) = MatchStatusPartial ∨ r.(MatchStatus) = MatchStatusNone) →
  ∀ e, e.(e_Ecosystem) = eco →
  add_summary e (tally eco (r :: results)) =
  add_summary (if in_ecosystem eco r then count_status r.(MatchStatus) e else e) (tally eco results).
Proof.
  intros Hst [eco' t x q u] He. simpl in He. subst eco'. unfold tally. simpl.
  destruct (in_ecosystem eco r); [|done]. rewrite !count_cons. unfold has_status, add_summary. simpl.
  destruct Hst as [->|[->| ->]]; simpl; f_equal; lia.
Qed.

Lemma count_status_eco st e : e_Ecosystem (count_status st e) = e_Ecosystem e.
Proof. destruct e. simpl. by repeat case_bool_decide. Qed.

Lemma add_summary_empty eco results : add_summary (empty_summary eco) (tally eco results) = tally eco results.
Proof. done. Qed.

Lemma tally_absent eco results : eco ∉ Ecosystem <$> (r_Package <$> results) → tally eco results = empty_summary eco.
Proof.
  intros H. unfold tally. replace (List.filter (in_ecosystem eco) results) with ([] : list MatchResult); [done|].
  induction results as [|r results IH]; [done|]. simpl in *. rewrite not_elem_of_cons in H. destruct H as [Hr H].
  unfold in_ecosystem at 1. rewrite bool_decide_false by congruence. by apply IH.
Qed.

Lemma add_empty_summary e eco : e.(e_Ecosystem) = eco → add_summary e (empty_summary eco) = e.
Proof. intros <-. destruct e. unfold add_summary. simpl. f_equal; lia. Qed.

Definition keyed (m : gmap string EcosystemSummary) : Prop := ∀ eco e, m !! eco = Some e → e.(e_Ecosystem) = eco.

(** The loop adds the tally of its results to the entry of every ecosystem it meets. *)
Lemma match_loop_spec names nv m pkgs results m' :
  keyed m → match_loop map_ToLower names nv m pkgs = (results, m') →
  results = ((λ p, mk_MatchResult p (matchPackage map_ToLower p names nv)) <$> pkgs) ∧
  ∀ eco, m' !! eco =
    if decide (eco ∈ Ecosystem <$> pkgs) then Some (add_summary (default (empty_summary eco) (m !! eco)) (tally eco results))
    else m !! eco.
Proof.
  revert m results. induction pkgs as [|p pkgs IH]; simpl; intros m results Hm H.
  { by simplify_eq. }
  set (st := matchPackage map_ToLower p names nv) in *.
  set (entry := default (empty_summary (Ecosystem p)) (m !! Ecosystem p)) in *.
  destruct (match_loop _ _ _ _ pkgs) as [rs m1] eqn:E. simplify_eq.
  assert (e_Ecosystem entry = Ecosystem p) as Hentry.
  { unfold entry. destruct (m !! Ecosystem p) eqn:Ep; [by apply Hm in Ep|done]. }
  apply IH in E as [-> Hm'].
  2: { intros eco e. rewrite lookup_insert. case_decide; [|apply Hm]. intros; simplify_eq. by rewrite count_status_eco. }
  split; [done|]. intros eco. rewrite Hm', lookup_insert.
  rewrite tally_cons; [|apply matchPackage_cases|].
  2: { destruct (m !! eco) eqn:Ep; [by apply Hm in Ep|done]. }
  cbn [r_Package MatchStatus]. change (in_ecosystem eco (mk_MatchResult p st)) with (Ecosystem p == eco).
  destruct (decide (Ecosystem p = eco)) as [<-|Hne].
  - rewrite bool_decide_true by done. rewrite (decide_True (P := Ecosystem p ∈ Ecosystem p :: _)) by by left.
    simpl. fold entry. case_decide as Hin; [done|].
    rewrite tally_absent, add_empty_summary; [done|by rewrite count_status_eco|by rewrite <-(list_fmap_compose _ r_Package), list_fmap_id].
  - rewrite bool_decide_false by done. repeat case_decide; try done; exfalso; set_solver.
Qed.

(** Summing over the entries of a map. *)
Definition sum_of (f : EcosystemSummary → Z) (es : list EcosystemSummary) : Z := foldr Z.add 0%Z (f <$> es).

Lemma sum_of_perm f es es' : es ≡ₚ es' → sum_of f es = sum_of f es'.
Proof. unfold sum_of. intros H. induction H; rewrite ?fmap_cons; simpl; lia. Qed.

Lemma sum_of_cons f e es : sum_of f (e :: es) = (f e + sum_of f es)%Z.
Proof. done. Qed.

Lemma foldl_add_entry es s :
  let s' := foldl add_entry s es in
  s'.(Total) = (s.(Total) + sum_of e_Total es)%Z ∧ s'.(ExactMatches) = (s.(ExactMatches) + sum_of e_Exact es)%Z ∧
  s'.(PartialMatches) = (s.(PartialMatches) + sum_of e_Partial es)%Z ∧
  s'.(Unmatched) = (s.(Unmatched) + sum_of e_Unmatched es)%Z ∧
  s'.(EcosystemCoverageSummary) = (s.(EcosystemCoverageSummary) ++ es)%list ∧
  s'.(CatalogSnapshotAt) = s.(CatalogSnapshotAt).
Proof.
  revert s. induction es as [|e es IH]; intros s; simpl.
  - unfold sum_of. simpl. rewrite app_nil_r. repeat split; lia.
  - destruct (IH (add_entry s e)) as (-> & -> & -> & -> & -> & ->). rewrite !sum_of_cons.
    simpl. rewrite <-app_assoc. repeat split; lia.
Qed.

Lemma sum_delta (x : string) (v : Z) (c : string → Z) ecos :
  NoDup ecos →
  foldr Z.add 0%Z ((λ eco, ((if x == eco then v else 0) + c eco)%Z) <$> ecos) =
  ((if bool_decide (x ∈ ecos) then v else 0) + foldr Z.add 0 (c <$> ecos))%Z.
Proof.
  clear map_ToLower. induction 1 as [|e ecos He Hnd IH]; [done|]. rewrite !fmap_cons. cbn [foldr]. rewrite IH.
  repeat case_bool_decide; set_solver by lia.
Qed.

(** A count over all results is the sum of the counts of the ecosystems. *)
Lemma count_partition f (g : EcosystemSummary → Z) results (ecos : list string) :
  NoDup ecos → (∀ r, r ∈ results → r.(r_Package).(Ecosystem) ∈ ecos) →
  (∀ eco rs, g (tally eco rs) = count f (List.filter (in_ecosystem eco) rs)) →
  sum_of g ((λ eco, tally eco results) <$> ecos) = count f results.
Proof.
  clear map_ToLower. intros Hnd Hin Hg. unfold sum_of. rewrite <-list_fmap_compose.
  rewrite (list_fmap_ext _ (λ eco, count f (List.filter (in_ecosystem eco) results))) by (intros; apply Hg).
  clear Hg. induction results as [|r results IH].
  - clear. induction ecos as [|e ecos IH]; [done|]. rewrite fmap_cons. cbn [foldr]. by rewrite IH.
  - rewrite count_cons, <-IH by set_solver.
    rewrite (list_fmap_ext _ (λ eco, ((if r.(r_Package).(Ecosystem) == eco then (if f r then 1 else 0) else 0) +
      count f (List.filter (in_ecosystem eco) results))%Z)).
    + rewrite sum_delta, bool_decide_true; [done|set_solver|done].
    + intros i eco _. simpl. unfold in_ecosystem at 1. case_bool_decide; [by rewrite count_cons|lia].
Qed.

(** [range] visits every entry of a map once. *)
Definition ranges (range : gmap string EcosystemSummary → list EcosystemSummary) : Prop :=
  ∀ m, range m ≡ₚ snd <$> map_to_list m.

(** The entries the loop leaves, in the order of the map. *)
Lemma match_loop_entries names nv pkgs results m :
  match_loop map_ToLower names nv ∅ pkgs = (results, m) →
  (∀ eco e, m !! eco = Some e ↔ eco ∈ Ecosystem <$> pkgs ∧ e = tally eco results) ∧
  (snd <$> map_to_list m) = ((λ eco, tally eco results) <$> (fst <$> map_to_list m)).
Proof.
  intros H. apply match_loop_spec in H as [Hres Hm]; [|by intros eco e; rewrite lookup_empty].
  assert (∀ eco e, m !! eco = Some e ↔ eco ∈ Ecosystem <$> pkgs ∧ e = tally eco results) as Hiff.
  { intros eco e. rewrite Hm, lookup_empty. simpl. rewrite add_summary_empty. case_decide; naive_solver. }
  split; [done|]. rewrite <-list_fmap_compose. apply list_fmap_ext. intros i [eco e] Hi. simpl.
  apply list_elem_of_lookup_2, elem_of_map_to_list, Hiff in Hi. naive_solver.
Qed.

(** [C40] [MatchCatalog] is correct for packages of Java and Python without colons in their fields. Every package gets, in order,
    the status its specification says: exact when it has a version and the catalog has the same package with that version,
    partial when the catalog has the same package otherwise, none if not. Names of Python are the same up to case and up to
    the runs of hyphens, underscores and dots, coordinates of Java up to case. The totals count the results, and the summary
    has one entry per ecosystem of the manifest, with the counts of that ecosystem, in whatever order Go visits the map. *)
Theorem match_catalog_correct range catalog pkgs snapshotAt :
  ranges range → Forall matchable catalog → Forall matchable pkgs →
  ∃ s, let results := (λ p, mk_MatchResult p (status_of catalog p)) <$> pkgs in
    MatchCatalog map_ToLower range catalog pkgs snapshotAt = (results, s) ∧
    s.(Total) = Z.of_nat (length pkgs) ∧ s.(ExactMatches) = count (has_status MatchStatusExact) results ∧
    s.(PartialMatches) = count (has_status MatchStatusPartial) results ∧
    s.(Unmatched) = count (has_status MatchStatusNone) results ∧
    NoDup (e_Ecosystem <$> s.(EcosystemCoverageSummary)) ∧
    ∀ e, e ∈ s.(EcosystemCoverageSummary) ↔ e.(e_Ecosystem) ∈ Ecosystem <$> pkgs ∧ e = tally e.(e_Ecosystem) results.
Proof.
  intros Hrange Hcat Hpk. unfold MatchCatalog. destruct (buildIndex map_ToLower catalog) as [names nv] eqn:Hix.
  destruct (match_loop map_ToLower names nv ∅ pkgs) as [results m] eqn:Hl.
  pose proof (match_loop_entries _ _ _ _ _ Hl) as [Hm Hent]. apply match_loop_spec in Hl as [Hres _].
  2: { by intros eco e; rewrite lookup_empty. }
  assert (results = ((λ p, mk_MatchResult p (status_of catalog p)) <$> pkgs)) as Hres'.
  { rewrite Hres. apply list_fmap_ext. intros i p Hi%list_elem_of_lookup_2. f_equal.
    rewrite Forall_forall in Hpk. by apply matchPackage_status; auto. }
  eexists. split; [by rewrite <-Hres'|]. rewrite <-Hres'.
  destruct (foldl_add_entry (range m) (mk_MatchSummary 0 0 0 0 [] snapshotAt)) as (-> & -> & -> & -> & -> & _).
  assert (∀ r, r ∈ results → r.(r_Package).(Ecosystem) ∈ (fst <$> map_to_list m)) as Hin.
  { intros r Hr. rewrite Hres in Hr. apply list_elem_of_fmap in Hr as (p & -> & Hp). simpl.
    apply list_elem_of_fmap. exists (Ecosystem p, tally (Ecosystem p) results). split; [done|].
    apply elem_of_map_to_list, Hm. split; [by apply list_elem_of_fmap_2|done]. }
  pose proof (NoDup_fst_map_to_list m) as Hnd.
  assert (∀ f g, (∀ eco rs, g (tally eco rs) = count f (List.filter (in_ecosystem eco) rs)) →
            (0 + sum_of g (range m))%Z = count f results) as Hsum.
  { intros f g Hg. rewrite (sum_of_perm _ _ _ (Hrange m)), Hent, (count_partition f) by done. lia. }
  split_and!.
  - rewrite (Hsum (λ _, true)) by done. unfold count. rewrite List.filter_true, Hres. by rewrite length_fmap.
  - by apply Hsum.
  - by apply Hsum.
  - by apply Hsum.
  - rewrite app_nil_l, (Hrange m), Hent, <-list_fmap_compose. by rewrite list_fmap_id.
  - intros e. rewrite app_nil_l, (Hrange m). rewrite list_elem_of_fmap. split.
    + intros ([eco e'] & -> & Hi%elem_of_map_to_list%Hm). simpl. destruct Hi as [? ->]. done.
    + intros [He ->]. exists (e_Ecosystem e, tally (e_Ecosystem e) results). split; [done|].
      by apply elem_of_map_to_list, Hm.
Qed.
End Match.

Definition ex_catalog : list Package :=
  [mk_Package EcosystemPython "Ruamel.Yaml" "0.18.6" ""; mk_Package EcosystemJava "Spring-Core" "6.1.0" "org.springframework"].
Definition ex_manifest : list Package :=
  [mk_Package EcosystemPython "ruamel__yaml" "0.18.6" ""; mk_Package EcosystemJava "spring-core" "" "org.SpringFramework";
   mk_Package EcosystemPython "flask" "2.3.0" ""].

Lemma match_catalog_correct_witness :
  MatchStatus <$> (MatchCatalog id (λ m, snd <$> map_to_list m) ex_catalog ex_manifest 0).1 =
    [MatchStatusExact; MatchStatusPartial; MatchStatusNone] ∧
  (MatchCatalog id (λ m, snd <$> map_to_list m) ex_catalog ex_manifest 0).2.(Total) = 3%Z.
Proof.
  destruct (match_catalog_correct id (λ m, snd <$> map_to_list m) ex_catalog ex_manifest 0) as (s & -> & Htot & _).
  - by intros m.
  - by_decide.
  - by_decide.
  - split; [vm_compute; reflexivity|]. cbn [snd]. rewrite Htot. vm_compute. reflexivity.
Defined.
