(* ===== verification/PulpTask.v ===== *)
(** * clients/pulp_client/task.go: waiting for a task of Pulp

    [PollTask] asks for a task until it has stopped, and gives up after five failed requests in a row. Pulp is seen through
    the answers to the requests: [answers i] is the answer to the i-th call of [GetTask]. The loop need not end; [PollTask]
    has fuel for its rounds, and [poll_ends] says exactly when and how it ends. *)

From S2P Require Import Prelude GoStrings Config Utils.
From stdpp Require Import options.

Open Scope string_scope.

Definition COMPLETED := "completed".
Definition WAITING := "waiting".
Definition RUNNING := "running".
Definition SKIPPED := "skipped".
Definition CANCELED := "canceled".
Definition CANCELING := "canceling".
Definition FAILED := "failed".
Definition maxGetTaskAttempts : nat := 5.

(** zest.TaskResponse, the fields used; the error is a map, in the order in which it is ranged over. *)
Record PulpTask := mk_PulpTask {
  p_Href : string; p_State : string; p_Error : option (list (string * string)); p_CreatedResources : list string }.

Fixpoint TaskErrorString_go (l : list (string * string)) : string :=
  match l with [] => "" | (key, element) :: l' => key +:+ ": " +:+ element +:+ ".  " +:+ TaskErrorString_go l' end.
Definition TaskErrorString (t : PulpTask) : string :=
  match t.(p_Error) with Some l => TaskErrorString_go l | None => "" end.

(** The seconds slept. *)
Definition SleepWithBackoff (iteration : nat) : nat :=
  if (iteration <=? 5)%nat then 1
  else if (5 <? iteration)%nat && (iteration <=? 10)%nat then 5
  else if (10 <? iteration)%nat && (iteration <=? 20)%nat then 10
  else 30.

Section Poll.
Context (domainName : string) (answers : nat → string + PulpTask).

(** The state of the loops: the number of requests sent, [pollCount], and the seconds slept. *)
Record poll := mk_poll { sent : nat; pollCount : nat; slept : nat }.
Definition sleep (s : poll) : poll := mk_poll s.(sent) (S s.(pollCount)) (s.(slept) + SleepWithBackoff s.(pollCount)).

(** The inner loop, with the attempts that are left. *)
Fixpoint get_task (left : nat) (s : poll) : (string + PulpTask) * poll :=
  let s' := mk_poll (S s.(sent)) s.(pollCount) s.(slept) in
  match answers s.(sent), left with
  | inr t, _ => (inr t, s')
  | inl e, S (S _ as left') => get_task left' (sleep s')
  | inl e, _ => (inl e, s')
  end.

Inductive outcome :=
  | Polled (t : PulpTask)
  | Failed (t : option PulpTask) (err : string).

(** [None]: out of fuel. *)
Fixpoint PollTask_go (fuel : nat) (s : poll) : option (outcome * poll) :=
  match fuel with
  | O => None
  | S fuel =>
      match get_task maxGetTaskAttempts s with
      | (inl e, s) => Some (Failed None e, s)
      | (inr task, s) =>
          if contains [WAITING; RUNNING; CANCELING] task.(p_State) then PollTask_go fuel (sleep s)
          else if contains [COMPLETED; SKIPPED; CANCELED] task.(p_State) then Some (Polled task, s)
          else if task.(p_State) == FAILED
          then Some (Failed (Some task) ("domain " +:+ domainName +:+ " had Pulp Task error '" +:+ TaskErrorString task +:+ "'"), s)
          else Some (Polled task, s)
      end
  end.

Definition PollTask (fuel : nat) : option (outcome * poll) := PollTask_go fuel (mk_poll 0 1 0).

(** ** When it ends *)

Definition in_progress (t : PulpTask) : bool := contains [WAITING; RUNNING; CANCELING] t.(p_State).
Definition fails (i : nat) : Prop := ∃ e, answers i = inl e.

(** The i-th answer ends the loop: the task has stopped, or this is the fifth failure in a row. *)
Definition decisive (i : nat) : Prop :=
  (∃ t, answers i = inr t ∧ in_progress t = false) ∨ (4 ≤ i ∧ ∀ j, i - 4 ≤ j ≤ i → fails j)%nat.
Definition first_decisive (k : nat) : Prop := decisive k ∧ ∀ j, (j < k)%nat → ¬ decisive j.

Definition result_of (a : string + PulpTask) : outcome :=
  match a with
  | inl e => Failed None e
  | inr t => if t.(p_State) == FAILED
             then Failed (Some t) ("domain " +:+ domainName +:+ " had Pulp Task error '" +:+ TaskErrorString t +:+ "'")
             else Polled t
  end.

(** The seconds slept before the request [k]. *)
Fixpoint backoff (k : nat) : nat := match k with O => O | S k' => (backoff k' + SleepWithBackoff k)%nat end.

(** The state before the request [i]: one sleep between two requests. *)
Definition before (i : nat) : poll := mk_poll i (S i) (backoff i).

Lemma sleep_before i : sleep (mk_poll (S i) (S i) (backoff i)) = before (S i).
Proof. done. Qed.

Lemma get_task_retry left i e : answers i = inl e → get_task (S (S left)) (before i) = get_task (S left) (before (S i)).
Proof. intros He. change (get_task (S (S left)) (before i)) with
  (match answers i with inr t => (inr t, mk_poll (S i) (S i) (backoff i)) | inl e => get_task (S left) (before (S i)) end). by rewrite He. Qed.

(** The inner loop ends at the first answer, or after [left] failures. *)
Lemma get_task_ok left i n t :
  (n < left)%nat → (∀ j, (i ≤ j < i + n)%nat → fails j) → answers (i + n)%nat = inr t →
  get_task left (before i) = (inr t, mk_poll (S (i + n)) (S (i + n)) (backoff (i + n))).
Proof.
  revert left i. induction n as [|n IH]; intros left i Hn Hf Ht.
  - rewrite Nat.add_0_r in *. destruct left; simpl; by rewrite Ht.
  - destruct (Hf i) as [e He]; [lia|]. destruct left as [|[|left]]; [lia|lia|]. rewrite (get_task_retry _ _ _ He).
    replace (i + S n)%nat with (S i + n)%nat in * by lia. apply IH; [lia| |done].
    intros j Hj. apply Hf. lia.
Qed.

Lemma get_task_failed left i :
  (∀ j, (i ≤ j ≤ i + left)%nat → fails j) → ∃ e, answers (i + left)%nat = inl e ∧
  get_task (S left) (before i) = (inl e, mk_poll (S (i + left)) (S (i + left)) (backoff (i + left))).
Proof.
  revert i. induction left as [|left IH]; intros i Hf; destruct (Hf i) as [e He]; try lia.
  - rewrite Nat.add_0_r. exists e. split; [done|]. simpl. by rewrite He.
  - destruct (IH (S i)) as (e' & He' & Hg); [intros j Hj; apply Hf; lia|]. replace (i + S left)%nat with (S i + left)%nat by lia. exists e'. split; [done|].
    by rewrite (get_task_retry _ _ _ He).
Qed.

(** Within a round of five attempts there is an answer, or there is none. *)
Lemma round_cases i m :
  (∃ n t, (n < m)%nat ∧ (∀ j, (i ≤ j < i + n)%nat → fails j) ∧ answers (i + n)%nat = inr t) ∨ (∀ j, (i ≤ j < i + m)%nat → fails j).
Proof.
  induction m as [|m IH]; [right; lia|]. destruct IH as [(n & t & ? & ? & ?)|Hf]; [left; exists n, t; split; [lia|done]|].
  destruct (answers (i + m)%nat) as [e|t] eqn:Ha.
  - right. intros j Hj. destruct (decide (j = i + m)%nat) as [->|]; [by eexists|]. apply Hf. lia.
  - left. exists m, t. split; [lia|done].
Qed.

(** A round starts at the beginning or after an answer. *)
Definition round_start (i : nat) : Prop := i = 0%nat ∨ ¬ fails (i - 1).

Lemma PollTask_go_spec k : first_decisive k → ∀ fuel i, round_start i → (i ≤ k)%nat → (k - i < fuel)%nat →
  PollTask_go fuel (before i) = Some (result_of (answers k), mk_poll (S k) (S k) (backoff k)).
Proof.
  intros [Hk Hfirst]. induction fuel as [|fuel IH]; intros i Hi Hik Hfuel; [lia|]. cbn [PollTask_go]. unfold maxGetTaskAttempts.
  destruct (round_cases i 5) as [(n & t & Hn & Hf & Ht)|Hf].
  - rewrite (get_task_ok 5 i n t Hn Hf Ht). destruct (contains [WAITING; RUNNING; CANCELING] (p_State t)) eqn:Hp.
    + rewrite sleep_before. assert (k ≠ i + n)%nat as Hne.
      { intros ->. destruct Hk as [(t' & Ht' & Hp')|[_ Hall]].
        - rewrite Ht in Ht'. simplify_eq. unfold in_progress in Hp'. congruence.
        - destruct (Hall (i + n)%nat) as [e He]; [lia|]. congruence. }
      assert (i + n < k)%nat as Hlt.
      { destruct (decide (i + n < k)%nat); [done|]. exfalso. destruct (Hf k) as [e He]; [lia|].
        destruct Hk as [(t' & Ht' & _)|[H4 Hall]]; [congruence|]. destruct Hi as [->|Hi]; [lia|]. apply Hi, Hall. lia. }
      apply IH; [right|lia|lia]. intros [e He]. replace (S (i + n) - 1)%nat with (i + n)%nat in He by lia. congruence.
    + assert (k = i + n)%nat as ->.
      { destruct (decide (i + n < k)%nat) as [Hlt|]; [exfalso; apply (Hfirst _ Hlt); left; by exists t|].
        destruct (decide (k = i + n)%nat); [done|]. exfalso. destruct (Hf k) as [e He]; [lia|].
        destruct Hk as [(t' & Ht' & _)|[H4 Hall]]; [congruence|]. destruct Hi as [->|Hi]; [lia|]. apply Hi, Hall. lia. }
      rewrite Ht. unfold result_of. case_bool_decide as Hfail; [rewrite Hfail; done|].
      by destruct (contains [COMPLETED; SKIPPED; CANCELED] (p_State t)).
  - destruct (get_task_failed 4 i) as (e & He & Hg); [intros j Hj; apply Hf; lia|]. rewrite Hg.
    assert (k = i + 4)%nat as ->; [|by rewrite He].
    destruct (decide (i + 4 < k)%nat) as [Hlt|].
    { exfalso. apply (Hfirst _ Hlt). right. split; [lia|]. intros j Hj. apply Hf. lia. }
    destruct (decide (k = i + 4)%nat); [done|]. exfalso. destruct (Hf k) as [e' He']; [lia|].
    destruct Hk as [(t' & Ht' & _)|[H4 Hall]]; [congruence|]. destruct Hi as [->|Hi]; [lia|]. apply Hi, Hall. lia.
Qed.

(** Without a decisive answer the loop goes on. *)
Lemma PollTask_go_forever : (∀ k, ¬ decisive k) → ∀ fuel i, round_start i → PollTask_go fuel (before i) = None.
Proof.
  intros Hnone. induction fuel as [|fuel IH]; intros i Hi; [done|]. cbn [PollTask_go]. unfold maxGetTaskAttempts.
  destruct (round_cases i 5) as [(n & t & Hn & Hf & Ht)|Hf].
  - rewrite (get_task_ok 5 i n t Hn Hf Ht). destruct (contains [WAITING; RUNNING; CANCELING] (p_State t)) eqn:Hp.
    + rewrite sleep_before. apply IH. right. intros [e He]. replace (S (i + n) - 1)%nat with (i + n)%nat in He by lia. congruence.
    + exfalso. apply (Hnone (i + n)%nat). left. by exists t.
  - exfalso. apply (Hnone (i + 4)%nat). right. split; [lia|]. intros j Hj. apply Hf. lia.
Qed.

(** [C38] Polling ends. Let the k-th answer be the first that says that the task has stopped, or the first that is the fifth
    failure in a row. With any fuel above k, [PollTask] returns, after exactly k + 1 requests and the sleeps of the back-off
    between them (at most 30 seconds each), and the result is that of the k-th answer: the task, the task with the error of
    Pulp, or the error of the request. If there is no such answer, it does not return. *)
Theorem poll_ends :
  (∀ k fuel, first_decisive k → (k < fuel)%nat →
     PollTask fuel = Some (result_of (answers k), mk_poll (S k) (S k) (backoff k)) ∧ (backoff k ≤ 30 * k)%nat) ∧
  ((∀ k, ¬ decisive k) → ∀ fuel, PollTask fuel = None).
Proof.
  split.
  - intros k fuel Hk Hfuel. split; [apply (PollTask_go_spec k Hk fuel 0); [by left|lia|lia]|]. clear Hk Hfuel.
    induction k as [|k IH]; [done|]. cbn [backoff]. assert (SleepWithBackoff (S k) ≤ 30)%nat; [|lia].
    unfold SleepWithBackoff. repeat case_match; lia.
  - intros Hnone fuel. apply (PollTask_go_forever Hnone fuel 0). by left.
Qed.
End Poll.

(** A task that is seen running, then two failures, then completed. *)
Definition ex_answers (i : nat) : string + PulpTask :=
  match i with
  | 0%nat => inr (mk_PulpTask "/task/" RUNNING None [])
  | 1%nat | 2%nat => inl "timeout"
  | _ => inr (mk_PulpTask "/task/" COMPLETED None ["/pulp/a/"])
  end.

Lemma poll_ends_witness :
  first_decisive ex_answers 3 ∧
  PollTask "domain" ex_answers 4 = Some (Polled (mk_PulpTask "/task/" COMPLETED None ["/pulp/a/"]), mk_poll 4 4 3).
Proof.
  assert (first_decisive ex_answers 3) as Hk.
  { split; [left; by eexists|]. intros j Hj [(t & Ht & Hp)|[H4 _]]; [|lia]. destruct j as [|[|[|j]]]; simplify_eq/=; lia || done. }
  split; [done|]. apply (proj1 (poll_ends "domain" ex_answers) 3%nat 4%nat Hk). lia.
Defined.
