(* ===== verification/SnapshotDao.v ===== *)
(** * dao/snapshots.go and dao/partner_visibility.go: the snapshots of repositories

    The tables [repository_configurations], [repositories] (of which only the columns used here), [snapshots],
    [templates] and [templates_repository_configurations], and the data access object of snapshots. An operation is a
    sequence of database calls of [TxMonad.v], each of which may fail. A row with a deletion time is hidden from the queries
    that are not [Unscoped].

    UUIDs are strings in Go and 128-bit values in the database: [UuidText] has the parsers of google/uuid and of Postgres
    and the printer; [UuidLaws] says that both parsers read what is printed. *)

From S2P Require Import Prelude GoStrings GoSplit Config TxMonad Utils Models Errors DaoHelpers.
From stdpp Require Import options.

Open Scope string_scope.

(** ** UUIDs as text *)

Class UuidText := { uuid_Parse : string → option uuid; pg_uuid : string → option uuid; uuid_String : uuid → string }.
Class UuidLaws `{UuidText} := {
  parse_String u : uuid_Parse (uuid_String u) = Some u;
  pg_String u : pg_uuid (uuid_String u) = Some u
}.

Abbreviation Uuidify := (UuidifyString uuid_Parse).

(** ** Tables *)

(** models.RepositoryConfiguration without its UUID. The columns that a user may change come first; of the texts, the empty
    one stands for null. *)
Record ConfigFields := mk_ConfigFields {
  cf_Name : string; cf_Versions : list string; cf_Arch : string; cf_GpgKey : string; cf_MetadataVerification : bool;
  cf_ModuleHotfixes : bool; cf_Snapshot : bool }.
Record ConfigRow := mk_ConfigRow {
  c_Fields : ConfigFields; c_Label : string; c_OrgID : string; c_AccountID : string; c_RepositoryUUID : uuid; c_Partner : bool;
  c_FeatureName : string; c_ExtendedRelease : string; c_ExtendedReleaseVersion : string; c_LastSnapshotUUID : option uuid;
  c_LastSnapshotTaskUUID : option uuid; c_FailedSnapshotCount : Z; c_DeletedAt : option time }.
Definition c_Name (c : ConfigRow) : string := c.(c_Fields).(cf_Name).
Definition c_Versions (c : ConfigRow) : list string := c.(c_Fields).(cf_Versions).
Definition c_Arch (c : ConfigRow) : string := c.(c_Fields).(cf_Arch).
Definition c_Snapshot (c : ConfigRow) : bool := c.(c_Fields).(cf_Snapshot).

(** The columns of [repositories]; those that introspection changes are the fields of [Models.Repository]. *)
Record RepositoryRow := mk_RepositoryRow {
  r_model : Repository; r_content_type : string; r_security_level : string; r_published_url : string; r_published_base_path : string }.
Definition r_url (r : RepositoryRow) : string := r.(r_model).(r_URL).
Definition r_origin (r : RepositoryRow) : string := r.(r_model).(r_Origin).
Definition r_public (r : RepositoryRow) : bool := r.(r_model).(r_Public).

(** models.Snapshot without its UUID. *)
Record SnapRow := mk_SnapRow {
  s_RepositoryConfigurationUUID : uuid; s_CreatedAt : time; s_DeletedAt : option time;
  s_VersionHref : string; s_PublicationHref : string; s_DistributionPath : string; s_RepositoryPath : string;
  s_DistributionHref : string; s_ContentCounts : gmap string Z; s_AddedCounts : gmap string Z;
  s_RemovedCounts : gmap string Z; s_DetectedOSVersion : string; s_Published : bool }.

Record TemplateRow := mk_TemplateRow {
  t_Name : string; t_OrgID : string; t_Description : string; t_Date : time; t_Version : string; t_Arch : string;
  t_ExtendedRelease : string; t_ExtendedReleaseVersion : string; t_DeletedAt : option time; t_CreatedBy : string;
  t_LastUpdatedBy : string; t_UseLatest : bool; t_RHSMEnvironmentCreated : bool;
  t_LastUpdateSnapshotError : option string; t_LastUpdateTaskUUID : option uuid }.

(** [distribution_href] may be null: the rows that were there when the column was added. *)
Record TrcRow := mk_TrcRow { x_SnapshotUUID : uuid; x_DistributionHref : option string; x_DeletedAt : option time }.

Record db := mk_db {
  configs : gmap uuid ConfigRow; repositories : gmap uuid RepositoryRow; snapshots : gmap uuid SnapRow;
  templates : gmap uuid TemplateRow; trcs : gmap (uuid * uuid) TrcRow }.

Definition set_configs (f : gmap uuid ConfigRow → gmap uuid ConfigRow) (d : db) : db :=
  mk_db (f d.(configs)) d.(repositories) d.(snapshots) d.(templates) d.(trcs).
Definition set_repositories (f : gmap uuid RepositoryRow → gmap uuid RepositoryRow) (d : db) : db :=
  mk_db d.(configs) (f d.(repositories)) d.(snapshots) d.(templates) d.(trcs).
Definition set_snapshots (f : gmap uuid SnapRow → gmap uuid SnapRow) (d : db) : db :=
  mk_db d.(configs) d.(repositories) (f d.(snapshots)) d.(templates) d.(trcs).
Definition set_templates (f : gmap uuid TemplateRow → gmap uuid TemplateRow) (d : db) : db :=
  mk_db d.(configs) d.(repositories) d.(snapshots) (f d.(templates)) d.(trcs).
Definition set_trcs (f : gmap (uuid * uuid) TrcRow → gmap (uuid * uuid) TrcRow) (d : db) : db :=
  mk_db d.(configs) d.(repositories) d.(snapshots) d.(templates) (f d.(trcs)).

Definition set_deleted (at_ : option time) (s : SnapRow) : SnapRow :=
  mk_SnapRow s.(s_RepositoryConfigurationUUID) s.(s_CreatedAt) at_ s.(s_VersionHref) s.(s_PublicationHref)
    s.(s_DistributionPath) s.(s_RepositoryPath) s.(s_DistributionHref) s.(s_ContentCounts) s.(s_AddedCounts)
    s.(s_RemovedCounts) s.(s_DetectedOSVersion) s.(s_Published).
Definition set_published (p : bool) (s : SnapRow) : SnapRow :=
  mk_SnapRow s.(s_RepositoryConfigurationUUID) s.(s_CreatedAt) s.(s_DeletedAt) s.(s_VersionHref) s.(s_PublicationHref)
    s.(s_DistributionPath) s.(s_RepositoryPath) s.(s_DistributionHref) s.(s_ContentCounts) s.(s_AddedCounts)
    s.(s_RemovedCounts) s.(s_DetectedOSVersion) p.
Definition set_os (v : string) (s : SnapRow) : SnapRow :=
  mk_SnapRow s.(s_RepositoryConfigurationUUID) s.(s_CreatedAt) s.(s_DeletedAt) s.(s_VersionHref) s.(s_PublicationHref)
    s.(s_DistributionPath) s.(s_RepositoryPath) s.(s_DistributionHref) s.(s_ContentCounts) s.(s_AddedCounts)
    s.(s_RemovedCounts) v s.(s_Published).
Definition set_last_snapshot (u : option uuid) (c : ConfigRow) : ConfigRow :=
  mk_ConfigRow c.(c_Fields) c.(c_Label) c.(c_OrgID) c.(c_AccountID) c.(c_RepositoryUUID) c.(c_Partner) c.(c_FeatureName)
    c.(c_ExtendedRelease) c.(c_ExtendedReleaseVersion) u c.(c_LastSnapshotTaskUUID) c.(c_FailedSnapshotCount) c.(c_DeletedAt).
Definition set_partner (p : bool) (c : ConfigRow) : ConfigRow :=
  mk_ConfigRow c.(c_Fields) c.(c_Label) c.(c_OrgID) c.(c_AccountID) c.(c_RepositoryUUID) p c.(c_FeatureName)
    c.(c_ExtendedRelease) c.(c_ExtendedReleaseVersion) c.(c_LastSnapshotUUID) c.(c_LastSnapshotTaskUUID) c.(c_FailedSnapshotCount) c.(c_DeletedAt).
Definition set_Public (p : bool) (r : Repository) : Repository :=
  mk_Repository r.(r_URL) r.(r_Origin) r.(r_LastIntrospectionStatus) r.(r_LastIntrospectionTime) r.(r_LastIntrospectionSuccessTime)
    r.(r_LastIntrospectionUpdateTime) r.(r_LastIntrospectionError) r.(r_RepomdChecksum) r.(r_PackageCount) r.(r_BuildCount)
    r.(r_VersionCount) r.(r_FailedIntrospectionsCount) p.
Definition set_public (p : bool) (r : RepositoryRow) : RepositoryRow :=
  mk_RepositoryRow (set_Public p r.(r_model)) r.(r_content_type) r.(r_security_level) r.(r_published_url) r.(r_published_base_path).

(** ** Errors *)

(** [gorm.ErrRecordNotFound], and [errors.Is] with it: the chain of unwrapped errors; the error a [DaoError] wraps is
    itself unwrapped. *)
Definition ErrRecordNotFound : goerr := ErrPlain "record not found".
Fixpoint is_record_not_found_go (skip : bool) (e : goerr) : bool :=
  match e with
  | ErrPlain m => negb skip && (m == "record not found")
  | ErrWrapped _ e' => is_record_not_found_go false e'
  | DaoError (Some e') _ _ _ _ _ => is_record_not_found_go true e'
  | DaoError None _ _ _ _ _ => false
  end.
Definition is_record_not_found (e : goerr) : bool := is_record_not_found_go false e.

Definition SnapshotsDBToApiError (e : goerr) (uuid : option string) : goerr :=
  let daoError :=
    if is_record_not_found e
    then DaoError None (match uuid with Some u => "Snapshot with UUID " +:+ u +:+ " not found" | None => "Snapshot not found" end)
           true false false false
    else DaoError None (Error e) (HttpCodeForDaoError (Some e) =? 404)%Z false false false in
  Wrap daoError e.

Abbreviation DB := (M db goerr).

Definition invalid_uuid (s : string) : goerr := ErrPlain ("invalid input syntax for type uuid: " +:+ s).

(** ** Queries *)

(** The first of the best elements of a list, [lt x y] meaning that [x] is better than [y]. *)
Definition best {A} (lt : A → A → bool) (l : list A) : option A :=
  foldl (λ cur x, match cur with Some y => if lt x y then Some x else Some y | None => Some x end) None l.

Definition is_live (s : SnapRow) : bool := match s.(s_DeletedAt) with None => true | Some _ => false end.

Section Dao.
Context `{UuidText}.

(** The order in which Postgres visits the rows of a query without (or with an ambiguous) [ORDER BY]. *)
Context (scan : gmap uuid SnapRow → list (uuid * SnapRow)).

(** *** partner_visibility.go *)

Definition published_of (d : db) (rc : uuid) : list (uuid * SnapRow) :=
  base.filter (λ us, us.2.(s_RepositoryConfigurationUUID) = rc ∧ us.2.(s_Published) = true ∧ us.2.(s_DeletedAt) = None)
    (map_to_list d.(snapshots)).

(** [foreignPartnerVisibleSQL] of a row of [repository_configurations]. *)
Definition foreign_partner_visible (d : db) (viewerOrgID : string) (rc : uuid) (c : ConfigRow) : bool :=
  c.(c_Partner) && (c.(c_OrgID) != viewerOrgID) && (0 <? length (published_of d rc))%nat.

(** [readableSnapshotOrgFilterSQL], and the same condition in [readableSnapshots]. *)
Definition readable_snapshot (orgIDs : list string) (viewerOrgID : string) (c : ConfigRow) (s : SnapRow) : bool :=
  contains orgIDs c.(c_OrgID) || (c.(c_Partner) && (c.(c_OrgID) != viewerOrgID) && s.(s_Published)).

Definition IsForeignPartnerView (c : ConfigRow) (viewerOrgID : string) : bool := c.(c_Partner) && (c.(c_OrgID) != viewerOrgID).

Definition HasPublishedSnapshot (repoConfigUUID : string) : DB bool :=
  db_call (λ d, match pg_uuid repoConfigUUID with
                | Some rc => (inr (0 <? length (published_of d rc))%nat, d)
                | None => (inl (invalid_uuid repoConfigUUID), d)
                end).

Definition shared_orgs (orgID : string) : list string := [orgID; RedHatOrg; CommunityOrg].

(** *** Rows by UUID *)

(** [Unscoped().Where("uuid = ?", s).First(&snap)]; with [scoped], without the deleted rows. *)
Definition first_snapshot (scoped : bool) (parsed : option uuid) (raw : string) : DB (uuid * SnapRow) :=
  db_call (λ d, match parsed with
                | None => (inl (invalid_uuid raw), d)
                | Some u => match d.(snapshots) !! u with
                            | Some s => if scoped && negb (is_live s) then (inl ErrRecordNotFound, d) else (inr (u, s), d)
                            | None => (inl ErrRecordNotFound, d)
                            end
                end).

(** [fetch], with its repository configuration. Preloading leaves a deleted configuration out: [None] is the zero struct. *)
Definition zero_config : ConfigRow := mk_ConfigRow (mk_ConfigFields "" [] "" "" false false false) "" "" "" uuid_Nil false "" "" "" None None 0 None.
Definition config_live (c : ConfigRow) : bool := match c.(c_DeletedAt) with None => true | Some _ => false end.
Definition preload_config (d : db) (s : SnapRow) : option ConfigRow :=
  c ← d.(configs) !! s.(s_RepositoryConfigurationUUID); if config_live c then Some c else None.

Definition preload (us : uuid * SnapRow) : DB (option ConfigRow) := db_call (λ d, (inr (preload_config d us.2), d)).

Definition fetch (uuid_ : string) : DB (uuid * SnapRow * option ConfigRow) :=
  map_err (λ e, SnapshotsDBToApiError e (Some uuid_))
    (us ← first_snapshot true (Some (Uuidify uuid_)) uuid_; c ← preload us; mret (us, c)).

Definition FetchModel (uuid_ : string) (includeSoftDel : bool) : DB (uuid * SnapRow) :=
  map_err (λ e, SnapshotsDBToApiError e (Some uuid_)) (first_snapshot (negb includeSoftDel) (pg_uuid uuid_) uuid_).

Definition denyUnpublishedForeignPartnerAccess (viewerOrgID : string) (u : uuid) (s : SnapRow) (c : option ConfigRow) :
    option goerr :=
  if IsForeignPartnerView (default zero_config c) viewerOrgID && negb s.(s_Published)
  then Some (SnapshotsDBToApiError ErrRecordNotFound (Some (uuid_String u)))
  else None.

(** api.SnapshotResponse; the UUID of the repository is empty when its configuration is not loaded. *)
Record SnapshotResponse := mk_SnapshotResponse {
  sr_UUID : uuid; sr_CreatedAt : time; sr_RepositoryPath : string; sr_ContentCounts : gmap string Z;
  sr_AddedCounts : gmap string Z; sr_RemovedCounts : gmap string Z; sr_URL : string; sr_RepositoryName : string; sr_RepositoryUUID : option uuid;
  sr_DetectedOSVersion : string; sr_Published : bool; sr_PublicationHref : string }.

Definition SnapshotModelToApi (us : uuid * SnapRow) (c : option ConfigRow) : SnapshotResponse :=
  let '(u, s) := us in
  mk_SnapshotResponse u s.(s_CreatedAt) s.(s_RepositoryPath) s.(s_ContentCounts) s.(s_AddedCounts) s.(s_RemovedCounts) ""
    (c_Name (default zero_config c)) (match c with Some _ => Some s.(s_RepositoryConfigurationUUID) | None => None end)
    s.(s_DetectedOSVersion) s.(s_Published) s.(s_PublicationHref).

Definition pulpContentURL (pulpContentPath repositoryPath : string) : string := pulpContentPath +:+ repositoryPath +:+ "/".

Definition set_URL (url : string) (r : SnapshotResponse) : SnapshotResponse :=
  mk_SnapshotResponse r.(sr_UUID) r.(sr_CreatedAt) r.(sr_RepositoryPath) r.(sr_ContentCounts) r.(sr_AddedCounts)
    r.(sr_RemovedCounts) url r.(sr_RepositoryName) r.(sr_RepositoryUUID) r.(sr_DetectedOSVersion) r.(sr_Published) r.(sr_PublicationHref).

Definition snapshotConvertToResponses (snaps : list (uuid * SnapRow * option ConfigRow)) (pulpContentPath : string) :
    list SnapshotResponse :=
  (λ '(us, c), set_URL (pulpContentURL pulpContentPath us.2.(s_RepositoryPath)) (SnapshotModelToApi us c)) <$> snaps.

Definition Fetch (orgID uuid_ : string) : DB SnapshotResponse :=
  '(us, c) ← fetch uuid_;
  match denyUnpublishedForeignPartnerAccess orgID us.1 us.2 c with
  | Some e => throw e
  | None => mret (SnapshotModelToApi us c)
  end.

(** *** Create *)

(** The insertion fails when the primary key or the distribution path is taken, or the configuration is missing. *)
Definition insert_snapshot (u : uuid) (s : SnapRow) : DB () :=
  db_call (λ d,
    if bool_decide (is_Some (d.(snapshots) !! u)) ||
       existsb (λ us, us.2.(s_DistributionPath) == s.(s_DistributionPath)) (map_to_list d.(snapshots))
    then (inl (ErrPlain "duplicate key value violates unique constraint"), d)
    else if bool_decide (d.(configs) !! s.(s_RepositoryConfigurationUUID) = None)
    then (inl (ErrPlain "violates foreign key constraint"), d)
    else (inr (), set_snapshots <[u := s]> d)).

Definition update_last_snapshot (rc : uuid) (u : uuid) : DB () :=
  db_call (λ d, (inr (), set_configs (alter (set_last_snapshot (Some u)) rc) d)).

(** [u] is the UUID drawn by [BeforeCreate]. *)
Definition Create (u : uuid) (s : SnapRow) : DB uuid :=
  _ ← insert_snapshot u s;
  _ ← update_last_snapshot s.(s_RepositoryConfigurationUUID) u;
  mret u.

(** *** Deletion *)

Definition soft_delete (now : time) (u : uuid) : DB () :=
  db_call (λ d, (inr (), set_snapshots (alter (λ s, if is_live s then set_deleted (Some now) s else s) u) d)).

Definition SoftDelete (now : time) (snapUUID : string) : DB () :=
  '(u, s) ← map_err (λ e, SnapshotsDBToApiError e (Some snapUUID)) (first_snapshot false (pg_uuid snapUUID) snapUUID);
  if is_live s then soft_delete now u else mret ().

(** A snapshot a template refers to cannot be removed ([ON DELETE RESTRICT]); [last_snapshot_uuid] is set to null. *)
Definition hard_delete (u : uuid) : DB () :=
  db_call (λ d,
    if existsb (λ kx, kx.2.(x_SnapshotUUID) == u) (map_to_list d.(trcs))
    then (inl (ErrPlain "update or delete on table snapshots violates foreign key constraint"), d)
    else (inr (), set_configs (fmap (λ c, if bool_decide (c.(c_LastSnapshotUUID) = Some u) then set_last_snapshot None c else c))
                    (set_snapshots (delete u) d))).

Definition Delete (snapUUID : string) : DB () :=
  '(u, _) ← map_err (λ e, SnapshotsDBToApiError e (Some snapUUID)) (first_snapshot false (pg_uuid snapUUID) snapUUID);
  hard_delete u.

Definition ClearDeletedAt (snapUUID : string) : DB () :=
  '(u, _) ← map_err (λ e, SnapshotsDBToApiError e (Some snapUUID)) (first_snapshot false (pg_uuid snapUUID) snapUUID);
  db_call (λ d, (inr (), set_snapshots (alter (set_deleted None) u) d)).

(** A read outside of the transaction, in the committed state [d0]. *)
Definition read_at {A} (d0 : db) (m : DB A) : DB A := λ '(fs, d), let '(r, (fs', _)) := m (fs, d0) in (r, (fs', d)).

(** The loop of [bulkDelete]: the snapshot is looked up outside of the transaction; after an error the changes since the
    savepoint are undone. [errs] has an entry per UUID. *)
Fixpoint bulkDelete (now : time) (d0 : db) (uuids : list string) : DB (list (option goerr)) :=
  match uuids with
  | [] => mret []
  | uuid_ :: uuids' => λ w,
      match (us ← read_at d0 (fetch uuid_); soft_delete now us.1.1) w with
      | (inr _, w') => (errs ← bulkDelete now d0 uuids'; mret (None :: errs)) w'
      | (inl e, (fs', _)) => (errs ← bulkDelete now d0 uuids'; mret (Some e :: errs)) (fs', d0)
      end
  end.

Definition has_error (errs : list (option goerr)) : bool := existsb (λ e, match e with Some _ => true | None => false end) errs.

(** The error of the transaction itself is dropped. *)
Definition BulkDelete (now : time) (uuids : list string) : DB (list (option goerr)) := λ '(fs, d0),
  match db_noop (fs, d0) with
  | (inl _, w) => (inr [], w)
  | (inr _, w) =>
      match bulkDelete now d0 uuids w with
      | (inl e, (fs', _)) => (inl e, (fs', d0))
      | (inr errs, (fs', d')) =>
          if has_error errs then let '(_, (fs'', _)) := db_noop (fs', d') in (inr errs, (fs'', d0))
          else match db_noop (fs', d') with
               | (inl _, (fs'', _)) => (inr [], (fs'', d0))
               | (inr _, w'') => (inr [], w'')
               end
      end
  end.

(** *** The latest snapshot *)

(** [Order("created_at DESC").First]: the primary key decides between equal times. *)
Definition newer (x y : uuid * SnapRow) : bool :=
  (y.2.(s_CreatedAt) <? x.2.(s_CreatedAt))%Z || ((x.2.(s_CreatedAt) =? y.2.(s_CreatedAt))%Z && (x.1 <? y.1)%N).

Definition live_of (d : db) (rc : uuid) : list (uuid * SnapRow) :=
  base.filter (λ us, us.2.(s_RepositoryConfigurationUUID) = rc ∧ us.2.(s_DeletedAt) = None) (map_to_list d.(snapshots)).

Definition or_not_found {A} (o : option A) : goerr + A := match o with Some a => inr a | None => inl ErrRecordNotFound end.

Definition FetchLatestSnapshotModel (repoConfigUUID : string) : DB (uuid * SnapRow) :=
  db_call (λ d, (or_not_found (best newer (live_of d (Uuidify repoConfigUUID))), d)).

Definition FetchLatestPublishedSnapshotModel (repoConfigUUID : string) : DB (uuid * SnapRow) :=
  db_call (λ d, (or_not_found (best newer (published_of d (Uuidify repoConfigUUID))), d)).

Definition FetchLatestSnapshotForDistribution (repoConfigUUID : string) : DB (uuid * SnapRow) :=
  partner ← db_call (λ d, match d.(configs) !! Uuidify repoConfigUUID with
                          | Some c => if config_live c then (inr c.(c_Partner), d) else (inl ErrRecordNotFound, d)
                          | None => (inl ErrRecordNotFound, d)
                          end);
  if (partner : bool) then FetchLatestPublishedSnapshotModel repoConfigUUID
  else FetchLatestSnapshotModel repoConfigUUID.

Definition FetchLatestSnapshot (repoConfigUUID : string) : DB SnapshotResponse :=
  us ← FetchLatestSnapshotForDistribution repoConfigUUID;
  c ← preload us;
  mret (SnapshotModelToApi us c).

Definition FetchSnapshotByVersionHref (repoConfigUUID versionHref : string) : DB (option SnapshotResponse) :=
  db_call (λ d, match pg_uuid repoConfigUUID with
                | None => (inl (invalid_uuid repoConfigUUID), d)
                | Some rc =>
                    let rows := base.filter (λ us, us.2.(s_RepositoryConfigurationUUID) = rc ∧
                                  us.2.(s_VersionHref) = versionHref ∧ us.2.(s_DeletedAt) = None) (scan d.(snapshots)) in
                    let us := best (λ x y, (y.2.(s_CreatedAt) <? x.2.(s_CreatedAt))%Z) rows in
                    (inr ((λ us, SnapshotModelToApi us (preload_config d us.2)) <$> us), d)
                end).

(** Without the deleted rows, the error of the query is dropped: the session it was started from does not get it. *)
Definition FetchForRepoConfigUUID (repoConfigUUID : string) (inclSoftDel : bool) : DB (list (uuid * SnapRow)) :=
  let query := db_call (λ d, match pg_uuid repoConfigUUID with
                 | None => (inl (invalid_uuid repoConfigUUID), d)
                 | Some rc => (inr (base.filter (λ us, us.2.(s_RepositoryConfigurationUUID) = rc ∧
                                     (inclSoftDel = true ∨ us.2.(s_DeletedAt) = None)) (scan d.(snapshots))), d)
                 end) in
  if inclSoftDel then query
  else λ w, match query w with (inl _, w') => (inr [], w') | r => r end.

(** *** Publication *)

Definition update_public (rc : uuid) : DB () :=
  db_call (λ d, (inr (), match d.(configs) !! rc with
                         | Some c => set_repositories (alter (set_public (0 <? length (published_of d rc))%nat) c.(c_RepositoryUUID)) d
                         | None => d
                         end)).

Definition UpdatePublishedStatus (orgID : string) (published : bool) (repoConfigUUID snapshotUUID : string) : DB SnapshotResponse :=
  '(us, c) ← transaction id id (λ _ e, e)
    ('(u, s) ← map_err (λ e, SnapshotsDBToApiError e (Some snapshotUUID)) (first_snapshot true (pg_uuid snapshotUUID) snapshotUUID);
     o ← preload (u, s);
     let c := default zero_config o in
     if uuid_String s.(s_RepositoryConfigurationUUID) != repoConfigUUID
     then throw (SnapshotsDBToApiError ErrRecordNotFound (Some snapshotUUID))
     else if c.(c_OrgID) != orgID
     then throw (DaoError None "Cannot (un)publish snapshots for repositories outside your organization." false false false true)
     else if negb c.(c_Partner)
     then throw (DaoError None "Cannot (un)publish snapshots of non-partner repositories." false true false false)
     else
       _ ← map_err (λ e, SnapshotsDBToApiError e (Some snapshotUUID))
             (db_call (λ d, (inr (), set_snapshots (alter (set_published published) u) d)));
       _ ← update_public s.(s_RepositoryConfigurationUUID);
       mret ((u, set_published published s), o));
  mret (SnapshotModelToApi us c).

(** repository_configs.go *)
Definition SetPartnerRepo (repoConfigUUID : string) (partner : bool) (to_api : goerr → goerr) : DB () :=
  '(rc, c) ← map_err to_api
    (db_call (λ d, match pg_uuid repoConfigUUID with
                   | None => (inl (invalid_uuid repoConfigUUID), d)
                   | Some rc => match d.(configs) !! rc with
                                | Some c => if config_live c then (inr (rc, c), d) else (inl ErrRecordNotFound, d)
                                | None => (inl ErrRecordNotFound, d)
                                end
                   end));
  origin ← db_call (λ d, (inr (match d.(repositories) !! c.(c_RepositoryUUID) with Some r => (r_origin r) | None => "" end), d));
  if origin != OriginUpload then throw (DaoError None "Only upload repositories can be marked as partner" false true false false)
  else
    hasPublished ← (if partner then mret false else HasPublishedSnapshot repoConfigUUID);
    if (hasPublished : bool)
    then throw (DaoError None "Cannot unmark partner while published snapshots exist; unpublish all snapshots first" false true false false)
    else db_call (λ d, (inr (), set_configs (alter (set_partner partner) rc) d)).

(** *** By date *)

Definition trunc_second (t : time) : time := (t / Second * Second)%Z.

(** [SELECT DISTINCT ON (repository_configuration_uuid) ... ORDER BY repository_configuration_uuid, ...]: the best row of
    every repository. *)
Definition distinct_on (lt : uuid * SnapRow → uuid * SnapRow → bool) (rows : list (uuid * SnapRow)) : list (uuid * SnapRow) :=
  omap (λ rc, best lt (base.filter (λ us, us.2.(s_RepositoryConfigurationUUID) = rc) rows))
    (remove_dups ((λ us, us.2.(s_RepositoryConfigurationUUID)) <$> rows)).

Definition later (x y : uuid * SnapRow) : bool := (y.2.(s_CreatedAt) <? x.2.(s_CreatedAt))%Z.
Definition earlier (x y : uuid * SnapRow) : bool := (x.2.(s_CreatedAt) <? y.2.(s_CreatedAt))%Z.

(** The join with [repository_configurations] and the condition on its row. *)
Definition row_readable (d : db) (orgID : string) (s : SnapRow) : bool :=
  match d.(configs) !! s.(s_RepositoryConfigurationUUID) with
  | Some c => readable_snapshot (shared_orgs orgID) orgID c s
  | None => false
  end.

(** The rows both halves of the query select from. *)
Definition date_candidates (d : db) (orgID : string) (repos : list uuid) : list (uuid * SnapRow) :=
  base.filter (λ us, us.2.(s_RepositoryConfigurationUUID) ∈ repos ∧ us.2.(s_DeletedAt) = None ∧
    row_readable d orgID us.2 = true) (scan d.(snapshots)).

(** The query as it is written: the last one up to the date and the first one after it, per repository; of these the
    older one. *)
Definition snapshots_by_date (d : db) (orgID : string) (repos : list uuid) (date : time) : list (uuid * SnapRow) :=
  let rows := date_candidates d orgID repos in
  let date := trunc_second date in
  let before := distinct_on later (base.filter (λ us, (trunc_second us.2.(s_CreatedAt) ≤ date)%Z) rows) in
  let after := distinct_on earlier (base.filter (λ us, (date < trunc_second us.2.(s_CreatedAt))%Z) rows) in
  let ids := ((fst <$> before) ++ (fst <$> after))%list in
  let combined := fst <$> distinct_on earlier (base.filter (λ us, us.1 ∈ ids) (scan d.(snapshots))) in
  base.filter (λ us, us.1 ∈ combined ∧ us.2.(s_DeletedAt) = None) (scan d.(snapshots)).

Definition FetchSnapshotsModelByDateAndRepository (orgID : string) (repositoryUUIDS : list string) (date : time) :
    DB (list (uuid * SnapRow)) :=
  map_err (ErrWrapped "could not query snapshots for date")
    (db_call (λ d, (inr (snapshots_by_date d orgID (Uuidify <$> repositoryUUIDS) date), d))).

Record SnapshotForDate := mk_SnapshotForDate {
  sd_RepositoryUUID : string; sd_IsAfter : bool; sd_Match : option SnapshotResponse }.

Definition Day : time := (86400 * Second)%Z.

(** Midnight after the day of the request, in UTC: the calendar day is taken in the zone of the request, [offset] east of
    Greenwich. *)
Definition end_of_day (date offset : time) : time := ((date + offset) / Day * Day + Day)%Z.

Definition config_readable (d : db) (orgID : string) (rc : uuid) (c : ConfigRow) : bool :=
  config_live c && (contains (shared_orgs orgID) c.(c_OrgID) || foreign_partner_visible d orgID rc c).

(** [content_path] is the answer of Pulp. *)
Definition FetchSnapshotsByDateAndRepository (content_path : goerr + string) (orgID : string)
    (repositoryUUIDS : list string) (date offset : time) : DB (list SnapshotForDate) :=
  count ← map_err (ErrWrapped "could not query repository UUIDs")
    (db_call (λ d, (inr (length (base.filter (λ kc, kc.1 ∈ Uuidify <$> repositoryUUIDS ∧
                                   config_readable d orgID kc.1 kc.2 = true) (map_to_list d.(configs)))), d)));
  if count != length repositoryUUIDS
  then throw (DaoError None "One or more repository UUIDs was invalid." true false false false)
  else
    snaps ← FetchSnapshotsModelByDateAndRepository orgID repositoryUUIDS date;
    match content_path with
    | inl e => throw e
    | inr pulpContentPath =>
        mret ((λ u,
          match list_find (λ us, uuid_String us.2.(s_RepositoryConfigurationUUID) = u) snaps with
          | Some (_, us) =>
              mk_SnapshotForDate u (end_of_day date offset <? us.2.(s_CreatedAt))%Z
                (Some (set_URL (pulpContentURL pulpContentPath us.2.(s_RepositoryPath)) (SnapshotModelToApi us None)))
          | None => mk_SnapshotForDate u false None
          end) <$> repositoryUUIDS)
    end.
End Dao.
