(* ===== verification/SnapshotThms.v ===== *)
(** * What the snapshot queries return

    The selection of snapshots by date against its specification, the latest snapshot, and the lemmas on queries the
    other files share. *)

From S2P Require Import Prelude GoStrings GoSplit Config TxMonad Utils Models Errors DaoHelpers GoText SnapshotDao.
From stdpp Require Import options.

Open Scope string_scope.

(** ** The best row *)

Section Best.
Context {A : Type} (lt : A → A → bool).
Hypothesis lt_irrefl : ∀ x, lt x x = false.
Hypothesis lt_trans : ∀ x y z, lt x y = true → lt y z = true → lt x z = true.

Let step := λ (cur : option A) (x : A), match cur with Some y => if lt x y then Some x else Some y | None => Some x end.

Lemma best_fold (l done_ : list A) cur :
  (∀ y, y ∈ done_ → ∃ r, cur = Some r) → (∀ r, cur = Some r → r ∈ done_ ∧ ∀ y, y ∈ done_ → lt y r = false) →
  (∀ y, y ∈ (done_ ++ l)%list → ∃ r, foldl step cur l = Some r) ∧
  (∀ r, foldl step cur l = Some r → r ∈ (done_ ++ l)%list ∧ ∀ y, y ∈ (done_ ++ l)%list → lt y r = false).
Proof using lt_irrefl lt_trans.
  revert done_ cur. induction l as [|x l IH]; intros done_ cur Hsome Hcur; simpl.
  { by rewrite app_nil_r. }
  assert (done_ ++ x :: l = (done_ ++ [x]) ++ l)%list as -> by by rewrite <-app_assoc.
  apply IH.
  - intros y _. unfold step. destruct cur; [destruct (lt x _)|]; eauto.
  - intros r Hr. unfold step in Hr. destruct cur as [c|].
    + destruct (Hcur c eq_refl) as [Hc Hmax]. destruct (lt x c) eqn:Hx; simplify_eq.
      * split; [apply elem_of_app; right; by left|]. intros y [Hy| ->%list_elem_of_singleton]%elem_of_app; [|done].
        destruct (lt y r) eqn:Hyr; [|done]. specialize (Hmax y Hy). by rewrite (lt_trans _ _ _ Hyr Hx) in Hmax.
      * split; [apply elem_of_app; by left|]. intros y [Hy| ->%list_elem_of_singleton]%elem_of_app; auto.
    + simplify_eq. split; [apply elem_of_app; right; by left|].
      intros y [Hy| ->%list_elem_of_singleton]%elem_of_app; [|done]. destruct (Hsome y Hy) as [? [=]].
Qed.

Lemma best_some l r : best lt l = Some r → r ∈ l ∧ ∀ y, y ∈ l → lt y r = false.
Proof using lt_irrefl lt_trans.
  intros H. destruct (best_fold l [] None) as [_ Hb]; [by intros ? ?%not_elem_of_nil|done|]. by apply Hb.
Qed.

Lemma best_defined l y : y ∈ l → ∃ r, best lt l = Some r.
Proof using lt_irrefl lt_trans.
  intros H. destruct (best_fold l [] None) as [Hb _]; [by intros ? ?%not_elem_of_nil|done|]. by apply (Hb y).
Qed.
End Best.

Lemma later_irrefl x : later x x = false. Proof. apply Z.ltb_irrefl. Qed.
Lemma later_trans x y z : later x y = true → later y z = true → later x z = true.
Proof. unfold later. rewrite !Z.ltb_lt. lia. Qed.
Lemma earlier_irrefl x : earlier x x = false. Proof. apply Z.ltb_irrefl. Qed.
Lemma earlier_trans x y z : earlier x y = true → earlier y z = true → earlier x z = true.
Proof. unfold earlier. rewrite !Z.ltb_lt. lia. Qed.
Lemma newer_irrefl x : newer x x = false.
Proof. unfold newer. by rewrite Z.ltb_irrefl, N.ltb_irrefl, andb_false_r. Qed.
Lemma newer_trans x y z : newer x y = true → newer y z = true → newer x z = true.
Proof. unfold newer. rewrite !orb_true_iff, !andb_true_iff, !Z.ltb_lt, !Z.eqb_eq, !N.ltb_lt. lia. Qed.
#[export] Hint Resolve later_irrefl later_trans earlier_irrefl earlier_trans newer_irrefl newer_trans : go.

Abbreviation repo_of := (λ us : uuid * SnapRow, us.2.(s_RepositoryConfigurationUUID)).

(** [DISTINCT ON]: one row per repository, and no row of the repository is better. *)
Lemma distinct_on_elem lt rows us :
  (∀ x, lt x x = false) → (∀ x y z, lt x y = true → lt y z = true → lt x z = true) →
  us ∈ distinct_on lt rows → us ∈ rows ∧ best lt (base.filter (λ y, repo_of y = repo_of us) rows) = Some us ∧
    ∀ y, y ∈ rows → repo_of y = repo_of us → lt y us = false.
Proof.
  intros Hirr Htr. unfold distinct_on. rewrite list_elem_of_omap. intros (rc & Hrc & Hb).
  pose proof Hb as Hb'. apply best_some in Hb' as [[Hus Hin]%list_elem_of_filter Hmax]; [|done..]. subst rc.
  split; [done|]. split; [done|]. intros y Hy Hr. apply Hmax. by apply list_elem_of_filter.
Qed.

Lemma distinct_on_exists lt rows y :
  (∀ x, lt x x = false) → (∀ x y z, lt x y = true → lt y z = true → lt x z = true) →
  y ∈ rows → ∃ us, us ∈ distinct_on lt rows ∧ repo_of us = repo_of y.
Proof.
  intros Hirr Htr Hy. destruct (best_defined lt Hirr Htr (base.filter (λ z, repo_of z = repo_of y) rows) y) as [us Hus].
  { by apply list_elem_of_filter. }
  exists us. split.
  - apply list_elem_of_omap. exists (repo_of y). split; [|done]. apply elem_of_remove_dups, list_elem_of_fmap. eauto.
  - by apply best_some in Hus as [[? _]%list_elem_of_filter _].
Qed.

Lemma distinct_on_unique lt rows us us' :
  (∀ x, lt x x = false) → (∀ x y z, lt x y = true → lt y z = true → lt x z = true) →
  us ∈ distinct_on lt rows → us' ∈ distinct_on lt rows → repo_of us = repo_of us' → us = us'.
Proof.
  intros Hirr Htr Hu Hu' Hr. apply distinct_on_elem in Hu as (_ & Hb & _), Hu' as (_ & Hb' & _); [|done..].
  rewrite Hr in Hb. congruence.
Qed.

(** ** Selection by date *)

Section ByDate.
Context (scan : gmap uuid SnapRow → list (uuid * SnapRow)).
Hypothesis scan_perm : ∀ m, scan m ≡ₚ map_to_list m.
#[local] Set Default Proof Using "Type*".

Lemma elem_of_scan m u s : (u, s) ∈ scan m ↔ m !! u = Some s.
Proof. by rewrite scan_perm, elem_of_map_to_list. Qed.

(** A snapshot the query may choose. *)
Definition candidate (d : db) (orgID : string) (repos : list uuid) (us : uuid * SnapRow) : Prop :=
  d.(snapshots) !! us.1 = Some us.2 ∧ us.2.(s_RepositoryConfigurationUUID) ∈ repos ∧ us.2.(s_DeletedAt) = None ∧
  row_readable d orgID us.2 = true.

Lemma elem_of_date_candidates d orgID repos us :
  us ∈ date_candidates scan d orgID repos ↔ candidate d orgID repos us.
Proof. unfold date_candidates, candidate. rewrite list_elem_of_filter. destruct us as [u s]. rewrite elem_of_scan. naive_solver. Qed.

(** Up to the date, by whole seconds. *)
Definition up_to (date : time) (us : uuid * SnapRow) : Prop := (trunc_second us.2.(s_CreatedAt) ≤ trunc_second date)%Z.

(** The specification: of the candidates of its repository, the snapshot is the last one up to the date, or the first of
    all if none is up to the date. *)
Definition nearest (cand : uuid * SnapRow → Prop) (date : time) (us : uuid * SnapRow) : Prop :=
  cand us ∧
  ((up_to date us ∧ ∀ y, cand y → repo_of y = repo_of us → up_to date y → (s_CreatedAt y.2 ≤ s_CreatedAt us.2)%Z) ∨
   (∀ y, cand y → repo_of y = repo_of us → ¬ up_to date y ∧ (s_CreatedAt us.2 ≤ s_CreatedAt y.2)%Z)).

Lemma trunc_mono t t' : (t ≤ t')%Z → (trunc_second t ≤ trunc_second t')%Z.
Proof. unfold trunc_second, Second. intros. nia || (apply Z.mul_le_mono_nonneg_r; [lia|]; apply Z.div_le_mono; lia). Qed.

Section Query.
Context (d : db) (orgID : string) (repos : list uuid) (date : time).
Let rows := date_candidates scan d orgID repos.
Let before := distinct_on later (base.filter (λ us, (trunc_second us.2.(s_CreatedAt) ≤ trunc_second date)%Z) rows).
Let after := distinct_on earlier (base.filter (λ us, (trunc_second date < trunc_second us.2.(s_CreatedAt))%Z) rows).

Lemma elem_of_before us : us ∈ before →
  candidate d orgID repos us ∧ up_to date us ∧
  ∀ y, candidate d orgID repos y → repo_of y = repo_of us → up_to date y → (s_CreatedAt y.2 ≤ s_CreatedAt us.2)%Z.
Proof.
  intros H. apply distinct_on_elem in H as (Hin & _ & Hmax); [|eauto with go..].
  apply list_elem_of_filter in Hin as [Hd Hin]. rewrite <-elem_of_date_candidates. split; [done|]. split; [done|].
  intros y Hy Hr Hup. specialize (Hmax y). unfold later in Hmax. rewrite Z.ltb_ge in Hmax. apply Hmax; [|done].
  apply list_elem_of_filter. split; [done|]. by apply elem_of_date_candidates.
Qed.

Lemma elem_of_after us : us ∈ after →
  candidate d orgID repos us ∧ ¬ up_to date us ∧
  ∀ y, candidate d orgID repos y → repo_of y = repo_of us → ¬ up_to date y → (s_CreatedAt us.2 ≤ s_CreatedAt y.2)%Z.
Proof.
  intros H. apply distinct_on_elem in H as (Hin & _ & Hmax); [|eauto with go..].
  apply list_elem_of_filter in Hin as [Hd Hin]. rewrite <-elem_of_date_candidates. unfold up_to in *.
  split; [done|]. split; [lia|].
  intros y Hy Hr Hup. specialize (Hmax y). unfold earlier in Hmax. rewrite Z.ltb_ge in Hmax. apply Hmax; [|done].
  apply list_elem_of_filter. split; [lia|]. by apply elem_of_date_candidates.
Qed.

(** Every candidate has one of its repository in the two halves, in the half it belongs to. *)
Lemma halves_cover y : candidate d orgID repos y →
  ∃ us, repo_of us = repo_of y ∧ (up_to date y → us ∈ before) ∧ (¬ up_to date y → us ∈ after).
Proof.
  intros Hy. apply elem_of_date_candidates in Hy.
  destruct (decide (trunc_second y.2.(s_CreatedAt) ≤ trunc_second date)%Z) as [Hup|Hup].
  - destruct (distinct_on_exists later (base.filter (λ us, (trunc_second us.2.(s_CreatedAt) ≤ trunc_second date)%Z) rows) y)
      as (us & Hus & Hr); [eauto with go..|by apply list_elem_of_filter|]. exists us. done.
  - destruct (distinct_on_exists earlier (base.filter (λ us, (trunc_second date < trunc_second us.2.(s_CreatedAt))%Z) rows) y)
      as (us & Hus & Hr); [eauto with go..|apply list_elem_of_filter; split; [lia|done]|]. exists us. done.
Qed.

Lemma in_ids us : d.(snapshots) !! us.1 = Some us.2 →
  us.1 ∈ ((fst <$> before) ++ (fst <$> after))%list ↔ us ∈ before ∨ us ∈ after.
Proof.
  intros Hus. rewrite elem_of_app, !list_elem_of_fmap. split.
  - intros [(us' & Heq & H)|(us' & Heq & H)].
    + left. pose proof (elem_of_before _ H) as [[Hl _] _]. destruct us, us'; simpl in *. subst. by simplify_eq.
    + right. pose proof (elem_of_after _ H) as [[Hl _] _]. destruct us, us'; simpl in *. subst. by simplify_eq.
  - intros [H|H]; [left|right]; eauto.
Qed.

(** The row chosen from the two halves is the nearest one. *)
Lemma combined_nearest us :
  us ∈ distinct_on earlier (base.filter (λ us, us.1 ∈ ((fst <$> before) ++ (fst <$> after))%list) (scan d.(snapshots))) →
  nearest (candidate d orgID repos) date us.
Proof.
  intros H. apply distinct_on_elem in H as ([Hids Hin]%list_elem_of_filter & _ & Hmin); [|eauto with go..].
  assert (d.(snapshots) !! us.1 = Some us.2) as Hlk by (destruct us; by apply elem_of_scan).
  assert (∀ y, y ∈ before ∨ y ∈ after → repo_of y = repo_of us → (s_CreatedAt us.2 ≤ s_CreatedAt y.2)%Z) as Hmin'.
  { intros y Hy Hr. specialize (Hmin y). unfold earlier in Hmin. rewrite Z.ltb_ge in Hmin. apply Hmin; [|done].
    assert (d.(snapshots) !! y.1 = Some y.2) as Hly.
    { destruct Hy as [[[? _] _]%elem_of_before|[[? _] _]%elem_of_after]; done. }
    apply list_elem_of_filter. split; [by apply in_ids|]. destruct y; by apply elem_of_scan. }
  apply (in_ids us Hlk) in Hids as [Hb|Ha].
  - apply elem_of_before in Hb as (Hc & Hup & Hmax). split; [done|]. by left.
  - pose proof (elem_of_after _ Ha) as (Hc & Hup & Hmax). split; [done|]. right. intros y Hy Hr.
    assert (¬ up_to date y) as Hny.
    { intros Hyup. destruct (halves_cover y Hy) as (z & Hz & Hzb & _). specialize (Hzb Hyup).
      specialize (Hmin' z (or_introl Hzb) ltac:(congruence)). apply elem_of_before in Hzb as (_ & Hzup & _).
      apply trunc_mono in Hmin'. unfold up_to in *. lia. }
    split; [done|]. by apply Hmax.
Qed.

Lemma combined_exists y : candidate d orgID repos y →
  ∃ us, us ∈ distinct_on earlier (base.filter (λ us, us.1 ∈ ((fst <$> before) ++ (fst <$> after))%list) (scan d.(snapshots))) ∧
        repo_of us = repo_of y.
Proof.
  intros Hy. destruct (halves_cover y Hy) as (z & Hz & Hzb & Hza).
  assert (z ∈ before ∨ z ∈ after) as Hzin by (destruct (decide (trunc_second y.2.(s_CreatedAt) ≤ trunc_second date)%Z); auto).
  assert (d.(snapshots) !! z.1 = Some z.2) as Hlz.
  { destruct Hzin as [[[? _] _]%elem_of_before|[[? _] _]%elem_of_after]; done. }
  destruct (distinct_on_exists earlier (base.filter (λ us, us.1 ∈ ((fst <$> before) ++ (fst <$> after))%list)
    (scan d.(snapshots))) z) as (us & Hus & Hr); [eauto with go..| |exists us; split; [done|congruence]].
  apply list_elem_of_filter. split; [by apply in_ids|]. destruct z; by apply elem_of_scan.
Qed.
End Query.

Lemma elem_of_snapshots_by_date d orgID repos date us :
  let rows := date_candidates scan d orgID repos in
  let before := distinct_on later (base.filter (λ us, (trunc_second us.2.(s_CreatedAt) ≤ trunc_second date)%Z) rows) in
  let after := distinct_on earlier (base.filter (λ us, (trunc_second date < trunc_second us.2.(s_CreatedAt))%Z) rows) in
  us ∈ snapshots_by_date scan d orgID repos date ↔
  us ∈ distinct_on earlier (base.filter (λ us, us.1 ∈ ((fst <$> before) ++ (fst <$> after))%list) (scan d.(snapshots))).
Proof.
  intros rows before after. unfold snapshots_by_date. rewrite list_elem_of_filter, list_elem_of_fmap. split.
  - intros [[(us' & Heq & Hus') _] Hin]. pose proof (distinct_on_elem _ _ _ earlier_irrefl earlier_trans Hus') as ([_ Hin']%list_elem_of_filter & _).
    destruct us as [u s], us' as [u' s']. simpl in *. subst u'. rewrite elem_of_scan in Hin, Hin'. by simplify_eq.
  - intros H. pose proof (combined_nearest _ _ _ _ _ H) as [(Hlk & _ & Hlive & _) _].
    split; [split; [eauto|done]|]. destruct us; by apply elem_of_scan.
Qed.

(** Snapshots by date. Whatever order Postgres visits the rows in, the query of
    [FetchSnapshotsModelByDateAndRepository] returns exactly one snapshot for every requested repository that has a
    readable snapshot which is not deleted: the last one created up to the date (by whole seconds), or, if there is none,
    the first one. *)
Theorem snapshots_by_date_exact d orgID repos date :
  let result := snapshots_by_date scan d orgID repos date in
  (∀ us, us ∈ result → nearest (candidate d orgID repos) date us) ∧
  (∀ us us', us ∈ result → us' ∈ result → repo_of us = repo_of us' → us = us') ∧
  (∀ y, candidate d orgID repos y → ∃ us, us ∈ result ∧ repo_of us = repo_of y).
Proof.
  intros result. unfold result. split_and!.
  - intros us Hus%elem_of_snapshots_by_date. by eapply combined_nearest.
  - intros us us' Hus%elem_of_snapshots_by_date Hus'%elem_of_snapshots_by_date Hr.
    by eapply distinct_on_unique; [apply earlier_irrefl|apply earlier_trans|..].
  - intros y Hy. destruct (combined_exists d orgID repos date y Hy) as (us & Hus & Hr). exists us.
    split; [by apply elem_of_snapshots_by_date|done].
Qed.
End ByDate.

(** ** A small database, for the witnesses *)

Module Ex.
(** UUIDs as strings of that length. *)
Definition text (u : uuid) : string := of_chars (repeat "a"%char (N.to_nat u)).
Definition read (s : string) : option uuid := Some (N.of_nat (length (chars s))).
#[export] Instance uuid_text : UuidText := { uuid_Parse := read; pg_uuid := read; uuid_String := text }.

Lemma read_text u : read (text u) = Some u.
Proof. unfold read, text. by rewrite chars_of_chars, repeat_length, N2Nat.id. Qed.
#[export] Instance uuid_laws : UuidLaws := { parse_String := read_text; pg_String := read_text }.

Definition snap (rc : uuid) (created : time) (published : bool) : SnapRow :=
  mk_SnapRow rc created None "version" "publication" "path" "repo" "dist" ∅ ∅ ∅ "" published.
Definition config (repo : uuid) (org : string) (partner : bool) : ConfigRow :=
  mk_ConfigRow (mk_ConfigFields "name" ["any"] "any" "" false false true) "label" org "account" repo partner "" "" "" None None 0 None.
Definition repository (url origin : string) (public : bool) : RepositoryRow :=
  mk_RepositoryRow (mk_Repository url origin StatusValid None None None None "" 0 0 0 0 public) "rpm" "" "" "".

(** A repository of its own, a partner's with one snapshot published, and one of Lightwell. *)
Definition d : db := mk_db
  (<[1%N := config 11 "org" false]> (<[2%N := config 12 "partner" true]> (<[3%N := config 13 LightwellOrg false]> ∅)))
  (<[11%N := repository "https://a/" OriginExternal false]> (<[12%N := repository "" OriginUpload true]>
     (<[13%N := repository "https://c/" OriginExternal false]> ∅)))
  (<[5%N := snap 1 (10 * Second)%Z false]> (<[6%N := snap 1 (20 * Second)%Z false]> (<[7%N := snap 2 (10 * Second)%Z true]>
     (<[8%N := snap 2 (20 * Second)%Z false]> (<[9%N := snap 3 (10 * Second)%Z false]> (<[10%N := snap 3 (20 * Second)%Z false]> ∅))))))
  ∅ ∅.
End Ex.

Lemma snapshots_by_date_exact_witness :
  fst <$> snapshots_by_date map_to_list Ex.d "org" [1%N; 2%N] (15 * Second)%Z = [5%N; 7%N] ∧
  ∃ us, us ∈ snapshots_by_date map_to_list Ex.d "org" [1%N; 2%N] (15 * Second)%Z ∧ repo_of us = 2%N.
Proof.
  split; [by vm_compute|].
  apply (proj2 (proj2 (snapshots_by_date_exact map_to_list (λ m, reflexivity _) Ex.d "org" [1%N; 2%N] (15 * Second)%Z)) (7%N, Ex.snap 2 (10 * Second)%Z true)).
  split_and!; [done|by_decide|done|by vm_compute].
Defined.
