(* ===== verification/TemplateDao.v ===== *)
(** * dao/templates.go: templates and their content

    The data access object of templates on the tables of [SnapshotDao.v], the validation of a template (models/template.go)
    and the requests (api/templates.go). The content of a template is its rows of [templates_repository_configurations]: a
    snapshot and a distribution for each of its repositories; a row that is removed is first marked as deleted.

    A panic is the error [Panic], which the handlers of errors do not touch. The preloaded task of a template, the
    timestamps of [Base] and the events are left out. *)

From S2P Require Import Prelude GoStrings GoSplit Config TxMonad Utils Models Errors DaoHelpers SnapshotDao.
From stdpp Require Import options.

Open Scope string_scope.

(** The zero [time.Time], also read from a NULL. *)
Definition zero_time : time := (-62135596800 * Second)%Z.
Definition IsZero (t : time) : bool := t == zero_time.

Definition Panic : goerr := ErrPlain "panic: runtime error".
Definition is_panic (e : goerr) : bool := match e with ErrPlain m => m == "panic: runtime error" | _ => false end.
Definition catch (g : goerr → goerr) (e : goerr) : goerr := if is_panic e then e else g e.

(** ** api/templates.go *)

Record TemplateRequest := mk_TemplateRequest {
  rq_Name : option string; rq_Description : option string; rq_RepositoryUUIDS : option (list string); rq_Arch : option string;
  rq_Version : option string; rq_ExtendedRelease : option string; rq_ExtendedReleaseVersion : option string;
  rq_Date : option time; rq_OrgID : option string; rq_User : option string; rq_UseLatest : option bool }.

Record TemplateUpdateRequest := mk_TemplateUpdateRequest {
  up_Name : option string; up_Description : option string; up_ExtendedReleaseVersion : option string;
  up_RepositoryUUIDS : option (list string); up_Date : option time; up_OrgID : option string; up_User : option string;
  up_UseLatest : option bool }.

Definition IsUsingLatest (r : TemplateUpdateRequest) : bool := default false r.(up_UseLatest).

Definition FillDefaults (now : time) (r : TemplateUpdateRequest) : TemplateUpdateRequest :=
  let missing := match r.(up_Date) with None => true | Some d => (d <? zero_time)%Z end in
  mk_TemplateUpdateRequest r.(up_Name) (Some (default "" r.(up_Description))) (Some (default "" r.(up_ExtendedReleaseVersion)))
    (Some (default [] r.(up_RepositoryUUIDS)))
    (if missing then Some (if IsUsingLatest r then zero_time else now) else r.(up_Date))
    r.(up_OrgID) r.(up_User) r.(up_UseLatest).

(** ** models/template.go *)

(** The message of the error. *)
Definition template_validate (t : TemplateRow) : option string :=
  let '(valid, invalidVer) := ValidDistributionVersionLabels [t.(t_Version)] in
  if t.(t_Name) == "" then Some "Name cannot be blank."
  else if t.(t_OrgID) == "" then Some "Org ID cannot be blank."
  else if t.(t_Arch) == "" then Some "Arch cannot be blank."
  else if t.(t_Version) == "" then Some "Version cannot be blank."
  else if (t.(t_Arch) != "") && negb (ValidArchLabel t.(t_Arch))
  then Some ("Specified architecture " +:+ t.(t_Arch) +:+ " is invalid.")
  else if (t.(t_Version) != "") && negb valid
  then Some ("Specified distribution version " +:+ invalidVer +:+ " is invalid.")
  else if (t.(t_ExtendedReleaseVersion) != "") && negb (ValidDistributionMinorVersionLabel t.(t_ExtendedReleaseVersion))
  then Some ("Specified extended release version " +:+ t.(t_ExtendedReleaseVersion) +:+ " is invalid.")
  else if (t.(t_ExtendedRelease) != "") && negb (ValidExtendedReleaseLabel t.(t_ExtendedRelease))
  then Some ("Specified extended release " +:+ t.(t_ExtendedRelease) +:+ " is invalid.")
  else if t.(t_UseLatest) && negb (IsZero t.(t_Date))
  then Some "Date must be null if use_latest is true."
  else None.

(** [AfterFind] rebuilds the deletion time without its [Valid] flag: it reads as not deleted. *)
Definition template_AfterFind (t : TemplateRow) : TemplateRow :=
  mk_TemplateRow t.(t_Name) t.(t_OrgID) t.(t_Description) t.(t_Date) t.(t_Version) t.(t_Arch) t.(t_ExtendedRelease)
    t.(t_ExtendedReleaseVersion) None t.(t_CreatedBy) t.(t_LastUpdatedBy) t.(t_UseLatest) t.(t_RHSMEnvironmentCreated)
    t.(t_LastUpdateSnapshotError) t.(t_LastUpdateTaskUUID).

(** The columns of [MapForUpdate] of [t], written over the row [row]. *)
Definition template_MapForUpdate (t row : TemplateRow) : TemplateRow :=
  mk_TemplateRow t.(t_Name) row.(t_OrgID) t.(t_Description) t.(t_Date) row.(t_Version) row.(t_Arch) row.(t_ExtendedRelease)
    t.(t_ExtendedReleaseVersion) row.(t_DeletedAt) row.(t_CreatedBy) t.(t_LastUpdatedBy) t.(t_UseLatest)
    row.(t_RHSMEnvironmentCreated) row.(t_LastUpdateSnapshotError) row.(t_LastUpdateTaskUUID).

Definition templatesCreateApiToModel (r : TemplateRequest) : TemplateRow :=
  mk_TemplateRow (default "" r.(rq_Name)) (default "" r.(rq_OrgID)) (default "" r.(rq_Description))
    (default zero_time r.(rq_Date)) (default "" r.(rq_Version)) (default "" r.(rq_Arch)) (default "" r.(rq_ExtendedRelease))
    (default "" r.(rq_ExtendedReleaseVersion)) None (default "" r.(rq_User)) (default "" r.(rq_User))
    (default false r.(rq_UseLatest)) false None None.

Definition templatesUpdateApiToModel (r : TemplateUpdateRequest) (t : TemplateRow) : TemplateRow :=
  mk_TemplateRow (default t.(t_Name) r.(up_Name)) (default t.(t_OrgID) r.(up_OrgID)) (default t.(t_Description) r.(up_Description))
    (default t.(t_Date) r.(up_Date)) t.(t_Version) t.(t_Arch) t.(t_ExtendedRelease)
    (default t.(t_ExtendedReleaseVersion) r.(up_ExtendedReleaseVersion)) t.(t_DeletedAt) t.(t_CreatedBy)
    (default t.(t_LastUpdatedBy) r.(up_User)) (default t.(t_UseLatest) r.(up_UseLatest)) t.(t_RHSMEnvironmentCreated)
    t.(t_LastUpdateSnapshotError) t.(t_LastUpdateTaskUUID).

Definition template_set_deleted (at_ : option time) (t : TemplateRow) : TemplateRow :=
  mk_TemplateRow t.(t_Name) t.(t_OrgID) t.(t_Description) t.(t_Date) t.(t_Version) t.(t_Arch) t.(t_ExtendedRelease)
    t.(t_ExtendedReleaseVersion) at_ t.(t_CreatedBy) t.(t_LastUpdatedBy) t.(t_UseLatest) t.(t_RHSMEnvironmentCreated)
    t.(t_LastUpdateSnapshotError) t.(t_LastUpdateTaskUUID).
Definition template_set_status (env : bool) (err : option string) (task : option uuid) (t : TemplateRow) : TemplateRow :=
  mk_TemplateRow t.(t_Name) t.(t_OrgID) t.(t_Description) t.(t_Date) t.(t_Version) t.(t_Arch) t.(t_ExtendedRelease)
    t.(t_ExtendedReleaseVersion) t.(t_DeletedAt) t.(t_CreatedBy) t.(t_LastUpdatedBy) t.(t_UseLatest) env err task.

(** ** Errors *)

(** What the type switch tells apart: an error of Postgres with its code and constraint, a [models.Error] (which always is
    one of validation), and any other error. *)
Inductive db_error :=
  | PgError (code constraint : string)
  | ModelError (msg : string)
  | OtherError (e : goerr).

Definition TemplateDBToApiError (e : db_error) (uuid : option string) : goerr :=
  match e with
  | PgError "23505" constraint =>
      DaoError None ("Template with this " +:+ (if constraint == "name_org_id_not_deleted_unique" then "name" else "") +:+
                     " already belongs to organization") false false true false
  | PgError "22021" _ => DaoError None "Request parameters contain invalid syntax" false true false false
  | PgError code constraint =>
      let m := "ERROR: violates constraint " +:+ constraint +:+ " (SQLSTATE " +:+ code +:+ ")" in
      Wrap (DaoError None m false false false false) (ErrPlain m)
  | ModelError msg => Wrap (DaoError None msg false true false false) (ErrPlain msg)
  | OtherError e =>
      Wrap (if is_record_not_found e
            then DaoError None (match uuid with Some u => "Template with UUID " +:+ u +:+ " not found" | None => "Template not found" end)
                   true false false false
            else DaoError None (Error e) (HttpCodeForDaoError (Some e) =? 404)%Z false false false) e
  end.

(** dao/repository_configs.go *)
Definition repo_duplicate_key (constraint : string) : string :=
  if constraint == "repo_config_repo_org_id_deleted_null_unique" then "URL"
  else if constraint == "repositories_unique_url" then "URL"
  else if constraint == "repo_config_name_deleted_org_id_unique" then "name"
  else if constraint == "repo_config_label_deleted_org_id_unique" then "label"
  else "".

Definition repo_error_to_api (e : db_error) (uuid : option string) : goerr :=
  match e with
  | PgError "23505" constraint =>
      DaoError None ("Repository with this " +:+ repo_duplicate_key constraint +:+ " already belongs to organization") false false true false
  | PgError "22021" _ => DaoError None "Request parameters contain invalid syntax" false true false false
  | PgError code constraint =>
      let m := "ERROR: violates constraint " +:+ constraint +:+ " (SQLSTATE " +:+ code +:+ ")" in
      Wrap (DaoError None m false false false false) (ErrPlain m)
  | ModelError msg => DaoError None msg false true false false
  | OtherError e =>
      Wrap (if is_record_not_found e
            then DaoError None (match uuid with Some u => "Repository with UUID " +:+ u +:+ " not found" | None => "Repository not found" end)
                   true false false false
            else DaoError None (Error e) (HttpCodeForDaoError (Some e) =? 404)%Z false false false) e
  end.
Definition RepositoryDBErrorToApi (e : goerr) (uuid : option string) : goerr := repo_error_to_api (OtherError e) uuid.

(** A statement whose errors are translated. *)
Definition checked {A} (uuid : option string) (m : DB (db_error + A)) : DB A :=
  r ← map_err (λ e, TemplateDBToApiError (OtherError e) uuid) m;
  match r with inl e => throw (TemplateDBToApiError e uuid) | inr a => mret a end.

(** ** Tables *)

Definition template_live (t : TemplateRow) : bool := match t.(t_DeletedAt) with None => true | Some _ => false end.
Definition trc_live (x : TrcRow) : bool := match x.(x_DeletedAt) with None => true | Some _ => false end.

(** The unique index on the name within the organization, over the templates that are not deleted. *)
Definition name_taken (d : db) (u : uuid) (t : TemplateRow) : bool :=
  existsb (λ kt, (kt.1 != u) && template_live kt.2 && (kt.2.(t_Name) == t.(t_Name)) && (kt.2.(t_OrgID) == t.(t_OrgID)))
    (map_to_list d.(templates)).

Definition insert_template (u : uuid) (t : TemplateRow) : DB (db_error + ()) :=
  db_call (λ d,
    match template_validate t with
    | Some msg => (inr (inl (ModelError msg)), d)
    | None =>
        if bool_decide (is_Some (d.(templates) !! u)) then (inr (inl (PgError "23505" "templates_pkey")), d)
        else if name_taken d u t then (inr (inl (PgError "23505" "name_org_id_not_deleted_unique")), d)
        else (inr (inr ()), set_templates <[u := t]> d)
    end).

(** [INSERT ... ON CONFLICT (template_uuid, repository_configuration_uuid) DO UPDATE]: [merge old new] is the row a conflict
    leaves. A statement must not touch a row twice, and the rows refer to existing ones. [Create] writes in batches
    ([CreateBatchSize]), so an empty list is no statement at all. *)
Definition upsert_row (merge : TrcRow → TrcRow → TrcRow) (m : gmap (uuid * uuid) TrcRow) (kx : uuid * uuid * TrcRow) :
    gmap (uuid * uuid) TrcRow :=
  <[kx.1 := match m !! kx.1 with Some old => merge old kx.2 | None => kx.2 end]> m.

Definition refers (d : db) (kx : uuid * uuid * TrcRow) : bool :=
  bool_decide (is_Some (d.(templates) !! kx.1.1)) && bool_decide (is_Some (d.(configs) !! kx.1.2)) &&
  bool_decide (is_Some (d.(snapshots) !! kx.2.(x_SnapshotUUID))).

Definition upsert (merge : TrcRow → TrcRow → TrcRow) (rows : list (uuid * uuid * TrcRow)) : DB (db_error + ()) :=
  match rows with
  | [] => mret (inr ())
  | _ =>
      db_call (λ d,
        if bool_decide (NoDup (fst <$> rows)) then
          let m' := foldl (upsert_row merge) d.(trcs) rows in
          if forallb (λ kx, match m' !! kx.1 with Some x => refers d (kx.1, x) | None => false end) rows
          then (inr (inr ()), set_trcs (λ _, m') d)
          else (inr (inl (PgError "23503" "fk_templates_repository_configurations")), d)
        else (inr (inl (PgError "21000" "")), d))
  end.

Section Dao.
Context `{UuidText}.
(** The orders of the rows of queries; [LIKE] and the sorting of Postgres; the answer of Pulp and the configuration. *)
Context (scan : gmap uuid SnapRow → list (uuid * SnapRow)).
Context (scan_templates : gmap uuid TemplateRow → list (uuid * TemplateRow)).
Context (scan_trcs : gmap (uuid * uuid) TrcRow → list (uuid * uuid * TrcRow)).
Context (sql_like : string → string → bool) (sql_order : string → list (uuid * TemplateRow) → list (uuid * TemplateRow)).
Context (snapshots_enabled : bool) (content_path : goerr + string) (SnapshotRetainDaysLimit : Z).

(** ** Responses *)

(** A template with its preloaded rows; [None] is the zero snapshot of a row whose snapshot is not found. *)
Definition preloaded : Type := uuid * TemplateRow * list (uuid * option (uuid * SnapRow * option ConfigRow)).

(** The row stands for the fields that are copied from it. *)
Record TemplateResponse := mk_TemplateResponse {
  tr_UUID : string; tr_row : TemplateRow; tr_RHSMEnvironmentID : string; tr_RepositoryUUIDS : list string;
  tr_Snapshots : list (option SnapshotResponse); tr_ToBeDeletedSnapshots : list (option SnapshotResponse) }.

Definition GetEnvironmentID (templateUUID : string) : string := of_chars (base.filter (λ a, a ≠ "-"%char) (chars templateUUID)).

Definition templatesModelToApi (u : uuid) (t : TemplateRow) : TemplateResponse :=
  mk_TemplateResponse (uuid_String u) t (GetEnvironmentID (uuid_String u)) [] [] [].

Definition GetContentPath : DB string :=
  if snapshots_enabled then match content_path with inl e => throw e | inr p => mret p end else mret "".

Definition snapshot_created (s : option SnapshotResponse) : time := match s with Some s => s.(sr_CreatedAt) | None => zero_time end.

Definition templatesConvertToResponses (now : time) (ts : list preloaded) (lastSnapshotsUUIDs : list (option uuid))
    (pulpContentPath : string) : list TemplateResponse :=
  let outdatedDate := (now - (SnapshotRetainDaysLimit - 14) * Day)%Z in
  (λ '(u, t, rows),
     let r := templatesModelToApi u t in
     let snaps := (λ row : uuid * option (uuid * SnapRow * option ConfigRow),
                     (λ '(us, c), set_URL (pulpContentURL pulpContentPath us.2.(s_RepositoryPath)) (SnapshotModelToApi us c)) <$> row.2)
                  <$> rows in
     mk_TemplateResponse r.(tr_UUID) r.(tr_row) r.(tr_RHSMEnvironmentID) ((λ row, uuid_String row.1) <$> rows) snaps
       (base.filter (λ s, (snapshot_created s < outdatedDate)%Z ∧ (sr_UUID <$> s) ∉ lastSnapshotsUUIDs) snaps)) <$> ts.

(** [uuid IN (...)] and not deleted; a missing last snapshot is the empty string. *)
Definition fetchLatestSnapshotUUIDsForReposOfTemplates (ts : list preloaded) : DB (list (option uuid)) :=
  let repoUUIDs := remove_dups (ts ≫= λ t, fst <$> t.2) in
  db_call (λ d, (inr ((λ kc : uuid * ConfigRow, kc.2.(c_LastSnapshotUUID)) <$>
                      base.filter (λ kc, kc.1 ∈ repoUUIDs ∧ kc.2.(c_DeletedAt) = None) (map_to_list d.(configs))), d)).

Definition to_responses (now : time) (ts : list preloaded) : DB (list TemplateResponse) :=
  path ← GetContentPath;
  last ← map_err (λ e, TemplateDBToApiError (OtherError e) None) (fetchLatestSnapshotUUIDsForReposOfTemplates ts);
  mret (templatesConvertToResponses now ts last path).

(** ** Reading *)

(** The preloaded rows; [unscoped] includes the deleted ones, at every level. *)
Definition preload_snapshot (unscoped : bool) (d : db) (x : TrcRow) : option (uuid * SnapRow * option ConfigRow) :=
  s ← d.(snapshots) !! x.(x_SnapshotUUID);
  if unscoped || is_live s
  then Some (x.(x_SnapshotUUID), s,
         c ← d.(configs) !! s.(s_RepositoryConfigurationUUID); if unscoped || config_live c then Some c else None)
  else None.

Definition preload_template (unscoped : bool) (d : db) (ut : uuid * TemplateRow) : preloaded :=
  (ut.1, template_AfterFind ut.2,
   (λ kx : uuid * uuid * TrcRow, (kx.1.2, preload_snapshot unscoped d kx.2)) <$>
     base.filter (λ kx, kx.1.1 = ut.1 ∧ (unscoped = true ∨ kx.2.(x_DeletedAt) = None)) (scan_trcs d.(trcs))).

(** [Where("uuid = ? AND org_id = ?").First] *)
Definition first_template (unscoped : bool) (orgID uuid_ : string) : DB (uuid * TemplateRow) :=
  db_call (λ d, match d.(templates) !! Uuidify uuid_ with
                | Some t => if (t.(t_OrgID) == orgID) && (unscoped || template_live t) then (inr (Uuidify uuid_, t), d)
                            else (inl ErrRecordNotFound, d)
                | None => (inl ErrRecordNotFound, d)
                end).

Definition Template_fetch (orgID uuid_ : string) (includeSoftDel : bool) : DB preloaded :=
  map_err (λ e, TemplateDBToApiError (OtherError e) (Some uuid_))
    (ut ← first_template includeSoftDel orgID uuid_;
     db_call (λ d, (inr (preload_template includeSoftDel d ut), d))).

Definition Template_Fetch (now : time) (orgID uuid_ : string) (includeSoftDel : bool) : DB TemplateResponse :=
  t ← Template_fetch orgID uuid_ includeSoftDel;
  rs ← to_responses now [t];
  match rs with r :: _ => mret r | [] => throw Panic end.

Definition InternalOnlyFetchByName (name : string) : DB (uuid * TemplateRow) :=
  map_err (λ e, TemplateDBToApiError (OtherError e) None)
    (db_call (λ d, (or_not_found (best (λ x y, (x.1 <? y.1)%N)
                      (base.filter (λ ut, ut.2.(t_Name) = name ∧ ut.2.(t_DeletedAt) = None) (scan_templates d.(templates)))), d))).

(** The templates with a row that satisfies a condition, one entry per row. *)
Definition templates_with (d : db) (f : uuid * uuid * TrcRow → bool) (g : TemplateRow → bool) : list preloaded :=
  ut ← base.filter (λ ut, template_live ut.2 = true ∧ g ut.2 = true) (scan_templates d.(templates));
  _ ← base.filter (λ kx, kx.1.1 = ut.1 ∧ f kx = true) (scan_trcs d.(trcs));
  [(ut.1, template_AfterFind ut.2, [])].

Definition InternalOnlyGetTemplatesForRepoConfig (now : time) (repoUUID : string) (useLatestOnly : bool) : DB (list TemplateResponse) :=
  ts ← map_err (λ e, TemplateDBToApiError (OtherError e) None)
         (db_call (λ d, (inr (templates_with d (λ kx, (kx.1.2 == Uuidify repoUUID) && trc_live kx.2)
                               (λ t, negb useLatestOnly || t.(t_UseLatest))), d)));
  to_responses now ts.

Definition InternalOnlyGetTemplatesForSnapshots (now : time) (snapUUIDs : list string) : DB (list TemplateResponse) :=
  ts ← map_err (λ e, TemplateDBToApiError (OtherError e) None)
         (db_call (λ d, match mapM pg_uuid snapUUIDs with
                        | Some us => (inr (templates_with d (λ kx, contains us kx.2.(x_SnapshotUUID)) (λ _, true)), d)
                        | None => (inl (invalid_uuid ""), d)
                        end));
  to_responses now ts.

Record TemplateFilterData := mk_TemplateFilterData {
  tf_Name : string; tf_Arch : string; tf_Version : string; tf_ExtendedRelease : string; tf_ExtendedReleaseVersion : string;
  tf_RestrictToMajor : bool; tf_Search : string; tf_RepositoryUUIDs : list string; tf_SnapshotUUIDs : list string;
  tf_UseLatest : bool }.

(** A comma separated list in which ["none"] stands for no value. (A NULL is taken as the empty string; they differ only for
    lists with an empty element.) *)
Definition in_list (filter value : string) : bool :=
  let streams := strings_Split comma filter in
  contains streams value || (contains streams "none" && (value == "")).

(** The conditions as gorm writes them: [Or] comes without parentheses, so that a condition before it and one after it do
    not restrict the other side. [x] is the joined row, when there is a join. *)
Definition filteredDbForList (orgID : string) (f : TemplateFilterData) (t : TemplateRow) (x : option (uuid * TrcRow)) : bool :=
  let base_cond :=
    (t.(t_OrgID) == orgID) &&
    ((f.(tf_Name) == "") || (t.(t_Name) == f.(tf_Name))) &&
    ((f.(tf_Arch) == "") || (t.(t_Arch) == f.(tf_Arch))) &&
    applyVersionFilter f.(tf_Version) f.(tf_RestrictToMajor)
      (DaoHelpers.mk_TemplateRow t.(t_Version) (Some t.(t_ExtendedReleaseVersion))) &&
    ((f.(tf_ExtendedRelease) == "") || in_list f.(tf_ExtendedRelease) t.(t_ExtendedRelease)) &&
    ((f.(tf_ExtendedReleaseVersion) == "") || f.(tf_RestrictToMajor) || in_list f.(tf_ExtendedReleaseVersion) t.(t_ExtendedReleaseVersion)) &&
    ((f.(tf_Search) == "") || sql_like ("%" +:+ f.(tf_Search) +:+ "%") t.(t_Name)) in
  let repo_in := match x with Some (rc, _) => contains (Uuidify <$> f.(tf_RepositoryUUIDs)) rc | None => false end in
  let snap_in := match x with Some (_, x) => contains (Uuidify <$> f.(tf_SnapshotUUIDs)) x.(x_SnapshotUUID) | None => false end in
  let latest := negb f.(tf_UseLatest) || t.(t_UseLatest) in
  match f.(tf_RepositoryUUIDs), f.(tf_SnapshotUUIDs) with
  | _ :: _, _ :: _ => (base_cond && repo_in) || (snap_in && latest)
  | _ :: _, [] => base_cond && repo_in && latest
  | [], _ :: _ => base_cond && snap_in && latest
  | [], [] => base_cond && latest
  end.

(** [SELECT DISTINCT]: the templates with a joined row that passes, or all that pass without a join. *)
Definition listed (d : db) (orgID : string) (includeSoftDel : bool) (f : TemplateFilterData) : list (uuid * TemplateRow) :=
  base.filter (λ ut,
    (includeSoftDel = true ∨ ut.2.(t_DeletedAt) = None) ∧
    (if (length f.(tf_RepositoryUUIDs) =? 0)%nat && (length f.(tf_SnapshotUUIDs) =? 0)%nat
     then filteredDbForList orgID f ut.2 None
     else existsb (λ kx, (kx.1.1 == ut.1) && filteredDbForList orgID f ut.2 (Some (kx.1.2, kx.2))) (map_to_list d.(trcs))) = true)
    (scan_templates d.(templates)).

Definition versionSortExpr : string :=
  "CASE WHEN extended_release_version IS NOT NULL AND extended_release_version != '' THEN split_part(extended_release_version, '.', 1)::int * 10000 + split_part(extended_release_version, '.', 2)::int ELSE version::int * 10000 - 1 END".
Definition template_sort_map : gmap string string :=
  <["name" := "name"]> (<["url" := "url"]> (<["arch" := "arch"]> (<["version" := versionSortExpr]> ∅))).

(** [Limit(-1)] is no limit. *)
Definition page {A} (limit : Z) (offset : nat) (l : list A) : list A :=
  let l := drop offset l in if (limit <? 0)%Z then l else take (Z.to_nat limit) l.

Definition Template_List (now : time) (orgID : string) (includeSoftDel : bool) (limit : Z) (offset : nat) (sortBy : string)
    (f : TemplateFilterData) : DB (list TemplateResponse * Z) :=
  let order := convertSortByToSQL sortBy template_sort_map "name asc" in
  total ← map_err (λ e, TemplateDBToApiError (OtherError e) None)
            (db_call (λ d, (inr (Z.of_nat (length (listed d orgID includeSoftDel f))), d)));
  ts ← map_err (λ e, TemplateDBToApiError (OtherError e) None)
         (db_call (λ d, (inr (preload_template includeSoftDel d <$>
                                page limit offset (sql_order order (listed d orgID includeSoftDel f))), d)));
  rs ← to_responses now ts;
  mret (rs, total).

(** ** Creating *)

Definition validateRepositoryUUIDs (orgId : string) (uuids : list string) : DB () :=
  repos ← map_err (ErrWrapped "could not query repository uuids")
            (db_call (λ d, (inr (base.filter (λ kc, kc.1 ∈ Uuidify <$> uuids ∧ config_readable d orgId kc.1 kc.2 = true)
                                   (map_to_list d.(configs))), d)));
  if (length repos != length uuids) then throw (DaoError None "One or more Repository UUIDs was invalid." true false false false)
  else
    let missing := (λ kc : uuid * ConfigRow, c_Name kc.2) <$>
                   base.filter (λ kc : uuid * ConfigRow, IsForeignPartnerView kc.2 orgId = false ∧ kc.2.(c_LastSnapshotUUID) = None) repos in
    match missing with
    | [] => mret ()
    | _ => throw (DaoError None ("No snapshots found for the following repositories: [" +:+ strings_Join ", " missing +:+ "]")
                    true false false false)
    end.

(** The index into the snapshots is not checked. *)
Fixpoint choose_snapshots (tu : uuid) (snaps : list (uuid * SnapRow)) (repoUUIDs : list string) : option (list (uuid * string * TrcRow)) :=
  match repoUUIDs with
  | [] => Some []
  | repo :: repoUUIDs' =>
      match list_find (λ us, uuid_String us.2.(s_RepositoryConfigurationUUID) = repo) snaps with
      | Some (_, us) => rest ← choose_snapshots tu snaps repoUUIDs'; Some ((tu, repo, mk_TrcRow us.1 (Some "") None) :: rest)
      | None => None
      end
  end.

(** The rows as the database gets them. *)
Definition with_keys (rows : list (uuid * string * TrcRow)) : option (list (uuid * uuid * TrcRow)) :=
  mapM (λ '(tu, repo, x), rc ← pg_uuid repo; Some (tu, rc, x)) rows.

(** [Clauses(clause.OnConflict{...}).Create(&rows)] *)
Definition create_trcs (merge : TrcRow → TrcRow → TrcRow) (rows : list (uuid * string * TrcRow)) : DB () :=
  checked None
    (if existsb (λ row, row.1.2 == "") rows
     then mret (inl (ModelError "RepositoryConfigurationUUID cannot be empty"))
     else match with_keys rows with
          | None => mret (inl (PgError "22P02" ""))
          | Some rows => upsert merge rows
          end).

(** A conflict sets [deleted_at] and [snapshot_uuid]. *)
Definition merge_snapshot (old new : TrcRow) : TrcRow := mk_TrcRow new.(x_SnapshotUUID) old.(x_DistributionHref) new.(x_DeletedAt).

Definition insertTemplateRepoConfigsAndSnapshots (now : time) (orgId : string) (tu : uuid) (t : TemplateRow)
    (repoUUIDs : list string) : DB () :=
  let templateDate := if t.(t_UseLatest) then now else t.(t_Date) in
  snaps ← FetchSnapshotsModelByDateAndRepository scan orgId repoUUIDs templateDate;
  match choose_snapshots tu snaps repoUUIDs with
  | None => throw Panic
  | Some rows => create_trcs merge_snapshot rows
  end.

Definition Template_create (now : time) (u : uuid) (r : TemplateRequest) : DB TemplateResponse :=
  match r.(rq_OrgID) with
  | None => throw Panic
  | Some orgId =>
      _ ← validateRepositoryUUIDs orgId (default [] r.(rq_RepositoryUUIDS));
      let t := templatesCreateApiToModel r in
      _ ← checked None (insert_template u t);
      match r.(rq_RepositoryUUIDS) with
      | None => throw (DaoError None "template must include repository uuids" false true false false)
      | Some uuids =>
          _ ← insertTemplateRepoConfigsAndSnapshots now orgId u t uuids;
          let resp := templatesModelToApi u t in
          mret (mk_TemplateResponse resp.(tr_UUID) resp.(tr_row) resp.(tr_RHSMEnvironmentID) uuids [] [])
      end
  end.

(** The error of the transaction itself is dropped: [None] is the zero response of a body that was not run. *)
Definition Template_Create (now : time) (u : uuid) (r : TemplateRequest) : DB (option TemplateResponse) := λ '(fs, d),
  match db_noop (fs, d) with
  | (inl _, w) => (inr None, w)
  | (inr _, w) =>
      match Template_create now u r w with
      | (inl e, (fs', d')) => let '(_, (fs'', _)) := db_noop (fs', d') in (inl e, (fs'', d))
      | (inr resp, (fs', d')) =>
          match db_noop (fs', d') with
          | (inl _, (fs'', _)) => (inr (Some resp), (fs'', d))
          | (inr _, w'') => (inr (Some resp), w'')
          end
      end
  end.

(** ** Updating *)

Definition softDeleteTemplateRepoConfigs (now : time) (templateUUID : string) (keep : list string) : DB () :=
  map_err (λ e, TemplateDBToApiError (OtherError e) None)
    (db_call (λ d, (inr (), set_trcs (map_imap (λ k x,
       Some (if (k.1 == Uuidify templateUUID) && (0 <? length keep)%nat && negb (contains (Uuidify <$> keep) k.2) && trc_live x
             then mk_TrcRow x.(x_SnapshotUUID) x.(x_DistributionHref) (Some now) else x))) d))).

(** The fields that are copied to be validated. *)
Definition validated_copy (t : TemplateRow) : TemplateRow :=
  mk_TemplateRow t.(t_Name) t.(t_OrgID) "" t.(t_Date) t.(t_Version) t.(t_Arch) "" "" None "" "" t.(t_UseLatest) false None None.

Definition update_template (u : uuid) (t : TemplateRow) : DB (db_error + ()) :=
  db_call (λ d,
    match template_validate (validated_copy t) with
    | Some msg => (inr (inl (ModelError msg)), d)
    | None =>
        match d.(templates) !! u with
        | Some row =>
            if template_live row then
              let row' := template_MapForUpdate t row in
              if name_taken d u row' then (inr (inl (PgError "23505" "name_org_id_not_deleted_unique")), d)
              else (inr (inr ()), set_templates <[u := row']> d)
            else (inr (inr ()), d)
        | None => (inr (inr ()), d)
        end
    end).

Definition Template_update (now : time) (orgID uuid_ : string) (r : TemplateUpdateRequest) : DB () :=
  '(u, t, _) ← Template_fetch orgID uuid_ false;
  let t := templatesUpdateApiToModel r t in
  _ ← checked (Some uuid_) (update_template (Uuidify uuid_) t);
  _ ← map_err (λ e, RepositoryDBErrorToApi e None) (db_noop : DB ());
  match r.(up_RepositoryUUIDS) with
  | None => mret ()
  | Some uuids =>
      _ ← validateRepositoryUUIDs orgID uuids;
      _ ← map_err (ErrWrapped "could not remove uneeded template repositories") (softDeleteTemplateRepoConfigs now uuid_ uuids);
      map_err (catch (ErrWrapped "could not insert new template repositories"))
        (insertTemplateRepoConfigsAndSnapshots now t.(t_OrgID) u t uuids)
  end.

Definition Template_Update (now : time) (orgID uuid_ : string) (r : TemplateUpdateRequest) : DB TemplateResponse :=
  _ ← transaction id id (λ _ e, e) (Template_update now orgID uuid_ r);
  Template_Fetch now orgID uuid_ false.

(** ** Deleting *)

Definition Template_SoftDelete (now : time) (orgID uuid_ : string) : DB () :=
  '(u, _) ← map_err (λ e, TemplateDBToApiError (OtherError e) (Some uuid_)) (first_template false orgID uuid_);
  db_call (λ d, (inr (), set_templates (alter (λ t, if template_live t then template_set_deleted (Some now) t else t) u) d)).

(** The rows of the content go with the template ([ON DELETE CASCADE]). *)
Definition Template_Delete (orgID uuid_ : string) : DB () :=
  '(u, _) ← map_err (λ e, TemplateDBToApiError (OtherError e) (Some uuid_)) (first_template true orgID uuid_);
  db_call (λ d, (inr (), set_trcs (base.filter (λ kx : uuid * uuid * TrcRow, kx.1.1 ≠ u)) (set_templates (delete u) d))).

Definition Template_ClearDeletedAt (orgID uuid_ : string) : DB () :=
  '(u, _) ← first_template true orgID uuid_;
  db_call (λ d, (inr (), set_templates (alter (template_set_deleted None) u) d)).

(** [NOT IN] an empty list is not true of any row. *)
Definition DeleteTemplateRepoConfigs (templateUUID : string) (keep : list string) : DB () :=
  map_err (λ e, TemplateDBToApiError (OtherError e) None)
    (db_call (λ d, (inr (), set_trcs (base.filter (λ kx : uuid * uuid * TrcRow,
       ¬ (kx.1.1 = Uuidify templateUUID ∧ keep ≠ [] ∧ kx.1.2 ∉ Uuidify <$> keep))) d))).

Definition DeleteTemplateSnapshot (snapshotUUID : string) : DB () :=
  map_err (λ e, TemplateDBToApiError (OtherError e) None)
    (db_call (λ d, (inr (), set_trcs (base.filter (λ kx : uuid * uuid * TrcRow, kx.2.(x_SnapshotUUID) ≠ Uuidify snapshotUUID)) d))).

(** ** The content, as the tasks see it *)

Record RepoChanges := mk_RepoChanges { added : list string; removed : list string; unchanged : list string; all : list string }.

(** A null column is read into a string field as the empty string. *)
Definition href_field (x : TrcRow) : string := default "" x.(x_DistributionHref).

Definition classify (new : list string) (kx : uuid * uuid * TrcRow) (c : RepoChanges) : RepoChanges :=
  let repo := uuid_String kx.1.2 in
  if (href_field kx.2 == "") && contains new repo
  then mk_RepoChanges (repo :: c.(added)) c.(removed) c.(unchanged) (repo :: c.(all))
  else if contains new repo
  then mk_RepoChanges c.(added) c.(removed) (repo :: c.(unchanged)) (repo :: c.(all))
  else mk_RepoChanges c.(added) (repo :: c.(removed)) c.(unchanged) (repo :: c.(all)).

Definition GetRepoChanges (templateUUID : string) (newRepoConfigUUIDs : list string) : DB RepoChanges :=
  map_err (λ e, TemplateDBToApiError (OtherError e) None)
    (db_call (λ d, match pg_uuid templateUUID with
                   | None => (inl (invalid_uuid templateUUID), d)
                   | Some u => (inr (foldr (classify newRepoConfigUUIDs) (mk_RepoChanges [] [] [] [])
                                       (base.filter (λ kx, kx.1.1 = u) (scan_trcs d.(trcs)))), d)
                   end)).

Definition GetDistributionHref (templateUUID repoConfigUUID : string) : DB (option string) :=
  db_call (λ d, match pg_uuid templateUUID, pg_uuid repoConfigUUID with
                | Some u, Some rc => (inr (d.(trcs) !! (u, rc) ≫= x_DistributionHref), d)
                | _, _ => (inl (invalid_uuid ""), d)
                end).

(** The repositories without a snapshot, and the rows of the others. *)
Fixpoint match_snapshots (tu : uuid) (snaps : list (uuid * SnapRow)) (href : string → string) (repoUUIDs : list string) :
    list string * list (uuid * string * TrcRow) :=
  match repoUUIDs with
  | [] => ([], [])
  | repo :: repoUUIDs' =>
      let '(missing, rows) := match_snapshots tu snaps href repoUUIDs' in
      match list_find (λ us, uuid_String us.2.(s_RepositoryConfigurationUUID) = repo) snaps with
      | Some (_, us) => (missing, (tu, repo, mk_TrcRow us.1 (Some (href repo)) None) :: rows)
      | None => (repo :: missing, rows)
      end
  end.

Definition no_snapshots (missing : list string) : goerr :=
  ErrPlain ("no snapshots found for repositories with uuids [" +:+ strings_Join " " missing +:+ "]").

(** A conflict sets [distribution_href]. *)
Definition merge_href (old new : TrcRow) : TrcRow := mk_TrcRow old.(x_SnapshotUUID) new.(x_DistributionHref) old.(x_DeletedAt).
Definition merge_only_snapshot (old new : TrcRow) : TrcRow := mk_TrcRow new.(x_SnapshotUUID) old.(x_DistributionHref) old.(x_DeletedAt).

Definition UpdateDistributionHrefs (tu : uuid) (repoUUIDs : list string) (snaps : list (uuid * SnapRow))
    (repoDistributionMap : gmap string string) : DB () :=
  let '(missing, rows) := match_snapshots tu snaps (λ repo, default "" (repoDistributionMap !! repo)) repoUUIDs in
  match missing with
  | _ :: _ => throw (no_snapshots missing)
  | [] => create_trcs merge_href rows
  end.

Definition UpdateSnapshots (tu : uuid) (repoUUIDs : list string) (snaps : list (uuid * SnapRow)) : DB () :=
  let '(missing, rows) := match_snapshots tu snaps (λ _, "") repoUUIDs in
  match missing, rows with
  | _ :: _, _ => throw (no_snapshots missing)
  | [], [] => mret ()
  | [], _ => create_trcs merge_only_snapshot rows
  end.

(** [UPDATE templates SET ... WHERE uuid = ?], deleted rows included. *)
Definition SetEnvironmentCreated (tu : uuid) : DB () :=
  db_call (λ d, (inr (), set_templates (alter (λ t, template_set_status true t.(t_LastUpdateSnapshotError) t.(t_LastUpdateTaskUUID) t) tu) d)).

Definition UpdateLastUpdateTask (task tu : uuid) (orgID : string) : DB () :=
  db_call (λ d, (inr (), set_templates (alter (λ t,
    if t.(t_OrgID) == orgID then template_set_status t.(t_RHSMEnvironmentCreated) t.(t_LastUpdateSnapshotError) (Some task) t else t) tu) d)).

Definition UpdateLastError (orgID : string) (tu : uuid) (lastUpdateSnapshotError : string) : DB () :=
  db_call (λ d, (inr (), set_templates (alter (λ t,
    if t.(t_OrgID) == orgID then template_set_status t.(t_RHSMEnvironmentCreated) (Some lastUpdateSnapshotError) t.(t_LastUpdateTaskUUID) t
    else t) tu) d)).
End Dao.
