(* ===== verification/SnapshotHandler.v ===== *)
(** * handler/snapshots.go: publishing and deleting snapshots

    The handlers that change snapshots, with what they read of the repository configuration ([fetchRepoConfig], [Fetch] and
    [applyPartnerResponseOverrides] of dao/repository_configs.go), the tasks they enqueue (handler/utils.go), the check for
    active tasks (dao/task_info.go) and the clean-up of old snapshots (external_repos/commands/cleanup.go).

    [world] is the database and the tasks handed to the queue. The queue is seen through its interface: [EnqueueTask] either adds
    the task or fails without an effect. *)

From S2P Require Import Prelude GoStrings GoSplit Config TxMonad Utils Models Errors DaoHelpers SnapshotDao SnapshotThms TemplateDao.
From stdpp Require Import options.

Open Scope string_scope.

(** api.Upload and api.Artifact *)
Record Upload := mk_Upload { u_Uuid : string; u_Href : string; u_Sha256 : string }.
Record Artifact := mk_Artifact { a_Href : string; a_Sha256 : string }.

(** What the handlers hand to the queue. *)
Inductive payload :=
  | DeleteSnapshotsPayload (RepoUUID : string) (SnapshotsUUIDs : list string)
  | UpdateSnapshotPublishedPayload (SnapshotUUID : string) (Published : bool)
  | UpdateLatestSnapshotPayload (RepositoryConfigUUID : string)
  | UpdateTemplateContentPayload (TemplateUUID : string) (RepoConfigUUIDs : list string) (TriggeredByRepositoryUUID : option string)
  | DeleteRepositorySnapshotsPayload (RepoConfigUUID : string)
  | SnapshotPayload
  | IntrospectPayload (Url : string) (Force : bool) (Origin : option string)
  | UpdateRepositoryPayload (RepositoryConfigUUID : string)
  | AddUploadsTaskPayload (RepositoryConfigUUID : string) (Artifacts : list Artifact) (Uploads : list Upload)
  | BulkRemoveRpmsTaskPayload (RepositoryConfigUUID : string) (RpmUuids : list string).

Record QTask := mk_QTask {
  q_Id : uuid; q_Typename : string; q_Payload : payload; q_OrgId : string; q_AccountId : string; q_ObjectUUID : string;
  q_ObjectType : string; q_Dependencies : list uuid; q_active : bool }.

Record world := mk_world { w_db : db; w_tasks : list QTask }.

Abbreviation HM := (M world goerr).

(** A database operation; an operation whose error is a value. *)
Definition on_db {A} (m : DB A) : HM A := λ '(fs, w),
  let '(r, (fs', d')) := m (fs, w.(w_db)) in (r, (fs', mk_world d' w.(w_tasks))).
Definition attempt {A} (m : HM A) : HM (goerr + A) := λ w, let '(r, w') := m w in (inr r, w').

Inductive response :=
  | RespError (errs : list HandlerError)
  | RespPanic
  | RespNoContent
  | RespSnapshot (s : SnapshotResponse).

Definition error_response (e : goerr) (title : string) : response :=
  RespError (NewErrorResponse (HttpCodeForDaoError (Some e)) title (Error e)).
Definition errors_response (title : string) (errs : list (option goerr)) : response :=
  match NewErrorResponseFromError title errs with Some l => RespError l | None => RespPanic end.

Definition BulkDeleteLimit : nat := 100.
Definition maxSnapshotsPerDeleteTask : nat := 100.

(** api.RepositoryResponse, the fields the handlers read. *)
Record RepoView := mk_RepoView {
  v_UUID : uuid; v_OrgID : string; v_AccountID : string; v_RepositoryUUID : uuid; v_Origin : string; v_Partner : bool;
  v_LastSnapshot : option (uuid * SnapRow) }.

Section Handlers.
Context `{UuidText}.
Context (scan : gmap uuid SnapRow → list (uuid * SnapRow)).
Context (scan_templates : gmap uuid TemplateRow → list (uuid * TemplateRow)).
Context (scan_trcs : gmap (uuid * uuid) TrcRow → list (uuid * uuid * TrcRow)).
(** The identifier of the next task; whether snapshots are enabled; the answer of Pulp. *)
Context (new_id : list QTask → uuid) (snapshots_enabled : bool) (content_path : goerr + string) (SnapshotRetainDaysLimit : Z).

(** ** Reading the repository *)

Definition shared_repository_orgs (orgID : string) : list string := [orgID; RedHatOrg; CommunityOrg; LightwellOrg; LightwellDemoOrg].

Definition fetchRepoConfig (orgID uuid_ : string) (includeSharedRepos : bool) : DB (uuid * ConfigRow) :=
  map_err (λ e, RepositoryDBErrorToApi e (Some uuid_))
    (db_call (λ d,
       let rc := Uuidify uuid_ in
       match d.(configs) !! rc with
       | Some c =>
           if config_live c &&
              (if includeSharedRepos
               then contains (shared_repository_orgs orgID) c.(c_OrgID) || foreign_partner_visible d orgID rc c
               else c.(c_OrgID) == orgID)
           then (inr (rc, c), d) else (inl ErrRecordNotFound, d)
       | None => (inl ErrRecordNotFound, d)
       end)).

(** The associations that are preloaded; a deleted snapshot is not. *)
Definition preload_view (rc : uuid) (c : ConfigRow) : DB RepoView :=
  db_call (λ d,
    let last := u ← c.(c_LastSnapshotUUID); s ← d.(snapshots) !! u; if is_live s then Some (u, s) else None in
    let origin := match d.(repositories) !! c.(c_RepositoryUUID) with Some r => (r_origin r) | None => "" end in
    (inr (mk_RepoView rc c.(c_OrgID) c.(c_AccountID) c.(c_RepositoryUUID) origin c.(c_Partner) last), d)).

Definition is_published (us : option (uuid * SnapRow)) : bool := match us with Some (_, s) => s.(s_Published) | None => false end.

(** A failing query leaves the view without a snapshot. *)
Definition applyPartnerResponseOverrides (v : RepoView) (viewerOrgID : string) : DB RepoView :=
  if negb (v.(v_Partner) && (v.(v_OrgID) != viewerOrgID)) then mret v
  else
    let masked := mk_RepoView v.(v_UUID) CommunityOrg "" v.(v_RepositoryUUID) OriginCommunity v.(v_Partner) in
    if is_published v.(v_LastSnapshot) then mret (masked v.(v_LastSnapshot))
    else λ w,
      match (db_call (λ d, (inr (best newer (published_of d v.(v_UUID))), d)) : DB (option (uuid * SnapRow))) w with
      | (inr last, w') => (inr (masked last), w')
      | (inl _, w') => (inr (masked None), w')
      end.

Definition RepositoryConfig_Fetch (orgID uuid_ : string) : DB RepoView :=
  '(rc, c) ← fetchRepoConfig orgID uuid_ true;
  v ← map_err (λ e, RepositoryDBErrorToApi e (Some uuid_)) (preload_view rc c);
  _ ← (if bool_decide (is_Some v.(v_LastSnapshot)) && snapshots_enabled
       then _ ← (db_noop : DB ()); match content_path with inl e => throw e | inr _ => mret () end
       else mret ());
  applyPartnerResponseOverrides v orgID.

(** ** Tasks *)

Definition TaskInfo_FetchActiveTasks (orgID objectUUID : string) (taskTypes : list string) : HM (list uuid) :=
  db_call (λ w, (inr (q_Id <$> base.filter (λ t, t.(q_OrgId) = orgID ∧ pg_uuid t.(q_ObjectUUID) = Some (Uuidify objectUUID) ∧
                        t.(q_Typename) ∈ taskTypes ∧ t.(q_active) = true) w.(w_tasks)), w)).

Definition EnqueueTask (typename : string) (p : payload) (orgId accountId objectUUID objectType : string) (deps : list uuid) : HM uuid :=
  db_call (λ w, let id := new_id w.(w_tasks) in
                (inr id, mk_world w.(w_db) (w.(w_tasks) ++ [mk_QTask id typename p orgId accountId objectUUID objectType deps true]))).

Definition enqueueDeleteSnapshotsTask (accountID orgID repoUUID : string) (snapshotUUIDs : list string) : HM () :=
  _ ← EnqueueTask DeleteSnapshotsTask (DeleteSnapshotsPayload repoUUID snapshotUUIDs) orgID accountID repoUUID ObjectTypeRepository [];
  mret ().

Definition enqueueUpdateSnapshotPublishedTask (accountID orgID repoUUID snapshotUUID : string) (published : bool) : HM uuid :=
  EnqueueTask UpdateSnapshotPublishedTask (UpdateSnapshotPublishedPayload snapshotUUID published) orgID accountID repoUUID
    ObjectTypeRepository [].

Definition enqueueUpdateLatestSnapshotTask (accountID orgID repoUUID : string) (dependency : uuid) : HM uuid :=
  EnqueueTask UpdateLatestSnapshotTask (UpdateLatestSnapshotPayload repoUUID) orgID accountID repoUUID ObjectTypeRepository [dependency].

Definition enqueueUpdateTemplateContentTask (accountID repoUUID templateUUID templateOrg : string) (dependency : uuid) : HM uuid :=
  EnqueueTask UpdateTemplateContentTask (UpdateTemplateContentPayload templateUUID [] (Some repoUUID)) templateOrg accountID
    templateUUID ObjectTypeTemplate [dependency].

(** ** Deleting *)

(** [None]: no deletion is in progress. *)
Definition isDeleteInProgress (orgID repoUUID : string) : HM (option response) :=
  r ← attempt (TaskInfo_FetchActiveTasks orgID repoUUID [DeleteRepositorySnapshotsTask; DeleteSnapshotsTask]);
  mret (match r with
        | inl e => Some (error_response e "Error fetching delete repository snapshots task")
        | inr (_ :: _) => Some (RespError (NewErrorResponse 400 "Error deleting snapshot" "Delete is already in progress"))
        | inr [] => None
        end).

Definition findSnapInRepo (repoSnaps : list (uuid * SnapRow)) (uuid_ : string) : goerr + (uuid * SnapRow) :=
  match list_find (λ us, uuid_String us.1 = uuid_) repoSnaps with
  | Some (_, us) => inr us
  | None => inl (DaoError (Some (ErrPlain "snapshot with this UUID does not exist for the specified repository")) "" true false false false)
  end.

(** The loop: it stops at a published snapshot; a missing one is recorded. *)
Fixpoint check_snapshots (repoSnaps : list (uuid * SnapRow)) (uuids : list string) : response + list (option goerr) :=
  match uuids with
  | [] => inr []
  | u :: uuids' =>
      match findSnapInRepo repoSnaps u with
      | inl e => match check_snapshots repoSnaps uuids' with inl r => inl r | inr errs => inr (Some e :: errs) end
      | inr us =>
          if us.2.(s_Published)
          then inl (RespError (NewErrorResponse 400 "Error deleting snapshots" "Cannot delete a published snapshot"))
          else match check_snapshots repoSnaps uuids' with inl r => inl r | inr errs => inr (None :: errs) end
      end
  end.

(** [None]: allowed. *)
Definition isDeleteAllowed (orgID repoUUID : string) (snapshotUUIDs : list string) : HM (option response) :=
  r ← attempt (on_db (RepositoryConfig_Fetch orgID repoUUID));
  match r with
  | inl e => mret (Some (error_response e "Error fetching repository config"))
  | inr repo =>
      if (repo.(v_OrgID) == RedHatOrg) || (repo.(v_OrgID) == CommunityOrg)
      then mret (Some (RespError (NewErrorResponse 404 "Error fetching repository config"
                         ("Could not find repository with UUID " +:+ repoUUID))))
      else
        busy ← isDeleteInProgress orgID repoUUID;
        match busy with
        | Some resp => mret (Some resp)
        | None =>
            s ← attempt (on_db (FetchForRepoConfigUUID scan repoUUID false));
            mret (match s with
                  | inl e => Some (error_response e "Error fetching snapshots")
                  | inr repoSnaps =>
                      match check_snapshots repoSnaps snapshotUUIDs with
                      | inl resp => Some resp
                      | inr errs =>
                          if has_error errs then Some (errors_response "Error deleting snapshots" errs)
                          else if (length repoSnaps <=? length snapshotUUIDs)%nat
                          then Some (RespError (NewErrorResponse 400 "Error deleting snapshots"
                                       "Can't delete all the snapshots in the repository"))
                          else None
                      end
                  end)
        end
  end.

Definition deleteSnapshot (now : time) (accountID orgID repoUUID snapshotUUID : string) : HM response :=
  denied ← isDeleteAllowed orgID repoUUID [snapshotUUID];
  match denied with
  | Some resp => mret resp
  | None =>
      r ← attempt (on_db (SoftDelete now snapshotUUID));
      match r with
      | inl e => mret (error_response e "Error deleting snapshot")
      | inr _ =>
          q ← attempt (enqueueDeleteSnapshotsTask accountID orgID repoUUID [snapshotUUID]);
          match q with
          | inr _ => mret RespNoContent
          | inl enqueueErr =>
              c ← attempt (on_db (ClearDeletedAt snapshotUUID));
              mret (match c with
                    | inl e => error_response e "Error clearing deleted_at field"
                    | inr _ => error_response enqueueErr "Error enqueueing task"
                    end)
          end
      end
  end.

(** The deletion marks of all are cleared; the errors are collected. *)
Fixpoint clear_all (uuids : list string) : HM (list (option goerr)) :=
  match uuids with
  | [] => mret []
  | u :: uuids' =>
      r ← attempt (on_db (ClearDeletedAt u));
      errs ← clear_all uuids';
      mret ((match r with inl e => Some e | inr _ => None end) :: errs)
  end.

Definition bulkDeleteSnapshot (now : time) (accountID orgID repoUUID : string) (snapshotUUIDs : list string) : HM response :=
  if (length snapshotUUIDs =? 0)%nat
  then mret (RespError (NewErrorResponse 400 "Error deleting snapshots" "Request body must contain at least 1 snapshot UUID to delete."))
  else if (BulkDeleteLimit <? length snapshotUUIDs)%nat
  then mret (RespError (NewErrorResponse 413 "Error deleting repositories" "Cannot delete more than 100 snapshots at once."))
  else
    denied ← isDeleteAllowed orgID repoUUID snapshotUUIDs;
    match denied with
    | Some resp => mret resp
    | None =>
        errs ← on_db (BulkDelete now snapshotUUIDs);
        match errs with
        | _ :: _ => mret (errors_response "Error deleting snapshots" errs)
        | [] =>
            q ← attempt (enqueueDeleteSnapshotsTask accountID orgID repoUUID snapshotUUIDs);
            match q with
            | inr _ => mret RespNoContent
            | inl enqueueErr =>
                errs ← clear_all snapshotUUIDs;
                mret (if has_error errs then errors_response "Error clearing snapshot deleted_at fields" errs
                      else error_response enqueueErr "Error enqueueing task")
            end
        end
    end.

(** ** Publishing *)

Fixpoint enqueue_template_updates (accountID orgID repoUUID : string) (publishTaskID : uuid) (ts : list TemplateResponse) :
    HM (option response) :=
  match ts with
  | [] => mret None
  | t :: ts' =>
      if (t.(tr_row).(t_OrgID) == orgID) || t.(tr_row).(t_UseLatest) then enqueue_template_updates accountID orgID repoUUID publishTaskID ts'
      else
        r ← attempt (enqueueUpdateTemplateContentTask accountID repoUUID t.(tr_UUID) t.(tr_row).(t_OrgID) publishTaskID);
        match r with
        | inl e => mret (Some (error_response e "Error enqueueing task"))
        | inr _ => enqueue_template_updates accountID orgID repoUUID publishTaskID ts'
        end
  end.

(** [published] is the field of the body, [None] when it is missing. *)
Definition publishSnapshot (now : time) (accountID orgID repoUUID snapshotUUID : string) (published : option bool) : HM response :=
  match published with
  | None => mret (RespError (NewErrorResponse 400 "Error validating parameters" "Request body must include the 'published' field."))
  | Some p =>
      r ← attempt (on_db (UpdatePublishedStatus orgID p repoUUID snapshotUUID));
      match r with
      | inl e => mret (error_response e "Error (un)publishing snapshot")
      | inr snapshot =>
          t1 ← attempt (enqueueUpdateSnapshotPublishedTask accountID orgID repoUUID snapshotUUID p);
          match t1 with
          | inl e => mret (error_response e "Error enqueueing task")
          | inr publishTaskID =>
              t2 ← attempt (enqueueUpdateLatestSnapshotTask accountID orgID repoUUID publishTaskID);
              match t2 with
              | inl e => mret (error_response e "Error enqueueing task")
              | inr _ =>
                  ts ← attempt (on_db (InternalOnlyGetTemplatesForRepoConfig scan_templates scan_trcs snapshots_enabled content_path
                                         SnapshotRetainDaysLimit now repoUUID false));
                  match ts with
                  | inl e => mret (error_response e "Error fetching templates for repository")
                  | inr ts =>
                      failed ← enqueue_template_updates accountID orgID repoUUID publishTaskID ts;
                      mret (match failed with Some resp => resp | None => RespSnapshot snapshot end)
                  end
              end
          end
      end
  end.

(** ** external_repos/commands/cleanup.go *)

(** [slices.SortFunc] by creation time; between equal times any order may come out, of which this is one. *)
Definition older_or_same (x y : uuid * SnapRow) : Prop := (x.2.(s_CreatedAt) ≤ y.2.(s_CreatedAt))%Z.
#[local] Instance older_or_same_dec : RelDecision older_or_same := λ x y, decide ((x.2.(s_CreatedAt) ≤ y.2.(s_CreatedAt))%Z).

(** The loop over the sorted snapshots: the newest is kept if all others go. *)
Fixpoint outdated (n : nat) (i : nat) (acc : list uuid) (cutoff : time) (snaps : list (uuid * SnapRow)) : list uuid :=
  match snaps with
  | [] => acc
  | (u, s) :: snaps' =>
      if (i =? n - 1)%nat && (length acc =? n - 1)%nat then acc
      else outdated n (S i) (if (s.(s_CreatedAt) <? cutoff)%Z then (acc ++ [u])%list else acc) cutoff snaps'
  end.

Definition for_repository (msg : string) (c : ConfigRow) : goerr := ErrPlain (msg +:+ " for repository " +:+ (c_Name c)).

Definition enqueueSnapshotCleanupForRepoConfig (now : time) (olderThanDays : Z) (rc : uuid) (c : ConfigRow) : HM () :=
  snaps ← map_err (λ _, for_repository "error fetching snapshots" c) (on_db (FetchForRepoConfigUUID scan (uuid_String rc) true));
  if (length snaps <? 2)%nat then mret ()
  else
    let cutoff := (now - olderThanDays * Day)%Z in
    let toBeDeleted := take maxSnapshotsPerDeleteTask
                         (outdated (length snaps) 0 [] cutoff (merge_sort older_or_same snaps)) in
    if (length toBeDeleted =? 0)%nat then throw (for_repository "no outdated snapshot found" c)
    else
      inProgress ← map_err (λ _, for_repository "error fetching delete repository snapshots task" c)
                     (TaskInfo_FetchActiveTasks c.(c_OrgID) (uuid_String rc) [DeleteRepositorySnapshotsTask; DeleteSnapshotsTask]);
      if (1 <=? length inProgress)%nat then throw (for_repository "error, delete is already in progress" c)
      else
        _ ← iter (λ u, map_err (ErrWrapped "could not soft delete snapshot") (on_db (SoftDelete now (uuid_String u)))) toBeDeleted;
        _ ← map_err (λ _, for_repository "error enqueueing delete snapshots task" c)
              (EnqueueTask DeleteSnapshotsTask (DeleteSnapshotsPayload (uuid_String rc) (uuid_String <$> toBeDeleted)) c.(c_OrgID)
                 c.(c_AccountID) (uuid_String c.(c_RepositoryUUID)) ObjectTypeRepository []);
        mret ().
End Handlers.
