(* ===== verification/SnapshotHandlerThms.v ===== *)
(** * What publishing and deleting snapshots guarantee *)

From S2P Require Import Prelude GoStrings GoSplit Config TxMonad Utils Models Errors DaoHelpers SnapshotDao SnapshotThms SnapshotHandler.
From stdpp Require Import options.

Open Scope string_scope.

(** ** Operations that only read *)

Definition keeps {D E A} (m : M D E A) : Prop := ∀ fs d r fs' d', m (fs, d) = (r, (fs', d')) → d' = d.

Section Keeps.
Context {D E : Type}.

Lemma keeps_ret {A} (a : A) : keeps (mret a : M D E A).
Proof. intros fs d r fs' d' H. unfold mret, M_ret in H. by simplify_eq. Qed.
Lemma keeps_throw {A} (e : E) : keeps (throw e : M D E A).
Proof. intros fs d r fs' d' H. unfold throw in H. by simplify_eq. Qed.
Lemma keeps_bind {A B} (m : M D E A) (k : A → M D E B) : keeps m → (∀ a, keeps (k a)) → keeps (m ≫= k).
Proof.
  intros Hm Hk fs d r fs' d' H. unfold mbind, M_bind in H. destruct (m (fs, d)) as [[e|a] [fs1 d1]] eqn:E1; simplify_eq.
  - by eapply Hm.
  - apply Hk in H. apply Hm in E1. congruence.
Qed.
Lemma keeps_map_err {A} (g : E → E) (m : M D E A) : keeps m → keeps (map_err g m).
Proof.
  intros Hm fs d r fs' d' H. unfold map_err in H. destruct (m (fs, d)) as [[e|a] [fs1 d1]] eqn:E1; simplify_eq; by eapply Hm.
Qed.
Lemma keeps_call {A} (f : D → (E + A) * D) : (∀ d, (f d).2 = d) → keeps (db_call f).
Proof.
  intros Hf fs d r fs' d' H. specialize (Hf d). unfold db_call in H.
  destruct fs as [|[e|] fs], (f d) as [r1 d1] eqn:E1; by simplify_eq/=.
Qed.
Lemma keeps_noop : keeps (db_noop : M D E ()).
Proof. by apply keeps_call. Qed.
End Keeps.
#[export] Hint Resolve keeps_ret keeps_throw keeps_bind keeps_map_err keeps_noop : go.

(** Case on what a read looks at. *)
Ltac keeps_tac :=
  repeat (first [apply keeps_ret | apply keeps_throw | apply keeps_noop | apply keeps_map_err
                | apply keeps_bind; [|intros ?] | apply keeps_call; intros ?; by repeat case_match | case_match]).

Lemma keeps_attempt {A} (m : HM A) : keeps m → keeps (attempt m).
Proof. intros Hm fs w r fs' w' Hrun. unfold attempt in Hrun. destruct (m (fs, w)) as [r1 [fs1 w1]] eqn:E. simplify_eq. by eapply Hm. Qed.

Lemma keeps_on_db {A} (m : DB A) : keeps m → keeps (on_db m).
Proof.
  intros Hm fs [d ts] r fs' w' Hrun. unfold on_db in Hrun. simpl in Hrun. destruct (m (fs, d)) as [r1 [fs1 d1]] eqn:E. simplify_eq.
  apply Hm in E. by subst.
Qed.

(** A run that returns at once. *)
Ltac run_ret := match goal with H : mret _ _ = _ |- _ => unfold mret, M_ret in H; simplify_eq end.

(** A run of an operation whose error is a value. *)
Lemma attempt_eq {A} (m : HM A) w r w' : attempt m w = (inr r, w') ↔ m w = (r, w').
Proof. unfold attempt. destruct (m w) as [r1 w1]. naive_solver. Qed.

Lemma attempt_never_fails {A} (m : HM A) w e w' : ¬ attempt m w = (inl e, w').
Proof. unfold attempt. by destruct (m w). Qed.

Lemma attempt_bind {A B} (m : HM A) (k : goerr + A → HM B) w : (r ← attempt m; k r) w = (let '(r, w') := m w in k r w').
Proof. unfold mbind, M_bind, attempt. by destruct (m w). Qed.

Lemma on_db_inr {A} (m : DB A) fs d ts r fs' w' :
  on_db m (fs, mk_world d ts) = (r, (fs', w')) → ∃ d', m (fs, d) = (r, (fs', d')) ∧ w' = mk_world d' ts.
Proof. unfold on_db. simpl. destruct (m (fs, d)) as [r1 [fs1 d1]]. intros; simplify_eq. eauto. Qed.

Section Thms.
Context `{UT : UuidText, !UuidLaws}.
Context (scan : gmap uuid SnapRow → list (uuid * SnapRow)).
Hypothesis scan_perm : ∀ m, scan m ≡ₚ map_to_list m.
Context (snapshots_enabled : bool) (content_path : goerr + string).
#[local] Set Default Proof Using "Type*".

Abbreviation isDeleteAllowed := (isDeleteAllowed scan snapshots_enabled content_path).

Lemma Uuidify_String u : Uuidify (uuid_String u) = u.
Proof. unfold UuidifyString. by rewrite parse_String. Qed.

Lemma uuid_String_inj u v : uuid_String u = uuid_String v → u = v.
Proof. intros Hrun. apply (f_equal uuid_Parse) in Hrun. rewrite !parse_String in Hrun. by simplify_eq. Qed.

Lemma keeps_fetchRepoConfig org u b : keeps (fetchRepoConfig org u b).
Proof. unfold fetchRepoConfig. keeps_tac. Qed.

Lemma keeps_overrides v org : keeps (applyPartnerResponseOverrides v org).
Proof.
  unfold applyPartnerResponseOverrides. destruct (negb _); [apply keeps_ret|]. destruct (is_published _); [apply keeps_ret|].
  intros fs d r fs' d' Hrun. unfold db_call in Hrun. destruct fs as [|[e|] fs]; by simplify_eq.
Qed.

Lemma keeps_RepositoryConfig_Fetch org u : keeps (RepositoryConfig_Fetch snapshots_enabled content_path org u).
Proof.
  unfold RepositoryConfig_Fetch. apply keeps_bind; [apply keeps_fetchRepoConfig|intros [rc c]].
  apply keeps_bind; [unfold preload_view; keeps_tac|intros v]. apply keeps_bind; [|intros; apply keeps_overrides].
  destruct (_ && _); keeps_tac.
Qed.

(** What is fetched belongs to the caller's organization or a shared one, unless the response hides the organization of a
    foreign partner. *)
Lemma RepositoryConfig_Fetch_inr org rc fs d v fs' d' :
  RepositoryConfig_Fetch snapshots_enabled content_path org (uuid_String rc) (fs, d) = (inr v, (fs', d')) →
  ∃ c, d.(configs) !! rc = Some c ∧ config_live c = true ∧
    (v.(v_OrgID) = CommunityOrg ∨ v.(v_OrgID) = c.(c_OrgID) ∧ c.(c_OrgID) ∈ shared_repository_orgs org).
Proof.
  unfold RepositoryConfig_Fetch. intros ([rc' c] & [fs1 d1] & Hf & Hrun)%bind_inr.
  pose proof (keeps_fetchRepoConfig _ _ _ _ _ _ _ _ Hf) as ->.
  unfold fetchRepoConfig in Hf. apply map_err_inr, call_inr in Hf. rewrite Uuidify_String in Hf.
  destruct (d.(configs) !! rc) as [c'|] eqn:Hc; [|done]. destruct (config_live c' && _) eqn:Hok; [|done]. simplify_eq.
  apply andb_true_iff in Hok as [Hlive Hvis]. exists c. split; [done|]. split; [done|].
  apply bind_inr in Hrun as (v0 & [fs2 d2] & Hp & Hrun). unfold preload_view in Hp. apply map_err_inr, call_inr in Hp. simplify_eq.
  apply bind_inr in Hrun as ([] & [fs3 d3] & _ & Hrun). unfold applyPartnerResponseOverrides in Hrun. simpl in Hrun.
  destruct (c_Partner c && (c_OrgID c != org)) eqn:Hpartner; simpl in Hrun.
  - left. destruct (is_published _); [by apply ret_inr in Hrun as [<- _]|]. unfold db_call in Hrun.
    destruct fs3 as [|[e|] fs3]; by simplify_eq.
  - right. apply ret_inr in Hrun as [<- _]. simpl. split; [done|]. apply orb_true_iff in Hvis as [Hin|Hfp]; [by apply contains_true|].
    unfold foreign_partner_visible in Hfp. rewrite Hpartner in Hfp. done.
Qed.

Lemma keeps_isDeleteInProgress org repo : keeps (isDeleteInProgress org repo).
Proof. unfold isDeleteInProgress. apply keeps_bind; [apply keeps_attempt, keeps_call; done|intros; apply keeps_ret]. Qed.

Lemma keeps_FetchForRepoConfigUUID repo b : keeps (FetchForRepoConfigUUID scan repo b).
Proof.
  unfold FetchForRepoConfigUUID. assert (∀ f : db → (goerr + list (uuid * SnapRow)) * db, (∀ d, (f d).2 = d) →
    keeps (λ w, match db_call f w with (inl _, w') => (inr [], w') | r => r end)) as Hq.
  { intros f Hf fs d r fs' d' Hrun. destruct (db_call f (fs, d)) as [[e|a] [fs1 d1]] eqn:E; simplify_eq; by eapply keeps_call. }
  destruct b; [apply keeps_call|apply Hq]; intros d; by repeat case_match.
Qed.

Lemma FetchForRepo_live repo fs d snaps fs' d' us :
  FetchForRepoConfigUUID scan repo false (fs, d) = (inr snaps, (fs', d')) → us ∈ snaps →
  d.(snapshots) !! us.1 = Some us.2 ∧ pg_uuid repo = Some (repo_of us) ∧ us.2.(s_DeletedAt) = None.
Proof.
  unfold FetchForRepoConfigUUID. intros Hrun Hus.
  destruct (db_call _ _) as [[e|a] [fs1 d1]] eqn:E; simplify_eq; [by apply not_elem_of_nil in Hus|].
  apply call_inr in E. destruct (pg_uuid repo) as [rc|]; simplify_eq.
  apply list_elem_of_filter in Hus as [[Hr Hl] Hin]. destruct us as [u s]. simpl in *. rewrite scan_perm, elem_of_map_to_list in Hin. naive_solver.
Qed.

(** ** What may be deleted *)

(** A snapshot a request may name: not deleted and not published. *)
Definition deletable (d : db) (rc : uuid) (uuid_ : string) : Prop :=
  ∃ u s, uuid_ = uuid_String u ∧ d.(snapshots) !! u = Some s ∧ s.(s_RepositoryConfigurationUUID) = rc ∧
         s.(s_DeletedAt) = None ∧ s.(s_Published) = false.

Definition delete_allowed (d : db) (orgID : string) (rc : uuid) (uuids : list string) : Prop :=
  (∃ c, d.(configs) !! rc = Some c ∧ config_live c = true ∧ c.(c_OrgID) ∈ [orgID; LightwellOrg; LightwellDemoOrg]) ∧
  (∀ u, u ∈ uuids → deletable d rc u) ∧ (length uuids < length (live_of d rc))%nat.

Lemma check_snapshots_ok snaps uuids errs :
  check_snapshots snaps uuids = inr errs → has_error errs = false →
  ∀ u, u ∈ uuids → ∃ us, us ∈ snaps ∧ u = uuid_String us.1 ∧ us.2.(s_Published) = false.
Proof.
  revert errs. induction uuids as [|u uuids IH]; intros errs Hc He v Hv; [by apply not_elem_of_nil in Hv|].
  simpl in Hc. unfold findSnapInRepo in Hc. destruct (list_find _ snaps) as [[i us]|] eqn:Hf.
  - destruct (s_Published us.2) eqn:Hp; [done|]. destruct (check_snapshots snaps uuids) as [|errs'] eqn:Hc'; [done|]. simplify_eq.
    apply list_find_Some in Hf as (Hin & Heq & _). apply elem_of_cons in Hv as [->|Hv]; [|by eapply IH].
    exists us. split; [by eapply list_elem_of_lookup_2|done].
  - destruct (check_snapshots snaps uuids) as [|errs'] eqn:Hc'; [done|]. by simplify_eq.
Qed.

Lemma live_of_length rc fs d snaps fs' d' :
  FetchForRepoConfigUUID scan (uuid_String rc) false (fs, d) = (inr snaps, (fs', d')) → (length snaps ≤ length (live_of d rc))%nat.
Proof.
  unfold FetchForRepoConfigUUID. rewrite pg_String. intros Hrun.
  destruct (db_call _ _) as [[e|a] [fs1 d1]] eqn:E; simplify_eq; [simpl; lia|].
  apply call_inr in E. simplify_eq. unfold live_of. rewrite (scan_perm d'.(snapshots)).
  apply Nat.eq_le_incl. f_equal. apply list_filter_iff. naive_solver.
Qed.

Lemma isDeleteInProgress_run org repo w r w' : isDeleteInProgress org repo w = (r, w') →
  ∃ o, r = inr o ∧ o ≠ Some RespNoContent.
Proof.
  unfold isDeleteInProgress. rewrite attempt_bind. destruct (TaskInfo_FetchActiveTasks _ _ _ _) as [[e|[|? ?]] ?]; intros Hrun; run_ret;
    by eexists.
Qed.

Lemma check_snapshots_denies snaps uuids resp : check_snapshots snaps uuids = inl resp → resp ≠ RespNoContent.
Proof.
  induction uuids as [|u uuids IH]; simpl; [done|]. intros Hc. repeat case_match; simplify_eq; auto.
Qed.

Lemma errors_response_denies title errs : errors_response title errs ≠ RespNoContent.
Proof. unfold errors_response. by case_match. Qed.

(** The outcome of the check, for any spelling of the UUIDs. *)
Lemma isDeleteAllowed_gen org repo uuids fs w r fs' w' :
  isDeleteAllowed org repo uuids (fs, w) = (r, (fs', w')) →
  w' = w ∧ ∃ o, r = inr o ∧ o ≠ Some RespNoContent ∧
    (o = None → ∃ v fs1 fs2 fs3 snaps,
       RepositoryConfig_Fetch snapshots_enabled content_path org repo (fs, w.(w_db)) = (inr v, (fs1, w.(w_db))) ∧
       v.(v_OrgID) ≠ RedHatOrg ∧ v.(v_OrgID) ≠ CommunityOrg ∧
       FetchForRepoConfigUUID scan repo false (fs2, w.(w_db)) = (inr snaps, (fs3, w.(w_db))) ∧
       (∀ u, u ∈ uuids → ∃ us, us ∈ snaps ∧ u = uuid_String us.1 ∧ us.2.(s_Published) = false) ∧
       (length uuids < length snaps)%nat).
Proof.
  destruct w as [d ts]. unfold SnapshotHandler.isDeleteAllowed. rewrite attempt_bind.
  destruct (on_db (RepositoryConfig_Fetch _ _ _ _) _) as [[e|v] [fs1 w1]] eqn:Hrc; intros Hrun;
    pose proof (keeps_on_db _ (keeps_RepositoryConfig_Fetch _ _) _ _ _ _ _ Hrc) as ->; [run_ret; naive_solver|].
  apply on_db_inr in Hrc as (d1 & Hrc & [= <-]).
  destruct (_ || _) eqn:Hshared; [run_ret; naive_solver|]. apply orb_false_iff in Hshared as [Hnrh Hncm].
  unfold mbind at 1, M_bind in Hrun. destruct (isDeleteInProgress _ _ _) as [busy [fs2 w2]] eqn:Hbusy.
  pose proof (keeps_isDeleteInProgress _ _ _ _ _ _ _ Hbusy) as ->.
  apply isDeleteInProgress_run in Hbusy as ([resp|] & -> & Hbusy); [run_ret; naive_solver|].
  rewrite attempt_bind in Hrun. destruct (on_db (FetchForRepoConfigUUID _ _ _) _) as [snaps [fs3 w3]] eqn:Hs.
  pose proof (keeps_on_db _ (keeps_FetchForRepoConfigUUID _ _) _ _ _ _ _ Hs) as ->. run_ret. split; [done|]. eexists; split; [done|].
  destruct snaps as [e|snaps]; [done|]. destruct (check_snapshots snaps uuids) as [resp|errs] eqn:Hck.
  { apply check_snapshots_denies in Hck. split; [congruence|done]. }
  destruct (has_error errs) eqn:Herr; [split; [intros [= ?%errors_response_denies]; done|done]|].
  destruct (_ <=? _)%nat eqn:Hlen; [done|]. split; [done|]. intros _.
  apply on_db_inr in Hs as (d3 & Hs & [= <-]). apply Nat.leb_gt in Hlen. apply bool_decide_eq_false in Hnrh, Hncm.
  eexists v, _, _, _, snaps. split_and!; [done..| |done]. by eapply check_snapshots_ok.
Qed.

Lemma isDeleteAllowed_run org rc uuids fs w fs' w' :
  isDeleteAllowed org (uuid_String rc) uuids (fs, w) = (inr None, (fs', w')) → delete_allowed w.(w_db) org rc uuids.
Proof.
  intros (_ & o & [= <-] & _ & Hok)%isDeleteAllowed_gen. destruct (Hok eq_refl) as (v & fs1 & fs2 & fs3 & snaps & Hrc & Hnrh & Hncm & Hs & Hall & Hlen).
  apply RepositoryConfig_Fetch_inr in Hrc as (c & Hc & Hlive & [Hvo|[Hvo Hin]]); rewrite Hvo in Hnrh, Hncm; [done|]. split_and!.
  - exists c. split; [done|]. split; [done|]. unfold shared_repository_orgs in Hin. set_solver.
  - intros u Hu. destruct (Hall u Hu) as ([v' s] & Hin' & -> & Hp).
    destruct (FetchForRepo_live _ _ _ _ _ _ _ Hs Hin') as (? & Hpg & ?). rewrite pg_String in Hpg. exists v', s. naive_solver.
  - apply live_of_length in Hs. lia.
Qed.

(** A snapshot that passed the check is live and not published. *)
Definition unpublished (d : db) (uuid_ : string) : Prop :=
  ∃ u s, uuid_ = uuid_String u ∧ d.(snapshots) !! u = Some s ∧ s.(s_DeletedAt) = None ∧ s.(s_Published) = false.

Lemma isDeleteAllowed_unpublished org repo uuids fs w fs' w' :
  isDeleteAllowed org repo uuids (fs, w) = (inr None, (fs', w')) → ∀ u, u ∈ uuids → unpublished w.(w_db) u.
Proof.
  intros (_ & o & [= <-] & _ & Hok)%isDeleteAllowed_gen u Hu.
  destruct (Hok eq_refl) as (v & fs1 & fs2 & fs3 & snaps & _ & _ & _ & Hs & Hall & _).
  destruct (Hall u Hu) as ([v' s] & Hin & -> & Hp). destruct (FetchForRepo_live _ _ _ _ _ _ _ Hs Hin) as (? & _ & ?).
  exists v', s. done.
Qed.

(** ** The handlers *)

Context (new_id : list QTask → uuid).
Abbreviation deleteSnapshot := (deleteSnapshot scan new_id snapshots_enabled content_path).
Abbreviation bulkDeleteSnapshot := (bulkDeleteSnapshot scan new_id snapshots_enabled content_path).

(** A failing enqueue changes nothing. *)
Lemma enqueueDelete_run acc org repo uuids fs w r fs' w' :
  enqueueDeleteSnapshotsTask new_id acc org repo uuids (fs, w) = (r, (fs', w')) →
  match r with
  | inr _ => w' = mk_world w.(w_db) (w.(w_tasks) ++ [mk_QTask (new_id w.(w_tasks)) DeleteSnapshotsTask
               (DeleteSnapshotsPayload repo uuids) org acc repo ObjectTypeRepository [] true])
  | inl _ => w' = w
  end.
Proof.
  unfold enqueueDeleteSnapshotsTask, EnqueueTask, mbind, M_bind, db_call. intros Hrun. destruct fs as [|[e|] fs]; run_ret || simplify_eq; done.
Qed.

(** A snapshot that is looked up by its printed UUID. *)
Lemma first_snapshot_run scoped u s raw fs d r fs' d' :
  d.(snapshots) !! u = Some s → first_snapshot scoped (Some u) raw (fs, d) = (inr r, (fs', d')) → r = (u, s) ∧ d' = d.
Proof. intros Hu Hrun%call_inr. rewrite Hu in Hrun. destruct (_ && _); by simplify_eq. Qed.

Lemma keeps_first_snapshot scoped p raw : keeps (first_snapshot scoped p raw).
Proof. unfold first_snapshot. keeps_tac. Qed.

Lemma SoftDelete_run now u s fs d r fs' d' :
  d.(snapshots) !! u = Some s → s.(s_DeletedAt) = None →
  SoftDelete now (uuid_String u) (fs, d) = (r, (fs', d')) →
  match r with
  | inr _ => d' = set_snapshots <[u := set_deleted (Some now) s]> d
  | inl _ => d' = d
  end.
Proof.
  intros Hu Hl. unfold SoftDelete, mbind, M_bind. rewrite pg_String. intros Hrun.
  destruct (map_err _ _ _) as [[e|[u' s']] [fs1 d1]] eqn:Hf.
  { simplify_eq. by apply (keeps_map_err _ _ (keeps_first_snapshot _ _ _)) in Hf. }
  apply map_err_inr, (first_snapshot_run _ _ _ _ _ _ _ _ _ Hu) in Hf as [[= -> ->] ->]. unfold is_live in Hrun. rewrite Hl in Hrun.
  destruct r as [e|[]].
  - by apply call_inl in Hrun as [?|?]; simplify_eq.
  - apply call_inr in Hrun. simplify_eq. unfold set_snapshots. f_equal. apply map_eq. intros v. destruct (decide (v = u)) as [->|].
    + rewrite lookup_alter_eq, lookup_insert_eq, Hu. simpl. unfold is_live. by rewrite Hl.
    + by rewrite lookup_alter_ne, lookup_insert_ne.
Qed.

Lemma ClearDeletedAt_run u s fs d r fs' d' :
  d.(snapshots) !! u = Some s →
  ClearDeletedAt (uuid_String u) (fs, d) = (r, (fs', d')) →
  match r with inr _ => d' = set_snapshots <[u := set_deleted None s]> d | inl _ => d' = d end.
Proof.
  intros Hu. unfold ClearDeletedAt, mbind, M_bind. rewrite pg_String. intros Hrun.
  destruct (map_err _ _ _) as [[e|[u' s']] [fs1 d1]] eqn:Hf.
  { simplify_eq. by apply (keeps_map_err _ _ (keeps_first_snapshot _ _ _)) in Hf. }
  apply map_err_inr, (first_snapshot_run _ _ _ _ _ _ _ _ _ Hu) in Hf as [[= -> ->] ->].
  destruct r as [e|[]].
  - by apply call_inl in Hrun as [?|?]; simplify_eq.
  - apply call_inr in Hrun. simplify_eq. unfold set_snapshots. f_equal. apply map_eq. intros v. destruct (decide (v = u)) as [->|].
    + by rewrite lookup_alter_eq, lookup_insert_eq, Hu.
    + by rewrite lookup_alter_ne, lookup_insert_ne.
Qed.

(** Marking and unmarking a snapshot leaves the database as it was. *)
Lemma set_deleted_restored now u s d :
  d.(snapshots) !! u = Some s → s.(s_DeletedAt) = None →
  set_snapshots <[u := set_deleted None (set_deleted (Some now) s)]> (set_snapshots <[u := set_deleted (Some now) s]> d) = d.
Proof.
  intros Hu Hl. destruct d as [cs rs ss ts xs]. unfold set_snapshots. simpl in *. f_equal. rewrite insert_insert_eq. apply insert_id.
  rewrite Hu. f_equal. destruct s. simpl in *. by subst.
Qed.

Definition delete_task (ts : list QTask) (acc org repo : string) (uuids : list string) : QTask :=
  mk_QTask (new_id ts) DeleteSnapshotsTask (DeleteSnapshotsPayload repo uuids) org acc repo ObjectTypeRepository [] true.

(** What a run of the handler does. *)
Lemma deleteSnapshot_run now acc org repo snap fs w r fs' w' :
  deleteSnapshot now acc org repo snap (fs, w) = (r, (fs', w')) →
  ∃ resp, r = inr resp ∧
    (resp = RespNoContent →
       (∃ fs1, isDeleteAllowed org repo [snap] (fs, w) = (inr None, (fs1, w))) ∧
       ∃ u s, snap = uuid_String u ∧ w.(w_db).(snapshots) !! u = Some s ∧ s.(s_Published) = false ∧
         w' = mk_world (set_snapshots <[u := set_deleted (Some now) s]> w.(w_db))
                (w.(w_tasks) ++ [delete_task w.(w_tasks) acc org repo [snap]])) ∧
    (resp ≠ RespNoContent →
       w'.(w_tasks) = w.(w_tasks) ∧
       (w'.(w_db) = w.(w_db) ∨
        (∃ u s, w.(w_db).(snapshots) !! u = Some s ∧ s.(s_Published) = false ∧
           w'.(w_db) = set_snapshots <[u := set_deleted (Some now) s]> w.(w_db)) ∧
        ∃ e, resp = error_response e "Error clearing deleted_at field")).
Proof.
  unfold SnapshotHandler.deleteSnapshot. unfold mbind at 1, M_bind.
  destruct (isDeleteAllowed _ _ _ _) as [o [fs1 w1]] eqn:Ha. pose proof Ha as Ha'.
  apply isDeleteAllowed_gen in Ha as (-> & o' & -> & Hno & _).
  intros Hrun. destruct o' as [resp|]; [run_ret; naive_solver|].
  destruct (isDeleteAllowed_unpublished _ _ _ _ _ _ _ Ha' snap) as (u & s & -> & Hu & Hl & Hp); [by left|].
  rewrite attempt_bind in Hrun. destruct w as [d ts]. destruct (on_db (SoftDelete _ _) _) as [r1 [fs2 w2]] eqn:Hsd.
  apply on_db_inr in Hsd as (d2 & Hsd & ->). apply (SoftDelete_run _ _ _ _ _ _ _ _ Hu Hl) in Hsd.
  destruct r1 as [e|[]]; subst d2; [run_ret; naive_solver|].
  rewrite attempt_bind in Hrun. destruct (enqueueDeleteSnapshotsTask _ _ _ _ _ _) as [r2 [fs3 w3]] eqn:Hq.
  apply enqueueDelete_run in Hq. simpl in Hq. destruct r2 as [e|[]]; subst w3.
  - rewrite attempt_bind in Hrun. destruct (on_db (ClearDeletedAt _) _) as [r3 [fs4 w4]] eqn:Hcl.
    apply on_db_inr in Hcl as (d4 & Hcl & ->). run_ret. eexists; split; [done|].
    eapply ClearDeletedAt_run in Hcl; [|apply lookup_insert_eq]. destruct r3 as [e'|[]]; subst d4.
    + split; [done|]. intros _. split; [done|]. right. split; [|by eexists]. exists u, s. done.
    + split; [done|]. intros _. split; [done|]. left. by apply set_deleted_restored.
  - run_ret. eexists; split; [done|]. split; [|done]. intros _. split; [by eexists|]. by exists u, s.
Qed.

(** Deleting a snapshot. Whatever calls to the database and the queue fail, [deleteSnapshot] answers. It answers 204
    only if the snapshot is a live and unpublished one of the repository, the repository is the caller's (or a Lightwell
    one) and not deleted, and another live snapshot remains; then exactly this snapshot has been marked as deleted and
    exactly one task has been enqueued. With any other answer no task has been enqueued, and the database is as before
    unless the answer is that the mark could not be cleared after the queue had failed. *)
Theorem delete_snapshot_guarded now acc org rc snap fs w r fs' w' :
  deleteSnapshot now acc org (uuid_String rc) snap (fs, w) = (r, (fs', w')) →
  ∃ resp, r = inr resp ∧
    (resp = RespNoContent →
       delete_allowed w.(w_db) org rc [snap] ∧
       ∃ u s, snap = uuid_String u ∧ w.(w_db).(snapshots) !! u = Some s ∧
         w' = mk_world (set_snapshots <[u := set_deleted (Some now) s]> w.(w_db))
                (w.(w_tasks) ++ [delete_task w.(w_tasks) acc org (uuid_String rc) [snap]])) ∧
    (resp ≠ RespNoContent →
       w'.(w_tasks) = w.(w_tasks) ∧
       (w'.(w_db) = w.(w_db) ∨ ∃ e, resp = error_response e "Error clearing deleted_at field")).
Proof.
  intros (resp & -> & Hno & Hother)%deleteSnapshot_run. exists resp. split; [done|]. split; [|naive_solver].
  intros ->. destruct (Hno eq_refl) as ((fs1 & Ha) & u & s & ? & ? & _ & ?). split; [by eapply isDeleteAllowed_run|]. by exists u, s.
Qed.
End Thms.
