(* ===== verification/SnapshotBulk.v ===== *)
(** * What deleting many snapshots at once guarantees *)

From S2P Require Import Prelude GoStrings GoSplit Config TxMonad Utils Models Errors DaoHelpers GoText SnapshotDao SnapshotThms SnapshotHandler SnapshotHandlerThms.
From stdpp Require Import options.

Open Scope string_scope.

(** ** Databases that differ in marks *)

(** [d] is [d0] but for the deletion times of the snapshots in [U]. *)
Record marked (U : uuid → Prop) (d0 d : db) : Prop := {
  marked_rest : d = set_snapshots (λ _, d.(snapshots)) d0;
  marked_out u : ¬ U u → d.(snapshots) !! u = d0.(snapshots) !! u;
  marked_in u : set_deleted None <$> d.(snapshots) !! u = set_deleted None <$> d0.(snapshots) !! u
}.

Definition mark (now : time) (u : uuid) (d : db) : db :=
  set_snapshots (alter (λ s, if is_live s then set_deleted (Some now) s else s) u) d.
Definition unmark (u : uuid) (d : db) : db := set_snapshots (alter (set_deleted None) u) d.
Definition mark_all (now : time) (vs : list uuid) (d : db) : db := foldl (λ d u, mark now u d) d vs.
Definition unmark_all (vs : list uuid) (d : db) : db := foldl (λ d u, unmark u d) d vs.

Lemma marked_refl U d : marked U d d.
Proof. split; [by destruct d|done..]. Qed.

Lemma marked_alter U d0 d u f :
  U u → (∀ s, set_deleted None (f s) = set_deleted None s) → marked U d0 d → marked U d0 (set_snapshots (alter f u) d).
Proof.
  intros Hu Hf [H1 H2 H3]. split.
  - rewrite H1. done.
  - intros v Hv. simpl. rewrite lookup_alter_ne by (intros ->; done). auto.
  - intros v. simpl. rewrite <-H3. destruct (decide (v = u)) as [->|]; [|by rewrite lookup_alter_ne].
    rewrite lookup_alter_eq. destruct (snapshots d !! u); simpl; [by rewrite Hf|done].
Qed.

Lemma marked_mark U d0 d now u : U u → marked U d0 d → marked U d0 (mark now u d).
Proof. intros. apply marked_alter; [done| |done]. intros s. by destruct (is_live s). Qed.
Lemma marked_unmark U d0 d u : U u → marked U d0 d → marked U d0 (unmark u d).
Proof. intros. by apply marked_alter. Qed.

Lemma marked_mark_all (U : uuid → Prop) d0 d now vs : (∀ u, u ∈ vs → U u) → marked U d0 d → marked U d0 (mark_all now vs d).
Proof.
  revert d. induction vs as [|v vs IH]; intros d Hall Hd; [done|]. simpl.
  apply IH; [intros; apply Hall; by right|]. apply marked_mark; [apply Hall; by left|done].
Qed.
Lemma marked_unmark_all (U : uuid → Prop) d0 d vs : (∀ u, u ∈ vs → U u) → marked U d0 d → marked U d0 (unmark_all vs d).
Proof.
  revert d. induction vs as [|v vs IH]; intros d Hall Hd; [done|]. simpl.
  apply IH; [intros; apply Hall; by right|]. apply marked_unmark; [apply Hall; by left|done].
Qed.
#[export] Hint Resolve marked_refl marked_mark marked_unmark marked_mark_all marked_unmark_all : go.

Lemma set_deleted_None s : s.(s_DeletedAt) = None → set_deleted None s = s.
Proof. destruct s; simpl. by intros ->. Qed.

(** After clearing, every named row is live. *)
Lemma unmark_all_live vs d u s :
  (unmark_all vs d).(snapshots) !! u = Some s →
  u ∈ vs ∨ (∀ s0, d.(snapshots) !! u = Some s0 → s0.(s_DeletedAt) = None) → s.(s_DeletedAt) = None.
Proof.
  revert d. induction vs as [|v vs IH]; intros d Hs Hor; simpl in *.
  { destruct Hor as [?%not_elem_of_nil|Hl]; [done|]. by apply Hl. }
  apply IH in Hs; [done|]. simpl. destruct (decide (u = v)) as [->|Hne].
  - right. rewrite lookup_alter_eq. by intros s0 (s1 & _ & ->)%fmap_Some.
  - rewrite lookup_alter_ne by done. destruct Hor as [[?|?]%elem_of_cons|?]; [done|by left|by right].
Qed.

(** Clearing the marks on rows that were live leaves the database as it was. *)
Lemma unmark_all_restores vs d d' :
  (∀ u s, u ∈ vs → d.(snapshots) !! u = Some s → s.(s_DeletedAt) = None) → marked (.∈ vs) d d' → unmark_all vs d' = d.
Proof.
  intros Hlive Hm. assert (marked (.∈ vs) d (unmark_all vs d')) as [H1 H2 H3] by eauto with go.
  rewrite H1. destruct d as [cs rs ss ts xs]. unfold set_snapshots. simpl in *. f_equal. apply map_eq. intros u.
  destruct (decide (u ∈ vs)) as [Hin|]; [|by apply H2].
  specialize (H3 u). destruct (snapshots _ !! u) as [s|] eqn:Hs, (ss !! u) as [s0|] eqn:Hs0; simpl in H3; try done.
  apply unmark_all_live in Hs; [|by left]. rewrite !set_deleted_None in H3 by eauto. done.
Qed.

Section Bulk.
Context `{UT : UuidText, UL : !UuidLaws}.
#[local] Set Default Proof Using "Type*".

Lemma keeps_fetch x : keeps (fetch x).
Proof.
  unfold fetch. apply keeps_map_err, keeps_bind; [apply keeps_first_snapshot|intros us]. apply keeps_bind; [by apply keeps_call|].
  intros; apply keeps_ret.
Qed.

Lemma fetch_uuid v fs d us c w : fetch (uuid_String v) (fs, d) = (inr (us, c), w) → us.1 = v.
Proof.
  unfold fetch. rewrite Uuidify_String. intros (us' & [fs1 d1] & Hf & (c' & w2 & _ & [[= -> ->] _]%ret_inr)%bind_inr)%map_err_inr%bind_inr.
  apply call_inr in Hf. repeat case_match; by simplify_eq.
Qed.

(** The loop answers for every UUID; without an error it has marked all. *)
Lemma bulkDelete_run now d0 vs fs d r fs' d' :
  bulkDelete now d0 (uuid_String <$> vs) (fs, d) = (r, (fs', d')) →
  ∃ errs, r = inr errs ∧ length errs = length vs ∧ (has_error errs = false → d' = mark_all now vs d).
Proof.
  revert fs d r fs' d'. induction vs as [|v vs IH]; intros fs d r fs' d' Hrun.
  { simpl in Hrun. run_ret. by exists []. }
  rewrite fmap_cons in Hrun. cbn [bulkDelete] in Hrun.
  destruct ((us ← read_at d0 (fetch (uuid_String v)); soft_delete now us.1.1) (fs, d)) as [[e|[]] [fs1 d1]] eqn:H1.
  - unfold mbind at 1, M_bind in Hrun. destruct (bulkDelete _ _ _ _) as [r2 [fs2 d2]] eqn:H2.
    apply IH in H2 as (errs & -> & Hlen & _). run_ret. eexists; split; [done|]. split; [simpl; lia|done].
  - apply bind_inr in H1 as ([us c] & [fs2 d2] & Hf & Hs). unfold read_at in Hf.
    destruct (fetch _ (fs, d0)) as [r3 [fs3 d3]] eqn:Hf'. simplify_eq. apply fetch_uuid in Hf'. apply call_inr in Hs. simpl in Hs. simplify_eq.
    unfold mbind at 1, M_bind in Hrun. destruct (bulkDelete _ _ _ _) as [r2 [fs4 d4]] eqn:H2.
    apply IH in H2 as (errs & -> & Hlen & Hm). run_ret. eexists; split; [done|]. split; [simpl; lia|]. done.
Qed.

Lemma BulkDelete_run now vs fs d r fs' d' :
  BulkDelete now (uuid_String <$> vs) (fs, d) = (r, (fs', d')) →
  ∃ errs, r = inr errs ∧ (d' = d ∨ errs = [] ∧ d' = mark_all now vs d).
Proof.
  unfold BulkDelete. destruct (db_noop (fs, d)) as [[e|[]] [fs1 d1]] eqn:H1.
  { intros ?; simplify_eq. pose proof (noop_inl _ _ _ _ _ H1) as ->. naive_solver. }
  pose proof (noop_inr _ _ _ _ H1) as ->. destruct (bulkDelete _ _ _ _) as [r2 [fs2 d2]] eqn:H2.
  pose proof (bulkDelete_run _ _ _ _ _ _ _ _ H2) as (errs & -> & Hlen & Hm). destruct (has_error errs) eqn:He.
  { destruct (db_noop (fs2, d2)) as [? [? ?]]. intros [= <- _ <-]. exists errs. split; [done|by left]. }
  destruct (db_noop (fs2, d2)) as [[e|[]] [fs3 d3]] eqn:H3; intros [= <- <- <-]; exists []; (split; [done|]); [by left|].
  pose proof (noop_inr _ _ _ _ H3) as ->. right. auto.
Qed.

(** Without failures every snapshot is marked. *)
Lemma bulkDelete_quiet now d0 vs d :
  (∀ u, u ∈ vs → ∃ s, d0.(snapshots) !! u = Some s ∧ s.(s_DeletedAt) = None) →
  bulkDelete now d0 (uuid_String <$> vs) ([], d) = (inr ((λ _, None) <$> vs), ([], mark_all now vs d)).
Proof.
  revert d. induction vs as [|v vs IH]; intros d Hall; [done|]. rewrite fmap_cons. cbn [bulkDelete].
  destruct (Hall v) as (s & Hs & Hl); [by left|].
  assert (fetch (uuid_String v) ([], d0) = (inr ((v, s), preload_config d0 s), ([], d0))) as Hf.
  { unfold fetch. rewrite Uuidify_String. apply map_err_ok. erewrite bind_eq; [|apply call_eq; rewrite Hs; unfold is_live; rewrite Hl; done].
    done. }
  erewrite bind_eq by (unfold read_at; rewrite Hf; done). cbn [soft_delete db_call fst]. unfold soft_delete. simpl.
  erewrite bind_eq by (apply IH; intros; apply Hall; by right). done.
Qed.

Lemma BulkDelete_quiet now vs d :
  (∀ u, u ∈ vs → ∃ s, d.(snapshots) !! u = Some s ∧ s.(s_DeletedAt) = None) →
  BulkDelete now (uuid_String <$> vs) ([], d) = (inr [], ([], mark_all now vs d)).
Proof.
  intros Hall. unfold BulkDelete. simpl. rewrite bulkDelete_quiet by done.
  replace (has_error _) with false; [done|]. symmetry. induction vs; simpl; eauto.
  apply IHvs. intros. apply Hall. by right.
Qed.

(** ** The handler *)

Context (scan : gmap uuid SnapRow → list (uuid * SnapRow)).
Hypothesis scan_perm : ∀ m, scan m ≡ₚ map_to_list m.
Context (snapshots_enabled : bool) (content_path : goerr + string) (new_id : list QTask → uuid).
Abbreviation isDeleteAllowed := (isDeleteAllowed scan snapshots_enabled content_path).
Abbreviation bulkDeleteSnapshot := (bulkDeleteSnapshot scan new_id snapshots_enabled content_path).

(** Clearing marks changes nothing but marks; without an error it clears all. *)
Lemma clear_all_run (vs us : list uuid) fs w r fs' w' d0 :
  (∀ u, u ∈ vs → u ∈ us ∧ is_Some (w.(w_db).(snapshots) !! u)) → marked (.∈ us) d0 w.(w_db) →
  clear_all (uuid_String <$> vs) (fs, w) = (r, (fs', w')) →
  ∃ errs, r = inr errs ∧ w'.(w_tasks) = w.(w_tasks) ∧ marked (.∈ us) d0 w'.(w_db) ∧
    (has_error errs = false → w'.(w_db) = unmark_all vs w.(w_db)).
Proof.
  revert fs w r fs' w'. induction vs as [|v vs IH]; intros fs w r fs' w' Hall Hm Hrun.
  { simpl in Hrun. run_ret. by exists []. }
  rewrite fmap_cons in Hrun. cbn [clear_all] in Hrun. rewrite attempt_bind in Hrun. destruct w as [d ts].
  destruct (on_db _ _) as [r1 [fs1 w1]] eqn:H1. apply on_db_inr in H1 as (d1 & H1 & ->).
  destruct (Hall v) as [Hv [s Hs]]; [by left|]. simpl in Hs. eapply ClearDeletedAt_run in H1; [|done].
  assert (set_snapshots <[v := set_deleted None s]> d = unmark v d) as Hun.
  { unfold unmark, set_snapshots. f_equal. apply map_eq. intros u. destruct (decide (u = v)) as [->|].
    - by rewrite lookup_alter_eq, lookup_insert_eq, Hs.
    - by rewrite lookup_alter_ne, lookup_insert_ne. }
  assert (marked (.∈ us) d0 d1 ∧ (∀ u, is_Some (d.(snapshots) !! u) → is_Some (d1.(snapshots) !! u))) as [Hm1 Hdom].
  { destruct r1 as [e|[]]; subst d1; [done|]. rewrite Hun. split; [by apply marked_unmark|]. intros u. simpl.
    destruct (decide (u = v)) as [->|]; [rewrite lookup_alter_eq, Hs; by eexists|by rewrite lookup_alter_ne]. }
  unfold mbind at 1, M_bind in Hrun. destruct (clear_all _ _) as [r2 [fs2 w2]] eqn:H2.
  apply IH in H2 as (errs & -> & Ht & Hm2 & Hu); [|intros x Hx; destruct (Hall x); [by right|]; split; [done|by apply Hdom]|done].
  run_ret. eexists; split; [done|]. split; [done|]. split; [done|]. intros He.
  destruct r1 as [e|[]]; [done|]. rewrite Hu by done. subst d1. simpl. by rewrite Hun.
Qed.

(** Strings that all name snapshots. *)
Lemma unpublished_list d (uuids : list string) :
  (∀ x, x ∈ uuids → unpublished d x) →
  ∃ vs, uuids = uuid_String <$> vs ∧
    ∀ u, u ∈ vs → ∃ s, d.(snapshots) !! u = Some s ∧ s.(s_DeletedAt) = None ∧ s.(s_Published) = false.
Proof.
  induction uuids as [|x uuids IH]; intros Hall; [exists []; split; [done|by intros u ?%not_elem_of_nil]|].
  destruct IH as (vs & -> & Hvs); [intros; apply Hall; by right|]. destruct (Hall x) as (v & s & -> & Hs); [by left|].
  exists (v :: vs). split; [done|]. intros u [->|Hu]%elem_of_cons; eauto.
Qed.

(** What a run of the handler does. *)
Lemma bulkDeleteSnapshot_run now acc org repo uuids fs w r fs' w' :
  bulkDeleteSnapshot now acc org repo uuids (fs, w) = (r, (fs', w')) →
  ∃ resp, r = inr resp ∧
    (w'.(w_db) = w.(w_db) ∨ ∃ vs, uuids = uuid_String <$> vs ∧ (∀ x, x ∈ uuids → unpublished w.(w_db) x) ∧
       marked (.∈ vs) w.(w_db) w'.(w_db)) ∧
    (resp = RespNoContent →
       (∃ fs1, isDeleteAllowed org repo uuids (fs, w) = (inr None, (fs1, w))) ∧
       (1 ≤ length uuids ≤ 100)%nat ∧ w'.(w_tasks) = (w.(w_tasks) ++ [delete_task new_id w.(w_tasks) acc org repo uuids])%list ∧
       ∃ vs, uuids = uuid_String <$> vs ∧ (w'.(w_db) = mark_all now vs w.(w_db) ∨ w'.(w_db) = w.(w_db))) ∧
    (resp ≠ RespNoContent →
       w'.(w_tasks) = w.(w_tasks) ∧
       (w'.(w_db) = w.(w_db) ∨ ∃ errs, resp = errors_response "Error clearing snapshot deleted_at fields" errs)).
Proof.
  unfold SnapshotHandler.bulkDeleteSnapshot, BulkDeleteLimit. destruct (_ =? 0)%nat eqn:H0; [intros; run_ret; naive_solver|].
  destruct (100 <? _)%nat eqn:H100; [intros; run_ret; naive_solver|]. apply Nat.eqb_neq in H0. apply Nat.ltb_ge in H100.
  unfold mbind at 1, M_bind. destruct (isDeleteAllowed _ _ _ _) as [o [fs1 w1]] eqn:Ha. pose proof Ha as Ha'.
  apply isDeleteAllowed_gen in Ha as (-> & o' & -> & Hno & _); [|done].
  intros Hrun. destruct o' as [resp|]; [run_ret; naive_solver|].
  pose proof (isDeleteAllowed_unpublished scan scan_perm _ _ _ _ _ _ _ _ _ Ha') as Hunp.
  destruct (unpublished_list _ _ Hunp) as (vs & Huuids & Hvs). destruct w as [d ts]. simpl in *.
  unfold mbind at 1, M_bind in Hrun. destruct (on_db (BulkDelete _ _) _) as [r1 [fs2 w2]] eqn:Hb.
  apply on_db_inr in Hb as (d2 & Hb & ->). rewrite Huuids in Hb. apply BulkDelete_run in Hb as (errs & -> & Hd2).
  destruct errs as [|e errs].
  2:{ destruct Hd2 as [->|[? _]]; [|done]. run_ret. eexists; split; [done|]. split; [by left|].
      split; [by intros ?%errors_response_denies|]. auto. }
  assert (d2 = mark_all now vs d ∨ d2 = d) as Hd by (destruct Hd2 as [?|[_ ?]]; auto). clear Hd2.
  assert (marked (.∈ vs) d d2) as Hm by (destruct Hd as [->| ->]; eauto with go).
  rewrite attempt_bind in Hrun. destruct (enqueueDeleteSnapshotsTask _ _ _ _ _ _) as [r2 [fs3 w3]] eqn:Hq.
  apply enqueueDelete_run in Hq. simpl in Hq. destruct r2 as [e|[]]; subst w3.
  - unfold mbind at 1, M_bind in Hrun. destruct (clear_all _ _) as [r3 [fs4 w4]] eqn:Hcl. rewrite Huuids in Hcl.
    apply (clear_all_run vs vs _ _ _ _ _ d) in Hcl as (errs & -> & Ht & Hm4 & Hun); [|intros u Hu|done].
    2:{ split; [done|]. destruct (Hvs u Hu) as (s & Hs & _). pose proof (marked_in _ _ _ Hm u) as Heq. rewrite Hs in Heq.
        simpl in *. by destruct (snapshots d2 !! u). }
    run_ret. eexists; split; [done|]. split; [right; by exists vs|]. destruct (has_error errs) eqn:He.
    + split; [by intros ?%errors_response_denies|]. eauto.
    + split; [done|]. intros _. split; [done|]. left. rewrite Hun by done. simpl.
      assert (∀ u s, u ∈ vs → d.(snapshots) !! u = Some s → s.(s_DeletedAt) = None) as Hlive.
      { intros u s Hu Hs. destruct (Hvs u Hu) as (s' & Hs' & ? & _). by simplify_eq. }
      by apply unmark_all_restores.
  - run_ret. eexists; split; [done|]. split; [right; by exists vs|]. split; [|done]. intros _. split; [by eexists|].
    split; [lia|]. split; [done|]. by exists vs.
Qed.

(** Deleting many snapshots. [bulkDeleteSnapshot] always answers. It answers 204 only for 1 to 100 UUIDs, all of them
    live and unpublished snapshots of a repository that the caller may change, fewer than the repository has; then exactly
    one task has been enqueued, and all of the snapshots have been marked as deleted or, if the transaction was lost, none.
    With any other answer no task has been enqueued, and the database is as before unless the answer is that the marks
    could not be cleared after the queue had failed. *)
Theorem bulk_delete_guarded now acc org rc uuids fs w r fs' w' :
  bulkDeleteSnapshot now acc org (uuid_String rc) uuids (fs, w) = (r, (fs', w')) →
  ∃ resp, r = inr resp ∧
    (resp = RespNoContent →
       (1 ≤ length uuids ≤ 100)%nat ∧ delete_allowed w.(w_db) org rc uuids ∧
       w'.(w_tasks) = (w.(w_tasks) ++ [delete_task new_id w.(w_tasks) acc org (uuid_String rc) uuids])%list ∧
       ∃ vs, uuids = uuid_String <$> vs ∧ (w'.(w_db) = mark_all now vs w.(w_db) ∨ w'.(w_db) = w.(w_db))) ∧
    (resp ≠ RespNoContent →
       w'.(w_tasks) = w.(w_tasks) ∧
       (w'.(w_db) = w.(w_db) ∨ ∃ errs, resp = errors_response "Error clearing snapshot deleted_at fields" errs)).
Proof.
  intros (resp & -> & _ & Hno & Hother)%bulkDeleteSnapshot_run. exists resp. split; [done|]. split; [|done].
  intros ->. destruct (Hno eq_refl) as ((fs1 & Ha) & Hlen & Ht & Hd). split; [done|].
  split; [by eapply (isDeleteAllowed_run scan scan_perm)|done].
Qed.
End Bulk.

(** ** Examples *)

Import Ex.

Definition ex_id (ts : list QTask) : uuid := N.of_nat (100 + length ts).
Definition ex_delete := deleteSnapshot map_to_list ex_id true (inr "https://pulp/").
Definition ex_bulk := bulkDeleteSnapshot map_to_list ex_id true (inr "https://pulp/").

Lemma delete_snapshot_guarded_witness :
  ∃ fs' w', ex_delete 99 "acc" "org" (uuid_String 1) (uuid_String 5) ([], mk_world Ex.d []) = (inr RespNoContent, (fs', w')) ∧
    delete_allowed Ex.d "org" 1 [uuid_String 5].
Proof.
  destruct (ex_delete 99 "acc" "org" (uuid_String 1) (uuid_String 5) ([], mk_world Ex.d [])) as [r [fs' w']] eqn:Hrun.
  assert (r = inr RespNoContent) as -> by (apply (f_equal fst) in Hrun; vm_compute in Hrun; congruence).
  exists fs', w'. split; [done|].
  destruct (delete_snapshot_guarded map_to_list (λ m, reflexivity _) true (inr "https://pulp/") ex_id 99 "acc" "org" 1
              (uuid_String 5) [] (mk_world Ex.d []) _ _ _ Hrun) as (resp & [= <-] & Hok & _).
  by apply Hok.
Defined.

Lemma bulk_delete_guarded_witness :
  ∃ fs' w', ex_bulk 99 "acc" "org" (uuid_String 1) [uuid_String 6] ([], mk_world Ex.d []) = (inr RespNoContent, (fs', w')) ∧
    delete_allowed Ex.d "org" 1 [uuid_String 6].
Proof.
  destruct (ex_bulk 99 "acc" "org" (uuid_String 1) [uuid_String 6] ([], mk_world Ex.d [])) as [r [fs' w']] eqn:Hrun.
  assert (r = inr RespNoContent) as -> by (apply (f_equal fst) in Hrun; vm_compute in Hrun; congruence).
  exists fs', w'. split; [done|].
  destruct (bulk_delete_guarded map_to_list (λ m, reflexivity _) true (inr "https://pulp/") ex_id 99 "acc" "org" 1
              [uuid_String 6] [] (mk_world Ex.d []) _ _ _ Hrun) as (resp & [= <-] & Hok & _).
  by apply Hok.
Defined.

(** A lost commit: the answer is 204 and the task is enqueued although no snapshot is marked. *)
Example bulk_commit_lost :
  let '(r, (_, w')) := ex_bulk 99 "acc" "org" (uuid_String 1) [uuid_String 6]
                         ((repeat None 8 ++ [Some (ErrPlain "commit failed")])%list, mk_world Ex.d []) in
  r = inr RespNoContent ∧ length w'.(w_tasks) = 1%nat ∧ (w'.(w_db).(snapshots) !! 6%N ≫= s_DeletedAt) = None.
Proof. by vm_compute. Qed.

(** Any organization may delete the snapshots of a Lightwell repository. *)
Example lightwell_snapshot_deleted :
  let '(r, (_, w')) := ex_delete 99 "acc" "org" (uuid_String 3) (uuid_String 9) ([], mk_world Ex.d []) in
  r = inr RespNoContent ∧ (w'.(w_db).(snapshots) !! 9%N ≫= s_DeletedAt) = Some 99%Z.
Proof. by vm_compute. Qed.
