(* ===== verification/TemplateThms.v ===== *)
(** * What the content of a template is *)

From S2P Require Import Prelude GoStrings GoSplit Config TxMonad Utils Models Errors DaoHelpers GoText SnapshotDao SnapshotThms TemplateDao SnapshotHandler SnapshotHandlerThms SnapshotBulk.
From stdpp Require Import options.

Open Scope string_scope.

(** ** Upserts *)

Section Upsert.
Context (merge : TrcRow → TrcRow → TrcRow).

Lemma upsert_out rows m k : k ∉ rows.*1 → foldl (upsert_row merge) m rows !! k = m !! k.
Proof.
  revert m. induction rows as [|[k' x] rows IH]; intros m Hk; [done|]. simpl in *.
  rewrite IH by set_solver. unfold upsert_row. simpl. apply lookup_insert_ne. set_solver.
Qed.

Lemma upsert_in rows m k x : NoDup rows.*1 → (k, x) ∈ rows →
  foldl (upsert_row merge) m rows !! k = Some (match m !! k with Some old => merge old x | None => x end).
Proof.
  revert m. induction rows as [|[k' y] rows IH]; intros m Hnd Hin; [by apply not_elem_of_nil in Hin|].
  rewrite fmap_cons in Hnd. apply NoDup_cons in Hnd as [Hk' Hnd]. simpl in Hk' |- *.
  apply elem_of_cons in Hin as [[= -> ->]|Hin].
  - rewrite upsert_out by done. unfold upsert_row. simpl. by rewrite lookup_insert_eq.
  - rewrite IH by done. unfold upsert_row. simpl. rewrite lookup_insert_ne; [done|].
    intros ->. apply Hk'. apply list_elem_of_fmap. by exists (k, x).
Qed.

Lemma upsert_run rows fs d fs' d' :
  upsert merge rows (fs, d) = (inr (inr ()), (fs', d')) →
  NoDup rows.*1 ∧ d' = set_trcs (λ _, foldl (upsert_row merge) d.(trcs) rows) d ∧
  ∀ k x, k ∈ rows.*1 → d'.(trcs) !! k = Some x →
    is_Some (d.(templates) !! k.1) ∧ is_Some (d.(configs) !! k.2) ∧ is_Some (d.(snapshots) !! x.(x_SnapshotUUID)).
Proof.
  intros Hrun. assert (NoDup rows.*1 ∧ d' = set_trcs (λ _, foldl (upsert_row merge) d.(trcs) rows) d ∧
    forallb (λ kx, match foldl (upsert_row merge) d.(trcs) rows !! kx.1 with Some x => refers d (kx.1, x) | None => false end) rows = true) as (Hnd & -> & Hall).
  { unfold upsert in Hrun. destruct rows as [|row rows]; [apply ret_inr in Hrun as [_ [= -> ->]]; split_and!; [apply NoDup_nil_2|by destruct d'|done]|].
    apply call_inr in Hrun. case_bool_decide as Hnd; [|done]. cbv zeta in Hrun. destruct (forallb _ (row :: rows)) eqn:Hall; by simplify_eq. }
  split_and!; [done..|].
  intros k x (kx & -> & Hin)%list_elem_of_fmap Hx. simpl in Hx. rewrite forallb_forall in Hall.
  specialize (Hall kx). rewrite <-list_elem_of_In in Hall. specialize (Hall Hin). rewrite Hx in Hall. unfold refers in Hall. simpl in Hall.
  apply andb_true_iff in Hall as [[?%bool_decide_eq_true ?%bool_decide_eq_true]%andb_true_iff ?%bool_decide_eq_true]. done.
Qed.

Lemma upsert_err rows fs d r fs' d' : upsert merge rows (fs, d) = (r, (fs', d')) → r ≠ inr (inr ()) → d' = d.
Proof. unfold upsert, db_call. intros Hrun Hr. destruct rows; [by injection Hrun as <- <- <-|]. destruct fs as [|[e|] fs]; repeat case_match; by simplify_eq. Qed.
End Upsert.

Section Thms.
Context `{UT : UuidText, UL : !UuidLaws}.
#[local] Set Default Proof Using "Type*".

(** The rows chosen for repositories that all have a snapshot: one per snapshot. *)
Definition rows_of (tu : uuid) (href : string → string) (uss : list (uuid * SnapRow)) : list (uuid * uuid * TrcRow) :=
  (λ us, (tu, repo_of us, mk_TrcRow us.1 (Some (href (uuid_String (repo_of us)))) None)) <$> uss.
Definition repos_of (uss : list (uuid * SnapRow)) : list string := (λ us, uuid_String (repo_of us)) <$> uss.

Lemma choose_snapshots_rows tu snaps uuids rows :
  choose_snapshots tu snaps uuids = Some rows →
  ∃ uss, uuids = repos_of uss ∧ (∀ us, us ∈ uss → us ∈ snaps) ∧ with_keys rows = Some (rows_of tu (λ _, "") uss).
Proof.
  revert rows. induction uuids as [|repo uuids IH]; intros rows Hc; simpl in Hc.
  { simplify_eq. exists []. split; [done|]. split; [by intros us ?%not_elem_of_nil|done]. }
  destruct (list_find _ snaps) as [[i us]|] eqn:Hf; [|done]. destruct (choose_snapshots tu snaps uuids) as [rest|] eqn:Hc'; [|done].
  simplify_eq/=. destruct (IH rest eq_refl) as (uss & -> & Hin & Hk).
  apply list_find_Some in Hf as (Hi & <- & _). exists (us :: uss). split; [done|]. split.
  - intros us' [->|?]%elem_of_cons; [by eapply list_elem_of_lookup_2|auto].
  - unfold with_keys in *. simpl. rewrite pg_String. simpl. rewrite Hk. done.
Qed.

Lemma match_snapshots_rows tu snaps href uuids rows :
  match_snapshots tu snaps href uuids = ([], rows) →
  ∃ uss, uuids = repos_of uss ∧ (∀ us, us ∈ uss → us ∈ snaps) ∧ with_keys rows = Some (rows_of tu href uss).
Proof.
  revert rows. induction uuids as [|repo uuids IH]; intros rows Hc; simpl in Hc.
  { simplify_eq. exists []. split; [done|]. split; [by intros us ?%not_elem_of_nil|done]. }
  destruct (match_snapshots tu snaps href uuids) as [missing rest] eqn:Hm.
  destruct (list_find _ snaps) as [[i us]|] eqn:Hf; simplify_eq. destruct (IH rest eq_refl) as (uss & -> & Hin & Hk).
  apply list_find_Some in Hf as (Hi & <- & _). exists (us :: uss). split; [done|]. split.
  - intros us' [->|?]%elem_of_cons; [by eapply list_elem_of_lookup_2|auto].
  - unfold with_keys in *. simpl. rewrite pg_String. simpl. rewrite Hk. done.
Qed.

Lemma rows_of_keys tu href uss : (rows_of tu href uss).*1 = (λ us, (tu, repo_of us)) <$> uss.
Proof. unfold rows_of. rewrite <-list_fmap_compose. done. Qed.

Lemma checked_inr {A} o (m : DB (db_error + A)) w a w' : checked o m w = (inr a, w') → m w = (inr (inr a), w').
Proof.
  unfold checked. intros (r & w1 & Hm%map_err_inr & Hr)%bind_inr. destruct r as [e|a']; [done|]. apply ret_inr in Hr as [-> ->]. done.
Qed.

Lemma create_trcs_run merge rows krows fs d fs' d' :
  with_keys rows = Some krows → create_trcs merge rows (fs, d) = (inr (), (fs', d')) → upsert merge krows (fs, d) = (inr (inr ()), (fs', d')).
Proof.
  intros Hk. unfold create_trcs. intros Hrun%checked_inr. destruct (existsb _ rows); [done|]. by rewrite Hk in Hrun.
Qed.

Lemma create_trcs_err merge rows fs d r fs' d' : create_trcs merge rows (fs, d) = (r, (fs', d')) → r ≠ inr () → d' = d.
Proof.
  unfold create_trcs, checked, mbind, M_bind, map_err, mret, M_ret, throw. intros Hrun Hr. destruct (existsb _ rows); [by simplify_eq|].
  destruct (with_keys rows) as [krows|]; [|by simplify_eq].
  destruct (upsert merge krows (fs, d)) as [r1 [fs1 d1]] eqn:Hu. assert (r1 ≠ inr (inr ())) as Hr1 by (intros ->; by simplify_eq).
  apply upsert_err in Hu; [|done]. destruct r1 as [|[|[]]]; by simplify_eq.
Qed.

Context (scan : gmap uuid SnapRow → list (uuid * SnapRow)).
Hypothesis scan_perm : ∀ m, scan m ≡ₚ map_to_list m.

Lemma Uuidify_repos uss : Uuidify <$> repos_of uss = repo_of <$> uss.
Proof. unfold repos_of. rewrite <-list_fmap_compose. apply list_fmap_ext. intros i us _. simpl. apply Uuidify_String. Qed.

(** The date the content is chosen for. *)
Definition content_date (now : time) (t : TemplateRow) : time := if t.(t_UseLatest) then now else t.(t_Date).

(** What a conflict keeps of the row. *)
Definition old_href (d : db) (k : uuid * uuid) : option string :=
  match d.(trcs) !! k with Some x => x.(x_DistributionHref) | None => Some "" end.

Lemma insert_run now org tu t uuids fs d fs' d' :
  insertTemplateRepoConfigsAndSnapshots scan now org tu t uuids (fs, d) = (inr (), (fs', d')) →
  ∃ vs, uuids = uuid_String <$> vs ∧ NoDup vs ∧ (vs ≠ [] → is_Some (d.(templates) !! tu)) ∧ d' = set_trcs (λ _, d'.(trcs)) d ∧
    (∀ rc, rc ∈ vs → is_Some (d.(configs) !! rc) ∧
       ∃ us, nearest (candidate d org vs) (content_date now t) us ∧ repo_of us = rc ∧
         d'.(trcs) !! (tu, rc) = Some (mk_TrcRow us.1 (old_href d (tu, rc)) None)) ∧
    (∀ k, ¬ (k.1 = tu ∧ k.2 ∈ vs) → d'.(trcs) !! k = d.(trcs) !! k).
Proof.
  unfold insertTemplateRepoConfigsAndSnapshots. intros (snaps & [fs1 d1] & Hf & Hrun)%bind_inr.
  unfold FetchSnapshotsModelByDateAndRepository in Hf. apply map_err_inr, call_inr in Hf. simplify_eq.
  destruct (choose_snapshots _ _ _) as [rows|] eqn:Hc; [|done].
  apply choose_snapshots_rows in Hc as (uss & -> & Hin & Hk). eapply create_trcs_run in Hrun; [|exact Hk].
  apply upsert_run in Hrun as (Hnd & Hd' & Href). rewrite rows_of_keys in Hnd.
  assert (∀ us, us ∈ uss → nearest (candidate d1 org (repo_of <$> uss)) (content_date now t) us) as Hnear.
  { intros us Hus. apply Hin in Hus. rewrite Uuidify_repos in Hus. apply elem_of_snapshots_by_date in Hus; [|done].
    by eapply combined_nearest. }
  assert (∀ us, us ∈ uss → d'.(trcs) !! (tu, repo_of us) = Some (mk_TrcRow us.1 (old_href d1 (tu, repo_of us)) None)) as Hrow.
  { intros us Hus. rewrite Hd'. simpl. erewrite upsert_in; [|by rewrite rows_of_keys|by eapply list_elem_of_fmap_2'].
    unfold old_href. by destruct (trcs d1 !! _). }
  assert (∀ us, us ∈ uss → is_Some (d1.(templates) !! tu) ∧ is_Some (d1.(configs) !! repo_of us)) as Hrefs.
  { intros us Hus. destruct (Href (tu, repo_of us) _ ltac:(rewrite rows_of_keys; by eapply list_elem_of_fmap_2') (Hrow us Hus)) as (?&?&_). done. }
  exists (repo_of <$> uss). split_and!.
  - unfold repos_of. by rewrite <-list_fmap_compose.
  - eapply (NoDup_fmap_1 (λ rc, (tu, rc))). by rewrite <-list_fmap_compose.
  - intros Hne. destruct uss as [|us uss]; [done|]. by eapply (Hrefs us); left.
  - by rewrite Hd'.
  - intros rc (us & -> & Hus)%list_elem_of_fmap. split; [by eapply Hrefs|]. exists us. auto.
  - intros k Hout. rewrite Hd'. simpl. apply upsert_out. rewrite rows_of_keys. intros (us & -> & Hus)%list_elem_of_fmap.
    apply Hout. split; [done|]. by eapply list_elem_of_fmap_2'.
Qed.

(** ** Updates *)

Context (scan_trcs : gmap (uuid * uuid) TrcRow → list (uuid * uuid * TrcRow)).
Context (snapshots_enabled : bool) (content_path : goerr + string) (retain : Z).
Abbreviation Template_Fetch := (Template_Fetch scan_trcs snapshots_enabled content_path retain).
Abbreviation Template_Update := (Template_Update scan scan_trcs snapshots_enabled content_path retain).
Abbreviation Template_fetch := (Template_fetch scan_trcs).

Lemma keeps_Template_fetch org u b : keeps (Template_fetch org u b).
Proof. unfold TemplateDao.Template_fetch, first_template. keeps_tac. Qed.

Lemma keeps_Template_Fetch now org u b : keeps (Template_Fetch now org u b).
Proof.
  unfold TemplateDao.Template_Fetch. apply keeps_bind; [apply keeps_Template_fetch|intros t].
  unfold to_responses, GetContentPath, fetchLatestSnapshotUUIDsForReposOfTemplates. keeps_tac.
Qed.

Lemma keeps_validate org uuids : keeps (validateRepositoryUUIDs org uuids).
Proof. unfold validateRepositoryUUIDs. keeps_tac. Qed.

Lemma Template_fetch_inr org uuid_ fs d u t rows w :
  Template_fetch org uuid_ false (fs, d) = (inr (u, t, rows), w) →
  ∃ t0, d.(templates) !! u = Some t0 ∧ u = Uuidify uuid_ ∧ t0.(t_OrgID) = org ∧ t0.(t_DeletedAt) = None ∧ t = template_AfterFind t0.
Proof.
  unfold TemplateDao.Template_fetch. intros ([u' t0] & [fs1 d1] & Hf & Hp)%map_err_inr%bind_inr. apply call_inr in Hf.
  destruct w as [fs2 d2]. apply call_inr in Hp. simpl in Hp. unfold template_live in Hf.
  destruct (templates d !! Uuidify uuid_) as [t1|] eqn:Ht; [|done]. destruct (t_OrgID t1 == org) eqn:Ho; [|done]. simpl in Hf.
  destruct (t_DeletedAt t1) eqn:Hl; simplify_eq. unfold preload_template in *. simplify_eq/=. exists t0. apply bool_decide_eq_true in Ho. done.
Qed.

(** A row that is not kept is marked; one that is marked already stays. *)
Definition dropped (now : time) (x : TrcRow) : TrcRow :=
  if trc_live x then mk_TrcRow x.(x_SnapshotUUID) x.(x_DistributionHref) (Some now) else x.

Lemma softDelete_run now uuid_ vs fs d fs' d' :
  softDeleteTemplateRepoConfigs now uuid_ (uuid_String <$> vs) (fs, d) = (inr (), (fs', d')) →
  d' = set_trcs (λ _, d'.(trcs)) d ∧
  ∀ k, d'.(trcs) !! k = if decide (k.1 = Uuidify uuid_ ∧ vs ≠ [] ∧ k.2 ∉ vs) then dropped now <$> d.(trcs) !! k else d.(trcs) !! k.
Proof.
  intros Hrun%map_err_inr%call_inr. simplify_eq. split; [done|]. intros k. simpl. rewrite map_lookup_imap.
  destruct (trcs d !! k) as [x|]; simpl; [|by case_decide]. assert (Uuidify <$> (uuid_String <$> vs) = vs) as ->.
  { rewrite <-list_fmap_compose. rewrite <-(list_fmap_id vs) at 2. apply list_fmap_ext. intros ? v _. simpl. apply Uuidify_String. }
  rewrite length_fmap. unfold dropped. destruct (decide (vs = [])) as [->|Hne].
  { rewrite decide_False by naive_solver. simpl. by rewrite andb_false_r. }
  assert ((0 <? length vs)%nat = true) as -> by (destruct vs; [done|]; apply Nat.ltb_lt; simpl; lia). destruct (k.1 == Uuidify uuid_) eqn:Hk; simpl.
  - apply bool_decide_eq_true in Hk. destruct (contains vs k.2) eqn:Hc; simpl.
    + apply contains_true in Hc. rewrite decide_False by naive_solver. done.
    + apply contains_false in Hc. rewrite decide_True by done. by destruct (trc_live x).
  - apply bool_decide_eq_false in Hk. rewrite decide_False by naive_solver. done.
Qed.

(** What a successful update does. *)
Lemma template_update_run now org uuid_ r uuids fs d resp fs' d' :
  r.(up_RepositoryUUIDS) = Some uuids → Template_Update now org uuid_ r (fs, d) = (inr resp, (fs', d')) →
  let tu := Uuidify uuid_ in
  ∃ t vs, d.(templates) !! tu = Some t ∧ t.(t_OrgID) = org ∧ t.(t_DeletedAt) = None ∧ uuids = uuid_String <$> vs ∧ NoDup vs ∧
    let t' := templatesUpdateApiToModel r (template_AfterFind t) in
    template_validate (validated_copy t') = None ∧ d'.(templates) = <[tu := template_MapForUpdate t' t]> d.(templates) ∧
    d'.(snapshots) = d.(snapshots) ∧ d'.(configs) = d.(configs) ∧
    (∀ rc, rc ∈ vs → ∃ us, nearest (candidate d t'.(t_OrgID) vs) (content_date now t') us ∧ repo_of us = rc ∧
       d'.(trcs) !! (tu, rc) = Some (mk_TrcRow us.1 (old_href d (tu, rc)) None)) ∧
    (∀ rc, rc ∉ vs → d'.(trcs) !! (tu, rc) = if decide (vs = []) then d.(trcs) !! (tu, rc) else dropped now <$> d.(trcs) !! (tu, rc)) ∧
    (∀ k, k.1 ≠ tu → d'.(trcs) !! k = d.(trcs) !! k).
Proof.
  intros Hr Hrun tu. subst tu. unfold TemplateDao.Template_Update in Hrun. apply bind_inr in Hrun as ([] & [fs1 d1] & Htx & Hfetch).
  apply keeps_Template_Fetch in Hfetch as ->. apply transaction_inr in Htx as (fs2 & fs3 & Hup). unfold Template_update in Hup.
  apply bind_inr in Hup as ([[u t1] rows] & [fs4 d4] & Hf & Hup). pose proof (keeps_Template_fetch _ _ _ _ _ _ _ _ Hf) as ->.
  apply Template_fetch_inr in Hf as (t & Ht & -> & Ho & Hl & ->). set (t' := templatesUpdateApiToModel r _) in *.
  apply bind_inr in Hup as ([] & [fs5 d5] & Hut%checked_inr%call_inr & Hup).
  destruct (template_validate (validated_copy t')) eqn:Hv; [done|]. rewrite Ht in Hut. unfold template_live in Hut. rewrite Hl in Hut.
  destruct (name_taken _ _ _); [done|]. simplify_eq.
  apply bind_inr in Hup as ([] & [fs6 d6] & Hn%map_err_inr%noop_inr & Hup). subst d6. rewrite Hr in Hup.
  apply bind_inr in Hup as ([] & [fs7 d7] & Hval%keeps_validate & Hup). subst d7.
  apply bind_inr in Hup as ([] & [fs8 d8] & Hsd%map_err_inr & Hins%map_err_inr).
  pose proof (insert_run _ _ _ _ _ _ _ _ _ Hins) as (vs & -> & Hnd & _ & Hrest & Hin & Hout).
  apply softDelete_run in Hsd as [Hd8 Hsd]. simpl in Hsd.
  exists t, vs. cbv zeta. fold t'. split_and!; try done; try (rewrite Hrest, Hd8; done).
  - intros rc Hrc. destruct (Hin rc Hrc) as [_ (us & Hnear & Hus & Hrow)]. exists us.
    split; [|split; [done|]]; [by rewrite Hd8 in Hnear|]. rewrite Hrow. unfold old_href. rewrite Hsd. simpl.
    rewrite decide_False by naive_solver. done.
  - intros rc Hrc. rewrite Hout by (simpl; naive_solver). rewrite Hsd. simpl. by destruct (decide (vs = [])) as [->|Hne]; [rewrite decide_False by naive_solver|rewrite decide_True by done].
  - intros k Hk. rewrite Hout by naive_solver. rewrite Hsd. rewrite decide_False by naive_solver. done.
Qed.

(** Updating a template. When [Update] succeeds with a list of repositories, the template belongs to the organization
    and its content is exactly that list: each of the repositories has the snapshot that is nearest to the (new) date of the
    template, or to the current time, and keeps its distribution; the rows of the other repositories of the template are
    marked as deleted and otherwise kept, unless the list is empty, which leaves them all as they are; nothing of any other
    template changes. *)
Theorem template_update_exact now org uuid_ r uuids fs d resp fs' d' :
  r.(up_RepositoryUUIDS) = Some uuids → Template_Update now org uuid_ r (fs, d) = (inr resp, (fs', d')) →
  let tu := Uuidify uuid_ in
  ∃ t vs, d.(templates) !! tu = Some t ∧ t.(t_OrgID) = org ∧ t.(t_DeletedAt) = None ∧ uuids = uuid_String <$> vs ∧ NoDup vs ∧
    let t' := templatesUpdateApiToModel r (template_AfterFind t) in
    template_validate (validated_copy t') = None ∧ d'.(templates) = <[tu := template_MapForUpdate t' t]> d.(templates) ∧
    d'.(snapshots) = d.(snapshots) ∧ d'.(configs) = d.(configs) ∧
    (∀ rc, rc ∈ vs → ∃ us, nearest (candidate d t'.(t_OrgID) vs) (content_date now t') us ∧ repo_of us = rc ∧
       d'.(trcs) !! (tu, rc) = Some (mk_TrcRow us.1 (old_href d (tu, rc)) None)) ∧
    (∀ rc, rc ∉ vs → d'.(trcs) !! (tu, rc) = if decide (vs = []) then d.(trcs) !! (tu, rc) else dropped now <$> d.(trcs) !! (tu, rc)) ∧
    (∀ k, k.1 ≠ tu → d'.(trcs) !! k = d.(trcs) !! k).
Proof. apply template_update_run. Qed.
End Thms.
