(* ===== verification/Publication.v ===== *)
(** * The public flag of a partner's repository

    [repositories.public] is a copy: of an uploaded repository it says whether one of its live snapshots is published. The
    handlers that publish and delete snapshots, the creation of snapshots, the task that removes deleted snapshots and
    [SetPartnerRepo] keep it up to date, in any order and with any failures; the clean-up of old snapshots does not. *)

From S2P Require Import Prelude GoStrings GoSplit Config TxMonad Utils Models Errors DaoHelpers GoText SnapshotDao SnapshotThms TemplateDao SnapshotHandler SnapshotHandlerThms SnapshotBulk.
From stdpp Require Import options.

Open Scope string_scope.

Definition has_published (d : db) (rc : uuid) : bool := (0 <? length (published_of d rc))%nat.

(** What others may see of the snapshots. *)
Definition visible_row (s : SnapRow) : Prop := s.(s_Published) = true ∧ s.(s_DeletedAt) = None.
Definition visible (m : gmap uuid SnapRow) : gmap uuid SnapRow := base.filter (λ us, visible_row us.2) m.

Record pub_ok (d : db) : Prop := {
  pub_flag rc c r : d.(configs) !! rc = Some c → d.(repositories) !! c.(c_RepositoryUUID) = Some r →
    (r_origin r) = OriginUpload → (r_public r) = has_published d rc;
  pub_unique rc rc' c c' r : d.(configs) !! rc = Some c → d.(configs) !! rc' = Some c' →
    c.(c_RepositoryUUID) = c'.(c_RepositoryUUID) → d.(repositories) !! c.(c_RepositoryUUID) = Some r →
    (r_origin r) = OriginUpload → rc = rc';
  pub_partner u s : d.(snapshots) !! u = Some s → visible_row s →
    ∃ c, d.(configs) !! s.(s_RepositoryConfigurationUUID) = Some c ∧ c.(c_Partner) = true;
  partner_upload rc c : d.(configs) !! rc = Some c → c.(c_Partner) = true →
    ∃ r, d.(repositories) !! c.(c_RepositoryUUID) = Some r ∧ (r_origin r) = OriginUpload
}.

Lemma has_published_true d rc :
  has_published d rc = true ↔ ∃ u s, visible d.(snapshots) !! u = Some s ∧ s.(s_RepositoryConfigurationUUID) = rc.
Proof.
  unfold has_published. rewrite Nat.ltb_lt. split.
  - destruct (published_of d rc) as [|[u s] l] eqn:H; simpl; [lia|]. intros _. exists u, s.
    assert ((u, s) ∈ published_of d rc) as Hin by (rewrite H; left). unfold published_of in Hin.
    apply list_elem_of_filter in Hin as [(? & ? & ?) Hin%elem_of_map_to_list]. simpl in *. split; [|done].
    apply map_lookup_filter_Some. done.
  - intros (u & s & [Hu Hv]%map_lookup_filter_Some & Hr).
    assert ((u, s) ∈ published_of d rc) as Hin.
    { apply list_elem_of_filter. split; [by destruct Hv|]. by apply elem_of_map_to_list. }
    destruct (published_of d rc); [by apply not_elem_of_nil in Hin|simpl; lia].
Qed.

Lemma bool_eq_iff (a b : bool) : (a = true ↔ b = true) → a = b.
Proof. destruct a, b; naive_solver. Qed.

Lemma has_published_visible d d' rc : visible d.(snapshots) = visible d'.(snapshots) → has_published d rc = has_published d' rc.
Proof. intros H. apply bool_eq_iff. by rewrite !has_published_true, H. Qed.

(** What the invariant reads of a configuration. *)
Definition cfg (c : ConfigRow) : uuid * bool := (c.(c_RepositoryUUID), c.(c_Partner)).

Lemma pub_ok_ext d d' :
  cfg <$> d'.(configs) = cfg <$> d.(configs) → d'.(repositories) = d.(repositories) →
  visible d'.(snapshots) = visible d.(snapshots) → pub_ok d → pub_ok d'.
Proof.
  intros Hc Hr Hs [H1 H2 H3 H4].
  assert (∀ rc c, d'.(configs) !! rc = Some c → ∃ c0, d.(configs) !! rc = Some c0 ∧ cfg c0 = cfg c) as Hback.
  { intros rc c Hl. apply (f_equal (λ m, m !! rc)) in Hc. rewrite !lookup_fmap, Hl in Hc. simpl in Hc.
    destruct (configs d !! rc) as [c0|]; simpl in Hc; [|done]. exists c0. split; [done|]. unfold cfg in *. congruence. }
  assert (∀ rc c, d.(configs) !! rc = Some c → ∃ c0, d'.(configs) !! rc = Some c0 ∧ cfg c0 = cfg c) as Hforth.
  { intros rc c Hl. apply (f_equal (λ m, m !! rc)) in Hc. rewrite !lookup_fmap, Hl in Hc. simpl in Hc.
    destruct (configs d' !! rc) as [c0|]; simpl in Hc; [|done]. exists c0. split; [done|]. unfold cfg in *. congruence. }
  split.
  - intros rc c r (c0 & Hc0 & Heq)%Hback. rewrite Hr, (has_published_visible d' d) by done. apply (f_equal fst) in Heq. simpl in Heq.
    rewrite <-Heq. eauto.
  - intros rc rc' c c' r (c0 & Hc0 & Heq)%Hback (c1 & Hc1 & Heq')%Hback. apply (f_equal fst) in Heq, Heq'. simpl in *.
    rewrite Hr, <-Heq, <-Heq'. eauto.
  - intros u s Hu Hv. assert (visible d.(snapshots) !! u = Some s) as [Hu0 _]%map_lookup_filter_Some.
    { rewrite <-Hs. by apply map_lookup_filter_Some. }
    destruct (H3 u s Hu0 Hv) as (c & Hc0 & Hp). apply Hforth in Hc0 as (c' & Hc' & Heq). apply (f_equal snd) in Heq.
    simpl in Heq. exists c'. split; congruence.
  - intros rc c (c0 & Hc0 & Heq)%Hback Hp. unfold cfg in Heq. injection Heq as Hr0 Hp0. rewrite Hr, <-Hr0. eapply H4; [done|congruence].
Qed.

(** A row that is hidden before and after. *)
Lemma visible_alter_hidden (f : SnapRow → SnapRow) u m :
  (∀ s, m !! u = Some s → ¬ visible_row s ∧ ¬ visible_row (f s)) → visible (alter f u m) = visible m.
Proof.
  intros H. apply map_eq. intros v. apply option_eq. intros s. unfold visible. rewrite !map_lookup_filter_Some.
  destruct (decide (v = u)) as [->|]; [|by rewrite lookup_alter_ne].
  rewrite lookup_alter_eq. destruct (m !! u) as [s0|]; [|done]. destruct (H s0 eq_refl). simpl. naive_solver.
Qed.

Lemma visible_insert_hidden u s0 m :
  ¬ visible_row s0 → (∀ s, m !! u = Some s → ¬ visible_row s) → visible (<[u := s0]> m) = visible m.
Proof.
  intros H0 H. apply map_eq. intros v. apply option_eq. intros s. unfold visible. rewrite !map_lookup_filter_Some.
  destruct (decide (v = u)) as [->|]; [|by rewrite lookup_insert_ne]. rewrite lookup_insert_eq. simpl. naive_solver.
Qed.

Lemma visible_delete_hidden u m : (∀ s, m !! u = Some s → ¬ visible_row s) → visible (delete u m) = visible m.
Proof.
  intros H. apply map_eq. intros v. apply option_eq. intros s. unfold visible. rewrite !map_lookup_filter_Some.
  destruct (decide (v = u)) as [->|]; [|by rewrite lookup_delete_ne]. rewrite lookup_delete_eq. naive_solver.
Qed.

(** ** The operations *)

Abbreviation kept m := (hoare pub_ok m (λ _, pub_ok) (λ _, pub_ok)).

Lemma hoare_keeps {D E A} (m : M D E A) (P : D → Prop) : keeps m → hoare P m (λ _, P) (λ _, P).
Proof. intros Hk fs d HP. destruct (m (fs, d)) as [r [fs' d']] eqn:E1. apply Hk in E1. subst. by destruct r. Qed.

(** What a successful read says about the database it leaves unchanged. *)
Lemma hoare_reads {D E A} (m : M D E A) (P : D → Prop) (Q : A → D → Prop) :
  keeps m → (∀ fs d a w, m (fs, d) = (inr a, w) → Q a d) → hoare P m (λ a d, P d ∧ Q a d) (λ _, P).
Proof.
  intros Hk Hq fs d HP. destruct (m (fs, d)) as [r [fs' d']] eqn:E1. pose proof (Hk _ _ _ _ _ E1) as ->.
  destruct r; [done|]. split; [done|]. by eapply Hq.
Qed.

(** The new state of publishing: a live snapshot of a partner is marked and the flag recomputed. *)
Lemma pub_ok_publish p u s c d :
  pub_ok d → d.(snapshots) !! u = Some s → d.(configs) !! s.(s_RepositoryConfigurationUUID) = Some c → c.(c_Partner) = true →
  let d1 := set_snapshots (alter (set_published p) u) d in
  pub_ok (set_repositories (alter (set_public (has_published d1 s.(s_RepositoryConfigurationUUID))) c.(c_RepositoryUUID)) d1).
Proof.
  intros [H1 H2 H3 H4] Hu Hc Hp d1. set (rc := s.(s_RepositoryConfigurationUUID)) in *.
  assert (∀ rc', rc' ≠ rc → has_published d1 rc' = has_published d rc') as Hother.
  { intros rc' Hne. apply bool_eq_iff. rewrite !has_published_true. unfold visible.
    split; intros (v & t & [Hv Hvis]%map_lookup_filter_Some & Hr); exists v, t; rewrite map_lookup_filter_Some; simpl in *;
      (destruct (decide (v = u)) as [->|]; [|by rewrite ?lookup_alter_ne in * ]); rewrite ?lookup_alter_eq, Hu in Hv; naive_solver. }
  assert (∀ k r, repositories d1 !! k = Some r → (r_origin r) = OriginUpload →
            ∀ rc' c', configs d !! rc' = Some c' → c'.(c_RepositoryUUID) = k → k = c.(c_RepositoryUUID) → rc' = rc) as Hrow.
  { intros k r Hk Ho rc' c' Hc' <- Heq. by eapply (H2 rc' rc c' c). }
  split; simpl.
  - intros rc' c' r Hc' Hr Ho. change (has_published _ rc') with (has_published d1 rc').
    destruct (decide (c'.(c_RepositoryUUID) = c.(c_RepositoryUUID))) as [Heq|Hne].
    + rewrite Heq, lookup_alter_eq in Hr. destruct (repositories d !! c.(c_RepositoryUUID)) as [r0|] eqn:Hr0; simplify_eq/=.
      change (has_published d1 rc = has_published d1 rc'). f_equal. symmetry. eapply (Hrow c.(c_RepositoryUUID) r0); eauto.
    + rewrite lookup_alter_ne in Hr by done. rewrite Hother by (intros ->; simplify_eq). eauto.
  - intros rc1 rc2 c1 c2 r Hc1 Hc2 Heq Hr Ho. destruct (decide (c1.(c_RepositoryUUID) = c.(c_RepositoryUUID))) as [Heq1|Hne].
    + rewrite Heq1, lookup_alter_eq in Hr. destruct (repositories d !! c.(c_RepositoryUUID)) as [r0|] eqn:Hr0; simplify_eq/=.
      eapply (H2 rc1 rc2 c1 c2 r0); [done..| |done]. by rewrite Heq1.
    + rewrite lookup_alter_ne in Hr by done. by eapply (H2 rc1 rc2 c1 c2).
  - intros v t Hv Hvis. destruct (decide (v = u)) as [->|].
    + rewrite lookup_alter_eq, Hu in Hv. simplify_eq/=. eauto.
    + rewrite lookup_alter_ne in Hv by done. eauto.
  - intros rc' c' Hc' Hp'. destruct (H4 rc' c' Hc' Hp') as (r & Hr & Ho).
    destruct (decide (c'.(c_RepositoryUUID) = c.(c_RepositoryUUID))) as [Heq|Hne].
    + rewrite Heq in *. rewrite lookup_alter_eq, Hr. simpl. eauto.
    + rewrite lookup_alter_ne by done. eauto.
Qed.

Section Ops.
Context `{UT : UuidText, UL : !UuidLaws}.

Lemma kept_UpdatePublishedStatus org p rc_ snap_ : kept (UpdatePublishedStatus org p rc_ snap_).
Proof.
  unfold UpdatePublishedStatus. eapply (hoare_bind _ _ _ (λ _, pub_ok)); [|intros [us c]; by apply hoare_ret].
  eapply (hoare_transaction _ _ _ _ _ _ _ (λ _ _, True)); [|done].
  eapply (hoare_bind _ _ _ (λ us d, pub_ok d ∧ d.(snapshots) !! us.1 = Some us.2)).
  { eapply hoare_conseq; [apply (hoare_reads _ pub_ok (λ us d, d.(snapshots) !! us.1 = Some us.2))|done..].
    - apply keeps_map_err, keeps_first_snapshot.
    - intros fs d us [fs' d'] H%map_err_inr%call_inr. repeat case_match; by simplify_eq. }
  intros [u s]. eapply (hoare_bind _ _ _ (λ c d, (pub_ok d ∧ d.(snapshots) !! u = Some s) ∧ c = preload_config d s)).
  { eapply hoare_conseq; [apply (hoare_reads _ (λ d, pub_ok d ∧ d.(snapshots) !! u = Some s) (λ c d, c = preload_config d s))|done..].
    - by apply keeps_call.
    - intros fs d c [fs' d'] H%call_inr. by simplify_eq. }
  intros o. cbv zeta. destruct (_ != rc_); [by apply hoare_throw|]. destruct (_ != org); [by apply hoare_throw|].
  destruct o as [c|]; [|by apply hoare_throw]. destruct (c_Partner c) eqn:Hp; simpl; rewrite Hp; [|by apply hoare_throw]. simpl.
  eapply (hoare_bind _ _ _ (λ _ d1, ∃ d, pub_ok d ∧ d.(snapshots) !! u = Some s ∧
    d.(configs) !! s.(s_RepositoryConfigurationUUID) = Some c ∧ d1 = set_snapshots (alter (set_published p) u) d)).
  { apply hoare_map_err, hoare_call; [done|]. intros d [[Hok Hu] Hc]. exists d. split_and!; try done.
    unfold preload_config in Hc. destruct (configs d !! _) as [c0|] eqn:Hc0; [|done]. simpl in Hc. by destruct (config_live c0); simplify_eq. }
  intros []. eapply (hoare_bind _ _ _ (λ _, pub_ok)); [|intros []; by apply hoare_ret].
  apply hoare_call; [done|]. intros d1 (d & Hok & Hu & Hc & ->). simpl. rewrite Hc. by apply pub_ok_publish.
Qed.

(** Turning the flag of a partner on needs an uploaded repository, off that nothing is published. *)
Lemma pub_ok_partner p rc c d :
  pub_ok d → d.(configs) !! rc = Some c →
  (∃ r, d.(repositories) !! c.(c_RepositoryUUID) = Some r ∧ (r_origin r) = OriginUpload) →
  (p = false → has_published d rc = false) → pub_ok (set_configs (alter (set_partner p) rc) d).
Proof.
  intros [H1 H2 H3 H4] Hc Hup Hpub.
  assert (∀ k c', alter (set_partner p) rc d.(configs) !! k = Some c' →
            ∃ c0, d.(configs) !! k = Some c0 ∧ c0.(c_RepositoryUUID) = c'.(c_RepositoryUUID) ∧
                  (k ≠ rc ∧ c' = c0 ∨ k = rc ∧ c0 = c ∧ c'.(c_Partner) = p)) as Hinv.
  { intros k c'. destruct (decide (k = rc)) as [->|].
    - rewrite lookup_alter_eq, Hc. intros [= <-]. eauto 10.
    - rewrite lookup_alter_ne by done. eauto 10. }
  split; simpl.
  - intros k c' r (c0 & Hc0 & <- & _)%Hinv. by apply H1.
  - intros k k' c1 c2 r (c0 & Hc0 & <- & _)%Hinv (c0' & Hc0' & <- & _)%Hinv. by eapply H2.
  - intros u s Hu Hv. destruct (H3 u s Hu Hv) as (c0 & Hc0 & Hp0). destruct (decide (s.(s_RepositoryConfigurationUUID) = rc)) as [Heq|].
    + rewrite Heq in *. rewrite lookup_alter_eq, Hc. eexists. split; [done|]. destruct p; [done|]. exfalso.
      assert (has_published d rc = true) as Ht; [|rewrite Hpub in Ht; done].
      apply has_published_true. exists u, s. split; [|done]. by apply map_lookup_filter_Some.
    + rewrite lookup_alter_ne by done. eauto.
  - intros k c' (c0 & Hc0 & <- & Hor)%Hinv Hp. destruct Hor as [[_ ->]|(-> & -> & _)]; [by eapply H4|done].
Qed.

Lemma kept_SetPartnerRepo rc_ p to_api : kept (SetPartnerRepo rc_ p to_api).
Proof.
  unfold SetPartnerRepo. eapply (hoare_bind _ _ _ (λ kc d, pub_ok d ∧ pg_uuid rc_ = Some kc.1 ∧ d.(configs) !! kc.1 = Some kc.2)).
  { eapply hoare_conseq; [apply (hoare_reads _ pub_ok (λ kc d, pg_uuid rc_ = Some kc.1 ∧ d.(configs) !! kc.1 = Some kc.2))|done..].
    - apply keeps_map_err, keeps_call. intros d. by repeat case_match.
    - intros fs d kc [fs' d'] H%map_err_inr%call_inr. repeat case_match; by simplify_eq. }
  intros [rc c]. simpl.
  set (P := λ d, pub_ok d ∧ pg_uuid rc_ = Some rc ∧ d.(configs) !! rc = Some c).
  set (origin_of := λ d, match d.(repositories) !! c.(c_RepositoryUUID) with Some r => (r_origin r) | None => "" end).
  eapply (hoare_bind _ _ _ (λ o d, P d ∧ o = origin_of d)).
  { eapply hoare_conseq; [apply (hoare_reads _ P (λ o d, o = origin_of d))|done|done|by intros _ d [? _]].
    - by apply keeps_call.
    - intros fs d o [fs' d'] H%call_inr. by simplify_eq. }
  intros o. destruct (o != OriginUpload) eqn:Ho; [by apply hoare_throw; intros d [[? _] _]|].
  apply negb_false_iff, bool_decide_eq_true in Ho. subst o.
  eapply (hoare_bind _ _ _ (λ b d, (P d ∧ OriginUpload = origin_of d) ∧ (p = false → b = has_published d rc))).
  { destruct p; [by apply hoare_ret|].
    eapply hoare_conseq; [apply (hoare_reads _ (λ d, P d ∧ OriginUpload = origin_of d) (λ b d, pg_uuid rc_ = Some rc → b = has_published d rc))| | |].
    - apply keeps_call. intros d. by repeat case_match.
    - intros fs d b [fs' d'] H%call_inr Hpg. rewrite Hpg in H. by simplify_eq.
    - done.
    - intros b d [[HP Ho] Hb]. split; [done|]. intros _. apply Hb. by destruct HP as (_ & ? & _).
    - by intros _ d [[? _] _]. }
  intros b. destruct b; [by apply hoare_throw; intros d [[[? _] _] _]|].
  apply hoare_call; [by intros _ d [[[? _] _] _]|]. intros d [[(Hok & _ & Hc) Ho] Hb].
  apply (pub_ok_partner _ _ c); [done|done| |intros Hp; by rewrite <-Hb].
  unfold origin_of in Ho. destruct (repositories d !! _) as [r|]; [by exists r|done].
Qed.

(** A new snapshot is not published. *)
Lemma kept_Create u s : s.(s_Published) = false → kept (Create u s).
Proof.
  intros Hs. unfold Create. eapply (hoare_bind _ _ _ (λ _, pub_ok)).
  { apply hoare_call; [done|]. intros d Hok. case_bool_decide as Hfresh; [done|]. simpl.
    destruct (existsb _ _); [done|]. case_bool_decide; [done|]. apply eq_None_not_Some in Hfresh. eapply pub_ok_ext; [..|done]; [done|done|]. simpl.
    apply visible_insert_hidden; [unfold visible_row; by rewrite Hs; intros []|by rewrite Hfresh]. }
  intros []. eapply (hoare_bind _ _ _ (λ _, pub_ok)); [|intros []; by apply hoare_ret].
  apply hoare_call; [done|]. intros d Hok. eapply pub_ok_ext; [..|done]; [|done|done]. simpl.
  apply map_eq. intros k. rewrite !lookup_fmap. destruct (decide (k = s.(s_RepositoryConfigurationUUID))) as [->|].
  - rewrite lookup_alter_eq. by destruct (configs d !! _).
  - by rewrite lookup_alter_ne.
Qed.

(** Removing a snapshot that is marked as deleted. *)
Lemma kept_Delete_marked fs d r fs' d' x :
  pub_ok d → (∀ u s, pg_uuid x = Some u → d.(snapshots) !! u = Some s → s.(s_DeletedAt) ≠ None) →
  Delete x (fs, d) = (r, (fs', d')) → pub_ok d'.
Proof.
  intros Hok Hdel. unfold Delete, mbind, M_bind. destruct (map_err _ _ _) as [r1 [fs1 d1]] eqn:Hf.
  pose proof (keeps_map_err _ _ (keeps_first_snapshot _ _ _) _ _ _ _ _ Hf) as ->.
  destruct r1 as [e|[u s]]; [intros; by simplify_eq|]. intros Hrun.
  assert (pg_uuid x = Some u) as Hx. { apply map_err_inr, call_inr in Hf. repeat case_match; by simplify_eq. }
  destruct r as [e|[]].
  { apply call_inl in Hrun as [->|Hrun]; [done|]. case_match; by simplify_eq. }
  apply call_inr in Hrun. destruct (existsb _ _); simplify_eq. eapply pub_ok_ext; [..|done]; simpl; [|done|].
  - apply map_eq. intros k. rewrite !lookup_fmap. destruct (configs d !! k); simpl; [|done]. by case_match.
  - apply visible_delete_hidden. intros s' Hs' [_ ?]. by eapply Hdel.
Qed.

(** Marks on snapshots that are not published. *)
Lemma pub_ok_marked (vs : list uuid) d d' :
  (∀ u, u ∈ vs → ∃ s, d.(snapshots) !! u = Some s ∧ s.(s_Published) = false) → marked (.∈ vs) d d' → pub_ok d → pub_ok d'.
Proof.
  intros Hall [H1 H2 H3]. apply pub_ok_ext; [by rewrite H1..|]. apply map_eq. intros u. unfold visible.
  destruct (decide (u ∈ vs)) as [Hin|Hout].
  - apply option_eq. intros s. rewrite !map_lookup_filter_Some. destruct (Hall u Hin) as (s0 & Hs0 & Hp).
    specialize (H3 u). rewrite Hs0 in H3. unfold visible_row.
    destruct (snapshots d' !! u) as [s'|] eqn:Hs'; simpl in H3; [|done]. assert (s_Published s' = false) as Hp' by (injection H3; intros; congruence).
    split; intros [? [??]]; simplify_eq/=; congruence.
  - apply option_eq. intros s. rewrite !map_lookup_filter_Some. by rewrite H2.
Qed.

(** ** The handlers *)

Context (scan : gmap uuid SnapRow → list (uuid * SnapRow)).
Hypothesis scan_perm : ∀ m, scan m ≡ₚ map_to_list m.
Context (scan_templates : gmap uuid TemplateRow → list (uuid * TemplateRow)).
Context (scan_trcs : gmap (uuid * uuid) TrcRow → list (uuid * uuid * TrcRow)).
Context (new_id : list QTask → uuid) (snapshots_enabled : bool) (content_path : goerr + string) (retain : Z).
#[local] Set Default Proof Using "Type*".
Abbreviation deleteSnapshot := (deleteSnapshot scan new_id snapshots_enabled content_path).
Abbreviation bulkDeleteSnapshot := (bulkDeleteSnapshot scan new_id snapshots_enabled content_path).
Abbreviation publishSnapshot := (publishSnapshot scan_templates scan_trcs new_id snapshots_enabled content_path retain).

Lemma kept_on_db {A} (m : DB A) fs w r fs' w' :
  kept m → on_db m (fs, w) = (r, (fs', w')) → pub_ok w.(w_db) → pub_ok w'.(w_db).
Proof.
  intros Hm Hrun Hok. destruct w as [d ts]. apply on_db_inr in Hrun as (d' & Hrun & ->). specialize (Hm fs d Hok).
  rewrite Hrun in Hm. by destruct r.
Qed.

(** The database after an enqueue. *)
Lemma Enqueue_db ty pl org acc ob ot deps fs w r fs' w' :
  EnqueueTask new_id ty pl org acc ob ot deps (fs, w) = (r, (fs', w')) → w'.(w_db) = w.(w_db).
Proof. unfold EnqueueTask, db_call. intros Hrun. by destruct fs as [|[e|] fs]; simplify_eq. Qed.

Lemma enqueue_template_updates_db acc org repo id ts fs w r fs' w' :
  enqueue_template_updates new_id acc org repo id ts (fs, w) = (r, (fs', w')) → w'.(w_db) = w.(w_db).
Proof.
  revert fs w r fs' w'. induction ts as [|t ts IH]; intros fs w r fs' w' Hrun; [simpl in Hrun; by run_ret|].
  cbn [enqueue_template_updates] in Hrun. destruct (_ || _); [by eapply IH|]. rewrite attempt_bind in Hrun.
  destruct (enqueueUpdateTemplateContentTask _ _ _ _ _ _ _) as [r1 [fs1 w1]] eqn:H1. apply Enqueue_db in H1.
  destruct r1; [by run_ret|]. apply IH in Hrun. congruence.
Qed.

Lemma keeps_templates_for_repo now repo b :
  keeps (InternalOnlyGetTemplatesForRepoConfig scan_templates scan_trcs snapshots_enabled content_path retain now repo b).
Proof. unfold InternalOnlyGetTemplatesForRepoConfig, to_responses, GetContentPath, fetchLatestSnapshotUUIDsForReposOfTemplates. keeps_tac. Qed.

Lemma kept_publishSnapshot now acc org repo snap p fs w r fs' w' :
  publishSnapshot now acc org repo snap p (fs, w) = (r, (fs', w')) → pub_ok w.(w_db) → pub_ok w'.(w_db).
Proof.
  unfold SnapshotHandler.publishSnapshot. destruct p as [p|]; [|intros; by run_ret]. rewrite attempt_bind. intros Hrun Hok.
  destruct (on_db _ _) as [r1 [fs1 w1]] eqn:H1. apply (kept_on_db _ _ _ _ _ _ (kept_UpdatePublishedStatus _ _ _ _)) in H1; [|done].
  destruct r1 as [e|snapshot]; [by run_ret|]. rewrite attempt_bind in Hrun.
  destruct (enqueueUpdateSnapshotPublishedTask _ _ _ _ _ _ _) as [r2 [fs2 w2]] eqn:H2. apply Enqueue_db in H2. rewrite <-H2 in H1.
  destruct r2 as [e|id1]; [by run_ret|]. rewrite attempt_bind in Hrun.
  destruct (enqueueUpdateLatestSnapshotTask _ _ _ _ _ _) as [r3 [fs3 w3]] eqn:H3. apply Enqueue_db in H3. rewrite <-H3 in H1.
  destruct r3 as [e|id2]; [by run_ret|]. rewrite attempt_bind in Hrun.
  destruct (on_db _ _) as [r4 [fs4 w4]] eqn:H4. apply keeps_on_db in H4; [subst w4|apply keeps_templates_for_repo].
  destruct r4 as [e|ts]; [by run_ret|]. unfold mbind at 1, M_bind in Hrun.
  destruct (enqueue_template_updates _ _ _ _ _ _ _) as [r5 [fs5 w5]] eqn:H5. apply enqueue_template_updates_db in H5.
  rewrite <-H5 in H1. destruct r5; [by simplify_eq|by run_ret].
Qed.

Lemma kept_deleteSnapshot now acc org repo snap fs w r fs' w' :
  deleteSnapshot now acc org repo snap (fs, w) = (r, (fs', w')) → pub_ok w.(w_db) → pub_ok w'.(w_db).
Proof.
  intros (resp & -> & Hno & Hother)%deleteSnapshot_run Hok; [|done].
  assert (∀ u s, w.(w_db).(snapshots) !! u = Some s → s.(s_Published) = false →
            pub_ok (set_snapshots <[u := set_deleted (Some now) s]> w.(w_db))) as Hmark.
  { intros u s Hu Hp. eapply pub_ok_ext; [..|done]; [done|done|]. simpl. apply visible_insert_hidden.
    - by intros [_ ?].
    - intros s' Hs' [? _]. congruence. }
  assert (resp = RespNoContent ∨ resp ≠ RespNoContent) as [Hr|Hr] by (destruct resp; auto).
  - destruct (Hno Hr) as (_ & u & s & _ & Hu & Hp & ->). simpl. auto.
  - destruct (Hother Hr) as [_ [Hd|[(u & s & Hu & Hp & Hd) _]]]; rewrite Hd; auto.
Qed.

Lemma kept_bulkDeleteSnapshot now acc org repo uuids fs w r fs' w' :
  bulkDeleteSnapshot now acc org repo uuids (fs, w) = (r, (fs', w')) → pub_ok w.(w_db) → pub_ok w'.(w_db).
Proof.
  intros (resp & -> & [Hd|(vs & -> & Hunp & Hm)] & _)%bulkDeleteSnapshot_run Hok; [by rewrite Hd| |done].
  eapply pub_ok_marked; [|done|done]. intros u Hu.
  destruct (Hunp (uuid_String u)) as (v & s & <-%uuid_String_inj & Hs & _ & Hp); [by apply list_elem_of_fmap_2|]. eauto.
Qed.

(** ** Any sequence of operations *)

Inductive step : world → world → Prop :=
  | step_publish now acc org repo snap p fs w r fs' w' : publishSnapshot now acc org repo snap p (fs, w) = (r, (fs', w')) → step w w'
  | step_delete now acc org repo snap fs w r fs' w' : deleteSnapshot now acc org repo snap (fs, w) = (r, (fs', w')) → step w w'
  | step_bulk now acc org repo uuids fs w r fs' w' : bulkDeleteSnapshot now acc org repo uuids (fs, w) = (r, (fs', w')) → step w w'
  | step_partner rc_ p to_api fs w r fs' w' : on_db (SetPartnerRepo rc_ p to_api) (fs, w) = (r, (fs', w')) → step w w'
  | step_create u s fs w r fs' w' : s.(s_Published) = false → on_db (Create u s) (fs, w) = (r, (fs', w')) → step w w'
  | step_remove x fs w r fs' w' :
      (∀ u s, pg_uuid x = Some u → w.(w_db).(snapshots) !! u = Some s → s.(s_DeletedAt) ≠ None) →
      on_db (Delete x) (fs, w) = (r, (fs', w')) → step w w'
  | step_tasks d ts ts' : step (mk_world d ts) (mk_world d ts').

Lemma step_kept w w' : step w w' → pub_ok w.(w_db) → pub_ok w'.(w_db).
Proof.
  destruct 1 as [now acc org repo snap p fs w r fs' w' Hrun|now acc org repo snap fs w r fs' w' Hrun|now acc org repo uuids fs w r fs' w' Hrun
                |rc_ p to_api fs w r fs' w' Hrun|u s fs w r fs' w' Hs Hrun|x fs w r fs' w' Hx Hrun|]; intros Hok; [..|done].
  - by eapply kept_publishSnapshot.
  - by eapply kept_deleteSnapshot.
  - by eapply kept_bulkDeleteSnapshot.
  - eapply kept_on_db; [apply kept_SetPartnerRepo|done..].
  - eapply kept_on_db; [by apply kept_Create|done..].
  - destruct w as [d ts]. apply on_db_inr in Hrun as (d' & Hrun & ->). by eapply kept_Delete_marked.
Qed.

(** The public flag. Along any sequence of requests that publish, unpublish and delete snapshots, of calls that mark
    repositories as a partner's, of new snapshots and of removals of deleted ones, with any failures of the database and
    the queue: [repositories.public] of every uploaded repository says exactly whether a live snapshot of it is published,
    and only snapshots of partner repositories are published. A repository that another organization can see is public. *)
Theorem public_flag_invariant w w' :
  rtc step w w' → pub_ok w.(w_db) →
  pub_ok w'.(w_db) ∧
  ∀ viewer rc c, w'.(w_db).(configs) !! rc = Some c → foreign_partner_visible w'.(w_db) viewer rc c = true →
    ∃ r, w'.(w_db).(repositories) !! c.(c_RepositoryUUID) = Some r ∧ (r_public r) = true.
Proof.
  intros Hsteps Hok. assert (pub_ok w'.(w_db)) as Hok' by (induction Hsteps; eauto using step_kept). split; [done|].
  intros viewer rc c Hc [[Hp _]%andb_true_iff Hpub]%andb_true_iff. destruct (partner_upload _ Hok' rc c Hc Hp) as (r & Hr & Ho).
  exists r. split; [done|]. by rewrite (pub_flag _ Hok' rc c r).
Qed.
End Ops.

(** ** Examples *)

Import Ex.

Ltac row_cases :=
  repeat match goal with
         | H : <[_ := _]> _ !! _ = Some _ |- _ => apply lookup_insert_Some in H as [[? ?]|[_ H]]; simplify_eq/=
         | H : ∅ !! _ = Some _ |- _ => by apply lookup_empty_Some in H
         end.

Lemma ex_pub_ok : pub_ok Ex.d.
Proof.
  split.
  - intros rc c r Hc Hr Ho. simpl in Hc. row_cases; by vm_compute.
  - intros rc rc' c c' r Hc Hc' Heq Hr Ho. simpl in Hc, Hc'. row_cases; done.
  - intros u s Hu [Hp Hl]. simpl in Hu. row_cases; try done. by eexists.
  - intros rc c Hc Hp. simpl in Hc. row_cases; try done. by eexists.
Qed.

Definition ex_publish := publishSnapshot map_to_list map_to_list ex_id true (inr "https://pulp/") 365 99.

(** Publishing a second snapshot of the partner, and taking back the first one. *)
Lemma public_flag_invariant_witness :
  ∃ w', rtc (step map_to_list map_to_list map_to_list ex_id true (inr "https://pulp/") 365) (mk_world Ex.d []) w' ∧ pub_ok w'.(w_db) ∧
    published_of w'.(w_db) 2 = [].
Proof.
  destruct (ex_publish "acc" "partner" (uuid_String 2) (uuid_String 7) (Some false) ([], mk_world Ex.d [])) as [r [fs' w']] eqn:Hrun.
  assert (rtc (step map_to_list map_to_list map_to_list ex_id true (inr "https://pulp/") 365) (mk_world Ex.d []) w') as Hsteps
    by (eapply rtc_once, step_publish, Hrun).
  exists w'. split; [done|]. split.
  - by apply (public_flag_invariant map_to_list (λ m, reflexivity _) map_to_list map_to_list ex_id true (inr "https://pulp/") 365 _ _ Hsteps ex_pub_ok).
  - replace w' with (ex_publish "acc" "partner" (uuid_String 2) (uuid_String 7) (Some false) ([], mk_world Ex.d [])).2.2
      by by rewrite Hrun.
    by vm_compute.
Defined.

(** The clean-up marks the only published snapshot of the partner as deleted; the repository stays public. *)
Example cleanup_breaks_flag :
  let '(r, (_, w')) := enqueueSnapshotCleanupForRepoConfig map_to_list ex_id (15 * Second)%Z 0 2 (config 12 "partner" true)
                         ([], mk_world Ex.d []) in
  r = inr () ∧ published_of w'.(w_db) 2 = [] ∧ r_public <$> w'.(w_db).(repositories) !! 12%N = Some true.
Proof. by vm_compute. Qed.

(** Its task is not seen as a deletion in progress: it carries another UUID than the check looks for. *)
Example cleanup_not_in_progress :
  let '(_, (_, w')) := enqueueSnapshotCleanupForRepoConfig map_to_list ex_id (15 * Second)%Z 0 2 (config 12 "partner" true)
                         ([], mk_world Ex.d []) in
  length w'.(w_tasks) = 1%nat ∧ (isDeleteInProgress "partner" (uuid_String 2) ([], w')).1 = inr None.
Proof. by vm_compute. Qed.
