(* ===== verification/TemplateInv.v ===== *)
(** * The content of templates stays consistent

    A row of the content refers to a template, to a repository and to a snapshot of that repository, whatever is created,
    updated and deleted, in any order and with any failures. *)

From S2P Require Import Prelude GoStrings GoSplit Config TxMonad Utils Models Errors DaoHelpers GoText SnapshotDao SnapshotThms TemplateDao SnapshotHandler SnapshotHandlerThms SnapshotBulk TemplateThms Publication.
From stdpp Require Import options.

Open Scope string_scope.

Definition content_ok (d : db) : Prop := ∀ tu rc x, d.(trcs) !! (tu, rc) = Some x →
  is_Some (d.(templates) !! tu) ∧ is_Some (d.(configs) !! rc) ∧
  ∃ s, d.(snapshots) !! x.(x_SnapshotUUID) = Some s ∧ s.(s_RepositoryConfigurationUUID) = rc.

(** Changes that keep what the rows refer to. *)
Record content_grows (d d' : db) : Prop := {
  grows_templates tu : is_Some (d.(templates) !! tu) → is_Some (d'.(templates) !! tu);
  grows_configs rc : is_Some (d.(configs) !! rc) → is_Some (d'.(configs) !! rc);
  grows_snapshots u s : d.(snapshots) !! u = Some s →
    ∃ s', d'.(snapshots) !! u = Some s' ∧ s'.(s_RepositoryConfigurationUUID) = s.(s_RepositoryConfigurationUUID);
  grows_trcs k x : d'.(trcs) !! k = Some x → ∃ x0, d.(trcs) !! k = Some x0 ∧ x.(x_SnapshotUUID) = x0.(x_SnapshotUUID)
}.

Lemma content_ok_grows d d' : content_grows d d' → content_ok d → content_ok d'.
Proof.
  intros [Ht Hc Hs Hx] Hok tu rc x (x0 & Hx0 & Heq)%Hx. destruct (Hok tu rc x0 Hx0) as (? & ? & s & Hs0 & Hr).
  split; [auto|]. split; [auto|]. rewrite Heq. destruct (Hs _ _ Hs0) as (s' & ? & ?). exists s'. split; congruence.
Qed.

Lemma is_Some_alter {K A} `{Countable K} (m : gmap K A) f i k : is_Some (m !! k) → is_Some (alter f i m !! k).
Proof.
  destruct (decide (k = i)) as [->|]; [|by rewrite lookup_alter_ne]. rewrite lookup_alter_eq. by intros [? ->].
Qed.

Lemma grows_snapshots_alter d f u :
  (∀ s, (f s).(s_RepositoryConfigurationUUID) = s.(s_RepositoryConfigurationUUID)) → content_grows d (set_snapshots (alter f u) d).
Proof.
  intros Hf. split; simpl; [done|done| |eauto]. intros v s Hs. destruct (decide (v = u)) as [->|].
  - rewrite lookup_alter_eq, Hs. simpl. eauto.
  - rewrite lookup_alter_ne by done. eauto.
Qed.

Lemma grows_snapshots_insert d s u : d.(snapshots) !! u = None → content_grows d (set_snapshots <[u := s]> d).
Proof.
  intros Hu. split; simpl; [done|done| |eauto]. intros v s' Hs. rewrite lookup_insert_ne by (intros ->; congruence). eauto.
Qed.

Lemma grows_templates_only d f : (∀ tu, is_Some (d.(templates) !! tu) → is_Some (f d.(templates) !! tu)) → content_grows d (set_templates f d).
Proof. intros Hf. split; simpl; [done|done|eauto|eauto]. Qed.

Lemma grows_configs_only d f : (∀ rc, is_Some (d.(configs) !! rc) → is_Some (f d.(configs) !! rc)) → content_grows d (set_configs f d).
Proof. intros Hf. split; simpl; [done|done|eauto|eauto]. Qed.

Lemma grows_repositories d f : content_grows d (set_repositories f d).
Proof. split; simpl; [done|done|eauto|eauto]. Qed.

Lemma grows_trcs_filter d (P : uuid * uuid * TrcRow → Prop) `{∀ x, Decision (P x)} : content_grows d (set_trcs (base.filter P) d).
Proof. split; simpl; [done|done|eauto|]. intros k x [? _]%map_lookup_filter_Some. eauto. Qed.

#[export] Hint Resolve grows_snapshots_alter grows_snapshots_insert grows_templates_only grows_configs_only grows_repositories
  grows_trcs_filter is_Some_alter : go.

Abbreviation kept m := (hoare content_ok m (λ _, content_ok) (λ _, content_ok)).

(** A single statement that keeps what the rows refer to, whatever it answers. *)
Lemma kept_call {A} (f : db → (goerr + A) * db) : (∀ d, (f d).2 = d ∨ content_grows d (f d).2) → kept (db_call f).
Proof.
  intros Hf. apply hoare_call; [done|]. intros d Hok. destruct (Hf d) as [Heq|Hg]; destruct (f d) as [[e|a] d'] eqn:E; simpl in *; subst; auto;
    by eapply content_ok_grows.
Qed.

Lemma kept_keeps {A} (m : DB A) : keeps m → kept m.
Proof. apply hoare_keeps. Qed.

Lemma kept_map_err {A} g (m : DB A) : kept m → kept (map_err g m).
Proof. intros Hm. by apply hoare_map_err. Qed.

Lemma kept_bind {A B} (m : DB A) (k : A → DB B) : kept m → (∀ a, kept (k a)) → kept (m ≫= k).
Proof. intros Hm Hk. by eapply hoare_bind. Qed.

(** Case on the statements of an operation. *)
Ltac kept_tac :=
  repeat (first [apply kept_map_err | apply kept_bind; [|intros ?] | apply kept_keeps; by keeps_tac
                | apply kept_call; intros ?; simpl; by eauto with go | case_match]).

Section Ops.
Context `{UT : UuidText, UL : !UuidLaws}.
#[local] Set Default Proof Using "Type*".

Lemma kept_first_snapshot {A} scoped p raw g (k : uuid * SnapRow → DB A) :
  (∀ us, kept (k us)) → kept (us ← map_err g (first_snapshot scoped p raw); k us).
Proof. intros Hk. apply kept_bind; [|done]. apply kept_keeps, keeps_map_err, keeps_first_snapshot. Qed.

Lemma kept_SoftDelete now x : kept (SoftDelete now x).
Proof.
  apply kept_first_snapshot. intros [u s]. destruct (is_live s); [|by apply hoare_ret]. apply kept_call. intros d. right.
  apply grows_snapshots_alter. intros s'. by destruct (is_live s').
Qed.

Lemma kept_Delete x : kept (Delete x).
Proof.
  apply kept_first_snapshot. intros [u s]. apply hoare_call; [done|]. intros d Hok. destruct (existsb _ _) eqn:He; [done|].
  intros tu rc x0 Hx. simpl in *. destruct (Hok tu rc x0 Hx) as (? & [c Hc] & s0 & Hs0 & Hr). split; [done|]. split.
  - rewrite lookup_fmap, Hc. by eexists.
  - exists s0. split; [|done]. rewrite lookup_delete_ne; [done|]. intros ->.
    assert (existsb (λ kx : uuid * uuid * TrcRow, kx.2.(x_SnapshotUUID) == x_SnapshotUUID x0) (map_to_list (trcs d)) = true) as Ht; [|congruence].
    apply existsb_exists. exists (tu, rc, x0). split; [by apply list_elem_of_In, elem_of_map_to_list|]. by apply bool_decide_eq_true.
Qed.

Lemma kept_ClearDeletedAt x : kept (ClearDeletedAt x).
Proof. apply kept_first_snapshot. intros [u s]. apply kept_call. intros d. right. by apply grows_snapshots_alter. Qed.

Lemma kept_Snapshot_Create u s : kept (Create u s).
Proof.
  unfold Create. apply kept_bind; [|intros []; apply kept_bind; [|intros []; by apply hoare_ret]].
  - apply kept_call. intros d. simpl. case_bool_decide as Hu; [by left|]. simpl. destruct (existsb _ _); [by left|].
    case_bool_decide; [by left|]. right. apply grows_snapshots_insert. by apply eq_None_not_Some.
  - apply kept_call. intros d. right. apply grows_configs_only. intros rc. apply is_Some_alter.
Qed.

Lemma kept_UpdatePublished org p rc x : kept (UpdatePublishedStatus org p rc x).
Proof.
  unfold UpdatePublishedStatus. apply kept_bind; [|intros [us c]; by apply hoare_ret].
  eapply (hoare_transaction _ _ _ _ _ _ _ (λ _, content_ok)); [|done].
  apply kept_first_snapshot. intros [u s]. apply kept_bind; [by apply kept_keeps, keeps_call|intros c].
  destruct (_ != rc); [by apply hoare_throw|]. destruct (_ != org); [by apply hoare_throw|]. destruct (negb _); [by apply hoare_throw|].
  apply kept_bind; [|intros []; apply kept_bind; [|intros []; by apply hoare_ret]].
  - apply kept_map_err, kept_call. intros d. right. by apply grows_snapshots_alter.
  - apply kept_call. intros d. simpl. case_match; [right; apply grows_repositories|by left].
Qed.

Lemma kept_bulkDelete now d0 uuids fs d r fs' d' :
  content_ok d0 → content_ok d → bulkDelete now d0 uuids (fs, d) = (r, (fs', d')) → content_ok d'.
Proof.
  intros H0. revert fs d r fs' d'. induction uuids as [|x uuids IH]; intros fs d r fs' d' Hok Hrun; [simpl in Hrun; by run_ret|].
  cbn [bulkDelete] in Hrun.
  destruct ((us ← read_at d0 (fetch x); soft_delete now us.1.1) (fs, d)) as [[e|[]] [fs1 d1]] eqn:H1.
  - unfold mbind at 1, M_bind in Hrun. destruct (bulkDelete _ _ _ _) as [r2 [fs2 d2]] eqn:H2. apply IH in H2; [|done].
    destruct r2; [by simplify_eq|by run_ret].
  - apply bind_inr in H1 as ([us c] & [fs2 d2] & Hf & Hs). unfold read_at in Hf. destruct (fetch _ (fs, d0)) as [r3 [fs3 d3]].
    simplify_eq. apply call_inr in Hs. simpl in Hs. simplify_eq.
    unfold mbind at 1, M_bind in Hrun. destruct (bulkDelete _ _ _ _) as [r2 [fs4 d4]] eqn:H2.
    apply IH in H2; [destruct r2; [by simplify_eq|by run_ret]|]. eapply content_ok_grows; [|done]. apply grows_snapshots_alter.
    intros s. by destruct (is_live s).
Qed.

Lemma kept_BulkDelete now uuids : kept (BulkDelete now uuids).
Proof.
  intros fs d Hok. unfold BulkDelete. destruct (db_noop (fs, d)) as [[e|[]] [fs1 d1]] eqn:H1;
    [by apply noop_inl in H1 as ->|apply noop_inr in H1 as ->].
  destruct (bulkDelete _ _ _ _) as [[e|errs] [fs2 d2]] eqn:H2; [done|]. apply kept_bulkDelete in H2; [|done..].
  destruct (has_error errs); [by destruct (db_noop _) as [? [? ?]]|].
  destruct (db_noop (fs2, d2)) as [[e|[]] [fs3 d3]] eqn:H3; [done|]. by apply noop_inr in H3 as ->.
Qed.

(** ** Templates *)

(** The snapshots handed to a task are rows of the table. *)
Definition snapshots_of (d : db) (snaps : list (uuid * SnapRow)) : Prop :=
  ∀ us, us ∈ snaps → ∃ s, d.(snapshots) !! us.1 = Some s ∧ s.(s_RepositoryConfigurationUUID) = repo_of us.

(** Upserted rows refer to snapshots of their repositories, unless a conflict keeps the old snapshot. *)
Lemma content_ok_upsert merge tu href uss fs d fs' d' :
  (∀ old new, (merge old new).(x_SnapshotUUID) = old.(x_SnapshotUUID) ∨ (merge old new).(x_SnapshotUUID) = new.(x_SnapshotUUID)) →
  snapshots_of d uss → upsert merge (rows_of tu href uss) (fs, d) = (inr (inr ()), (fs', d')) → content_ok d → content_ok d'.
Proof.
  intros Hmerge Hsnaps Hrun Hok. apply upsert_run in Hrun as (Hnd & Hd' & Href). intros tu' rc x Hx.
  destruct (decide ((tu', rc) ∈ (rows_of tu href uss).*1)) as [Hin|Hout].
  - destruct (Href _ x Hin Hx) as (Ht & Hc & _). rewrite Hd' in Hx |- *. simpl in *. split; [done|]. split; [done|].
    apply list_elem_of_fmap in Hin as ([k y] & Hk & Hin). simpl in Hk. subst k. pose proof Hin as Hin'.
    apply list_elem_of_fmap in Hin as (us & [= -> -> ->] & Hus).
    erewrite upsert_in in Hx; [|done|exact Hin']. simplify_eq. destruct (Hsnaps us Hus) as (s & Hs & Hr).
    destruct (trcs d !! (tu, repo_of us)) as [old|] eqn:Hold; [|simpl; eauto].
    destruct (Hmerge old (mk_TrcRow us.1 (Some (href (uuid_String (repo_of us)))) None)) as [->| ->]; simpl; [|eauto].
    by destruct (Hok _ _ _ Hold) as (_ & _ & ?).
  - rewrite Hd' in Hx |- *. simpl in *. rewrite upsert_out in Hx by done. by apply Hok.
Qed.

Lemma kept_create_trcs merge tu href snaps uuids rows fs d r fs' d' :
  (∀ old new, (merge old new).(x_SnapshotUUID) = old.(x_SnapshotUUID) ∨ (merge old new).(x_SnapshotUUID) = new.(x_SnapshotUUID)) →
  (∃ uss, uuids = repos_of uss ∧ (∀ us, us ∈ uss → us ∈ snaps) ∧ with_keys rows = Some (rows_of tu href uss)) →
  snapshots_of d snaps → create_trcs merge rows (fs, d) = (r, (fs', d')) → content_ok d → content_ok d'.
Proof.
  intros Hm (uss & -> & Hin & Hk) Hsn Hrun Hok. assert (r = inr () ∨ r ≠ inr ()) as [->|Hr] by (destruct r as [|[]]; auto).
  - eapply create_trcs_run in Hrun; [|done]. eapply content_ok_upsert; [done| |done|done]. intros us Hus. auto.
  - apply create_trcs_err in Hrun; [|done]. by subst.
Qed.

Context (scan : gmap uuid SnapRow → list (uuid * SnapRow)).
Hypothesis scan_perm : ∀ m, scan m ≡ₚ map_to_list m.
Context (scan_trcs : gmap (uuid * uuid) TrcRow → list (uuid * uuid * TrcRow)).
Context (snapshots_enabled : bool) (content_path : goerr + string) (retain : Z).
Abbreviation Template_Create := (Template_Create scan).
Abbreviation Template_create := (Template_create scan).
Abbreviation Template_Update := (Template_Update scan scan_trcs snapshots_enabled content_path retain).

Lemma keeps_by_date org uuids date : keeps (FetchSnapshotsModelByDateAndRepository scan org uuids date).
Proof. by apply keeps_map_err, keeps_call. Qed.

Lemma kept_insert now org tu t uuids : kept (insertTemplateRepoConfigsAndSnapshots scan now org tu t uuids).
Proof.
  intros fs d Hok. destruct (insertTemplateRepoConfigsAndSnapshots _ _ _ _ _ _ _) as [r [fs' d']] eqn:Hrun.
  enough (content_ok d') by by destruct r. unfold insertTemplateRepoConfigsAndSnapshots, mbind, M_bind in Hrun.
  destruct (FetchSnapshotsModelByDateAndRepository _ _ _ _ _) as [r1 [fs1 d1]] eqn:Hf.
  assert (d1 = d) as -> by (eapply keeps_by_date; exact Hf).
  destruct r1 as [e|snaps]; [by simplify_eq|]. apply map_err_inr, call_inr in Hf. simplify_eq.
  destruct (choose_snapshots _ _ _) as [rows|] eqn:Hc; [|unfold throw in Hrun; by simplify_eq].
  eapply kept_create_trcs; [|by eapply choose_snapshots_rows| |done|done]; [by right|].
  intros us Hus. apply elem_of_snapshots_by_date in Hus; [|done]. apply combined_nearest in Hus as [(Hl & _) _]; [|done]. eauto.
Qed.

Lemma kept_checked {A} o (m : DB (db_error + A)) : kept m → kept (checked o m).
Proof.
  intros Hm. apply kept_bind; [by apply kept_map_err|]. intros [e|a]; [by apply hoare_throw|by apply hoare_ret].
Qed.

Lemma kept_insert_template u t : kept (insert_template u t).
Proof.
  apply kept_call. intros d. destruct (template_validate t); [by left|]. case_bool_decide; [by left|].
  destruct (name_taken d u t); [by left|]. right. apply grows_templates_only. intros tu. simpl.
  destruct (decide (tu = u)) as [->|]; [rewrite lookup_insert_eq; by eexists|by rewrite lookup_insert_ne].
Qed.

Lemma kept_Template_create now u r : kept (Template_create now u r).
Proof.
  unfold TemplateDao.Template_create. destruct (rq_OrgID r) as [org|]; [|by apply hoare_throw].
  apply kept_bind; [apply kept_keeps, keeps_validate|intros []]. apply kept_bind; [apply kept_checked, kept_insert_template|intros []].
  destruct (rq_RepositoryUUIDS r); [|by apply hoare_throw]. apply kept_bind; [apply kept_insert|intros []; by apply hoare_ret].
Qed.

(** The transaction of [Create]. *)
Lemma Template_Create_run now u r fs d res fs' d' :
  Template_Create now u r (fs, d) = (res, (fs', d')) →
  d' = d ∨ ∃ fs1 fs2 resp, res = inr (Some resp) ∧ Template_create now u r (fs1, d) = (inr resp, (fs2, d')).
Proof.
  unfold TemplateDao.Template_Create. destruct (db_noop (fs, d)) as [[e|[]] [fs1 d1]] eqn:H1.
  { apply noop_inl in H1 as ->. intros; simplify_eq. by left. }
  apply noop_inr in H1 as ->. destruct (Template_create now u r _) as [[e|resp] [fs2 d2]] eqn:H2.
  { destruct (db_noop _) as [? [? ?]]. intros; simplify_eq. by left. }
  destruct (db_noop (fs2, d2)) as [[e|[]] [fs3 d3]] eqn:H3; intros; simplify_eq; [by left|].
  apply noop_inr in H3 as ->. right. by exists fs1, fs2, resp.
Qed.

Lemma kept_Template_update now org x r : kept (Template_update scan scan_trcs now org x r).
Proof.
  unfold Template_update. apply kept_bind; [apply kept_keeps, keeps_Template_fetch|intros [[u t] rows]].
  apply kept_bind; [|intros []].
  - apply kept_checked, kept_call. intros d. destruct (template_validate _); [by left|].
    destruct (templates d !! Uuidify x) as [row|] eqn:Hrow; [|by left]. destruct (template_live row); [|by left].
    cbv zeta. destruct (name_taken _ _ _); [by left|]. right. apply grows_templates_only. intros tu. simpl.
    destruct (decide (tu = Uuidify x)) as [->|]; [rewrite lookup_insert_eq; by eexists|by rewrite lookup_insert_ne].
  - apply kept_bind; [apply kept_keeps; keeps_tac|intros []]. destruct (up_RepositoryUUIDS r); [|by apply hoare_ret].
    apply kept_bind; [apply kept_keeps, keeps_validate|intros []]. apply kept_bind; [|intros []; apply kept_map_err, kept_insert].
    apply kept_map_err, kept_map_err, kept_call. intros d. right. split; simpl; [done|done|eauto|].
    intros k y. rewrite map_lookup_imap. destruct (trcs d !! k) as [y0|]; [|done]. intros [= <-]. exists y0. split; [done|].
    by case_match.
Qed.

Lemma kept_Template_Update now org x r : kept (Template_Update now org x r).
Proof.
  apply kept_bind; [|intros []; apply kept_keeps, keeps_Template_Fetch].
  eapply (hoare_transaction _ _ _ _ _ _ _ (λ _, content_ok)); [apply kept_Template_update|done].
Qed.

Lemma keeps_first_template b org x : keeps (first_template b org x).
Proof. unfold first_template. keeps_tac. Qed.

Lemma kept_Template_Delete org x : kept (Template_Delete org x).
Proof.
  apply kept_bind; [apply kept_keeps, keeps_map_err, keeps_first_template|intros [u t]]. apply hoare_call; [done|].
  intros d Hok tu rc y [Hy Hne]%map_lookup_filter_Some. simpl in *. rewrite lookup_delete_ne by done. by apply Hok.
Qed.

(** ** Any sequence of operations *)

Definition runs {A} (m : DB A) (d d' : db) : Prop := ∃ fs r fs', m (fs, d) = (r, (fs', d')).

Inductive tstep (d d' : db) : Prop :=
  | tstep_create now u r : runs (Template_Create now u r) d d' → tstep d d'
  | tstep_update now org x r : runs (Template_Update now org x r) d d' → tstep d d'
  | tstep_soft_delete now org x : runs (Template_SoftDelete now org x) d d' → tstep d d'
  | tstep_clear org x : runs (Template_ClearDeletedAt org x) d d' → tstep d d'
  | tstep_delete org x : runs (Template_Delete org x) d d' → tstep d d'
  | tstep_drop x keep : runs (DeleteTemplateRepoConfigs x keep) d d' → tstep d d'
  | tstep_drop_snapshot x : runs (DeleteTemplateSnapshot x) d d' → tstep d d'
  | tstep_hrefs tu uuids snaps hrefs : snapshots_of d snaps → runs (UpdateDistributionHrefs tu uuids snaps hrefs) d d' → tstep d d'
  | tstep_snapshots tu uuids snaps : snapshots_of d snaps → runs (UpdateSnapshots tu uuids snaps) d d' → tstep d d'
  | tstep_environment tu : runs (SetEnvironmentCreated tu) d d' → tstep d d'
  | tstep_task task tu org : runs (UpdateLastUpdateTask task tu org) d d' → tstep d d'
  | tstep_error org tu msg : runs (UpdateLastError org tu msg) d d' → tstep d d'
  | tstep_new_snapshot u s : runs (Create u s) d d' → tstep d d'
  | tstep_mark now x : runs (SoftDelete now x) d d' → tstep d d'
  | tstep_unmark x : runs (ClearDeletedAt x) d d' → tstep d d'
  | tstep_mark_many now uuids : runs (BulkDelete now uuids) d d' → tstep d d'
  | tstep_remove x : runs (Delete x) d d' → tstep d d'
  | tstep_publish org p rc x : runs (UpdatePublishedStatus org p rc x) d d' → tstep d d'.

Lemma kept_runs {A} (m : DB A) d d' : kept m → runs m d d' → content_ok d → content_ok d'.
Proof. intros Hm (fs & r & fs' & Hrun) Hok. specialize (Hm fs d Hok). rewrite Hrun in Hm. by destruct r. Qed.

Lemma kept_UpdateDistributionHrefs tu uuids snaps hrefs d d' :
  snapshots_of d snaps → runs (UpdateDistributionHrefs tu uuids snaps hrefs) d d' → content_ok d → content_ok d'.
Proof.
  intros Hsn (fs & r & fs' & Hrun) Hok. unfold UpdateDistributionHrefs in Hrun.
  destruct (match_snapshots _ _ _ _) as [[|? ?] rows] eqn:Hm; [|unfold throw in Hrun; by simplify_eq].
  eapply kept_create_trcs; [|by eapply match_snapshots_rows|done..]. by left.
Qed.

Lemma kept_UpdateSnapshots tu uuids snaps d d' :
  snapshots_of d snaps → runs (UpdateSnapshots tu uuids snaps) d d' → content_ok d → content_ok d'.
Proof.
  intros Hsn (fs & r & fs' & Hrun) Hok. unfold UpdateSnapshots in Hrun.
  destruct (match_snapshots _ _ _ _) as [[|? ?] rows] eqn:Hm; [|unfold throw in Hrun; by simplify_eq].
  destruct rows; [by run_ret|]. eapply kept_create_trcs; [|by eapply match_snapshots_rows|done..]. by right.
Qed.

Lemma kept_Template_Create now u r : kept (Template_Create now u r).
Proof.
  intros fs d Hok. destruct (Template_Create now u r (fs, d)) as [res [fs' d']] eqn:Hrun. enough (content_ok d') by by destruct res.
  apply Template_Create_run in Hrun as [->|(fs1 & fs2 & resp & _ & Hrun)]; [done|].
  eapply kept_runs; [apply kept_Template_create| |done]. by eexists _, _, _.
Qed.

Lemma kept_template_status tu (f : TemplateRow → TemplateRow) : kept (db_call (λ d, (inr (), set_templates (alter f tu) d)) : DB ()).
Proof. apply kept_call. intros d. right. apply grows_templates_only. intros. by apply is_Some_alter. Qed.

Lemma kept_trcs_filter (P : uuid * uuid * TrcRow → Prop) `{!∀ x, Decision (P x)} g :
  kept (map_err g (db_call (λ d, (inr (), set_trcs (base.filter P) d))) : DB ()).
Proof. apply kept_map_err, kept_call. intros d. right. by apply grows_trcs_filter. Qed.

Lemma tstep_kept d d' : tstep d d' → content_ok d → content_ok d'.
Proof.
  destruct 1 as [? ? ? Hr|? ? ? ? Hr|? ? ? Hr|? ? Hr|? ? Hr|? ? Hr|? Hr|? ? ? ? Hsn Hr|? ? ? Hsn Hr|? Hr|? ? ? Hr|? ? ? Hr|? ? Hr
                |? ? Hr|? Hr|? ? Hr|? Hr|? ? ? ? Hr];
    try (by eapply kept_UpdateDistributionHrefs); try (by eapply kept_UpdateSnapshots).
  all: eapply kept_runs; [clear Hr|exact Hr].
  - apply kept_Template_Create.
  - apply kept_Template_Update.
  - apply kept_bind; [apply kept_keeps, keeps_map_err, keeps_first_template|intros [? ?]; apply kept_template_status].
  - apply kept_bind; [apply kept_keeps, keeps_first_template|intros [? ?]; apply kept_template_status].
  - apply kept_Template_Delete.
  - apply kept_trcs_filter.
  - apply kept_trcs_filter.
  - apply kept_template_status.
  - apply kept_template_status.
  - apply kept_template_status.
  - apply kept_Snapshot_Create.
  - apply kept_SoftDelete.
  - apply kept_ClearDeletedAt.
  - apply kept_BulkDelete.
  - apply kept_Delete.
  - apply kept_UpdatePublished.
Qed.

(** [C36] Consistent templates. Along any sequence of the operations on templates and on snapshots, with any failures of the
    database: every row of the content of a template refers to an existing template, repository and snapshot, and the
    snapshot is one of that repository. In particular a snapshot that a template uses is never removed. *)
Theorem template_content_invariant d d' : rtc tstep d d' → content_ok d → content_ok d'.
Proof. induction 1; eauto using tstep_kept. Qed.

(** Creating a template. Either nothing changes, or [Create] answers with the template and then: the request names an
    organization and distinct repositories, the template is valid and new, every requested repository has exactly the
    snapshot nearest to the date of the template (or to the current time), and nothing else has changed. *)
Theorem template_create_exact now u r fs d res fs' d' :
  content_ok d → Template_Create now u r (fs, d) = (res, (fs', d')) →
  d' = d ∨
  ∃ resp org vs, res = inr (Some resp) ∧ r.(rq_OrgID) = Some org ∧ r.(rq_RepositoryUUIDS) = Some (uuid_String <$> vs) ∧ NoDup vs ∧
    let t := templatesCreateApiToModel r in
    template_validate t = None ∧ d.(templates) !! u = None ∧ d'.(templates) = <[u := t]> d.(templates) ∧
    d'.(snapshots) = d.(snapshots) ∧ d'.(configs) = d.(configs) ∧
    (∀ rc, rc ∈ vs → ∃ us, nearest (candidate d org vs) (content_date now t) us ∧ repo_of us = rc ∧
       d'.(trcs) !! (u, rc) = Some (mk_TrcRow us.1 (Some "") None)) ∧
    (∀ rc, rc ∉ vs → d'.(trcs) !! (u, rc) = None) ∧
    (∀ k, k.1 ≠ u → d'.(trcs) !! k = d.(trcs) !! k).
Proof.
  intros Hok [?|(fs1 & fs2 & resp & -> & Hrun)]%Template_Create_run; [by left|right]. unfold TemplateDao.Template_create in Hrun.
  destruct (rq_OrgID r) as [org|] eqn:Ho; [|done]. apply bind_inr in Hrun as ([] & [fs3 d3] & Hv%keeps_validate & Hrun). subst d3.
  apply bind_inr in Hrun as ([] & [fs4 d4] & Hi%checked_inr%call_inr & Hrun).
  destruct (template_validate _) eqn:Hval; [done|]. case_bool_decide as Hu; [done|]. destruct (name_taken _ _ _); [done|]. simplify_eq.
  destruct (rq_RepositoryUUIDS r) as [uuids|] eqn:Hr; [|done]. apply bind_inr in Hrun as ([] & [fs5 d5] & Hins & Hret).
  apply ret_inr in Hret as [<- [= <- <-]].
  apply (insert_run scan scan_perm) in Hins as (vs & -> & Hnd & _ & Hrest & Hin & Hout). apply eq_None_not_Some in Hu.
  assert (∀ rc, d.(trcs) !! (u, rc) = None) as Hfresh.
  { intros rc. destruct (trcs d !! (u, rc)) as [x|] eqn:Hx; [|done]. destruct (Hok _ _ _ Hx) as ([? ?] & _). congruence. }
  eexists _, org, vs. cbv zeta. split_and!; try done; try (by rewrite Hrest).
  - intros rc Hrc. destruct (Hin rc Hrc) as [_ (us & Hnear & Hus & Hrow)]. exists us. split; [done|]. split; [done|].
    rewrite Hrow. unfold old_href. simpl. by rewrite Hfresh.
  - intros rc Hrc. rewrite Hout by (simpl; naive_solver). apply Hfresh.
  - intros k Hk. rewrite Hout by naive_solver. done.
Qed.
End Ops.
