(* ===== verification/TemplateLists.v ===== *)
(** * Lists of templates, changes of their content, and examples *)

From S2P Require Import Prelude GoStrings GoSplit Config TxMonad Utils Models Errors DaoHelpers GoText SnapshotDao SnapshotThms TemplateDao SnapshotHandler SnapshotHandlerThms SnapshotBulk TemplateThms Publication TemplateInv.
From stdpp Require Import options.

Open Scope string_scope.

(** ** Changes *)

Section Changes.
Context `{UT : UuidText, UL : !UuidLaws}.
#[local] Set Default Proof Using "Type*".

(** The three classes, and all of them. *)
Lemma classify_spec new rows c :
  c = foldr (classify new) (mk_RepoChanges [] [] [] []) rows →
  ∀ x, (x ∈ c.(added) ↔ ∃ kx, kx ∈ rows ∧ x = uuid_String kx.1.2 ∧ x ∈ new ∧ href_field kx.2 = "") ∧
       (x ∈ c.(unchanged) ↔ ∃ kx, kx ∈ rows ∧ x = uuid_String kx.1.2 ∧ x ∈ new ∧ href_field kx.2 ≠ "") ∧
       (x ∈ c.(removed) ↔ ∃ kx, kx ∈ rows ∧ x = uuid_String kx.1.2 ∧ x ∉ new).
Proof.
  revert c. induction rows as [|kx rows IH]; intros c -> x; simpl; [set_solver|].
  specialize (IH _ eq_refl x). unfold classify at 1 3 5.
  destruct (contains new (uuid_String kx.1.2)) eqn:Hc; [apply contains_true in Hc|apply contains_false in Hc];
    case_bool_decide as Hh; simpl; set_solver.
Qed.

Context (scan : gmap uuid SnapRow → list (uuid * SnapRow)).
Hypothesis scan_perm : ∀ m, scan m ≡ₚ map_to_list m.
Context (scan_trcs : gmap (uuid * uuid) TrcRow → list (uuid * uuid * TrcRow)).
Hypothesis scan_trcs_perm : ∀ m, scan_trcs m ≡ₚ map_to_list m.
Context (snapshots_enabled : bool) (content_path : goerr + string) (retain : Z).
Abbreviation Template_Update := (Template_Update scan scan_trcs snapshots_enabled content_path retain).
Abbreviation GetRepoChanges := (GetRepoChanges scan_trcs).

Lemma GetRepoChanges_run tu new fs d c w rc :
  GetRepoChanges (uuid_String tu) new (fs, d) = (inr c, w) →
  (uuid_String rc ∈ c.(added) ↔ uuid_String rc ∈ new ∧ ∃ x, d.(trcs) !! (tu, rc) = Some x ∧ href_field x = "") ∧
  (uuid_String rc ∈ c.(unchanged) ↔ uuid_String rc ∈ new ∧ ∃ x, d.(trcs) !! (tu, rc) = Some x ∧ href_field x ≠ "") ∧
  (uuid_String rc ∈ c.(removed) ↔ (uuid_String rc ∉ new) ∧ is_Some (d.(trcs) !! (tu, rc))).
Proof.
  unfold TemplateDao.GetRepoChanges. destruct w as [fs' d']. intros Hrun%map_err_inr%call_inr. rewrite pg_String in Hrun. simplify_eq.
  match goal with |- context [added ?x] => destruct (classify_spec new _ x eq_refl (uuid_String rc)) as (-> & -> & ->) end.
  assert (∀ kx, kx ∈ base.filter (λ kx : uuid * uuid * TrcRow, kx.1.1 = tu) (scan_trcs d'.(trcs)) ∧ uuid_String rc = uuid_String kx.1.2 ↔
            kx.1 = (tu, rc) ∧ d'.(trcs) !! (tu, rc) = Some kx.2) as Hrow.
  { intros [[tu' rc'] x]. rewrite list_elem_of_filter, scan_trcs_perm, elem_of_map_to_list. simpl. split.
    - intros [[-> Hx] ->%uuid_String_inj]. done.
    - by intros [[= -> ->] Hx]. }
  split_and!; split.
  - intros (kx & Hin & Heq & ? & ?). destruct (proj1 (Hrow kx)) as [_ Hx]; [done|]. split; [done|]. eauto.
  - intros (? & x & Hx & ?). exists ((tu, rc), x). destruct (proj2 (Hrow ((tu, rc), x))); done.
  - intros (kx & Hin & Heq & ? & ?). destruct (proj1 (Hrow kx)) as [_ Hx]; [done|]. split; [done|]. eauto.
  - intros (? & x & Hx & ?). exists ((tu, rc), x). destruct (proj2 (Hrow ((tu, rc), x))); done.
  - intros (kx & Hin & Heq & ?). destruct (proj1 (Hrow kx)) as [_ Hx]; [done|]. split; [done|]. by eexists.
  - intros (? & x & Hx). exists ((tu, rc), x). destruct (proj2 (Hrow ((tu, rc), x))); done.
Qed.

(** Handing an update to its task. After a successful [Update] of the content, [GetRepoChanges], asked by the task for
    the same list, tells apart exactly: the repositories of the list that have no distribution yet (new to the template, or
    left over from an attempt that failed), those that have one, and the repositories that the update has dropped. *)
Theorem update_then_changes now org tu r uuids fs d resp fs' d' fs2 c w :
  r.(up_RepositoryUUIDS) = Some uuids → Template_Update now org (uuid_String tu) r (fs, d) = (inr resp, (fs', d')) →
  GetRepoChanges (uuid_String tu) uuids (fs2, d') = (inr c, w) →
  ∀ rc, (uuid_String rc ∈ c.(added) ↔ uuid_String rc ∈ uuids ∧ default "" (old_href d (tu, rc)) = "") ∧
        (uuid_String rc ∈ c.(unchanged) ↔ uuid_String rc ∈ uuids ∧ default "" (old_href d (tu, rc)) ≠ "") ∧
        (uuid_String rc ∈ c.(removed) ↔ (uuid_String rc ∉ uuids) ∧ is_Some (d.(trcs) !! (tu, rc))).
Proof.
  intros Hr Hup Hc rc. eapply (template_update_run scan scan_perm) in Hup; [|done]. rewrite Uuidify_String in Hup.
  destruct Hup as (t & vs & _ & _ & _ & -> & _ & _ & _ & _ & _ & Hin & Hout & _).
  destruct (GetRepoChanges_run _ _ _ _ _ _ rc Hc) as (-> & -> & ->).
  assert (uuid_String rc ∈ uuid_String <$> vs ↔ rc ∈ vs) as Hiff.
  { rewrite list_elem_of_fmap. split; [by intros (v & ->%uuid_String_inj & ?)|eauto]. }
  rewrite !Hiff. destruct (decide (rc ∈ vs)) as [Hrc|Hrc].
  - destruct (Hin rc Hrc) as (us & _ & _ & ->). split_and!; split.
    + intros [_ (x & [= <-] & Hx)]. done.
    + intros [_ Hx]. split; [done|]. by eexists.
    + intros [_ (x & [= <-] & Hx)]. done.
    + intros [_ Hx]. split; [done|]. by eexists.
    + by intros [? _].
    + by intros [? _].
  - rewrite (Hout rc Hrc). destruct (decide (vs = [])); rewrite ?fmap_is_Some; split_and!; split; try (by intros [? _]); done.
Qed.
End Changes.

(** ** Lists *)

Lemma or_blank (a : string) b : (a == "") || b = true ↔ (a ≠ "" → b = true).
Proof. rewrite orb_true_iff, bool_decide_eq_true. destruct (decide (a = "")); naive_solver. Qed.

Section Lists.
Context `{UT : UuidText}.
Context (scan_templates : gmap uuid TemplateRow → list (uuid * TemplateRow)).
Hypothesis scan_templates_perm : ∀ m, scan_templates m ≡ₚ map_to_list m.
Context (sql_like : string → string → bool).
#[local] Set Default Proof Using "Type*".

(** Not both kinds of UUIDs. *)
Definition one_kind (f : TemplateFilterData) : Prop := f.(tf_RepositoryUUIDs) = [] ∨ f.(tf_SnapshotUUIDs) = [].

(** The conditions on the template alone. *)
Definition row_cond (orgID : string) (f : TemplateFilterData) (t : TemplateRow) : Prop :=
  t.(t_OrgID) = orgID ∧ (f.(tf_Name) ≠ "" → t.(t_Name) = f.(tf_Name)) ∧ (f.(tf_Arch) ≠ "" → t.(t_Arch) = f.(tf_Arch)) ∧
  applyVersionFilter f.(tf_Version) f.(tf_RestrictToMajor) (DaoHelpers.mk_TemplateRow t.(t_Version) (Some t.(t_ExtendedReleaseVersion))) = true ∧
  (f.(tf_ExtendedRelease) ≠ "" → in_list f.(tf_ExtendedRelease) t.(t_ExtendedRelease) = true) ∧
  (f.(tf_ExtendedReleaseVersion) ≠ "" → f.(tf_RestrictToMajor) = false → in_list f.(tf_ExtendedReleaseVersion) t.(t_ExtendedReleaseVersion) = true) ∧
  (f.(tf_Search) ≠ "" → sql_like ("%" +:+ f.(tf_Search) +:+ "%") t.(t_Name) = true) ∧
  (f.(tf_UseLatest) = true → t.(t_UseLatest) = true).

(** The condition on the content. *)
Definition uses (d : db) (f : TemplateFilterData) (u : uuid) : Prop :=
  f.(tf_RepositoryUUIDs) = [] ∧ f.(tf_SnapshotUUIDs) = [] ∨
  ∃ rc x, d.(trcs) !! (u, rc) = Some x ∧
    (f.(tf_RepositoryUUIDs) ≠ [] → rc ∈ Uuidify <$> f.(tf_RepositoryUUIDs)) ∧
    (f.(tf_SnapshotUUIDs) ≠ [] → x.(x_SnapshotUUID) ∈ Uuidify <$> f.(tf_SnapshotUUIDs)).

Lemma filter_one_kind orgID f t x : one_kind f →
  (filteredDbForList sql_like orgID f t x = true ↔
   row_cond orgID f t ∧
   (f.(tf_RepositoryUUIDs) ≠ [] → ∃ rc y, x = Some (rc, y) ∧ rc ∈ Uuidify <$> f.(tf_RepositoryUUIDs)) ∧
   (f.(tf_SnapshotUUIDs) ≠ [] → ∃ rc y, x = Some (rc, y) ∧ y.(x_SnapshotUUID) ∈ Uuidify <$> f.(tf_SnapshotUUIDs))).
Proof.
  intros Hk. unfold filteredDbForList, row_cond.
  set (latest := negb (tf_UseLatest f) || t_UseLatest t).
  assert (latest = true ↔ (tf_UseLatest f = true → t_UseLatest t = true)) as Hl
    by (subst latest; destruct (tf_UseLatest f); simpl; naive_solver).
  set (base_cond := (t_OrgID t == orgID) && _ && _ && _ && _ && _ && _).
  assert (base_cond = true ↔ t_OrgID t = orgID ∧ (tf_Name f ≠ "" → t_Name t = tf_Name f) ∧ (tf_Arch f ≠ "" → t_Arch t = tf_Arch f) ∧
    applyVersionFilter f.(tf_Version) f.(tf_RestrictToMajor) (DaoHelpers.mk_TemplateRow t.(t_Version) (Some t.(t_ExtendedReleaseVersion))) = true ∧
    (tf_ExtendedRelease f ≠ "" → in_list (tf_ExtendedRelease f) (t_ExtendedRelease t) = true) ∧
    (tf_ExtendedReleaseVersion f ≠ "" → tf_RestrictToMajor f = false → in_list (tf_ExtendedReleaseVersion f) (t_ExtendedReleaseVersion t) = true) ∧
    (tf_Search f ≠ "" → sql_like ("%" +:+ tf_Search f +:+ "%") (t_Name t) = true)) as Hb.
  { subst base_cond. rewrite !andb_true_iff, !or_blank, !bool_decide_eq_true. rewrite <-orb_assoc, or_blank.
    destruct (tf_RestrictToMajor f); simpl; naive_solver. }
  clearbody base_cond latest. destruct x as [[rc y]|];
    destruct (tf_RepositoryUUIDs f) as [|r rs] eqn:Hrs, (tf_SnapshotUUIDs f) as [|s ss] eqn:Hss;
    try (by destruct Hk; congruence); rewrite ?andb_true_iff, ?contains_true, Hb, Hl; naive_solver.
Qed.

(** Lists of templates. With a filter on repositories or on snapshots but not on both, [List] selects exactly the
    templates of the organization that are not deleted, satisfy the filters, and have a row of content with one of the given
    repositories or snapshots. *)
Theorem template_list_scoped d orgID f u t : one_kind f →
  ((u, t) ∈ listed scan_templates sql_like d orgID false f ↔
   d.(templates) !! u = Some t ∧ t.(t_DeletedAt) = None ∧ row_cond orgID f t ∧ uses d f u).
Proof.
  intros Hk. unfold listed. rewrite list_elem_of_filter, scan_templates_perm, elem_of_map_to_list. simpl.
  destruct (_ && _) eqn:Hnone.
  - apply andb_true_iff in Hnone as [Hr%Nat.eqb_eq%nil_length_inv Hs%Nat.eqb_eq%nil_length_inv].
    rewrite (filter_one_kind _ _ _ _ Hk). unfold uses. naive_solver.
  - rewrite existsb_exists. assert (¬ (tf_RepositoryUUIDs f = [] ∧ tf_SnapshotUUIDs f = [])) as Hn.
    { intros [Hr Hs]. by rewrite Hr, Hs in Hnone. }
    split.
    + intros [[[?|Hl] ([[tu rc] x] & Hin & [Htu%bool_decide_eq_true Hf]%andb_true_iff)] Ht]; [done|]. simpl in *. subst tu.
      apply list_elem_of_In, elem_of_map_to_list in Hin. apply (filter_one_kind _ _ _ _ Hk) in Hf as (Hrow & H1 & H2).
      split_and!; [done..|]. right. exists rc, x. split; [done|].
      split; intros Hne; [destruct (H1 Hne) as (? & ? & ? & ?)|destruct (H2 Hne) as (? & ? & ? & ?)]; by simplify_eq.
    + intros (Ht & Hl & Hrow & [[? ?]|(rc & x & Hx & H1 & H2)]); [naive_solver|]. split; [|done]. split; [by right|].
      exists (u, rc, x). split; [by apply list_elem_of_In, elem_of_map_to_list|]. simpl. rewrite bool_decide_true by done. simpl.
      apply (filter_one_kind _ _ _ _ Hk). split; [done|]. split; intros Hne; eauto.
Qed.
End Lists.

(** ** Examples *)

Import Ex.

(** The repository 1 has a last snapshot; the organization [other] has a template with the snapshot 7 of the partner. *)
Definition other_template : TemplateRow :=
  mk_TemplateRow "theirs" "other" "" (15 * Second)%Z "9" "x86_64" "" "" None "" "" false false None None.
Definition ex_d : db :=
  set_trcs (λ _, {[ (30%N, 2%N) := mk_TrcRow 7 (Some "/dist/7/") None ]})
    (set_templates (λ _, {[ 30%N := other_template ]}) (set_configs (alter (set_last_snapshot (Some 6%N)) 1%N) Ex.d)).
Definition ex_request (repos : list uuid) : TemplateRequest :=
  mk_TemplateRequest (Some "mine") None (Some (uuid_String <$> repos)) (Some "x86_64") (Some "9") None None (Some (15 * Second)%Z)
    (Some "org") (Some "me") None.
Definition ex_create := Template_Create map_to_list 99 31.
Definition ex_created : db := (ex_create (ex_request [1%N; 2%N]) ([], ex_d)).2.2.
Definition ex_update_request : TemplateUpdateRequest :=
  mk_TemplateUpdateRequest None None None (Some [uuid_String 1%N]) None None None None.
Definition ex_update := Template_Update map_to_list map_to_list true (inr "https://pulp/") 365 99 "org" (uuid_String 31) ex_update_request.

Lemma ex_content_ok : content_ok ex_d.
Proof.
  intros tu rc x Hx. unfold ex_d in Hx. simpl in Hx. apply lookup_singleton_Some in Hx as [[= <- <-] <-].
  split; [by eexists|]. split; [by eexists|]. by eexists.
Qed.

Lemma template_create_exact_witness :
  ex_created.(trcs) !! (31%N, 1%N) = Some (mk_TrcRow 5 (Some "") None) ∧ NoDup [1%N; 2%N] ∧
  ∃ vs, ex_created.(templates) = <[31%N := templatesCreateApiToModel (ex_request [1%N; 2%N])]> ex_d.(templates) ∧ NoDup (vs : list uuid).
Proof.
  split; [by vm_compute|]. split; [by_decide|].
  destruct (ex_create (ex_request [1%N; 2%N]) ([], ex_d)) as [res [fs' d']] eqn:Hrun.
  assert (ex_created = d') as -> by (unfold ex_created; by rewrite Hrun).
  destruct (template_create_exact map_to_list (λ m, reflexivity _) 99 31 (ex_request [1%N; 2%N]) [] ex_d res fs' d' ex_content_ok Hrun)
    as [Heq|(resp & org & vs & _ & _ & _ & Hnd & _ & _ & Ht & _)]; [|by exists vs].
  exfalso. apply (f_equal (λ x, (trcs x.2.2 !! (31%N, 1%N)))) in Hrun. rewrite Heq in Hrun. vm_compute in Hrun. discriminate.
Defined.

Lemma template_content_invariant_witness :
  content_ok ex_d ∧ content_ok ex_created.
Proof.
  split; [apply ex_content_ok|].
  apply (template_content_invariant map_to_list (λ m, reflexivity _) map_to_list true (inr "https://pulp/") 365 ex_d); [|apply ex_content_ok].
  apply rtc_once, (tstep_create _ _ _ _ _ _ _ 99 31 (ex_request [1%N; 2%N])).
  unfold ex_created, ex_create, runs. destruct (Template_Create _ _ _ _ _) as [res [fs' d']] eqn:Hrun. by eexists _, _, _.
Defined.

Lemma template_update_exact_witness :
  ∃ resp fs' d', ex_update ([], ex_created) = (inr resp, (fs', d')) ∧
    d'.(trcs) !! (31%N, 2%N) = dropped 99 <$> ex_created.(trcs) !! (31%N, 2%N).
Proof.
  destruct (ex_update ([], ex_created)) as [[e|resp] [fs' d']] eqn:Hrun.
  { exfalso. apply (f_equal (λ x, match x.1 with inl _ => true | inr _ => false end)) in Hrun. vm_compute in Hrun. discriminate. }
  exists resp, fs', d'. split; [done|].
  destruct (template_update_exact map_to_list (λ m, reflexivity _) map_to_list true (inr "https://pulp/") 365 99 "org" (uuid_String 31)
    ex_update_request [uuid_String 1%N] [] ex_created resp fs' d' eq_refl Hrun)
    as (t & vs & _ & _ & _ & Hvs & _ & _ & _ & _ & _ & _ & Hout & _).
  destruct vs as [|v [|? ?]]; [done| |done]. injection Hvs as Hv. apply (f_equal read) in Hv. rewrite !read_text in Hv. injection Hv as <-.
  pose proof (Hout 2%N ltac:(by_decide)) as H2. by rewrite Uuidify_String in H2.
Defined.

Lemma update_then_changes_witness :
  ∃ d' fs' resp c w, ex_update ([], ex_created) = (inr resp, (fs', d')) ∧
    GetRepoChanges map_to_list (uuid_String 31) [uuid_String 1%N] ([], d') = (inr c, w) ∧ uuid_String 2%N ∈ c.(removed).
Proof.
  destruct (ex_update ([], ex_created)) as [[e|resp] [fs' d']] eqn:Hrun.
  { exfalso. apply (f_equal (λ x, match x.1 with inl _ => true | inr _ => false end)) in Hrun. vm_compute in Hrun. discriminate. }
  destruct (GetRepoChanges map_to_list (uuid_String 31) [uuid_String 1%N] ([], d')) as [[e|c] w] eqn:Hc.
  { exfalso. unfold GetRepoChanges in Hc. rewrite pg_String in Hc. done. }
  exists d', fs', resp, c, w. split; [done|]. split; [done|].
  apply (update_then_changes map_to_list (λ m, reflexivity _) map_to_list (λ m, reflexivity _) true (inr "https://pulp/") 365 99 "org" 31
    ex_update_request [uuid_String 1%N] [] ex_created resp fs' d' [] c w eq_refl Hrun Hc 2%N).
  split; [by_decide|]. vm_compute. by eexists.
Defined.

Definition ex_filter (repos snaps : list uuid) : TemplateFilterData :=
  mk_TemplateFilterData "" "" "" "" "" false "" (uuid_String <$> repos) (uuid_String <$> snaps) false.

Lemma template_list_scoped_witness :
  one_kind (ex_filter [2%N] []) ∧ (31%N, templatesCreateApiToModel (ex_request [1%N; 2%N])) ∈
    listed map_to_list (λ _ _, false) ex_created "org" false (ex_filter [2%N] []).
Proof.
  assert (one_kind (ex_filter [2%N] [])) as Hk by by right. split; [done|].
  apply (template_list_scoped map_to_list (λ m, reflexivity _) (λ _ _, false) _ _ _ _ _ Hk).
  split; [by vm_compute|]. split; [by vm_compute|]. split.
  - split_and!; first [by vm_compute|done|by intros []].
  - right. exists 2%N. eexists. split; [by vm_compute|]. split; [intros _; by_decide|done].
Defined.

(** With both kinds of UUIDs the condition on the organization is lost: a template of another organization is listed. *)
Example template_list_leaks :
  fst <$> listed map_to_list (λ _ _, false) ex_created "org" false (ex_filter [1%N] [7%N]) = [30%N; 31%N] ∧
  t_OrgID <$> ex_created.(templates) !! 30%N = Some "other".
Proof. by vm_compute. Qed.

(** A repository whose last snapshot is set but deleted passes the validation, and the request panics. *)
Example create_panics :
  (ex_create (ex_request [1%N]) ([], set_snapshots (fmap (set_deleted (Some 1%Z))) ex_d)).1 = inl Panic.
Proof. by vm_compute. Qed.

(** So does one whose UUID is spelled in another way than the database prints it. *)
Example create_other_spelling_panics :
  uuid_Parse "b" = Some 1%N ∧
  (ex_create (mk_TemplateRequest (Some "mine") None (Some ["b"]) (Some "x86_64") (Some "9") None None (Some (15 * Second)%Z)
     (Some "org") (Some "me") None) ([], ex_d)).1 = inl Panic.
Proof. by vm_compute. Qed.

(** A template may have no repositories. *)
Example create_empty :
  match ex_create (ex_request []) ([], ex_d) with
  | (inr (Some resp), (_, d')) => is_Some (d'.(templates) !! 31%N) ∧ d'.(trcs) = ex_d.(trcs)
  | _ => False
  end.
Proof. vm_compute. split; [by eexists|reflexivity]. Qed.

(** An update to the empty list of repositories succeeds and removes none of them: [NOT IN] an empty list is never true. *)
Example update_to_empty_keeps :
  match Template_Update map_to_list map_to_list true (inr "https://pulp/") 365 99 "org" (uuid_String 31)
          (mk_TemplateUpdateRequest None None None (Some []) None None None None) ([], ex_created) with
  | (inr _, (_, d')) => d'.(trcs) = ex_created.(trcs)
  | _ => False
  end.
Proof. by vm_compute. Qed.

(** A failed commit is reported as a success. *)
Example create_commit_lost :
  let '(r, (_, d')) := ex_create (ex_request [1%N]) ((repeat None 5 ++ [Some (ErrPlain "commit failed")])%list, ex_d) in
  match r with inr (Some _) => d'.(templates) !! 31%N = None | _ => False end.
Proof. by vm_compute. Qed.

(** An invalid extended release version passes an update. *)
Example update_not_validated :
  let r := mk_TemplateUpdateRequest None None (Some "not a version") None None None None None in
  match (Template_Update map_to_list map_to_list true (inr "https://pulp/") 365 99 "org" (uuid_String 31) r ([], ex_created)).1 with
  | inr resp => template_validate resp.(tr_row) = Some "Specified extended release version not a version is invalid."
  | inl _ => False
  end.
Proof. by vm_compute. Qed.
