(* ===== verification/RepoConfigDao.v ===== *)
(** * dao/repository_configs.go: repository configurations

    A configuration belongs to an organization and refers to a repository, which configurations of the same URL share. The
    tables are those of [SnapshotDao.v]. The tasks a configuration refers to are read only: [tasks] is their table. The
    notifications the operations send, and the rendering of times in responses, are left out. *)

From S2P Require Import Prelude GoStrings GoSplit Config TxMonad Utils Models Errors DaoHelpers GoText SnapshotDao TemplateDao SnapshotHandler.
From stdpp Require Import options.

Open Scope string_scope.

(** config/value_constraints.go *)
Definition EPELUrls : list string :=
  ["https://dl.fedoraproject.org/pub/epel/10/Everything/x86_64/"; "https://dl.fedoraproject.org/pub/epel/9/Everything/x86_64/";
   "https://dl.fedoraproject.org/pub/epel/8/Everything/x86_64/"].
Definition ContentTypeRpm := "rpm".

(** ** Requests and responses *)

(** api.RepositoryRequest; the organization and the account are filled in by the handlers. *)
Record RepositoryRequest := mk_RepositoryRequest {
  rq_AccountID : string; rq_OrgID : string; rq_Origin : option string; rq_Name : option string; rq_URL : option string;
  rq_DistributionVersions : option (list string); rq_DistributionArch : option string; rq_GpgKey : option string;
  rq_MetadataVerification : option bool; rq_ModuleHotfixes : option bool; rq_Snapshot : option bool;
  rq_ExtendedRelease : option string; rq_ExtendedReleaseVersion : option string }.

Record RepositoryUpdateRequest := mk_RepositoryUpdateRequest {
  ru_Name : option string; ru_URL : option string; ru_DistributionVersions : option (list string);
  ru_DistributionArch : option string; ru_GpgKey : option string; ru_MetadataVerification : option bool;
  ru_ModuleHotfixes : option bool; ru_Snapshot : option bool }.

Definition ToRepositoryUpdateRequest (r : RepositoryRequest) : RepositoryUpdateRequest :=
  mk_RepositoryUpdateRequest r.(rq_Name) r.(rq_URL) r.(rq_DistributionVersions) r.(rq_DistributionArch) r.(rq_GpgKey)
    r.(rq_MetadataVerification) r.(rq_ModuleHotfixes) r.(rq_Snapshot).

Definition or_default {A} (o : option A) (a : A) : option A := Some (default a o).
Definition RepositoryUpdateRequest_FillDefaults (r : RepositoryUpdateRequest) : RepositoryUpdateRequest :=
  mk_RepositoryUpdateRequest (or_default r.(ru_Name) "") (or_default r.(ru_URL) "")
    (or_default r.(ru_DistributionVersions) ["any"]) (or_default r.(ru_DistributionArch) "any") (or_default r.(ru_GpgKey) "")
    (or_default r.(ru_MetadataVerification) false) (or_default r.(ru_ModuleHotfixes) false) r.(ru_Snapshot).
Definition RepositoryRequest_FillDefaults (accountID orgID : string) (r : RepositoryRequest) : RepositoryRequest :=
  mk_RepositoryRequest accountID orgID (or_default r.(rq_Origin) OriginExternal) (or_default r.(rq_Name) "") (or_default r.(rq_URL) "")
    (or_default r.(rq_DistributionVersions) ["any"]) (or_default r.(rq_DistributionArch) "any") (or_default r.(rq_GpgKey) "")
    (or_default r.(rq_MetadataVerification) false) (or_default r.(rq_ModuleHotfixes) false) r.(rq_Snapshot)
    r.(rq_ExtendedRelease) r.(rq_ExtendedReleaseVersion).

(** The columns of a task that are read. *)
Record TaskView := mk_TaskView {
  tk_Type : string; tk_Status : string; tk_QueuedAt : time; tk_OrgId : string; tk_Started : option time; tk_Finished : option time;
  tk_Error : option string }.

(** A configuration with its associations, as [Preload] leaves it. *)
Record Loaded := mk_Loaded {
  l_UUID : uuid; l_Config : ConfigRow; l_Repository : RepositoryRow; l_LastSnapshot : option (uuid * SnapRow);
  l_LastSnapshotTask : option TaskView }.

Definition zero_repository : RepositoryRow :=
  mk_RepositoryRow (mk_Repository "" "" "" None None None None "" 0 0 0 0 false) "" "" "" "".

Record TaskInfoResponse := mk_TaskInfoResponse {
  ti_UUID : option uuid; ti_Status : string; ti_Typename : string; ti_OrgId : string; ti_ObjectType : string; ti_ObjectUUID : uuid;
  ti_ObjectName : string; ti_CreatedAt : option time; ti_EndedAt : option time; ti_Error : string }.

(** api.RepositoryResponse *)
Record RepoResponse := mk_RepoResponse {
  p_UUID : uuid; p_Name : string; p_Label : string; p_URL : string; p_Origin : string; p_ContentType : string;
  p_DistributionVersions : list string; p_DistributionArch : string; p_AccountID : string; p_OrgID : string;
  p_LastIntrospectionTime : option time; p_LastIntrospectionSuccessTime : option time; p_LastIntrospectionUpdateTime : option time;
  p_LastIntrospectionError : string; p_LastIntrospectionStatus : string; p_FailedIntrospectionsCount : Z; p_FailedSnapshotCount : Z;
  p_PackageCount : Z; p_BuildCount : Z; p_VersionCount : Z; p_Status : string; p_GpgKey : string; p_MetadataVerification : bool;
  p_ModuleHotfixes : bool; p_RepositoryUUID : uuid; p_Snapshot : bool; p_LastSnapshotUUID : option uuid;
  p_LastSnapshot : option SnapshotResponse; p_LastSnapshotTaskUUID : option uuid; p_LastSnapshotTask : option TaskInfoResponse;
  p_LatestSnapshotURL : string; p_FeatureName : string; p_ExtendedRelease : string; p_ExtendedReleaseVersion : string;
  p_Partner : bool; p_SecurityLevel : string; p_PublishedDistURL : string; p_PublishedDistBasePath : string }.

(** ** Fields *)

Definition zero_fields : ConfigFields := mk_ConfigFields "" [] "" "" false false false.

(** The fields a request sets, and the URL and the origin of the repository. *)
Definition ApiFieldsToModel (r : RepositoryRequest) : ConfigFields * string * string :=
  (mk_ConfigFields (default "" r.(rq_Name)) (default [] r.(rq_DistributionVersions)) (default "" r.(rq_DistributionArch))
     (default "" r.(rq_GpgKey)) (default false r.(rq_MetadataVerification)) (default false r.(rq_ModuleHotfixes))
     (default false r.(rq_Snapshot)),
   default "" r.(rq_URL), default "" r.(rq_Origin)).

Definition ApiUpdateFieldsToModel (r : RepositoryUpdateRequest) (f : ConfigFields) : ConfigFields * string :=
  (mk_ConfigFields (default f.(cf_Name) r.(ru_Name)) (default f.(cf_Versions) r.(ru_DistributionVersions))
     (default f.(cf_Arch) r.(ru_DistributionArch)) (default f.(cf_GpgKey) r.(ru_GpgKey))
     (default f.(cf_MetadataVerification) r.(ru_MetadataVerification)) (default f.(cf_ModuleHotfixes) r.(ru_ModuleHotfixes))
     (default f.(cf_Snapshot) r.(ru_Snapshot)),
   default "" r.(ru_URL)).

Definition combineIntrospectionAndSnapshotStatuses (snapshot : bool) (introspection : string) (task : option string)
    (has_snapshot : bool) : string :=
  if negb snapshot then introspection
  else if introspection == StatusPending then
    match task with
    | None => StatusPending
    | Some st => if (st == TaskStatusRunning) || (st == TaskStatusPending) || (st == TaskStatusCompleted) then StatusPending else "Unknown"
    end
  else if introspection == StatusUnavailable then
    match task with
    | None => StatusUnavailable
    | Some st =>
        if st == TaskStatusFailed then (if negb has_snapshot then StatusInvalid else StatusUnavailable) else StatusUnavailable
    end
  else if introspection == StatusInvalid then
    match task with
    | None => StatusInvalid
    | Some st =>
        if st == TaskStatusCompleted then StatusInvalid
        else if (st == TaskStatusFailed) && has_snapshot then StatusUnavailable else "Unknown"
    end
  else if introspection == StatusValid then
    match task with
    | None => StatusValid
    | Some st =>
        if st == TaskStatusCompleted then StatusValid
        else if (st == TaskStatusRunning) || (st == TaskStatusPending) then StatusPending
        else if (st == TaskStatusFailed) && has_snapshot then StatusUnavailable
        else if (st == TaskStatusFailed) && negb has_snapshot then StatusInvalid else "Unknown"
    end
  else "Unknown".

Definition last_snapshot_response (l : Loaded) : option SnapshotResponse :=
  '(u, s) ← l.(l_LastSnapshot);
  Some (mk_SnapshotResponse u s.(s_CreatedAt) s.(s_RepositoryPath) s.(s_ContentCounts) s.(s_AddedCounts) s.(s_RemovedCounts) ""
          (c_Name l.(l_Config)) (Some l.(l_UUID)) s.(s_DetectedOSVersion) s.(s_Published) s.(s_PublicationHref)).

Definition last_task_response (l : Loaded) : option TaskInfoResponse :=
  t ← l.(l_LastSnapshotTask);
  Some (mk_TaskInfoResponse l.(l_Config).(c_LastSnapshotTaskUUID) t.(tk_Status) t.(tk_Type) t.(tk_OrgId) ObjectTypeRepository
          l.(l_UUID) (c_Name l.(l_Config)) t.(tk_Started) t.(tk_Finished) (default "" t.(tk_Error))).

Definition ModelToApiFields (l : Loaded) : RepoResponse :=
  let c := l.(l_Config) in
  let f := c.(c_Fields) in
  let r := l.(l_Repository) in
  let m := r.(r_model) in
  mk_RepoResponse l.(l_UUID) f.(cf_Name) c.(c_Label) m.(r_URL) m.(r_Origin) r.(r_content_type) f.(cf_Versions) f.(cf_Arch)
    c.(c_AccountID) c.(c_OrgID) m.(r_LastIntrospectionTime) m.(r_LastIntrospectionSuccessTime) m.(r_LastIntrospectionUpdateTime)
    (default "" m.(r_LastIntrospectionError)) m.(r_LastIntrospectionStatus) m.(r_FailedIntrospectionsCount)
    c.(c_FailedSnapshotCount) m.(r_PackageCount) m.(r_BuildCount) m.(r_VersionCount)
    (combineIntrospectionAndSnapshotStatuses f.(cf_Snapshot) m.(r_LastIntrospectionStatus) (tk_Status <$> l.(l_LastSnapshotTask))
       (bool_decide (is_Some c.(c_LastSnapshotUUID))))
    f.(cf_GpgKey) f.(cf_MetadataVerification) f.(cf_ModuleHotfixes) c.(c_RepositoryUUID) f.(cf_Snapshot) c.(c_LastSnapshotUUID)
    (last_snapshot_response l) c.(c_LastSnapshotTaskUUID) (last_task_response l) "" c.(c_FeatureName) c.(c_ExtendedRelease)
    c.(c_ExtendedReleaseVersion) c.(c_Partner) r.(r_security_level) r.(r_published_url) r.(r_published_base_path).

Definition set_p_URL (url : string) (p : RepoResponse) : RepoResponse :=
  mk_RepoResponse p.(p_UUID) p.(p_Name) p.(p_Label) url p.(p_Origin) p.(p_ContentType) p.(p_DistributionVersions)
    p.(p_DistributionArch) p.(p_AccountID) p.(p_OrgID) p.(p_LastIntrospectionTime) p.(p_LastIntrospectionSuccessTime)
    p.(p_LastIntrospectionUpdateTime) p.(p_LastIntrospectionError) p.(p_LastIntrospectionStatus) p.(p_FailedIntrospectionsCount)
    p.(p_FailedSnapshotCount) p.(p_PackageCount) p.(p_BuildCount) p.(p_VersionCount) p.(p_Status) p.(p_GpgKey)
    p.(p_MetadataVerification) p.(p_ModuleHotfixes) p.(p_RepositoryUUID) p.(p_Snapshot) p.(p_LastSnapshotUUID) p.(p_LastSnapshot)
    p.(p_LastSnapshotTaskUUID) p.(p_LastSnapshotTask) p.(p_LatestSnapshotURL) p.(p_FeatureName) p.(p_ExtendedRelease)
    p.(p_ExtendedReleaseVersion) p.(p_Partner) p.(p_SecurityLevel) p.(p_PublishedDistURL) p.(p_PublishedDistBasePath).
Definition set_p_urls (snap : option SnapshotResponse) (latest : string) (p : RepoResponse) : RepoResponse :=
  mk_RepoResponse p.(p_UUID) p.(p_Name) p.(p_Label) p.(p_URL) p.(p_Origin) p.(p_ContentType) p.(p_DistributionVersions)
    p.(p_DistributionArch) p.(p_AccountID) p.(p_OrgID) p.(p_LastIntrospectionTime) p.(p_LastIntrospectionSuccessTime)
    p.(p_LastIntrospectionUpdateTime) p.(p_LastIntrospectionError) p.(p_LastIntrospectionStatus) p.(p_FailedIntrospectionsCount)
    p.(p_FailedSnapshotCount) p.(p_PackageCount) p.(p_BuildCount) p.(p_VersionCount) p.(p_Status) p.(p_GpgKey)
    p.(p_MetadataVerification) p.(p_ModuleHotfixes) p.(p_RepositoryUUID) p.(p_Snapshot) p.(p_LastSnapshotUUID) snap
    p.(p_LastSnapshotTaskUUID) p.(p_LastSnapshotTask) latest p.(p_FeatureName) p.(p_ExtendedRelease)
    p.(p_ExtendedReleaseVersion) p.(p_Partner) p.(p_SecurityLevel) p.(p_PublishedDistURL) p.(p_PublishedDistBasePath).

Definition convertToResponses `{UuidText} (repoConfigs : list Loaded) (pulpContentPath : string) : list RepoResponse :=
  (λ l, let p := ModelToApiFields l in
        match p.(p_LastSnapshot) with
        | Some s =>
            set_p_urls (Some (set_URL (pulpContentURL pulpContentPath s.(sr_RepositoryPath)) s))
              (pulpContentURL pulpContentPath
                 (nth 0 (strings_Split (ascii_of_N 47) s.(sr_RepositoryPath)) "" +:+ "/" +:+ uuid_String p.(p_UUID) +:+ "/latest")) p
        | None => p
        end) <$> repoConfigs.

(** ** What may be created *)

Definition errMsgCustomEpelRepoCreationNotPermitted :=
  "creating of EPEL repositories is not permitted, please use the community repositories".

Definition rejectsCustomEpelRepository (origin url : option string) : bool :=
  match origin with Some o => o == OriginCommunity | None => false end ||
  match url with Some u => contains EPELUrls (CleanupURL u) | None => false end.

Definition isCreatableOrigin (origin : option string) : bool :=
  match origin with None => true | Some o => contains [OriginExternal; OriginUpload; ""] o end.

Definition bad_request (msg : string) : goerr := DaoError None msg false true false false.

Section Dao.
Context `{UuidText}.
(** [url.ParseRequestURI] succeeds; the clock; the tasks. *)
Context (valid_uri : string → bool) (now : time) (tasks : gmap uuid TaskView).

(** ** Statements *)

(** [First]: the least primary key. *)
Definition first_row {A} (p : uuid * A → bool) (m : gmap uuid A) : option (uuid * A) :=
  best (λ x y, (x.1 <? y.1)%N) (base.filter (λ kv, p kv = true) (map_to_list m)).

(** The error of a statement as Go code sees it. *)
Definition raw_error (e : db_error) : goerr :=
  match e with
  | PgError code constraint => ErrPlain ("ERROR: violates constraint " +:+ constraint +:+ " (SQLSTATE " +:+ code +:+ ")")
  | ModelError msg => ErrPlain msg
  | OtherError e => e
  end.

Definition repo_checked {A} (uuid : option string) (m : DB (db_error + A)) : DB A :=
  r ← map_err (λ e, RepositoryDBErrorToApi e uuid) m;
  match r with inl e => throw (repo_error_to_api e uuid) | inr a => mret a end.
Definition raw_checked {A} (m : DB (db_error + A)) : DB A :=
  r ← m; match r with inl e => throw (raw_error e) | inr a => mret a end.

(** The defaults of the columns. *)
Definition repository_defaults (m : Repository) (content_type security_level published_url base_path : string) : RepositoryRow :=
  mk_RepositoryRow
    (mk_Repository m.(r_URL) (if m.(r_Origin) == "" then OriginExternal else m.(r_Origin))
       (if m.(r_LastIntrospectionStatus) == "" then StatusPending else m.(r_LastIntrospectionStatus)) m.(r_LastIntrospectionTime)
       m.(r_LastIntrospectionSuccessTime) m.(r_LastIntrospectionUpdateTime) m.(r_LastIntrospectionError) m.(r_RepomdChecksum)
       m.(r_PackageCount) m.(r_BuildCount) m.(r_VersionCount) m.(r_FailedIntrospectionsCount) m.(r_Public))
    (if content_type == "" then ContentTypeRpm else content_type) security_level published_url base_path.

(** [BeforeCreate] and the defaults. *)
Definition prepare_repository (r : RepositoryRow) : string + RepositoryRow :=
  match repository_BeforeCreate valid_uri now r.(r_model) with
  | inl msg => inl msg
  | inr m => inr (repository_defaults m r.(r_content_type) r.(r_security_level) r.(r_published_url) r.(r_published_base_path))
  end.

(** Nulls are different from each other. *)
Definition same_url (r : RepositoryRow) (kr : uuid * RepositoryRow) : bool :=
  (r_url r != "") && (r_url kr.2 == r_url r) && (r_origin kr.2 == r_origin r).
Definition same_published (r : RepositoryRow) (kr : uuid * RepositoryRow) : bool :=
  (r.(r_published_url) != "") && (kr.2.(r_published_url) == r.(r_published_url)) && (r_origin kr.2 == r_origin r).

Definition insert_repository (u : uuid) (r : RepositoryRow) : DB (db_error + uuid * RepositoryRow) :=
  db_call (λ d,
    match prepare_repository r with
    | inl msg => (inr (inl (ModelError msg)), d)
    | inr row =>
        if bool_decide (is_Some (d.(repositories) !! u)) then (inr (inl (PgError "23505" "repositories_pkey")), d)
        else if existsb (same_url row) (map_to_list d.(repositories))
        then (inr (inl (PgError "23505" "repositories_unique_url_origin")), d)
        else if existsb (same_published row) (map_to_list d.(repositories))
        then (inr (inl (PgError "23505" "repositories_unique_published_dist_url_origin")), d)
        else (inr (inr (u, row)), set_repositories <[u := row]> d)
    end).

(** [FirstOrCreate]: two statements. *)
Definition first_or_create (p : uuid * RepositoryRow → bool) (u : uuid) (r : RepositoryRow) : DB (db_error + uuid * RepositoryRow) :=
  found ← db_call (λ d, (inr (first_row p d.(repositories)), d));
  match found with
  | Some kr => mret (inr kr)
  | None => insert_repository u r
  end.

(** The model the hooks see. *)
Definition config_model (origin : string) (c : ConfigRow) : RepositoryConfiguration :=
  mk_RepositoryConfiguration (c_Name c) (c_Versions c) (c_Arch c) c.(c_Label) c.(c_OrgID) (uuid_String c.(c_RepositoryUUID)) origin
    (c_Snapshot c) c.(c_ExtendedRelease) c.(c_ExtendedReleaseVersion).
(** What the hooks set. *)
Definition set_versions_arch (v : list string) (a : string) (f : ConfigFields) : ConfigFields :=
  mk_ConfigFields f.(cf_Name) v a f.(cf_GpgKey) f.(cf_MetadataVerification) f.(cf_ModuleHotfixes) f.(cf_Snapshot).
Definition set_fields (f : ConfigFields) (label : string) (repo : uuid) (c : ConfigRow) : ConfigRow :=
  mk_ConfigRow f label c.(c_OrgID) c.(c_AccountID) repo c.(c_Partner) c.(c_FeatureName) c.(c_ExtendedRelease)
    c.(c_ExtendedReleaseVersion) c.(c_LastSnapshotUUID) c.(c_LastSnapshotTaskUUID) c.(c_FailedSnapshotCount) c.(c_DeletedAt).
Definition with_model (m : RepositoryConfiguration) (c : ConfigRow) : ConfigRow :=
  set_fields (set_versions_arch m.(rc_Versions) m.(rc_Arch) c.(c_Fields)) m.(rc_Label) c.(c_RepositoryUUID) c.

Definition config_clash (p : ConfigRow → bool) (u : uuid) (d : db) : bool :=
  existsb (λ kc, (kc.1 != u) && config_live kc.2 && p kc.2) (map_to_list d.(configs)).
Definition same_name (c c' : ConfigRow) : bool := (c'.(c_OrgID) == c.(c_OrgID)) && (c_Name c' == c_Name c).
Definition same_repo (c c' : ConfigRow) : bool := (c'.(c_OrgID) == c.(c_OrgID)) && (c'.(c_RepositoryUUID) == c.(c_RepositoryUUID)).
Definition same_label (c c' : ConfigRow) : bool := (c'.(c_OrgID) == c.(c_OrgID)) && (c'.(c_Label) == c.(c_Label)).

(** The constraints of [repository_configurations] on a live row. *)
Definition config_violation (u : uuid) (c : ConfigRow) (d : db) : option db_error :=
  if config_clash (same_name c) u d then Some (PgError "23505" "repo_config_name_deleted_org_id_unique")
  else if config_clash (same_repo c) u d then Some (PgError "23505" "repo_config_repo_org_id_deleted_null_unique")
  else if config_clash (same_label c) u d then Some (PgError "23505" "repo_config_label_deleted_org_id_unique")
  else if bool_decide (d.(repositories) !! c.(c_RepositoryUUID) = None) then Some (PgError "23503" "fk_repository")
  else None.

(** The count of [SetLabel]; its error is dropped. *)
Definition label_found (org name : string) : DB (option bool) := λ w,
  match (db_call (λ d, (inr (existsb (λ kc, config_live kc.2 && (kc.2.(c_OrgID) == org) && (kc.2.(c_Label) == label_of name))
                               (map_to_list d.(configs))), d)) : DB bool) w with
  | (inl _, w') => (inr None, w')
  | (inr b, w') => (inr (Some b), w')
  end.

(** [Create(&repoConfig)]; an associated repository that is set ([assoc]) is inserted too, and becomes the one referred to. *)
Definition insert_config (u : uuid) (row : ConfigRow) : DB (db_error + uuid * ConfigRow) :=
  db_call (λ d,
    if bool_decide (is_Some (d.(configs) !! u)) then (inr (inl (PgError "23505" "repository_configurations_pkey")), d)
    else match config_violation u row d with
         | Some e => (inr (inl e), d)
         | None => (inr (inr (u, row)), set_configs <[u := row]> d)
         end).

Definition create_config (suffix : string) (u : uuid) (assoc : option (uuid * RepositoryRow)) (c : ConfigRow) :
    DB (db_error + uuid * ConfigRow * RepositoryRow) :=
  found ← (if (c.(c_OrgID) == RedHatOrg) || (c.(c_OrgID) == CommunityOrg) then mret None else label_found c.(c_OrgID) (c_Name c));
  match BeforeCreate (λ _, found) suffix (config_model (match assoc with Some (_, r) => r_origin r | None => "" end) c) with
  | inl msg => mret (inl (ModelError msg))
  | inr m =>
      let row := with_model m c in
      r ← match assoc with
          | Some (au, ar) => insert_repository au ar
          | None => mret (inr (c.(c_RepositoryUUID), zero_repository))
          end;
      match r with
      | inl e => mret (inl e)
      | inr (repo, ar) =>
          r ← insert_config u (set_fields row.(c_Fields) row.(c_Label) repo row);
          mret (match r with inl e => inl e | inr kc => inr (kc, ar) end)
      end
  end.

(** [Model(&repoConfig).Updates(repoConfig.MapForUpdate())]: a deleted row is not changed. *)
Definition update_config (u : uuid) (c : ConfigRow) : DB (db_error + ()) :=
  match BeforeUpdate (config_model "" c) with
  | inl msg => mret (inl (ModelError msg))
  | inr m =>
      db_call (λ d,
        match d.(configs) !! u with
        | Some cur =>
            if negb (config_live cur) then (inr (inr ()), d)
            else
              let row := mk_ConfigRow (set_versions_arch m.(rc_Versions) m.(rc_Arch) c.(c_Fields)) cur.(c_Label) c.(c_OrgID)
                           c.(c_AccountID) c.(c_RepositoryUUID) cur.(c_Partner) cur.(c_FeatureName) cur.(c_ExtendedRelease)
                           cur.(c_ExtendedReleaseVersion) cur.(c_LastSnapshotUUID) cur.(c_LastSnapshotTaskUUID)
                           cur.(c_FailedSnapshotCount) cur.(c_DeletedAt) in
              match config_violation u row d with
              | Some e => (inr (inl e), d)
              | None => (inr (inr ()), set_configs <[u := row]> d)
              end
        | None => (inr (inr ()), d)
        end)
  end.

(** ** Reading *)

Definition load (d : db) (kc : uuid * ConfigRow) : Loaded :=
  let '(u, c) := kc in
  mk_Loaded u c (default zero_repository (d.(repositories) !! c.(c_RepositoryUUID)))
    (v ← c.(c_LastSnapshotUUID); s ← d.(snapshots) !! v; if is_live s then Some (v, s) else None)
    (v ← c.(c_LastSnapshotTaskUUID); tasks !! v).
Definition preload_associations (kc : uuid * ConfigRow) : DB Loaded := db_call (λ d, (inr (load d kc), d)).

Definition set_override (last : option (uuid * SnapRow)) (l : Loaded) : Loaded :=
  let c := l.(l_Config) in
  let r := l.(l_Repository) in
  let m := r.(r_model) in
  let count := match last with Some (_, s) => default m.(r_PackageCount) (s.(s_ContentCounts) !! "rpm.package") | None => m.(r_PackageCount) end in
  mk_Loaded l.(l_UUID)
    (mk_ConfigRow c.(c_Fields) c.(c_Label) CommunityOrg "" c.(c_RepositoryUUID) c.(c_Partner) c.(c_FeatureName)
       c.(c_ExtendedRelease) c.(c_ExtendedReleaseVersion)
       (match last with Some (u, _) => Some u | None => None end) c.(c_LastSnapshotTaskUUID) c.(c_FailedSnapshotCount) c.(c_DeletedAt))
    (mk_RepositoryRow
       (mk_Repository m.(r_URL) OriginCommunity m.(r_LastIntrospectionStatus) m.(r_LastIntrospectionTime)
          m.(r_LastIntrospectionSuccessTime) m.(r_LastIntrospectionUpdateTime) m.(r_LastIntrospectionError) m.(r_RepomdChecksum)
          count m.(r_BuildCount) m.(r_VersionCount) m.(r_FailedIntrospectionsCount) m.(r_Public))
       r.(r_content_type) r.(r_security_level) r.(r_published_url) r.(r_published_base_path))
    last l.(l_LastSnapshotTask).

(** A query that fails leaves the repository without a last snapshot. *)
Definition override_one (viewerOrgID : string) (l : Loaded) : DB Loaded :=
  if negb (IsForeignPartnerView l.(l_Config) viewerOrgID) then mret l
  else if is_published l.(l_LastSnapshot) then mret (set_override l.(l_LastSnapshot) l)
  else λ w,
    match (db_call (λ d, (inr (best newer (published_of d l.(l_UUID))), d)) : DB (option (uuid * SnapRow))) w with
    | (inr last, w') => (inr (set_override last l), w')
    | (inl _, w') => (inr (set_override None l), w')
    end.
Fixpoint RepoConfig_applyPartnerResponseOverrides (ls : list Loaded) (viewerOrgID : string) : DB (list Loaded) :=
  match ls with
  | [] => mret []
  | l :: ls' => l' ← override_one viewerOrgID l; rest ← RepoConfig_applyPartnerResponseOverrides ls' viewerOrgID; mret (l' :: rest)
  end.

(** [fetchRepoConfig] with its associations. *)
Definition fetch_loaded (orgID uuid_ : string) (includeSharedRepos : bool) : DB Loaded :=
  kc ← fetchRepoConfig orgID uuid_ includeSharedRepos;
  map_err (λ e, RepositoryDBErrorToApi e (Some uuid_)) (preload_associations kc).

(** [content_path]: the answer of Pulp; the domain is read before. *)
Definition RepoConfig_Fetch (snapshots_enabled : bool) (content_path : goerr + string) (orgID uuid_ : string) : DB RepoResponse :=
  l ← fetch_loaded orgID uuid_ true;
  contentPath ← (if bool_decide (is_Some l.(l_LastSnapshot)) && snapshots_enabled
                 then _ ← (db_noop : DB ()); match content_path with inl e => throw e | inr p => mret p end
                 else mret "");
  l' ← override_one orgID l;
  mret (nth 0 (convertToResponses [l'] contentPath) (ModelToApiFields l')).

(** The join leaves out configurations without a repository. *)
Definition joined (d : db) (c : ConfigRow) (p : RepositoryRow → bool) : bool :=
  match d.(repositories) !! c.(c_RepositoryUUID) with Some r => p r | None => false end.

Definition FetchByRepoUuid (orgID repoUuid : string) : DB RepoResponse :=
  map_err (λ e, RepositoryDBErrorToApi e (Some repoUuid))
    (kc ← db_call (λ d, (or_not_found (first_row (λ kc, config_live kc.2 && (kc.2.(c_RepositoryUUID) == Uuidify repoUuid) &&
                                         (kc.2.(c_OrgID) == orgID) && joined d kc.2 (λ _, true)) d.(configs)), d));
     l ← preload_associations kc;
     mret (ModelToApiFields l)).

Definition FetchRepoUUIDsByURLs (orgID : string) (repoURLs : list string) : DB (list uuid) :=
  let cleanedUrls := CleanupURL <$> repoURLs in
  found ← db_call (λ d, (inr (fst <$> base.filter (λ kc, config_live kc.2 = true ∧ kc.2.(c_OrgID) ∈ [RedHatOrg; CommunityOrg; orgID] ∧
                                joined d kc.2 (λ r, contains cleanedUrls (r_url r)) = true) (map_to_list d.(configs))), d));
  if length cleanedUrls != length found
  then throw (DaoError None "One or more repository URLs was invalid." true false false false) else mret found.

Definition FetchWithoutOrgID (uuid_ : string) (includeSoftDel : bool) : DB RepoResponse :=
  map_err (λ e, RepositoryDBErrorToApi e (Some uuid_))
    (c ← db_call (λ d, (or_not_found (c ← d.(configs) !! Uuidify uuid_; if includeSoftDel || config_live c then Some c else None), d));
     l ← preload_associations (Uuidify uuid_, c);
     mret (ModelToApiFields l)).

(** ** Creating *)

Definition new_config (f : ConfigFields) (orgID accountID : string) (repo : uuid) : ConfigRow :=
  mk_ConfigRow f "" orgID accountID repo false "" "" "" None None 0 None.
Definition new_repository (url origin status : string) : RepositoryRow :=
  mk_RepositoryRow (mk_Repository url origin status None None None None "" 0 0 0 0 false) "" "" "" "".

Definition matches_url (url : string) (kr : uuid * RepositoryRow) : bool := (url != "") && (r_url kr.2 == url).
Definition matches_url_origin (url origin : string) (kr : uuid * RepositoryRow) : bool :=
  matches_url url kr && (r_origin kr.2 == origin).

(** [ru], [cu]: the UUIDs drawn for the repository and the configuration. *)
Definition RepoConfig_Create (suffix : string) (ru cu : uuid) (req : RepositoryRequest) : DB RepoResponse :=
  if req.(rq_OrgID) == RedHatOrg then throw (ErrPlain "creating of Red Hat repositories is not permitted")
  else if (req.(rq_OrgID) == LightwellOrg) || (req.(rq_OrgID) == LightwellDemoOrg)
  then throw (ErrPlain "creating of Lightwell repositories is not permitted")
  else if req.(rq_OrgID) == CommunityOrg then throw (ErrPlain errMsgCustomEpelRepoCreationNotPermitted)
  else if rejectsCustomEpelRepository req.(rq_Origin) req.(rq_URL) then throw (bad_request errMsgCustomEpelRepoCreationNotPermitted)
  else if negb (isCreatableOrigin req.(rq_Origin))
  then throw (bad_request ("creating repositories with origin '" +:+ default "" req.(rq_Origin) +:+ "' is not permitted"))
  else
    let origin := if default "" req.(rq_Origin) == "" then OriginExternal else default "" req.(rq_Origin) in
    if (origin == OriginUpload) && negb (default false req.(rq_Snapshot))
    then throw (bad_request "Snapshot must be true for upload repositories")
    else
      let '(f, url, _) := ApiFieldsToModel req in
      let newRepo := new_repository url origin "" in
      '(repo, row) ← repo_checked None
        (if (url == "") || (origin == OriginUpload) then insert_repository ru newRepo
         else first_or_create (matches_url_origin (CleanupURL url) origin) ru newRepo);
      '(u, c, _) ← repo_checked None (create_config suffix cu None (new_config f req.(rq_OrgID) req.(rq_AccountID) repo));
      l ← map_err (λ e, RepositoryDBErrorToApi e None) (fetch_loaded c.(c_OrgID) (uuid_String u) false);
      mret (ModelToApiFields (mk_Loaded l.(l_UUID) l.(l_Config) row l.(l_LastSnapshot) l.(l_LastSnapshotTask))).

(** One round of the loop of [bulkCreate]: a value, so that the loop goes on after an error. *)
Definition bulk_create_one (suffix : string) (ru cu : uuid) (req : RepositoryRequest) : DB RepoResponse :=
  let origin := default OriginExternal req.(rq_Origin) in
  if req.(rq_OrgID) == RedHatOrg then throw (ErrPlain "creating of Red Hat repositories is not permitted")
  else if req.(rq_OrgID) == CommunityOrg then throw (ErrPlain errMsgCustomEpelRepoCreationNotPermitted)
  else if rejectsCustomEpelRepository (Some origin) req.(rq_URL) then throw (bad_request errMsgCustomEpelRepoCreationNotPermitted)
  else if negb (isCreatableOrigin (Some origin))
  then throw (bad_request ("creating repositories with origin '" +:+ origin +:+ "' is not permitted"))
  else if (origin == OriginUpload) && negb (default false req.(rq_Snapshot))
  then throw (bad_request "Snapshot must be true for upload repositories")
  else
    let '(f, url, _) := ApiFieldsToModel req in
    let newRepo := new_repository url origin "Pending" in
    '(repo, row) ← repo_checked None
      (if url == "" then insert_repository ru newRepo else first_or_create (matches_url_origin (CleanupURL url) origin) ru newRepo);
    '(u, c, _) ← repo_checked None (create_config suffix cu None (new_config f req.(rq_OrgID) req.(rq_AccountID) repo));
    mret (ModelToApiFields (mk_Loaded u c row None None)).

(** The loops of the bulk operations: after an error everything since the savepoint [d0] is undone. A read outside of the
    transaction sees [d0]. *)
Fixpoint bulk_loop {A B} (one : db → A → DB B) (d0 : db) (items : list A) : DB (list (goerr + B)) :=
  match items with
  | [] => mret []
  | x :: items' => λ w,
      match one d0 x w with
      | (inr b, w') => (rest ← bulk_loop one d0 items'; mret (inr b :: rest)) w'
      | (inl e, (fs', _)) => (rest ← bulk_loop one d0 items'; mret (inl e :: rest)) (fs', d0)
      end
  end.

(** The responses, or the errors by position. *)
Definition bulk_result {B} (l : list (goerr + B)) : list B * list (option goerr) :=
  match mapM (λ x, match x with inr b => Some b | inl _ => None end) l with
  | Some bs => (bs, [])
  | None => ([], (λ x, match x with inl e => Some e | inr _ => None end) <$> l)
  end.

(** The transaction around a loop; its own errors are dropped, so that a failed commit goes unnoticed. *)
Definition bulk_transaction {A B} (one : db → A → DB B) (items : list A) : DB (list B * list (option goerr)) := λ '(fs, d0),
  match db_noop (fs, d0) with
  | (inl _, w) => (inr ([], []), w)
  | (inr _, w) =>
      match bulk_loop one d0 items w with
      | (inl e, (fs', _)) => (inl e, (fs', d0))
      | (inr l, (fs', d')) =>
          let '(rs, errs) := bulk_result l in
          if (0 <? length errs)%nat then let '(_, (fs'', _)) := db_noop (fs', d') in (inr (rs, errs), (fs'', d0))
          else match db_noop (fs', d') with
               | (inl _, (fs'', _)) => (inr (rs, errs), (fs'', d0))
               | (inr _, w'') => (inr (rs, errs), w'')
               end
      end
  end.

(** [newRepositories[0]] is read after the transaction: an empty list panics. *)
Definition RepoConfig_BulkCreate (suffix : string) (reqs : list (uuid * uuid * RepositoryRequest)) : DB (list RepoResponse * list (option goerr)) :=
  r ← bulk_transaction (λ _ '(ru, cu, req), bulk_create_one suffix ru cu req) reqs;
  match reqs with
  | [] => throw (ErrPlain "runtime error: index out of range [0] with length 0")
  | _ => mret r
  end.

(** ** Updating *)

Definition not_upload (l : Loaded) : bool := r_origin l.(l_Repository) != OriginUpload.

(** The body of the transaction; [ru]: the UUID drawn for a new repository. *)
Definition RepoConfig_update (ru : uuid) (orgID uuid_ : string) (params : RepositoryUpdateRequest) : DB (bool * uuid * ConfigRow) :=
  l ← fetch_loaded orgID uuid_ false;
  let c := l.(l_Config) in
  let '(f, url) := ApiUpdateFieldsToModel params c.(c_Fields) in
  if negb (not_upload l) && (default "" params.(ru_URL) != "") then throw (bad_request "Cannot set URL on upload repositories")
  else if negb (not_upload l) && negb (default true params.(ru_Snapshot))
  then throw (bad_request "Snapshot must be true for upload repositories")
  else
    '(repo, updatedUrl) ←
      match params.(ru_URL) with
      | Some raw =>
          if not_upload l then
            let cleanedUrl := CleanupURL raw in
            '(repo, _) ← repo_checked None (first_or_create (matches_url cleanedUrl) ru (new_repository url "" ""));
            mret (repo, r_url l.(l_Repository) != cleanedUrl)
          else mret (c.(c_RepositoryUUID), false)
      | None => mret (c.(c_RepositoryUUID), false)
      end;
    let c' := set_fields f c.(c_Label) repo c in
    _ ← repo_checked None (update_config l.(l_UUID) c');
    mret (updatedUrl, l.(l_UUID), c').

(** The update is repeated after the transaction. *)
Definition RepoConfig_Update (ru : uuid) (orgID uuid_ : string) (params : RepositoryUpdateRequest) : DB bool :=
  '(updatedUrl, u, c) ← transaction id id (λ _ e, e) (RepoConfig_update ru orgID uuid_ params);
  _ ← repo_checked None (update_config u c);
  mret updatedUrl.

Definition set_failed (n : Z) (c : ConfigRow) : ConfigRow :=
  mk_ConfigRow c.(c_Fields) c.(c_Label) c.(c_OrgID) c.(c_AccountID) c.(c_RepositoryUUID) c.(c_Partner) c.(c_FeatureName)
    c.(c_ExtendedRelease) c.(c_ExtendedReleaseVersion) c.(c_LastSnapshotUUID) c.(c_LastSnapshotTaskUUID) n c.(c_DeletedAt).
Definition set_last_task (t : option uuid) (c : ConfigRow) : ConfigRow :=
  mk_ConfigRow c.(c_Fields) c.(c_Label) c.(c_OrgID) c.(c_AccountID) c.(c_RepositoryUUID) c.(c_Partner) c.(c_FeatureName)
    c.(c_ExtendedRelease) c.(c_ExtendedReleaseVersion) c.(c_LastSnapshotUUID) t c.(c_FailedSnapshotCount) c.(c_DeletedAt).
Definition set_config_deleted (t : option time) (c : ConfigRow) : ConfigRow :=
  mk_ConfigRow c.(c_Fields) c.(c_Label) c.(c_OrgID) c.(c_AccountID) c.(c_RepositoryUUID) c.(c_Partner) c.(c_FeatureName)
    c.(c_ExtendedRelease) c.(c_ExtendedReleaseVersion) c.(c_LastSnapshotUUID) c.(c_LastSnapshotTaskUUID) c.(c_FailedSnapshotCount) t.

(** A statement on the row with a UUID given as text. *)
Definition on_config (raw : string) (f : uuid → db → (goerr + ()) * db) : DB () :=
  db_call (λ d, match pg_uuid raw with Some u => f u d | None => (inl (invalid_uuid raw), d) end).

Definition InternalOnly_ResetFailedSnapshotCount (rcUuid : string) : DB () :=
  map_err (ErrWrapped "failed to update failed_snapshot_count")
    (on_config rcUuid (λ u d, (inr (), set_configs (alter (λ c, if config_live c then set_failed 0 c else c) u) d))).
Definition InternalOnly_IncrementFailedSnapshotCount (rcUuid : string) : DB () :=
  map_err (ErrWrapped "failed to update failed_snapshot_count")
    (on_config rcUuid (λ u d, (inr (), set_configs (alter (λ c, if config_live c then set_failed (c.(c_FailedSnapshotCount) + 1) c else c) u) d))).

(** The rows are chosen by the UUID of the repository, not of the configuration. *)
Definition UpdateLastSnapshotTask (taskUUID orgID repoUUID : string) : DB () :=
  on_config repoUUID (λ repo d,
    let update t := set_configs (fmap (λ c, if (c.(c_OrgID) == orgID) && (c.(c_RepositoryUUID) == repo) then set_last_task t c else c)) d in
    if taskUUID == "" then (inr (), update None)
    else match pg_uuid taskUUID with
         | None => (inl (invalid_uuid taskUUID), d)
         | Some t =>
             if existsb (λ kc, (kc.2.(c_OrgID) == orgID) && (kc.2.(c_RepositoryUUID) == repo)) (map_to_list d.(configs)) &&
                bool_decide (tasks !! t = None)
             then (inl (ErrPlain "violates foreign key constraint"), d) else (inr (), update (Some t))
         end).

Definition UpdateLastSnapshot (orgID repoConfigUUID snapUUID : string) : DB () :=
  on_config repoConfigUUID (λ rc d,
    match pg_uuid snapUUID with
    | None => (inl (invalid_uuid snapUUID), d)
    | Some v =>
        match d.(configs) !! rc with
        | Some c =>
            if c.(c_OrgID) != orgID then (inr (), d)
            else if bool_decide (d.(snapshots) !! v = None) then (inl (ErrPlain "violates foreign key constraint"), d)
            else (inr (), set_configs (alter (set_last_snapshot (Some v)) rc) d)
        | None => (inr (), d)
        end
    end).

(** ** Public repositories *)

Definition set_url_origin (url origin : string) : RepositoryRow :=
  mk_RepositoryRow (mk_Repository url origin "" None None None None "" 0 0 0 0 true) "" "" "" "".

Fixpoint prepare_all (rows : list (uuid * RepositoryRow)) : string + list (uuid * RepositoryRow) :=
  match rows with
  | [] => inr []
  | (u, r) :: rows' =>
      match prepare_repository r with
      | inl msg => inl msg
      | inr row => match prepare_all rows' with inl msg => inl msg | inr l => inr ((u, row) :: l) end
      end
  end.

(** [INSERT ... ON CONFLICT (url, origin) DO UPDATE SET public]: every row is prepared first; a statement cannot change a row
    twice. [Create] writes in batches ([CreateBatchSize]), so an empty list is no statement at all. *)
Definition upsert_public (rows : list (uuid * RepositoryRow)) : DB (db_error + ()) :=
  match rows with
  | [] => mret (inr ())
  | _ =>
      db_call (λ d,
        match prepare_all rows with
        | inl msg => (inr (inl (ModelError msg)), d)
        | inr rows =>
            if bool_decide (NoDup ((λ kr : uuid * RepositoryRow, (r_url kr.2, r_origin kr.2)) <$> rows)) then
              if existsb (λ kr, bool_decide (is_Some (d.(repositories) !! kr.1))) rows
              then (inr (inl (PgError "23505" "repositories_pkey")), d)
              else (inr (inr ()), set_repositories (λ m, foldl (λ m kr,
                     match first_row (same_url kr.2) m with
                     | Some (k, old) => <[k := set_public (r_public kr.2) old]> m
                     | None => <[kr.1 := kr.2]> m
                     end) m rows) d)
            else (inr (inl (PgError "21000" "")), d)
        end)
  end.

(** A URL that is null is not compared. *)
Definition unlist (urls : list string) (r : RepositoryRow) : RepositoryRow :=
  if r_public r && (r_url r != "") && negb (contains urls (r_url r)) then set_public false r else r.

(** [ids]: the UUIDs drawn. *)
Definition SavePublicRepos (ids : list uuid) (urls : list string) : DB () :=
  let rhUrls := CleanupURL <$> base.filter (λ url, strings_Contains url "redhat" = true) urls in
  let externalUrls := CleanupURL <$> base.filter (λ url, strings_Contains url "redhat" = false) urls in
  let repos := (((λ url, set_url_origin (CleanupURL url) "") <$> externalUrls) ++
                ((λ url, set_url_origin (CleanupURL url) OriginRedHat) <$> rhUrls))%list in
  _ ← raw_checked (upsert_public (zip ids repos));
  db_call (λ d, (inr (), set_repositories (fmap (unlist (externalUrls ++ rhUrls)%list)) d)).

(** ** Deleting *)

Definition soft_delete_config (u : uuid) : DB () :=
  db_call (λ d, (inr (), set_configs (alter (λ c, if config_live c then set_config_deleted (Some now) c else c) u) d)).

Definition RepoConfig_SoftDelete (orgID uuid_ : string) : DB () :=
  '(u, c) ← map_err (λ e, RepositoryDBErrorToApi e (Some uuid_))
    (db_call (λ d, match pg_uuid uuid_ with
                   | None => (inl (invalid_uuid uuid_), d)
                   | Some u => (or_not_found (c ← d.(configs) !! u; if c.(c_OrgID) == orgID then Some (u, c) else None), d)
                   end));
  if config_live c then soft_delete_config u else mret ().

(** Snapshots keep a configuration from being removed; the contents of templates go with it. *)
Definition RepoConfig_Delete (orgID uuid_ : string) : DB () :=
  '(u, _) ← map_err (λ e, RepositoryDBErrorToApi e (Some uuid_))
    (db_call (λ d, (or_not_found (c ← d.(configs) !! Uuidify uuid_; if c.(c_OrgID) == orgID then Some (Uuidify uuid_, c) else None), d)));
  db_call (λ d,
    if existsb (λ us, us.2.(s_RepositoryConfigurationUUID) == u) (map_to_list d.(snapshots))
    then (inl (ErrPlain "null value in column repository_configuration_uuid violates not-null constraint"), d)
    else (inr (), set_trcs (base.filter (λ kx : uuid * uuid * TrcRow, kx.1.2 ≠ u)) (set_configs (delete u) d))).

Definition bulk_delete_one (orgID : string) (d0 : db) (uuid_ : string) : DB RepoResponse :=
  l ← map_err (λ e, RepositoryDBErrorToApi e None) (read_at d0 (fetch_loaded orgID uuid_ false));
  _ ← map_err (λ e, RepositoryDBErrorToApi e None) (soft_delete_config l.(l_UUID));
  mret (ModelToApiFields l).

Definition RepoConfig_BulkDelete (orgID : string) (uuids : list string) : DB (list (option goerr)) :=
  '(_, errs) ← bulk_transaction (bulk_delete_one orgID) uuids; mret errs.

(** ** Export and import *)

Record RepositoryExportResponse := mk_RepositoryExportResponse {
  ex_Name : string; ex_URL : string; ex_Origin : string; ex_DistributionVersions : list string; ex_DistributionArch : string;
  ex_GpgKey : string; ex_MetadataVerification : bool; ex_ModuleHotfixes : bool; ex_Snapshot : bool }.

Definition ModelToExportRepoApi (l : Loaded) : RepositoryExportResponse :=
  let f := l.(l_Config).(c_Fields) in
  mk_RepositoryExportResponse f.(cf_Name) (r_url l.(l_Repository)) (r_origin l.(l_Repository)) f.(cf_Versions) f.(cf_Arch) f.(cf_GpgKey)
    f.(cf_MetadataVerification) f.(cf_ModuleHotfixes) f.(cf_Snapshot).

Definition exportable (orgID : string) (c : ConfigRow) : bool := config_live c && contains [orgID; CommunityOrg; RedHatOrg] c.(c_OrgID).

Definition RepoConfig_validateRepositoryUUIDs (orgId : string) (uuids : list string) : DB () :=
  count ← map_err (ErrWrapped "could not query repository uuids")
    (db_call (λ d, (inr (length (base.filter (λ kc, kc.1 ∈ Uuidify <$> uuids ∧ exportable orgId kc.2 = true) (map_to_list d.(configs)))), d)));
  if count != length uuids then throw (DaoError None "One or more Repository UUIDs was invalid." true false false false) else mret ().

(** [order_by_name]: the order of the texts in the database. *)
Definition BulkExport (order_by_name : list (uuid * ConfigRow) → list (uuid * ConfigRow)) (orgID : string) (uuids : list string) :
    DB (list RepositoryExportResponse) :=
  _ ← RepoConfig_validateRepositoryUUIDs orgID uuids;
  db_call (λ d,
    match mapM pg_uuid uuids with
    | None => (inl (invalid_uuid (strings_Join "," uuids)), d)
    | Some ids =>
        (inr (ModelToExportRepoApi ∘ load d <$>
                order_by_name (base.filter (λ kc, kc.1 ∈ ids ∧ exportable orgID kc.2 = true ∧ joined d kc.2 (λ _, true) = true)
                                 (map_to_list d.(configs)))), d)
    end).

Inductive warning_value := WText (s : string) | WBool (x : bool) | WList (l : list string).
Inductive import_warning :=
  | FieldWarning (field : string) (existing : warning_value) (new : option warning_value)
  | UploadWarning (name : string).

Definition sort_versions (f : ConfigFields) : ConfigFields := set_versions_arch (slices_Sort f.(cf_Versions)) f.(cf_Arch) f.

Definition warn_if (differs : bool) (field : string) (existing new : warning_value) : list import_warning :=
  if differs then [FieldWarning field existing (Some new)] else [].

Definition checkWarningsOnImport (url : string) (f g : ConfigFields) : list import_warning :=
  let vf := slices_Sort f.(cf_Versions) in
  let vg := slices_Sort g.(cf_Versions) in
  ((if url != "" then [FieldWarning "url" (WText url) None] else [FieldWarning "name" (WText f.(cf_Name)) None]) ++
   warn_if (f.(cf_Name) != g.(cf_Name)) "name" (WText f.(cf_Name)) (WText g.(cf_Name)) ++
   warn_if (f.(cf_Arch) != g.(cf_Arch)) "distribution_arch" (WText f.(cf_Arch)) (WText g.(cf_Arch)) ++
   warn_if (negb (SlicesEqual vf vg)) "distribution_versions" (WList vf) (WList vg) ++
   warn_if (f.(cf_GpgKey) != g.(cf_GpgKey)) "gpg_key" (WText f.(cf_GpgKey)) (WText g.(cf_GpgKey)) ++
   warn_if (f.(cf_MetadataVerification) != g.(cf_MetadataVerification)) "metadata_verification"
     (WBool f.(cf_MetadataVerification)) (WBool g.(cf_MetadataVerification)) ++
   warn_if (f.(cf_ModuleHotfixes) != g.(cf_ModuleHotfixes)) "module_hotfixes" (WBool f.(cf_ModuleHotfixes)) (WBool g.(cf_ModuleHotfixes)) ++
   warn_if (f.(cf_Snapshot) != g.(cf_Snapshot)) "snapshot" (WBool f.(cf_Snapshot)) (WBool g.(cf_Snapshot)))%list.

(** The first live configuration of one of the organizations with a repository of the URL. *)
Definition config_by_url (url : string) (orgs : list string) : DB (uuid * ConfigRow) :=
  db_call (λ d, (or_not_found (first_row (λ kc, config_live kc.2 && contains orgs kc.2.(c_OrgID) &&
                                  joined d kc.2 (λ r, (url != "") && (r_url r == url))) d.(configs)), d)).

(** A lookup in which not finding anything is no error. *)
Definition or_none {A} (m : DB A) : DB (option A) := λ w,
  match m w with
  | (inr a, w') => (inr (Some a), w')
  | (inl e, w') => if is_record_not_found e then (inr None, w') else (inl (RepositoryDBErrorToApi e None), w')
  end.

(** The existing configuration is loaded without its associations. A new one creates its repository twice: [au] is the one it
    ends up with. *)
Definition importUploadRepository (suffix : string) (ru au cu : uuid) (orgID accountID url : string) (name : option string) (f : ConfigFields) :
    DB (Loaded * bool) :=
  existing ← or_none (db_call (λ d, (or_not_found (first_row (λ kc, config_live kc.2 &&
    match name with Some n => c_Name kc.2 == n | None => false end && (kc.2.(c_OrgID) == orgID)) d.(configs)), d)));
  match existing with
  | Some (u, c) => mret (mk_Loaded u c zero_repository None None, true)
  | None =>
      '(repo, _) ← repo_checked None (insert_repository ru (new_repository url OriginUpload ""));
      let f := mk_ConfigFields f.(cf_Name) f.(cf_Versions) f.(cf_Arch) f.(cf_GpgKey) f.(cf_MetadataVerification) f.(cf_ModuleHotfixes) true in
      '(u, c, r) ← repo_checked None
        (create_config suffix cu (Some (au, new_repository "" OriginUpload "")) (new_config f orgID accountID repo));
      mret (mk_Loaded u c r None None, false)
  end.

(** Comparing sorts the versions in place. *)
Definition with_sorted_versions (l : Loaded) : Loaded :=
  let c := l.(l_Config) in
  mk_Loaded l.(l_UUID) (set_fields (sort_versions c.(c_Fields)) c.(c_Label) c.(c_RepositoryUUID) c) l.(l_Repository) l.(l_LastSnapshot)
    l.(l_LastSnapshotTask).

Definition import_existing (kc : uuid * ConfigRow) (g : ConfigFields) : DB (RepoResponse * list import_warning) :=
  l ← map_err (λ e, RepositoryDBErrorToApi e None) (preload_associations kc);
  mret (ModelToApiFields (with_sorted_versions l), checkWarningsOnImport (r_url l.(l_Repository)) l.(l_Config).(c_Fields) g).

(** One round of the loop of [bulkImport]. *)
Definition import_one (suffix : string) (ru au cu : uuid) (req : RepositoryRequest) : DB (RepoResponse * list import_warning) :=
  let origin := default OriginExternal req.(rq_Origin) in
  let not_permitted := bad_request ("creating repositories with origin '" +:+ origin +:+ "' is not permitted") in
  let '(f, url, _) := ApiFieldsToModel req in
  let isCustomEPEL := (origin == OriginExternal) && contains EPELUrls (CleanupURL url) in
  if bool_decide (is_Some req.(rq_URL)) && ((origin == OriginCommunity) || isCustomEPEL) then
    kc ← (λ w, match config_by_url (CleanupURL url) [CommunityOrg] w with
               | (inl e, w') => (inl (if (origin == OriginCommunity) && is_record_not_found e then not_permitted
                                      else RepositoryDBErrorToApi e None), w')
               | r => r
               end);
    l ← map_err (λ e, RepositoryDBErrorToApi e None) (preload_associations kc);
    mret (ModelToApiFields l, [])
  else if negb (isCreatableOrigin (Some origin)) then throw not_permitted
  else if origin == OriginUpload then
    '(l, exists_) ← importUploadRepository suffix ru au cu req.(rq_OrgID) req.(rq_AccountID) url req.(rq_Name) f;
    mret (if (exists_ : bool) then (ModelToApiFields (with_sorted_versions l), checkWarningsOnImport "" l.(l_Config).(c_Fields) f)
          else (ModelToApiFields l, [UploadWarning (c_Name l.(l_Config))]))
  else
    existing ← or_none (config_by_url (CleanupURL url) [req.(rq_OrgID); CommunityOrg; RedHatOrg]);
    match existing with
    | Some kc => '(p, w) ← import_existing kc f; mret (set_p_URL url p, w)
    | None =>
        '(repo, row) ← repo_checked None (first_or_create (matches_url (CleanupURL url)) ru (new_repository url origin "Pending"));
        '(u, c, _) ← repo_checked None (create_config suffix cu None (new_config f req.(rq_OrgID) req.(rq_AccountID) repo));
        mret (ModelToApiFields (mk_Loaded u c row None None), [])
    end.

Definition BulkImport (suffix : string) (reqs : list (uuid * uuid * uuid * RepositoryRequest)) :
    DB (list (RepoResponse * list import_warning) * list (option goerr)) :=
  bulk_transaction (λ _ '(ru, au, cu, req), import_one suffix ru au cu req) reqs.

(** ** Repositories kept by the service itself *)

(** The columns of the conflicting live row that are overwritten. *)
Definition upsert_config (merge : ConfigRow → ConfigRow → ConfigRow) (suffix : string) (u : uuid) (c : ConfigRow) : DB (db_error + ()) :=
  found ← (if (c.(c_OrgID) == RedHatOrg) || (c.(c_OrgID) == CommunityOrg) then mret None else label_found c.(c_OrgID) (c_Name c));
  match BeforeCreate (λ _, found) suffix (config_model "" c) with
  | inl msg => mret (inl (ModelError msg))
  | inr m =>
      let row := with_model m c in
      db_call (λ d,
        match first_row (λ kc, config_live kc.2 && same_repo row kc.2) d.(configs) with
        | Some (k, old) =>
            match config_violation k (merge old row) d with
            | Some e => (inr (inl e), d)
            | None => (inr (inr ()), set_configs <[k := merge old row]> d)
            end
        | None =>
            if bool_decide (is_Some (d.(configs) !! u)) then (inr (inl (PgError "23505" "repository_configurations_pkey")), d)
            else match config_violation u row d with
                 | Some e => (inr (inl e), d)
                 | None => (inr (inr ()), set_configs <[u := row]> d)
                 end
        end)
  end.

Definition merge_predefined (old new : ConfigRow) : ConfigRow :=
  mk_ConfigRow
    (mk_ConfigFields (c_Name new) (c_Versions new) (c_Arch new) new.(c_Fields).(cf_GpgKey) old.(c_Fields).(cf_MetadataVerification)
       old.(c_Fields).(cf_ModuleHotfixes) (c_Snapshot old))
    new.(c_Label) old.(c_OrgID) old.(c_AccountID) old.(c_RepositoryUUID) old.(c_Partner) new.(c_FeatureName) new.(c_ExtendedRelease)
    new.(c_ExtendedReleaseVersion) old.(c_LastSnapshotUUID) old.(c_LastSnapshotTaskUUID) old.(c_FailedSnapshotCount) old.(c_DeletedAt).
Definition merge_lightwell (old new : ConfigRow) : ConfigRow :=
  mk_ConfigRow
    (mk_ConfigFields (c_Name new) (c_Versions old) (c_Arch old) old.(c_Fields).(cf_GpgKey) old.(c_Fields).(cf_MetadataVerification)
       old.(c_Fields).(cf_ModuleHotfixes) (c_Snapshot old))
    old.(c_Label) old.(c_OrgID) old.(c_AccountID) old.(c_RepositoryUUID) old.(c_Partner) new.(c_FeatureName) old.(c_ExtendedRelease)
    old.(c_ExtendedReleaseVersion) old.(c_LastSnapshotUUID) old.(c_LastSnapshotTaskUUID) old.(c_FailedSnapshotCount) old.(c_DeletedAt).

(** The response, which the importers drop, is left out. *)
Definition InternalOnly_RefreshPredefinedSnapshotRepo (suffix : string) (ru cu : uuid) (req : RepositoryRequest) (label featureName : string) : DB () :=
  let '(f, raw, origin) := ApiFieldsToModel req in
  let url := CleanupURL raw in
  match (if origin == OriginRedHat then Some RedHatOrg else if origin == OriginCommunity then Some CommunityOrg else None) with
  | None => throw (bad_request ("Snapshotted repositories must have origin set to 'red_hat' or 'community' not: " +:+ origin))
  | Some org =>
      _ ← raw_checked (upsert_public [(ru, set_url_origin url origin)]);
      '(repo, _) ← db_call (λ d, (or_not_found (first_row (matches_url_origin url origin) d.(repositories)), d));
      raw_checked (upsert_config merge_predefined suffix cu
        (mk_ConfigRow f label org "" repo false featureName (default "" req.(rq_ExtendedRelease))
           (default "" req.(rq_ExtendedReleaseVersion)) None None 0 None))
  end.

Definition set_lightwell (new old : RepositoryRow) : RepositoryRow :=
  mk_RepositoryRow old.(r_model) new.(r_content_type) new.(r_security_level) new.(r_published_url) new.(r_published_base_path).

(** [INSERT ... ON CONFLICT (published_distribution_url, origin) DO UPDATE ...] *)
Definition upsert_lightwell (u : uuid) (r : RepositoryRow) : DB (db_error + ()) :=
  db_call (λ d,
    match prepare_repository r with
    | inl msg => (inr (inl (ModelError msg)), d)
    | inr row =>
        if bool_decide (is_Some (d.(repositories) !! u)) then (inr (inl (PgError "23505" "repositories_pkey")), d)
        else match first_row (same_published row) d.(repositories) with
             | Some (k, old) => (inr (inr ()), set_repositories <[k := set_lightwell row old]> d)
             | None => (inr (inr ()), set_repositories <[u := row]> d)
             end
    end).

(** The URL is stored as it is given and looked up in its cleaned form. *)
Definition InternalOnly_RefreshLightwellRepo (suffix : string) (ru cu : uuid)
    (orgID name securityLevel contentType publishedDistURL basePath featureName : string) : DB () :=
  _ ← raw_checked (upsert_lightwell ru
        (mk_RepositoryRow (mk_Repository "" OriginLightwell StatusValid None None None None "" 0 0 0 0 false)
           contentType securityLevel publishedDistURL basePath));
  '(repo, _) ← db_call (λ d, (or_not_found (first_row (λ kr, (CleanupURL publishedDistURL != "") &&
                                (kr.2.(r_published_url) == CleanupURL publishedDistURL) && (r_origin kr.2 == OriginLightwell)) d.(repositories)), d));
  raw_checked (upsert_config merge_lightwell suffix cu
    (mk_ConfigRow (mk_ConfigFields name [] "" "" false false false) "" orgID "" repo false featureName "" "" None None 0 None)).
End Dao.
