(* ===== verification/RepoConfigThms.v ===== *)
(** * The tables of repositories and configurations stay in order

    [repo_ok] is what the service relies on: no two live configurations of an organization share a name, a label or a repository; a
    repository is determined by its URL and origin; a configuration refers to a repository, is valid and in normal form, and one
    of an upload repository takes snapshots. Every operation keeps it, whatever calls fail. *)

From S2P Require Import Prelude GoStrings GoSplit Config TxMonad Utils Models Errors DaoHelpers GoText SnapshotDao TemplateDao SnapshotHandler SnapshotHandlerThms RepoConfigDao.
From stdpp Require Import options.

Open Scope string_scope.

Definition clash (c c' : ConfigRow) : bool := same_name c c' || same_repo c c' || same_label c c'.

(** What the hooks look at, of a row that refers to a repository. *)
Definition stored_model (c : ConfigRow) : RepositoryConfiguration :=
  mk_RepositoryConfiguration (c_Name c) (c_Versions c) (c_Arch c) c.(c_Label) c.(c_OrgID) "repository" "" (c_Snapshot c)
    c.(c_ExtendedRelease) c.(c_ExtendedReleaseVersion).

Record repo_ok (d : db) : Prop := {
  ok_unique u u' c c' : d.(configs) !! u = Some c → d.(configs) !! u' = Some c' → config_live c = true → config_live c' = true →
    clash c c' = true → u = u';
  ok_urls k k' r r' : d.(repositories) !! k = Some r → d.(repositories) !! k' = Some r' → same_url r (k', r') = true → k = k';
  ok_blank k r : d.(repositories) !! k = Some r → r_origin r = OriginUpload → r_url r = "";
  ok_refs u c : d.(configs) !! u = Some c →
    ∃ r, d.(repositories) !! c.(c_RepositoryUUID) = Some r ∧ (r_origin r = OriginUpload → c_Snapshot c = true);
  ok_valid u c : d.(configs) !! u = Some c → rc_normal (stored_model c) ∧ rc_valid (stored_model c)
}.

(** ** Clashes *)

Lemma clash_sym c c' : clash c c' = clash c' c.
Proof.
  unfold clash, same_name, same_repo, same_label.
  assert (∀ {A} `{EqDecision A} (x y : A), (x == y) = (y == x)) as Hs by (intros; apply bool_decide_ext; naive_solver).
  by rewrite (Hs _ _ c.(c_OrgID)), (Hs _ _ (c_Name c)), (Hs _ _ c.(c_RepositoryUUID)), (Hs _ _ c.(c_Label)).
Qed.

Lemma config_clash_false p u d :
  config_clash p u d = false ↔ ∀ k c, d.(configs) !! k = Some c → k ≠ u → config_live c = true → p c = false.
Proof.
  unfold config_clash. rewrite <- not_true_iff_false, existsb_exists. setoid_rewrite <- list_elem_of_In. split.
  - intros Hn k c Hk Hne Hl. apply not_true_iff_false. intros Hp. apply Hn. exists (k, c).
    split; [by apply elem_of_map_to_list|]. simpl. rewrite Hl, Hp. by rewrite bool_decide_false.
  - intros Ha ([k c] & Hk%elem_of_map_to_list & H). simpl in H. rewrite !andb_true_iff, bool_decide_neg_eq in H. destruct H as [[? ?] ?].
    by rewrite (Ha k c) in *.
Qed.

Lemma config_violation_None u c d :
  config_violation u c d = None →
  (∀ k c', d.(configs) !! k = Some c' → k ≠ u → config_live c' = true → clash c c' = false) ∧ is_Some (d.(repositories) !! c.(c_RepositoryUUID)).
Proof.
  unfold config_violation. destruct (config_clash (same_name c) u d) eqn:E1; [done|]. destruct (config_clash (same_repo c) u d) eqn:E2; [done|].
  destruct (config_clash (same_label c) u d) eqn:E3; [done|]. case_bool_decide as Hr; [done|]. intros _. rewrite config_clash_false in *. split.
  - intros k c' Hk Hne Hl. unfold clash. by rewrite (E1 k c'), (E2 k c'), (E3 k c').
  - by apply not_eq_None_Some.
Qed.

(** ** Storing a row *)

Lemma repo_ok_insert u c d :
  repo_ok d → config_violation u c d = None → rc_normal (stored_model c) ∧ rc_valid (stored_model c) →
  (∀ r, d.(repositories) !! c.(c_RepositoryUUID) = Some r → r_origin r = OriginUpload → c_Snapshot c = true) →
  repo_ok (set_configs <[u := c]> d).
Proof.
  intros [H1 H2 H3 H4 H5] [Hc [r Hr]]%config_violation_None Hv Hs. split; simpl; [|done..| |].
  - intros k k' x x' Hk Hk' Hl Hl' Hcl. apply lookup_insert_Some in Hk as [[<- <-]|[Hne Hk]], Hk' as [[<- <-]|[Hne' Hk']]; [done| | |by eauto].
    + by rewrite (Hc k' x') in Hcl.
    + rewrite clash_sym in Hcl. by rewrite (Hc k x) in Hcl.
  - intros k x [[<- <-]|[Hne Hk]]%lookup_insert_Some; [|by eauto]. exists r. split; [done|]. by apply Hs.
  - intros k x [[<- <-]|[Hne Hk]]%lookup_insert_Some; [done|by eauto].
Qed.

(** A change that leaves what matters alone. *)
Definition same_core (c c' : ConfigRow) : Prop :=
  c'.(c_Fields) = c.(c_Fields) ∧ c'.(c_Label) = c.(c_Label) ∧ c'.(c_OrgID) = c.(c_OrgID) ∧ c'.(c_RepositoryUUID) = c.(c_RepositoryUUID) ∧
  c'.(c_ExtendedRelease) = c.(c_ExtendedRelease) ∧ c'.(c_ExtendedReleaseVersion) = c.(c_ExtendedReleaseVersion) ∧
  (config_live c' = true → config_live c = true).

Lemma same_core_refl c : same_core c c.
Proof. by repeat split. Qed.

Lemma same_core_clash c c' x x' : same_core c c' → same_core x x' → clash c' x' = clash c x.
Proof.
  intros (Hf & Hl & Ho & Hr & _) (Hf' & Hl' & Ho' & Hr' & _). unfold clash, same_name, same_repo, same_label, c_Name.
  by rewrite Hf, Hl, Ho, Hr, Hf', Hl', Ho', Hr'.
Qed.

Lemma same_core_model c c' : same_core c c' → stored_model c' = stored_model c.
Proof. intros (Hf & Hl & Ho & Hr & He & Hv & _). unfold stored_model, c_Name, c_Versions, c_Arch, c_Snapshot. by rewrite Hf, Hl, Ho, He, Hv. Qed.

Lemma repo_ok_core d d' :
  repo_ok d → d'.(repositories) = d.(repositories) →
  (∀ u c', d'.(configs) !! u = Some c' → ∃ c, d.(configs) !! u = Some c ∧ same_core c c') → repo_ok d'.
Proof.
  intros [H1 H2 H3 H4 H5] Hr Hc. split; rewrite ?Hr; [|done..| |].
  - intros u u' c c' Hu Hu' Hl Hl' Hcl. apply Hc in Hu as (x & Hx & Hs), Hu' as (x' & Hx' & Hs').
    rewrite (same_core_clash _ _ _ _ Hs Hs') in Hcl. eapply (H1 u u' x x'); [done..|by apply Hs|by apply Hs'|done].
  - intros u c' (c & Hu & Hs)%Hc. unfold c_Snapshot. destruct Hs as (-> & _ & _ & -> & _). eauto.
  - intros u c' (c & Hu & Hs)%Hc. rewrite (same_core_model _ _ Hs). eauto.
Qed.

Lemma repo_ok_alter f u d : repo_ok d → (∀ c, same_core c (f c)) → repo_ok (set_configs (alter f u) d).
Proof.
  intros Hok Hf. eapply repo_ok_core; [done..|]. simpl. intros k c' Hk. destruct (decide (k = u)) as [->|].
  - rewrite lookup_alter_eq in Hk. apply fmap_Some in Hk as (c & Hc & ->). eauto.
  - rewrite lookup_alter_ne in Hk by done. eauto using same_core_refl.
Qed.

Lemma repo_ok_fmap f d : repo_ok d → (∀ c, same_core c (f c)) → repo_ok (set_configs (fmap f) d).
Proof.
  intros Hok Hf. eapply repo_ok_core; [done..|]. simpl. intros k c' Hk. rewrite lookup_fmap in Hk.
  apply fmap_Some in Hk as (c & Hc & ->). eauto.
Qed.

(** ** Repositories *)

(** A repository may be added, or changed in columns that do not matter. *)
Lemma repo_ok_repositories d m :
  repo_ok d → (∀ k r, d.(repositories) !! k = Some r → ∃ r', m !! k = Some r' ∧ r_origin r' = r_origin r) →
  (∀ k k' r r', m !! k = Some r → m !! k' = Some r' → same_url r (k', r') = true → k = k') →
  (∀ k r, m !! k = Some r → r_origin r = OriginUpload → r_url r = "") →
  repo_ok (set_repositories (λ _, m) d).
Proof.
  intros [H1 H2 H3 H4 H5] Hg Hu Hb. split; simpl; [done..| |done].
  intros u c Hc. destruct (H4 u c Hc) as (r & Hr & Hs). destruct (Hg _ _ Hr) as (r' & Hr' & Ho). exists r'. by rewrite Ho.
Qed.

Lemma prepare_upload valid_uri now r row :
  prepare_repository valid_uri now r = inr row → (r_origin row = OriginUpload → r_url row = "") ∧
  r_origin row = (if r_origin r == "" then OriginExternal else r_origin r).
Proof.
  unfold prepare_repository, repository_BeforeCreate. destruct (repository_validate _ _) eqn:E; [done|]. intros [= <-].
  unfold r_origin, r_url. assert (∀ x, r_Origin x = r_Origin (r_model r) → r_URL x = CleanupURL (r_URL (r_model r)) →
    (r_Origin (r_model (repository_defaults x (r_content_type r) (r_security_level r) (r_published_url r) (r_published_base_path r))) = OriginUpload →
     r_URL (r_model (repository_defaults x (r_content_type r) (r_security_level r) (r_published_url r) (r_published_base_path r))) = "") ∧
    r_Origin (r_model (repository_defaults x (r_content_type r) (r_security_level r) (r_published_url r) (r_published_base_path r))) =
      (if r_Origin (r_model r) == "" then OriginExternal else r_Origin (r_model r))) as Hx; [|by destruct (bool_decide (r_Origin (r_model r) = OriginUpload)); apply Hx].
  intros x Ho Hu. simpl. rewrite Ho, Hu. split; [|done]. case_bool_decide as Hb; [done|]. intros Hup. unfold repository_validate in E.
  rewrite Hup in E. rewrite (bool_decide_true (OriginUpload = OriginUpload)) in E by done. simpl in E. case_bool_decide as Hblank; [|done].
  by rewrite Hblank.
Qed.

Lemma existsb_false {A} (p : A → bool) l : existsb p l = false ↔ ∀ x, x ∈ l → p x = false.
Proof.
  rewrite <- not_true_iff_false, existsb_exists. setoid_rewrite <- list_elem_of_In. split.
  - intros Hn x Hx. apply not_true_iff_false. intros Hp. naive_solver.
  - intros Ha (x & Hx & Hp). by rewrite (Ha x Hx) in Hp.
Qed.

Lemma same_url_sym r r' k k' : same_url r (k', r') = true → same_url r' (k, r) = true.
Proof.
  unfold same_url. simpl. rewrite !andb_true_iff, !bool_decide_neg_eq, !bool_decide_eq_true. intros [[Hne Hu] Ho]. by rewrite Hu, Ho.
Qed.

(** Adding a prepared repository. *)
Lemma repo_ok_new d u row :
  repo_ok d → d.(repositories) !! u = None → (∀ kr, kr ∈ map_to_list d.(repositories) → same_url row kr = false) →
  (r_origin row = OriginUpload → r_url row = "") → repo_ok (set_repositories <[u := row]> d).
Proof.
  intros Hok Hu Hs Hb. apply (repo_ok_repositories d (<[u := row]> d.(repositories)) Hok).
  - intros k r Hr. exists r. split; [|done]. rewrite lookup_insert_ne; [done|]. intros <-. by rewrite Hr in Hu.
  - intros k k' r r' [[<- <-]|[Hne Hk]]%lookup_insert_Some [[<- <-]|[Hne' Hk']]%lookup_insert_Some Hsame; [done| | |by eapply ok_urls].
    + by rewrite (Hs (k', r')) in Hsame by by apply elem_of_map_to_list.
    + apply (same_url_sym _ _ k) in Hsame. by rewrite (Hs (k, r)) in Hsame by by apply elem_of_map_to_list.
  - intros k r [[<- <-]|[Hne Hk]]%lookup_insert_Some; [done|by eapply ok_blank].
Qed.

Lemma best_in {A} (lt : A → A → bool) l x : best lt l = Some x → x ∈ l.
Proof.
  unfold best. assert (∀ (cur : option A), foldl (λ cur x, match cur with Some y => if lt x y then Some x else Some y | None => Some x end) cur l = Some x →
    cur = Some x ∨ x ∈ l) as Hg; [|by intros [|]%Hg].
  induction l as [|y l IH]; intros cur; simpl; [by left|]. intros [Hc|Hin]%IH; [|right; by right].
  destruct cur as [z|]; [destruct (lt y z)|]; simplify_eq; (by left) || (right; by left).
Qed.

Lemma first_row_Some {A} p (m : gmap uuid A) k a : first_row p m = Some (k, a) → m !! k = Some a ∧ p (k, a) = true.
Proof. intros [Hp Hin]%best_in%list_elem_of_filter. by rewrite <- elem_of_map_to_list. Qed.

Lemma first_row_None {A} p (m : gmap uuid A) k a : first_row p m = None → m !! k = Some a → p (k, a) = false.
Proof.
  unfold first_row. intros Hn Hk. apply not_true_iff_false. intros Hp.
  assert ((k, a) ∈ base.filter (λ kv, p kv = true) (map_to_list m)) as Hin by (apply list_elem_of_filter; split; [done|by apply elem_of_map_to_list]).
  destruct (base.filter _ _) as [|x l]; [by apply not_elem_of_nil in Hin|]. unfold best in Hn. simpl in Hn. clear Hin Hk Hp. revert x Hn.
  induction l as [|y l IH]; intros x; simpl; [done|]. destruct (_ <? _)%N; apply IH.
Qed.

(** ** Statements *)

Section Ops.
Context `{UT : UuidText}.

Definition kept {A} (m : DB A) : Prop := hoare repo_ok m (λ _, repo_ok) (λ _, repo_ok).

Lemma matches_url_nonempty url kr : matches_url url kr = true → r_url kr.2 ≠ "".
Proof. unfold matches_url. rewrite andb_true_iff, bool_decide_neg_eq, bool_decide_eq_true. naive_solver. Qed.

Lemma repo_checked_ok {A} o (m : DB (db_error + A)) (P : db → Prop) (Q : A → db → Prop) (R : db → Prop) :
  hoare P m (λ x d, match x with inr a => Q a d | inl _ => R d end) (λ _, R) → hoare P (repo_checked o m) Q (λ _, R).
Proof.
  intros Hm. eapply hoare_bind; [by apply hoare_map_err|]. intros [e|a]; [by apply hoare_throw|by apply hoare_ret].
Qed.

Lemma raw_checked_ok {A} (m : DB (db_error + A)) (P : db → Prop) (Q : A → db → Prop) (R : db → Prop) :
  hoare P m (λ x d, match x with inr a => Q a d | inl _ => R d end) (λ _, R) → hoare P (raw_checked m) Q (λ _, R).
Proof. intros Hm. eapply hoare_bind; [done|]. intros [e|a]; [by apply hoare_throw|by apply hoare_ret]. Qed.

(** What the hooks leave is valid. *)
Lemma before_create_model found suffix origin c m :
  BeforeCreate found suffix (config_model origin c) = inr m →
  rc_normal (stored_model (with_model m c)) ∧ rc_valid (stored_model (with_model m c)).
Proof.
  unfold BeforeCreate. set (n := ReplaceEmptyValues _). destruct (validate n) eqn:E; [done|]. intros [= <-].
  apply validate_iff in E. pose proof (normalise_normal (SetLabel found suffix (config_model origin c))) as Hn. fold n in Hn.
  assert (n.(rc_Name) = c_Name c ∧ n.(rc_OrgID) = c.(c_OrgID) ∧ n.(rc_ExtendedRelease) = c.(c_ExtendedRelease) ∧
    n.(rc_ExtendedReleaseVersion) = c.(c_ExtendedReleaseVersion)) as (H1 & H2 & H3 & H4).
  { subst n. unfold ReplaceEmptyValues, DedupeVersions, SetLabel. repeat case_match; done. }
  clearbody n. destruct Hn as [? ? ? ?]. split; [by split|]. unfold rc_valid, c_Name in *. simpl in *. unfold c_Name. simpl. rewrite <- H1, <- H2, <- H3, <- H4. naive_solver.
Qed.

Lemma before_update_model c m cur org acc repo label part feat ls lt fc del :
  BeforeUpdate (config_model "" c) = inr m → org = c.(c_OrgID) →
  cur.(c_ExtendedRelease) = c.(c_ExtendedRelease) → cur.(c_ExtendedReleaseVersion) = c.(c_ExtendedReleaseVersion) →
  let row := mk_ConfigRow (set_versions_arch m.(rc_Versions) m.(rc_Arch) c.(c_Fields)) label org acc repo part feat
               cur.(c_ExtendedRelease) cur.(c_ExtendedReleaseVersion) ls lt fc del in
  rc_normal (stored_model row) ∧ rc_valid (stored_model row).
Proof.
  unfold BeforeUpdate. destruct (validate _) eqn:E; [done|]. intros [= <-] -> He Hv. apply validate_iff, normalise_valid in E.
  pose proof (normalise_normal (config_model "" c)) as [? ? ? ?]. set (n := ReplaceEmptyValues _) in *.
  assert (n.(rc_Name) = c_Name c ∧ n.(rc_OrgID) = c.(c_OrgID) ∧ n.(rc_ExtendedRelease) = c.(c_ExtendedRelease) ∧
    n.(rc_ExtendedReleaseVersion) = c.(c_ExtendedReleaseVersion)) as (H1 & H2 & H3 & H4).
  { subst n. unfold ReplaceEmptyValues, DedupeVersions. repeat case_match; done. }
  clearbody n. split; [by split|]. unfold rc_valid, c_Name in *. simpl in *. unfold c_Name. simpl. rewrite He, Hv. rewrite <- H1, <- H2, <- H3, <- H4. naive_solver.
Qed.

Context (valid_uri : string → bool) (now : time) (tasks : gmap uuid TaskView).
#[local] Set Default Proof Using "Type*".

(** A repository that is there, and no upload unless [up]. *)
Definition repo_at (up : bool) (kr : uuid * RepositoryRow) (d : db) : Prop :=
  d.(repositories) !! kr.1 = Some kr.2 ∧ (up = false → r_origin kr.2 ≠ OriginUpload).

Lemma insert_repository_ok u r up :
  (up = false → r_origin r ≠ OriginUpload) →
  hoare repo_ok (insert_repository valid_uri now u r) (λ x d, repo_ok d ∧ match x with inr kr => repo_at up kr d | inl _ => True end) (λ _, repo_ok).
Proof.
  intros Hup. apply hoare_call; [done|]. intros d Hok. destruct (prepare_repository _ _ r) as [msg|row] eqn:E; simpl; [by split|].
  destruct (prepare_upload _ _ _ _ E) as [Hb Ho]. destruct (bool_decide (is_Some (repositories d !! u))) eqn:Hu; simpl; [by split|]. apply bool_decide_eq_false in Hu.
  destruct (existsb (same_url row) _) eqn:Es; simpl; [by split|]. destruct (existsb (same_published row) _); simpl; [by split|].
  rewrite existsb_false in Es. split; [apply repo_ok_new; auto; by apply eq_None_not_Some|]. split; simpl; [apply lookup_insert_eq|].
  intros Hf. rewrite Ho. case_bool_decide; [done|]. by apply Hup.
Qed.

Lemma first_or_create_ok p u r up :
  (up = false → r_origin r ≠ OriginUpload) → (up = false → ∀ kr, p kr = true → r_url kr.2 ≠ "") →
  hoare repo_ok (first_or_create valid_uri now p u r) (λ x d, repo_ok d ∧ match x with inr kr => repo_at up kr d | inl _ => True end) (λ _, repo_ok).
Proof.
  intros Hup Hp. eapply (hoare_bind _ _ _ (λ x d, repo_ok d ∧ match x with Some kr => repo_at up kr d | None => True end)).
  - apply hoare_call; [done|]. intros d Hok. split; [done|]. destruct (first_row p _) as [[k row]|] eqn:E; [|done].
    apply first_row_Some in E as [Hk Hpk]. split; [done|]. intros Hf Ho. apply (Hp Hf _ Hpk). by eapply ok_blank.
  - intros [kr|]; [by apply hoare_ret|]. eapply hoare_conseq; [by apply insert_repository_ok|naive_solver..].
Qed.


Definition upload_ok (c : ConfigRow) (d : db) : Prop :=
  ∀ r, d.(repositories) !! c.(c_RepositoryUUID) = Some r → r_origin r = OriginUpload → c_Snapshot c = true.

Lemma label_found_ok (P : db → Prop) org name : hoare P (label_found org name) (λ _, P) (λ _, P).
Proof.
  intros fs d HP. unfold label_found, db_call. by destruct fs as [|[e|] fs].
Qed.

Lemma maybe_label_ok (P : db → Prop) c :
  hoare P (if (c.(c_OrgID) == RedHatOrg) || (c.(c_OrgID) == CommunityOrg) then mret None else label_found c.(c_OrgID) (c_Name c))
    (λ _, P) (λ _, P).
Proof. destruct (_ || _); [by apply hoare_ret|apply label_found_ok]. Qed.

Lemma insert_config_ok u row :
  rc_normal (stored_model row) ∧ rc_valid (stored_model row) →
  hoare (λ d, repo_ok d ∧ upload_ok row d) (insert_config u row) (λ _, repo_ok) (λ _, repo_ok).
Proof.
  intros Hv. apply hoare_call; [naive_solver|]. intros d [Hok Hup]. destruct (bool_decide (is_Some _)); simpl; [done|].
  destruct (config_violation u row d) eqn:E; simpl; [done|]. by apply repo_ok_insert.
Qed.

Lemma create_config_ok suffix u c :
  hoare (λ d, repo_ok d ∧ upload_ok c d) (create_config valid_uri now suffix u None c) (λ _, repo_ok) (λ _, repo_ok).
Proof.
  eapply (hoare_bind _ _ _ (λ _ d, repo_ok d ∧ upload_ok c d)).
  { eapply hoare_conseq; [apply (maybe_label_ok (λ d, repo_ok d ∧ upload_ok c d))|done..|by intros ? ? []]. }
  intros found. simpl.
  destruct (BeforeCreate _ _ _) as [msg|m] eqn:E; [by apply hoare_ret; intros ? []|]. apply before_create_model in E.
  eapply (hoare_bind _ _ _ (λ x d, (repo_ok d ∧ upload_ok c d) ∧ x = inr (c.(c_RepositoryUUID), zero_repository))); [by apply hoare_ret|].
  intros [e|[repo ar]]; [by apply hoare_ret; intros ? [[]]|].
  eapply (hoare_bind _ _ _ (λ _, repo_ok)); [|intros []; by apply hoare_ret].
  eapply hoare_conseq; [apply (insert_config_ok u (set_fields (with_model m c).(c_Fields) (with_model m c).(c_Label) repo (with_model m c)))|..]; [exact E| |done..].
  intros d [[Hok Hup] [= ->]]. done.
Qed.

(** Importing an upload repository: its configuration takes snapshots. *)
Lemma create_config_assoc_ok suffix u kr c :
  c_Snapshot c = true → hoare repo_ok (create_config valid_uri now suffix u (Some kr) c) (λ _, repo_ok) (λ _, repo_ok).
Proof.
  intros Hs. destruct kr as [au ar]. eapply hoare_bind; [apply maybe_label_ok|]. intros found.
  destruct (BeforeCreate _ _ _) as [msg|m] eqn:E; [by apply hoare_ret|]. apply before_create_model in E.
  eapply (hoare_bind _ _ _ (λ _, repo_ok)).
  { eapply hoare_conseq; [by apply (insert_repository_ok au ar true)|naive_solver..]. }
  intros [e|[repo ar']]; [by apply hoare_ret|]. eapply (hoare_bind _ _ _ (λ _, repo_ok)); [|intros []; by apply hoare_ret].
  eapply hoare_conseq; [apply (insert_config_ok u (set_fields (with_model m c).(c_Fields) (with_model m c).(c_Label) repo (with_model m c)))|..]; [exact E| |done..].
  intros d Hok. split; [done|]. by intros r _ _.
Qed.

Definition same_release (u : uuid) (c : ConfigRow) (d : db) : Prop :=
  ∀ cur, d.(configs) !! u = Some cur → cur.(c_ExtendedRelease) = c.(c_ExtendedRelease) ∧ cur.(c_ExtendedReleaseVersion) = c.(c_ExtendedReleaseVersion).

Lemma update_config_ok u c :
  hoare (λ d, repo_ok d ∧ upload_ok c d ∧ same_release u c d) (update_config u c)
    (λ _ d, repo_ok d ∧ upload_ok c d ∧ same_release u c d) (λ _, repo_ok).
Proof.
  unfold update_config. destruct (BeforeUpdate _) as [msg|m] eqn:E; [by apply hoare_ret|].
  apply hoare_call; [naive_solver|]. intros d (Hok & Hup & Hr). destruct (configs d !! u) as [cur|] eqn:Hu; [|done].
  destruct (config_live cur); simpl; [|done]. set (row := mk_ConfigRow _ _ _ _ _ _ _ _ _ _ _ _ _).
  destruct (config_violation u row d) eqn:Ev; simpl; [done|]. destruct (Hr cur Hu) as [He Hv]. split_and!.
  - apply repo_ok_insert; [done..| |done]. by eapply before_update_model.
  - exact Hup.
  - intros cur' Hc. simpl in Hc. rewrite lookup_insert_eq in Hc. by injection Hc as <-.
Qed.

(** ** Reading *)

Lemma fetch_loaded_keeps org uuid_ sh : keeps (fetch_loaded tasks org uuid_ sh).
Proof.
  unfold fetch_loaded. apply keeps_bind; [unfold fetchRepoConfig; keeps_tac|]. intros. by apply keeps_map_err, keeps_call.
Qed.

Lemma fetch_loaded_ok org uuid_ sh :
  hoare repo_ok (fetch_loaded tasks org uuid_ sh)
    (λ l d, repo_ok d ∧ d.(configs) !! l.(l_UUID) = Some l.(l_Config) ∧ d.(repositories) !! l.(l_Config).(c_RepositoryUUID) = Some l.(l_Repository) ∧
            (sh = false → l.(l_Config).(c_OrgID) = org))
    (λ _, repo_ok).
Proof.
  intros fs d Hok. destruct (fetch_loaded tasks org uuid_ sh (fs, d)) as [r [fs' d']] eqn:E.
  pose proof (fetch_loaded_keeps org uuid_ sh _ _ _ _ _ E) as ->.
  destruct r as [e|l]; [done|]. apply bind_inr in E as ([rc c] & [fs1 d1] & Hf & Hp).
  unfold fetchRepoConfig in Hf. apply map_err_inr, call_inr in Hf. apply map_err_inr, call_inr in Hp.
  destruct (configs d !! _) as [c0|] eqn:Hc; [|done]. destruct (_ && _) eqn:Hb; [|done]. simplify_eq/=.
  destruct (ok_refs d Hok _ _ Hc) as (r & Hr & _). rewrite Hr. split_and!; try done.
  intros ->. apply andb_true_iff in Hb as [_ Ho]. by apply bool_decide_eq_true in Ho.
Qed.

(** ** Operations *)

Lemma repo_at_upload_ok up kr c d :
  repo_at up kr d → c.(c_RepositoryUUID) = kr.1 → (up = true → c_Snapshot c = true) → upload_ok c d.
Proof. intros [Hr Ho] Hc Hs r Hk Hu. rewrite Hc, Hr in Hk. injection Hk as <-. destruct up; [by apply Hs|by apply Ho in Hu]. Qed.

Lemma rk_bind {A B} (m : DB A) (k : A → DB B) : kept m → (∀ a, kept (k a)) → kept (m ≫= k).
Proof. intros. by eapply hoare_bind. Qed.
Lemma rk_ret {A} (a : A) : kept (mret a).
Proof. by apply hoare_ret. Qed.
Lemma rk_throw {A} e : kept (throw e : DB A).
Proof. by apply hoare_throw. Qed.
Lemma rk_map_err {A} g (m : DB A) : kept m → kept (map_err g m).
Proof. intros. by apply hoare_map_err. Qed.
Lemma rk_keeps {A} (m : DB A) : keeps m → kept m.
Proof. intros Hm fs d Hok. destruct (m (fs, d)) as [[e|a] [fs' d']] eqn:E; by rewrite (Hm _ _ _ _ _ E). Qed.
Lemma rk_call {A} (f : db → (goerr + A) * db) : (∀ d, repo_ok d → repo_ok (f d).2) → kept (db_call f).
Proof. intros Hf. apply hoare_call; [done|]. intros d Hok. specialize (Hf d Hok). by destruct (f d) as [[e|a] d']. Qed.

(** A configuration is created for the repository found or made before. *)
Lemma find_ok up o find :
  hoare repo_ok find (λ x d, repo_ok d ∧ match x with inr kr => repo_at up kr d | inl _ => True end) (λ _, repo_ok) →
  hoare repo_ok (repo_checked o find) (λ kr d, repo_ok d ∧ repo_at up kr d) (λ _, repo_ok).
Proof. intros Hfind. apply repo_checked_ok. eapply hoare_conseq; [done|done| |done]. by intros [e|kr] d []. Qed.

Lemma create_ok up kr o suffix cu f org acc :
  (up = true → f.(cf_Snapshot) = true) →
  hoare (λ d, repo_ok d ∧ repo_at up kr d) (repo_checked o (create_config valid_uri now suffix cu None (new_config f org acc kr.1)))
    (λ _, repo_ok) (λ _, repo_ok).
Proof.
  intros Hs. apply repo_checked_ok. eapply hoare_conseq; [apply create_config_ok| | |done].
  - intros d [Hok Hat]. split; [done|]. by eapply repo_at_upload_ok.
  - by intros [].
Qed.

Lemma new_repository_ok up ru url origin status p :
  up = (origin == OriginUpload) → (∀ kr, p kr = true → r_url kr.2 ≠ "") →
  hoare repo_ok (insert_repository valid_uri now ru (new_repository url origin status))
    (λ x d, repo_ok d ∧ match x with inr kr => repo_at up kr d | inl _ => True end) (λ _, repo_ok) ∧
  hoare repo_ok (first_or_create valid_uri now p ru (new_repository url origin status))
    (λ x d, repo_ok d ∧ match x with inr kr => repo_at up kr d | inl _ => True end) (λ _, repo_ok).
Proof.
  intros -> Hp. assert ((origin == OriginUpload) = false → r_origin (new_repository url origin status) ≠ OriginUpload) as Ho.
  { by intros Hf%bool_decide_eq_false. }
  split; [by apply insert_repository_ok|]. apply first_or_create_ok; [done|]. intros _. exact Hp.
Qed.

Lemma matches_url_origin_nonempty url origin kr : matches_url_origin url origin kr = true → r_url kr.2 ≠ "".
Proof. intros [Hu _]%andb_true_iff. by apply matches_url_nonempty in Hu. Qed.

Lemma snapshot_given (b s : bool) : b && negb s = false → b = true → s = true.
Proof. by destruct b, s. Qed.

Lemma rk_fetch org u sh : kept (fetch_loaded tasks org u sh).
Proof. apply rk_keeps, fetch_loaded_keeps. Qed.

Ltac refuse := match goal with |- kept (if ?b then throw _ else _) => destruct b eqn:?; [apply rk_throw|] end.

Ltac either := match goal with |- hoare _ (if ?b then _ else _) _ _ => destruct b; assumption end.

Lemma rk_Create suffix ru cu req : kept (RepoConfig_Create valid_uri now tasks suffix ru cu req).
Proof.
  unfold RepoConfig_Create. do 5 refuse. cbv zeta.
  match goal with |- context [if ?b then OriginExternal else ?o] => set (origin := if b then OriginExternal else o) end. refuse. simpl.
  destruct (new_repository_ok _ ru (default "" req.(rq_URL)) origin "" (matches_url_origin (CleanupURL (default "" req.(rq_URL))) origin) eq_refl) as [Hi Hf].
  { intros kr. apply matches_url_origin_nonempty. }
  eapply hoare_bind; [apply (find_ok (origin == OriginUpload)); either|]. intros [repo row].
  eapply hoare_bind; [apply (create_ok (origin == OriginUpload) (repo, row)); by eapply snapshot_given|]. intros [[u c] r].
  apply rk_bind; [apply rk_map_err, rk_fetch|]. intros l. apply rk_ret.
Qed.

Lemma rk_bulk_create_one suffix ru cu req : kept (bulk_create_one valid_uri now suffix ru cu req).
Proof.
  unfold bulk_create_one. cbv zeta. set (origin := default OriginExternal _). do 5 refuse. simpl.
  destruct (new_repository_ok _ ru (default "" req.(rq_URL)) origin "Pending" (matches_url_origin (CleanupURL (default "" req.(rq_URL))) origin) eq_refl) as [Hi Hf].
  { intros kr. apply matches_url_origin_nonempty. }
  eapply hoare_bind; [apply (find_ok (origin == OriginUpload)); either|]. intros [repo row].
  eapply hoare_bind; [apply (create_ok (origin == OriginUpload) (repo, row)); by eapply snapshot_given|]. intros [[u c] r]. apply rk_ret.
Qed.

Lemma rk_bulk_transaction {A B} (one : db → A → DB B) items :
  (∀ d0 x, repo_ok d0 → kept (one d0 x)) → kept (bulk_transaction one items).
Proof.
  intros Hone. assert (∀ d0, repo_ok d0 → kept (bulk_loop one d0 items)) as Hloop.
  { intros d0 H0. induction items as [|x items IH]; [apply rk_ret|]. intros fs d Hok. simpl. specialize (Hone d0 x H0 fs d Hok).
    assert (∀ y, kept (rest ← bulk_loop one d0 items; mret (y :: rest))) as Hk by (intros y; apply rk_bind; [done|]; intros; apply rk_ret).
    destruct (one d0 x (fs, d)) as [[e|b] [fs' d']]; [by apply Hk|by apply Hk]. }
  intros fs d Hok. unfold bulk_transaction. destruct (db_noop (fs, d)) as [[e|[]] [fs1 d1]] eqn:E; [by apply noop_inl in E as ->|].
  apply noop_inr in E as ->. specialize (Hloop d Hok fs1 d Hok). destruct (bulk_loop one d items (fs1, d)) as [[e|l] [fs2 d2]]; [done|].
  destruct (bulk_result l) as [rs errs]. destruct (0 <? length errs)%nat; [by destruct (db_noop _) as [? [? ?]]|].
  destruct (db_noop (fs2, d2)) as [[e|[]] [fs3 d3]] eqn:E; [done|]. by apply noop_inr in E as ->.
Qed.

Lemma hoare_frame {A} (F : db → Prop) (P : db → Prop) (m : DB A) Q R :
  (∀ fs d, F d → F (m (fs, d)).2.2) → hoare P m Q R → hoare (λ d, P d ∧ F d) m (λ a d, Q a d ∧ F d) (λ e d, R e d ∧ F d).
Proof.
  intros HF Hm fs d [HP Hd]. specialize (Hm fs d HP). specialize (HF fs d Hd). by destruct (m (fs, d)) as [[e|a] [fs' d']].
Qed.

Lemma repo_checked_keeps_configs {A} o (m : DB (db_error + A)) (F : gmap uuid ConfigRow → Prop) fs d :
  (∀ w, (m w).2.2.(configs) = w.2.(configs)) → F d.(configs) → F (repo_checked o m (fs, d)).2.2.(configs).
Proof.
  intros Hm HF. unfold repo_checked, mbind, M_bind, map_err. specialize (Hm (fs, d)).
  destruct (m (fs, d)) as [[e|[e|a]] [fs' d']]; simpl in *; by rewrite Hm.
Qed.

Lemma first_or_create_configs p u r w : (first_or_create valid_uri now p u r w).2.2.(configs) = w.2.(configs).
Proof.
  destruct w as [fs d]. unfold first_or_create, insert_repository, mbind, M_bind, db_call.
  destruct fs as [|[e|] fs]; simpl; [| |]; try done; (destruct (first_row _ _); [done|]);
    (destruct (prepare_repository _ _ _); simpl; [try destruct fs as [|[|]]; done|]); try destruct fs as [|[|]]; simpl; repeat case_match; by simplify_eq.
Qed.

Ltac refuse_at E := match goal with |- hoare _ (if ?b then throw _ else _) _ _ => destruct b eqn:E; [by apply hoare_throw; intros ? []|] end.

Lemma rk_Update ru org uuid_ params : kept (RepoConfig_Update valid_uri now tasks ru org uuid_ params).
Proof.
  unfold RepoConfig_Update. set (I := λ (x : bool * uuid * ConfigRow) d, repo_ok d ∧ upload_ok x.2 d ∧ same_release x.1.2 x.2 d).
  eapply (hoare_bind _ _ _ I).
  2: { intros [[b u] c]. eapply (hoare_bind _ _ _ (λ _, repo_ok)); [|intros []; apply rk_ret].
       apply repo_checked_ok. eapply hoare_conseq; [apply (update_config_ok u c)|done| |done]. intros [e|[]] d (? & _ & _); done. }
  eapply (hoare_transaction _ _ _ _ _ _ _ (λ _, repo_ok)); [|done]. unfold RepoConfig_update. eapply hoare_bind; [apply fetch_loaded_ok|].
  intros l. simpl. refuse_at E1. refuse_at E2.
  set (f := mk_ConfigFields _ _ _ _ _ _ _).
  eapply (hoare_bind _ _ _ (λ x d, I (x.2, l.(l_UUID), set_fields f l.(l_Config).(c_Label) x.1 l.(l_Config)) d)).
  - assert (∀ d, repo_ok d ∧ d.(configs) !! l.(l_UUID) = Some l.(l_Config) ∧ d.(repositories) !! l.(l_Config).(c_RepositoryUUID) = Some l.(l_Repository) ∧ (false = false → l.(l_Config).(c_OrgID) = org) →
      I (false, l.(l_UUID), set_fields f l.(l_Config).(c_Label) l.(l_Config).(c_RepositoryUUID) l.(l_Config)) d) as Hsame.
    { intros d (Hok & Hc & Hr & _). split_and!; [done| |by intros cur Hcur; simpl in Hcur; rewrite Hc in Hcur; injection Hcur as <-].
      intros r Hr' Hu. simpl in Hr'. rewrite Hr in Hr'. injection Hr' as <-. destruct (ok_refs d Hok _ _ Hc) as (r' & Hr' & Hs).
      rewrite Hr in Hr'. injection Hr' as <-. unfold c_Snapshot. simpl. unfold not_upload in E2. rewrite Hu in E2.
      rewrite (bool_decide_true (OriginUpload = OriginUpload)) in E2 by done. simpl in E2. destruct params.(ru_Snapshot) as [[]|]; [done..|]. by apply Hs. }
    destruct params.(ru_URL) as [raw|]; [|by apply hoare_ret, Hsame]. destruct (not_upload l); [|by apply hoare_ret, Hsame].
    set (F := λ d, d.(configs) !! l.(l_UUID) = Some l.(l_Config)).
    eapply (hoare_bind _ _ _ (λ kr d, (repo_ok d ∧ repo_at false kr d) ∧ F d)).
    + eapply hoare_conseq; [apply (hoare_frame F); [|apply (find_ok false)]| |done|by intros ? ? []].
      * intros fs d HF. apply (repo_checked_keeps_configs _ _ (λ m, m !! l.(l_UUID) = Some l.(l_Config))); [intros w; apply first_or_create_configs|exact HF].
      * apply first_or_create_ok; [done|]. intros _ kr. apply matches_url_nonempty.
      * by intros d (? & ? & _).
    + intros [repo row]. apply hoare_ret. intros d [[Hok Hat] HF]. split_and!; [done| |].
      * by eapply (repo_at_upload_ok false (repo, row)).
      * intros cur Hcur. simpl in Hcur. unfold F in HF. rewrite HF in Hcur. by injection Hcur as <-.
  - intros [repo b]. eapply (hoare_bind _ _ _ (λ _ d, I (b, l.(l_UUID), set_fields f l.(l_Config).(c_Label) repo l.(l_Config)) d)); [|intros []; by apply hoare_ret].
    apply repo_checked_ok. eapply hoare_conseq; [apply update_config_ok|done| |done]. intros [e|[]] d HI; [by destruct HI|done].
Qed.

Lemma rk_on_config raw f : (∀ u d, repo_ok d → repo_ok (f u d).2) → kept (on_config raw f).
Proof. intros Hf. apply rk_call. intros d Hok. destruct (pg_uuid raw); [by apply Hf|done]. Qed.

Lemma core_if (b : bool) c c' : same_core c c' → same_core c (if b then c' else c).
Proof. by destruct b; [|intros; apply same_core_refl]. Qed.

Lemma rk_ResetFailed raw : kept (InternalOnly_ResetFailedSnapshotCount raw).
Proof. apply rk_map_err, rk_on_config. intros u d Hok. apply repo_ok_alter; [done|]. intros c. by apply core_if; repeat split. Qed.
Lemma rk_IncrementFailed raw : kept (InternalOnly_IncrementFailedSnapshotCount raw).
Proof. apply rk_map_err, rk_on_config. intros u d Hok. apply repo_ok_alter; [done|]. intros c. by apply core_if; repeat split. Qed.

Lemma rk_UpdateLastSnapshotTask t org repo : kept (UpdateLastSnapshotTask tasks t org repo).
Proof.
  apply rk_on_config. intros u d Hok.
  assert (∀ o, repo_ok (set_configs (fmap (λ c, if (c.(c_OrgID) == org) && (c.(c_RepositoryUUID) == u) then set_last_task o c else c)) d)) as Hu.
  { intros o. apply repo_ok_fmap; [done|]. intros c. by apply core_if; repeat split. }
  destruct (t == ""); [apply Hu|]. destruct (pg_uuid t) as [v|]; [|done]. destruct (_ && _); [done|apply Hu].
Qed.

Lemma rk_UpdateLastSnapshot org rc snap : kept (UpdateLastSnapshot org rc snap).
Proof.
  apply rk_on_config. intros u d Hok. destruct (pg_uuid snap) as [v|]; [|done]. destruct (configs d !! u) as [c|]; [|done].
  destruct (_ != org); [done|]. destruct (bool_decide _); [done|]. apply repo_ok_alter; [done|]. intros c'. by repeat split.
Qed.

Lemma rk_soft_delete u : kept (soft_delete_config now u).
Proof. apply rk_call. intros d Hok. apply repo_ok_alter; [done|]. intros c. by apply core_if; repeat split. Qed.

Lemma rk_SoftDelete org raw : kept (RepoConfig_SoftDelete now org raw).
Proof.
  apply rk_bind; [apply rk_map_err, rk_call; intros d Hok; by destruct (pg_uuid raw)|].
  intros [u c]. destruct (config_live c); [apply rk_soft_delete|apply rk_ret].
Qed.

Lemma rk_Delete org raw : kept (RepoConfig_Delete org raw).
Proof.
  apply rk_bind; [by apply rk_map_err, rk_call|]. intros [u c]. apply rk_call. intros d Hok. destruct (existsb _ _); [done|].
  simpl. eapply repo_ok_core; [exact Hok|done|]. simpl. intros k c' Hk%lookup_delete_Some. exists c'. split; [naive_solver|apply same_core_refl].
Qed.

Lemma rk_bulk_delete_one org d0 raw : kept (bulk_delete_one now tasks org d0 raw).
Proof.
  apply rk_bind; [apply rk_map_err|intros l; apply rk_bind; [apply rk_map_err, rk_soft_delete|intros; apply rk_ret]].
  intros fs d Hok. unfold read_at. by destruct (fetch_loaded _ _ _ _ _) as [[] []].
Qed.

Lemma rk_preload kc : kept (preload_associations tasks kc).
Proof. by apply rk_call. Qed.

Lemma rk_or_none {A} (m : DB A) : kept m → kept (or_none m).
Proof.
  intros Hm fs d Hok. specialize (Hm fs d Hok). unfold or_none. destruct (m (fs, d)) as [[e|a] [fs' d']]; [|done]. by destruct (is_record_not_found e).
Qed.

Lemma rk_import_one suffix ru au cu req : kept (import_one valid_uri now tasks suffix ru au cu req).
Proof.
  unfold import_one. cbv zeta. simpl. set (origin := default OriginExternal _). set (url := default "" req.(rq_URL)).
  match goal with |- kept (if ?b then _ else _) => destruct b end.
  { apply rk_bind; [|intros; apply rk_bind; [apply rk_map_err, rk_preload|intros; apply rk_ret]].
    intros fs d Hok. assert (kept (config_by_url (CleanupURL url) [CommunityOrg])) as Hk by by apply rk_call.
    specialize (Hk fs d Hok). by destruct (config_by_url _ _ _) as [[] []]. }
  refuse. destruct (origin == OriginUpload) eqn:Ho.
  - apply rk_bind; [|intros [l []]; apply rk_ret]. unfold importUploadRepository. apply rk_bind; [by apply rk_or_none, rk_call|].
    intros [[u c]|]; [apply rk_ret|]. apply rk_bind.
    { apply repo_checked_ok. eapply hoare_conseq; [by apply (insert_repository_ok ru _ true)|done| |done]. by intros [] ? []. }
    intros [repo row]. cbv zeta. apply rk_bind; [|intros [[u c] r]; apply rk_ret].
    apply repo_checked_ok. eapply hoare_conseq; [by apply create_config_assoc_ok|done| |done]. by intros [].
  - apply rk_bind; [by apply rk_or_none, rk_call|]. intros [kc|].
    + apply rk_bind; [|intros [p w]; apply rk_ret]. apply rk_bind; [apply rk_map_err, rk_preload|intros; apply rk_ret].
    + destruct (new_repository_ok _ ru url origin "Pending" (matches_url (CleanupURL url)) eq_refl) as [_ Hf].
      { intros kr. apply matches_url_nonempty. }
      eapply hoare_bind; [by apply (find_ok (origin == OriginUpload))|]. intros [repo row]. rewrite Ho.
      eapply hoare_bind; [by apply (create_ok false (repo, row))|]. intros [[u c] r]. apply rk_ret.
Qed.

(** ** Rows the service keeps itself *)

Lemma upsert_config_ok merge suffix u c :
  (∀ old new, same_repo new old = true → rc_normal (stored_model old) ∧ rc_valid (stored_model old) →
     rc_normal (stored_model new) ∧ rc_valid (stored_model new) →
     (rc_normal (stored_model (merge old new)) ∧ rc_valid (stored_model (merge old new))) ∧
     (merge old new).(c_RepositoryUUID) = old.(c_RepositoryUUID) ∧ c_Snapshot (merge old new) = c_Snapshot old) →
  hoare (λ d, repo_ok d ∧ upload_ok c d) (upsert_config merge suffix u c) (λ _, repo_ok) (λ _, repo_ok).
Proof.
  intros Hm. eapply (hoare_bind _ _ _ (λ _ d, repo_ok d ∧ upload_ok c d)).
  { eapply hoare_conseq; [apply (maybe_label_ok (λ d, repo_ok d ∧ upload_ok c d))|done..|by intros ? ? []]. }
  intros found. destruct (BeforeCreate _ _ _) as [msg|m] eqn:E; [by apply hoare_ret; intros ? []|]. apply before_create_model in E.
  apply hoare_call; [naive_solver|]. intros d [Hok Hup]. destruct (first_row _ _) as [[k old]|] eqn:Hf.
  - apply first_row_Some in Hf as [Hk [Hl Hs]%andb_true_iff]. simpl in Hl, Hs.
    destruct (Hm _ _ Hs (ok_valid d Hok _ _ Hk) E) as (Hv & Hr & Hsn). destruct (config_violation k _ d) eqn:Ev; simpl; [done|].
    apply repo_ok_insert; [done..|]. intros r. rewrite Hr, Hsn. destruct (ok_refs d Hok _ _ Hk) as (r' & Hr' & Hs'). rewrite Hr'. by intros [= <-].
  - destruct (bool_decide _); simpl; [done|]. destruct (config_violation u _ d) eqn:Ev; simpl; [done|]. by apply repo_ok_insert.
Qed.

Lemma merge_predefined_ok old new :
  same_repo new old = true → rc_normal (stored_model old) ∧ rc_valid (stored_model old) → rc_normal (stored_model new) ∧ rc_valid (stored_model new) →
  (rc_normal (stored_model (merge_predefined old new)) ∧ rc_valid (stored_model (merge_predefined old new))) ∧
  (merge_predefined old new).(c_RepositoryUUID) = old.(c_RepositoryUUID) ∧ c_Snapshot (merge_predefined old new) = c_Snapshot old.
Proof.
  intros [Ho _]%andb_true_iff [Hn Hv] [[? ? ? ?] Hv']. split; [|done]. split; [by split|]. unfold rc_valid in *. simpl in *. naive_solver.
Qed.

Lemma merge_lightwell_ok old new :
  same_repo new old = true → rc_normal (stored_model old) ∧ rc_valid (stored_model old) → rc_normal (stored_model new) ∧ rc_valid (stored_model new) →
  (rc_normal (stored_model (merge_lightwell old new)) ∧ rc_valid (stored_model (merge_lightwell old new))) ∧
  (merge_lightwell old new).(c_RepositoryUUID) = old.(c_RepositoryUUID) ∧ c_Snapshot (merge_lightwell old new) = c_Snapshot old.
Proof.
  intros [Ho _]%andb_true_iff [[? ? ? ?] Hv] [_ Hv']. split; [|done]. split; [by split|]. unfold rc_valid in *. simpl in *. naive_solver.
Qed.

(** What an upsert of repositories may do to the table. *)
Definition repos_from (m0 m : gmap uuid RepositoryRow) : Prop :=
  (∀ k r, m0 !! k = Some r → ∃ r', m !! k = Some r' ∧ r_origin r' = r_origin r) ∧
  (∀ k k' r r', m !! k = Some r → m !! k' = Some r' → same_url r (k', r') = true → k = k') ∧
  (∀ k r, m !! k = Some r → r_origin r = OriginUpload → r_url r = "").

Lemma repos_from_new m0 m u row :
  repos_from m0 m → m0 !! u = None → first_row (same_url row) m = None → (r_origin row = OriginUpload → r_url row = "") →
  repos_from m0 (<[u := row]> m).
Proof.
  intros (H1 & H2 & H3) Hu Hn Hb. split_and!.
  - intros k r Hk. destruct (H1 k r Hk) as (r' & Hr' & Ho). exists r'. split; [|done]. rewrite lookup_insert_ne; [done|]. intros <-. by rewrite Hk in Hu.
  - intros k k' r r' [[<- <-]|[Hne Hk]]%lookup_insert_Some [[<- <-]|[Hne' Hk']]%lookup_insert_Some Hs; [done| | |by eapply H2].
    + by rewrite (first_row_None _ _ _ _ Hn Hk') in Hs.
    + apply (same_url_sym _ _ k) in Hs. by rewrite (first_row_None _ _ _ _ Hn Hk) in Hs.
  - intros k r [[<- <-]|[Hne Hk]]%lookup_insert_Some; [done|by eapply H3].
Qed.

Lemma repos_from_same m0 m k old new :
  repos_from m0 m → m !! k = Some old → r_url new = r_url old → r_origin new = r_origin old → repos_from m0 (<[k := new]> m).
Proof.
  intros (H1 & H2 & H3) Hk Hu Ho.
  assert (∀ j r, <[k := new]> m !! j = Some r → ∃ r', m !! j = Some r' ∧ r_url r = r_url r' ∧ r_origin r = r_origin r') as Hback.
  { intros j r [[<- <-]|[Hne Hj]]%lookup_insert_Some; eauto. }
  split_and!.
  - intros j r Hj. destruct (H1 j r Hj) as (r' & Hr' & Ho'). destruct (decide (j = k)) as [->|].
    + exists new. rewrite lookup_insert_eq. simplify_eq. by rewrite Ho.
    + exists r'. by rewrite lookup_insert_ne.
  - intros j j' r r' (x & Hx & Hux & Hox)%Hback (x' & Hx' & Hux' & Hox')%Hback Hs. eapply (H2 j j' x x'); [done..|].
    unfold same_url in *. simpl in *. by rewrite <- Hux, <- Hox, <- Hux', <- Hox'.
  - intros j r (x & Hx & Hux & Hox)%Hback. rewrite Hux, Hox. by eapply H3.
Qed.

Lemma repo_ok_from d m : repo_ok d → repos_from d.(repositories) m → repo_ok (set_repositories (λ _, m) d).
Proof. intros Hok (H1 & H2 & H3). by apply repo_ok_repositories. Qed.

Lemma repos_from_refl d : repo_ok d → repos_from d.(repositories) d.(repositories).
Proof. intros Hok. split_and!; [eauto|by eapply ok_urls|by eapply ok_blank]. Qed.

Lemma prepare_all_blank rows l : prepare_all valid_uri now rows = inr l → Forall (λ kr, r_origin kr.2 = OriginUpload → r_url kr.2 = "") l.
Proof.
  revert l. induction rows as [|[u r] rows IH]; intros l; simpl; [by intros [= <-]|].
  destruct (prepare_repository _ _ r) as [|row] eqn:E; [done|]. destruct (prepare_all _ _ rows) as [|l']; [done|]. intros [= <-].
  constructor; [by apply prepare_upload in E as [? _]|by apply IH].
Qed.

Lemma upsert_fold_ok m0 rows m :
  Forall (λ kr, r_origin kr.2 = OriginUpload → r_url kr.2 = "") rows → (∀ kr, kr ∈ rows → m0 !! kr.1 = None) → repos_from m0 m →
  repos_from m0 (foldl (λ m kr, match first_row (same_url kr.2) m with
                                | Some (k, old) => <[k := set_public (r_public kr.2) old]> m
                                | None => <[kr.1 := kr.2]> m
                                end) m rows).
Proof.
  revert m. induction rows as [|[u row] rows IH]; intros m Hb Hf Hm; simpl; [done|]. apply Forall_cons in Hb as [Hb1 Hb].
  apply IH; [done|intros kr Hkr; apply Hf; by right|]. destruct (first_row _ m) as [[k old]|] eqn:E.
  - apply first_row_Some in E as [Hk _]. by apply (repos_from_same _ _ _ old).
  - apply repos_from_new; [done|apply (Hf (u, row)); left|done..].
Qed.

Lemma rk_upsert_public rows : kept (upsert_public valid_uri now rows).
Proof.
  destruct rows as [|kr rows]; [by apply rk_ret|]. apply rk_call. intros d Hok. destruct (prepare_all _ _ _) as [|l] eqn:E; [done|].
  case_bool_decide; [|done]. destruct (existsb _ l) eqn:Ef; [done|]. simpl. rewrite existsb_false in Ef. apply repo_ok_from; [done|].
  apply upsert_fold_ok; [by eapply prepare_all_blank| |by apply repos_from_refl]. intros kr' Hkr'%Ef. apply bool_decide_eq_false in Hkr'. by apply eq_None_not_Some.
Qed.

Lemma rk_raw {A} (m : DB (db_error + A)) : kept m → kept (raw_checked m).
Proof. intros Hm. apply raw_checked_ok. eapply hoare_conseq; [exact Hm|done| |done]. by intros []. Qed.

Lemma rk_SavePublicRepos ids urls : kept (SavePublicRepos valid_uri now ids urls).
Proof.
  apply rk_bind; [apply rk_raw, rk_upsert_public|]. intros []. apply rk_call. intros d Hok. simpl.
  match goal with |- context [unlist ?l] => set (f := unlist l) end.
  assert (∀ r, r_url (f r) = r_url r ∧ r_origin (f r) = r_origin r) as Hf by (intros r; unfold f, unlist; by destruct (_ && _)).
  apply (repo_ok_repositories d (f <$> d.(repositories))); [done|..].
  - intros k r Hk. exists (f r). split; [apply lookup_fmap_Some; by eauto|apply Hf].
  - intros k k' r r' (x & <- & Hx)%lookup_fmap_Some (x' & <- & Hx')%lookup_fmap_Some. unfold same_url. simpl.
    destruct (Hf x) as [-> ->], (Hf x') as [-> ->]. by apply (ok_urls d Hok k k' x x').
  - intros k r (x & <- & Hx)%lookup_fmap_Some. destruct (Hf x) as [-> ->]. by eapply ok_blank.
Qed.

(** The repository is read back before its configuration is stored. *)
Lemma read_back_ok p :
  (∀ kr, p kr = true → r_origin kr.2 ≠ OriginUpload) →
  hoare repo_ok (db_call (λ d, (or_not_found (first_row p d.(repositories)), d)) : DB (uuid * RepositoryRow))
    (λ kr d, repo_ok d ∧ repo_at false kr d) (λ _, repo_ok).
Proof.
  intros Hp. apply hoare_call; [done|]. intros d Hok. destruct (first_row p _) as [[k r]|] eqn:E; simpl; [|done].
  apply first_row_Some in E as [Hk Hpk]. split; [done|]. split; [done|]. intros _. by apply Hp in Hpk.
Qed.

Lemma rk_RefreshPredefined suffix ru cu req label feature :
  kept (InternalOnly_RefreshPredefinedSnapshotRepo valid_uri now suffix ru cu req label feature).
Proof.
  unfold InternalOnly_RefreshPredefinedSnapshotRepo. cbn -[upsert_public]. set (origin := default "" req.(rq_Origin)).
  assert (∀ org, (if origin == OriginRedHat then Some RedHatOrg else if origin == OriginCommunity then Some CommunityOrg else None) = Some org →
    origin ≠ OriginUpload) as Ho.
  { intros org. case_bool_decide as H1; [by rewrite H1|]. case_bool_decide as H2; [by rewrite H2|done]. }
  destruct (if origin == OriginRedHat then _ else _) as [org|]; [|apply rk_throw].
  apply rk_bind; [apply rk_raw, rk_upsert_public|]. intros []. eapply hoare_bind; [apply read_back_ok|].
  - intros kr [_ Hk]%andb_true_iff. apply bool_decide_eq_true in Hk. rewrite Hk. by eapply Ho.
  - intros [repo row]. apply raw_checked_ok. eapply hoare_conseq; [apply upsert_config_ok; apply merge_predefined_ok| | |done]; [|by intros []].
    intros d [Hok Hat]. split; [done|]. by eapply (repo_at_upload_ok false (repo, row)).
Qed.

Lemma rk_RefreshLightwell suffix ru cu org name sec ct url path feature :
  kept (InternalOnly_RefreshLightwellRepo valid_uri now suffix ru cu org name sec ct url path feature).
Proof.
  unfold InternalOnly_RefreshLightwellRepo. apply rk_bind.
  { apply rk_raw, rk_call. intros d Hok. set (r := mk_RepositoryRow _ _ _ _ _).
    assert (∃ row, prepare_repository valid_uri now r = inr row ∧ r_url row = "" ∧ r_origin row = OriginLightwell) as (row & -> & Hu & Ho) by by eexists.
    destruct (bool_decide _) eqn:Hb; [done|]. apply bool_decide_eq_false, eq_None_not_Some in Hb. destruct (first_row _ _) as [[k old]|] eqn:E; simpl.
    - apply first_row_Some in E as [Hk _]. apply repo_ok_from; [done|]. by eapply repos_from_same; [apply repos_from_refl|..].
    - apply repo_ok_new; [done..| |by rewrite Ho]. intros kr _. unfold same_url. rewrite Hu. by rewrite bool_decide_true. }
  intros []. eapply hoare_bind; [apply read_back_ok|].
  - intros kr [_ Hk]%andb_true_iff. apply bool_decide_eq_true in Hk. by rewrite Hk.
  - intros [repo row]. apply raw_checked_ok. eapply hoare_conseq; [apply upsert_config_ok; apply merge_lightwell_ok| | |done]; [|by intros []].
    intros d [Hok Hat]. split; [done|]. by eapply (repo_at_upload_ok false (repo, row)).
Qed.

End Ops.
