(* ===== verification/RepoConfigInv.v ===== *)
(** * Repository configurations: any sequence of operations, organizations, bulk requests

    The invariant of [RepoConfigThms.v] along every sequence of operations; what an operation of one organization may touch; and
    the bulk operations, which either do everything or nothing. *)

From S2P Require Import Prelude GoStrings GoSplit Config TxMonad Utils Models Errors DaoHelpers GoText SnapshotDao SnapshotThms TemplateDao SnapshotHandler SnapshotHandlerThms TemplateInv RepoConfigDao RepoConfigThms.
From stdpp Require Import options.

Open Scope string_scope.

(** ** Any sequence of operations *)

Section Steps.
Context `{UT : UuidText} (valid_uri : string → bool).

Inductive rstep (d d' : db) : Prop :=
  | rstep_create now tasks suffix ru cu req : runs (RepoConfig_Create valid_uri now tasks suffix ru cu req) d d' → rstep d d'
  | rstep_bulk_create now suffix reqs : runs (RepoConfig_BulkCreate valid_uri now suffix reqs) d d' → rstep d d'
  | rstep_update now tasks ru org x params : runs (RepoConfig_Update valid_uri now tasks ru org x params) d d' → rstep d d'
  | rstep_reset x : runs (InternalOnly_ResetFailedSnapshotCount x) d d' → rstep d d'
  | rstep_increment x : runs (InternalOnly_IncrementFailedSnapshotCount x) d d' → rstep d d'
  | rstep_task tasks t org repo : runs (UpdateLastSnapshotTask tasks t org repo) d d' → rstep d d'
  | rstep_last org rc snap : runs (UpdateLastSnapshot org rc snap) d d' → rstep d d'
  | rstep_public now ids urls : runs (SavePublicRepos valid_uri now ids urls) d d' → rstep d d'
  | rstep_soft_delete now org x : runs (RepoConfig_SoftDelete now org x) d d' → rstep d d'
  | rstep_delete org x : runs (RepoConfig_Delete org x) d d' → rstep d d'
  | rstep_bulk_delete now tasks org uuids : runs (RepoConfig_BulkDelete now tasks org uuids) d d' → rstep d d'
  | rstep_import now tasks suffix reqs : runs (BulkImport valid_uri now tasks suffix reqs) d d' → rstep d d'
  | rstep_predefined now suffix ru cu req label feature :
      runs (InternalOnly_RefreshPredefinedSnapshotRepo valid_uri now suffix ru cu req label feature) d d' → rstep d d'
  | rstep_lightwell now suffix ru cu org name sec ct url path feature :
      runs (InternalOnly_RefreshLightwellRepo valid_uri now suffix ru cu org name sec ct url path feature) d d' → rstep d d'.

Lemma rk_runs {A} (m : DB A) d d' : kept m → runs m d d' → repo_ok d → repo_ok d'.
Proof. intros Hm (fs & r & fs' & Hrun) Hok. specialize (Hm fs d Hok). rewrite Hrun in Hm. by destruct r. Qed.

Lemma rstep_kept d d' : rstep d d' → repo_ok d → repo_ok d'.
Proof.
  destruct 1 as [? ? ? ? ? ? Hr|? ? ? Hr|? ? ? ? ? ? Hr|? Hr|? Hr|? ? ? ? Hr|? ? ? Hr|? ? ? Hr|? ? ? Hr|? ? Hr|? ? ? ? Hr|? ? ? ? Hr
                |? ? ? ? ? ? ? Hr|? ? ? ? ? ? ? ? ? ? ? Hr]; (eapply rk_runs; [clear Hr|exact Hr]).
  - apply rk_Create.
  - apply rk_bind; [apply rk_bulk_transaction; intros ? [[? ?] ?] ?; apply rk_bulk_create_one|].
    intros r. destruct reqs; [apply rk_throw|apply rk_ret].
  - apply rk_Update.
  - apply rk_ResetFailed.
  - apply rk_IncrementFailed.
  - apply rk_UpdateLastSnapshotTask.
  - apply rk_UpdateLastSnapshot.
  - apply rk_SavePublicRepos.
  - apply rk_SoftDelete.
  - apply rk_Delete.
  - apply rk_bind; [apply rk_bulk_transaction; intros; apply rk_bulk_delete_one|intros []; apply rk_ret].
  - apply rk_bulk_transaction. intros ? [[[? ?] ?] ?] ?. apply rk_import_one.
  - apply rk_RefreshPredefined.
  - apply rk_RefreshLightwell.
Qed.

(** [C15] Consistent configurations. Along any sequence of the operations on repository configurations, with any failures of the
    database: no two live configurations of an organization share a name, a label or a repository; a URL and an origin
    determine the repository, and one for uploads has no URL; every configuration refers to a repository, takes snapshots if
    that is for uploads, and is valid and normalised. *)
Theorem repo_config_invariant d d' : rtc rstep d d' → repo_ok d → repo_ok d'.
Proof. induction 1; eauto using rstep_kept. Qed.
End Steps.

(** ** What an operation moves *)

Section Moves.
Context {D E : Type} (R : D → D → Prop) `{!PreOrder R}.
#[local] Set Default Proof Using "Type*".

Definition moves {A} (m : M D E A) : Prop := ∀ w, R w.2 (m w).2.2.

Lemma moves_ret {A} (a : A) : moves (mret a).
Proof. by intros w. Qed.
Lemma moves_throw {A} e : moves (throw e : M D E A).
Proof. by intros w. Qed.
Lemma moves_keeps {A} (m : M D E A) : keeps m → moves m.
Proof. intros Hm [fs d]. destruct (m (fs, d)) as [r [fs' d']] eqn:E1. by rewrite (Hm _ _ _ _ _ E1). Qed.
Lemma moves_map_err {A} g (m : M D E A) : moves m → moves (map_err g m).
Proof. intros Hm w. specialize (Hm w). unfold map_err. by destruct (m w) as [[e|a] w']. Qed.
Lemma moves_bind {A B} (m : M D E A) (k : A → M D E B) : moves m → (∀ a, moves (k a)) → moves (m ≫= k).
Proof.
  intros Hm Hk w. specialize (Hm w). unfold mbind, M_bind. destruct (m w) as [[e|a] w']; [done|]. etrans; [done|apply (Hk a w')].
Qed.
Lemma call_moves {A} (f : D → (E + A) * D) fs d : R d (f d).2 → R d (db_call f (fs, d)).2.2.
Proof. intros Hf. unfold db_call. destruct fs as [|[e|] fs]; simpl; [|done|]; by destruct (f d) as [r d']. Qed.
Lemma moves_call {A} (f : D → (E + A) * D) : (∀ d, R d (f d).2) → moves (db_call f).
Proof. intros Hf [fs d]. by apply call_moves. Qed.
End Moves.

Lemma moves_repo_checked R `{!PreOrder R} `{UuidText} {A} o (m : DB (db_error + A)) : moves R m → moves R (repo_checked o m).
Proof. intros Hm. apply moves_bind; [done|by apply moves_map_err|]. intros []; [by apply moves_throw|by apply moves_ret]. Qed.

Lemma hoare_assume {A} (m : DB A) (P : db → Prop) (φ : Prop) Q R : (φ → hoare P m Q R) → hoare (λ d, P d ∧ φ) m Q R.
Proof. intros Hm fs d [HP Hφ]. by apply Hm. Qed.

Lemma moves_or_none R `{!PreOrder R} `{UuidText} {A} (m : DB A) : moves R m → moves R (or_none m).
Proof. intros Hm w. specialize (Hm w). unfold or_none. destruct (m w) as [[e|a] w']; [|done]. by destruct (is_record_not_found e). Qed.

Lemma moves_bulk R `{!PreOrder R} {A B} (one : db → A → DB B) items :
  Forall (λ x, ∀ d0 w, R d0 w.2 → R d0 (one d0 x w).2.2) items → moves R (bulk_transaction one items).
Proof.
  intros Hone. assert (∀ d0 w, R d0 w.2 → R d0 (bulk_loop one d0 items w).2.2) as Hloop.
  { intros d0. induction Hone as [|x items Hx _ IH]; [done|]. intros w Hw. simpl. specialize (Hx d0 w Hw).
    assert (∀ y w', R d0 w'.2 → R d0 ((rest ← bulk_loop one d0 items; mret (y :: rest)) w').2.2) as Hk.
    { intros y w' Hw'. specialize (IH w' Hw'). unfold mbind, M_bind. by destruct (bulk_loop _ _ _ w') as [[e|l] w'']. }
    by destruct (one d0 x w) as [[e|b] [fs' d']]; simpl in *; apply Hk. }
  intros [fs d]. unfold bulk_transaction. destruct (db_noop (fs, d)) as [[e|[]] [fs1 d1]] eqn:E; [by apply noop_inl in E as ->|].
  apply noop_inr in E as ->. specialize (Hloop d (fs1, d) (reflexivity _)).
  destruct (bulk_loop one d items (fs1, d)) as [[e|l] [fs2 d2]]; [done|]. simpl in *. destruct (bulk_result l) as [rs errs].
  destruct (0 <? length errs)%nat; [by destruct fs2 as [|[] ?]|].
  by destruct fs2 as [|[] ?].
Qed.

Lemma moves_from R `{!PreOrder R} {A} (m : DB A) d0 w : moves R m → R d0 w.2 → R d0 (m w).2.2.
Proof. intros Hm Hw. etrans; [done|apply Hm]. Qed.

(** ** Organizations *)

(** Between [d] and [d'] only configurations of [org] have changed; repositories have been added only. *)
Record only_org (org : string) (d d' : db) : Prop := {
  oo_before u c : d.(configs) !! u = Some c → c.(c_OrgID) ≠ org → d'.(configs) !! u = Some c;
  oo_after u c : d'.(configs) !! u = Some c → c.(c_OrgID) ≠ org → d.(configs) !! u = Some c;
  oo_repositories k r : d.(repositories) !! k = Some r → d'.(repositories) !! k = Some r;
  oo_snapshots : d'.(snapshots) = d.(snapshots);
  oo_templates : d'.(templates) = d.(templates);
  oo_contents tu u x c : d.(trcs) !! (tu, u) = Some x → d.(configs) !! u = Some c → c.(c_OrgID) ≠ org → d'.(trcs) !! (tu, u) = Some x;
  oo_new_contents k x : d'.(trcs) !! k = Some x → d.(trcs) !! k = Some x
}.

#[global] Instance only_org_preorder org : PreOrder (only_org org).
Proof. split; [by split|]. intros d1 d2 d3 [a1 a2 a3 a4 a5 a6 a7] [b1 b2 b3 b4 b5 b6 b7]. split; eauto; congruence. Qed.

Lemma only_org_configs org f d :
  (∀ u c, d.(configs) !! u = Some c → c.(c_OrgID) ≠ org → f d.(configs) !! u = Some c) →
  (∀ u c, f d.(configs) !! u = Some c → c.(c_OrgID) ≠ org → d.(configs) !! u = Some c) → only_org org d (set_configs f d).
Proof. by split. Qed.

Lemma only_org_insert org u c d :
  c.(c_OrgID) = org → (∀ c', d.(configs) !! u = Some c' → c'.(c_OrgID) = org) → only_org org d (set_configs <[u := c]> d).
Proof.
  intros Hc Hu. apply only_org_configs.
  - intros k c' Hk Hne. rewrite lookup_insert_ne; [done|]. intros <-. by apply Hu in Hk.
  - intros k c' [[<- <-]|[_ Hk]]%lookup_insert_Some Hne; [done|exact Hk].
Qed.

Lemma only_org_alter org u f d :
  (∀ c, d.(configs) !! u = Some c → c.(c_OrgID) = org ∧ (f c).(c_OrgID) = org) → only_org org d (set_configs (alter f u) d).
Proof.
  intros Hu. apply only_org_configs.
  - intros k c Hk Hne. destruct (decide (k = u)) as [->|Hku]; [by apply Hu in Hk as []|by rewrite lookup_alter_ne].
  - intros k c Hk Hne. destruct (decide (k = u)) as [->|Hku]; [|by rewrite lookup_alter_ne in Hk].
    rewrite lookup_alter_eq in Hk. apply fmap_Some in Hk as (c0 & Hk & ->). by apply Hu in Hk as [_ ?].
Qed.

Section Org.
Context `{UT : UuidText} (org : string).

Lemma oo_insert_repository valid_uri now u r : moves (only_org org) (insert_repository valid_uri now u r).
Proof.
  apply (moves_call (only_org org)). intros d. destruct (prepare_repository _ _ r) as [msg|row]; [done|].
  case_bool_decide as Hu; [done|]. repeat case_match; try done. simpl. split; simpl; try done.
  intros k r' Hk. rewrite lookup_insert_ne; [done|]. intros <-. by apply Hu.
Qed.

Lemma oo_first_or_create valid_uri now p u r : moves (only_org org) (first_or_create valid_uri now p u r).
Proof.
  apply (moves_bind (only_org org)); [by apply (moves_call (only_org org))|]. intros []; [apply (moves_ret (only_org org))|apply oo_insert_repository].
Qed.

Lemma oo_label_found c : moves (only_org org) (if (c.(c_OrgID) == RedHatOrg) || (c.(c_OrgID) == CommunityOrg) then mret None else label_found c.(c_OrgID) (c_Name c)).
Proof.
  destruct (_ || _); [apply (moves_ret (only_org org))|]. intros [fs d]. unfold label_found, db_call. by destruct fs as [|[e|] fs].
Qed.

Lemma oo_insert_config u c : c.(c_OrgID) = org → moves (only_org org) (insert_config u c).
Proof.
  intros Hc. apply (moves_call (only_org org)). intros d. case_bool_decide as Hu; [done|]. destruct (config_violation _ _ _); [done|]. simpl.
  apply only_org_insert; [done|]. intros c' Hc'. contradict Hu. by eexists.
Qed.

Lemma oo_create_config valid_uri now suffix u assoc c :
  c.(c_OrgID) = org → moves (only_org org) (create_config valid_uri now suffix u assoc c).
Proof.
  intros Hc. apply (moves_bind (only_org org)); [apply oo_label_found|]. intros found.
  destruct (BeforeCreate _ _ _) as [msg|m]; [apply (moves_ret (only_org org))|]. apply (moves_bind (only_org org)); [..].
  - destruct assoc as [[au ar]|]; [apply oo_insert_repository|apply (moves_ret (only_org org))].
  - intros [e|[repo ar]]; [apply (moves_ret (only_org org))|]. apply (moves_bind (only_org org)); [by apply oo_insert_config|].
    intros; apply (moves_ret (only_org org)).
Qed.

Context (valid_uri : string → bool) (now : time) (tasks : gmap uuid TaskView).
#[local] Set Default Proof Using "Type*".

Lemma oo_fetch x sh : moves (only_org org) (fetch_loaded tasks org x sh).
Proof. apply (moves_keeps (only_org org)). apply (fetch_loaded_keeps tasks). Qed.

Ltac refuse := match goal with |- moves _ (if ?b then throw _ else _) => destruct b; [apply (moves_throw (only_org org))|] end.

Lemma oo_Create suffix ru cu req : req.(rq_OrgID) = org → moves (only_org org) (RepoConfig_Create valid_uri now tasks suffix ru cu req).
Proof.
  intros Ho. unfold RepoConfig_Create. do 5 refuse. cbv zeta. refuse. simpl. apply (moves_bind (only_org org)); [apply (moves_repo_checked (only_org org))|].
  { destruct (_ || _); [apply oo_insert_repository|apply oo_first_or_create]. }
  intros [repo row]. apply (moves_bind (only_org org)); [apply (moves_repo_checked (only_org org)); by apply oo_create_config|]. intros [[u c] r].
  apply (moves_bind (only_org org)); [ |intros; apply (moves_ret (only_org org))]. apply (moves_map_err (only_org org)). unfold fetch_loaded.
  apply (moves_keeps (only_org org)). apply (fetch_loaded_keeps tasks).
Qed.

Lemma oo_bulk_create_one suffix ru cu req : req.(rq_OrgID) = org → moves (only_org org) (bulk_create_one valid_uri now suffix ru cu req).
Proof.
  intros Ho. unfold bulk_create_one. cbv zeta. do 5 refuse. simpl. apply (moves_bind (only_org org)); [apply (moves_repo_checked (only_org org))|].
  { case_bool_decide; [apply oo_insert_repository|apply oo_first_or_create]. }
  intros [repo row]. apply (moves_bind (only_org org)); [apply (moves_repo_checked (only_org org)); by apply oo_create_config|]. intros [[u c] r].
  apply (moves_ret (only_org org)).
Qed.

Lemma oo_soft_delete u d0 : (∀ c, d0.(configs) !! u = Some c → c.(c_OrgID) = org) → ∀ fs, only_org org d0 (soft_delete_config now u (fs, d0)).2.2.
Proof.
  intros Hu fs. assert (only_org org d0 (set_configs (alter (λ c, if config_live c then set_config_deleted (Some now) c else c) u) d0)) as H.
  { apply only_org_alter. intros c Hc. split; [by apply Hu|]. destruct (config_live c); simpl; by apply Hu. }
  by apply (call_moves (only_org org)).
Qed.

Lemma oo_SoftDelete x : moves (only_org org) (RepoConfig_SoftDelete now org x).
Proof.
  intros [fs d]. unfold RepoConfig_SoftDelete, mbind at 1, M_bind at 1. set (m := map_err _ _).
  destruct (m (fs, d)) as [[e|[u c]] [fs' d']] eqn:E.
  - assert (keeps m) as Hk by (apply keeps_map_err, keeps_call; intros ?; by destruct (pg_uuid x)). by apply Hk in E as ->.
  - apply map_err_inr, call_inr in E. destruct (pg_uuid x) as [v|]; [|done]. destruct (configs d !! v) as [c0|] eqn:Hv; [|done]. simpl in E.
    destruct (bool_decide _) eqn:Ho; [|done]. apply bool_decide_eq_true in Ho. injection E as <- <- <-. simpl. destruct (config_live c0); [|done].
    apply oo_soft_delete. intros c' Hc'. by simplify_eq.
Qed.

Lemma oo_Delete x : moves (only_org org) (RepoConfig_Delete org x).
Proof.
  intros [fs d]. unfold RepoConfig_Delete, mbind at 1, M_bind at 1. set (m := map_err _ _).
  destruct (m (fs, d)) as [[e|[u c]] [fs' d']] eqn:E.
  - assert (keeps m) as Hk by by apply keeps_map_err, keeps_call. by apply Hk in E as ->.
  - apply map_err_inr, call_inr in E. destruct (configs d !! _) as [c0|] eqn:Hv; [|done]. simpl in E.
    destruct (bool_decide _) eqn:Ho; [|done]. apply bool_decide_eq_true in Ho. injection E as <- <- <-. 
    apply (call_moves (only_org org)). destruct (existsb _ _); [done|]. split; simpl; try done.
    + intros k c' Hk Hne. rewrite lookup_delete_ne; [done|]. intros <-. by simplify_eq.
    + intros k c' Hk%lookup_delete_Some. naive_solver.
    + intros tu k y c' Hy Hk Hne. apply map_lookup_filter_Some. split; [done|]. simpl. intros ->. by simplify_eq.
    + intros k y Hy%map_lookup_filter_Some. naive_solver.
Qed.

Lemma fetch_own x fs d l fs' d' :
  fetch_loaded tasks org x false (fs, d) = (inr l, (fs', d')) →
  d' = d ∧ d.(configs) !! l.(l_UUID) = Some l.(l_Config) ∧ l.(l_Config).(c_OrgID) = org.
Proof.
  intros E. pose proof (fetch_loaded_keeps tasks _ _ _ _ _ _ _ _ E) as ->. split; [done|]. apply bind_inr in E as ([rc c] & [fs1 d1] & Hf & Hp).
  unfold fetchRepoConfig in Hf. apply map_err_inr, call_inr in Hf. apply map_err_inr, call_inr in Hp.
  destruct (configs d !! _) as [c0|] eqn:Hc; [|done]. destruct (_ && _) eqn:Hb; [|done]. injection Hf as <- <- <-. injection Hp as <-.
  split; [done|]. apply andb_true_iff in Hb as [_ Ho]. by apply bool_decide_eq_true in Ho.
Qed.

(** The configuration is read as it was before the request. *)
Lemma oo_bulk_delete_one x d0 w : only_org org d0 w.2 → only_org org d0 (bulk_delete_one now tasks org d0 x w).2.2.
Proof.
  destruct w as [fs d]. intros Hd. unfold bulk_delete_one, mbind at 1, M_bind at 1. unfold map_err at 1, read_at.
  destruct (fetch_loaded tasks org x false (fs, d0)) as [[e|l] [fs' d']] eqn:E; [done|]. apply fetch_own in E as (-> & Hl & Ho).
  assert (only_org org d (soft_delete_config now l.(l_UUID) (fs', d)).2.2) as Hs.
  { apply oo_soft_delete. intros c Hc. destruct (decide (c.(c_OrgID) = org)) as [|Hne]; [done|]. apply (oo_after _ _ _ Hd) in Hc; [|done].
    by simplify_eq. }
  unfold mbind, M_bind, map_err. destruct (soft_delete_config now l.(l_UUID) (fs', d)) as [[e|[]] w']; simpl in *; by etrans.
Qed.

Lemma oo_import_one suffix ru au cu req : req.(rq_OrgID) = org → moves (only_org org) (import_one valid_uri now tasks suffix ru au cu req).
Proof.
  intros Ho. unfold import_one. cbv zeta. simpl.
  assert (∀ kc : uuid * ConfigRow, moves (only_org org) (map_err (λ e, RepositoryDBErrorToApi e None) (preload_associations tasks kc))) as Hp.
  { intros kc. apply (moves_map_err (only_org org)). by apply (moves_call (only_org org)). }
  match goal with |- moves _ (if ?b then _ else _) => destruct b end.
  { apply (moves_bind (only_org org)); [|intros kc; apply (moves_bind (only_org org)); [done|intros; apply (moves_ret (only_org org))]].
    intros [fs d]. destruct (config_by_url _ _ (fs, d)) as [[e|a] [fs' d']] eqn:E; simpl;
      (assert (keeps (config_by_url (CleanupURL (default "" req.(rq_URL))) [CommunityOrg])) as Hk by by apply keeps_call); by apply Hk in E as ->. }
  refuse. case_bool_decide.
  - apply (moves_bind (only_org org)); [|intros [l []]; apply (moves_ret (only_org org))]. unfold importUploadRepository.
    apply (moves_bind (only_org org)); [by apply (moves_or_none (only_org org)), (moves_call (only_org org))|]. intros [[u c]|]; [apply (moves_ret (only_org org))|].
    apply (moves_bind (only_org org)); [apply (moves_repo_checked (only_org org)), oo_insert_repository|]. intros [repo row].
    apply (moves_bind (only_org org)); [apply (moves_repo_checked (only_org org)); by apply oo_create_config|intros [[u c] r]; apply (moves_ret (only_org org))].
  - apply (moves_bind (only_org org)); [by apply (moves_or_none (only_org org)), (moves_call (only_org org))|]. intros [kc|].
    + apply (moves_bind (only_org org)); [|intros [p w]; apply (moves_ret (only_org org))].
      apply (moves_bind (only_org org)); [done|intros; apply (moves_ret (only_org org))].
    + apply (moves_bind (only_org org)); [apply (moves_repo_checked (only_org org)), oo_first_or_create|]. intros [repo row].
      apply (moves_bind (only_org org)); [apply (moves_repo_checked (only_org org)); by apply oo_create_config|intros [[u c] r]; apply (moves_ret (only_org org))].
Qed.

Definition owned (u : uuid) (d : db) : Prop := ∀ c, d.(configs) !! u = Some c → c.(c_OrgID) = org.

Lemma oo_update_config u c d0 :
  c.(c_OrgID) = org →
  hoare (λ d, only_org org d0 d ∧ owned u d) (update_config u c) (λ _ d, only_org org d0 d ∧ owned u d) (λ _ d, only_org org d0 d).
Proof.
  intros Hc. unfold update_config. destruct (BeforeUpdate _) as [msg|m]; [by apply hoare_ret|]. apply hoare_call; [naive_solver|].
  intros d [Hd Hu]. destruct (configs d !! u) as [cur|] eqn:Hcur; [|done]. destruct (config_live cur); [|done]. simpl.
  destruct (config_violation _ _ _); [done|]. split.
  - etrans; [done|]. apply only_org_insert; [done|]. intros c' Hc'. by apply Hu.
  - intros c' Hc'. simpl in Hc'. rewrite lookup_insert_eq in Hc'. by injection Hc' as <-.
Qed.

Lemma oo_update ru x params d0 :
  hoare (eq d0) (RepoConfig_update valid_uri now tasks ru org x params)
    (λ r d, (only_org org d0 d ∧ owned r.1.2 d) ∧ r.2.(c_OrgID) = org) (λ _ _, True).
Proof.
  eapply (hoare_bind _ _ _ (λ l d, d = d0 ∧ owned l.(l_UUID) d ∧ l.(l_Config).(c_OrgID) = org)).
  { intros fs d <-. destruct (fetch_loaded tasks org x false (fs, d0)) as [[e|l] [fs' d']] eqn:E; [done|].
    apply fetch_own in E as (-> & Hl & Ho). split_and!; [done| |done]. intros c Hc. by simplify_eq. }
  intros l. simpl. do 2 (match goal with |- hoare _ (if ?b then _ else _) _ _ => destruct b; [by apply hoare_throw|] end).
  eapply (hoare_bind _ _ _ (λ _ d, (only_org org d0 d ∧ owned l.(l_UUID) d) ∧ l.(l_Config).(c_OrgID) = org)).
  - destruct params.(ru_URL) as [raw|]; [|apply hoare_ret; by intros d (-> & ? & ?)].
    destruct (not_upload l); [|apply hoare_ret; by intros d (-> & ? & ?)].
    eapply (hoare_bind _ _ _ (λ _ d, (only_org org d0 d ∧ owned l.(l_UUID) d) ∧ l.(l_Config).(c_OrgID) = org)); [|intros []; by apply hoare_ret].
    intros fs d (-> & Hu & Ho). set (m := repo_checked _ _).
    assert (moves (only_org org) m) as H1 by apply (moves_repo_checked (only_org org)), oo_first_or_create.
    specialize (H1 (fs, d0)). simpl in H1.
    assert (owned l.(l_UUID) (m (fs, d0)).2.2) as H2.
    { set (F := λ cs : gmap uuid ConfigRow, ∀ c, cs !! l.(l_UUID) = Some c → c.(c_OrgID) = org). change (F (m (fs, d0)).2.2.(configs)).
      apply repo_checked_keeps_configs; [intros w; apply first_or_create_configs|exact Hu]. }
    by destruct (m (fs, d0)) as [[e|a] [fs' d']].
  - intros [repo b]. apply hoare_assume. intros Ho. eapply (hoare_bind _ _ _ (λ _ d, only_org org d0 d ∧ owned l.(l_UUID) d)); [|intros []; by apply hoare_ret].
    apply repo_checked_ok. eapply hoare_conseq; [by apply (oo_update_config _ _ d0)|done| |done]. by intros [].
Qed.

Lemma oo_Update ru x params : moves (only_org org) (RepoConfig_Update valid_uri now tasks ru org x params).
Proof.
  intros [fs d]. enough (hoare (eq d) (RepoConfig_Update valid_uri now tasks ru org x params) (λ _, only_org org d) (λ _, only_org org d)) as H.
  { specialize (H fs d eq_refl). by destruct (RepoConfig_Update _ _ _ _ _ _ _ _) as [[] []]. }
  eapply hoare_bind; [eapply hoare_transaction; [apply oo_update|by intros ? ? <-]|]. intros [[b u] c]. simpl. apply hoare_assume. intros Ho.
  eapply (hoare_bind _ _ _ (λ _, only_org org d)); [|intros []; by apply hoare_ret]. apply repo_checked_ok.
  eapply hoare_conseq; [by apply (oo_update_config _ _ d)|done| |done]. by intros [e|[]] d' [].
Qed.

(** The requests of an organization. *)
Inductive org_step (d d' : db) : Prop :=
  | org_create suffix ru cu req : req.(rq_OrgID) = org → runs (RepoConfig_Create valid_uri now tasks suffix ru cu req) d d' → org_step d d'
  | org_bulk_create suffix reqs :
      Forall (λ x : uuid * uuid * RepositoryRequest, x.2.(rq_OrgID) = org) reqs → runs (RepoConfig_BulkCreate valid_uri now suffix reqs) d d' → org_step d d'
  | org_update ru x params : runs (RepoConfig_Update valid_uri now tasks ru org x params) d d' → org_step d d'
  | org_soft_delete x : runs (RepoConfig_SoftDelete now org x) d d' → org_step d d'
  | org_delete x : runs (RepoConfig_Delete org x) d d' → org_step d d'
  | org_bulk_delete uuids : runs (RepoConfig_BulkDelete now tasks org uuids) d d' → org_step d d'
  | org_import suffix reqs :
      Forall (λ x : uuid * uuid * uuid * RepositoryRequest, x.2.(rq_OrgID) = org) reqs → runs (BulkImport valid_uri now tasks suffix reqs) d d' → org_step d d'.

Lemma moves_runs {A} (m : DB A) d d' : moves (only_org org) m → runs m d d' → only_org org d d'.
Proof. intros Hm (fs & r & fs' & Hrun). specialize (Hm (fs, d)). by rewrite Hrun in Hm. Qed.

Lemma org_step_only d d' : org_step d d' → only_org org d d'.
Proof.
  destruct 1 as [? ? ? ? Ho Hr|? ? Ho Hr|? ? ? Hr|? Hr|? Hr|? Hr|? ? Ho Hr]; (eapply moves_runs; [clear Hr|exact Hr]).
  - by apply oo_Create.
  - apply (moves_bind (only_org org)); [|intros ?; destruct reqs; [apply (moves_throw (only_org org))|apply (moves_ret (only_org org))]].
    apply (moves_bulk (only_org org)). eapply Forall_impl; [exact Ho|]. intros [[ru cu] req] Hq d0 w.
    by apply (moves_from (only_org org)), oo_bulk_create_one.
  - apply oo_Update.
  - apply oo_SoftDelete.
  - apply oo_Delete.
  - apply (moves_bind (only_org org)); [|intros []; apply (moves_ret (only_org org))]. apply (moves_bulk (only_org org)).
    apply Forall_true. intros x d0 w. apply oo_bulk_delete_one.
  - apply (moves_bulk (only_org org)). eapply Forall_impl; [exact Ho|]. intros [[[ru au] cu] req] Hq d0 w.
    by apply (moves_from (only_org org)), oo_import_one.
Qed.

(** [C16] Organizations are apart. Whatever requests an organization makes, and whatever fails: the configurations of the others
    stay as they are and get no new ones, a repository that others may share is never changed or removed, snapshots and
    templates are not touched, and templates lose repositories of that organization only. *)
Theorem org_writes_scoped d d' : rtc org_step d d' → only_org org d d'.
Proof. induction 1; [done|]. etrans; [by apply org_step_only|done]. Qed.
End Org.
