(* ===== verification/RepoConfigCreate.v ===== *)
(** * What creating repository configurations stores

    [Create] answers with what is stored, and [Fetch] gives the same; [BulkCreate] stores every request or none. *)

From S2P Require Import Prelude GoStrings GoSplit Config TxMonad Utils Models Errors DaoHelpers GoText SnapshotDao SnapshotThms TemplateDao SnapshotHandler SnapshotHandlerThms RepoConfigDao RepoConfigThms RepoConfigInv.
From stdpp Require Import options.

Open Scope string_scope.

(** The versions and the architecture as they are stored. *)
Definition stored_versions (v : list string) : list string :=
  match slices_Sort (Deduplicate v) with [] => [ANY_VERSION] | l => l end.
Definition stored_arch (a : string) : string := if a == "" then ANY_ARCH else a.

(** What a request asks for. *)
Record answers (req : RepositoryRequest) (c : ConfigRow) : Prop := {
  an_org : c.(c_OrgID) = req.(rq_OrgID);
  an_account : c.(c_AccountID) = req.(rq_AccountID);
  an_name : c_Name c = default "" req.(rq_Name);
  an_versions : c_Versions c = stored_versions (default [] req.(rq_DistributionVersions));
  an_arch : c_Arch c = stored_arch (default "" req.(rq_DistributionArch));
  an_gpg : c.(c_Fields).(cf_GpgKey) = default "" req.(rq_GpgKey);
  an_verification : c.(c_Fields).(cf_MetadataVerification) = default false req.(rq_MetadataVerification);
  an_hotfixes : c.(c_Fields).(cf_ModuleHotfixes) = default false req.(rq_ModuleHotfixes);
  an_snapshot : c_Snapshot c = default false req.(rq_Snapshot);
  an_live : config_live c = true;
  an_no_snapshot : c.(c_LastSnapshotUUID) = None ∧ c.(c_LastSnapshotTaskUUID) = None
}.

Section Create.
Context `{UL : UuidLaws} (valid_uri : string → bool) (now : time) (tasks : gmap uuid TaskView).
#[local] Set Default Proof Using "Type*".

Lemma repo_checked_inr {A} o (m : DB (db_error + A)) w a w' : repo_checked o m w = (inr a, w') → m w = (inr (inr a), w').
Proof.
  unfold repo_checked. intros ([e|b] & w1 & Hm%map_err_inr & Hr)%bind_inr; [done|]. by apply ret_inr in Hr as [-> ->].
Qed.

Lemma maybe_label_db c fs d r fs' d' :
  (if (c.(c_OrgID) == RedHatOrg) || (c.(c_OrgID) == CommunityOrg) then mret None else label_found c.(c_OrgID) (c_Name c)) (fs, d) = (r, (fs', d')) → d' = d.
Proof.
  destruct (_ || _); [by intros [= <- <- <-]|]. unfold label_found, db_call. destruct fs as [|[e|] fs]; by intros [= <- <- <-].
Qed.

Lemma create_config_run suffix u c fs d u' c' r fs' d' :
  create_config valid_uri now suffix u None c (fs, d) = (inr (inr (u', c', r)), (fs', d')) →
  u' = u ∧ d.(configs) !! u = None ∧ d' = set_configs <[u := c']> d ∧
  ∃ found m, BeforeCreate found suffix (config_model "" c) = inr m ∧ c' = with_model m c.
Proof.
  unfold create_config. intros (found & [fs1 d1] & ->%maybe_label_db & E)%bind_inr.
  destruct (BeforeCreate _ _ _) as [msg|m] eqn:Em; [by apply ret_inr in E as [? _]|].
  apply bind_inr in E as (x & [fs2 d2] & Hx & E). apply ret_inr in Hx as [<- [= <- <-]].
  apply bind_inr in E as (y & [fs3 d3] & Hy%call_inr & E). apply ret_inr in E as [E [= <- <-]].
  destruct (bool_decide (is_Some (configs d !! u))) eqn:Hu; [by injection Hy as <- <-|]. apply bool_decide_eq_false, eq_None_not_Some in Hu.
  destruct (config_violation _ _ _); [by injection Hy as <- <-|]. injection Hy as <- <-. simpl in E. injection E as <- <- <-.
  split_and!; [done..|]. exists (λ _, found), m. by split.
Qed.

Lemma before_create_fields found suffix c m :
  BeforeCreate found suffix (config_model "" c) = inr m →
  m.(rc_Versions) = stored_versions (c_Versions c) ∧ m.(rc_Arch) = stored_arch (c_Arch c).
Proof.
  unfold BeforeCreate. destruct (validate _); [done|]. intros [= <-]. rewrite ReplaceEmptyValues_Versions, ReplaceEmptyValues_Arch.
  set (rc := config_model "" c).
  assert ((SetLabel found suffix rc).(rc_Versions) = rc.(rc_Versions) ∧ (SetLabel found suffix rc).(rc_Arch) = rc.(rc_Arch)) as [Hv Ha]
    by (unfold SetLabel; repeat case_match; done).
  unfold DedupeVersions. simpl. by rewrite Hv, Ha.
Qed.

(** The repository that is found or made has the URL. *)
Lemma find_repository_run (b : bool) ru url origin status fs d repo row fs' d' :
  (if b then insert_repository valid_uri now ru (new_repository url origin status)
   else first_or_create valid_uri now (matches_url_origin (CleanupURL url) origin) ru (new_repository url origin status)) (fs, d)
   = (inr (inr (repo, row)), (fs', d')) →
  d'.(configs) = d.(configs) ∧ d'.(repositories) !! repo = Some row ∧ r_url row = CleanupURL url ∧ (origin ≠ "" → r_origin row = origin).
Proof.
  assert (∀ fs d fs', insert_repository valid_uri now ru (new_repository url origin status) (fs, d) = (inr (inr (repo, row)), (fs', d')) →
    d'.(configs) = d.(configs) ∧ d'.(repositories) !! repo = Some row ∧ r_url row = CleanupURL url ∧ (origin ≠ "" → r_origin row = origin)) as Hi.
  { clear fs d fs'. intros fs d fs' E%call_inr. destruct (prepare_repository _ _ _) as [msg|row'] eqn:Ep; [done|].
    repeat case_match; try done. injection E as <- <- <-. simpl. split_and!; [done|apply lookup_insert_eq|..];
      (unfold prepare_repository, repository_BeforeCreate in Ep; destruct (repository_validate _ _); [done|]; injection Ep as <-).
    - unfold r_url. simpl. by case_bool_decide.
    - intros Ho. unfold r_origin. simpl. case_bool_decide as Hu; simpl; by rewrite bool_decide_false. }
  destruct b; [apply Hi|]. intros ([kr|] & [fs1 d1] & Hf%call_inr & E)%bind_inr.
  - apply ret_inr in E as [[= ->] [= <- <-]]. injection Hf as Hf <-. apply first_row_Some in Hf as [Hk Hp]. unfold matches_url_origin, matches_url in Hp.
    rewrite !andb_true_iff, !bool_decide_eq_true in Hp. simpl in Hp. split_and!; try done; naive_solver.
  - injection Hf as _ <-. by eapply Hi.
Qed.

Lemma answers_new req found suffix m repo :
  let c := new_config (ApiFieldsToModel req).1.1 req.(rq_OrgID) req.(rq_AccountID) repo in
  BeforeCreate found suffix (config_model "" c) = inr m → answers req (with_model m c).
Proof. intros c [Hv Ha]%before_create_fields. unfold c, c_Versions, c_Arch in *. simpl in *. by split. Qed.

(** A configuration without snapshots and tasks. *)
Definition stored_as (d : db) (req : RepositoryRequest) (cu : uuid) (p : RepoResponse) : Prop :=
  ∃ c row, d.(configs) !! cu = Some c ∧ d.(repositories) !! c.(c_RepositoryUUID) = Some row ∧ answers req c ∧
    r_url row = CleanupURL (default "" req.(rq_URL)) ∧ p = ModelToApiFields (mk_Loaded cu c row None None).

(** Looking up a configuration of the own organization. *)
Definition bare (d : db) (cu : uuid) (c : ConfigRow) : Loaded :=
  mk_Loaded cu c (default zero_repository (d.(repositories) !! c.(c_RepositoryUUID))) None None.

Lemma own_org c : contains (shared_repository_orgs c.(c_OrgID)) c.(c_OrgID) = true.
Proof. apply contains_true. by left. Qed.

Lemma fetch_loaded_inr cu c d sh fs l fs' d' :
  d.(configs) !! cu = Some c → c.(c_LastSnapshotUUID) = None ∧ c.(c_LastSnapshotTaskUUID) = None →
  fetch_loaded tasks c.(c_OrgID) (uuid_String cu) sh (fs, d) = (inr l, (fs', d')) → l = bare d cu c ∧ d' = d.
Proof.
  intros Hc [Hs Ht] (x & [fs1 d1] & Hf%map_err_inr%call_inr & Hp%map_err_inr%call_inr)%bind_inr. rewrite Uuidify_String in Hf. cbv zeta in Hf. rewrite Hc in Hf.
  destruct (_ && _) in Hf; [|done]. injection Hf as <- <-. injection Hp as <- <-. unfold load, bare. by rewrite Hs, Ht.
Qed.

Lemma fetch_loaded_eq cu c d sh :
  d.(configs) !! cu = Some c → config_live c = true → c.(c_LastSnapshotUUID) = None ∧ c.(c_LastSnapshotTaskUUID) = None →
  fetch_loaded tasks c.(c_OrgID) (uuid_String cu) sh ([], d) = (inr (bare d cu c), ([], d)).
Proof.
  intros Hc Hl [Hs Ht]. unfold fetch_loaded, fetchRepoConfig, mbind, M_bind, map_err, db_call. rewrite Uuidify_String, Hc, Hl, own_org.
  destruct sh; simpl; rewrite ?bool_decide_true by done; simpl; unfold load, bare; by rewrite Hs, Ht.
Qed.

Lemma Create_run suffix ru cu req fs d p fs' d' :
  RepoConfig_Create valid_uri now tasks suffix ru cu req (fs, d) = (inr p, (fs', d')) →
  d.(configs) !! cu = None ∧ stored_as d' req cu p.
Proof.
  unfold RepoConfig_Create. intros E. do 5 (case_match; [done|]). cbv zeta in E.
  match type of E with context [if ?b then OriginExternal else ?o] => set (origin := if b then OriginExternal else o) in * end.
  case_match; [done|]. simpl in E. apply bind_inr in E as ([repo row] & [fs1 d1] & Hf%repo_checked_inr%find_repository_run & E).
  destruct Hf as (Hc1 & Hrow & Hurl & _). apply bind_inr in E as ([[u c] r] & [fs2 d2] & Hcr%repo_checked_inr%create_config_run & E).
  destruct Hcr as (-> & Hnone & -> & found & m & Hm & ->). pose proof (answers_new req _ _ _ _ Hm) as Ha. simpl in Ha.
  set (c := with_model _ _) in *. apply bind_inr in E as (l & [fs3 d3] & Hl%map_err_inr & E). apply ret_inr in E as [<- [= <- <-]].
  assert ((set_configs <[cu := c]> d1).(configs) !! cu = Some c) as Hcu by apply lookup_insert_eq.
  apply fetch_loaded_inr in Hl as [-> ->]; [|done|by apply Ha]. split; [by rewrite <- Hc1|]. exists c, row. by split_and!.
Qed.

(** [C17] What is created is what is found. When [Create] succeeds, whatever else fails, its UUID is new, the configuration is
    stored live with the fields asked for (versions sorted and without repetition, "any" where there are none) on a
    repository of the cleaned URL, and fetching it as that organization gives the same response. *)
Theorem create_fetch_roundtrip suffix ru cu req fs d p fs' d' enabled path :
  RepoConfig_Create valid_uri now tasks suffix ru cu req (fs, d) = (inr p, (fs', d')) →
  d.(configs) !! cu = None ∧ stored_as d' req cu p ∧
  run (RepoConfig_Fetch tasks enabled path req.(rq_OrgID) (uuid_String cu)) d' = (inr p, d').
Proof.
  intros [Hn Hs]%Create_run. split; [done|]. split; [done|]. destruct Hs as (c & row & Hc & Hr & Ha & _ & ->).
  unfold run, RepoConfig_Fetch. rewrite <- (an_org _ _ Ha).
  erewrite bind_eq by (apply fetch_loaded_eq; [done|apply Ha..]). simpl. unfold override_one, IsForeignPartnerView, bare. simpl.
  rewrite (bool_decide_true (c_OrgID c = c_OrgID c)), andb_false_r by done. simpl. by rewrite Hr.
Qed.

(** ** Bulk requests *)

Definition grows (d d' : db) : Prop := d.(configs) ⊆ d'.(configs) ∧ d.(repositories) ⊆ d'.(repositories).
#[local] Instance grows_preorder : PreOrder grows.
Proof. split; [done|]. intros d1 d2 d3 [] []. split; by etrans. Qed.

Lemma grows_stored d d' req cu p : grows d d' → stored_as d req cu p → stored_as d' req cu p.
Proof. intros [Hc Hr] (c & row & H1 & H2 & Ha & Hp). exists c, row. split_and!; [by eapply lookup_weaken..|done|apply Hp|apply Hp]. Qed.

Lemma bulk_create_one_run suffix ru cu req fs d p fs' d' :
  bulk_create_one valid_uri now suffix ru cu req (fs, d) = (inr p, (fs', d')) →
  d.(configs) !! cu = None ∧ stored_as d' req cu p ∧ grows d d'.
Proof.
  intros E0. pose proof (oo_bulk_create_one req.(rq_OrgID) valid_uri now suffix ru cu req eq_refl (fs, d)) as Hm. rewrite E0 in Hm. simpl in Hm.
  unfold bulk_create_one in E0. cbv zeta in E0. do 5 (case_match; [done|]). simpl in E0.
  apply bind_inr in E0 as ([repo row] & [fs1 d1] & Hf%repo_checked_inr%find_repository_run & E).
  destruct Hf as (Hc1 & Hrow & Hurl & _). apply bind_inr in E as ([[u c] r] & [fs2 d2] & Hcr%repo_checked_inr%create_config_run & E).
  destruct Hcr as (-> & Hnone & -> & found & m & Hb & ->). pose proof (answers_new req _ _ _ _ Hb) as Ha. simpl in Ha.
  apply ret_inr in E as [<- [= <- <-]]. rewrite Hc1 in Hnone. split; [done|]. split.
  - eexists _, row. split_and!; [apply lookup_insert_eq|done..].
  - split; simpl; [rewrite Hc1; by apply insert_subseteq|]. apply map_subseteq_spec. intros k x. apply (oo_repositories _ _ _ Hm).
Qed.

Lemma bulk_loop_inr {A B} (one : db → A → DB B) d0 items (R : db → db → Prop) `{!PreOrder R} w r w' :
  (∀ x w b w', one d0 x w = (inr b, w') → R w.2 w'.2) → bulk_loop one d0 items w = (r, w') →
  ∃ l, r = inr l ∧ length l = length items ∧ ∀ bs, mapM (λ x, match x with inr b => Some b | inl _ => None end) l = Some bs →
    R w.2 w'.2 ∧ Forall2 (λ x b, ∃ w1 w2, one d0 x w1 = (inr b, w2) ∧ R w.2 w1.2 ∧ R w2.2 w'.2) items bs.
Proof.
  intros HR. revert w r w'. induction items as [|x items IH]; intros w r w' E; simpl in E.
  { injection E as <- <-. exists []. split_and!; [done..|]. intros bs [= <-]. by split; [|constructor]. }
  destruct (one d0 x w) as [[e|b] [fs1 d1]] eqn:Ex; unfold mbind, M_bind in E.
  - destruct (bulk_loop one d0 items (fs1, d0)) as [r1 w1] eqn:El. apply IH in El as (l & -> & Hlen & _). injection E as <- <-.
    exists (inl e :: l). by split_and!; [|simpl; rewrite Hlen|].
  - destruct (bulk_loop one d0 items (fs1, d1)) as [r1 w1] eqn:El. apply IH in El as (l & -> & Hlen & Hl). injection E as <- <-.
    exists (inr b :: l). split_and!; [done|simpl; by rewrite Hlen|]. intros bs Hbs. simpl in Hbs.
    apply bind_Some in Hbs as (bs' & Hbs & [= <-]). apply Hl in Hbs as [H1 H2].
    apply HR in Ex as Hx. simpl in Hx, H1. split; [by etrans|]. constructor; [by eexists _, _; split_and!|].
    eapply Forall2_impl; [exact H2|]. intros y c (w1' & w2 & ? & ? & ?). exists w1', w2. split_and!; [done|by etrans|done].
Qed.

Lemma bulk_transaction_run {A B} (one : db → A → DB B) items (R : db → db → Prop) `{!PreOrder R} fs d r fs' d' :
  (∀ x w b w', one d x w = (inr b, w') → R w.2 w'.2) → bulk_transaction one items (fs, d) = (r, (fs', d')) →
  ∃ rs errs, r = inr (rs, errs) ∧
    (errs ≠ [] → rs = [] ∧ length errs = length items ∧ (∃ e, Some e ∈ errs) ∧ d' = d) ∧
    (d' ≠ d → errs = [] ∧ Forall2 (λ x b, ∃ w1 w2, one d x w1 = (inr b, w2) ∧ R d w1.2 ∧ R w2.2 d') items rs).
Proof.
  intros HR. unfold bulk_transaction. destruct (db_noop (fs, d)) as [[e|[]] [fs1 d1]] eqn:E.
  { apply noop_inl in E as ->. intros [= <- <- <-]. by exists [], []. }
  apply noop_inr in E as ->. destruct (bulk_loop one d items (fs1, d)) as [r1 [fs2 d2]] eqn:El.
  apply (bulk_loop_inr one d items R) in El as (l & -> & Hlen & Hl); [|done]. simpl in Hl. unfold bulk_result.
  destruct (mapM _ l) as [bs|] eqn:Em; simpl.
  - destruct (Hl bs eq_refl) as [_ H2]. intros E. exists bs, []. destruct fs2 as [|[e|] fs2]; injection E as <- <- <-; by split_and!.
  - assert (∃ e, Some e ∈ (λ x : goerr + B, match x with inl e => Some e | inr _ => None end) <$> l) as Hex.
    { clear -Em. induction l as [|[e|b] l IH]; [done|exists e; left|]. simpl in Em. destruct (mapM _ l) as [bs|] eqn:E; [done|].
      destruct IH as [e He]; [done|]. exists e. by right. }
    rewrite length_fmap, Hlen. assert (0 < length items)%nat as Hpos. { destruct items; [|simpl; lia]. by destruct l. }
    apply Nat.ltb_lt in Hpos as ->. intros E. eexists [], _. destruct fs2 as [|[e|] fs2]; injection E as <- <- <-; split_and!; try done;
      intros _; split_and!; try done; by rewrite length_fmap.
Qed.

(** [C18] Bulk creation is all or nothing. [BulkCreate] either reports errors by position, and then nothing has changed, or
    reports none; and if anything has changed then every request is stored, each under a new UUID with the fields it asks
    for, in the order of the responses. *)
Theorem bulk_create_all_or_nothing suffix reqs fs d rs errs fs' d' :
  RepoConfig_BulkCreate valid_uri now suffix reqs (fs, d) = (inr (rs, errs), (fs', d')) →
  (errs ≠ [] → rs = [] ∧ length errs = length reqs ∧ (∃ e, Some e ∈ errs) ∧ d' = d) ∧
  (d' ≠ d → errs = [] ∧ Forall2 (λ x p, d.(configs) !! x.1.2 = None ∧ stored_as d' x.2 x.1.2 p) reqs rs).
Proof.
  intros (x & [fs1 d1] & Hb & E)%bind_inr. assert (x = (rs, errs) ∧ d1 = d') as [-> ->].
  { destruct reqs; [done|]. by apply ret_inr in E as [-> [= _ ->]]. }
  apply (bulk_transaction_run _ _ grows) in Hb as (rs' & errs' & [= <- <-] & H1 & H2).
  - split; [done|]. intros Hne. apply H2 in Hne as [-> HF]. split; [done|]. eapply Forall2_impl; [exact HF|].
    intros [[ru cu] req] p ([fs2 d2] & [fs3 d3] & (Hn & Hs & _)%bulk_create_one_run & Hg & Hg'). split; [|by eapply grows_stored].
    simpl in *. destruct (configs d !! cu) as [c|] eqn:Hc; [|done]. destruct Hg as [Hg _]. eapply lookup_weaken in Hc; [|exact Hg]. congruence.
  - intros [[ru cu] req] [fs2 d2] b [fs3 d3] E'. by apply bulk_create_one_run in E' as (_ & _ & Hg).
Qed.
End Create.

(** ** Examples *)

#[local] Existing Instances Ex.uuid_text Ex.uuid_laws.

Module RepoEx.
Definition request (name url : string) : RepositoryRequest :=
  mk_RepositoryRequest "account" "org" (Some OriginExternal) (Some name) (Some url) (Some ["9"; "8"; "9"]) None None None None (Some true) None None.
Definition empty : db := mk_db ∅ ∅ ∅ ∅ ∅.
Definition create (d : db) : (goerr + RepoResponse) * (list (option goerr) * db) :=
  RepoConfig_Create (λ _, true) 0%Z ∅ "suffix" 1%N 2%N (request "name" "https://a") ([], d).
Definition created : db := (create empty).2.2.
Definition bulk (d : db) : (goerr + (list RepoResponse * list (option goerr))) * (list (option goerr) * db) :=
  RepoConfig_BulkCreate (λ _, true) 0%Z "suffix" [(3%N, 4%N, request "other" "https://b"); (5%N, 6%N, request "name" "https://c")] ([], d).

Lemma empty_ok : repo_ok empty.
Proof. by split. Qed.
End RepoEx.

Lemma repo_config_invariant_witness : repo_ok RepoEx.created ∧ c_Versions <$> RepoEx.created.(configs) !! 2%N = Some ["8"; "9"].
Proof.
  split; [|by vm_compute]. apply (repo_config_invariant (λ _, true) RepoEx.empty); [|apply RepoEx.empty_ok]. apply rtc_once.
  eapply (rstep_create _ _ _ 0%Z ∅ "suffix" 1%N 2%N (RepoEx.request "name" "https://a")). eexists [], _, _. unfold RepoEx.created, RepoEx.create.
  by rewrite <- !surjective_pairing.
Defined.

Lemma org_writes_scoped_witness : only_org "org" RepoEx.empty RepoEx.created.
Proof.
  apply (org_writes_scoped "org" (λ _, true) 0%Z ∅). apply rtc_once.
  apply (org_create _ _ _ _ _ _ "suffix" 1%N 2%N (RepoEx.request "name" "https://a")); [done|]. eexists [], _, _.
  unfold RepoEx.created, RepoEx.create. by rewrite <- !surjective_pairing.
Defined.

Lemma create_fetch_roundtrip_witness : ∃ p, (RepoEx.create RepoEx.empty).1 = inr p ∧ p.(p_URL) = "https://a/" ∧
  run (RepoConfig_Fetch ∅ false (inr "") "org" (uuid_String 2%N)) RepoEx.created = (inr p, RepoEx.created).
Proof.
  destruct (RepoEx.create RepoEx.empty) as [[e|p] [fs d]] eqn:E; [by vm_compute in E|]. exists p. split; [done|]. split.
  - by vm_compute in E; injection E as <-.
  - unfold RepoEx.created. rewrite E. by apply (create_fetch_roundtrip (λ _, true) 0%Z ∅ "suffix" 1%N 2%N (RepoEx.request "name" "https://a") [] RepoEx.empty p fs d false (inr "")).
Defined.

(** The second request takes a name that is in use: nothing is stored. *)
Lemma bulk_create_all_or_nothing_witness : ∃ errs fs', RepoEx.bulk RepoEx.created = (inr ([], errs), (fs', RepoEx.created)) ∧ length errs = 2%nat.
Proof.
  destruct (RepoEx.bulk RepoEx.created) as [[e|[rs errs]] [fs d]] eqn:E; [by vm_compute in E|]. exists errs, fs.
  apply (bulk_create_all_or_nothing (λ _, true) 0%Z "suffix" _ [] RepoEx.created rs errs fs d) in E as E'. destruct E' as [H _].
  assert (errs ≠ []) as Hne by by vm_compute in E; injection E as <- <- <- <-.
  clear E. destruct (H Hne) as (-> & H2 & _ & ->). split; [reflexivity|exact H2].
Defined.
