(* ===== verification/RepoConfigList.v ===== *)
(** * dao/repository_configs.go: lists, repositories due for a snapshot, validation of parameters

    The conditions of a query are functions on a row with its repository and its last snapshot task; a comparison with a null is
    false. *)

From S2P Require Import Prelude GoStrings GoSplit Config TxMonad Utils Models Errors DaoHelpers GoText SnapshotDao TemplateDao SnapshotHandler RepoConfigDao.
From stdpp Require Import options sorting.

Open Scope string_scope.

(** api.FilterData *)
Record FilterData := mk_FilterData {
  fd_Search : string; fd_Arch : string; fd_Version : string; fd_AvailableForArch : string; fd_AvailableForVersion : string;
  fd_Name : string; fd_URL : string; fd_UUID : string; fd_Status : string; fd_Origin : string; fd_ContentType : string;
  fd_ExtendedRelease : string; fd_ExtendedReleaseVersion : string; fd_Partner : string; fd_FeatureName : string }.

(** The parts of a text between commas. *)
Definition parts (s : string) : list string := strings_Split comma s.

(** [btrim]: spaces only. *)
Definition btrim (s : string) : string := trim_char " "%char s.

(** [value IN (...)], where the empty text is null. *)
Definition sql_in_text (l : list string) (value : string) : bool := (value != "") && contains l value.

(** [EXISTS (SELECT 1 FROM unnest(string_to_array(feature_name, ',')) AS t(token) WHERE btrim(t.token) IN ?)] *)
Definition feature_in (features : list string) (name : string) : bool :=
  (name != "") && existsb (λ token, contains features (btrim token)) (parts name).

(** A row as the status filter sees it: the status of the last introspection, whether snapshots are taken, whether there is a
    last snapshot and a last task, and that task. *)
Record StatusRow := mk_StatusRow {
  st_introspection : string; st_snapshot : bool; st_has_snapshot : bool; st_has_task : bool; st_task : option TaskView }.

Definition task_is (p : TaskView → bool) (r : StatusRow) : bool := match r.(st_task) with Some t => p t | None => false end.
Definition snapshot_task (t : TaskView) : bool := t.(tk_Type) == "snapshot".
Definition upload_task (t : TaskView) : bool := (t.(tk_Type) == AddUploadsTask) || (t.(tk_Type) == BulkRemoveRpmsTask).
Definition status_in (l : list string) (t : TaskView) : bool := contains l t.(tk_Status).

Definition getStatusFilter (status : string) (r : StatusRow) : bool :=
  let introspection s := r.(st_introspection) == s in
  if status == "Valid" then
    (introspection "Valid" && task_is (λ t, snapshot_task t && status_in ["completed"] t) r) ||
    (introspection "Valid" && task_is (λ t, upload_task t && status_in ["completed"] t) r) ||
    (introspection "Valid" && negb r.(st_snapshot))
  else if status == "Pending" then
    (introspection "Pending" && (negb r.(st_has_task) || task_is (λ t, snapshot_task t && status_in ["running"; "pending"; "completed"] t) r)) ||
    (introspection "Valid" && negb r.(st_has_snapshot) && task_is (λ t, snapshot_task t && status_in ["running"; "pending"] t) r) ||
    (introspection "Valid" && r.(st_has_snapshot) && task_is (λ t, snapshot_task t && status_in ["running"; "pending"] t) r) ||
    (introspection "Pending" && negb r.(st_has_task) && task_is (λ t, upload_task t && status_in ["running"; "pending"; "completed"] t) r) ||
    (introspection "Valid" && negb r.(st_has_snapshot) && task_is (λ t, upload_task t && status_in ["running"; "pending"] t) r) ||
    (introspection "Valid" && r.(st_has_snapshot) && task_is (λ t, upload_task t && status_in ["running"; "pending"] t) r) ||
    (introspection "Pending" && negb r.(st_snapshot))
  else if status == "Unavailable" then
    (introspection "Unavailable" && r.(st_has_snapshot) && task_is (λ t, snapshot_task t && status_in ["failed"; "completed"] t) r) ||
    (introspection "Invalid" && r.(st_has_snapshot) && task_is (λ t, snapshot_task t && status_in ["failed"] t) r) ||
    (introspection "Valid" && r.(st_has_snapshot) && task_is (λ t, snapshot_task t && status_in ["failed"] t) r) ||
    (introspection "Valid" && r.(st_has_snapshot) && task_is (λ t, upload_task t && status_in ["failed"] t) r) ||
    (introspection "Unavailable" && negb r.(st_snapshot))
  else if status == "Invalid" then
    (introspection "Invalid" && task_is (λ t, snapshot_task t && status_in ["completed"] t) r) ||
    (introspection "Unavailable" && negb r.(st_has_snapshot) && task_is (λ t, snapshot_task t && status_in ["failed"] t) r) ||
    (introspection "Valid" && negb r.(st_has_snapshot) && task_is (λ t, snapshot_task t && status_in ["failed"] t) r) ||
    (introspection "Valid" && negb r.(st_has_snapshot) && task_is (λ t, upload_task t && status_in ["failed"] t) r) ||
    (introspection "Invalid" && negb r.(st_snapshot))
  else true.

(** The statuses that may be asked for. *)
Definition list_statuses : list string := [StatusValid; StatusUnavailable; StatusInvalid; StatusPending].

Section Lists.
Context `{UuidText}.
Context (valid_uri : string → bool) (now : time) (tasks : gmap uuid TaskView).
(** The order in which a table is read, the matching of patterns and the order of a query. *)
Context (scan_configs : gmap uuid ConfigRow → list (uuid * ConfigRow)).
Context (sql_ilike : string → string → bool) (sql_order : string → list (uuid * ConfigRow) → list (uuid * ConfigRow)).

Definition task_of (c : ConfigRow) : option TaskView := v ← c.(c_LastSnapshotTaskUUID); tasks !! v.
Definition status_row (c : ConfigRow) (r : RepositoryRow) : StatusRow :=
  mk_StatusRow r.(r_model).(r_LastIntrospectionStatus) (c_Snapshot c) (bool_decide (is_Some c.(c_LastSnapshotUUID)))
    (bool_decide (is_Some c.(c_LastSnapshotTaskUUID))) (task_of c).

Definition version_cond (version : string) (c : ConfigRow) : bool :=
  let '(majorVersions, minorVersions) := splitVersionFilters (parts version) in
  let major := existsb (contains (c_Versions c)) majorVersions && (c.(c_ExtendedReleaseVersion) == "") in
  let minor := sql_in_text minorVersions c.(c_ExtendedReleaseVersion) in
  match majorVersions, minorVersions with
  | _ :: _, _ :: _ => major || minor
  | _ :: _, [] => major
  | [], _ :: _ => minor
  | [], [] => true
  end.

Definition origin_cond (OrgID origin : string) (d : db) (u : uuid) (c : ConfigRow) (r : RepositoryRow) : bool :=
  let origins := parts origin in
  let foreign := foreign_partner_visible d OrgID u c in
  (contains origins (r_origin r) && negb foreign) || (contains origins OriginCommunity && foreign).

(** The condition on a live row that has a repository. *)
Definition list_cond (OrgID : string) (f : FilterData) (accessibleFeatures : list string) (d : db) (u : uuid) (c : ConfigRow)
    (r : RepositoryRow) : bool :=
  (contains (shared_repository_orgs OrgID) c.(c_OrgID) || foreign_partner_visible d OrgID u c) &&
  ((f.(fd_Name) == "") || (c_Name c == f.(fd_Name))) &&
  ((f.(fd_ContentType) == "") || (r.(r_content_type) == f.(fd_ContentType))) &&
  ((f.(fd_URL) == "") || sql_in_text (CleanupURL <$> parts f.(fd_URL)) (r_url r)) &&
  ((f.(fd_UUID) == "") || contains (Uuidify <$> parts f.(fd_UUID)) u) &&
  ((f.(fd_AvailableForArch) == "") || (c_Arch c == f.(fd_AvailableForArch)) || (c_Arch c == "") || (c_Arch c == "any")) &&
  ((f.(fd_AvailableForVersion) == "") || contains (c_Versions c) f.(fd_AvailableForVersion) || contains (c_Versions c) "any" ||
     (length (c_Versions c) =? 0)%nat) &&
  ((f.(fd_Search) == "") || sql_ilike ("%" +:+ f.(fd_Search) +:+ "%") (c_Name c) ||
     ((r_url r != "") && sql_ilike ("%" +:+ f.(fd_Search) +:+ "%") (r_url r))) &&
  ((f.(fd_Origin) == "") || origin_cond OrgID f.(fd_Origin) d u c r) &&
  ((f.(fd_Arch) == "") || contains (parts f.(fd_Arch)) (c_Arch c)) &&
  ((f.(fd_Version) == "") || version_cond f.(fd_Version) c) &&
  ((f.(fd_Status) == "") || existsb (λ s, getStatusFilter s (status_row c r)) (parts f.(fd_Status))) &&
  ((btrim c.(c_FeatureName) == "") || feature_in accessibleFeatures c.(c_FeatureName)) &&
  ((f.(fd_FeatureName) == "") || feature_in (parts f.(fd_FeatureName)) c.(c_FeatureName)) &&
  (if f.(fd_Partner) == "true" then c.(c_Partner) else if f.(fd_Partner) == "false" then negb c.(c_Partner) else true) &&
  (if f.(fd_ExtendedRelease) == "none" then c.(c_ExtendedRelease) == ""
   else (f.(fd_ExtendedRelease) == "") || sql_in_text (parts f.(fd_ExtendedRelease)) c.(c_ExtendedRelease)) &&
  ((f.(fd_ExtendedReleaseVersion) == "") || sql_in_text (parts f.(fd_ExtendedReleaseVersion)) c.(c_ExtendedReleaseVersion) ||
     (contains (parts f.(fd_ExtendedReleaseVersion)) "none" && (c.(c_ExtendedReleaseVersion) == ""))).

Definition list_rows (OrgID : string) (f : FilterData) (accessibleFeatures : list string) (d : db) : list (uuid * ConfigRow) :=
  base.filter (λ kc, config_live kc.2 = true ∧ joined d kc.2 (list_cond OrgID f accessibleFeatures d kc.1 kc.2) = true) (scan_configs d.(configs)).

(** The first status that is not known is reported. *)
Definition RepoConfig_filteredDbForList (OrgID : string) (f : FilterData) (accessibleFeatures : list string) :
    goerr + (db → list (uuid * ConfigRow)) :=
  match (if f.(fd_Status) == "" then None else find (λ s, negb (contains list_statuses s)) (parts f.(fd_Status))) with
  | Some status => inl (bad_request ("Invalid status provided: " +:+ status))
  | None => inr (list_rows OrgID f accessibleFeatures)
  end.

Definition config_versionSortExpr : string :=
  "(CASE WHEN extended_release_version IS NOT NULL AND extended_release_version != '' THEN split_part(extended_release_version, '.', 1)::int * 10000 + split_part(extended_release_version, '.', 2)::int ELSE (SELECT min(v::int * 10000 - 1) FROM unnest(versions) AS v WHERE v <> 'any') END, cardinality(versions))".
Definition config_sort_map : gmap string string :=
  <["name" := "name"]> (<["url" := "url"]> (<["distribution_arch" := "arch"]> (<["distribution_versions" := config_versionSortExpr]>
    (<["package_count" := "package_count"]> (<["last_introspection_time" := "last_introspection_time"]>
      (<["last_introspection_status" := "last_introspection_status"]> ∅)))))).

(** [features]: the answer of the feature service, whose error is logged only; [content_path]: that of Pulp, after the domain has
    been read. *)
Definition RepoConfig_List (snapshots_enabled : bool) (features : goerr + list string) (content_path : goerr + string)
    (OrgID : string) (limit : Z) (offset : nat) (sortBy : string) (f : FilterData) : DB (list RepoResponse * Z) :=
  let accessibleFeatures := match features with inr l => l | inl _ => [] end in
  match RepoConfig_filteredDbForList OrgID f accessibleFeatures with
  | inl e => throw e
  | inr filteredDB =>
      let order := convertSortByToSQL sortBy config_sort_map "name asc" in
      total ← db_call (λ d, (inr (Z.of_nat (length (filteredDB d))), d));
      repoConfigs ← db_call (λ d, (inr (load tasks d <$> page limit offset (sql_order order (filteredDB d))), d));
      contentPath ← (if snapshots_enabled
                     then _ ← (db_noop : DB ()); match content_path with inl e => throw e | inr p => mret p end
                     else mret "");
      repoConfigs ← RepoConfig_applyPartnerResponseOverrides repoConfigs OrgID;
      mret (convertToResponses repoConfigs contentPath, total)
  end.

(** An error is logged and gives an empty list. *)
Definition InternalOnly_FetchRepoConfigsForRepoUUID (uuid_ : string) : DB (list RepoResponse) := λ w,
  match (db_call (λ d, (inr (load tasks d <$> base.filter (λ kc, config_live kc.2 = true ∧ kc.2.(c_RepositoryUUID) = Uuidify uuid_ ∧
                                joined d kc.2 (λ _, true) = true) (scan_configs d.(configs))), d)) : DB (list Loaded)) w with
  | (inl _, w') => (inr [], w')
  | (inr ls, w') => (inr (convertToResponses ls ""), w')
  end.

(** Only the repository is loaded. *)
Definition with_repository (d : db) (kc : uuid * ConfigRow) : Loaded :=
  mk_Loaded kc.1 kc.2 (default zero_repository (d.(repositories) !! kc.2.(c_RepositoryUUID))) None None.
Definition InternalOnly_FetchRepoConfigForOrg (orgID : string) : DB (list RepoResponse) :=
  ls ← db_call (λ d, (inr (with_repository d <$> base.filter (λ kc, config_live kc.2 = true ∧ kc.2.(c_OrgID) = orgID ∧
                             joined d kc.2 (λ _, true) = true) (scan_configs d.(configs))), d));
  mret (convertToResponses ls "").
Definition InternalOnly_FetchRepoConfigByName (orgID name : string) : DB RepoResponse :=
  l ← map_err (λ e, if is_record_not_found e then DaoError None ("Could not find repository with name " +:+ name) true false false false else e)
    (db_call (λ d, (or_not_found (with_repository d <$> first_row (λ kc, config_live kc.2 && (kc.2.(c_OrgID) == orgID) &&
                                    (c_Name kc.2 == name) && joined d kc.2 (λ _, true)) d.(configs)), d)));
  mret (nth 0 (convertToResponses [l] "") (ModelToApiFields l)).

(** The UUIDs come from the content of a template, as they are stored. *)
Definition InternalOnly_FetchRepoConfigsForTemplate (uuids : list uuid) : DB (list Loaded) :=
  db_call (λ d, (inr (with_repository d <$> base.filter (λ kc, config_live kc.2 = true ∧ kc.1 ∈ uuids) (scan_configs d.(configs))), d)).
End Lists.
