(* ===== verification/RepoConfigListThms.v ===== *)
(** * Lists of repositories: the status filter, and what other organizations see *)

From S2P Require Import Prelude GoStrings GoSplit Config TxMonad Utils Models Errors DaoHelpers GoText SnapshotDao SnapshotThms TemplateDao SnapshotHandler SnapshotHandlerThms RepoConfigDao RepoConfigThms RepoConfigList.
From stdpp Require Import options.

Open Scope string_scope.

(** ** The status filter *)

(** The rows of which the filter and the response agree: without snapshots and tasks; waiting for the first introspection; or with
    a task of the kind that belongs to the repository, and a task that has ended if the repository is unavailable. *)
Definition settled (r : StatusRow) : Prop :=
  r.(st_snapshot) = false ∧ r.(st_task) = None ∨
  r.(st_snapshot) = true ∧ r.(st_has_task) = false ∧ r.(st_task) = None ∧ r.(st_introspection) = StatusPending ∨
  r.(st_snapshot) = true ∧ r.(st_has_task) = true ∧
  ∃ t, r.(st_task) = Some t ∧ (snapshot_task t = true ∨ upload_task t = true ∧ r.(st_introspection) = StatusValid) ∧
    (r.(st_introspection) = StatusUnavailable →
     t.(tk_Status) = TaskStatusFailed ∨ t.(tk_Status) = TaskStatusCompleted ∧ r.(st_has_snapshot) = true).

Definition response_status (r : StatusRow) : string :=
  combineIntrospectionAndSnapshotStatuses r.(st_snapshot) r.(st_introspection) (tk_Status <$> r.(st_task)) r.(st_has_snapshot).

(** Cases of a text among some. *)
Ltac text_cases x :=
  destruct (decide (x = "Valid")) as [?|?]; [|destruct (decide (x = "Pending")) as [?|?]; [|destruct (decide (x = "Unavailable")) as [?|?];
    [|destruct (decide (x = "Invalid")) as [?|?]]]].
Ltac status_cases x :=
  destruct (decide (x = "completed")) as [?|?]; [|destruct (decide (x = "failed")) as [?|?]; [|destruct (decide (x = "running")) as [?|?];
    [|destruct (decide (x = "pending")) as [?|?]]]].
Ltac eq_tests :=
  repeat match goal with |- context [bool_decide (?x = ?y)] =>
    first [rewrite (bool_decide_true (x = y)) by congruence|rewrite (bool_decide_false (x = y)) by congruence] end.

(** Filtering by status. For a settled repository, the filter of a list selects a status exactly if it is the one the response
    shows. *)
Theorem status_filter_agrees s r :
  s ∈ list_statuses → settled r → (getStatusFilter s r = true ↔ response_status r = s).
Proof.
  destruct r as [i sn hs ht task]. unfold settled, response_status, getStatusFilter, combineIntrospectionAndSnapshotStatuses, task_is, list_statuses,
    status_in, contains, StatusPending, StatusUnavailable, StatusInvalid, StatusValid, TaskStatusFailed, TaskStatusCompleted, TaskStatusRunning, TaskStatusPending. simpl.
  rewrite !elem_of_cons, elem_of_nil. intros Hs [(-> & ->)|[(-> & -> & -> & ->)|(-> & -> & [ty st q o b f e] & -> & Hk & Hu)]]; simpl in *.
  - text_cases i; destruct Hs as [->|[->|[->|[->|[]]]]]; subst; eq_tests; simpl; rewrite ?andb_false_r, ?orb_false_r, ?orb_true_r; simpl; split; congruence.
  - destruct Hs as [->|[->|[->|[->|[]]]]]; eq_tests; simpl; split; congruence.
  - generalize dependent (snapshot_task (mk_TaskView ty st q o b f e)). generalize dependent (upload_task (mk_TaskView ty st q o b f e)). intros up sn Hk.
    text_cases i; status_cases st; destruct Hs as [->|[->|[->|[->|[]]]]]; subst; eq_tests; simpl; destruct up, sn, hs; simpl; split; naive_solver congruence.
Qed.

(** A valid repository that waits for its first snapshot task is shown as valid and not found as such. *)
Example status_filter_misses_new : let r := mk_StatusRow "Valid" true false false None in
  response_status r = "Valid" ∧ getStatusFilter "Valid" r = false.
Proof. by vm_compute. Qed.

(** After snapshots are turned off, the last failed task still makes a valid repository appear as unavailable. *)
Example status_filter_old_task : let r := mk_StatusRow "Valid" false true true (Some (mk_TaskView "snapshot" "failed" 0 "org" None None None)) in
  response_status r = "Valid" ∧ getStatusFilter "Unavailable" r = true.
Proof. by vm_compute. Qed.

(** ** What is listed *)

Section List.
Context `{UT : UuidText}.
Context (tasks : gmap uuid TaskView).
Context (scan_configs : gmap uuid ConfigRow → list (uuid * ConfigRow)).
Hypothesis scan_perm : ∀ m, scan_configs m ≡ₚ map_to_list m.
Context (sql_ilike : string → string → bool) (sql_order : string → list (uuid * ConfigRow) → list (uuid * ConfigRow)).
Hypothesis order_perm : ∀ o l, sql_order o l ≡ₚ l.
#[local] Set Default Proof Using "Type*".

(** A snapshot that is published, in the tables. *)
Definition published_in (d : db) (us : uuid * SnapRow) : Prop := d.(snapshots) !! us.1 = Some us.2 ∧ us.2.(s_Published) = true.

(** What a viewer may know of a foreign partner's repository. *)
Record masked (d : db) (l : Loaded) : Prop := {
  mk_org : l.(l_Config).(c_OrgID) = CommunityOrg;
  mk_account : l.(l_Config).(c_AccountID) = "";
  mk_origin : r_origin l.(l_Repository) = OriginCommunity;
  mk_last u : l.(l_Config).(c_LastSnapshotUUID) = Some u → ∃ s, l.(l_LastSnapshot) = Some (u, s);
  mk_published us : l.(l_LastSnapshot) = Some us → published_in d us
}.

Lemma set_override_masked d last l : (∀ us, last = Some us → published_in d us) → masked d (set_override last l).
Proof. intros Hl. split; try done. simpl. intros u. destruct last as [[v s]|]; [|done]. intros [= ->]. by exists s. Qed.

Lemma override_one_run org l fs d r fs' d' :
  (∀ us, l.(l_LastSnapshot) = Some us → d.(snapshots) !! us.1 = Some us.2) →
  override_one org l (fs, d) = (r, (fs', d')) →
  d' = d ∧ ∃ l', r = inr l' ∧ l'.(l_UUID) = l.(l_UUID) ∧
    (if IsForeignPartnerView l.(l_Config) org then masked d l' else l' = l).
Proof.
  intros Hin. unfold override_one. destruct (IsForeignPartnerView _ _); simpl; [|intros [= <- <- <-]; eauto].
  destruct (is_published _) eqn:Hp.
  { intros [= <- <- <-]. split; [done|]. eexists. split_and!; [done..|]. apply set_override_masked. intros us Hus. split; [by apply Hin|].
    rewrite Hus in Hp. by destruct us. }
  destruct (db_call _ _) as [[e|last] [fs1 d1]] eqn:E; intros [= <- <- <-].
  - apply call_inl in E as [->|?]; [|done]. split; [done|]. eexists. split_and!; [done..|]. by apply set_override_masked.
  - apply call_inr in E. injection E as E <-. split; [done|]. eexists. split_and!; [done..|]. apply set_override_masked. intros us ->.
    apply (best_some newer newer_irrefl newer_trans) in E as [Hb _]. apply list_elem_of_filter in Hb as [(_ & Hpub & _) Hb].
    destruct us. by apply elem_of_map_to_list in Hb.
Qed.

Definition shown_as (d : db) (org : string) (l l' : Loaded) : Prop :=
  l'.(l_UUID) = l.(l_UUID) ∧ (if IsForeignPartnerView l.(l_Config) org then masked d l' else l' = l).

Lemma overrides_run org ls fs d r fs' d' :
  Forall (λ l, ∀ us, l.(l_LastSnapshot) = Some us → d.(snapshots) !! us.1 = Some us.2) ls →
  RepoConfig_applyPartnerResponseOverrides ls org (fs, d) = (r, (fs', d')) → d' = d ∧ ∃ ls', r = inr ls' ∧ Forall2 (shown_as d org) ls ls'.
Proof.
  intros Hls. revert fs r fs' d'. induction Hls as [|l ls Hl _ IH]; intros fs r fs' d'; simpl.
  { intros [= <- <- <-]. split; [done|]. exists []. by split; [|constructor]. }
  unfold mbind, M_bind. destruct (override_one org l (fs, d)) as [r1 [fs1 d1]] eqn:E1.
  apply override_one_run in E1 as (-> & l' & -> & Hu & Hl'); [|done].
  destruct (RepoConfig_applyPartnerResponseOverrides ls org (fs1, d)) as [r2 [fs2 d2]] eqn:E2. apply IH in E2 as (-> & ls' & -> & Hf).
  intros [= <- <- <-]. split; [done|]. exists (l' :: ls'). split; [done|]. by constructor.
Qed.

(** The fields of a response that do not depend on where the content is served. *)
Lemma responses_of ls path : Forall2 (λ l p,
    p.(p_UUID) = l.(l_UUID) ∧ p.(p_Name) = c_Name l.(l_Config) ∧ p.(p_OrgID) = l.(l_Config).(c_OrgID) ∧ p.(p_AccountID) = l.(l_Config).(c_AccountID) ∧
    p.(p_Origin) = r_origin l.(l_Repository) ∧ p.(p_LastSnapshotUUID) = l.(l_Config).(c_LastSnapshotUUID) ∧
    ∀ s, p.(p_LastSnapshot) = Some s → ∃ us, l.(l_LastSnapshot) = Some us ∧ s.(sr_UUID) = us.1 ∧ s.(sr_Published) = us.2.(s_Published))
  ls (convertToResponses ls path).
Proof.
  unfold convertToResponses. apply Forall2_fmap_r, Forall_Forall2_diag, Forall_true. intros l. simpl. unfold last_snapshot_response.
  destruct (l_LastSnapshot l) as [[u s]|] eqn:E; simpl; split_and!; try done.
  - intros s' Hs. injection Hs as <-. by exists (u, s).
  - intros s'. unfold last_snapshot_response. by rewrite E.
Qed.

(** What the organization [OrgID], entitled to [features], sees of a configuration. *)
Definition seen (d : db) (OrgID : string) (features : list string) (p : RepoResponse) : Prop :=
  p.(p_OrgID) ∈ shared_repository_orgs OrgID ∧
  ∃ c, d.(configs) !! p.(p_UUID) = Some c ∧ config_live c = true ∧
    (c.(c_OrgID) ∈ shared_repository_orgs OrgID ∨ foreign_partner_visible d OrgID p.(p_UUID) c = true) ∧
    (btrim c.(c_FeatureName) = "" ∨ feature_in features c.(c_FeatureName) = true) ∧
    (if IsForeignPartnerView c OrgID
     then p.(p_OrgID) = CommunityOrg ∧ p.(p_AccountID) = "" ∧ p.(p_Origin) = OriginCommunity ∧
          (∀ v, p.(p_LastSnapshotUUID) = Some v → ∃ s, published_in d (v, s)) ∧
          (∀ s, p.(p_LastSnapshot) = Some s → s.(sr_Published) = true)
     else p.(p_OrgID) = c.(c_OrgID) ∧ p.(p_Name) = c_Name c).

Lemma list_cond_seen OrgID f features d u c r :
  list_cond tasks sql_ilike OrgID f features d u c r = true →
  (c.(c_OrgID) ∈ shared_repository_orgs OrgID ∨ foreign_partner_visible d OrgID u c = true) ∧
  (btrim c.(c_FeatureName) = "" ∨ feature_in features c.(c_FeatureName) = true).
Proof.
  unfold list_cond. rewrite !andb_true_iff. intros H. destruct_and! H. rewrite !orb_true_iff, contains_true, bool_decide_eq_true in *. by split.
Qed.

Lemma page_sub {A} limit offset (l : list A) : page limit offset l ⊆ l ∧ (length (page limit offset l) ≤ length l)%nat ∧ (0 ≤ limit → Z.of_nat (length (page limit offset l)) ≤ limit)%Z.
Proof.
  unfold page. destruct (limit <? 0)%Z eqn:E; [apply Z.ltb_lt in E|apply Z.ltb_ge in E]; rewrite ?length_take, length_drop; split_and!; try lia.
  - intros x Hx. by apply subseteq_drop in Hx.
  - intros x Hx. by apply subseteq_take, subseteq_drop in Hx.
Qed.

Lemma load_last d kc us : (load tasks d kc).(l_LastSnapshot) = Some us → d.(snapshots) !! us.1 = Some us.2.
Proof.
  destruct kc as [u c]. unfold load. simpl. destruct (c_LastSnapshotUUID c) as [v|]; [|done]. simpl.
  destruct (snapshots d !! v) as [s|] eqn:Hs; [|done]. simpl. destruct (is_live s); [|done]. by intros [= <-].
Qed.

Lemma shown_seen d OrgID features u c l' p :
  d.(configs) !! u = Some c → config_live c = true →
  c.(c_OrgID) ∈ shared_repository_orgs OrgID ∨ foreign_partner_visible d OrgID u c = true →
  btrim c.(c_FeatureName) = "" ∨ feature_in features c.(c_FeatureName) = true →
  shown_as d OrgID (load tasks d (u, c)) l' →
  p.(p_UUID) = l'.(l_UUID) ∧ p.(p_Name) = c_Name l'.(l_Config) ∧ p.(p_OrgID) = l'.(l_Config).(c_OrgID) ∧ p.(p_AccountID) = l'.(l_Config).(c_AccountID) ∧
    p.(p_Origin) = r_origin l'.(l_Repository) ∧ p.(p_LastSnapshotUUID) = l'.(l_Config).(c_LastSnapshotUUID) ∧
    (∀ s, p.(p_LastSnapshot) = Some s → ∃ us, l'.(l_LastSnapshot) = Some us ∧ s.(sr_UUID) = us.1 ∧ s.(sr_Published) = us.2.(s_Published)) →
  seen d OrgID features p.
Proof.
  intros Hc Hl Ho Hf [Hu Hs] (P1 & P2 & P3 & P4 & P5 & P6 & P7). simpl in Hu, Hs. rewrite Hu in P1. unfold seen. rewrite P1.
  destruct (IsForeignPartnerView c OrgID) eqn:Hv.
  - destruct Hs as [M1 M2 M3 M4 M5]. split; [rewrite P3, M1; by right; right; left|]. exists c. rewrite Hv. split_and!; [done..|congruence|congruence|congruence| |].
    + intros v. rewrite P6. intros (s & Hls)%M4. exists s. by apply M5.
    + intros s (us & Hus & _ & ->)%P7. by apply M5.
  - subst l'. simpl in *. split; [|exists c; rewrite Hv; by split_and!]. rewrite P3. destruct Ho as [|Hfv]; [done|].
    unfold foreign_partner_visible in Hfv. unfold IsForeignPartnerView in Hv. by rewrite Hv in Hfv.
Qed.

(** [C21] What a list shows. Whatever fails, a list that is returned has changed nothing and shows only live configurations of the
    organization and the shared ones, or of partners with a published snapshot, and of features the organization is entitled
    to. A foreign partner's repository is shown as one of the community, without its owner, and only with a published
    snapshot. A page has at most as many entries as asked for and as there are. *)
Theorem repo_list_masks enabled features path OrgID limit offset sortBy f fs d rs total fs' d' :
  RepoConfig_List tasks scan_configs sql_ilike sql_order enabled features path OrgID limit offset sortBy f (fs, d) = (inr (rs, total), (fs', d')) →
  d' = d ∧ Forall (seen d OrgID (match features with inr l => l | inl _ => [] end)) rs ∧
  (Z.of_nat (length rs) ≤ total)%Z ∧ (0 ≤ limit → Z.of_nat (length rs) ≤ limit)%Z.
Proof.
  unfold RepoConfig_List. set (feats := match features with inr l => l | inl _ => [] end). unfold RepoConfig_filteredDbForList.
  match goal with |- context [match ?x with Some _ => inl _ | None => _ end] => destruct x; [done|] end. set (rows := list_rows _ _ _ _ _ _). cbv zeta. set (order := convertSortByToSQL _ _ _).
  intros (n & [fs1 d1] & Hn%call_inr & E)%bind_inr. injection Hn as <- <-.
  apply bind_inr in E as (ls & [fs2 d2] & Hls%call_inr & E). injection Hls as <- <-.
  apply bind_inr in E as (cp & [fs3 d3] & Hcp & E). assert (d3 = d) as ->.
  { destruct enabled; [|by apply ret_inr in Hcp as [_ [= _ <-]]]. apply bind_inr in Hcp as ([] & [fs4 d4] & ->%noop_inr & Hp).
    destruct path; [done|]. by apply ret_inr in Hp as [_ [= _ <-]]. }
  apply bind_inr in E as (ls' & [fs4 d4] & Ho & E). apply ret_inr in E as [[= <- <-] [= <- <-]].
  apply overrides_run in Ho as (-> & ls'' & [= <-] & Hsh); [|apply Forall_fmap, Forall_true; intros kc us; apply load_last].
  pose proof (page_sub limit offset (sql_order order (rows d))) as (Hsub & Hlen & Hlim). set (pg := page _ _ _) in *.
  pose proof (responses_of ls' cp) as Hrs.
  assert (length (convertToResponses ls' cp) = length pg) as Hl by (rewrite <- (Forall2_length _ _ _ Hrs), <- (Forall2_length _ _ _ Hsh); apply length_fmap).
  split_and!; [done| |rewrite Hl; rewrite (Permutation_length (order_perm order (rows d))) in Hlen; lia|rewrite Hl; done].
  apply Forall_forall. intros p (i & Hp)%list_elem_of_lookup_1. apply (Forall2_lookup_r _ _ _ _ _ Hrs) in Hp as (l' & Hl' & HP).
  apply (Forall2_lookup_r _ _ _ _ _ Hsh) in Hl' as (l & Hll & Hs). apply list_lookup_fmap_Some in Hll as ([u c] & -> & Hk).
  apply list_elem_of_lookup_2, Hsub in Hk. rewrite order_perm in Hk. unfold rows, list_rows in Hk. apply list_elem_of_filter in Hk as [[Hlive Hj] Hk].
  rewrite scan_perm, elem_of_map_to_list in Hk. simpl in Hk, Hj, Hlive. unfold joined in Hj. destruct (repositories d !! _) as [r|]; [|done].
  apply list_cond_seen in Hj as [H1 H2]. by eapply (shown_seen d OrgID feats u c l').
Qed.
End List.

(** ** Examples *)

Import Ex.

Definition no_filter : FilterData := mk_FilterData "" "" "" "" "" "" "" "" "" "" "" "" "" "" "".
Definition listed_by (org : string) : (goerr + (list RepoResponse * Z)) * (list (option goerr) * db) :=
  RepoConfig_List ∅ map_to_list (λ _ _, true) (λ _ l, l) false (inr []) (inr "") org 10 0 "" no_filter ([], Ex.d).

Lemma status_filter_agrees_witness : let r := mk_StatusRow "Valid" true true true (Some (mk_TaskView "snapshot" "failed" 0 "org" None None None)) in
  getStatusFilter "Unavailable" r = true ∧ response_status r = "Unavailable".
Proof.
  intros r. split; [by vm_compute|]. apply (status_filter_agrees "Unavailable" r); [by apply contains_true| |by vm_compute].
  right. right. split_and!; [done..|]. eexists. split_and!; [done|by left|done].
Defined.

(** The partner's repository is seen by another organization, with the snapshot that is published. *)
Lemma repo_list_masks_witness : ∃ rs total w, listed_by "org" = (inr (rs, total), w) ∧ Forall (seen Ex.d "org" []) rs ∧
  p_UUID <$> rs = [2%N; 3%N; 1%N] ∧ p_LastSnapshotUUID <$> rs = [Some 7%N; None; None].
Proof.
  destruct (listed_by "org") as [[e|[rs total]] [fs d']] eqn:E; [by vm_compute in E|]. exists rs, total, (fs, d'). split; [done|]. split.
  - apply (repo_list_masks ∅ map_to_list (λ m, reflexivity _) (λ _ _, true) (λ _ l, l) (λ _ l, reflexivity _) false (inr []) (inr "") "org" 10 0 "" no_filter [] Ex.d rs total fs d' E).
  - vm_compute in E. injection E as <- <- _ _. by vm_compute.
Defined.
