(* ===== verification/RepoConfigDue.v ===== *)
(** * Repositories due for a snapshot

    The queries of dao/repository_configs.go for repositories to snapshot, and the command that enqueues their tasks
    (external_repos/commands/snapshot.go). *)

From S2P Require Import Prelude GoStrings GoSplit Config TxMonad Utils Models Errors DaoHelpers GoText SnapshotDao SnapshotThms TemplateDao SnapshotHandler SnapshotHandlerThms RepoConfigDao RepoConfigList.
From stdpp Require Import options sorting.

Open Scope string_scope.

Definition Minute : time := (60 * Second)%Z.
Definition Hour : time := (60 * Minute)%Z.
Definition SnapshotInterval (redHat : bool) : time := if redHat then (45 * Minute)%Z else (23 * Hour)%Z.
Definition FailedSnapshotLimit : Z := 10.

Record ListRepoFilter := mk_ListRepoFilter {
  lf_URLs : option (list string); lf_MinimumInterval : option Z; lf_Force : option bool }.

Section Due.
Context `{UuidText}.
Context (scan_configs : gmap uuid ConfigRow → list (uuid * ConfigRow)).
Context (now : time) (tasks : gmap uuid TaskView).
(** Options.AlwaysRunCronTasks *)
Context (AlwaysRunCronTasks : bool).

Abbreviation row := (uuid * ConfigRow)%type.

Definition select (p : row → bool) (d : db) : list row := base.filter (λ kc, config_live kc.2 = true ∧ p kc = true) (scan_configs d.(configs)).

(** The condition on a row; nil stands for the three origins. *)
Definition snapshottableRepoConfigs (origins : option (list string)) (d : db) (kc : row) : bool :=
  c_Snapshot kc.2 && joined d kc.2 (λ r, contains (default [OriginRedHat; OriginExternal; OriginCommunity] origins) (r_origin r)).

Definition url_cond (filter : option ListRepoFilter) (d : db) (kc : row) : bool :=
  match filter ≫= lf_URLs with
  | Some urls => joined d kc.2 (λ r, sql_in_text urls (r_url r))
  | None => true
  end.

Definition has_task (p : TaskView → bool) (c : ConfigRow) : bool := match task_of tasks c with Some t => p t | None => false end.
Definition no_task (c : ConfigRow) : bool := bool_decide (c.(c_LastSnapshotTaskUUID) = None).
Definition queued_before (interval : time) (t : TaskView) : bool := (t.(tk_QueuedAt) <=? now - interval)%Z.
Definition task_status (s : string) (t : TaskView) : bool := t.(tk_Status) == s.

(** An error is logged and counts as none. *)
Definition minimumSnapshotCount (runsPerDay : Z) : DB Z := λ w,
  match (db_call (λ d, (inr (length (select (λ kc, c_Snapshot kc.2 && has_task (λ t, negb (task_status TaskStatusFailed t)) kc.2) d)), d)) : DB nat) w with
  | (inl _, w') => (inr 0%Z, w')
  | (inr totalCount, w') => (inr (Z.of_nat totalCount / runsPerDay + 1)%Z, w')
  end.

Definition queued_first (x y : row) : Prop :=
  match task_of tasks x.2, task_of tasks y.2 with
  | None, _ => True
  | Some _, None => False
  | Some t, Some t' => (t.(tk_QueuedAt) ≤ t'.(tk_QueuedAt))%Z
  end.
#[global] Instance queued_first_dec : RelDecision queued_first.
Proof. intros x y. unfold queued_first. destruct (task_of tasks x.2), (task_of tasks y.2); apply _. Defined.

Definition stale (filter : option ListRepoFilter) (d : db) (kc : row) : bool :=
  snapshottableRepoConfigs (Some [OriginExternal; OriginCommunity]) d kc && url_cond filter d kc &&
  (has_task (λ t, queued_before (SnapshotInterval false) t && task_status TaskStatusCompleted t) kc.2 || no_task kc.2).

(** The stale ones are left out by the same query again. *)
Definition extraReposToSnapshot (filter : option ListRepoFilter) (count : nat) : DB (list row) :=
  db_call (λ d, (inr (take count (merge_sort queued_first
    (select (λ kc, snapshottableRepoConfigs (Some [OriginExternal; OriginCommunity]) d kc && negb (stale filter d kc) &&
                   has_task (task_status TaskStatusCompleted) kc.2) d))), d)).

Definition listDueRepos (filter : option ListRepoFilter) : DB (list row) :=
  staleReposToSnapshot ← map_err (ErrWrapped "error finding stale non-redhat repos") (db_call (λ d, (inr (select (stale filter d) d), d)));
  match filter ≫= lf_MinimumInterval with
  | Some interval =>
      if (0 <? interval)%Z then
        min ← minimumSnapshotCount interval;
        let n := Z.of_nat (length staleReposToSnapshot) in
        if (n <? min)%Z then
          extraRepos ← extraReposToSnapshot filter (Z.to_nat (min - n));
          mret (staleReposToSnapshot ++ extraRepos)%list
        else mret staleReposToSnapshot
      else mret staleReposToSnapshot
  | None => mret staleReposToSnapshot
  end.

Definition listDueRedHatRepos (filter : option ListRepoFilter) : DB (list row) :=
  let all d kc := snapshottableRepoConfigs (Some [OriginRedHat]) d kc && url_cond filter d kc in
  numStaleRepos ← db_call (λ d, (inr (length (select (λ kc, all d kc &&
                                       (has_task (queued_before (SnapshotInterval true)) kc.2 || no_task kc.2)) d)), d));
  if (numStaleRepos =? 0)%nat then mret [] else db_call (λ d, (inr (select (all d) d), d)).

(** The [Or] has the first condition, on snapshots, on its left side. *)
Definition failed_cond (d : db) (kc : row) : bool :=
  (c_Snapshot kc.2 && (has_task (task_status TaskStatusFailed) kc.2 && joined d kc.2 (λ r, contains [OriginRedHat; OriginCommunity] (r_origin r)))) ||
  (has_task (λ t, task_status TaskStatusFailed t && queued_before (SnapshotInterval false) t) kc.2 &&
   (kc.2.(c_FailedSnapshotCount) <? FailedSnapshotLimit)%Z).
Definition failedReposToSnapshot : DB (list row) :=
  db_call (λ d, (inr (select (λ kc, joined d kc.2 (λ _, true) && failed_cond d kc) d), d)).

Definition InternalOnly_ListReposToSnapshot (filter : option ListRepoFilter) : DB (list row) :=
  let forceSnapshots := AlwaysRunCronTasks || default false (filter ≫= lf_Force) in
  reposToSnapshot ←
    (if forceSnapshots
     then db_call (λ d, (inr (select (λ kc, snapshottableRepoConfigs None d kc && url_cond filter d kc) d), d))
     else nonRedHatReposToSnapshot ← map_err (ErrWrapped "error listing due repos") (listDueRepos filter);
          redHatReposToSnapshot ← map_err (ErrWrapped "error listing red hat repos") (listDueRedHatRepos filter);
          mret (nonRedHatReposToSnapshot ++ redHatReposToSnapshot)%list);
  failed ← failedReposToSnapshot;
  mret (reposToSnapshot ++ failed)%list.

Definition ListReposWithOutdatedSnapshots (olderThanDays : Z) : DB (list row) :=
  db_call (λ d, (inr (select (λ kc, snapshottableRepoConfigs None d kc &&
    existsb (λ us : uuid * SnapRow, (us.2.(s_RepositoryConfigurationUUID) == kc.1) && (us.2.(s_CreatedAt) <=? now - olderThanDays * Day)%Z)
      (map_to_list d.(snapshots))) d), d)).
End Due.

(** ** Enqueueing *)

Section Enqueue.
Context `{UuidText}.
Context (scan_configs : gmap uuid ConfigRow → list (uuid * ConfigRow)).
Context (now : time) (AlwaysRunCronTasks : bool) (new_id : list QTask → uuid).
(** The table of tasks in the columns that are read here. *)
Context (task_rows : list QTask → gmap uuid TaskView).

(** An error of a step is logged. *)
Definition logged {A} (m : HM A) : HM (option A) := r ← attempt m; mret (match r with inr a => Some a | inl _ => None end).
Definition on_rows {A} (m : gmap uuid TaskView → DB A) : HM A := λ '(fs, w), on_db (m (task_rows w.(w_tasks))) (fs, w).

(** One round of the loop: an error of the check is logged and counts as no active task. *)
Definition enqueue_introspection (repo : Loaded) : HM () :=
  let c := repo.(l_Config) in
  let object := uuid_String c.(c_RepositoryUUID) in
  taskIDs ← logged (TaskInfo_FetchActiveTasks c.(c_OrgID) object [IntrospectTask]);
  if (0 <? length (default [] taskIDs))%nat then mret ()
  else _ ← logged (EnqueueTask new_id IntrospectTask (IntrospectPayload (r_url repo.(l_Repository)) false None) c.(c_OrgID) c.(c_AccountID) object ObjectTypeRepository []);
       mret ().
Definition enqueue_snapshot (repo : Loaded) : HM () :=
  let c := repo.(l_Config) in
  let object := uuid_String c.(c_RepositoryUUID) in
  taskIDs ← logged (TaskInfo_FetchActiveTasks c.(c_OrgID) object [RepositorySnapshotTask]);
  if (0 <? length (default [] taskIDs))%nat then mret ()
  else
    taskUuid ← logged (EnqueueTask new_id RepositorySnapshotTask SnapshotPayload c.(c_OrgID) c.(c_AccountID) object ObjectTypeRepository []);
    match taskUuid with
    | None => mret ()
    | Some id =>
        _ ← logged (on_rows (λ rows, UpdateLastSnapshotTask rows (uuid_String id) c.(c_OrgID) object));
        _ ← logged (EnqueueTask new_id UpdateLatestSnapshotTask (UpdateLatestSnapshotPayload (uuid_String repo.(l_UUID))) c.(c_OrgID) c.(c_AccountID)
                      object ObjectTypeRepository [id]);
        mret ()
    end.

(** The query for the extra ones does not load the repository; what is read of it is only used for introspection, which is never
    asked for together with an interval. *)
Definition enqueueSnapshotRepos (urls : option (list string)) (interval : option Z) (force shouldIntrospect : bool) : HM () :=
  repoConfigs ← map_err (ErrWrapped "error getting repository configurations")
    (λ '(fs, w), on_db (InternalOnly_ListReposToSnapshot scan_configs now (task_rows w.(w_tasks)) AlwaysRunCronTasks
                          (Some (mk_ListRepoFilter urls interval (Some force)))) (fs, w));
  repos ← (λ '(fs, w), (inr (with_repository w.(w_db) <$> repoConfigs), (fs, w)));
  TxMonad.iter (λ repo, _ ← (if shouldIntrospect then enqueue_introspection repo else mret ()); enqueue_snapshot repo) repos.
End Enqueue.

(** ** What is due *)

Section Thms.
Context `{UL : UuidLaws}.
Context (scan_configs : gmap uuid ConfigRow → list (uuid * ConfigRow)).
Hypothesis scan_perm : ∀ m, scan_configs m ≡ₚ map_to_list m.
Context (now : time) (tasks : gmap uuid TaskView).
#[local] Set Default Proof Using "Type*".
Abbreviation row := (uuid * ConfigRow)%type.
Abbreviation select := (select scan_configs).

Lemma elem_of_select p d kc : kc ∈ select p d ↔ d.(configs) !! kc.1 = Some kc.2 ∧ config_live kc.2 = true ∧ p kc = true.
Proof. unfold RepoConfigDue.select. rewrite list_elem_of_filter, scan_perm. destruct kc as [u c]. rewrite elem_of_map_to_list. simpl. naive_solver. Qed.

(** A row with its repository and its last task. *)
Definition at_origin (d : db) (kc : row) (origins : list string) : Prop :=
  ∃ r, d.(repositories) !! kc.2.(c_RepositoryUUID) = Some r ∧ r_origin r ∈ origins.
Definition last_task (kc : row) (p : TaskView → Prop) : Prop := ∃ t, task_of tasks kc.2 = Some t ∧ p t.

Lemma joined_true d c p : joined d c p = true ↔ ∃ r, d.(repositories) !! c.(c_RepositoryUUID) = Some r ∧ p r = true.
Proof. unfold joined. destruct (repositories d !! _); naive_solver. Qed.

Lemma has_task_true p kc : has_task tasks p kc.2 = true ↔ last_task kc (λ t, p t = true).
Proof. unfold has_task, last_task. destruct (task_of tasks kc.2); naive_solver. Qed.

Lemma snapshottable_true o d kc :
  snapshottableRepoConfigs o d kc = true ↔
  c_Snapshot kc.2 = true ∧ at_origin d kc (default [OriginRedHat; OriginExternal; OriginCommunity] o).
Proof. unfold snapshottableRepoConfigs, at_origin. rewrite andb_true_iff, joined_true. by setoid_rewrite contains_true. Qed.

Definition custom_stale (d : db) (kc : row) : Prop :=
  c_Snapshot kc.2 = true ∧ at_origin d kc [OriginExternal; OriginCommunity] ∧
  (kc.2.(c_LastSnapshotTaskUUID) = None ∨
   last_task kc (λ t, t.(tk_Status) = TaskStatusCompleted ∧ t.(tk_QueuedAt) ≤ now - 23 * Hour)%Z).
Definition redhat_stale (d : db) (kc : row) : Prop :=
  c_Snapshot kc.2 = true ∧ at_origin d kc [OriginRedHat] ∧
  (kc.2.(c_LastSnapshotTaskUUID) = None ∨ last_task kc (λ t, t.(tk_QueuedAt) ≤ now - 45 * Minute)%Z).
Definition failed_due (d : db) (kc : row) : Prop :=
  last_task kc (λ t, t.(tk_Status) = TaskStatusFailed ∧
    (c_Snapshot kc.2 = true ∧ at_origin d kc [OriginRedHat; OriginCommunity] ∨
     (t.(tk_QueuedAt) ≤ now - 23 * Hour ∧ kc.2.(c_FailedSnapshotCount) < 10)%Z)).
Definition extra_due (d : db) (kc : row) : Prop :=
  c_Snapshot kc.2 = true ∧ at_origin d kc [OriginExternal; OriginCommunity] ∧ last_task kc (λ t, t.(tk_Status) = TaskStatusCompleted).
Definition live_row (d : db) (kc : row) : Prop :=
  d.(configs) !! kc.1 = Some kc.2 ∧ config_live kc.2 = true ∧ is_Some (d.(repositories) !! kc.2.(c_RepositoryUUID)).

Lemma at_origin_live d kc o : at_origin d kc o → is_Some (d.(repositories) !! kc.2.(c_RepositoryUUID)).
Proof. intros (r & Hr & _). by eexists. Qed.

Definition no_urls (interval : option Z) : option ListRepoFilter := Some (mk_ListRepoFilter None interval (Some false)).

Lemma stale_true interval d kc : stale now tasks (no_urls interval) d kc = true ↔ custom_stale d kc.
Proof.
  unfold stale, custom_stale. simpl. rewrite andb_true_r, andb_true_iff, orb_true_iff, snapshottable_true, has_task_true. simpl.
  unfold no_task, last_task, queued_before, task_status. setoid_rewrite andb_true_iff. setoid_rewrite bool_decide_eq_true. setoid_rewrite Z.leb_le.
  simpl. naive_solver.
Qed.

Lemma failed_true d kc : failed_cond now tasks d kc = true ↔ failed_due d kc.
Proof.
  unfold failed_cond, failed_due. rewrite orb_true_iff, !andb_true_iff, !has_task_true, joined_true, Z.ltb_lt.
  unfold last_task, at_origin, queued_before, task_status. setoid_rewrite andb_true_iff. setoid_rewrite bool_decide_eq_true.
  setoid_rewrite Z.leb_le. setoid_rewrite contains_true. simpl. naive_solver.
Qed.

Lemma redhat_true d kc :
  snapshottableRepoConfigs (Some [OriginRedHat]) d kc && (has_task tasks (queued_before now (SnapshotInterval true)) kc.2 || no_task kc.2) = true ↔
  redhat_stale d kc.
Proof.
  unfold redhat_stale. rewrite andb_true_iff, orb_true_iff, snapshottable_true, has_task_true. simpl.
  unfold no_task, last_task, queued_before. setoid_rewrite bool_decide_eq_true. setoid_rewrite Z.leb_le. simpl. naive_solver.
Qed.

(** Which Red Hat repositories are listed: all of them or none. *)
Lemma redhat_list interval d :
  ∃ l, listDueRedHatRepos scan_configs now tasks (no_urls interval) ([], d) = (inr l, ([], d)) ∧
    ∀ kc, kc ∈ l ↔ live_row d kc ∧ c_Snapshot kc.2 = true ∧ at_origin d kc [OriginRedHat] ∧ ∃ kc', live_row d kc' ∧ redhat_stale d kc'.
Proof.
  unfold listDueRedHatRepos, mbind, M_bind. simpl.
  match goal with |- context [length (select ?p d)] => set (q := p) end.
  assert (∀ kc, q kc = true ↔ redhat_stale d kc) as Hq by (intros kc; unfold q; rewrite andb_true_r; apply redhat_true).
  destruct (length (select q d) =? 0)%nat eqn:E.
  - apply Nat.eqb_eq, nil_length_inv in E. exists []. split; [done|]. intros kc. split; [by intros ?%elem_of_nil|].
    intros (_ & _ & _ & kc' & (Hc & Hl & _) & Hs). assert (kc' ∈ select q d) as Hin; [|rewrite E in Hin; by apply elem_of_nil in Hin].
    apply elem_of_select. by rewrite Hq.
  - eexists. split; [done|]. intros kc. rewrite elem_of_select, andb_true_r, snapshottable_true. simpl.
    assert (∃ kc', live_row d kc' ∧ redhat_stale d kc') as Hex.
    { destruct (select q d) as [|kc' l] eqn:Es; [done|]. assert (kc' ∈ select q d) as Hin by (rewrite Es; left).
      apply elem_of_select in Hin as (? & ? & Hs%Hq). exists kc'. split; [|done]. split_and!; [done..|]. eapply at_origin_live, Hs. }
    split; [|unfold live_row; naive_solver]. intros (? & ? & ? & Ha). split_and!; [split_and!; [done..|by eapply at_origin_live]|done..].
Qed.

#[local] Instance queued_first_total : Total (queued_first tasks).
Proof. intros x y. unfold queued_first. destruct (task_of tasks x.2), (task_of tasks y.2); try (by left); try (by right). lia. Qed.
#[local] Instance queued_first_trans : Transitive (queued_first tasks).
Proof. intros x y z. unfold queued_first. destruct (task_of tasks x.2), (task_of tasks y.2), (task_of tasks z.2); try done. lia. Qed.

Lemma take_sorted {A} (R : A → A → Prop) n l x y : StronglySorted R l → x ∈ take n l → y ∈ l → y ∉ take n l → R x y.
Proof.
  intros Hs Hx Hy Hn. rewrite <- (take_drop n l) in Hs, Hy. apply elem_of_app in Hy as [?|Hy]; [done|].
  by eapply StronglySorted_app_1_elem_of.
Qed.

Definition extra_cond (d : db) (kc : row) : bool :=
  snapshottableRepoConfigs (Some [OriginExternal; OriginCommunity]) d kc && negb (stale now tasks (no_urls None) d kc) &&
  has_task tasks (task_status TaskStatusCompleted) kc.2.

Lemma extra_true d kc : extra_cond d kc = true ↔ extra_due d kc ∧ ¬ custom_stale d kc.
Proof.
  unfold extra_cond, extra_due. rewrite !andb_true_iff, snapshottable_true, has_task_true, negb_true_iff, <- not_true_iff_false, stale_true.
  unfold last_task, task_status. setoid_rewrite bool_decide_eq_true. simpl. naive_solver.
Qed.

(** The least number of repositories per run. *)
Definition minimum (d : db) (n : Z) : Z :=
  (Z.of_nat (length (select (λ kc, c_Snapshot kc.2 && has_task tasks (λ t, negb (task_status TaskStatusFailed t)) kc.2) d)) / n + 1)%Z.

Lemma listDueRepos_eq interval d :
  listDueRepos scan_configs now tasks (no_urls interval) ([], d) =
  (let st := select (stale now tasks (no_urls None) d) d in
   inr (match interval with
        | Some n => if (0 <? n)%Z && (Z.of_nat (length st) <? minimum d n)%Z
                    then st ++ take (Z.to_nat (minimum d n - Z.of_nat (length st))) (merge_sort (queued_first tasks) (select (extra_cond d) d))
                    else st
        | None => st
        end)%list, ([], d)).
Proof.
  unfold listDueRepos, mbind, M_bind, map_err. simpl. destruct interval as [n|]; [|done]. simpl. destruct (0 <? n)%Z; [|done]. simpl.
  by destruct (_ <? _)%Z.
Qed.

Lemma stale_rows d kc : kc ∈ select (stale now tasks (no_urls None) d) d ↔ live_row d kc ∧ custom_stale d kc.
Proof.
  rewrite elem_of_select, stale_true. unfold live_row. split; [|naive_solver]. intros (? & ? & Hs). split_and!; [done..| |done].
  eapply at_origin_live, Hs.
Qed.

Lemma extra_rows d kc : kc ∈ merge_sort (queued_first tasks) (select (extra_cond d) d) ↔ live_row d kc ∧ extra_due d kc ∧ ¬ custom_stale d kc.
Proof.
  rewrite merge_sort_Permutation, elem_of_select, extra_true. unfold live_row. split; [|naive_solver]. intros (? & ? & Hs & ?).
  split_and!; [done..| |done|done]. eapply at_origin_live, Hs.
Qed.

(** The custom ones: the stale, and as many others as the interval asks for, the oldest first. *)
Lemma custom_list interval d l :
  listDueRepos scan_configs now tasks (no_urls interval) ([], d) = (inr l, ([], d)) →
  (∀ kc, live_row d kc → custom_stale d kc → kc ∈ l) ∧
  (∀ kc, kc ∈ l → live_row d kc ∧ (custom_stale d kc ∨ (∃ n, interval = Some n ∧ 0 < n)%Z ∧ extra_due d kc)) ∧
  (∀ n, interval = Some n → (0 < n)%Z → (minimum d n ≤ Z.of_nat (length l))%Z ∨ ∀ kc, live_row d kc → extra_due d kc → kc ∈ l) ∧
  ∀ x y, x ∈ l → ¬ custom_stale d x → live_row d y → extra_due d y → y ∉ l → queued_first tasks x y.
Proof.
  rewrite listDueRepos_eq. simpl. intros [= <-]. set (st := select (stale _ _ _ _) d).
  assert (∀ kc, kc ∈ st ↔ live_row d kc ∧ custom_stale d kc) as Hst by apply stale_rows.
  assert (∀ kc, live_row d kc → custom_stale d kc → kc ∈ st) as H1 by (intros; by apply Hst).
  assert (∀ e kc, kc ∈ st → live_row d kc ∧ (custom_stale d kc ∨ e ∧ extra_due d kc)) as H2 by (intros e kc [? ?]%Hst; auto).
  assert (∀ x (Q : Prop), x ∈ st → ¬ custom_stale d x → Q) as H3 by (intros x Q [_ ?]%Hst Hn; by destruct Hn).
  destruct interval as [n|]; [|split_and!; [done|by intros; apply H2|done|by intros x y Hx Hn; apply (H3 x)]].
  destruct (0 <? n)%Z eqn:Hn; simpl.
  2: { apply Z.ltb_ge in Hn. split_and!; [done|by intros; apply H2|intros ? [= <-]; lia|by intros x y Hx Hs; apply (H3 x)]. }
  apply Z.ltb_lt in Hn. destruct (_ <? minimum d n)%Z eqn:Hm.
  2: { apply Z.ltb_ge in Hm. split_and!; [done|by intros; apply H2|intros ? [= <-]; by left|by intros x y Hx Hs; apply (H3 x)]. }
  apply Z.ltb_lt in Hm.
  set (k := Z.to_nat _). set (ex := merge_sort _ _). assert (∀ kc, kc ∈ ex ↔ live_row d kc ∧ extra_due d kc ∧ ¬ custom_stale d kc) as Hex by apply extra_rows.
  split_and!.
  - intros kc ? ?. apply elem_of_app. left. by apply H1.
  - intros kc [?|(j & Hj%list_elem_of_lookup_2 & _)%elem_of_take]%elem_of_app; [by apply H2|]. apply Hex in Hj as (? & ? & _).
    split; [done|]. right. split; [by exists n|done].
  - intros ? [= <-] _. rewrite length_app, length_take. destruct (decide (length ex ≤ k)%nat) as [Hle|Hgt]; [right|left; lia].
    intros kc Hl He. apply elem_of_app. destruct (stale now tasks (no_urls None) d kc) eqn:Hs.
    + left. apply H1; [done|]. by apply (stale_true None).
    + right. rewrite take_ge by done. apply Hex. split_and!; [done..|]. rewrite <- (stale_true None), Hs. done.
  - intros x y [Hx|Hx]%elem_of_app Hns Hl He Hny; [by apply (H3 x)|]. apply not_elem_of_app in Hny as [Hy1 Hy2].
    eapply take_sorted; [apply StronglySorted_merge_sort; apply _|exact Hx| |done]. apply Hex. split_and!; [done..|]. intros ?. by apply Hy1, Hst.
Qed.
Lemma due_list_run interval d :
  ∃ l1 l2 l3, run (InternalOnly_ListReposToSnapshot scan_configs now tasks false (no_urls interval)) d = (inr ((l1 ++ l2) ++ l3)%list, d) ∧
    listDueRepos scan_configs now tasks (no_urls interval) ([], d) = (inr l1, ([], d)) ∧
    (∀ kc, kc ∈ l2 ↔ live_row d kc ∧ c_Snapshot kc.2 = true ∧ at_origin d kc [OriginRedHat] ∧ ∃ kc', live_row d kc' ∧ redhat_stale d kc') ∧
    (∀ kc, kc ∈ l3 ↔ live_row d kc ∧ failed_due d kc).
Proof.
  pose proof (listDueRepos_eq interval d) as H1. cbv zeta in H1. match type of H1 with _ = (inr ?x, _) => set (l1 := x) in * end.
  destruct (redhat_list interval d) as (l2 & H2 & R). clearbody l1.
  exists l1, l2, (select (λ kc, joined d kc.2 (λ _, true) && failed_cond now tasks d kc) d). split_and!; [|done|done|].
  - unfold run, InternalOnly_ListReposToSnapshot. simpl. unfold mbind, M_bind, map_err. rewrite H1, H2. done.
  - intros kc. unfold live_row. rewrite elem_of_select, andb_true_iff, joined_true, failed_true. split.
    + intros (? & ? & (r & ? & _) & ?). split_and!; [done..|by eexists|done].
    + intros [(? & ? & (r & ?)) ?]. split_and!; [done..|by exists r|done].
Qed.

Lemma redhat_not_custom d kc : at_origin d kc [OriginRedHat] → at_origin d kc [OriginExternal; OriginCommunity] → False.
Proof.
  intros (r & Hr & Ho) (r' & Hr' & Ho'). rewrite Hr in Hr'. injection Hr' as <-. apply list_elem_of_singleton in Ho. rewrite Ho in Ho'.
  by apply list_elem_of_In in Ho' as [?|[?|[]]].
Qed.

(** What the comments of the three queries document, for a repository that takes snapshots and whose last snapshot task, if it has one,
    has completed or failed. *)
Definition decided (d : db) (kc : row) : Prop :=
  c_Snapshot kc.2 = true ∧ at_origin d kc [OriginRedHat; OriginExternal; OriginCommunity] ∧
  (kc.2.(c_LastSnapshotTaskUUID) = None ∨ last_task kc (λ t, t.(tk_Status) = TaskStatusCompleted ∨ t.(tk_Status) = TaskStatusFailed)).
(** Custom: the previous snapshot is older than the interval or does not exist. *)
Definition documented_custom (d : db) (kc : row) : Prop :=
  at_origin d kc [OriginExternal; OriginCommunity] ∧
  (kc.2.(c_LastSnapshotTaskUUID) = None ∨
   last_task kc (λ t, t.(tk_Status) = TaskStatusCompleted ∧ t.(tk_QueuedAt) ≤ now - 23 * Hour)%Z).
(** Red Hat: one stale repository means all. *)
Definition documented_redhat (d : db) (kc : row) : Prop :=
  at_origin d kc [OriginRedHat] ∧ ∃ kc', live_row d kc' ∧ redhat_stale d kc'.
(** Failed: a Red Hat or community one always, an external one after the interval and below the limit. *)
Definition documented_failed (d : db) (kc : row) : Prop :=
  last_task kc (λ t, t.(tk_Status) = TaskStatusFailed) ∧
  (at_origin d kc [OriginRedHat; OriginCommunity] ∨
   last_task kc (λ t, t.(tk_QueuedAt) ≤ now - 23 * Hour)%Z ∧ (kc.2.(c_FailedSnapshotCount) < 10)%Z).
Definition documented (d : db) (kc : row) : Prop := documented_custom d kc ∨ documented_redhat d kc ∨ documented_failed d kc.

Lemma documented_listed d kc : decided d kc →
  documented d kc ↔ custom_stale d kc ∨ failed_due d kc ∨
    (c_Snapshot kc.2 = true ∧ at_origin d kc [OriginRedHat] ∧ ∃ kc', live_row d kc' ∧ redhat_stale d kc').
Proof.
  intros (Hs & _ & _). assert (documented_failed d kc ↔ failed_due d kc) as Hf.
  { unfold documented_failed, failed_due, last_task. split; [|naive_solver]. intros [(t & Ht & Hst) Hor]. exists t. split; [done|]. split; [done|].
    destruct Hor as [?|[(t' & Ht' & ?) ?]]; [by left|]. rewrite Ht in Ht'. simplify_eq. by right. }
  unfold documented, documented_custom, documented_redhat, custom_stale. tauto.
Qed.

(** [C19] Repositories due for a snapshot. Without failures of the database, without a restriction to URLs and without forcing, the list
    agrees with the documentation of the queries on every live repository that takes snapshots, is Red Hat's, external or of the
    community, and has no snapshot task or a last one that completed or failed: it is listed if it is documented as
    due, and, unless it is an extra one, only then. With an interval of [n] runs per day the list has at least
    the [n]th part of the repositories, or else all that qualify as extra ones, and an extra one is never taken before one that waits longer. *)
Theorem due_repositories_listed interval d :
  ∃ l, run (InternalOnly_ListReposToSnapshot scan_configs now tasks false (no_urls interval)) d = (inr l, d) ∧
  (∀ kc, live_row d kc → decided d kc → documented d kc → kc ∈ l) ∧
  (∀ kc, kc ∈ l → live_row d kc ∧ (decided d kc → documented d kc ∨ (∃ n, interval = Some n ∧ 0 < n)%Z ∧ extra_due d kc)) ∧
  (∀ n, interval = Some n → (0 < n)%Z → (minimum d n ≤ Z.of_nat (length l))%Z ∨ ∀ kc, live_row d kc → extra_due d kc → kc ∈ l) ∧
  ∀ x y, x ∈ l → extra_due d x → ¬ custom_stale d x → live_row d y → extra_due d y → y ∉ l → queued_first tasks x y.
Proof.
  destruct (due_list_run interval d) as (l1 & l2 & l3 & Hrun & H1 & R & F). destruct (custom_list interval d l1 H1) as (C1 & C2 & C3 & C4).
  exists ((l1 ++ l2) ++ l3)%list. split_and!; [done|..].
  - intros kc Hl Hd [?|[?|(? & ? & ?)]]%documented_listed; [..|done]; rewrite !elem_of_app; [left; left; auto|right; by apply F|left; right; by apply R].
  - intros kc. rewrite !elem_of_app. intros [[Hc|Hr]|Hf].
    + destruct (C2 kc Hc) as [? [?|?]]; (split; [done|]); intros Hd; [left; apply documented_listed; auto|auto].
    + apply R in Hr as (? & ?). split; [done|]. intros Hd. left. apply documented_listed; auto.
    + apply F in Hf as [? ?]. split; [done|]. intros Hd. left. apply documented_listed; auto.
  - intros n Hi Hn. rewrite !length_app. destruct (C3 n Hi Hn) as [?|Hall]; [left; lia|right]. intros. rewrite !elem_of_app. auto.
  - intros x y. rewrite !elem_of_app. intros [[Hx|Hx]|Hx] He Hs Hly Hey Hny; [apply C4; auto|..].
    + apply R in Hx as (_ & _ & Ho & _). destruct He as (_ & Ho' & _). by destruct (redhat_not_custom d x).
    + apply F in Hx as [_ (t & Ht & Hst & _)]. destruct He as (_ & _ & (t' & Ht' & Hst')). rewrite Ht in Ht'. injection Ht' as <-.
      by rewrite Hst in Hst'.
Qed.

(** A custom repository whose last task was canceled, or is still to run, is never listed. *)
Lemma canceled_not_due interval d l kc t :
  run (InternalOnly_ListReposToSnapshot scan_configs now tasks false (no_urls interval)) d = (inr l, d) →
  at_origin d kc [OriginExternal; OriginCommunity] → task_of tasks kc.2 = Some t → t.(tk_Status) ≠ TaskStatusCompleted →
  t.(tk_Status) ≠ TaskStatusFailed → kc ∉ l.
Proof.
  intros Hr Ho Ht Hc Hf Hin. destruct (due_list_run interval d) as (l1 & l2 & l3 & Hrun & H1 & R & F). rewrite Hr in Hrun. injection Hrun as ->.
  destruct (custom_list interval d l1 H1) as (_ & C2 & _ & _).
  assert (∀ p : TaskView → Prop, last_task kc p → p t) as Hp by (intros p (t' & Ht' & Hp'); rewrite Ht in Ht'; by injection Ht' as <-).
  apply elem_of_app in Hin as [[Hin|Hin]%elem_of_app|Hin].
  - destruct (C2 kc Hin) as [_ [(_ & _ & [Hn|[? _]%Hp])|[_ (_ & _ & ?%Hp)]]]; [|done..]. unfold task_of in Ht. by rewrite Hn in Ht.
  - apply R in Hin as (_ & _ & Hr' & _). by eapply redhat_not_custom.
  - apply F in Hin as [_ [? _]%Hp]. done.
Qed.
End Thms.

(** ** What is enqueued *)

Section EnqueueThms.
Context `{UL : UuidLaws}.
Context (scan_configs : gmap uuid ConfigRow → list (uuid * ConfigRow)).
Context (now : time) (AlwaysRunCronTasks : bool) (new_id : list QTask → uuid) (task_rows : list QTask → gmap uuid TaskView).
#[local] Set Default Proof Using "Type*".
Abbreviation ListRepos := (λ ts, InternalOnly_ListReposToSnapshot scan_configs now (task_rows ts) AlwaysRunCronTasks).

(** The active snapshot tasks of a repository in an organization. *)
Definition is_active (org : string) (o : uuid) (t : QTask) : Prop :=
  t.(q_OrgId) = org ∧ pg_uuid t.(q_ObjectUUID) = Some o ∧ t.(q_Typename) = RepositorySnapshotTask ∧ t.(q_active) = true.
#[global] Instance is_active_dec org o t : Decision (is_active org o t).
Proof. unfold is_active. apply _. Defined.
Definition active (org : string) (o : uuid) (ts : list QTask) : list QTask := base.filter (is_active org o) ts.

(** New tasks, of which at most one is a snapshot task, for [org] and [o] if there was none. *)
Definition extends (org : string) (o : uuid) (ts ts' : list QTask) : Prop :=
  ∃ new, ts' = (ts ++ new)%list ∧
    (∀ org' o', active org' o' new = [] ∨ org' = org ∧ o' = o ∧ active org o ts = [] ∧ length (active org o new) = 1%nat).

Lemma extends_refl org o ts : extends org o ts ts.
Proof. exists []. rewrite app_nil_r. split; [done|]. intros; by left. Qed.

Lemma extends_other org o ts t : t.(q_Typename) ≠ RepositorySnapshotTask → extends org o ts (ts ++ [t])%list.
Proof.
  intros Ht. exists [t]. split; [done|]. intros org' o'. left. unfold active. rewrite filter_cons_False by (unfold is_active; naive_solver). done.
Qed.

(** At most one before, at most one after. *)
Lemma extends_one org o ts ts' : extends org o ts ts' → (∀ org' o', length (active org' o' ts) ≤ 1)%nat → ∀ org' o', (length (active org' o' ts') ≤ 1)%nat.
Proof.
  intros (new & -> & Hnew) H1 org' o'. specialize (H1 org' o'). unfold active in *. rewrite filter_app, length_app.
  destruct (Hnew org' o') as [->|(-> & -> & -> & ->)]; simpl; lia.
Qed.

Lemma extends_more org o ts ts' org' o' : extends org o ts ts' → active org' o' ts ≠ [] → active org' o' ts' ≠ [].
Proof. intros (new & -> & _) Hne. unfold active in *. rewrite filter_app. by destruct (base.filter _ ts). Qed.

Lemma logged_run {A} (m : HM A) fs w r fs' w' : m (fs, w) = (r, (fs', w')) → logged m (fs, w) = (inr (match r with inr a => Some a | inl _ => None end), (fs', w')).
Proof. intros Hm. unfold logged, attempt, mbind, M_bind. by rewrite Hm. Qed.

Lemma enqueue_introspection_run repo org o w :
  ∃ w', enqueue_introspection new_id repo ([], w) = (inr (), ([], w')) ∧ extends org o w.(w_tasks) w'.(w_tasks) ∧ w'.(w_db) = w.(w_db).
Proof.
  unfold enqueue_introspection. erewrite bind_eq by (apply logged_run; done). simpl. destruct (0 <? _)%nat.
  - exists w. split_and!; [done|apply extends_refl|done].
  - eexists. split; [done|]. split; [by apply extends_other|done].
Qed.

Lemma enqueue_snapshot_run repo w :
  let c := repo.(l_Config) in
  ∃ w', enqueue_snapshot new_id task_rows repo ([], w) = (inr (), ([], w')) ∧ extends c.(c_OrgID) c.(c_RepositoryUUID) w.(w_tasks) w'.(w_tasks) ∧
    active c.(c_OrgID) c.(c_RepositoryUUID) w'.(w_tasks) ≠ [].
Proof.
  intros c. unfold enqueue_snapshot. fold c. erewrite bind_eq by (apply logged_run; done). simpl. rewrite length_fmap, Uuidify_String.
  set (act := base.filter _ _). assert (act = active c.(c_OrgID) c.(c_RepositoryUUID) w.(w_tasks)) as Hact.
  { apply list_filter_iff. intros t. unfold is_active. rewrite list_elem_of_singleton. done. }
  rewrite Hact. destruct (0 <? length (active _ _ _))%nat eqn:E.
  - exists w. split; [done|]. split; [apply extends_refl|]. by destruct (active _ _ _).
  - apply Nat.ltb_ge in E. assert (active (c_OrgID c) (c_RepositoryUUID c) w.(w_tasks) = []) as Hnil by (apply nil_length_inv; lia).
    erewrite bind_eq by (apply logged_run; done). simpl. set (id := new_id _). set (t := mk_QTask _ _ _ _ _ _ _ _ _).
    set (w1 := mk_world _ _).
    destruct (on_rows task_rows (λ rows, UpdateLastSnapshotTask rows (uuid_String id) (c_OrgID c) (uuid_String (c_RepositoryUUID c))) ([], w1)) as [r [fs2 w2]] eqn:Hu.
    assert (w2.(w_tasks) = w1.(w_tasks) ∧ fs2 = []) as [Hw2 ->].
    { unfold on_rows, on_db in Hu. destruct (UpdateLastSnapshotTask _ _ _ _ _) as [r' [fs' d']] eqn:Hd. injection Hu as <- <- <-. split; [done|].
      unfold UpdateLastSnapshotTask, on_config, db_call in Hd. by repeat case_match; simplify_eq. }
    erewrite bind_eq by (apply logged_run; exact Hu). erewrite bind_eq by (apply logged_run; done). simpl. eexists. split; [done|]. simpl.
    rewrite Hw2. simpl. rewrite <- app_assoc. simpl. match goal with |- context [t :: [?x]] => set (t2 := x) end. split.
    + exists [t; t2]. split; [done|]. intros org' o'. unfold active. destruct (decide (is_active org' o' t)) as [Ha|Ha].
      * right. destruct Ha as (<- & Ho & _). simpl in Ho. rewrite pg_String in Ho. injection Ho as <-. split_and!; [done..|].
        rewrite filter_cons_True, filter_cons_False; [done|by intros (_ & _ & ? & _)|]. split_and!; try done. simpl. apply pg_String.
      * left. rewrite !filter_cons_False; [done| |done]. by intros (_ & _ & ? & _).
    + unfold active. rewrite filter_app. rewrite (filter_cons_True _ t); [by intros [_ ?]%app_nil|]. split_and!; try done. simpl. apply pg_String.
Qed.

Lemma list_total ts filter d : ∃ l, ListRepos ts filter ([], d) = (inr l, ([], d)).
Proof.
  unfold InternalOnly_ListReposToSnapshot. destruct (_ || _); [by eexists|].
  assert (∃ l, listDueRepos scan_configs now (task_rows ts) filter ([], d) = (inr l, ([], d))) as [l1 H1].
  { unfold listDueRepos, minimumSnapshotCount, mbind, M_bind. destruct filter as [[urls [n|] force]|]; simpl; [|by eexists..].
    destruct (0 <? n)%Z; simpl; [|by eexists]. destruct (_ <? _)%Z; by eexists. }
  assert (∃ l, listDueRedHatRepos scan_configs now (task_rows ts) filter ([], d) = (inr l, ([], d))) as [l2 H2].
  { unfold listDueRedHatRepos, mbind, M_bind. simpl. destruct (_ =? 0)%nat; by eexists. }
  unfold mbind, M_bind, map_err. rewrite H1, H2. by eexists.
Qed.

Lemma rounds_run introspect repos w :
  ∃ w', TxMonad.iter (λ repo, _ ← (if introspect : bool then enqueue_introspection new_id repo else mret ()); enqueue_snapshot new_id task_rows repo) repos ([], w) = (inr (), ([], w')) ∧
    ((∀ org o, length (active org o w.(w_tasks)) ≤ 1)%nat → ∀ org o, (length (active org o w'.(w_tasks)) ≤ 1)%nat) ∧
    (∀ org o, active org o w.(w_tasks) ≠ [] → active org o w'.(w_tasks) ≠ []) ∧
    (∀ repo, repo ∈ repos → active repo.(l_Config).(c_OrgID) repo.(l_Config).(c_RepositoryUUID) w'.(w_tasks) ≠ []).
Proof.
  revert w. induction repos as [|repo repos IH]; intros w.
  { exists w. split_and!; [done..|]. by intros repo ?%elem_of_nil. }
  simpl. set (org := repo.(l_Config).(c_OrgID)). set (o := repo.(l_Config).(c_RepositoryUUID)).
  assert (∃ w1, (if introspect then enqueue_introspection new_id repo else mret ()) ([], w) = (inr (), ([], w1)) ∧ extends org o w.(w_tasks) w1.(w_tasks)) as (w1 & H1 & E1).
  { destruct introspect; [|exists w; split; [done|apply extends_refl]].
    destruct (enqueue_introspection_run repo org o w) as (w1 & ? & ? & _). by exists w1. }
  destruct (enqueue_snapshot_run repo w1) as (w2 & H2 & E2 & A2). destruct (IH w2) as (w3 & H3 & P1 & P2 & P3).
  exists w3. split_and!.
  - erewrite bind_eq; [exact H3|]. erewrite bind_eq; [exact H2|exact H1].
  - intros Hone. apply P1. eapply extends_one; [exact E2|]. by eapply extends_one.
  - intros org' o' Hne. apply P2. eapply extends_more; [exact E2|]. by eapply extends_more.
  - intros repo' [->|?]%elem_of_cons; [by apply P2|by apply P3].
Qed.

(** [C20] The nightly run. Without failures of the database, [enqueueSnapshotRepos] ends, every repository of the list then has
    an active snapshot task in its organization, and no repository has two of them if none had before, although the list may name
    a repository twice. *)
Theorem snapshots_enqueued_once urls interval force introspect w :
  ∃ l w', ListRepos w.(w_tasks) (Some (mk_ListRepoFilter urls interval (Some force))) ([], w.(w_db)) = (inr l, ([], w.(w_db))) ∧
    run (enqueueSnapshotRepos scan_configs now AlwaysRunCronTasks new_id task_rows urls interval force introspect) w = (inr (), w') ∧
    (∀ kc, kc ∈ l → active kc.2.(c_OrgID) kc.2.(c_RepositoryUUID) w'.(w_tasks) ≠ []) ∧
    ((∀ org o, length (active org o w.(w_tasks)) ≤ 1)%nat → ∀ org o, (length (active org o w'.(w_tasks)) ≤ 1)%nat).
Proof.
  destruct (list_total w.(w_tasks) (Some (mk_ListRepoFilter urls interval (Some force))) w.(w_db)) as [l Hl].
  destruct (rounds_run introspect (with_repository w.(w_db) <$> l) w) as (w' & Hr & H1 & _ & H2). exists l, w'. split_and!; [done| | |done].
  - unfold run, enqueueSnapshotRepos. erewrite bind_eq by (apply map_err_ok; unfold on_db; rewrite Hl; done).
    erewrite bind_eq by done. destruct w as [d ts]. cbn [w_db w_tasks] in *. by rewrite Hr.
  - intros kc Hin. apply (H2 (with_repository w.(w_db) kc)). by apply list_elem_of_fmap_2.
Qed.
End EnqueueThms.

(** ** Examples *)

Import Ex.

(** A repository with a failed task and one without a task; the time is a day later. *)
Definition due_task (status : string) : TaskView := mk_TaskView "snapshot" status 0 "org" None None None.
Definition due_tasks : gmap uuid TaskView := {[ 20%N := due_task "failed"; 21%N := due_task "canceled" ]}.
Definition with_task (t : uuid) (c : ConfigRow) : ConfigRow := set_last_task (Some t) c.
Definition due_db : db := set_configs (λ _,
  <[1%N := with_task 20%N (config 11 "org" false)]> (<[2%N := config 13 "org" false]> (<[3%N := with_task 21%N (config 11 "other" false)]> ∅))) Ex.d.

(** The canceled one is not taken up again. *)
Example due_example : fst <$> (match run (InternalOnly_ListReposToSnapshot map_to_list (24 * Hour)%Z due_tasks false (no_urls (Some 24%Z))) due_db with (inr l, _) => l | _ => [] end)
  = [2%N; 1%N].
Proof. by vm_compute. Qed.

Lemma due_repositories_listed_witness :
  ∃ l, run (InternalOnly_ListReposToSnapshot map_to_list (24 * Hour)%Z due_tasks false (no_urls (Some 24%Z))) due_db = (inr l, due_db) ∧
    (2%N, config 13 "org" false) ∈ l.
Proof.
  destruct (due_repositories_listed map_to_list (λ m, reflexivity _) (24 * Hour)%Z due_tasks (Some 24%Z) due_db) as (l & Hl & H & _).
  assert (at_origin due_db (2%N, config 13 "org" false) [OriginExternal; OriginCommunity]) as Ho by (eexists; split; [done|]; by apply contains_true).
  exists l. split; [done|]. apply H; [split_and!; try done; by eexists| |].
  - split_and!; [done| |by left]. destruct Ho as (r & Hr & Hin). exists r. split; [done|]. set_solver.
  - left. split; [done|by left].
Defined.

Definition due_world : world := mk_world due_db [].
Definition next_id (ts : list QTask) : uuid := N.of_nat (100 + length ts).
Lemma snapshots_enqueued_once_witness : ∃ (l : list (uuid * ConfigRow)) w',
  run (enqueueSnapshotRepos map_to_list (24 * Hour)%Z false next_id (λ _, due_tasks) None (Some 24%Z) false false) due_world = (inr (), w') ∧
  (2%N, config 13 "org" false) ∈ l ∧ (∀ kc, kc ∈ l → active kc.2.(c_OrgID) kc.2.(c_RepositoryUUID) w'.(w_tasks) ≠ []).
Proof.
  destruct (snapshots_enqueued_once map_to_list (24 * Hour)%Z false next_id (λ _, due_tasks) None (Some 24%Z) false false due_world)
    as (l & w' & Hl & Hr & H & _). exists l, w'. split; [done|]. split; [|done]. vm_compute in Hl. injection Hl as <-. left.
Defined.
