(* ===== verification/RepoConfigValidate.v ===== *)
(** * dao/repository_configs.go: validation of parameters and GPG keys

    [ValidateParameters] tells before a request whether a name and a URL may be used, whether there is metadata at the URL, and
    whether a key fits its signature. The yum repository at a URL and the openpgp library are parameters. *)

From S2P Require Import Prelude GoStrings GoSplit Config TxMonad Utils Models Errors DaoHelpers GoText SnapshotDao SnapshotThms TemplateDao SnapshotHandler SnapshotHandlerThms RepoConfigDao RepoConfigThms.
From stdpp Require Import options.

Open Scope string_scope.

(** ** Keys *)

Definition EndGpgKey : string := "-----END PGP PUBLIC KEY BLOCK-----".

(** Every round takes one occurrence, so that the length of the text is enough fuel. *)
Fixpoint gpg_keys_go (fuel : nat) (l : text) : list text :=
  match fuel with
  | O => []
  | S fuel =>
      match cut (chars EndGpgKey) l with
      | Some (x, y) => (x ++ chars EndGpgKey)%list :: gpg_keys_go fuel y
      | None => []
      end
  end.

Definition readGpgKeys (gpgKey : option string) : goerr + list string :=
  match gpgKey with
  | None => inl (ErrPlain "gpg key cannot be nil")
  | Some key =>
      match of_chars <$> gpg_keys_go (S (length (chars key))) (chars key) with
      | [] => inl (ErrPlain "no gpg key was found")
      | keys => inr keys
      end
  end.

Section Keys.
(** [openpgp.ReadArmoredKeyRing] and [openpgp.CheckArmoredDetachedSignature]. *)
Context {Entity : Type} (ReadArmoredKeyRing : string → goerr + list Entity)
  (CheckArmoredDetachedSignature : list Entity → string → string → option goerr).

Fixpoint load_keys (keys : list string) : goerr + list Entity :=
  match keys with
  | [] => inr []
  | k :: keys' =>
      match ReadArmoredKeyRing k with
      | inl e => inl e
      | inr [] => inl (ErrPlain "runtime error: index out of range [0] with length 0")
      | inr (entity :: _) => match load_keys keys' with inl e => inl e | inr ring => inr (entity :: ring) end
      end
  end.
Definition LoadGpgKey (gpgKey : option string) : goerr + list Entity :=
  match readGpgKeys gpgKey with inl e => inl e | inr keys => load_keys keys end.

(** The yum repository at a URL: the status and the metadata or an error; the signature, which may be missing. *)
Record YumRepository := mk_YumRepository { Repomd : Z * (goerr + string); Signature : goerr + option string }.

(** Only called with metadata and a signature. *)
Definition ValidateSignature (repo : YumRepository) (gpgKey : option string) : option goerr :=
  match LoadGpgKey gpgKey with
  | inl e => Some e
  | inr keyRing =>
      match repo.(Repomd).2, repo.(Signature) with
      | inr repomd, inr (Some sig) => CheckArmoredDetachedSignature keyRing repomd sig
      | _, _ => Some (ErrPlain "runtime error: invalid memory address or nil pointer dereference")
      end
  end.

(** ** Responses *)

Record RepositoryValidationRequest := mk_RepositoryValidationRequest {
  vq_Name : option string; vq_URL : option string; vq_GPGKey : option string; vq_MetadataVerification : bool }.
Record GenericAttributeValidationResponse := mk_Generic { va_Skipped : bool; va_Valid : bool; va_Error : string }.
Record UrlValidationResponse := mk_Url {
  vu_Skipped : bool; vu_Valid : bool; vu_Error : string; vu_HTTPCode : Z; vu_MetadataPresent : bool; vu_MetadataSignaturePresent : bool }.
Record RepositoryValidationResponse := mk_Validation {
  vr_Name : GenericAttributeValidationResponse; vr_URL : UrlValidationResponse; vr_GPGKey : GenericAttributeValidationResponse }.

Definition no_attribute : GenericAttributeValidationResponse := mk_Generic false false "".
Definition no_url : UrlValidationResponse := mk_Url false false "" 0 false false.
Definition invalid_url (msg : string) : UrlValidationResponse := mk_Url false false msg 0 false false.

Context (isTimeout : goerr → bool).

Definition validateMetadataPresence (repo : YumRepository) (r : UrlValidationResponse) : UrlValidationResponse :=
  let '(code, res) := repo.(Repomd) in
  match res with
  | inl e =>
      mk_Url r.(vu_Skipped) r.(vu_Valid) ("Error fetching YUM metadata: " +:+ (if isTimeout e then "Timeout occurred" else Error e)) code false
        r.(vu_MetadataSignaturePresent)
  | inr _ => mk_Url r.(vu_Skipped) r.(vu_Valid) r.(vu_Error) code ((200 <=? code) && (code <? 300))%Z r.(vu_MetadataSignaturePresent)
  end.

(** The response for the key, and whether there is a signature. *)
Definition checkSignaturePresent (repo : YumRepository) (q : RepositoryValidationRequest) (g : GenericAttributeValidationResponse) :
    GenericAttributeValidationResponse * bool :=
  let g :=
    match q.(vq_GPGKey) with
    | None | Some "" => mk_Generic true true g.(va_Error)
    | Some _ =>
        match LoadGpgKey q.(vq_GPGKey) with
        | inr _ => mk_Generic g.(va_Skipped) true g.(va_Error)
        | inl e => mk_Generic g.(va_Skipped) false ("Error loading GPG Key: " +:+ Error e +:+ ".  Is this a valid GPG Key?")
        end
    end in
  match repo.(Signature) with
  | inl _ | inr None => (g, false)
  | inr (Some _) =>
      (if g.(va_Valid) && negb g.(va_Skipped) && q.(vq_MetadataVerification)
       then match ValidateSignature repo q.(vq_GPGKey) with
            | None => mk_Generic g.(va_Skipped) true g.(va_Error)
            | Some e =>
                if g.(va_Error) == ""
                then mk_Generic g.(va_Skipped) false ("Error validating signature: " +:+ Error e +:+ ". Is this the correct GPG Key?")
                else g
            end
       else g, true)
  end.

(** ** The database *)

Context `{UuidText}.

Definition not_excluded (excludedUUIDS : list string) (u : uuid) : bool :=
  (length excludedUUIDS =? 0)%nat || negb (contains (Uuidify <$> excludedUUIDS) u).
Definition some_config (d : db) (p : uuid * ConfigRow → bool) : bool := existsb (λ kc, config_live kc.2 && p kc) (map_to_list d.(configs)).

Definition validateName (orgId name : string) (excludedUUIDS : list string) : DB GenericAttributeValidationResponse :=
  if name == "" then mret (mk_Generic false false "Name cannot be blank")
  else
    found ← map_err (λ e, RepositoryDBErrorToApi e None)
      (db_call (λ d, (inr (some_config d (λ kc, (c_Name kc.2 == name) && (kc.2.(c_OrgID) == orgId) && not_excluded excludedUUIDS kc.1)), d)));
    mret (if (found : bool) then mk_Generic false false ("A repository with the name '" +:+ name +:+ "' already exists.") else mk_Generic false true "").

Definition shared_with_url (d : db) (url : string) (kc : uuid * ConfigRow) : bool :=
  contains [CommunityOrg; RedHatOrg] kc.2.(c_OrgID) && joined d kc.2 (λ r, r_url r == url).
Definition own_with_url (d : db) (orgId url : string) (excludedUUIDS : list string) (kc : uuid * ConfigRow) : bool :=
  joined d kc.2 (λ r, r_url r == url) && (kc.2.(c_OrgID) == orgId) && not_excluded excludedUUIDS kc.1.

Definition validateUrl (orgId url : string) (excludedUUIDS : list string) : DB UrlValidationResponse :=
  if url == "" then mret (invalid_url "URL cannot be blank")
  else
    shared ← map_err (λ e, RepositoryDBErrorToApi e None)
      (db_call (λ d, (inr (some_config d (shared_with_url d url)), d)));
    if (shared : bool) then
      mret (invalid_url ((if strings_Contains url "redhat" then "Red Hat" else "Community") +:+ " repository with this URL already exists"))
    else
      found ← map_err (λ e, RepositoryDBErrorToApi e None)
        (db_call (λ d, (inr (some_config d (own_with_url d orgId url excludedUUIDS)), d)));
      mret (if (found : bool) then invalid_url ("A repository with the URL '" +:+ url +:+ "' already exists.")
            else if stringContainsInternalWhitespace url then invalid_url "URL cannot contain whitespace."
            else mk_Url false true "" 0 false false).

(** [yum]: the repository at a URL. *)
Definition ValidateParameters (yum : string → YumRepository) (orgId : string) (params : RepositoryValidationRequest)
    (excludedUUIDS : list string) : DB RepositoryValidationResponse :=
  name ← match params.(vq_Name) with
         | None => mret (mk_Generic true false "")
         | Some name => validateName orgId name excludedUUIDS
         end;
  match params.(vq_URL) with
  | None => mret (mk_Validation name (mk_Url true false "" 0 false false) no_attribute)
  | Some raw =>
      let url := CleanupURL raw in
      u ← validateUrl orgId url excludedUUIDS;
      mret (if negb u.(vu_Valid) then mk_Validation name u no_attribute
            else
              let u := validateMetadataPresence (yum url) u in
              if negb u.(vu_MetadataPresent) then mk_Validation name u no_attribute
              else
                let '(g, signed) := checkSignaturePresent (yum url) params no_attribute in
                mk_Validation name (mk_Url u.(vu_Skipped) u.(vu_Valid) u.(vu_Error) u.(vu_HTTPCode) u.(vu_MetadataPresent) signed) g)
  end.
End Keys.

(** ** Theorems *)

Lemma has_prefix_drop p l : has_prefix p l = true → l = (p ++ drop (length p) l)%list.
Proof.
  revert l. induction p as [|a p IH]; intros [|b l]; simpl; try done. intros [Ha%bool_decide_eq_true Hp]%andb_true_iff. subst. by rewrite <- (IH l).
Qed.

Lemma cut_Some sep l x y : cut sep l = Some (x, y) → l = (x ++ sep ++ y)%list.
Proof.
  revert x. induction l as [|a l IH]; intros x; simpl.
  - destruct (has_prefix sep []) eqn:E; [|done]. intros [= <- <-]. by apply has_prefix_drop in E.
  - destruct (has_prefix sep (a :: l)) eqn:E.
    + intros [= <- <-]. by apply has_prefix_drop in E.
    + destruct (cut sep l) as [[x' y']|] eqn:Ec; [|done]. intros [= <- <-]. by rewrite (IH x' eq_refl).
Qed.

Lemma has_prefix_long p l k : (length p ≤ length l)%nat → has_prefix p (l ++ k)%list = has_prefix p l.
Proof. revert l. induction p as [|a p IH]; intros [|b l]; simpl; intros Hl; try done; [lia|]. rewrite IH by lia. done. Qed.

(** What comes later does not matter for the first occurrence. *)
Lemma cut_app sep l x y k : cut sep l = Some (x, y) → cut sep (l ++ k)%list = Some (x, y ++ k)%list.
Proof.
  revert x. induction l as [|a l IH]; intros x Hc; pose proof (cut_Some _ _ _ _ Hc) as Hl; simpl in Hc.
  - destruct (has_prefix sep []) eqn:E; [|done]. injection Hc as <- <-. destruct sep; [|done]. by destruct k.
  - assert (has_prefix sep (a :: l ++ k)%list = has_prefix sep (a :: l)) as Hp.
    { apply (has_prefix_long sep (a :: l) k). rewrite Hl, !length_app. lia. }
    simpl. rewrite Hp. destruct (has_prefix sep (a :: l)) eqn:E.
    + injection Hc as <- <-. f_equal. f_equal. rewrite <- drop_app_le; [done|]. rewrite Hl, !length_app. simpl. lia.
    + destruct (cut sep l) as [[x' y']|] eqn:Ec; [|done]. injection Hc as <- <-. by rewrite (IH x' eq_refl).
Qed.

(** A text with the end mark once, at its end. *)
Definition one_key (k : text) : Prop := ∃ x, cut (chars EndGpgKey) k = Some (x, []).

Lemma cut_first sep l x y : cut sep l = Some (x, y) → cut sep (x ++ sep)%list = Some (x, []).
Proof.
  assert (cut sep sep = Some ([], [])) as Hself.
  { pose proof (has_prefix_self sep []) as Hp. rewrite app_nil_r in Hp. destruct sep; simpl in *; [done|]. by rewrite Hp, drop_all. }
  revert x. induction l as [|a l IH]; intros x Hc; pose proof (cut_Some _ _ _ _ Hc) as Hl; simpl in Hc.
  - destruct (has_prefix sep []); [|done]. by injection Hc as <- <-.
  - destruct (has_prefix sep (a :: l)) eqn:E; [by injection Hc as <- <-|].
    destruct (cut sep l) as [[x' y']|] eqn:Ec; [|done]. injection Hc as <- <-. simpl.
    assert (has_prefix sep (a :: x' ++ sep)%list = false) as ->; [|by rewrite (IH x' eq_refl)].
    rewrite <- E, Hl. rewrite app_assoc. symmetry. apply (has_prefix_long sep (a :: x' ++ sep)%list y'). simpl. rewrite length_app. lia.
Qed.

Lemma gpg_keys_spec fuel l keys :
  (length l < fuel)%nat →
  (gpg_keys_go fuel l = keys ↔ ∃ rest, l = (concat keys ++ rest)%list ∧ Forall one_key keys ∧ cut (chars EndGpgKey) rest = None).
Proof.
  revert l keys. induction fuel as [|fuel IH]; intros l keys Hf; [lia|]. cbn [gpg_keys_go]. set (sep := chars EndGpgKey) in *.
  assert (0 < length sep)%nat as Hsep by (vm_compute; lia). split.
  - destruct (cut sep l) as [[x y]|] eqn:E; [|intros <-; exists l; by split_and!].
    apply cut_Some in E as Hl. apply cut_first in E. intros <-.
    destruct (proj1 (IH y (gpg_keys_go fuel y) ltac:(rewrite Hl, !length_app in Hf; lia)) eq_refl) as (rest & Hy & Hk & Hr).
    exists rest. split_and!; [|constructor; [by exists x|done]|done]. rewrite Hl. simpl. rewrite Hy at 1. by rewrite <- !app_assoc.
  - intros (rest & -> & Hk & Hr). destruct Hk as [|k ks [x Hx] Hks]; simpl; [by rewrite Hr|]. fold sep in Hx.
    rewrite <- app_assoc, (cut_app _ _ _ _ (concat ks ++ rest)%list Hx). apply cut_Some in Hx as Hk. rewrite app_nil_r in Hk. subst k.
    f_equal. apply IH; [|by exists rest]. cbn [concat] in Hf. rewrite !length_app in Hf. rewrite !length_app. simpl. lia.
Qed.

(** Splitting keys. [readGpgKeys] gives the parts of a text that each end in their only end mark, in order and without gaps,
    and what is left over has no end mark; it fails exactly if there is none. *)
Theorem gpg_keys_exact key :
  (∀ keys, readGpgKeys (Some key) = inr keys ↔ keys ≠ [] ∧ ∃ rest, chars key = (concat (chars <$> keys) ++ rest)%list ∧
     Forall (λ k, one_key (chars k)) keys ∧ cut (chars EndGpgKey) rest = None) ∧
  ((∃ e, readGpgKeys (Some key) = inl e) ↔ strings_Contains key EndGpgKey = false).
Proof.
  unfold readGpgKeys. set (n := S (length (chars key))). assert (length (chars key) < n)%nat as Hn by lia.
  assert (gpg_keys_go n (chars key) = [] ↔ strings_Contains key EndGpgKey = false) as Hnone.
  { rewrite (gpg_keys_spec n _ [] Hn). cbn [concat app]. unfold strings_Contains, strings_Cut. split.
    - intros (rest & -> & _ & ->). done.
    - intros Hc. exists (chars key). split_and!; [done..|]. by destruct (cut _ _) as [[]|]. }
  assert (∀ l : list text, chars <$> (of_chars <$> l) = l) as Hid.
  { intros l. rewrite <- list_fmap_compose. rewrite <- (list_fmap_id l) at 2. apply list_fmap_ext. intros i x _. apply chars_of_chars. }
  assert (∀ l : list string, of_chars <$> (chars <$> l) = l) as Hid'.
  { intros l. rewrite <- list_fmap_compose. rewrite <- (list_fmap_id l) at 2. apply list_fmap_ext. intros i x _. apply of_chars_chars. }
  split.
  - intros keys. assert (Forall (λ k, one_key (chars k)) keys ↔ Forall one_key (chars <$> keys)) as Hfm by (by rewrite Forall_fmap).
    setoid_rewrite Hfm.
    assert (of_chars <$> gpg_keys_go n (chars key) = keys ↔ gpg_keys_go n (chars key) = chars <$> keys) as Hiff.
    { split; [by intros <-|by intros ->]. }
    rewrite <- (gpg_keys_spec n _ _ Hn), <- Hiff. destruct (of_chars <$> _) as [|k ks]; [naive_solver|]. split; [intros [= <-]; by split|by intros [_ ->]].
  - rewrite <- Hnone. destruct (gpg_keys_go n (chars key)); simpl; naive_solver.
Qed.

Section Validation.
Context `{UT : UuidText}.
#[local] Set Default Proof Using "Type*".

Lemma some_config_false d p : some_config d p = false ↔ ∀ u c, d.(configs) !! u = Some c → config_live c = true → p (u, c) = false.
Proof.
  unfold some_config. rewrite existsb_false. split.
  - intros Ha u c Hc Hl. specialize (Ha (u, c)). rewrite elem_of_map_to_list in Ha. specialize (Ha Hc). simpl in Ha. by rewrite Hl in Ha.
  - intros Ha [u c] Hc%elem_of_map_to_list. simpl. destruct (config_live c) eqn:Hl; [|done]. by apply Ha.
Qed.

Lemma not_excluded_true ex u : not_excluded ex u = true ↔ u ∉ Uuidify <$> ex.
Proof.
  unfold not_excluded. rewrite orb_true_iff, negb_true_iff, contains_false. destruct ex; simpl; [|naive_solver].
  split; [|by left]. intros _. apply not_elem_of_nil.
Qed.

(** The live configurations that take a URL or a name, for an organization and without those to be replaced. *)
Definition name_free (d : db) (org name : string) (ex : list string) : Prop :=
  ∀ u c, d.(configs) !! u = Some c → config_live c = true → c.(c_OrgID) = org → c_Name c = name → u ∈ Uuidify <$> ex.
Definition url_free (d : db) (org url : string) (ex : list string) : Prop :=
  ∀ u c r, d.(configs) !! u = Some c → config_live c = true → d.(repositories) !! c.(c_RepositoryUUID) = Some r → r_url r = url →
    (c.(c_OrgID) ∉ [CommunityOrg; RedHatOrg]) ∧ (c.(c_OrgID) = org → u ∈ Uuidify <$> ex).

Lemma validateName_run org name ex d :
  ∃ r, validateName org name ex ([], d) = (inr r, ([], d)) ∧ (r.(va_Valid) = true ↔ name ≠ "" ∧ name_free d org name ex).
Proof.
  unfold validateName. case_bool_decide as Hn; [eexists; split; [done|]; simpl; naive_solver|].
  unfold mbind, M_bind. simpl. set (b := some_config _ _). eexists. split; [done|].
  assert (b = false ↔ name_free d org name ex) as <-.
  { unfold b. rewrite some_config_false. unfold name_free. split.
    - intros Ha u c Hc Hl Ho Hnm. specialize (Ha u c Hc Hl). simpl in Ha. rewrite !bool_decide_true in Ha by done. simpl in Ha.
      destruct (decide (u ∈ Uuidify <$> ex)); [done|]. by rewrite (proj2 (not_excluded_true ex u)) in Ha.
    - intros Ha u c Hc Hl. simpl. apply not_true_iff_false. rewrite !andb_true_iff, !bool_decide_eq_true, not_excluded_true.
      intros [[? ?] Hx]. by apply Hx, (Ha u c). }
  destruct b; simpl; naive_solver.
Qed.

Lemma validateUrl_run org url ex d :
  ∃ r, validateUrl org url ex ([], d) = (inr r, ([], d)) ∧
    (r.(vu_Valid) = true ↔ url ≠ "" ∧ stringContainsInternalWhitespace url = false ∧ url_free d org url ex).
Proof.
  unfold validateUrl. case_bool_decide as Hn; [eexists; split; [done|]; simpl; naive_solver|].
  unfold mbind, M_bind. simpl. set (b1 := some_config d (shared_with_url d url)). set (b2 := some_config d (own_with_url d org url ex)).
  assert (b1 = false ∧ b2 = false ↔ url_free d org url ex) as Hfree.
  { unfold b1, b2. rewrite !some_config_false. unfold url_free, shared_with_url, own_with_url. cbn [fst snd]. split.
    - intros [H1 H2] u c r Hc Hl Hr Hu. specialize (H1 u c Hc Hl). specialize (H2 u c Hc Hl). unfold joined in *. rewrite Hr in *.
      rewrite (bool_decide_true (r_url r = url)) in * by done. simpl in H2. rewrite andb_true_r, contains_false in H1. split; [done|].
      intros Ho. rewrite bool_decide_true in H2 by done. simpl in H2. destruct (decide (u ∈ Uuidify <$> ex)); [done|].
      by rewrite (proj2 (not_excluded_true ex u)) in H2.
    - intros Ha. split; intros u c Hc Hl; unfold joined; destruct (repositories d !! _) as [r|] eqn:Hr; rewrite ?andb_false_r; try done;
        apply not_true_iff_false; rewrite !andb_true_iff, ?bool_decide_eq_true, ?contains_true, ?not_excluded_true.
      + intros [Ho Hu]. by apply (Ha u c r Hc Hl Hr Hu) in Ho.
      + intros [[Hu Ho] Hx]. by apply Hx, (Ha u c r Hc Hl Hr Hu). }
  clearbody b1. destruct b1; (eexists; split; [done|]; rewrite <- Hfree; clear Hfree); [simpl; naive_solver|]. fold b2. clearbody b2.
  destruct b2, (stringContainsInternalWhitespace url); simpl; (split; [intros ?; split_and!; congruence|intros (? & ? & ? & ?); congruence]).
Qed.

Context {Entity : Type} (ReadArmoredKeyRing : string → goerr + list Entity)
  (CheckArmoredDetachedSignature : list Entity → string → string → option goerr) (isTimeout : goerr → bool).

Lemma free_no_clash d org name ex u c :
  name_free d org name ex → (∀ v, v ∈ Uuidify <$> ex → v = u) → c.(c_OrgID) = org → c_Name c = name → config_clash (same_name c) u d = false.
Proof.
  intros Hf Hex Ho Hn. apply config_clash_false. intros k c' Hk Hne Hl. apply not_true_iff_false. unfold same_name.
  rewrite andb_true_iff, !bool_decide_eq_true. intros [Ho' Hn']. apply Hne, Hex. by apply (Hf k c'); [..|congruence|congruence].
Qed.

(** Validating parameters. Without failures of the database, whatever is found at the URL: a name is reported as valid exactly
    if it is not blank and no live configuration of the organization has it, other than those left out; a URL, exactly if its
    cleaned form is not blank, has no space inside, and is not that of a repository of the organization, of Red Hat or of the
    community. A name reported as valid does not violate the uniqueness of names when it is stored. *)
Theorem validation_exact yum org name raw gpg verify ex d :
  ∃ r, run (ValidateParameters ReadArmoredKeyRing CheckArmoredDetachedSignature isTimeout yum org
              (mk_RepositoryValidationRequest (Some name) (Some raw) gpg verify) ex) d = (inr r, d) ∧
    (r.(vr_Name).(va_Valid) = true ↔ name ≠ "" ∧ name_free d org name ex) ∧
    (r.(vr_URL).(vu_Valid) = true ↔
       CleanupURL raw ≠ "" ∧ stringContainsInternalWhitespace (CleanupURL raw) = false ∧ url_free d org (CleanupURL raw) ex) ∧
    (r.(vr_Name).(va_Valid) = true → ∀ u c, (∀ v, v ∈ Uuidify <$> ex → v = u) → c.(c_OrgID) = org → c_Name c = name →
       config_clash (same_name c) u d = false).
Proof.
  destruct (validateName_run org name ex d) as (rn & Hn & Hvn). destruct (validateUrl_run org (CleanupURL raw) ex d) as (ru & Hu & Hvu).
  unfold run, ValidateParameters. cbn [vq_Name vq_URL]. rewrite (bind_eq _ _ _ _ _ Hn). cbv zeta. rewrite (bind_eq _ _ _ _ _ Hu).
  match goal with |- context [mret ?x] => set (resp := x) end. exists resp. split; [done|].
  assert (resp.(vr_Name) = rn ∧ resp.(vr_URL).(vu_Valid) = ru.(vu_Valid)) as [-> ->].
  { unfold resp, validateMetadataPresence. destruct ru as [sk [] er hc mp sg]; simpl; [|done].
    destruct (Repomd (yum (CleanupURL raw))) as [code [e|m]]; simpl; [done|]. destruct (_ && _); simpl; [|done].
    by destruct (checkSignaturePresent _ _ _ _ _) as [g signed]. }
  split; [done|]. split; [done|]. intros [_ Hf]%Hvn u c. by apply free_no_clash.
Qed.
End Validation.

(** ** Examples *)

Import Ex.

Definition two_keys : string := "k1" +:+ EndGpgKey +:+ "k2" +:+ EndGpgKey +:+ "rest".
Example two_keys_read : readGpgKeys (Some two_keys) = inr ["k1" +:+ EndGpgKey; "k2" +:+ EndGpgKey].
Proof. by vm_compute. Qed.

Definition no_yum (url : string) : YumRepository := mk_YumRepository (404%Z, inr "") (inr None).
Lemma validation_exact_witness : ∃ r,
  run (ValidateParameters (λ _, inr [tt]) (λ _ _ _, None) (λ _, false) no_yum "org" (mk_RepositoryValidationRequest (Some "new") (Some "https://a") None false) []) Ex.d = (inr r, Ex.d) ∧
  r.(vr_Name).(va_Valid) = true ∧ r.(vr_URL).(vu_Valid) = false ∧ name_free Ex.d "org" "new" [].
Proof.
  destruct (validation_exact (λ _, inr [tt]) (λ _ _ _, None) (λ _, false) no_yum "org" "new" "https://a" None false [] Ex.d) as (r & Hr & Hn & _).
  exists r. split; [done|]. vm_compute in Hr. injection Hr as <-. split; [done|]. split; [done|]. by apply Hn.
Defined.
