(* ===== verification/Pulp.v ===== *)
(** * clients/pulp_client: Pulp as the tasks see it

    Pulp is a service: [PulpClient] is the interface of src/pkg/clients/pulp_client/interfaces.go that the task handlers use,
    with the domain of the client as the first argument of a request ([WithDomain] returns the client of another domain).
    [PulpLaws] states what the handlers rely on. The selection of created resources in task.go is modelled, and a small
    in-memory Pulp satisfies the laws.

    A request may fail before it reaches Pulp: a client function is run by [db_call]. *)

From S2P Require Import Prelude GoStrings GoSplit Config TxMonad Errors PulpTask.
From stdpp Require Import pretty options.

Open Scope string_scope.

(** ** Responses *)

(** zest.RpmRpmDistributionResponse. The publication may be absent from the response, null, or set. *)
Record DistInfo := mk_DistInfo {
  i_PulpHref : option string; i_Name : string; i_Publication : option (option string); i_ContentGuard : option string }.
Record Distribution := mk_Distribution { d_Info : DistInfo; d_BasePath : string }.
Definition d_PulpHref (d : Distribution) : option string := d.(d_Info).(i_PulpHref).
Definition d_Name (d : Distribution) : string := d.(d_Info).(i_Name).
Definition d_Publication (d : Distribution) : option string := mjoin d.(d_Info).(i_Publication).
Definition d_PublicationIsSet (d : Distribution) : bool := bool_decide (is_Some d.(d_Info).(i_Publication)).
Definition d_ContentGuard (d : Distribution) : option string := d.(d_Info).(i_ContentGuard).

Record TaskResponse := mk_TaskResponse { t_PulpHref : option string; t_State : string; t_CreatedResources : list string }.
Record PulpRepository := mk_PulpRepository { pr_PulpHref : option string; pr_LatestVersionHref : option string }.

(** The counts of a version by kind of content; [None] where the count is missing or is not a number. *)
Record ContentSummary := mk_ContentSummary {
  cs_Present : gmap string (option Z); cs_Added : gmap string (option Z); cs_Removed : gmap string (option Z) }.

(** ** The interface *)

Class PulpClient (S : Type) := {
  CreateRpmDistribution (dom publicationHref name basePath : string) (guard : option string) : S → (goerr + option string) * S;
  UpdateRpmDistribution (dom href publicationHref name basePath : string) (guard : option string) : S → (goerr + string) * S;
  DeleteRpmDistribution (dom href : string) : S → (goerr + option string) * S;
  FindDistributionByPath (dom path : string) : S → (goerr + option Distribution) * S;
  PollTask (dom taskHref : string) : S → (goerr + TaskResponse) * S;
  GetTask (dom taskHref : string) : S → (goerr + TaskResponse) * S;
  CancelTask (dom taskHref : string) : S → (goerr + TaskResponse) * S;
  CreateOrUpdateGuardsForOrg (dom orgId : string) : S → (goerr + string) * S;
  CreateOrUpdateGuardsForRhelRepo (dom featureNames : string) : S → (goerr + string) * S;
  (** The publication, with its href. *)
  FindRpmPublicationByVersion (dom versionHref : string) : S → (goerr + option (option string)) * S;
  CreateRpmPublication (dom versionHref : string) : S → (goerr + option string) * S;
  GetRpmRepositoryByName (dom name : string) : S → (goerr + option PulpRepository) * S;
  CreateRpmRepository (dom name : string) (remoteHref : option string) : S → (goerr + PulpRepository) * S;
  SyncRpmRepository (dom repoHref : string) (remoteHref : option string) : S → (goerr + string) * S;
  DeleteRpmRepository (dom repoHref : string) : S → (goerr + string) * S;
  GetRpmRepositoryVersion (dom href : string) : S → (goerr + option ContentSummary) * S;
  DeleteRpmRepositoryVersion (dom href : string) : S → (goerr + option string) * S;
  ModifyRpmRepositoryContent (dom repoHref : string) (add remove : list string) : S → (goerr + string) * S;
  (** The remote, with its href. *)
  GetRpmRemoteByName (dom name : string) : S → (goerr + option (option string)) * S;
  CreateRpmRemote (dom name url : string) (cert key ca : option string) : S → (goerr + option string) * S;
  UpdateRpmRemote (dom href url : string) (cert key ca : option string) : S → (goerr + string) * S;
  DeleteRpmRemote (dom href : string) : S → (goerr + string) * S;
  LookupOrCreateDomain (name : string) : S → (goerr + string) * S;
  LookupDomain (name : string) : S → (goerr + string) * S;
  UpdateDomainIfNeeded (name : string) : S → (goerr + ()) * S
}.

(** ** task.go *)

(** The part of [s] after the first occurrence of [sub]. *)
Fixpoint after_first (sub s : string) : option string :=
  if has_prefix (chars sub) (chars s) then Some (str_drop (String.length sub) s)
  else match s with "" => None | String _ s' => after_first sub s' end.

(** [regexp.MatchString("/pulp/.*/api/v3/<kind>/rpm/rpm/.*/", s)] on a single line. *)
Definition matches_href (kind s : string) : bool :=
  match (after_first "/pulp/" s ≫= after_first ("/api/v3/" +:+ kind +:+ "/rpm/rpm/")) ≫= after_first "/" with
  | Some _ => true
  | None => false
  end.

Definition is_digit (c : ascii) : bool := (Ascii.nat_of_ascii "0" <=? Ascii.nat_of_ascii c)%nat && (Ascii.nat_of_ascii c <=? Ascii.nat_of_ascii "9")%nat.
Fixpoint digits_slash (s : string) : bool :=
  match s with "" => false | String c s' => if Ascii.eqb c "/" then true else is_digit c && digits_slash s' end.
(** [/versions/[0-9]*/] somewhere in [s]. *)
Fixpoint has_version (s : string) : bool :=
  (if has_prefix (chars "/versions/") (chars s) then digits_slash (str_drop 10 s) else false) ||
  match s with "" => false | String _ s' => has_version s' end.
Definition matches_version (s : string) : bool :=
  match after_first "/pulp/" s ≫= after_first "/api/v3/repositories/rpm/rpm/" with
  | Some rest => has_version rest
  | None => false
  end.

(** The first created resource that matches. *)
Definition SelectCreatedVersionHref (task : option TaskResponse) (matches : string → bool) : option string :=
  match task with
  | Some t => head (base.filter (λ r, matches r = true) t.(t_CreatedResources))
  | None => None
  end.
Definition SelectVersionHref (task : option TaskResponse) : option string := SelectCreatedVersionHref task matches_version.
Definition SelectPublicationHref (task : option TaskResponse) : option string :=
  SelectCreatedVersionHref task (matches_href "publications").
Definition SelectRpmDistributionHref (task : option TaskResponse) : option string :=
  SelectCreatedVersionHref task (matches_href "distributions").

Lemma selected_created t matches h :
  SelectCreatedVersionHref (Some t) matches = Some h → matches h = true ∧ h ∈ t.(t_CreatedResources).
Proof. intros H%head_Some_elem_of. by apply list_elem_of_filter in H. Qed.

(** models/snapshot.go *)
Definition counts (m : gmap string (option Z)) : gmap string Z := omap id m.
Definition ContentSummaryToContentCounts (summary : option ContentSummary) : gmap string Z * gmap string Z * gmap string Z :=
  match summary with
  | Some cs => (counts cs.(cs_Present), counts cs.(cs_Added), counts cs.(cs_Removed))
  | None => (∅, ∅, ∅)
  end.

(** ** What the code relies on *)

(** What a task of Pulp changes: a distribution (which it makes, changes, or deletes), the publication of a version, the
    artifact of an uploaded file, the package of an artifact, or none of these. *)
Inductive TaskKind :=
  DistributionTask | DeletionTask | PublicationTask (versionHref : string) | ArtifactTask (sha256 : string)
| PackageTask (artifactHref : string) | OtherTask.
Definition is_dist_task (k : TaskKind) : bool := match k with DistributionTask | DeletionTask => true | _ => false end.

(** Requests that leave the distributions alone. *)
Inductive quiet {S} `{PulpClient S} : ∀ A, (S → (goerr + A) * S) → Prop :=
  | quiet_find dom p : quiet _ (FindDistributionByPath dom p)
  | quiet_get_task dom t : quiet _ (GetTask dom t)
  | quiet_org_guard dom o : quiet _ (CreateOrUpdateGuardsForOrg dom o)
  | quiet_rhel_guard dom f : quiet _ (CreateOrUpdateGuardsForRhelRepo dom f)
  | quiet_find_publication dom v : quiet _ (FindRpmPublicationByVersion dom v)
  | quiet_create_publication dom v : quiet _ (CreateRpmPublication dom v)
  | quiet_find_repository dom n : quiet _ (GetRpmRepositoryByName dom n)
  | quiet_create_repository dom n r : quiet _ (CreateRpmRepository dom n r)
  | quiet_sync dom h r : quiet _ (SyncRpmRepository dom h r)
  | quiet_get_version dom h : quiet _ (GetRpmRepositoryVersion dom h)
  | quiet_delete_version dom h : quiet _ (DeleteRpmRepositoryVersion dom h)
  | quiet_find_remote dom n : quiet _ (GetRpmRemoteByName dom n)
  | quiet_create_remote dom n u c k a : quiet _ (CreateRpmRemote dom n u c k a)
  | quiet_update_remote dom h u c k a : quiet _ (UpdateRpmRemote dom h u c k a)
  | quiet_lookup_or_create n : quiet _ (LookupOrCreateDomain n)
  | quiet_lookup n : quiet _ (LookupDomain n)
  | quiet_update_domain n : quiet _ (UpdateDomainIfNeeded n).
#[export] Hint Constructors quiet : go.

(** [dists] are the distributions by domain and path. A creation, an update or a deletion takes effect when its task has
    completed; a distribution that is not there is not deleted, and a deletion, even a failed one, makes no distribution. A publication belongs to one version for ever, and a
    task href to one task. *)
Class PulpLaws (S : Type) `{PulpClient S} := {
  dists : S → gmap (string * string) DistInfo;
  task_kind : string → TaskKind;
  version_of : string → string;
  quiet_dists A f (s : S) : quiet A f → dists (f s).2 = dists s;
  poll_dists dom t s : is_dist_task (task_kind t) = false → dists (PollTask dom t s).2 = dists s;
  find_result dom p s r s' :
    FindDistributionByPath dom p s = (inr r, s') → r = (λ i, mk_Distribution i p) <$> dists s !! (dom, p);
  create_poll dom pub name p g s task s1 tr s2 :
    CreateRpmDistribution dom pub name p g s = (inr (Some task), s1) → PollTask dom task s1 = (inr tr, s2) →
    t_State tr = COMPLETED →
    dists s2 = <[(dom, p) := mk_DistInfo (SelectRpmDistributionHref (Some tr)) name (Some (Some pub)) g]> (dists s);
  update_poll dom href pub name p g s i task s1 tr s2 :
    dists s !! (dom, p) = Some i → i.(i_PulpHref) = Some href →
    UpdateRpmDistribution dom href pub name p g s = (inr task, s1) → PollTask dom task s1 = (inr tr, s2) →
    t_State tr = COMPLETED → dists s2 = <[(dom, p) := mk_DistInfo (Some href) name (Some (Some pub)) g]> (dists s);
  delete_poll dom href s task s1 tr s2 :
    DeleteRpmDistribution dom href s = (inr (Some task), s1) → PollTask dom task s1 = (inr tr, s2) →
    t_State tr = COMPLETED → dists s2 = base.filter (λ ki, ki.2.(i_PulpHref) ≠ Some href) (dists s);
  delete_none dom href s s1 :
    DeleteRpmDistribution dom href s = (inr None, s1) →
    dists s1 = dists s ∧ (href ≠ "" → ∀ k i, dists s !! k = Some i → i.(i_PulpHref) ≠ Some href);
  delete_shrinks dom href s : dists (DeleteRpmDistribution dom href s).2 ⊆ dists s;
  delete_task dom href s t s1 : DeleteRpmDistribution dom href s = (inr (Some t), s1) → task_kind t = DeletionTask;
  deletion_poll dom t s : task_kind t = DeletionTask → dists (PollTask dom t s).2 ⊆ dists s;
  publication_found dom v s h s' : FindRpmPublicationByVersion dom v s = (inr (Some (Some h)), s') → version_of h = v;
  publication_task dom v s t s' : CreateRpmPublication dom v s = (inr (Some t), s') → task_kind t = PublicationTask v ∧ t ≠ "";
  publication_created dom v t s tr s' h :
    task_kind t = PublicationTask v → PollTask dom t s = (inr tr, s') → SelectPublicationHref (Some tr) = Some h → version_of h = v;
  sync_task dom r m s t s' : SyncRpmRepository dom r m s = (inr t, s') → task_kind t = OtherTask;
  version_task dom h s t s' : DeleteRpmRepositoryVersion dom h s = (inr (Some t), s') → task_kind t = OtherTask
}.

(** The distribution at [path] serves [pub] behind [guard]. *)
Definition serves {S} `{PulpLaws S} (dom path pub : string) (guard : option string) (s : S) : Prop :=
  ∃ i, dists s !! (dom, path) = Some i ∧ i.(i_Publication) = Some (Some pub) ∧ i.(i_ContentGuard) = guard.

(** The versions of repositories. A version whose deletion has completed is gone, and so is one that was not found. *)
Class PulpVersions (S : Type) `{PulpClient S} := {
  version_there : S → string → Prop;
  version_deleted dom h s t s1 tr s2 :
    DeleteRpmRepositoryVersion dom h s = (inr (Some t), s1) → PollTask dom t s1 = (inr tr, s2) → t_State tr = COMPLETED → ¬ version_there s2 h;
  version_missing dom h s s1 : DeleteRpmRepositoryVersion dom h s = (inr None, s1) → ¬ version_there s1 h;
  version_read dom h h' s : version_there (GetRpmRepositoryVersion dom h s).2 h' → version_there s h'
}.

(** No task that is waited for is canceled or skipped in Pulp. [PollTask] returns such a task without an error, and no caller
    looks at its state: the tasks then go on as if it had completed (see [PulpTask.poll_ends]). What they achieve in Pulp is
    stated for the runs in which this does not happen. *)
Definition tasks_complete (S : Type) `{PulpClient S} : Prop :=
  ∀ dom task (s : S) tr s', PollTask dom task s = (inr tr, s') → t_State tr = COMPLETED.

(** ** An in-memory Pulp

    Versions of a repository are made by a sync from the versions upstream has to offer; tasks are done at once, and
    [mem_results] has what they created. *)

Record mem := mk_mem {
  mem_dists : gmap (string * string) DistInfo; mem_published : gset string; mem_repos : gmap (string * string) (option string);
  mem_upstream : list string; mem_results : gmap string (list string) }.

Definition mem_dist_task : string := "/pulp/api/v3/tasks/d/".
Definition mem_del_task : string := "/pulp/api/v3/tasks/x/".
Definition mem_other_task : string := "/pulp/api/v3/tasks/o/".
Definition mem_version_task (v : string) : string := "/pulp/api/v3/tasks/v/" +:+ v.
Definition mem_artifact_prefix : string := "/pulp/api/v3/tasks/a".
Definition mem_artifact_task (sha256 : string) : string := mem_artifact_prefix +:+ sha256.
Definition mem_package_prefix : string := "/pulp/api/v3/tasks/c".
Definition mem_package_task (artifact : string) : string := mem_package_prefix +:+ artifact.
Definition mem_pub_prefix : string := "/pulp/api/v3/tasks/p".
Definition mem_pub_task (v : string) : string := mem_pub_prefix +:+ v.
Definition mem_kind (t : string) : TaskKind :=
  if t == mem_dist_task then DistributionTask
  else if t == mem_del_task then DeletionTask
  else if has_prefix (chars mem_pub_prefix) (chars t) then PublicationTask (str_drop (String.length mem_pub_prefix) t)
  else if has_prefix (chars mem_artifact_prefix) (chars t) then ArtifactTask (str_drop (String.length mem_artifact_prefix) t)
  else if has_prefix (chars mem_package_prefix) (chars t) then PackageTask (str_drop (String.length mem_package_prefix) t)
  else OtherTask.

Definition mem_dist_href (dom p : string) : string := "/pulp/" +:+ dom +:+ "/api/v3/distributions/rpm/rpm/" +:+ p +:+ "/".
Definition mem_pub_root : string := "/pulp/d/api/v3/publications/rpm/rpm/".
Definition mem_pub_href (v : string) : string := mem_pub_root +:+ v.
Definition mem_version_of (h : string) : string := str_drop (String.length mem_pub_root) h.
Definition mem_repo_href (dom n : string) : string := dom +:+ ":" +:+ n.
(** An artifact and a package are named by their checksum. *)
Definition mem_artifact_root : string := "/pulp/artifacts/".
Definition mem_artifact_href (sha256 : string) : string := mem_artifact_root +:+ sha256.
Definition mem_artifact_checksum (h : string) : string := str_drop (String.length mem_artifact_root) h.
Definition mem_package_root : string := "/pulp/packages/".
Definition mem_package_href (sha256 : string) : string := mem_package_root +:+ sha256.
Definition mem_package_checksum (h : string) : string := str_drop (String.length mem_package_root) h.

(** A version that was made by adding packages is named by them. *)
Fixpoint mem_write (s : string) : string := match s with "" => "." | String c s' => String "=" (String c (mem_write s')) end.
Definition mem_version_href (l : list string) : string := "contents:" +:+ foldr (λ s acc, mem_write s +:+ acc) "" l.
Fixpoint mem_read (cur : list ascii) (s : string) : list string :=
  match s with
  | String "=" (String c s') => mem_read (c :: cur) s'
  | String "." s' => of_chars (reverse cur) :: mem_read [] s'
  | _ => []
  end.
Definition mem_contents (v : string) : list string := if has_prefix (chars "contents:") (chars v) then mem_read [] (str_drop 9 v) else [].

Definition mem_done (t : string) (created : list string) (s : mem) : mem :=
  mk_mem s.(mem_dists) s.(mem_published) s.(mem_repos) s.(mem_upstream) (<[t := created]> s.(mem_results)).
Definition mem_set (f : gmap (string * string) DistInfo → gmap (string * string) DistInfo) (s : mem) : mem :=
  mk_mem (f s.(mem_dists)) s.(mem_published) s.(mem_repos) s.(mem_upstream) s.(mem_results).
Definition mem_publish (v : string) (s : mem) : mem :=
  mk_mem s.(mem_dists) ({[v]} ∪ s.(mem_published)) s.(mem_repos) s.(mem_upstream) s.(mem_results).
Definition mem_set_repos (f : gmap (string * string) (option string) → gmap (string * string) (option string)) (s : mem) : mem :=
  mk_mem s.(mem_dists) s.(mem_published) (f s.(mem_repos)) s.(mem_upstream) s.(mem_results).

Definition mem_answer (t : string) (s : mem) : TaskResponse :=
  let created := default [] (s.(mem_results) !! t) in
  mk_TaskResponse (Some t) COMPLETED
    (match mem_kind t with 
     | PublicationTask v => [mem_pub_href v]
     | ArtifactTask sha256 => [mem_artifact_href sha256]
     | PackageTask artifact => [mem_package_href (mem_artifact_checksum artifact)]
     | _ => created
     end).

Definition mem_repository (dom n : string) (v : option string) : PulpRepository :=
  mk_PulpRepository (Some (mem_repo_href dom n)) v.

Definition mem_sync (dom repo : string) (s : mem) : mem :=
  match s.(mem_upstream) with
  | v :: vs =>
      let update := λ k : string * string, λ old : option string, if mem_repo_href k.1 k.2 == repo then Some (Some v) else Some old in
      mem_done mem_other_task [v] (mk_mem s.(mem_dists) s.(mem_published) (map_imap update s.(mem_repos)) vs s.(mem_results))
  | [] => mem_done mem_other_task [] s
  end.

(** The new version has the packages of the latest one, less those that are removed, and those that are added. *)
Definition mem_modify (repo : string) (add remove : list string) (s : mem) : mem :=
  let old := mjoin (snd <$> head (base.filter (λ kv : string * string * option string, mem_repo_href kv.1.1 kv.1.2 = repo) (map_to_list s.(mem_repos)))) in
  let v := mem_version_href (add ++ base.filter (λ h, h ∉ remove) (default [] (mem_contents <$> old)))%list in
  let update := λ k : string * string, λ latest : option string, if mem_repo_href k.1 k.2 == repo then Some (Some v) else Some latest in
  mem_done mem_other_task [v] (mk_mem s.(mem_dists) s.(mem_published) (map_imap update s.(mem_repos)) s.(mem_upstream) s.(mem_results)).

#[global] Instance mem_client : PulpClient mem := {
  CreateRpmDistribution dom pub name p g s :=
    if s.(mem_dists) !! (dom, p) is Some _ then (inl (ErrPlain "400 Bad Request"), s)
    else let s1 := mem_done mem_dist_task [mem_dist_href dom p] s in
         (inr (Some mem_dist_task),
          mem_set <[(dom, p) := mk_DistInfo (SelectRpmDistributionHref (Some (mem_answer mem_dist_task s1))) name (Some (Some pub)) g]> s1);
  UpdateRpmDistribution dom href pub name p g s :=
    (inr mem_dist_task, mem_done mem_dist_task [] (mem_set <[(dom, p) := mk_DistInfo (Some href) name (Some (Some pub)) g]> s));
  DeleteRpmDistribution dom href s :=
    if existsb (λ ki, bool_decide (ki.2.(i_PulpHref) = Some href)) (map_to_list s.(mem_dists))
    then (inr (Some mem_del_task), mem_done mem_del_task [] (mem_set (base.filter (λ ki, ki.2.(i_PulpHref) ≠ Some href)) s))
    else (inr None, s);
  FindDistributionByPath dom p s := (inr ((λ i, mk_Distribution i p) <$> s.(mem_dists) !! (dom, p)), s);
  PollTask dom t s := (inr (mem_answer t s), s);
  GetTask dom t s := (inr (mem_answer t s), s);
  CancelTask dom t s := (inr (mem_answer t s), s);
  CreateOrUpdateGuardsForOrg dom o s := (inr ("guard-" +:+ o), s);
  CreateOrUpdateGuardsForRhelRepo dom f s := (inr ("rhel-" +:+ f), s);
  FindRpmPublicationByVersion dom v s :=
    (inr (if bool_decide (v ∈ s.(mem_published)) then Some (Some (mem_pub_href v)) else None), s);
  CreateRpmPublication dom v s := (inr (Some (mem_pub_task v)), mem_publish v s);
  GetRpmRepositoryByName dom n s := (inr (mem_repository dom n <$> s.(mem_repos) !! (dom, n)), s);
  CreateRpmRepository dom n _ s := (inr (mem_repository dom n None), mem_set_repos <[(dom, n) := None]> s);
  SyncRpmRepository dom repo _ s := (inr mem_other_task, mem_sync dom repo s);
  DeleteRpmRepository dom repo s := (inr mem_other_task, mem_done mem_other_task [] s);
  GetRpmRepositoryVersion dom h s := (inr (Some (mk_ContentSummary {[ "rpm.package" := Some 1%Z ]} ∅ ∅)), s);
  DeleteRpmRepositoryVersion dom h s := (inr (Some (mem_version_task h)), mem_done (mem_version_task h) [] s);
  ModifyRpmRepositoryContent dom repo add remove s := (inr mem_other_task, mem_modify repo add remove s);
  GetRpmRemoteByName dom n s := (inr (Some (Some ("remote-" +:+ n))), s);
  CreateRpmRemote dom n u c k a s := (inr (Some ("remote-" +:+ n)), s);
  UpdateRpmRemote dom h u c k a s := (inr mem_other_task, mem_done mem_other_task [] s);
  DeleteRpmRemote dom h s := (inr mem_other_task, mem_done mem_other_task [] s);
  LookupOrCreateDomain n s := (inr n, s);
  LookupDomain n s := (inr n, s);
  UpdateDomainIfNeeded n s := (inr (), s)
}.

Lemma has_prefix_own a c : has_prefix (chars a) (chars (a +:+ c)) = true.
Proof. induction a as [|x a IH]; simpl; [done|]. by rewrite bool_decide_true, IH. Qed.
Lemma str_drop_app a c : str_drop (String.length a) (a +:+ c) = c.
Proof. by induction a. Qed.

Lemma mem_kind_pub v : mem_kind (mem_pub_task v) = PublicationTask v.
Proof.
  unfold mem_kind, mem_pub_task. rewrite !bool_decide_false by done. by rewrite has_prefix_own, str_drop_app.
Qed.

#[global] Instance mem_laws : PulpLaws mem.
Proof.
  refine {| dists := mem_dists; task_kind := mem_kind; version_of := mem_version_of |}.
  - intros A f s []; try done; simpl; unfold mem_sync; by repeat case_match.
  - done.
  - by intros dom p s r s' [= <- _].
  - simpl. intros dom pub name p g s task s1 tr s2 H. case_match; [done|]. injection H as <- <-. by intros [= <- <-] _.
  - by intros dom href pub name p g s i task s1 tr s2 _ _ [= _ <-] [= _ <-] _.
  - simpl. intros dom href s task s1 tr s2 H. case_match; [|done]. injection H as _ <-. by intros [= _ <-] _.
  - simpl. intros dom href s s1 H. case_match eqn:E; [done|]. injection H as <-. split; [done|].
    intros _ k i Hk Hi. apply not_true_iff_false in E. apply E, existsb_exists. exists (k, i).
    rewrite <- list_elem_of_In, elem_of_map_to_list. by rewrite bool_decide_eq_true.
  - simpl. intros dom href s. case_match; [apply map_filter_subseteq|done].
  - simpl. intros dom href s t s1 H. by case_match; simplify_eq.
  - done.
  - simpl. intros dom v s h s' H. case_match; simplify_eq. apply (str_drop_app mem_pub_root).
  - intros dom v s t s' [= <- _]. split; [apply mem_kind_pub|done].
  - intros dom v t s tr s' h Hk [= <- _] [_ Hh]%selected_created. unfold mem_answer in Hh. rewrite Hk in Hh.
    apply list_elem_of_singleton in Hh as ->. apply (str_drop_app mem_pub_root).
  - by intros dom r m s t s' [= <- _].
  - by intros dom h s t s' [= <- _].
Defined.

(** A version whose deletion is done is gone. *)
#[global] Instance mem_versions : PulpVersions mem.
Proof.
  refine {| version_there := λ s v, s.(mem_results) !! mem_version_task v = None |}.
  - intros dom h s t s1 tr s2 [= _ <-] [= _ <-] _. simpl. by rewrite lookup_insert_eq.
  - done.
  - done.
Defined.

Lemma mem_write_read s cur rest : mem_read cur (mem_write s +:+ rest) = of_chars (reverse cur ++ chars s)%list :: mem_read [] rest.
Proof.
  revert cur. induction s as [|c s IH]; intros cur; simpl; [by rewrite app_nil_r|]. rewrite IH. by rewrite reverse_cons, <- app_assoc.
Qed.
Lemma mem_contents_version l : mem_contents (mem_version_href l) = l.
Proof.
  unfold mem_contents, mem_version_href. rewrite has_prefix_own. change 9%nat with (String.length "contents:"). rewrite str_drop_app.
  induction l as [|s l IH]; simpl; [done|]. rewrite mem_write_read, IH. simpl. by rewrite of_chars_chars.
Qed.

Lemma mem_complete : tasks_complete mem.
Proof. by intros dom t s tr s' [= <- _]. Qed.

Definition mem_empty : mem := mk_mem ∅ ∅ ∅ [] ∅.
