(* ===== verification/Distribution.v ===== *)
(** * tasks/helpers: distributions in Pulp

    [tasks/helpers/pulp_distribution_helper.go] decides which distribution serves a snapshot and which content guard protects
    it. It is modelled on the interface [PulpClient] and its theorems are proved from [PulpLaws]. The state of the monad
    is that of Pulp, an error is thrown, and a panic is the error [Panic]; the values that a function returns next to an error
    are left out, since no caller reads them. *)

From S2P Require Import Prelude GoStrings GoSplit Config TxMonad Utils Models Errors DaoHelpers PulpTask SnapshotDao SnapshotThms TemplateDao RepoConfigDao Pulp.
From stdpp Require Import options.

Open Scope string_scope.

(** config/value_constraints.go *)
Definition SubscriptionFeaturesIgnored : list string := ["RHEL-OS-x86_64"; ""; "lightwell-network-demo"].

Definition GetLatestRepoDistPath (repoUUID : string) : string := repoUUID +:+ "/" +:+ "latest".

Definition ShouldUpdateLatestDistributionOnCreate (repo : RepoResponse) : bool := negb repo.(p_Partner).

Definition distributionUpdateNeeded (existing : Distribution) (publicationHref : string) (contentGuardHref : option string) : bool :=
  if negb (OptionalStringsEqual (d_ContentGuard existing) contentGuardHref) then true
  else match d_Publication existing with
       | None => true
       | Some p => p != publicationHref
       end.

Definition gated (feature : string) : bool :=
  let names := ParseFeatures feature in
  (0 <? length names)%nat && negb (AllStringsIn names SubscriptionFeaturesIgnored).

Lemma OptionalStringsEqual_true x y : OptionalStringsEqual x y = true ↔ x = y.
Proof.
  destruct x as [a|], y as [c|]; simpl; rewrite ?bool_decide_eq_true; split; intros; by simplify_eq.
Qed.

Lemma update_not_needed d pub g :
  distributionUpdateNeeded d pub g = false → d_Publication d = Some pub ∧ d_ContentGuard d = g.
Proof.
  unfold distributionUpdateNeeded. destruct (OptionalStringsEqual _ _) eqn:Hg; [|done]. simpl.
  apply OptionalStringsEqual_true in Hg. destruct (d_Publication d) as [p|]; [|done].
  rewrite negb_false_iff, bool_decide_eq_true. by intros ->.
Qed.

Section Helper.
Context {S : Type} `{PulpClient S} `{UuidText}.
(** [config.Get().Clients.Pulp.RepoContentGuards], and the domain of the client. *)
Context (RepoContentGuards : bool) (dom : string).

Abbreviation PM := (M S goerr).

(** A nil pointer is dereferenced. *)
Definition deref {A} (o : option A) : PM A := match o with Some a => mret a | None => throw Panic end.

Definition FetchContentGuard (orgId feature : string) : PM (option string) :=
  if negb RepoContentGuards then mret None
  else if (orgId == RedHatOrg) || (orgId == CommunityOrg) then
    if gated feature then
      href ← map_err (catch (ErrWrapped "could not fetch/create/update RHEL composite content guard"))
        (db_call (CreateOrUpdateGuardsForRhelRepo dom feature));
      mret (Some href)
    else mret None
  else
    href ← map_err (catch (ErrWrapped "could not fetch/create/update content guard")) (db_call (CreateOrUpdateGuardsForOrg dom orgId));
    mret (Some href).

Definition createDistribution (publicationHref distName distPath : string) (guard : option string) : PM TaskResponse :=
  distTask ← db_call (CreateRpmDistribution dom publicationHref distName distPath guard);
  href ← deref distTask;
  db_call (PollTask dom href).

Definition updateDistribution (distHref publicationHref distName distPath : string) (guard : option string) : PM TaskResponse :=
  distTaskHref ← db_call (UpdateRpmDistribution dom distHref publicationHref distName distPath guard);
  db_call (PollTask dom distTaskHref).

(** The href of the distribution and the href of the task. *)
Definition createOrUpdateDistribution (publicationHref distName distPath : string) (guard : option string) : PM (string * string) :=
  found ← db_call (FindDistributionByPath dom distPath);
  match found with
  | None =>
      distTask ← createDistribution publicationHref distName distPath guard;
      match SelectRpmDistributionHref (Some distTask) with
      | None => throw (ErrPlain ("could not find a distribution href in task: " +:+ default "" distTask.(t_PulpHref)))
      | Some href => mret (href, default "" distTask.(t_PulpHref))
      end
  | Some resp =>
      if negb (distributionUpdateNeeded resp publicationHref guard) then mret ("", "")
      else
        href ← deref (d_PulpHref resp);
        distTask ← updateDistribution href publicationHref distName distPath guard;
        mret (href, default "" distTask.(t_PulpHref))
  end.

Definition CreateOrUpdateDistribution (repo : RepoResponse) (publicationHref distName distPath : string) : PM (string * string) :=
  contentGuardHref ← FetchContentGuard repo.(p_OrgID) repo.(p_FeatureName);
  createOrUpdateDistribution publicationHref distName distPath contentGuardHref.

Definition CreateOrUpdateLatestDistribution (repo : RepoResponse) (publicationHref : string) : PM (string * string) :=
  let uuid_ := uuid_String repo.(p_UUID) in CreateOrUpdateDistribution repo publicationHref uuid_ (GetLatestRepoDistPath uuid_).

Definition CreateOrUpdateUnguardedDistribution (publicationHref distName distPath : string) : PM (string * string) :=
  createOrUpdateDistribution publicationHref distName distPath None.

Definition CreateOrUpdateTemplateDistribution (repo : RepoResponse) (snapshot : uuid * SnapRow)
    (templateOrgID distName distPath : string) : PM (string * string) :=
  if repo.(p_Partner) && (repo.(p_OrgID) != templateOrgID) then
    if negb snapshot.2.(s_Published) then
      throw (ErrPlain ("refusing to create unguarded distribution for foreign partner repository " +:+
                       uuid_String repo.(p_UUID) +:+ " using unpublished snapshot " +:+ uuid_String snapshot.1))
    else CreateOrUpdateUnguardedDistribution snapshot.2.(s_PublicationHref) distName distPath
  else CreateOrUpdateDistribution repo snapshot.2.(s_PublicationHref) distName distPath.

Definition CreateDistribution (repo : RepoResponse) (publicationHref distName distPath : string) : PM TaskResponse :=
  contentGuardHref ← FetchContentGuard repo.(p_OrgID) repo.(p_FeatureName);
  createDistribution publicationHref distName distPath contentGuardHref.

Definition DistributionUpdateNeeded (repo : RepoResponse) (existing : Distribution) (publicationHref : string) : PM bool :=
  contentGuardHref ← FetchContentGuard repo.(p_OrgID) repo.(p_FeatureName);
  mret (distributionUpdateNeeded existing publicationHref contentGuardHref).

Definition UpdateDistribution (repo : RepoResponse) (distHref publicationHref distName distPath : string) : PM TaskResponse :=
  contentGuardHref ← FetchContentGuard repo.(p_OrgID) repo.(p_FeatureName);
  updateDistribution distHref publicationHref distName distPath contentGuardHref.

(** The href found, or that of the task that created the distribution. *)
Definition FindOrCreateDistribution (repo : RepoResponse) (publicationHref distName distPath : string) : PM string :=
  found ← db_call (FindDistributionByPath dom distPath);
  match found ≫= d_PulpHref with
  | Some href => mret href
  | None =>
      distTask ← CreateDistribution repo publicationHref distName distPath;
      match SelectRpmDistributionHref (Some distTask) with
      | None => throw (ErrPlain ("could not find a distribution href in task: " +:+ default "" distTask.(t_PulpHref)))
      | Some _ => deref distTask.(t_PulpHref)
      end
  end.
End Helper.

(** ** What the helper does to the distributions *)

Lemma deref_inr {S A} (o : option A) (w w' : list (option goerr) * S) a : deref o w = (inr a, w') → o = Some a ∧ w' = w.
Proof. destruct o; [|done]. intros [-> ->]%ret_inr. done. Qed.

Section Theorems.
Context {S : Type} `{HC : PulpClient S} `{HL : !PulpLaws S} `{HU : UuidText}.
#[local] Set Default Proof Using "Type*".

Lemma quiet_call {A} (f : S → (goerr + A) * S) fs s r fs' s' :
  quiet A f → db_call f (fs, s) = (r, (fs', s')) → dists s' = dists s.
Proof.
  intros Hf H. pose proof (quiet_dists A f s Hf) as Hq. unfold db_call in H.
  destruct fs as [|[e|] fs], (f s) as [x s1]; simplify_eq/=; done.
Qed.

Lemma poll_call dom t fs s r fs' s' :
  is_dist_task (task_kind t) = false → db_call (PollTask dom t) (fs, s) = (r, (fs', s')) → dists s' = dists s.
Proof.
  intros Hk H. pose proof (poll_dists dom t s Hk) as Hq. unfold db_call in H.
  destruct fs as [|[e|] fs], (PollTask dom t s) as [x s1]; simplify_eq/=; done.
Qed.

Lemma find_call dom p fs s r fs' s' :
  db_call (FindDistributionByPath dom p) (fs, s) = (inr r, (fs', s')) →
  dists s' = dists s ∧ r = (λ i, mk_Distribution i p) <$> dists s !! (dom, p).
Proof.
  intros H. split; [by eapply quiet_call; [apply quiet_find|]|]. apply call_inr in H. by eapply find_result.
Qed.

(** Both forms of a change: the request, then the poll of its task. *)
Lemma createDistribution_inr dom pub name p g fs s tr fs' s' :
  tasks_complete S → createDistribution dom pub name p g (fs, s) = (inr tr, (fs', s')) →
  dists s' = <[(dom, p) := mk_DistInfo (SelectRpmDistributionHref (Some tr)) name (Some (Some pub)) g]> (dists s).
Proof.
  intros Hdone (o & [fs1 s1] & Hc & (t & w & [-> ->]%deref_inr & Hp)%bind_inr)%bind_inr.
  apply call_inr in Hc, Hp. eapply create_poll; eauto.
Qed.

Lemma updateDistribution_inr dom href pub name p g fs s i tr fs' s' :
  tasks_complete S → dists s !! (dom, p) = Some i → i.(i_PulpHref) = Some href →
  updateDistribution dom href pub name p g (fs, s) = (inr tr, (fs', s')) →
  dists s' = <[(dom, p) := mk_DistInfo (Some href) name (Some (Some pub)) g]> (dists s).
Proof.
  intros Hdone Hi Hh (t & [fs1 s1] & Hc & Hp)%bind_inr. apply call_inr in Hc, Hp. eapply update_poll; eauto.
Qed.

(** Only the distribution at the path changes, and it serves the publication. *)
Definition served_at (dom p pub : string) (g : option string) (s s' : S) : Prop :=
  serves dom p pub g s' ∧ ∀ k, k ≠ (dom, p) → dists s' !! k = dists s !! k.

Lemma served_insert dom p href name pub g s s' :
  dists s' = <[(dom, p) := mk_DistInfo href name (Some (Some pub)) g]> (dists s) → served_at dom p pub g s s'.
Proof.
  unfold served_at, serves. intros ->. split; [|intros; by rewrite lookup_insert_ne]. rewrite lookup_insert_eq. by eexists.
Qed.

Lemma served_from dom p pub g s0 s s' : dists s = dists s0 → served_at dom p pub g s s' → served_at dom p pub g s0 s'.
Proof. unfold served_at. by intros ->. Qed.

Lemma createOrUpdate_serves dom pub name p g fs s r fs' s' :
  tasks_complete S → createOrUpdateDistribution dom pub name p g (fs, s) = (inr r, (fs', s')) → served_at dom p pub g s s'.
Proof.
  intros Hdone (found & [fs1 s1] & [Hd1 ->]%find_call & Hk)%bind_inr. apply (served_from _ _ _ _ _ s1); [done|].
  rewrite <- Hd1 in Hk. destruct (dists s1 !! (dom, p)) as [i|] eqn:Hi; cbn [fmap option_fmap option_map] in Hk.
  - destruct (distributionUpdateNeeded _ pub g) eqn:Hn; cbn [negb] in Hk.
    + apply bind_inr in Hk as (href & w & [Hh ->]%deref_inr & (tr & [fs2 s2] & Hu & [_ [= -> ->]]%ret_inr)%bind_inr).
      by eapply served_insert, updateDistribution_inr.
    + apply ret_inr in Hk as [_ [= -> ->]]. destruct (update_not_needed _ _ _ Hn) as [Hp Hg]. split; [|done].
      exists i. split; [done|]. split; [|done]. unfold d_Publication in Hp. cbn [d_Info] in Hp.
      destruct (i_Publication i) as [[pu|]|]; by simplify_eq/=.
  - apply bind_inr in Hk as (tr & [fs2 s2] & Hc & Hr). apply createDistribution_inr in Hc; [|done].
    destruct (SelectRpmDistributionHref (Some tr)); [|done]. apply ret_inr in Hr as [_ [= -> ->]]. by eapply served_insert.
Qed.

Context (guards : bool).

(** Content everyone may read: guards are off, or the repository is shared and none of its features needs a subscription. *)
Definition open_to_all (orgId feature : string) : bool :=
  negb guards || (((orgId == RedHatOrg) || (orgId == CommunityOrg)) && negb (gated feature)).

(** The guard that content needs. *)
Inductive GuardNeed := NoGuard | OrgGuard (orgId : string) | FeatureGuard (featureNames : string).

Definition needed_guard (orgId feature : string) : GuardNeed :=
  if open_to_all orgId feature then NoGuard
  else if (orgId == RedHatOrg) || (orgId == CommunityOrg) then FeatureGuard feature else OrgGuard orgId.

(** [g] is no guard, or one that Pulp gives, in this domain, for this organization or these features. *)
Definition guard_for (dom : string) (need : GuardNeed) (g : option string) : Prop :=
  match need with
  | NoGuard => g = None
  | OrgGuard orgId => ∃ h (s s' : S), g = Some h ∧ CreateOrUpdateGuardsForOrg dom orgId s = (inr h, s')
  | FeatureGuard names => ∃ h (s s' : S), g = Some h ∧ CreateOrUpdateGuardsForRhelRepo dom names s = (inr h, s')
  end.

Lemma guard_for_None dom need g : guard_for dom need g → (g = None ↔ need = NoGuard).
Proof using. destruct need; [by intros ->|..]; by intros (h & s & s' & -> & _). Qed.

Lemma needed_guard_open orgId feature : needed_guard orgId feature = NoGuard ↔ open_to_all orgId feature = true.
Proof using. unfold needed_guard. by destruct (open_to_all orgId feature), ((orgId == RedHatOrg) || (orgId == CommunityOrg)). Qed.

Lemma FetchContentGuard_inr dom org feature fs s g fs' s' :
  FetchContentGuard guards dom org feature (fs, s) = (inr g, (fs', s')) →
  dists s' = dists s ∧ guard_for dom (needed_guard org feature) g.
Proof.
  unfold FetchContentGuard, needed_guard, open_to_all. destruct guards; cbn [negb orb]; [|by intros [<- [= -> ->]]%ret_inr].
  destruct ((org == RedHatOrg) || (org == CommunityOrg)); cbn [negb andb orb]; [destruct (gated feature); cbn [negb andb]|].
  - intros (h & [fs1 s1] & Hr%map_err_inr & [<- [= -> ->]]%ret_inr)%bind_inr.
    split; [eapply quiet_call; [apply quiet_rhel_guard|done]|]. apply call_inr in Hr. by exists h, s, s'.
  - by intros [<- [= -> ->]]%ret_inr.
  - intros (h & [fs1 s1] & Hr%map_err_inr & [<- [= -> ->]]%ret_inr)%bind_inr.
    split; [eapply quiet_call; [apply quiet_org_guard|done]|]. apply call_inr in Hr. by exists h, s, s'.
Qed.

Lemma CreateOrUpdateDistribution_serves dom repo pub name p fs s r fs' s' :
  tasks_complete S →
  CreateOrUpdateDistribution guards dom repo pub name p (fs, s) = (inr r, (fs', s')) →
  ∃ g, served_at dom p pub g s s' ∧ guard_for dom (needed_guard repo.(p_OrgID) repo.(p_FeatureName)) g.
Proof.
  intros Hdone (g & [fs1 s1] & [Hd Hg]%FetchContentGuard_inr & Hk)%bind_inr. exists g. split; [|done].
  eapply served_from; [done|]. by eapply createOrUpdate_serves.
Qed.

(** A repository of a partner used in a template of another organization. *)
Definition foreign_partner (repo : RepoResponse) (templateOrgID : string) : bool :=
  repo.(p_Partner) && (repo.(p_OrgID) != templateOrgID).

(** The guard that a template's distribution needs: a published snapshot of another organization's partner repository
    needs none. *)
Definition template_guard (repo : RepoResponse) (templateOrgID : string) : GuardNeed :=
  if foreign_partner repo templateOrgID then NoGuard else needed_guard repo.(p_OrgID) repo.(p_FeatureName).
Definition may_serve (repo : RepoResponse) (templateOrgID : string) (snap : SnapRow) : Prop :=
  foreign_partner repo templateOrgID = true → snap.(s_Published) = true.

Lemma CreateOrUpdateTemplateDistribution_serves dom repo snap org name p fs s r fs' s' :
  tasks_complete S →
  CreateOrUpdateTemplateDistribution guards dom repo snap org name p (fs, s) = (inr r, (fs', s')) →
  ∃ g, served_at dom p snap.2.(s_PublicationHref) g s s' ∧ guard_for dom (template_guard repo org) g ∧ may_serve repo org snap.2.
Proof.
  intros Hdone. unfold CreateOrUpdateTemplateDistribution, template_guard, may_serve. fold (foreign_partner repo org).
  destruct (foreign_partner repo org); [destruct (s_Published snap.2); [|done]|]; cbn [negb].
  - intros Hk. exists None. split; [|done]. by eapply createOrUpdate_serves.
  - intros (g & Hs & Hg)%CreateOrUpdateDistribution_serves; [|done]. by exists g.
Qed.

(** Distributions of templates are guarded. When [CreateOrUpdateTemplateDistribution] returns without an error, the
    distribution at its path serves the publication of the snapshot (if Pulp's tasks complete), no other distribution has
    changed, and its guard is the right one: none if the repository is a partner's of another organization, in which case the
    snapshot is published, and for any other repository none if guards are switched off or the content is shared and needs
    no subscription, that of the features of shared content, and that of the organization which owns the repository.
    An unpublished snapshot of another organization's partner repository is refused without any request to Pulp. *)
Theorem template_distribution_guarded dom repo snap org name p s :
  tasks_complete S →
  (∀ fs r fs' s', CreateOrUpdateTemplateDistribution guards dom repo snap org name p (fs, s) = (inr r, (fs', s')) →
     ∃ g, serves dom p snap.2.(s_PublicationHref) g s' ∧ (∀ k, k ≠ (dom, p) → dists s' !! k = dists s !! k) ∧
       guard_for dom (template_guard repo org) g ∧ may_serve repo org snap.2) ∧
  (foreign_partner repo org = true → snap.2.(s_Published) = false →
   ∀ fs, ∃ e, CreateOrUpdateTemplateDistribution guards dom repo snap org name p (fs, s) = (inl e, (fs, s))).
Proof.
  intros Hdone. split.
  - intros fs r fs' s' (g & [Hs Ho] & Hg)%CreateOrUpdateTemplateDistribution_serves; [|done].
    by exists g.
  - unfold CreateOrUpdateTemplateDistribution. fold (foreign_partner repo org). intros -> -> fs. by eexists.
Qed.
End Theorems.

Module DistEx.
Definition org_repo : RepoResponse :=
  mk_RepoResponse 7 "n" "l" "https://example.com/" "external" "rpm" [] "" "" "42" None None None "" "Valid" 0 0 0 0 0 "Valid" "" false
    false 9 true None None None None "" "" "" "" false "" "" "".
Definition snapshot : uuid * SnapRow :=
  (5%N, mk_SnapRow 7 0 None "v" "/pulp/d/api/v3/publications/rpm/rpm/1/" "7/5" "cs/7/5" "" ∅ ∅ ∅ "" true).
End DistEx.

Lemma template_distribution_guarded_witness :
  ∃ r s', @CreateOrUpdateTemplateDistribution mem _ Ex.uuid_text true "cs" DistEx.org_repo DistEx.snapshot "42" "name" "path"
      ([], mem_empty) = (inr r, ([], s')) ∧
    ∃ g, serves "cs" "path" DistEx.snapshot.2.(s_PublicationHref) g s' ∧ g ≠ None.
Proof.
  pose (m := @CreateOrUpdateTemplateDistribution mem _ Ex.uuid_text true "cs" DistEx.org_repo DistEx.snapshot "42" "name" "path").
  destruct (template_distribution_guarded (HU := Ex.uuid_text) true "cs" DistEx.org_repo DistEx.snapshot "42" "name" "path" mem_empty mem_complete) as [H _].
  destruct (m ([], mem_empty)) as [[e|r] [fs' s']] eqn:E; subst m.
  { exfalso. revert E. by vm_compute. }
  assert (fs' = []) as -> by (revert E; vm_compute; intros E; by simplify_eq).
  destruct (H _ _ _ _ E) as (g & Hs & _ & Hg). exists r, s'. split; [done|]. exists g. split; [done|].
  destruct Hg as [(h & _ & _ & -> & _) _]. done.
Defined.

(** When [FindOrCreateDistribution] creates the distribution, what it returns is the href of the Pulp task. *)
Example find_or_create_returns_the_task :
  (@FindOrCreateDistribution mem _ true "cs" DistEx.org_repo "pub" "name" "path" ([], mem_empty)).1 = inr mem_dist_task.
Proof. by vm_compute. Qed.
