(* ===== verification/TaskEnv.v ===== *)
(** * The world of the task handlers

    A task handler works on the database, the table of domains, the queue, Pulp and Candlepin, and keeps a payload in
    memory that it saves with its task so that a later attempt can resume. [tworld] holds them, and [zoom] runs an operation
    on one of them. The functions the handlers share are here too: dao/domains.go, tasks/utils.go, tasks/orphaned_version.go
    and the paths of template distributions in tasks/update_template_content.go. *)

From S2P Require Import Prelude GoStrings GoSplit Config TxMonad Utils Models Errors DaoHelpers GoText SnapshotDao TemplateDao SnapshotHandler RepoConfigDao Pulp Distribution.
From stdpp Require Import options.

Open Scope string_scope.

(** ** Operations on a part of the world *)

Section Zoom.
Context {W D E : Type} (get : W → D) (set : D → W → W).

Definition zoom {A} (m : M D E A) : M W E A := λ '(fs, w),
  let '(r, (fs', d')) := m (fs, get w) in (r, (fs', set d' w)).

Lemma zoom_run {A} (m : M D E A) fs w r fs' w' :
  zoom m (fs, w) = (r, (fs', w')) → ∃ d', m (fs, get w) = (r, (fs', d')) ∧ w' = set d' w.
Proof. unfold zoom. destruct (m (fs, get w)) as [r1 [fs1 d1]]. intros; simplify_eq. by eexists. Qed.
End Zoom.

Section Errors.
Context {W : Type}.

(** The error of an operation as a value; a panic goes on. *)
Definition try {A} (m : M W goerr A) : M W goerr (goerr + A) := λ w,
  match m w with
  | (inl e, w') => if is_panic e then (inl e, w') else (inr (inl e), w')
  | (inr a, w') => (inr (inr a), w')
  end.

Lemma try_run {A} (m : M W goerr A) w r w' :
  try m w = (inr r, w') → m w = (r, w').
Proof. unfold try. destruct (m w) as [[e|a] w1]; [destruct (is_panic e)|]; intros; by simplify_eq. Qed.

(** [fmt.Errorf("...: %w", err)] around an error. *)
Definition wrap {A} (msg : string) (m : M W goerr A) : M W goerr A := map_err (catch (ErrWrapped msg)) m.

Lemma wrap_inr {A} msg (m : M W goerr A) w a w' : wrap msg m w = (inr a, w') → m w = (inr a, w').
Proof. apply map_err_inr. Qed.
End Errors.

(** [errors.Join]: nil without errors; the texts of the errors, one per line. *)
Definition errors_Join {W} (errs : list goerr) : M W goerr () :=
  match errs with [] => mret () | _ => throw (ErrPlain (strings_Join (String "010" "") (Error <$> errs))) end.

(** [errors.Is(err, context.Canceled)]. *)
Definition Canceled : goerr := ErrPlain "context canceled".
Fixpoint is_canceled_go (skip : bool) (e : goerr) : bool :=
  match e with
  | ErrPlain m => negb skip && (m == "context canceled")
  | ErrWrapped _ e' => is_canceled_go false e'
  | DaoError (Some e') _ _ _ _ _ => is_canceled_go true e'
  | DaoError None _ _ _ _ _ => false
  end.
Definition is_canceled (e : goerr) : bool := is_canceled_go false e.

(** [errors.As(err, &daoErr) && daoErr.NotFound]. *)
Definition is_dao_not_found (e : goerr) : bool :=
  match as_dao e with Some (DaoError _ _ nf _ _ _) => nf | _ => false end.

(** ** Which faults are left

    What a run leaves of the faults is a part of what it was given; an assumption on the faults holds throughout. *)

Create HintDb consumes.
Definition consumes {D E A} (m : M D E A) : Prop := ∀ fs d, ∃ n, (m (fs, d)).2.1 = drop n fs.

Section Consumes.
Context {D E : Type}.
Lemma consumes_ret {A} (a : A) : consumes (mret a : M D E A).
Proof. intros fs d. by exists 0%nat. Qed.
Lemma consumes_throw {A} (e : E) : consumes (throw e : M D E A).
Proof. intros fs d. by exists 0%nat. Qed.
Lemma consumes_call {A} (f : D → (E + A) * D) : consumes (db_call f).
Proof. intros [|[e|] fs] d; cbn; [exists 0%nat|exists 1%nat|exists 1%nat]; by repeat case_match. Qed.
Lemma consumes_bind {A B} (m : M D E A) (k : A → M D E B) : consumes m → (∀ a, consumes (k a)) → consumes (m ≫= k).
Proof.
  intros Hm Hk fs d. destruct (Hm fs d) as [n Hn]. unfold mbind, M_bind.
  destruct (m (fs, d)) as [[e|a] [fs' d']]; cbn in Hn; [by exists n|]. subst fs'. destruct (Hk a (drop n fs) d') as [k' ->].
  exists (n + k')%nat. by rewrite drop_drop.
Qed.
Lemma consumes_map_err {A} g (m : M D E A) : consumes m → consumes (map_err g m).
Proof. intros Hm fs d. destruct (Hm fs d) as [n Hn]. unfold map_err. destruct (m (fs, d)) as [[] []]; by exists n. Qed.
Lemma consumes_zoom {W A} (get : W → D) set (m : M D E A) : consumes m → consumes (zoom get set m).
Proof. intros Hm fs w. destruct (Hm fs (get w)) as [n Hn]. unfold zoom. destruct (m (fs, get w)) as [? []]. by exists n. Qed.
End Consumes.
Lemma consumes_try {D A} (m : M D goerr A) : consumes m → consumes (try m).
Proof.
  intros Hm fs d. destruct (Hm fs d) as [n Hn]. unfold try.
  destruct (m (fs, d)) as [[e|a] []]; [destruct (is_panic e)|]; by exists n.
Qed.
Lemma consumes_wrap {D A} msg (m : M D goerr A) : consumes m → consumes (wrap msg m).
Proof. apply consumes_map_err. Qed.
#[export] Hint Resolve consumes_ret consumes_throw consumes_call consumes_bind consumes_map_err consumes_zoom consumes_try
  consumes_wrap : consumes.

(** No failure of a call looks like a missing record. *)
Definition honest (fs : list (option goerr)) : Prop := ∀ e, Some e ∈ fs → is_record_not_found e = false.

Lemma honest_run {D A} (m : M D goerr A) fs d r fs' d' : consumes m → m (fs, d) = (r, (fs', d')) → honest fs → honest fs'.
Proof.
  intros Hm H Hf e He. destruct (Hm fs d) as [n Hn]. rewrite H in Hn. simpl in Hn. subst fs'.
  apply Hf. rewrite <- (take_drop n fs). set_solver.
Qed.

(** ** The world *)

Record tworld (S C P : Type) := mk_tw {
  tw_db : db; tw_domains : gmap string string; tw_tasks : list QTask; tw_pulp : S; tw_cp : C; tw_mem : P; tw_stored : P }.
#[global] Arguments mk_tw {S C P}.
#[global] Arguments tw_db {S C P}.
#[global] Arguments tw_domains {S C P}.
#[global] Arguments tw_tasks {S C P}.
#[global] Arguments tw_pulp {S C P}.
#[global] Arguments tw_cp {S C P}.
#[global] Arguments tw_mem {S C P}.
#[global] Arguments tw_stored {S C P}.

Section World.
Context {S C P : Type}.
Abbreviation W := (tworld S C P).
Definition set_db (d : db) (w : W) : W := mk_tw d w.(tw_domains) w.(tw_tasks) w.(tw_pulp) w.(tw_cp) w.(tw_mem) w.(tw_stored).
Definition set_domains (d : gmap string string) (w : W) : W := mk_tw w.(tw_db) d w.(tw_tasks) w.(tw_pulp) w.(tw_cp) w.(tw_mem) w.(tw_stored).
Definition set_tasks (l : list QTask) (w : W) : W := mk_tw w.(tw_db) w.(tw_domains) l w.(tw_pulp) w.(tw_cp) w.(tw_mem) w.(tw_stored).
Definition set_pulp (s : S) (w : W) : W := mk_tw w.(tw_db) w.(tw_domains) w.(tw_tasks) s w.(tw_cp) w.(tw_mem) w.(tw_stored).
Definition set_cp (c : C) (w : W) : W := mk_tw w.(tw_db) w.(tw_domains) w.(tw_tasks) w.(tw_pulp) c w.(tw_mem) w.(tw_stored).
Definition set_mem (p : P) (w : W) : W := mk_tw w.(tw_db) w.(tw_domains) w.(tw_tasks) w.(tw_pulp) w.(tw_cp) p w.(tw_stored).
Definition set_stored (p : P) (w : W) : W := mk_tw w.(tw_db) w.(tw_domains) w.(tw_tasks) w.(tw_pulp) w.(tw_cp) w.(tw_mem) p.

Definition dao {A} (m : DB A) : M W goerr A := zoom tw_db set_db m.
Definition domain_dao {A} (m : M (gmap string string) goerr A) : M W goerr A := zoom tw_domains set_domains m.
Definition pulp {A} (m : M S goerr A) : M W goerr A := zoom tw_pulp set_pulp m.
Definition cp {A} (m : M C goerr A) : M W goerr A := zoom tw_cp set_cp m.

Lemma dao_run {A} (m : DB A) fs (w : W) r fs' w' :
  dao m (fs, w) = (r, (fs', w')) → ∃ d, m (fs, w.(tw_db)) = (r, (fs', d)) ∧ w' = set_db d w.
Proof. apply zoom_run. Qed.
Lemma pulp_run {A} (m : M S goerr A) fs (w : W) r fs' w' :
  pulp m (fs, w) = (r, (fs', w')) → ∃ s, m (fs, w.(tw_pulp)) = (r, (fs', s)) ∧ w' = set_pulp s w.
Proof. apply zoom_run. Qed.
Lemma domain_run {A} (m : M (gmap string string) goerr A) fs (w : W) r fs' w' :
  domain_dao m (fs, w) = (r, (fs', w')) → ∃ d, m (fs, w.(tw_domains)) = (r, (fs', d)) ∧ w' = set_domains d w.
Proof. apply zoom_run. Qed.
Lemma cp_run {A} (m : M C goerr A) fs (w : W) r fs' w' :
  cp m (fs, w) = (r, (fs', w')) → ∃ c, m (fs, w.(tw_cp)) = (r, (fs', c)) ∧ w' = set_cp c w.
Proof. apply zoom_run. Qed.

Lemma consumes_dao {A} (m : DB A) : consumes m → consumes (dao m).
Proof. apply consumes_zoom. Qed.
Lemma consumes_pulp {A} (m : M S goerr A) : consumes m → consumes (pulp m).
Proof. apply consumes_zoom. Qed.
Lemma consumes_domain {A} (m : M (gmap string string) goerr A) : consumes m → consumes (domain_dao m).
Proof. apply consumes_zoom. Qed.
Lemma consumes_cp {A} (m : M C goerr A) : consumes m → consumes (cp m).
Proof. apply consumes_zoom. Qed.

(** The payload is saved with the task. *)
Definition UpdatePayload : M W goerr () := db_call (λ w, (inr (), set_stored w.(tw_mem) w)).
Definition modify_mem (f : P → P) : M W goerr () := λ '(fs, w), (inr (), (fs, set_mem (f w.(tw_mem)) w)).

Definition enqueue (new_id : list QTask → uuid) (typename : string) (p : payload) (orgId accountId objectUUID objectType : string)
    (deps : list uuid) : M W goerr uuid :=
  db_call (λ w, let id := new_id w.(tw_tasks) in
    (inr id, set_tasks (w.(tw_tasks) ++ [mk_QTask id typename p orgId accountId objectUUID objectType deps true])%list w)).
End World.
#[export] Hint Resolve consumes_dao consumes_pulp consumes_domain consumes_cp : consumes.

(** ** dao/domains.go

    The table, by organization; both columns are unique. *)

(** config/value_constraints.go *)
Definition RedHatDomainName := "cs-redhat".
Definition CommunityDomainName := "cs-community".

Abbreviation DomM := (M (gmap string string) goerr).

Definition Domain_Fetch (orgId : string) : DomM string := db_call (λ t, (inr (default "" (t !! orgId)), t)).

(** [name]: the random name. A row of the organization that is there already is kept. *)
Definition Domain_Create (name orgId : string) : DomM string :=
  let name := if orgId == RedHatOrg then RedHatDomainName else if orgId == CommunityOrg then CommunityDomainName else name in
  _ ← db_call (λ t, match t !! orgId with
                    | Some _ => (inr (), t)
                    | None => if bool_decide (name ∈ (map_to_list t).*2)
                              then (inl (ErrPlain "duplicate key value violates unique constraint"), t)
                              else (inr (), <[orgId := name]> t)
                    end);
  Domain_Fetch orgId.

Definition FetchOrCreateDomain (name orgId : string) : DomM string :=
  dName ← Domain_Fetch orgId;
  if dName != "" then mret dName else Domain_Create name orgId.

Definition Domain_List : DomM (list (string * string)) := db_call (λ t, (inr (map_to_list t), t)).

Definition Domain_Delete (orgID domainName : string) : DomM () :=
  db_call (λ t, (inr (), if bool_decide (t !! orgID = Some domainName) then delete orgID t else t)).

(** ** tasks/utils.go *)

Definition repositoryDomain {S C P} (repo : RepoResponse) (viewerOrgID viewerDomain rhDomain communityDomain : string) :
    M (tworld S C P) goerr string :=
  if repo.(p_OrgID) == RedHatOrg then mret rhDomain
  else if repo.(p_OrgID) == CommunityOrg then mret communityDomain
  else if repo.(p_OrgID) == viewerOrgID then mret viewerDomain
  else wrap ("error fetching domain for repo org " +:+ repo.(p_OrgID)) (domain_dao (Domain_Fetch repo.(p_OrgID))).

(** ** tasks/update_template_content.go: where the distributions of templates are *)

Definition customTemplateSnapshotPath (templateUUID repoUUID : string) : string := "templates/" +:+ templateUUID +:+ "/" +:+ repoUUID.

Section Paths.
Context `{UuidText}.
(** The path of a parsed URL ([net/url]). *)
Context (url_Path : string → goerr + string).

(** [u.Path[1 : len(u.Path)-1]] panics on a path shorter than two bytes. *)
Definition getRHRepoContentPath (rawURL : string) : goerr + string :=
  match url_Path rawURL with
  | inl e => inl e
  | inr path => let n := String.length path in
                if (n <? 2)%nat then inl Panic else inr (str_take (n - 2) (str_drop 1 path))
  end.

Definition getDistPathAndName (repo : RepoResponse) (templateUUID : string) : goerr + string * string :=
  let distName := templateUUID +:+ "/" +:+ uuid_String repo.(p_UUID) in
  if repo.(p_OrgID) == RedHatOrg then
    match getRHRepoContentPath repo.(p_URL) with
    | inl e => inl e
    | inr path => inr ("templates/" +:+ templateUUID +:+ "/" +:+ path, distName)
    end
  else inr (customTemplateSnapshotPath templateUUID (uuid_String repo.(p_UUID)), distName).
End Paths.

(** An error computed without an effect. *)
Definition lift {D E A} (r : E + A) : M D E A := match r with inl e => throw e | inr a => mret a end.
Lemma lift_run {D E A} (r : E + A) (w w' : list (option E) * D) a : lift r w = (inr a, w') → r = inr a ∧ w' = w.
Proof. destruct r; [done|]. by intros [-> ->]%ret_inr. Qed.
Lemma consumes_lift {D E A} (r : E + A) : consumes (lift r : M D E A).
Proof. destruct r; [apply consumes_throw|apply consumes_ret]. Qed.
#[export] Hint Resolve consumes_lift : consumes.

(** ** The effective latest snapshot *)

Section Latest.
Context `{HU : UuidText}.

(** The newest snapshot of a repository, of a partner's repository the newest published one. *)
Definition effective_latest (d : db) (rc : uuid) : option (uuid * SnapRow) :=
  c ← d.(configs) !! rc;
  if config_live c then if c.(c_Partner) then best newer (published_of d rc) else best newer (live_of d rc) else None.

Lemma call_cases {D A} (f : D → (goerr + A) * D) fs d r fs' d' :
  db_call f (fs, d) = (r, (fs', d')) → (∃ e, r = inl e ∧ d' = d ∧ Some e ∈ fs) ∨ f d = (r, d').
Proof.
  unfold db_call. destruct fs as [|[e|] fs], (f d) as [r1 d1] eqn:Hf; intros; simplify_eq; [by right| |by right].
  left. exists e. split_and!; [done..|]. left.
Qed.

Lemma latest_run raw fs d r fs' d' :
  honest fs → FetchLatestSnapshotForDistribution raw (fs, d) = (r, (fs', d')) →
  d' = d ∧ match r with
           | inr us => effective_latest d (Uuidify raw) = Some us
           | inl e => is_record_not_found e = true → effective_latest d (Uuidify raw) = None
           end.
Proof.
  intros Hf H. unfold FetchLatestSnapshotForDistribution in H.
  unfold mbind, M_bind in H. destruct (db_call _ (fs, d)) as [[e|p] [fs1 d1]] eqn:Hc.
  - injection H as <- <- <-. apply call_cases in Hc as [(e' & [= <-] & -> & He)|Hc].
    + split; [done|]. by rewrite (Hf _ He).
    + unfold effective_latest. destruct (d.(configs) !! Uuidify raw) as [c|]; [|by injection Hc as <- <-].
      cbn. destruct (config_live c); [done|]. by injection Hc as <- <-.
  - assert (honest fs1) as Hf1 by (eapply honest_run; [|done..]; auto with consumes).
    apply call_inr in Hc. unfold effective_latest.
    destruct (d.(configs) !! Uuidify raw) as [c|]; [|done]. cbn. destruct (config_live c); [|done]. injection Hc as <- <-.
    destruct (c_Partner c); apply call_cases in H as [(e & -> & -> & He)|H];
      try (split; [done|]; by rewrite (Hf1 _ He)); destruct (best newer _); cbn in H; by simplify_eq.
Qed.
End Latest.
