(* ===== verification/PublishTask.v ===== *)
(** * tasks/update_snapshot_published.go: what publishing a snapshot does in Pulp

    After a snapshot was published or unpublished in the database, this task changes the guard of its distribution and points
    the distribution [/latest] of the repository at the effective latest snapshot. *)

From S2P Require Import Prelude GoStrings GoSplit Config TxMonad Utils Models Errors DaoHelpers SnapshotDao SnapshotThms TemplateDao SnapshotHandler SnapshotHandlerThms RepoConfigDao Pulp Distribution TaskEnv.
From stdpp Require Import options.

Open Scope string_scope.

Definition GetPulpHref (d : Distribution) : string := default "" (d_PulpHref d).

Section Task.
Context {S C P : Type} `{PulpClient S} `{HU : UuidText}.
Context (RepoContentGuards : bool).
Abbreviation TM := (M (tworld S C P) goerr).

(** A deletion, and the poll of its task if there is one. *)
Definition delete_and_poll (dom href deleting polling : string) : TM () :=
  taskHref ← wrap deleting (pulp (db_call (DeleteRpmDistribution dom href)));
  match taskHref with
  | Some t => _ ← wrap polling (pulp (db_call (PollTask dom t))); mret ()
  | None => mret ()
  end.

Definition updateLatestDistribution (dom repoConfigUUID : string) : TM () :=
  let latestPath := GetLatestRepoDistPath repoConfigUUID in
  dist ← wrap ("error fetching latest distribution for repo config " +:+ repoConfigUUID) (pulp (db_call (FindDistributionByPath dom latestPath)));
  latestSnap ← try (dao (FetchLatestSnapshotForDistribution repoConfigUUID));
  match latestSnap, dist with
  | inl e, _ =>
      if negb (is_record_not_found e)
      then throw (ErrWrapped ("error fetching latest snapshot for repo config " +:+ repoConfigUUID) e)
      else match dist with
           | None => mret ()
           | Some dist => delete_and_poll dom (GetPulpHref dist) ("error deleting latest distribution for repo config " +:+ repoConfigUUID)
                            "error polling latest distribution deletion task"
           end
  | inr latestSnap, None =>
      taskHref ← wrap ("error creating latest distribution for repo config " +:+ repoConfigUUID)
        (pulp (db_call (CreateRpmDistribution dom latestSnap.2.(s_PublicationHref) repoConfigUUID latestPath None)));
      match taskHref with
      | None => throw (ErrPlain ("error creating latest distribution for repo config " +:+ repoConfigUUID +:+ ": Pulp task href is missing"))
      | Some t => _ ← wrap "error polling latest distribution creation task" (pulp (db_call (PollTask dom t))); mret ()
      end
  | inr latestSnap, Some dist =>
      taskHref ← wrap "error updating latest distribution"
        (pulp (db_call (UpdateRpmDistribution dom (GetPulpHref dist) latestSnap.2.(s_PublicationHref) (d_Name dist) dist.(d_BasePath) None)));
      _ ← wrap "error polling latest distribution update task" (pulp (db_call (PollTask dom taskHref)));
      mret ()
  end.

Definition UpdateSnapshotPublished_Run (dom orgID snapshotUUID : string) (published : bool) : TM () :=
  '(u, snap) ← wrap ("error fetching snapshot " +:+ snapshotUUID) (dao (FetchModel snapshotUUID false));
  dist ← wrap ("error fetching distribution for snapshot " +:+ snapshotUUID)
    (pulp (db_call (FindDistributionByPath dom snap.(s_DistributionPath))));
  match dist with
  | None => throw (ErrPlain ("distribution not found for snapshot " +:+ snapshotUUID +:+ " at path " +:+ snap.(s_DistributionPath)))
  | Some dist =>
      contentGuardHref ← (if published then mret None
                          else wrap ("error fetching content guard for org " +:+ orgID) (pulp (FetchContentGuard RepoContentGuards dom orgID "")));
      taskHref ← wrap "error updating distribution content guard"
        (pulp (db_call (UpdateRpmDistribution dom (GetPulpHref dist) snap.(s_PublicationHref) (d_Name dist) dist.(d_BasePath) contentGuardHref)));
      _ ← wrap "error polling distribution update task" (pulp (db_call (PollTask dom taskHref)));
      updateLatestDistribution dom (uuid_String snap.(s_RepositoryConfigurationUUID))
  end.

(** The payload of the task is given. *)
Definition UpdateSnapshotPublishedHandler (orgId snapshotUUID : string) (published : bool) : TM () :=
  domainName ← wrap ("error fetching domain for org " +:+ orgId) (domain_dao (Domain_Fetch orgId));
  UpdateSnapshotPublished_Run domainName orgId snapshotUUID published.
End Task.

(** ** What it achieves *)

(** Every distribution has an href of its own. *)
Definition hrefs_ok (m : gmap (string * string) DistInfo) : Prop :=
  (∀ k i, m !! k = Some i → ∃ href, i.(i_PulpHref) = Some href ∧ href ≠ "") ∧
  (∀ k k' i i', m !! k = Some i → m !! k' = Some i' → i.(i_PulpHref) = i'.(i_PulpHref) → k = k').

Lemma GetPulpHref_known i p href : i.(i_PulpHref) = Some href → GetPulpHref (mk_Distribution i p) = href.
Proof. unfold GetPulpHref, d_PulpHref. cbn. by intros ->. Qed.

Lemma hrefs_ok_empty : hrefs_ok ∅.
Proof. by split; intros k; rewrite ?lookup_empty. Qed.

Lemma hrefs_ok_singleton k i href : i.(i_PulpHref) = Some href → href ≠ "" → hrefs_ok {[k := i]}.
Proof.
  intros Hh Hne. split.
  - intros k' i' [-> <-]%lookup_singleton_Some. eauto.
  - by intros k1 k2 i1 i2 [-> <-]%lookup_singleton_Some [-> <-]%lookup_singleton_Some.
Qed.

Lemma hrefs_ok_update m k i href name pub g :
  hrefs_ok m → m !! k = Some i → i.(i_PulpHref) = Some href → hrefs_ok (<[k := mk_DistInfo (Some href) name pub g]> m).
Proof.
  intros [Hk Hu] Hi Hh. split.
  - intros k' i' [[-> <-]|[_ ?]]%lookup_insert_Some; [|by eapply Hk]. destruct (Hk _ _ Hi) as (h & ? & ?). simplify_eq/=. by eexists.
  - intros k1 k2 i1 i2 [[<- <-]|[Hn1 H1]]%lookup_insert_Some [[<- <-]|[Hn2 H2]]%lookup_insert_Some E; [done| | |].
    + apply (Hu k k2 i i2); [done..|]. by rewrite Hh.
    + apply (Hu k1 k i1 i); [done..|]. by rewrite Hh.
    + by apply (Hu k1 k2 i1 i2).
Qed.

(** Deleting by href removes one distribution. *)
Lemma hrefs_ok_delete m k i href :
  hrefs_ok m → m !! k = Some i → i.(i_PulpHref) = Some href →
  base.filter (λ ki, ki.2.(i_PulpHref) ≠ Some href) m = delete k m.
Proof.
  intros [Hk Hu] Hi Hh. apply map_eq. intros k'. destruct (decide (k = k')) as [<-|Hne].
  - rewrite lookup_delete_eq. apply map_lookup_filter_None. right. intros x Hx Hf. by simplify_eq/=.
  - rewrite lookup_delete_ne by done. destruct (m !! k') as [i'|] eqn:Hi'.
    + apply map_lookup_filter_Some. split; [done|]. simpl. intros E. apply Hne, (Hu k k' i i'); [done..|]. by rewrite Hh.
    + apply map_lookup_filter_None. by left.
Qed.

Section Theorems.
Context {S C P : Type} `{HC : PulpClient S} `{HL : !PulpLaws S} `{HU : UuidText} {HUL : UuidLaws}.
Context (guards : bool).
#[local] Set Default Proof Using "Type*".
Abbreviation W := (tworld S C P).

Lemma delete_and_poll_run dom href k i msg1 msg2 fs (w : W) fs' w' :
  tasks_complete S → hrefs_ok (dists w.(tw_pulp)) → dists w.(tw_pulp) !! k = Some i → i.(i_PulpHref) = Some href → href ≠ "" →
  delete_and_poll dom href msg1 msg2 (fs, w) = (inr (), (fs', w')) →
  ∃ s, w' = set_pulp s w ∧ dists s = delete k (dists w.(tw_pulp)).
Proof.
  intros Hdone Hok Hi Hh Hne (o & [fs1 w1] & (s1 & Hd%call_inr & ->)%wrap_inr%pulp_run & Hk)%bind_inr.
  destruct o as [t|].
  - apply bind_inr in Hk as (tr & [fs2 w2] & (s2 & Hp%call_inr & ->)%wrap_inr%pulp_run & [_ [= -> <-]]%ret_inr).
    exists s2. split; [done|]. rewrite (delete_poll _ _ _ _ _ _ _ Hd Hp (Hdone _ _ _ _ _ Hp)). by eapply hrefs_ok_delete.
  - apply ret_inr in Hk as [_ [= -> <-]]. destruct (delete_none _ _ _ _ Hd) as [_ Hno]. by destruct (Hno Hne _ _ Hi).
Qed.

(** [/latest] serves the effective latest snapshot without a guard, or is not there. *)
Definition latest_served (dom latest : string) (eff : option (uuid * SnapRow)) (s : S) : Prop :=
  match eff with
  | Some us => serves dom latest us.2.(s_PublicationHref) None s
  | None => dists s !! (dom, latest) = None
  end.

Lemma updateLatest_run dom rc fs (w : W) fs' w' :
  tasks_complete S → honest fs → hrefs_ok (dists w.(tw_pulp)) →
  updateLatestDistribution dom (uuid_String rc) (fs, w) = (inr (), (fs', w')) →
  ∃ s, w' = set_pulp s w ∧ latest_served dom (GetLatestRepoDistPath (uuid_String rc)) (effective_latest w.(tw_db) rc) s ∧
    ∀ k, k ≠ (dom, GetLatestRepoDistPath (uuid_String rc)) → dists s !! k = dists w.(tw_pulp) !! k.
Proof.
  intros Hdone Hf Hok H. unfold updateLatestDistribution in H. set (path := GetLatestRepoDistPath (uuid_String rc)) in *.
  apply bind_inr in H as (dist & [fs1 w1] & Hfind%wrap_inr & H).
  assert (honest fs1) as Hf1 by (eapply honest_run; [|exact Hfind|exact Hf]; auto with consumes).
  apply pulp_run in Hfind as (s1 & [Hd1 ->]%find_call & ->).
  apply bind_inr in H as (latest & [fs2 w2] & (d2 & Hl & ->)%try_run%dao_run & H). cbn [tw_db set_pulp] in Hl.
  apply latest_run in Hl as [-> Hl]; [|done]. rewrite Uuidify_String in Hl.
  destruct latest as [e|us].
  - destruct (is_record_not_found e) eqn:He; [|done]. cbn [negb] in H. rewrite (Hl eq_refl). cbn.
    destruct (dists (tw_pulp w) !! (dom, path)) as [i|] eqn:Hi; cbn [fmap option_fmap option_map] in H.
    + destruct (proj1 Hok _ _ Hi) as (href & Hh & Hne).
      rewrite (GetPulpHref_known _ _ _ Hh) in H.
      eapply delete_and_poll_run in H as (s & -> & Hs); [|done|by cbn; rewrite Hd1|by cbn; rewrite Hd1|done..].
      exists s. split; [done|]. cbn in Hs. rewrite Hs, Hd1. rewrite lookup_delete_eq. split; [done|].
      intros k Hk. by rewrite lookup_delete_ne.
    + apply ret_inr in H as [_ [= -> <-]]. exists s1. split_and!; [by destruct w|by rewrite Hd1|intros; by rewrite Hd1].
  - rewrite Hl. cbn [latest_served].
    destruct (dists (tw_pulp w) !! (dom, path)) as [i|] eqn:Hi; cbn [fmap option_fmap option_map] in H.
    + destruct (proj1 Hok _ _ Hi) as (href & Hh & Hne).
      apply bind_inr in H as (t & [fs3 w3] & (s3 & Hu%call_inr & ->)%wrap_inr%pulp_run & H).
      apply bind_inr in H as (tr & [fs4 w4] & (s4 & Hp%call_inr & ->)%wrap_inr%pulp_run & [_ [= -> <-]]%ret_inr).
      rewrite (GetPulpHref_known _ _ _ Hh) in Hu. cbn in Hu, Hp.
      assert (dists s4 = _) as Hs by (eapply update_poll; [by rewrite Hd1| exact Hh|exact Hu|exact Hp|by eapply Hdone]).
      exists s4. split; [done|]. rewrite Hd1 in Hs. by eapply served_insert in Hs as [? ?].
    + apply bind_inr in H as (o & [fs3 w3] & (s3 & Hc%call_inr & ->)%wrap_inr%pulp_run & H). destruct o as [t|]; [|done].
      apply bind_inr in H as (tr & [fs4 w4] & (s4 & Hp%call_inr & ->)%wrap_inr%pulp_run & [_ [= -> <-]]%ret_inr). cbn in Hc, Hp.
      assert (dists s4 = _) as Hs by (eapply create_poll; [exact Hc|exact Hp|by eapply Hdone]).
      exists s4. split; [done|]. rewrite Hd1 in Hs. by eapply served_insert in Hs as [? ?].
Qed.

Lemma FetchModel_run raw (soft : bool) fs d u s fs' d' :
  FetchModel raw soft (fs, d) = (inr (u, s), (fs', d')) →
  d' = d ∧ pg_uuid raw = Some u ∧ d.(snapshots) !! u = Some s ∧ (soft = false → is_live s = true).
Proof.
  intros H%map_err_inr%call_inr. destruct (pg_uuid raw) as [v|]; [|done]. destruct (snapshots d !! v) as [r|] eqn:Hr; [|done].
  destruct (negb soft && negb (is_live r)) eqn:E; [done|]. injection H as -> -> <-. split_and!; try done.
  intros ->. by destruct (is_live s).
Qed.

(** The distribution of a snapshot after it was published, or unpublished. *)
Definition snapshot_served (dom orgID : string) (published : bool) (s : SnapRow) (p : S) : Prop :=
  ∃ g, serves dom s.(s_DistributionPath) s.(s_PublicationHref) g p ∧
    guard_for (S := S) dom (if published then NoGuard else needed_guard guards orgID "") g.

(** [C31] Publishing reaches Pulp. Suppose that Pulp cancels and skips no task that is waited for, that no failure of a
    request looks like a missing row, and that every distribution of Pulp has an href of its own. When the task that follows
    the publication (or the withdrawal) of a snapshot succeeds, whatever failed on the way, the snapshot is not deleted and
    its distribution serves its publication: without a guard if the snapshot is published or if its content is open to all
    (guards are not used, or the organization is Red Hat's or the community's), otherwise behind the guard Pulp gives in this
    domain for the organization; [/latest] of the repository serves, without a guard, the effective latest snapshot (of a
    partner: the newest published one) or is removed if there is none, no other distribution has changed, and nothing but Pulp
    has. (For a snapshot whose own path is that of [/latest] only the latter is stated.) *)
Theorem publishing_reaches_pulp dom orgID raw published fs (w : W) fs' w' :
  tasks_complete S → honest fs → hrefs_ok (dists w.(tw_pulp)) →
  UpdateSnapshotPublished_Run guards dom orgID raw published (fs, w) = (inr (), (fs', w')) →
  ∃ u s p, let latest := GetLatestRepoDistPath (uuid_String s.(s_RepositoryConfigurationUUID)) in
    pg_uuid raw = Some u ∧ w.(tw_db).(snapshots) !! u = Some s ∧ is_live s = true ∧ w' = set_pulp p w ∧
    (s.(s_DistributionPath) ≠ latest → snapshot_served dom orgID published s p) ∧
    latest_served dom latest (effective_latest w.(tw_db) s.(s_RepositoryConfigurationUUID)) p ∧
    ∀ k, k ≠ (dom, s.(s_DistributionPath)) → k ≠ (dom, latest) → dists p !! k = dists w.(tw_pulp) !! k.
Proof.
  intros Hdone Hf Hok ([u s] & [fs1 w1] & Hm%wrap_inr & H)%bind_inr.
  assert (honest fs1) as Hf1 by (eapply honest_run; [|exact Hm|exact Hf]; unfold FetchModel, first_snapshot; auto with consumes).
  apply dao_run in Hm as (d1 & (-> & Hu & Hs & Hl)%FetchModel_run & ->).
  apply bind_inr in H as (dist & [fs2 w2] & Hfind%wrap_inr & H).
  assert (honest fs2) as Hf2 by (eapply honest_run; [|exact Hfind|exact Hf1]; auto with consumes).
  apply pulp_run in Hfind as (s2 & [Hd2 ->]%find_call & ->). cbn in Hd2, H.
  destruct (dists (tw_pulp w) !! (dom, s_DistributionPath s)) as [i|] eqn:Hi; cbn [fmap option_fmap option_map] in H; [|done].
  destruct (proj1 Hok _ _ Hi) as (href & Hh & _).
  apply bind_inr in H as (g & [fs3 w3] & Hg & H). rewrite (GetPulpHref_known _ _ _ Hh) in H.
  assert (honest fs3 ∧ ∃ s3, w3 = set_pulp s3 w ∧ dists s3 = dists (tw_pulp w) ∧
            guard_for (S := S) dom (if published then NoGuard else needed_guard guards orgID "") g) as (Hf3 & s3 & -> & Hd3 & Hgi).
  { destruct published; cbn [negb] in Hg.
    - apply ret_inr in Hg as [<- [= <- <-]]. split; [done|]. exists s2. by split_and!.
    - apply wrap_inr in Hg. split.
      { eapply honest_run; [|exact Hg|exact Hf2]. unfold FetchContentGuard. repeat case_match; auto with consumes. }
      apply pulp_run in Hg as (s3 & [Hd3 Hgi]%FetchContentGuard_inr & ->). exists s3. cbn in Hd3.
      rewrite Hd3. by split_and!. }
  apply bind_inr in H as (t & [fs4 w4] & Hup%wrap_inr & H).
  assert (honest fs4) as Hf4 by (eapply honest_run; [|exact Hup|exact Hf3]; auto with consumes).
  apply pulp_run in Hup as (s4 & Hup%call_inr & ->).
  apply bind_inr in H as (tr & [fs5 w5] & Hp%wrap_inr & H).
  assert (honest fs5) as Hf5 by (eapply honest_run; [|exact Hp|exact Hf4]; auto with consumes).
  apply pulp_run in Hp as (s5 & Hp%call_inr & ->). cbn in Hup, Hp.
  assert (dists s5 = _) as Hs5 by (eapply update_poll; [by rewrite Hd3|exact Hh|exact Hup|exact Hp|by eapply Hdone]).
  rewrite Hd3 in Hs5. apply updateLatest_run in H as (p & -> & Hlat & Ho); [|done..|by cbn; rewrite Hs5; eapply hrefs_ok_update].
  cbn in Hlat, Ho. exists u, s, p. apply served_insert in Hs5 as [(j & Hj & Hpub & Hgu) Hoth]. split_and!; try done; [by apply Hl| |].
  - intros Hne. exists g. split; [|done]. exists j. split; [|done]. rewrite Ho; [done|congruence].
  - intros k Hk1 Hk2. by rewrite Ho, Hoth.
Qed.
End Theorems.

#[local] Existing Instance Ex.uuid_text.
#[local] Existing Instance Ex.uuid_laws.

Module PublishEx.
Definition dist : DistInfo := mk_DistInfo (Some (mem_dist_href "cs" "path")) "name" (Some (Some "publication")) (Some "guard-partner").
Definition w : tworld mem () () :=
  mk_tw Ex.d {["partner" := "cs"]} [] (mk_mem {[("cs", "path") := dist]} ∅ ∅ [] ∅) () () ().
Definition latest : string := GetLatestRepoDistPath (Ex.text 2).
End PublishEx.

Lemma publishing_reaches_pulp_witness :
  ∃ p, UpdateSnapshotPublished_Run true "cs" "partner" (Ex.text 7) true ([], PublishEx.w) = (inr (), ([], set_pulp p PublishEx.w)) ∧
    serves "cs" "path" "publication" None p ∧ serves "cs" PublishEx.latest "publication" None p.
Proof.
  destruct (UpdateSnapshotPublished_Run true "cs" "partner" (Ex.text 7) true ([], PublishEx.w)) as [r [fs' w']] eqn:E.
  assert (r = inr () ∧ fs' = []) as [-> ->] by (revert E; vm_compute; intros E; by simplify_eq).
  destruct (publishing_reaches_pulp true "cs" "partner" (Ex.text 7) true [] PublishEx.w [] w') as (u & s & p & Hu & Hs & _ & -> & H1 & H2 & _);
    [apply mem_complete|by intros e ?%not_elem_of_nil| |done|].
  { by eapply (hrefs_ok_singleton _ PublishEx.dist). }
  assert (u = 7%N) as -> by (revert Hu; vm_compute; intros Hu; by simplify_eq).
  assert (s = Ex.snap 2 (10 * Second)%Z true) as -> by (revert Hs; vm_compute; intros Hs; by simplify_eq).
  exists p. split; [done|]. split.
  - destruct H1 as (g & Hg & Hn); [by vm_compute|]. cbn in Hn. subst g. exact Hg.
  - change (effective_latest _ _) with (Some (7%N, Ex.snap 2 (10 * Second)%Z true)) in H2. exact H2.
Defined.
