(* ===== verification/SnapshotSearch.v ===== *)
(** * The content of snapshots and templates

    The reading half of dao/rpms.go, package_groups.go, environments.go and module_streams.go that asks Pulp's database through
    tangy: what is in the snapshots with given UUIDs, or in the snapshots of a template. With dao/snapshots.go's
    [readableSnapshots], [List], [ListByTemplate], [SetDetectedOSVersion] and [GetRepositoryConfigurationFile].

    tangy is a library: [Tangy] has the functions the code calls, each a function of the hrefs of the repository versions and of
    its filters; [None] stands for a missing configuration. *)

From S2P Require Import Prelude GoStrings GoSplit Config TxMonad Utils Models Errors DaoHelpers GoText SnapshotDao SnapshotThms TemplateDao SnapshotHandler.
From stdpp Require Import options.

Open Scope string_scope.

(** ** tangy *)

Record SnapshotRpm := mk_SnapshotRpm {
  sr_Name : string; sr_Arch : string; sr_Version : string; sr_Release : string; sr_Epoch : string; sr_Summary : string }.
Record ErrataListItem := mk_ErrataListItem {
  er_Id : string; er_ErrataId : string; er_Title : string; er_Summary : string; er_Description : string; er_IssuedDate : string;
  er_UpdatedDate : option string; er_Type : string; er_Severity : string; er_RebootSuggested : bool; er_CVEs : option (list string) }.
Record GroupItem := mk_GroupItem { gr_Name : string; gr_ID : string; gr_Description : string; gr_Packages : list string }.
Record EnvironmentItem := mk_EnvironmentItem { en_Name : string; en_ID : string; en_Description : string }.
Record StreamItem := mk_StreamItem {
  st_Name : string; st_Stream : string; st_Context : string; st_Arch : string; st_Version : string; st_Description : string;
  st_Profiles : gmap string (list string) }.
Record ErrataListFilters := mk_ErrataListFilters { ef_Search : string; ef_Type : list string; ef_Severity : list string }.

Record Tangy := mk_Tangy {
  RpmRepositoryVersionPackageList (hrefs : list string) (name : string) (offset limit : Z) : goerr + list SnapshotRpm * Z;
  RpmRepositoryVersionPackageSearch (hrefs : list string) (search : string) (limit : Z) : goerr + list (string * string);
  RpmRepositoryVersionErrataList (hrefs : list string) (f : ErrataListFilters) (offset limit : Z) (sortBy : string) :
    goerr + list ErrataListItem * Z;
  RpmRepositoryVersionPackageGroupSearch (hrefs : list string) (search : string) (limit : Z) : goerr + list GroupItem;
  RpmRepositoryVersionEnvironmentSearch (hrefs : list string) (search : string) (limit : Z) : goerr + list EnvironmentItem;
  RpmRepositoryVersionModuleStreamsList (hrefs : list string) (rpmNames : list string) (search sortBy : string) : goerr + list StreamItem
}.

(** api.SnapshotErrata *)
Record SnapshotErrata := mk_SnapshotErrata {
  se_Id : string; se_ErrataId : string; se_Title : string; se_Summary : string; se_Description : string; se_IssuedDate : string;
  se_UpdateDate : string; se_Type : string; se_Severity : string; se_RebootSuggested : bool; se_CVEs : list string }.
(** api.SnapshotSearchRpmRequest *)
Record SnapshotSearchRpmRequest := mk_SnapshotSearchRpmRequest { sq_UUIDs : list string; sq_Search : string; sq_Limit : option Z }.

Definition wrap_error {A} (msg : string) (r : goerr + A) : goerr + A := match r with inl e => inl (ErrWrapped msg e) | inr a => inr a end.

Section Search.
Context `{UuidText}.
Context (scan : gmap uuid SnapRow → list (uuid * SnapRow)) (scan_trcs : gmap (uuid * uuid) TrcRow → list (uuid * uuid * TrcRow)).
Context (Tang : option Tangy).
(** [time.Parse] of [time.DateTime] and [Format] of [time.RFC3339]. *)
Context (to_rfc3339 : string → option string).

Definition lift_result {A} (r : goerr + A) : DB A := match r with inl e => throw e | inr a => mret a end.

(** ** Snapshots by UUID *)

Definition readableSnapshots (d : db) (orgId : string) : list (uuid * SnapRow) :=
  base.filter (λ us, is_live us.2 = true ∧ row_readable d orgId us.2 = true) (scan d.(snapshots)).

(** One query per UUID; whatever fails, the snapshot is reported as missing. *)
Fixpoint check_uuids (uuids : list string) : DB () :=
  match uuids with
  | [] => mret ()
  | u :: uuids' =>
      _ ← map_err (λ _, DaoError None ("Could not find snapshot with UUID: " +:+ u) true false false false)
            (db_call (λ d, match d.(snapshots) !! Uuidify u with
                           | Some s => if is_live s then (inr (), d) else (inl ErrRecordNotFound, d)
                           | None => (inl ErrRecordNotFound, d)
                           end));
      check_uuids uuids'
  end.

Definition pluck_hrefs (orgId : string) (uuids : list string) : DB (list string) :=
  map_err (ErrWrapped "failed to query the db for snapshots")
    (db_call (λ d, (inr ((λ us : uuid * SnapRow, us.2.(s_VersionHref)) <$>
                         base.filter (λ us, us.1 ∈ Uuidify <$> uuids) (readableSnapshots d orgId)), d))).

(** The part the functions share; [none] is the answer when no snapshot is readable. *)
Definition ask_tang {A} (none : A) (ask : Tangy → list string → goerr + A) (hrefs : list string) : DB A :=
  match Tang with
  | None => throw (ErrPlain "no tang configuration present")
  | Some tang => match hrefs with [] => mret none | _ => lift_result (ask tang hrefs) end
  end.
Definition ask_snapshots {A} (orgId : string) (uuids : list string) (none : A) (ask : Tangy → list string → goerr + A) : DB A :=
  _ ← check_uuids uuids;
  hrefs ← pluck_hrefs orgId uuids;
  ask_tang none ask hrefs.

Definition package_list (msg search : string) (offset limit : Z) (t : Tangy) (hrefs : list string) :=
  wrap_error msg (t.(RpmRepositoryVersionPackageList) hrefs search offset limit).

Definition ListSnapshotRpms (orgId : string) (snapshotUUIDs : list string) (search : string) (offset limit : Z) :
    DB (list SnapshotRpm * Z) :=
  ask_snapshots orgId snapshotUUIDs ([], 0%Z) (package_list "error querying packages in snapshots" search offset limit).

Definition errata_response (e : ErrataListItem) : SnapshotErrata :=
  mk_SnapshotErrata e.(er_Id) e.(er_ErrataId) e.(er_Title) e.(er_Summary) e.(er_Description)
    (default "" (to_rfc3339 e.(er_IssuedDate))) (default "" (e.(er_UpdatedDate) ≫= to_rfc3339)) e.(er_Type) e.(er_Severity)
    e.(er_RebootSuggested) (default [] e.(er_CVEs)).

Definition errata_list (msg : string) (f : ErrataListFilters) (offset limit : Z) (sortBy : string) (t : Tangy) (hrefs : list string) :
    goerr + list SnapshotErrata * Z :=
  match t.(RpmRepositoryVersionErrataList) hrefs f offset limit sortBy with
  | inl e => inl (ErrWrapped msg e)
  | inr (l, total) => inr (errata_response <$> l, total)
  end.

Definition ListSnapshotErrata (orgId : string) (snapshotUUIDs : list string) (f : ErrataListFilters) (offset limit : Z) (sortBy : string) :
    DB (list SnapshotErrata * Z) :=
  ask_snapshots orgId snapshotUUIDs ([], 0%Z) (errata_list "error querying packages in snapshots" f offset limit sortBy).

(** [*request.Limit] panics without a limit. *)
Definition limited {A} (limit : option Z) (f : Z → goerr + A) : goerr + A := match limit with Some l => f l | None => inl Panic end.

Definition SearchSnapshotPackageGroups (orgId : string) (r : SnapshotSearchRpmRequest) : DB (list GroupItem) :=
  ask_snapshots orgId r.(sq_UUIDs) [] (λ t hrefs, limited r.(sq_Limit) (λ l,
    wrap_error "error querying package groups in snapshots" (t.(RpmRepositoryVersionPackageGroupSearch) hrefs r.(sq_Search) l))).

Definition SearchSnapshotEnvironments (orgId : string) (r : SnapshotSearchRpmRequest) : DB (list EnvironmentItem) :=
  ask_snapshots orgId r.(sq_UUIDs) [] (λ t hrefs, limited r.(sq_Limit) (λ l,
    wrap_error "error querying packages in snapshots" (t.(RpmRepositoryVersionEnvironmentSearch) hrefs r.(sq_Search) l))).

(** The streams of each module, in the order of tangy; the modules in the order in which a Go map is ranged over. *)
Definition group_streams (l : list StreamItem) : list (string * list StreamItem) :=
  (λ name, (name, base.filter (λ s, s.(st_Name) = name) l)) <$> elements (list_to_set (C := gset string) (st_Name <$> l)).

Definition SearchSnapshotModuleStreams (orgID : string) (uuids rpmNames : list string) (search sortBy : string) :
    DB (list (string * list StreamItem)) :=
  if orgID == "" then throw (ErrPlain "orgID can not be an empty string")
  else match uuids with
       | [] => throw (DaoError None "must contain at least 1 snapshot UUID" false true false false)
       | _ => ask_snapshots orgID uuids [] (λ t hrefs,
                match t.(RpmRepositoryVersionModuleStreamsList) hrefs rpmNames search sortBy with
                | inl e => inl (ErrWrapped "error querying module streams in snapshots" e)
                | inr l => inr (group_streams l)
                end)
       end.

(** ** Snapshots of a template *)

Definition fetchSnapshotsForTemplate (now : time) (orgId templateUUID : string) : DB (list (uuid * SnapRow)) :=
  '(u, t) ← map_err (λ e, if match e with ErrPlain m => m == "record not found" | _ => false end
                         then DaoError None ("Could not find template with UUID " +:+ templateUUID) true false false false else e)
    (first_template false orgId templateUUID);
  repos ← db_call (λ d, (inr ((λ kx : uuid * uuid * TrcRow, uuid_String kx.1.2) <$>
                    base.filter (λ kx, kx.1.1 = u ∧ kx.2.(x_DeletedAt) = None) (scan_trcs d.(trcs))), d));
  FetchSnapshotsModelByDateAndRepository scan orgId repos
    (if (template_AfterFind t).(t_UseLatest) then now else (template_AfterFind t).(t_Date)).

Definition ask_template {A} (now : time) (orgId templateUUID : string) (none : A) (ask : Tangy → list string → goerr + A) : DB A :=
  snaps ← fetchSnapshotsForTemplate now orgId templateUUID;
  ask_tang none ask ((λ us, us.2.(s_VersionHref)) <$> snaps).

Definition ListTemplateRpms (now : time) (orgId templateUUID search : string) (offset limit : Z) : DB (list SnapshotRpm * Z) :=
  ask_template now orgId templateUUID ([], 0%Z) (package_list "error querying packages in templates" search offset limit).

Definition ListTemplateErrata (now : time) (orgId templateUUID : string) (f : ErrataListFilters) (offset limit : Z) (sortBy : string) :
    DB (list SnapshotErrata * Z) :=
  ask_template now orgId templateUUID ([], 0%Z) (errata_list "error querying errata in snapshots" f offset limit sortBy).

Definition TemplateErrataIDsPageLimit : Z := 10000.

(** The loop over the pages; [None]: out of fuel. [now i] is the time of the i-th request. *)
Fixpoint errata_pages (fuel : nat) (now : nat → time) (orgID templateUUID : string) (offset : Z) (seen : list string) :
    DB (option (list string)) :=
  match fuel with
  | O => mret None
  | S fuel' =>
      '(page, total) ← ListTemplateErrata (now fuel) orgID templateUUID (mk_ErrataListFilters "" [] []) offset TemplateErrataIDsPageLimit "";
      let seen := foldl (λ ids e, if contains ids e.(se_ErrataId) then ids else ids ++ [e.(se_ErrataId)])%list seen page in
      let offset := (offset + Z.of_nat (length page))%Z in
      if (total <=? offset)%Z || (length page =? 0)%nat then mret (Some seen)
      else errata_pages fuel' now orgID templateUUID offset seen
  end.

Definition FetchTemplateErrataIDs (fuel : nat) (now : nat → time) (orgID templateUUID : string) : DB (option (list string)) :=
  r ← errata_pages fuel now orgID templateUUID 0 [];
  mret (merge_sort String.le <$> r).

(** ** dao/snapshots.go *)

(** The sorting of Postgres, [ILIKE], and the answer of Pulp. *)
Context (sql_order : string → list (uuid * SnapRow) → list (uuid * SnapRow)) (sql_ilike : string → string → bool).
Context (content_path : goerr + string).

Definition with_configs (d : db) (l : list (uuid * SnapRow)) : list (uuid * SnapRow * option ConfigRow) :=
  (λ us, (us, preload_config d us.2)) <$> l.

Definition Snapshot_List (orgID repoConfigUUID sortBy : string) (limit : Z) (offset : nat) : DB (list SnapshotResponse * nat) :=
  let rc := Uuidify repoConfigUUID in
  _ ← map_err (λ e, RepositoryDBErrorToApi e (Some repoConfigUUID))
    (db_call (λ d, match d.(configs) !! rc with
                   | Some c => if config_readable d orgID rc c then (inr (), d) else (inl ErrRecordNotFound, d)
                   | None => (inl ErrRecordNotFound, d)
                   end));
  let order := convertSortByToSQL sortBy {["created_at" := "created_at"]} "created_at desc" in
  let rows d := base.filter (λ us, us.2.(s_RepositoryConfigurationUUID) = rc) (readableSnapshots d orgID) in
  total ← db_call (λ d, (inr (length (rows d)), d));
  snaps ← db_call (λ d, (inr (with_configs d (page limit offset (sql_order order (rows d)))), d));
  match snaps with
  | [] => mret ([], total)
  | _ => path ← lift_result content_path; mret (snapshotConvertToResponses snaps path, total)
  end.

(** The rows of the template are joined whether they are deleted or not; the name is that of the repository. *)
Definition template_rows (d : db) (orgID repositorySearch : string) (tu : uuid) : list (uuid * SnapRow) :=
  us ← readableSnapshots d orgID;
  kx ← scan_trcs d.(trcs);
  if bool_decide (kx.1.1 = tu ∧ kx.2.(x_SnapshotUUID) = us.1) &&
     match d.(configs) !! us.2.(s_RepositoryConfigurationUUID) with Some c => sql_ilike ("%" +:+ repositorySearch +:+ "%") (c_Name c) | None => false end
  then [us] else [].

Definition ListByTemplate (orgID : string) (tu : uuid) (repositorySearch sortBy : string) (limit : Z) (offset : nat) :
    DB (list SnapshotResponse * nat) :=
  path ← lift_result content_path;
  let order := convertSortByToSQL sortBy {["repository_name" := "repo_name"; "created_at" := "snapshots.created_at"]} "repo_name ASC" in
  total ← db_call (λ d, (inr (length (template_rows d orgID repositorySearch tu)), d));
  snaps ← db_call (λ d, (inr (with_configs d (page limit offset (sql_order order
                           (base.filter (λ us, us.1 ∈ fst <$> template_rows d orgID repositorySearch tu) (scan d.(snapshots)))))), d));
  mret (snapshotConvertToResponses snaps path, total).

(** go-rpm-version: [NewVersion(s).Version()] and [LessThan]. *)
Context (rpm_Version : string → string) (rpm_LessThan : string → string → bool).

Definition highest_version (v : string) (vs : list string) : string :=
  foldl (λ highest x, if rpm_LessThan highest x then x else highest) v vs.

Definition SetDetectedOSVersion (uuid_ : string) : DB string :=
  '(us, c) ← map_err (ErrWrapped "failed to fetch snapshot") (fetch uuid_);
  let orgID := (default zero_config c).(c_OrgID) in
  if orgID != RedHatOrg then mret ""
  else
    '(pkgs, _) ← map_err (ErrWrapped "error querying redhat-release package") (ListSnapshotRpms orgID [uuid_] "redhat-release" 0 1000);
    match pkgs with
    | [] => mret ""
    | p :: pkgs' =>
        let highest := rpm_Version (highest_version p.(sr_Version) (sr_Version <$> pkgs')) in
        if highest == "" then mret ""
        else _ ← map_err (ErrWrapped "failed to update snapshot")
               (db_call (λ d, match pg_uuid uuid_ with
                              | Some u => (inr (), set_snapshots (alter (λ s, if is_live s then set_os highest s else s) u) d)
                              | None => (inl (invalid_uuid uuid_), d)
                              end));
             mret highest
    end.

Definition nl : string := String "010" "".

(** The identifier is made from the name by the expression that makes labels. *)
Definition GetRepositoryConfigurationFile (externalURL fullRootPath orgID snapshotUUID : string) (isLatest : bool) : DB string :=
  '(us, c) ← fetch snapshotUUID;
  match denyUnpublishedForeignPartnerAccess orgID us.1 us.2 c with
  | Some e => throw e
  | None =>
      let rc := us.2.(s_RepositoryConfigurationUUID) in
      repoConfig ← (if IsForeignPartnerView (default zero_config c) orgID then mret (default zero_config c)
                    else kc ← fetchRepoConfig orgID (uuid_String rc) true; mret kc.2);
      contentPath ← lift_result content_path;
      let contentURL := if isLatest
        then pulpContentURL contentPath (nth 0 (strings_Split "/" us.2.(s_RepositoryPath)) "" +:+ "/" +:+ uuid_String rc +:+ "/latest")
        else pulpContentURL contentPath us.2.(s_RepositoryPath) in
      let repoID := if (repoConfig.(c_OrgID) == RedHatOrg) || (repoConfig.(c_OrgID) == CommunityOrg) then repoConfig.(c_Label)
                    else label_of (c_Name repoConfig) in
      let key := RepoConfigGpgKeyURL externalURL fullRootPath orgID (uuid_String rc) in
      mret ("[" +:+ repoID +:+ "]" +:+ nl +:+ "name=" +:+ c_Name repoConfig +:+ nl +:+ "baseurl=" +:+ contentURL +:+ nl +:+
            "module_hotfixes=" +:+ (if repoConfig.(c_Fields).(cf_ModuleHotfixes) then "1" else "0") +:+ nl +:+
            "gpgcheck=" +:+ (match key with Some _ => "1" | None => "0" end) +:+ nl +:+ "repo_gpgcheck=0" +:+ nl +:+ "enabled=1" +:+ nl +:+
            "gpgkey=" +:+ default "" key +:+ nl +:+ "sslclientcert=/etc/pki/consumer/cert.pem" +:+ nl +:+
            "sslclientkey=/etc/pki/consumer/key.pem" +:+ nl)
  end.
End Search.

(** ** Who is told what *)

Lemma add_ids (page : list SnapshotErrata) seen :
  NoDup seen →
  let seen' := foldl (λ ids e, if contains ids e.(se_ErrataId) then ids else ids ++ [e.(se_ErrataId)])%list seen page in
  NoDup seen' ∧ ∀ x, x ∈ seen' ↔ x ∈ seen ∨ x ∈ se_ErrataId <$> page.
Proof.
  revert seen. induction page as [|e page IH]; intros seen Hnd; cbn [foldl fmap list_fmap].
  { split; [done|]. intros x. rewrite elem_of_nil. tauto. }
  destruct (contains seen (se_ErrataId e)) eqn:Hc.
  - apply contains_true in Hc. destruct (IH seen Hnd) as [H1 H2]. split; [done|]. intros x. rewrite H2, elem_of_cons.
    destruct (decide (x = se_ErrataId e)) as [->|]; tauto.
  - assert (se_ErrataId e ∉ seen) as Hn by (intros H%contains_true; congruence).
    destruct (IH (seen ++ [se_ErrataId e])%list) as [H1 H2].
    { apply NoDup_app. split_and!; [done| |apply NoDup_singleton]. intros x Hx ->%list_elem_of_singleton. done. }
    split; [done|]. intros x. rewrite H2, elem_of_app, list_elem_of_singleton, elem_of_cons. tauto.
Qed.

Section Theorems.
Context `{HU : UuidText}.
Context (scan : gmap uuid SnapRow → list (uuid * SnapRow)) (scan_perm : ∀ m, scan m ≡ₚ map_to_list m).
Context (scan_trcs : gmap (uuid * uuid) TrcRow → list (uuid * uuid * TrcRow)).
Context (Tang : option Tangy).
#[local] Set Default Proof Using "Type*".

(** A snapshot that an organization may read: not deleted, and of its own, of a shared organization, or a partner's and
    published. *)
Definition may_read (d : db) (orgId : string) (us : uuid * SnapRow) : Prop :=
  d.(snapshots) !! us.1 = Some us.2 ∧ us.2.(s_DeletedAt) = None ∧ row_readable d orgId us.2 = true.

Lemma elem_of_readable d orgId us : us ∈ readableSnapshots scan d orgId ↔ may_read d orgId us.
Proof.
  unfold readableSnapshots, may_read. rewrite list_elem_of_filter, scan_perm. destruct us as [u s]. rewrite elem_of_map_to_list. cbn.
  unfold is_live. destruct (s_DeletedAt s); intuition congruence.
Qed.

Lemma check_uuids_run uuids fs d r fs' d' : check_uuids uuids (fs, d) = (r, (fs', d')) → d' = d.
Proof.
  revert fs d. induction uuids as [|u uuids IH]; intros fs d; cbn [check_uuids]; [by intros [= _ _ <-]|].
  unfold mbind, M_bind, map_err. destruct (db_call _ (fs, d)) as [[e|[]] [fs1 d1]] eqn:E.
  - intros [= _ _ <-]. apply call_inl in E as [->|E]; [done|]. destruct (snapshots d !! _) as [s|]; [destruct (is_live s)|]; by simplify_eq.
  - intros H%IH. subst d'. apply call_inr in E. destruct (snapshots d !! _) as [s|]; [destruct (is_live s)|]; by simplify_eq.
Qed.

(** What a request is answered with: nothing, or what tangy says of versions that belong to readable snapshots. *)
Definition answer_for {A} (readable : uuid * SnapRow → Prop) (none : A) (ask : Tangy → list string → goerr + A) (r : A) : Prop :=
  (r = none ∧ ∀ us, ¬ readable us) ∨
  ∃ t hrefs, Tang = Some t ∧ ask t hrefs = inr r ∧ ∀ h, h ∈ hrefs ↔ ∃ us, readable us ∧ us.2.(s_VersionHref) = h.

Lemma ask_tang_run {A} (none : A) ask (l : list (uuid * SnapRow)) readable fs d r fs' d' :
  (∀ us, us ∈ l ↔ readable us) →
  ask_tang Tang none ask ((λ us, us.2.(s_VersionHref)) <$> l) (fs, d) = (inr r, (fs', d')) → d' = d ∧ answer_for readable none ask r.
Proof.
  intros Hl. unfold ask_tang, answer_for. destruct Tang as [t|]; [|done].
  destruct l as [|us0 l0] eqn:E; cbn [fmap list_fmap].
  - intros [<- [= <- <-]]%ret_inr. split; [done|]. left. split; [done|]. intros us Hus. by apply Hl, not_elem_of_nil in Hus.
  - change (us0.2.(s_VersionHref) :: _) with ((λ us : uuid * SnapRow, us.2.(s_VersionHref)) <$> (us0 :: l0)). rewrite <- E in *.
    destruct (ask t _) as [e|a] eqn:Ha; [done|]. intros [<- [= <- <-]]%ret_inr. split; [done|]. right. exists t. eexists.
    split_and!; [done..|]. intros h. rewrite list_elem_of_fmap. setoid_rewrite Hl. split; intros (us & ? & ?); exists us; split; congruence.
Qed.

Lemma ask_snapshots_run {A} orgId uuids (none : A) ask fs d r fs' d' :
  ask_snapshots scan Tang orgId uuids none ask (fs, d) = (inr r, (fs', d')) →
  d' = d ∧ answer_for (λ us, may_read d orgId us ∧ us.1 ∈ Uuidify <$> uuids) none ask r.
Proof.
  intros ([] & [fs1 d1] & Hc%check_uuids_run & H)%bind_inr. subst d1.
  apply bind_inr in H as (hrefs & [fs2 d2] & Hp%map_err_inr%call_inr & H). injection Hp as <- <-.
  eapply ask_tang_run; [|exact H]. intros us. rewrite list_elem_of_filter, elem_of_readable. split; intros [? ?]; by split.
Qed.

(** The snapshots of a template at a time: per repository of its content the nearest one that is readable. *)
Definition template_repos (d : db) (tu : uuid) : list uuid :=
  Uuidify <$> ((λ kx : uuid * uuid * TrcRow, uuid_String kx.1.2) <$>
               base.filter (λ kx, kx.1.1 = tu ∧ kx.2.(x_DeletedAt) = None) (scan_trcs d.(trcs))).
Definition template_date (now : time) (t : TemplateRow) : time :=
  if (template_AfterFind t).(t_UseLatest) then now else (template_AfterFind t).(t_Date).

Lemma fetch_template_run now orgId raw fs d snaps fs' d' :
  fetchSnapshotsForTemplate scan scan_trcs now orgId raw (fs, d) = (inr snaps, (fs', d')) →
  d' = d ∧ ∃ t, d.(templates) !! Uuidify raw = Some t ∧ t.(t_OrgID) = orgId ∧
    snaps = snapshots_by_date scan d orgId (template_repos d (Uuidify raw)) (template_date now t).
Proof.
  intros ([u t] & [fs1 d1] & Hf%map_err_inr%call_inr & H)%bind_inr.
  destruct (templates d !! Uuidify raw) as [t'|] eqn:Ht; [|done]. destruct (_ && _) eqn:Ho; [|done]. injection Hf as <- <- <-.
  apply andb_true_iff in Ho as [Ho%bool_decide_eq_true _].
  apply bind_inr in H as (repos & [fs2 d2] & Hr%call_inr & H). injection Hr as <- <-.
  apply map_err_inr, call_inr in H. injection H as <- <-. split; [done|]. by exists t'.
Qed.

Lemma ask_template_run {A} now orgId raw (none : A) ask fs d r fs' d' :
  ask_template scan scan_trcs Tang now orgId raw none ask (fs, d) = (inr r, (fs', d')) →
  d' = d ∧ ∃ t, d.(templates) !! Uuidify raw = Some t ∧ t.(t_OrgID) = orgId ∧
    answer_for (λ us, us ∈ snapshots_by_date scan d orgId (template_repos d (Uuidify raw)) (template_date now t)) none ask r.
Proof.
  intros (snaps & [fs1 d1] & (-> & t & Ht & Ho & ->)%fetch_template_run & H)%bind_inr.
  eapply (ask_tang_run _ _ _ (λ us, us ∈ _)) in H as [-> H]; [|by intros]. split; [done|]. by exists t.
Qed.

Context (to_rfc3339 : string → option string).

(** What a request for a template is answered from: the snapshots that the template of the organization shows at its date, which the
    organization may read. *)
Definition template_answer {A} (now : time) (orgId raw : string) (none : A) (ask : Tangy → list string → goerr + A) (d d' : db) (r : A) : Prop :=
  d' = d ∧ ∃ t, d.(templates) !! Uuidify raw = Some t ∧ t.(t_OrgID) = orgId ∧
    let shown := snapshots_by_date scan d orgId (template_repos d (Uuidify raw)) (template_date now t) in
    (∀ us, us ∈ shown → may_read d orgId us ∧ repo_of us ∈ template_repos d (Uuidify raw)) ∧ answer_for (λ us, us ∈ shown) none ask r.

Lemma ask_template_answer {A} now orgId raw (none : A) ask fs d r fs' d' :
  ask_template scan scan_trcs Tang now orgId raw none ask (fs, d) = (inr r, (fs', d')) → template_answer now orgId raw none ask d d' r.
Proof.
  intros (-> & t & Ht & Ho & H)%ask_template_run. split; [done|]. exists t. split_and!; [done..|]. split; [|done].
  intros us Hus. apply elem_of_snapshots_by_date, combined_nearest in Hus as [(Hs & Hr & Hd & Hrow) _]; [|done..]. done.
Qed.

(** [C32] Content is told to those who may read it. Whatever fails, a request of an organization for the packages, the errata, the package
    groups, the environments or the module streams of given snapshots is answered from exactly the repository versions of
    those of the snapshots that it may read (or with nothing if there is none), and a request for the packages or the errata of a
    template from the versions of the snapshots that the template of this organization shows at its date, which it may read
    too; nothing is changed. *)
Theorem snapshot_content_scoped orgId :
  let readable d uuids us := may_read d orgId us ∧ us.1 ∈ Uuidify <$> uuids in
  (∀ uuids search offset limit fs d r fs' d',
     ListSnapshotRpms scan Tang orgId uuids search offset limit (fs, d) = (inr r, (fs', d')) →
     d' = d ∧ answer_for (readable d uuids) ([], 0%Z) (package_list "error querying packages in snapshots" search offset limit) r) ∧
  (∀ uuids f offset limit sortBy fs d r fs' d',
     ListSnapshotErrata scan Tang to_rfc3339 orgId uuids f offset limit sortBy (fs, d) = (inr r, (fs', d')) →
     d' = d ∧ answer_for (readable d uuids) ([], 0%Z) (errata_list to_rfc3339 "error querying packages in snapshots" f offset limit sortBy) r) ∧
  (∀ q fs d r fs' d', SearchSnapshotPackageGroups scan Tang orgId q (fs, d) = (inr r, (fs', d')) →
     d' = d ∧ answer_for (readable d q.(sq_UUIDs)) [] (λ t hrefs, limited q.(sq_Limit) (λ l,
       wrap_error "error querying package groups in snapshots" (t.(RpmRepositoryVersionPackageGroupSearch) hrefs q.(sq_Search) l))) r) ∧
  (∀ q fs d r fs' d', SearchSnapshotEnvironments scan Tang orgId q (fs, d) = (inr r, (fs', d')) →
     d' = d ∧ answer_for (readable d q.(sq_UUIDs)) [] (λ t hrefs, limited q.(sq_Limit) (λ l,
       wrap_error "error querying packages in snapshots" (t.(RpmRepositoryVersionEnvironmentSearch) hrefs q.(sq_Search) l))) r) ∧
  (∀ uuids names search sortBy fs d r fs' d', SearchSnapshotModuleStreams scan Tang orgId uuids names search sortBy (fs, d) = (inr r, (fs', d')) →
     d' = d ∧ ∃ l, r = group_streams l ∧ answer_for (readable d uuids) [] (λ t hrefs, t.(RpmRepositoryVersionModuleStreamsList) hrefs names search sortBy) l) ∧
  (∀ now raw search offset limit fs d r fs' d',
     ListTemplateRpms scan scan_trcs Tang now orgId raw search offset limit (fs, d) = (inr r, (fs', d')) →
     template_answer now orgId raw ([], 0%Z) (package_list "error querying packages in templates" search offset limit) d d' r) ∧
  (∀ now raw f offset limit sortBy fs d r fs' d',
     ListTemplateErrata scan scan_trcs Tang to_rfc3339 now orgId raw f offset limit sortBy (fs, d) = (inr r, (fs', d')) →
     template_answer now orgId raw ([], 0%Z) (errata_list to_rfc3339 "error querying errata in snapshots" f offset limit sortBy) d d' r).
Proof.
  intros readable. split_and!; [intros *; by apply ask_snapshots_run..| | |].
  - intros * H. unfold SearchSnapshotModuleStreams in H. destruct (orgId == ""); [done|]. destruct uuids as [|u uuids]; [done|].
    apply ask_snapshots_run in H as [-> [[-> Hn]|(t & hrefs & Ht & Ha & Hh)]]; (split; [done|]).
    + exists []. split; [done|by left].
    + destruct (RpmRepositoryVersionModuleStreamsList t hrefs names search sortBy) as [e|l] eqn:E; [done|]. injection Ha as <-.
      exists l. split; [done|]. right. by exists t, hrefs.
  - intros *. apply ask_template_answer.
  - intros *. apply ask_template_answer.
Qed.

(** *** All errata of a template *)

(** tangy pages through a list that depends on the versions only. *)
Definition pages (t : Tangy) (all : list string → list ErrataListItem) : Prop :=
  ∀ hrefs offset limit, (0 ≤ offset)%Z → (0 < limit)%Z →
    t.(RpmRepositoryVersionErrataList) hrefs (mk_ErrataListFilters "" [] []) offset limit "" =
      inr (take (Z.to_nat limit) (drop (Z.to_nat offset) (all hrefs)), Z.of_nat (length (all hrefs))).

Definition template_hrefs (d : db) (orgId : string) (tu : uuid) (date : time) : list string :=
  (λ us : uuid * SnapRow, us.2.(s_VersionHref)) <$> snapshots_by_date scan d orgId (template_repos d tu) date.
Definition content (all : list string → list ErrataListItem) (hrefs : list string) : list ErrataListItem :=
  match hrefs with [] => [] | _ => all hrefs end.

Lemma ListTemplateErrata_page t all now orgId raw d row offset :
  Tang = Some t → pages t all → d.(templates) !! Uuidify raw = Some row → row.(t_OrgID) = orgId → template_live row = true →
  (0 ≤ offset)%Z →
  let l := errata_response to_rfc3339 <$> content all (template_hrefs d orgId (Uuidify raw) (template_date now row)) in
  ListTemplateErrata scan scan_trcs Tang to_rfc3339 now orgId raw (mk_ErrataListFilters "" [] []) offset TemplateErrataIDsPageLimit "" ([], d) =
    (inr (take (Z.to_nat TemplateErrataIDsPageLimit) (drop (Z.to_nat offset) l), Z.of_nat (length l)), ([], d)).
Proof.
  intros HT Hp Hrow Horg Hlive Hoff l. unfold ListTemplateErrata, ask_template.
  erewrite bind_eq; last first.
  { unfold fetchSnapshotsForTemplate. erewrite bind_eq; last first.
    { apply map_err_ok, call_eq. rewrite Hrow, bool_decide_true, Hlive by done. done. }
    cbn beta iota. erewrite bind_eq; [|by apply call_eq]. apply map_err_ok, call_eq. reflexivity. }
  unfold ask_tang. rewrite HT. fold (template_date now row).
  fold (template_repos d (Uuidify raw)). fold (template_hrefs d orgId (Uuidify raw) (template_date now row)).
  subst l. unfold content. destruct (template_hrefs _ _ _ _) as [|h hs]; [by rewrite fmap_nil, drop_nil, take_nil|].
  unfold errata_list. rewrite Hp; [|done|by vm_compute]. cbn [lift_result]. unfold mret, M_ret.
  by rewrite !length_fmap, <- fmap_drop, <- fmap_take.
Qed.


Lemma errata_pages_run t all now orgId raw d row hrefs fuel offset seen :
  Tang = Some t → pages t all → d.(templates) !! Uuidify raw = Some row → row.(t_OrgID) = orgId → template_live row = true →
  (∀ i, template_hrefs d orgId (Uuidify raw) (template_date (now i) row) = hrefs) → NoDup seen →
  let l := errata_response to_rfc3339 <$> content all hrefs in
  (offset ≤ length l)%nat → (length l - offset < fuel)%nat →
  ∃ ids, errata_pages scan scan_trcs Tang to_rfc3339 fuel now orgId raw (Z.of_nat offset) seen ([], d) = (inr (Some ids), ([], d)) ∧
    NoDup ids ∧ ∀ x, x ∈ ids ↔ x ∈ seen ∨ x ∈ se_ErrataId <$> drop offset l.
Proof.
  intros HT Hp Hrow Horg Hlive Hfix Hnd l. revert offset seen Hnd. induction fuel as [|fuel IH]; intros offset seen Hnd Hle Hlt; [lia|].
  cbn [errata_pages]. erewrite bind_eq; [|by eapply ListTemplateErrata_page; [..|lia]]. rewrite Hfix. fold l. rewrite Nat2Z.id.
  set (limit := Z.to_nat TemplateErrataIDsPageLimit). assert (0 < limit)%nat as Hlim by (unfold limit, TemplateErrataIDsPageLimit; lia).
  cbn beta iota. set (pg := take limit (drop offset l)).
  destruct (add_ids pg seen Hnd) as [Hnd' Hin]. set (seen' := foldl _ seen pg) in *.
  assert (length pg = limit `min` (length l - offset))%nat as Hpg by (unfold pg; rewrite length_take, length_drop; done).
  destruct (_ || _) eqn:Hstop.
  - exists seen'. split_and!; [done..|]. intros x. rewrite Hin. enough (pg = drop offset l) as -> by done.
    unfold pg. apply take_ge. rewrite length_drop. apply orb_true_iff in Hstop as [?%Z.leb_le|?%Nat.eqb_eq]; lia.
  - apply orb_false_iff in Hstop as [H1%Z.leb_gt H2%Nat.eqb_neq]. rewrite <- Nat2Z.inj_add.
    destruct (IH (offset + length pg)%nat seen' Hnd') as (ids & -> & Hnd2 & Hin2); [lia..|].
    exists ids. split_and!; [done..|]. intros x. rewrite Hin2, Hin.
    enough (drop offset l = (pg ++ drop (offset + length pg) l)%list) as ->.
    { rewrite fmap_app, elem_of_app. split; [intros [[?|?]|?]|intros [?|[?|?]]]; auto. }
    rewrite <- (take_drop limit (drop offset l)) at 1. fold pg. f_equal. rewrite drop_drop. f_equal. lia.
Qed.

(** [C33] All errata of a template. If tangy pages through a list, nothing fails, and the template, which is not deleted, shows the same
    snapshots whenever a page is asked for (so it does if it has a date; if it follows the latest snapshots, no new one becomes the
    nearest meanwhile), the loop over the pages ends, whatever the size of the list (with one round more than it has errata), and the
    result has the identifiers of exactly the errata of the versions the template shows, each once and in order. *)
Theorem template_errata_complete t all now orgId raw d row hrefs fuel :
  Tang = Some t → pages t all → d.(templates) !! Uuidify raw = Some row → row.(t_OrgID) = orgId → template_live row = true →
  (∀ i, template_hrefs d orgId (Uuidify raw) (template_date (now i) row) = hrefs) →
  let errata := content all hrefs in
  (length errata < fuel)%nat →
  ∃ ids, FetchTemplateErrataIDs scan scan_trcs Tang to_rfc3339 fuel now orgId raw ([], d) = (inr (Some ids), ([], d)) ∧
    StronglySorted String.le ids ∧ NoDup ids ∧ ∀ x, x ∈ ids ↔ x ∈ er_ErrataId <$> errata.
Proof.
  intros HT Hp Hrow Horg Hlive Hfix errata Hf.
  destruct (errata_pages_run t all now orgId raw d row hrefs fuel 0 [] HT Hp Hrow Horg Hlive Hfix) as (ids & Hr & Hnd & Hin);
    [constructor|lia|fold errata; rewrite length_fmap; lia|].
  exists (merge_sort String.le ids). split_and!.
  - unfold FetchTemplateErrataIDs. etrans; [apply (bind_eq _ _ _ _ _ Hr)|done].
  - apply (StronglySorted_merge_sort _).
  - by rewrite merge_sort_Permutation.
  - intros x. rewrite merge_sort_Permutation, Hin, elem_of_nil, drop_0. fold errata. rewrite <- list_fmap_compose.
    by split; [intros [[]|]|right].
Qed.
End Theorems.

(** ** A small tangy, for the witnesses *)

Module TangEx.
#[local] Existing Instances Ex.uuid_text Ex.uuid_laws.
Definition erratum (id : string) : ErrataListItem := mk_ErrataListItem "" id "" "" "" "" None "" "" false None.
(** The packages and errata of a version are named after it. *)
Definition all (hrefs : list string) : list ErrataListItem := hrefs ≫= λ h, [erratum ("b" +:+ h); erratum ("a" +:+ h); erratum "c"].
Definition tangy : Tangy := {|
  RpmRepositoryVersionPackageList hrefs _ _ _ := inr ((λ h, mk_SnapshotRpm h "" "1" "1" "0" "") <$> hrefs, Z.of_nat (length hrefs));
  RpmRepositoryVersionPackageSearch hrefs _ _ := inr ((λ h, (h, "")) <$> hrefs);
  RpmRepositoryVersionErrataList hrefs _ offset limit _ :=
    inr (take (Z.to_nat limit) (drop (Z.to_nat offset) (all hrefs)), Z.of_nat (length (all hrefs)));
  RpmRepositoryVersionPackageGroupSearch _ _ _ := inr [];
  RpmRepositoryVersionEnvironmentSearch _ _ _ := inr [];
  RpmRepositoryVersionModuleStreamsList _ _ _ _ := inr [] |}.
Definition row : TemplateRow := mk_TemplateRow "t" "org" "" (30 * Second)%Z "9" "x86_64" "" "" None "" "" false false None None.
(** The small database with a template of "org" that has its own and the partner's repository. *)
Definition d : db := mk_db Ex.d.(configs) Ex.d.(repositories) Ex.d.(snapshots) {[4%N := row]}
  (<[(4%N, 1%N) := mk_TrcRow 6 (Some "") None]> (<[(4%N, 2%N) := mk_TrcRow 7 (Some "") None]> ∅)).
End TangEx.
#[local] Existing Instances Ex.uuid_text Ex.uuid_laws.

Lemma snapshot_content_scoped_witness :
  ListSnapshotRpms map_to_list (Some TangEx.tangy) "org" [Ex.text 5; Ex.text 8] "" 0 10 ([], TangEx.d) =
    (inr ([mk_SnapshotRpm "version" "" "1" "1" "0" ""], 1%Z), ([], TangEx.d)) ∧
  answer_for (Some TangEx.tangy) (λ us, may_read TangEx.d "org" us ∧ us.1 ∈ Uuidify <$> [Ex.text 5; Ex.text 8]) ([], 0%Z)
    (package_list "error querying packages in snapshots" "" 0 10) ([mk_SnapshotRpm "version" "" "1" "1" "0" ""], 1%Z).
Proof.
  assert (ListSnapshotRpms map_to_list (Some TangEx.tangy) "org" [Ex.text 5; Ex.text 8] "" 0 10 ([], TangEx.d) =
    (inr ([mk_SnapshotRpm "version" "" "1" "1" "0" ""], 1%Z), ([], TangEx.d))) as H by by vm_compute.
  split; [done|].
  destruct (snapshot_content_scoped map_to_list (λ m, reflexivity _) map_to_list (Some TangEx.tangy) (λ _, None) "org") as [Hr _].
  by apply Hr in H as [_ H].
Defined.

Lemma template_errata_complete_witness :
  ∃ ids, FetchTemplateErrataIDs map_to_list map_to_list (Some TangEx.tangy) (λ _, None) 7 (λ i, Z.of_nat i) "org" (Ex.text 4) ([], TangEx.d) =
      (inr (Some ids), ([], TangEx.d)) ∧ "aversion" ∈ ids ∧ "c" ∈ ids.
Proof.
  destruct (template_errata_complete map_to_list (λ m, reflexivity _) map_to_list (Some TangEx.tangy) (λ _, None) TangEx.tangy TangEx.all
    (λ i, Z.of_nat i) "org" (Ex.text 4) TangEx.d TangEx.row ["version"; "version"] 7) as (ids & Hr & _ & _ & Hin);
    [done|by intros ???|done|done|done|by intros i; vm_compute|by vm_compute; lia|].
  exists ids. split; [exact Hr|]. rewrite !Hin. split; apply list_elem_of_In; vm_compute; auto.
Defined.
