(* ===== verification/SnapshotTask.v ===== *)
(** * tasks/snapshot_helper.go, repository_snapshot.go, orphaned_version.go: taking a snapshot

    [SnapshotHelper] turns a version of a Pulp repository into a snapshot: a publication, a distribution and a row of the
    table. It is used by several tasks through [ResumableSnapshotInterface], here the class [Resumable] of their payloads.
    [SnapshotRepository] synchronizes a repository and then runs the helper; [SnapshotHandler] counts its failures. *)

From S2P Require Import Prelude GoStrings GoSplit Config TxMonad Utils Models Errors DaoHelpers GoText SnapshotDao SnapshotThms TemplateDao SnapshotHandler SnapshotHandlerThms RepoConfigDao Pulp Distribution TaskEnv PublishTask SnapshotSearch.
From stdpp Require Import options.

Open Scope string_scope.

(** ** ResumableSnapshotInterface *)

Class Resumable (P : Type) := {
  GetPublicationTaskHref : P → option string; SetPublicationTaskHref : string → P → P;
  GetDistributionTaskHref : P → option string; SetDistributionTaskHref : string → P → P;
  GetSnapshotIdent : P → option string; SetSnapshotIdent : string → P → P;
  GetSnapshotUUID : P → option string; SetSnapshotUUID : string → P → P }.

(** What is saved is what is read back, and saving one reference leaves the others alone. *)
Class ResumableLaws (P : Type) `{Resumable P} := {
  get_set_publication h p : h ≠ "" → GetPublicationTaskHref (SetPublicationTaskHref h p) = Some h;
  get_set_ident h p : h ≠ "" → GetSnapshotIdent (SetSnapshotIdent h p) = Some h;
  get_set_uuid h p : h ≠ "" → GetSnapshotUUID (SetSnapshotUUID h p) = Some h;
  ident_publication h p : GetSnapshotIdent (SetPublicationTaskHref h p) = GetSnapshotIdent p;
  ident_distribution h p : GetSnapshotIdent (SetDistributionTaskHref h p) = GetSnapshotIdent p;
  ident_uuid h p : GetSnapshotIdent (SetSnapshotUUID h p) = GetSnapshotIdent p
}.

(** ** path/filepath *)

(** The elements of a cleaned path, last first. *)
Fixpoint clean_elements (rooted : bool) (acc : list string) (els : list string) : list string :=
  match els with
  | [] => acc
  | el :: els' =>
      if (el == "") || (el == ".") then clean_elements rooted acc els'
      else if el == ".." then
        match acc with
        | last :: acc' => if last != ".." then clean_elements rooted acc' els' else clean_elements rooted (".." :: acc) els'
        | [] => clean_elements rooted (if rooted then [] else [".."]) els'
        end
      else clean_elements rooted (el :: acc) els'
  end.
Definition filepath_Clean (path : string) : string :=
  let rooted := match path with String c _ => Ascii.eqb c "/" | "" => false end in
  let out := strings_Join "/" (reverse (clean_elements rooted [] (strings_Split "/" path))) in
  if rooted then "/" +:+ out else if out == "" then "." else out.
Definition filepath_Join (els : list string) : string :=
  match base.filter (λ e, e ≠ "") els with [] => "" | els' => filepath_Clean (strings_Join "/" els') end.

Section Helper.
Context {S C P : Type} `{HC : PulpClient S} `{HR : Resumable P} `{HU : UuidText}.
Context (RepoContentGuards : bool) (scan : gmap uuid SnapRow → list (uuid * SnapRow)).
Context (Tang : option Tangy) (rpm_Version : string → string) (rpm_LessThan : string → string → bool).
Abbreviation TM := (M (tworld S C P) goerr).

Definition get_mem : TM P := λ '(fs, w), (inr w.(tw_mem), (fs, w)).
Definition save (f : P → P) : TM () := _ ← modify_mem f; UpdatePayload.

(** ** snapshot_helper.go *)

Definition findOrCreatePublication (dom versionHref : string) : TM string :=
  publication ← pulp (db_call (FindRpmPublicationByVersion dom versionHref));
  match mjoin publication with
  | Some href => mret href
  | None =>
      p ← get_mem;
      _ ← match GetPublicationTaskHref p with
          | None =>
              publicationTaskHref ← pulp (db_call (CreateRpmPublication dom versionHref));
              match publicationTaskHref with
              | None => throw (ErrPlain "publicationTaskHref cannot be nil")
              | Some t => save (SetPublicationTaskHref t)
              end
          | Some _ => mret ()
          end;
      p ← get_mem;
      t ← deref (GetPublicationTaskHref p);
      publicationTask ← pulp (db_call (PollTask dom t));
      match SelectPublicationHref (Some publicationTask) with
      | None => throw (ErrPlain ("could not find a publication href in task: " +:+ default "" publicationTask.(t_PulpHref)))
      | Some href => mret href
      end
  end.

(** [ident]: the UUID drawn if there is no ident yet. *)
Definition ensure_ident (ident : uuid) : TM string :=
  p ← get_mem;
  _ ← (match GetSnapshotIdent p with
       | None => wrap "unable to save snapshot ident" (save (SetSnapshotIdent (uuid_String ident)))
       | Some _ => mret ()
       end);
  p ← get_mem;
  deref (GetSnapshotIdent p).

(** The second half: the row of the snapshot. [u]: the UUID drawn for it; [now]: the time of the insertion. *)
Definition record_snapshot (now : time) (u : uuid) (dom : string) (repo : RepoResponse) (versionHref publicationHref distPath distHref : string) :
    TM () :=
  summary ← pulp (db_call (GetRpmRepositoryVersion dom versionHref));
  let '(current, added, removed) := ContentSummaryToContentCounts summary in
  snapUUID ← dao (Create u (mk_SnapRow repo.(p_UUID) now None versionHref publicationHref distPath (filepath_Join [dom; distPath])
                              distHref current added removed "" false));
  _ ← wrap "unable to save snapshot uuid" (save (SetSnapshotUUID (uuid_String snapUUID)));
  if repo.(p_OrgID) == RedHatOrg
  then _ ← wrap "could not set detected OS release" (dao (SetDetectedOSVersion scan Tang rpm_Version rpm_LessThan (uuid_String snapUUID)));
       mret ()
  else mret ().

Definition SnapshotHelper_Run (now : time) (ident u : uuid) (dom : string) (repo : RepoResponse) (versionHref : string) : TM () :=
  publicationHref ← findOrCreatePublication dom versionHref;
  snapshotIdent ← ensure_ident ident;
  let distPath := uuid_String repo.(p_UUID) +:+ "/" +:+ snapshotIdent in
  '(distHref, distTaskHref) ← pulp (CreateOrUpdateDistribution RepoContentGuards dom repo publicationHref snapshotIdent distPath);
  _ ← wrap "unable to save distribution task href" (save (SetDistributionTaskHref distTaskHref));
  _ ← (if ShouldUpdateLatestDistributionOnCreate repo
       then _ ← pulp (CreateOrUpdateLatestDistribution RepoContentGuards dom repo publicationHref); mret ()
       else mret ());
  record_snapshot now u dom repo versionHref publicationHref distPath distHref.

(** A deletion whose errors are passed on. *)
Definition delete_distribution (dom href : string) : TM () :=
  deleteDistributionHref ← pulp (db_call (DeleteRpmDistribution dom href));
  match deleteDistributionHref with
  | Some t => _ ← pulp (db_call (PollTask dom t)); mret ()
  | None => mret ()
  end.

Definition SnapshotHelper_Cleanup (dom : string) (repo : RepoResponse) : TM () :=
  p ← get_mem;
  _ ← match GetDistributionTaskHref p with
      | Some distTaskHref =>
          distTask ← pulp (db_call (GetTask dom distTaskHref));
          match SelectRpmDistributionHref (Some distTask) with
          | Some distHref =>
              _ ← delete_distribution dom distHref;
              _ ← save (SetPublicationTaskHref "");
              save (SetDistributionTaskHref "")
          | None => mret ()
          end
      | None => mret ()
      end;
  p ← get_mem;
  _ ← match GetSnapshotUUID p with Some u => dao (Delete u) | None => mret () end;
  _ ← save (SetSnapshotUUID "");
  latestDistro ← pulp (db_call (FindDistributionByPath dom (GetLatestRepoDistPath (uuid_String repo.(p_UUID)))));
  match latestDistro with
  | None => mret ()
  | Some latestDistro =>
      latestSnap ← try (dao (FetchLatestSnapshotForDistribution (uuid_String repo.(p_UUID))));
      match latestSnap with
      | inl e => if is_record_not_found e then href ← deref (d_PulpHref latestDistro); delete_distribution dom href else throw e
      | inr us => _ ← pulp (CreateOrUpdateLatestDistribution RepoContentGuards dom repo us.2.(s_PublicationHref)); mret ()
      end
  end.

(** ** orphaned_version.go *)

Definition GetOrphanedLatestVersion (dom repoConfigUUID : string) : TM (option string) :=
  repoResp ← pulp (db_call (GetRpmRepositoryByName dom repoConfigUUID));
  match repoResp ≫= pr_LatestVersionHref with
  | None => mret None
  | Some href =>
      snap ← dao (FetchSnapshotByVersionHref scan repoConfigUUID href);
      mret (match snap with None => Some href | Some _ => None end)
  end.
End Helper.

(** ** repository_snapshot.go *)

(** payloads.SnapshotPayload *)
Record SnapshotPayload := mk_SnapshotPayload {
  sp_SnapshotIdent : option string; sp_SnapshotUUID : option string; sp_SyncTaskHref : option string;
  sp_PublicationTaskHref : option string; sp_DistributionTaskHref : option string }.

(** An empty string is saved as nil. *)
Definition non_empty (s : string) : option string := if s == "" then None else Some s.
#[global] Instance snapshot_resumable : Resumable SnapshotPayload := {
  GetPublicationTaskHref := sp_PublicationTaskHref;
  SetPublicationTaskHref h p := mk_SnapshotPayload p.(sp_SnapshotIdent) p.(sp_SnapshotUUID) p.(sp_SyncTaskHref) (non_empty h) p.(sp_DistributionTaskHref);
  GetDistributionTaskHref := sp_DistributionTaskHref;
  SetDistributionTaskHref h p := mk_SnapshotPayload p.(sp_SnapshotIdent) p.(sp_SnapshotUUID) p.(sp_SyncTaskHref) p.(sp_PublicationTaskHref) (non_empty h);
  GetSnapshotIdent := sp_SnapshotIdent;
  SetSnapshotIdent h p := mk_SnapshotPayload (non_empty h) p.(sp_SnapshotUUID) p.(sp_SyncTaskHref) p.(sp_PublicationTaskHref) p.(sp_DistributionTaskHref);
  GetSnapshotUUID := sp_SnapshotUUID;
  SetSnapshotUUID h p := mk_SnapshotPayload p.(sp_SnapshotIdent) (non_empty h) p.(sp_SyncTaskHref) p.(sp_PublicationTaskHref) p.(sp_DistributionTaskHref) }.

Lemma non_empty_ne h : h ≠ "" → non_empty h = Some h.
Proof. intros. unfold non_empty. by rewrite bool_decide_false. Qed.
#[global] Instance snapshot_resumable_laws : ResumableLaws SnapshotPayload.
Proof. split; intros; cbn; try done; by apply non_empty_ne. Qed.

Definition SetSyncTaskHref (h : option string) (p : SnapshotPayload) : SnapshotPayload :=
  mk_SnapshotPayload p.(sp_SnapshotIdent) p.(sp_SnapshotUUID) h p.(sp_PublicationTaskHref) p.(sp_DistributionTaskHref).
Definition ClearPublicationTaskHref (p : SnapshotPayload) : SnapshotPayload :=
  mk_SnapshotPayload p.(sp_SnapshotIdent) p.(sp_SnapshotUUID) p.(sp_SyncTaskHref) None p.(sp_DistributionTaskHref).

Section Repository.
Context {S C : Type} `{HC : PulpClient S} `{HU : UuidText}.
Context (RepoContentGuards : bool) (scan : gmap uuid SnapRow → list (uuid * SnapRow)).
Context (Tang : option Tangy) (rpm_Version : string → string) (rpm_LessThan : string → string → bool).
Context (tasks : gmap uuid TaskView).
(** The certificate for Red Hat's CDN, and what [LoadCA] returns. *)
Context (CdnCertPairString : option string) (LoadCA : goerr + string).
Abbreviation TM := (M (tworld S C SnapshotPayload) goerr).

Definition lookupRepoObjects (orgId : string) (repositoryUUID : uuid) : TM RepoResponse :=
  dao (FetchByRepoUuid tasks orgId (uuid_String repositoryUUID)).

Definition urlIsRedHat (url : string) : bool := strings_Contains url "cdn.redhat.com".

Definition findOrCreateRemote (dom : string) (repo : RepoResponse) : TM string :=
  let rh := (repo.(p_OrgID) == RedHatOrg) && urlIsRedHat repo.(p_URL) in
  let clientCertPair := if rh then CdnCertPairString else None in
  let caCert := if rh then Some (match LoadCA with inr ca => ca | inl _ => "" end) else None in
  let name := uuid_String repo.(p_UUID) in
  remoteResp ← pulp (db_call (GetRpmRemoteByName dom name));
  match remoteResp with
  | None =>
      href ← pulp (db_call (CreateRpmRemote dom name repo.(p_URL) clientCertPair clientCertPair caCert));
      deref href
  | Some None => throw Panic
  | Some (Some href) => _ ← pulp (db_call (UpdateRpmRemote dom href repo.(p_URL) clientCertPair clientCertPair caCert)); mret href
  end.

Definition findOrCreatePulpRepo (dom repoConfigUUID remoteHref : string) : TM string :=
  repoResp ← pulp (db_call (GetRpmRepositoryByName dom repoConfigUUID));
  repo ← (match repoResp with
          | Some repo => mret repo
          | None => pulp (db_call (CreateRpmRepository dom repoConfigUUID (Some remoteHref)))
          end);
  deref repo.(pr_PulpHref).

Definition syncRepository (dom repoHref remoteHref : string) : TM (option string) :=
  p ← get_mem;
  _ ← match p.(sp_SyncTaskHref) with
      | None =>
          syncTaskHref ← pulp (db_call (SyncRpmRepository dom repoHref (Some remoteHref)));
          save (SetSyncTaskHref (Some syncTaskHref))
      | Some _ => mret ()
      end;
  p ← get_mem;
  t ← deref p.(sp_SyncTaskHref);
  syncTask ← pulp (db_call (PollTask dom t));
  mret (SelectVersionHref (Some syncTask)).

Definition cleanupOnCancel (dom : string) : TM () :=
  p ← get_mem;
  match p.(sp_SyncTaskHref) with
  | None => mret ()
  | Some t =>
      _ ← pulp (db_call (CancelTask dom t));
      task ← pulp (db_call (GetTask dom t));
      _ ← modify_mem (SetSyncTaskHref None);
      p ← get_mem;
      _ ← match p.(sp_PublicationTaskHref) with
          | Some pt => _ ← pulp (db_call (CancelTask dom pt)); modify_mem ClearPublicationTaskHref
          | None => mret ()
          end;
      match SelectVersionHref (Some task) with
      | Some v => _ ← pulp (db_call (DeleteRpmRepositoryVersion dom v)); mret ()
      | None => mret ()
      end
  end.

(** What [Run] does once the clean-up is deferred. *)
Definition run_snapshot (now : time) (ident u : uuid) (dom : string) (repo : RepoResponse) : TM () :=
  let name := uuid_String repo.(p_UUID) in
  remoteHref ← (if repo.(p_Origin) != OriginUpload then wrap "failed to find or create remote" (findOrCreateRemote dom repo) else mret "");
  repoHref ← wrap "failed to find or create pulp repo" (findOrCreatePulpRepo dom name remoteHref);
  versionHref ← (if repo.(p_Origin) == OriginUpload then
                   repo ← wrap "failed to lookup version for upload repo" (pulp (db_call (GetRpmRepositoryByName dom name)));
                   repo ← deref repo; mret repo.(pr_LatestVersionHref)
                 else wrap "failed to sync repository" (syncRepository dom repoHref remoteHref));
  versionHref ← (match versionHref with
                 | None => wrap "failed to get orphaned latest version" (GetOrphanedLatestVersion scan dom name)
                 | Some v => mret (Some v)
                 end);
  match versionHref with
  | None => mret ()
  | Some v => SnapshotHelper_Run RepoContentGuards scan Tang rpm_Version rpm_LessThan now ident u dom repo v
  end.

(** The deferred function: the errors of the clean-up are logged. *)
Definition cleanup_canceled (dom : string) (repo : RepoResponse) : TM () :=
  _ ← try (SnapshotHelper_Cleanup RepoContentGuards dom repo);
  _ ← try (cleanupOnCancel dom);
  _ ← try UpdatePayload;
  mret ().

(** The UUID of the configuration that was looked up, and the error. *)
Definition SnapshotRepository_Run (now : time) (ident u : uuid) (dom orgId : string) (repositoryUUID : uuid) : TM (string * option goerr) :=
  found ← try (lookupRepoObjects orgId repositoryUUID);
  match found with
  | inl e => mret ("", Some (ErrWrapped "failed to lookup repo objects" e))
  | inr repo =>
      let name := uuid_String repo.(p_UUID) in
      prepared ← try (_ ← wrap "failed to lookup or create domain" (pulp (db_call (LookupOrCreateDomain dom)));
                      wrap "failed to update domain" (pulp (db_call (UpdateDomainIfNeeded dom))));
      match prepared with
      | inl e => mret (name, Some e)
      | inr _ =>
          r ← try (run_snapshot now ident u dom repo);
          match r with
          | inr _ => mret (name, None)
          | inl e => _ ← (if is_canceled e then cleanup_canceled dom repo else mret ()); mret (name, Some e)
          end
      end
  end.

(** [dname]: the random name of a new domain. *)
Definition SnapshotTaskHandler (now : time) (ident u : uuid) (dname orgId : string) (repositoryUUID : uuid) : TM () :=
  domainName ← domain_dao (FetchOrCreateDomain dname orgId);
  '(name, err) ← SnapshotRepository_Run now ident u domainName orgId repositoryUUID;
  match err with
  | None => dao (InternalOnly_ResetFailedSnapshotCount name)
  | Some e =>
      if is_canceled e then mret ()
      else _ ← try (dao (InternalOnly_IncrementFailedSnapshotCount name)); throw e
  end.
End Repository.
