(* ===== verification/SnapshotTaskThms.v ===== *)
(** * What taking a snapshot achieves

    The theorems on [SnapshotTask.v]: a run of the helper that succeeds leaves a snapshot with everything that belongs to it,
    and the failures of the task are counted. The last section has runs that show where a later attempt goes wrong. *)

From S2P Require Import Prelude GoStrings GoSplit Config TxMonad Utils Models Errors DaoHelpers SnapshotDao SnapshotThms TemplateDao SnapshotHandler SnapshotHandlerThms RepoConfigDao Pulp Distribution TaskEnv PublishTask SnapshotSearch SnapshotTask.
From stdpp Require Import options.

Open Scope string_scope.

Section Helper.
Context {S C P : Type} `{HC : PulpClient S} `{HL : !PulpLaws S} `{HR : Resumable P} `{HRL : !ResumableLaws P} `{HU : UuidText}.
#[local] Set Default Proof Using "Type*".
Abbreviation W := (tworld S C P).

(** Only Pulp and the payload have changed. *)
Definition base_same (w w' : W) : Prop :=
  w'.(tw_db) = w.(tw_db) ∧ w'.(tw_domains) = w.(tw_domains) ∧ w'.(tw_tasks) = w.(tw_tasks) ∧ w'.(tw_cp) = w.(tw_cp).

Lemma base_refl w : base_same w w.
Proof. done. Qed.
Lemma base_trans w1 w2 w3 : base_same w1 w2 → base_same w2 w3 → base_same w1 w3.
Proof. unfold base_same. intros (-> & -> & -> & ->) (-> & -> & -> & ->). done. Qed.

Lemma save_run (f : P → P) fs (w : W) fs' w' :
  save f (fs, w) = (inr (), (fs', w')) → base_same w w' ∧ w'.(tw_pulp) = w.(tw_pulp) ∧ w'.(tw_mem) = f w.(tw_mem) ∧ w'.(tw_stored) = f w.(tw_mem).
Proof. intros ([] & [fs1 w1] & [= <- <-] & H%call_inr)%bind_inr. injection H as <-. done. Qed.

Lemma get_mem_run fs (w : W) p fs' w' : get_mem (fs, w) = (inr p, (fs', w')) → p = w.(tw_mem) ∧ fs' = fs ∧ w' = w.
Proof. by intros [= <- <- <-]. Qed.

Lemma pulp_base {A} (m : M S goerr A) fs (w : W) a fs' w' :
  pulp m (fs, w) = (inr a, (fs', w')) → ∃ s, m (fs, w.(tw_pulp)) = (inr a, (fs', s)) ∧ base_same w w' ∧
    w'.(tw_pulp) = s ∧ w'.(tw_mem) = w.(tw_mem) ∧ w'.(tw_stored) = w.(tw_stored).
Proof. intros (s & Hm & ->)%pulp_run. exists s. done. Qed.

(** A resumed publication task is one for the version at hand. *)
Definition resumes (v : string) (p : P) : Prop := ∀ t, GetPublicationTaskHref p = Some t → task_kind t = PublicationTask v.

Lemma publication_run dom v fs (w : W) pub fs' w' :
  resumes v w.(tw_mem) → findOrCreatePublication dom v (fs, w) = (inr pub, (fs', w')) →
  base_same w w' ∧ dists w'.(tw_pulp) = dists w.(tw_pulp) ∧ version_of pub = v ∧
  GetSnapshotIdent w'.(tw_mem) = GetSnapshotIdent w.(tw_mem).
Proof.
  intros Hres (o & [fs1 w1] & (s1 & Hf & Hb1 & Hp1 & Hm1 & _)%pulp_base & H)%bind_inr.
  assert (dists s1 = dists w.(tw_pulp)) as Hd1 by (eapply quiet_call; [|exact Hf]; apply quiet_find_publication). apply call_inr in Hf.
  destruct (mjoin o) as [h|] eqn:Ho.
  { apply ret_inr in H as [-> [= <- <-]]. rewrite Hp1, Hd1, Hm1. split_and!; [done..| |done].
    destruct o as [[h|]|]; try done. injection Ho as ->. by eapply publication_found. }
  apply bind_inr in H as (p & [fs2 w2] & (-> & -> & ->)%get_mem_run & H).
  apply bind_inr in H as ([] & [fs3 w3] & Hc & H).
  assert (base_same w1 w3 ∧ dists w3.(tw_pulp) = dists s1 ∧ GetSnapshotIdent w3.(tw_mem) = GetSnapshotIdent w1.(tw_mem) ∧ resumes v w3.(tw_mem))
    as (Hb3 & Hd3 & Hi3 & Hres3).
  { destruct (GetPublicationTaskHref (tw_mem w1)) as [t|] eqn:Ht.
    { apply ret_inr in Hc as [_ [= <- <-]]. rewrite Hp1. split_and!; [done..|]. rewrite Hm1. done. }
    apply bind_inr in Hc as (ot & [fs4 w4] & (s4 & Hcr & Hb4 & Hp4 & Hm4 & _)%pulp_base & Hc). destruct ot as [t|]; [|done].
    assert (dists s4 = dists w1.(tw_pulp)) as Hd4 by (eapply quiet_call; [|exact Hcr]; apply quiet_create_publication).
    apply call_inr, publication_task in Hcr as [Hk Hne]. apply save_run in Hc as (Hb5 & Hp5 & Hm5 & _).
    split_and!; [by eapply base_trans|by rewrite Hp5, Hp4, Hd4, Hp1|by rewrite Hm5, ident_publication, Hm4|].
    intros t'. rewrite Hm5, Hm4, get_set_publication by done. by intros [= <-]. }
  apply bind_inr in H as (p & [fs5 w5] & (-> & -> & ->)%get_mem_run & H).
  apply bind_inr in H as (t & ? & [Ht ->]%deref_inr & H). specialize (Hres3 _ Ht).
  apply bind_inr in H as (tr & [fs6 w6] & (s6 & Hpl & Hb6 & Hp6 & Hm6 & _)%pulp_base & H).
  assert (dists s6 = dists w3.(tw_pulp)) as Hd6 by (eapply poll_call; [|exact Hpl]; by rewrite Hres3). apply call_inr in Hpl.
  destruct (SelectPublicationHref (Some tr)) as [h|] eqn:Hh; [|done]. apply ret_inr in H as [-> [= <- <-]].
  split_and!; [by do 2 (eapply base_trans; [done|])|by rewrite Hp6, Hd6, Hd3, Hd1|by eapply publication_created|by rewrite Hm6, Hi3, Hm1].
Qed.

Lemma snapshot_Create_run u s fs d u' fs' d' :
  Create u s (fs, d) = (inr u', (fs', d')) →
  u' = u ∧ d.(snapshots) !! u = None ∧ is_Some (d.(configs) !! s.(s_RepositoryConfigurationUUID)) ∧
  d' = set_configs (alter (set_last_snapshot (Some u)) s.(s_RepositoryConfigurationUUID)) (set_snapshots <[u := s]> d).
Proof.
  intros ([] & [fs1 d1] & Hi%call_inr & ([] & [fs2 d2] & Hu%call_inr & [<- [= <- <-]]%ret_inr)%bind_inr)%bind_inr.
  injection Hu as <-. destruct (_ || _) eqn:E in Hi; [done|]. apply orb_false_iff in E as [E _].
  destruct (bool_decide (configs d !! _ = None)) eqn:Ec in Hi; [done|]. injection Hi as <-.
  apply bool_decide_eq_false in E, Ec. split_and!; [done|by apply eq_None_not_Some| |done]. by destruct (configs d !! _).
Qed.

Lemma ensure_ident_run ident fs (w : W) id fs' w' :
  uuid_String ident ≠ "" → ensure_ident ident (fs, w) = (inr id, (fs', w')) →
  base_same w w' ∧ w'.(tw_pulp) = w.(tw_pulp) ∧ id = default (uuid_String ident) (GetSnapshotIdent w.(tw_mem)).
Proof.
  intros Hi (p & [fs1 w1] & (-> & -> & ->)%get_mem_run & H)%bind_inr.
  apply bind_inr in H as ([] & [fs3 w3] & Hsi & (p & [fs4 w4] & (-> & -> & ->)%get_mem_run & [Hid [= -> ->]]%deref_inr)%bind_inr).
  destruct (GetSnapshotIdent (tw_mem w)) as [i|] eqn:Ei.
  - apply ret_inr in Hsi as [_ [= <- <-]]. split_and!; [done..|]. cbn. congruence.
  - apply wrap_inr, save_run in Hsi as (? & ? & Hm & _). split_and!; [done..|]. rewrite Hm, get_set_ident in Hid by done. by simplify_eq.
Qed.

Context {HUL : UuidLaws}.
Context (guards : bool) (scan : gmap uuid SnapRow → list (uuid * SnapRow)) (Tang : option Tangy).
Context (rpm_Version : string → string) (rpm_LessThan : string → string → bool).

Lemma SetDetectedOSVersion_run u fs d r fs' d' :
  SetDetectedOSVersion scan Tang rpm_Version rpm_LessThan (uuid_String u) (fs, d) = (inr r, (fs', d')) →
  d' = d ∨ ∃ v, d' = set_snapshots (alter (λ s, if is_live s then set_os v s else s) u) d.
Proof.
  intros ([us c] & [fs1 d1] & Hf%map_err_inr & H)%bind_inr.
  assert (d1 = d) as ->.
  { apply map_err_inr, bind_inr in Hf as (us' & [fs2 d2] & H1%call_inr & (c' & [fs3 d3] & H2%call_inr & [_ [= _ <-]]%ret_inr)%bind_inr).
    injection H2 as _ <-. destruct (snapshots d !! _) as [x|]; [destruct (true && negb (is_live x))|]; by simplify_eq. }
  cbn zeta in H. destruct (c_OrgID (default zero_config c) != RedHatOrg); [apply ret_inr in H as [_ [= _ <-]]; by left|].
  apply bind_inr in H as ([pkgs tot] & [fs2 d2] & Hl%map_err_inr & H).
  assert (d2 = d) as ->.
  { apply bind_inr in Hl as ([] & [fs3 d3] & Hc%check_uuids_run & (hrefs & [fs4 d4] & Hp%map_err_inr%call_inr & Ha)%bind_inr).
    injection Hp as _ <-. subst d3. unfold ask_tang in Ha. destruct Tang as [t|]; [|done].
    destruct hrefs; [by apply ret_inr in Ha as [_ [= _ <-]]|]. unfold lift_result in Ha.
    destruct (package_list _ _ _ _ _ _); [done|]. by apply ret_inr in Ha as [_ [= _ <-]]. }
  destruct pkgs as [|p pkgs]; [apply ret_inr in H as [_ [= _ <-]]; by left|].
  cbn zeta in H. destruct (rpm_Version (highest_version rpm_LessThan (sr_Version p) (sr_Version <$> pkgs)) == ""); [apply ret_inr in H as [_ [= _ <-]]; by left|].
  apply bind_inr in H as ([] & [fs3 d3] & Hu%map_err_inr%call_inr & [_ [= _ <-]]%ret_inr). rewrite pg_String in Hu.
  injection Hu as <-. right. by eexists.
Qed.

Lemma latest_path_inj rc id : (uuid_String rc +:+ "/" +:+ id)%string = GetLatestRepoDistPath (uuid_String rc) → id = "latest".
Proof. unfold GetLatestRepoDistPath. intros H%(inj (String.app _)). by apply (inj (String.app _)) in H. Qed.

(** The row of the snapshot. *)
Definition snapshot_row (now : time) (dom : string) (rc : uuid) (v pub id href : string) (summary : option ContentSummary) : SnapRow :=
  let path := uuid_String rc +:+ "/" +:+ id in
  let '(current, added, removed) := ContentSummaryToContentCounts summary in
  mk_SnapRow rc now None v pub path (filepath_Join [dom; path]) href current added removed "" false.

Lemma latest_on_create dom repo pub fs (w : W) fs' w' :
  tasks_complete S →
  (if ShouldUpdateLatestDistributionOnCreate repo then _ ← pulp (CreateOrUpdateLatestDistribution guards dom repo pub); mret () else mret ())
    (fs, w) = (inr (), (fs', w')) →
  base_same w w' ∧ if repo.(p_Partner) then w'.(tw_pulp) = w.(tw_pulp)
    else ∃ g, served_at dom (GetLatestRepoDistPath (uuid_String repo.(p_UUID))) pub g w.(tw_pulp) w'.(tw_pulp) ∧
           guard_for (S := S) dom (needed_guard guards repo.(p_OrgID) repo.(p_FeatureName)) g.
Proof.
  intros Hdone H. unfold ShouldUpdateLatestDistributionOnCreate in H. destruct (p_Partner repo); cbn [negb] in H.
  - by apply ret_inr in H as [_ [= <- <-]].
  - apply bind_inr in H as ([h t] & [fs1 w1] & (s1 & Hcl & Hb & Hp & _)%pulp_base & [_ [= <- <-]]%ret_inr).
    split; [done|]. rewrite Hp. by eapply CreateOrUpdateDistribution_serves.
Qed.

Lemma record_run now u dom repo v pub id dh fs (w : W) fs' w' :
  uuid_String u ≠ "" →
  record_snapshot scan Tang rpm_Version rpm_LessThan now u dom repo v pub (uuid_String repo.(p_UUID) +:+ "/" +:+ id) dh (fs, w) = (inr (), (fs', w')) →
  dists w'.(tw_pulp) = dists w.(tw_pulp) ∧ w.(tw_db).(snapshots) !! u = None ∧
  (∃ summary os, w'.(tw_db) = set_configs (alter (set_last_snapshot (Some u)) repo.(p_UUID))
     (set_snapshots <[u := set_os os (snapshot_row now dom repo.(p_UUID) v pub id dh summary)]> w.(tw_db))) ∧
  GetSnapshotUUID w'.(tw_stored) = Some (uuid_String u) ∧ w'.(tw_tasks) = w.(tw_tasks) ∧ w'.(tw_domains) = w.(tw_domains).
Proof.
  intros Hu (summary & [fs1 w1] & (s1 & Hgv & (Hdb1 & Hdm1 & Htk1 & _) & Hp1 & _)%pulp_base & H)%bind_inr.
  apply quiet_call in Hgv; [|apply quiet_get_version]. rewrite <- Hp1 in Hgv.
  destruct (ContentSummaryToContentCounts summary) as [[cur add] rem] eqn:Hcs.
  apply bind_inr in H as (u' & [fs2 w2] & (d2 & (-> & Hfresh & _ & ->)%snapshot_Create_run & ->)%dao_run & H). cbn [s_RepositoryConfigurationUUID] in H.
  apply bind_inr in H as ([] & [fs3 w3] & ((Hdb3 & Hdm3 & Htk3 & _) & Hp3 & _ & Hst3)%wrap_inr%save_run & H). cbn in Hp3, Hst3, Hdb3, Hdm3, Htk3.
  rewrite Hdb1 in Hfresh, Hdb3.
  assert (w3.(tw_db) = set_configs (alter (set_last_snapshot (Some u)) repo.(p_UUID))
            (set_snapshots <[u := set_os "" (snapshot_row now dom repo.(p_UUID) v pub id dh summary)]> w.(tw_db))) as Hdb3'.
  { rewrite Hdb3. unfold snapshot_row. by rewrite Hcs. }
  assert (∃ d, w' = set_db d w3 ∧ (d = w3.(tw_db) ∨ ∃ os, d = set_snapshots (alter (λ s, if is_live s then set_os os s else s) u) w3.(tw_db)))
    as (d & -> & Hd).
  { destruct (p_OrgID repo == RedHatOrg).
    - apply bind_inr in H as (os & [fs4 w4] & (d4 & Ho & ->)%wrap_inr%dao_run & [_ [= <- <-]]%ret_inr).
      exists d4. split; [done|]. by eapply SetDetectedOSVersion_run.
    - apply ret_inr in H as [_ [= <- <-]]. exists w3.(tw_db). split; [by destruct w3|by left]. }
  cbn. rewrite Hp3, Hst3, get_set_uuid, Htk3, Htk1, Hdm3, Hdm1 by done. split_and!; try done.
  exists summary. destruct Hd as [->|[os ->]]; [by exists ""|]. exists os. rewrite Hdb3'. unfold set_configs, set_snapshots. cbn.
  f_equal. rewrite alter_insert_eq. unfold snapshot_row. by rewrite Hcs.
Qed.

(** What a run of the helper leaves. *)
Definition snapshot_taken (now : time) (ident u : uuid) (dom : string) (repo : RepoResponse) (v : string) (w w' : W) : Prop :=
  let id := default (uuid_String ident) (GetSnapshotIdent w.(tw_mem)) in
  let path := uuid_String repo.(p_UUID) +:+ "/" +:+ id in
  let latest := GetLatestRepoDistPath (uuid_String repo.(p_UUID)) in
  let served p := ∃ pub g, version_of pub = v ∧ serves dom p pub g w'.(tw_pulp) ∧
                    guard_for (S := S) dom (needed_guard guards repo.(p_OrgID) repo.(p_FeatureName)) g in
  (∃ pub href summary os, version_of pub = v ∧ (id ≠ "latest" → ∃ g, serves dom path pub g w'.(tw_pulp)) ∧
     w.(tw_db).(snapshots) !! u = None ∧
     w'.(tw_db) = set_configs (alter (set_last_snapshot (Some u)) repo.(p_UUID))
                    (set_snapshots <[u := set_os os (snapshot_row now dom repo.(p_UUID) v pub id href summary)]> w.(tw_db))) ∧
  (id ≠ "latest" → served path) ∧ (repo.(p_Partner) = false → served latest) ∧
  (∀ k, k ≠ (dom, path) → (k = (dom, latest) → repo.(p_Partner) = true) → dists w'.(tw_pulp) !! k = dists w.(tw_pulp) !! k) ∧
  GetSnapshotUUID w'.(tw_stored) = Some (uuid_String u) ∧ w'.(tw_tasks) = w.(tw_tasks) ∧ w'.(tw_domains) = w.(tw_domains).

Lemma helper_run now ident u dom repo v fs (w : W) fs' w' :
  tasks_complete S → resumes v w.(tw_mem) → uuid_String ident ≠ "" → uuid_String u ≠ "" →
  SnapshotHelper_Run guards scan Tang rpm_Version rpm_LessThan now ident u dom repo v (fs, w) = (inr (), (fs', w')) →
  snapshot_taken now ident u dom repo v w w'.
Proof.
  intros Hdone Hres Hi Hu H. cbv beta delta [snapshot_taken]. intros id path latest served. subst served.
  apply bind_inr in H as (pub & [fs1 w1] & (Hb1 & Hd1 & Hv & Hid1)%publication_run & H); [|done].
  apply bind_inr in H as (id' & [fs2 w2] & (Hb2 & Hp2 & ->)%ensure_ident_run & H); [|done]. rewrite Hid1 in H. fold id path in H.
  apply bind_inr in H as ([dh dt] & [fs3 w3] & (s3 & Hcd & Hb3 & Hp3 & _)%pulp_base & H).
  apply CreateOrUpdateDistribution_serves in Hcd as (g & Hs3 & Hg); [|done]. rewrite <- Hp3, Hp2 in Hs3.
  apply bind_inr in H as ([] & [fs4 w4] & (Hb4 & Hp4 & _)%wrap_inr%save_run & H). rewrite <- Hp4 in Hs3.
  apply bind_inr in H as ([] & [fs5 w5] & Hlat & H).
  apply latest_on_create in Hlat as [Hb5 Hs5]; [|done].
  assert (base_same w w5) as (Hdb5 & Hdm5 & Htk5 & _) by (do 4 (eapply base_trans; [done|]); done).
  apply record_run in H as (Hd' & Hfresh & (summary & os & Hdb) & Hst & Htk & Hdm); [|done].
  assert (∀ k, k ≠ (dom, latest) ∨ repo.(p_Partner) = true → dists w'.(tw_pulp) !! k = dists w4.(tw_pulp) !! k) as Hk.
  { intros k Hk. rewrite Hd'. destruct (p_Partner repo); [by rewrite Hs5|].
    destruct Hs5 as (g' & [_ Ho] & _). apply Ho. by destruct Hk. }
  destruct Hs3 as [(i & Hli & Hpi & Hgi) Ho3].
  assert (id ≠ "latest" → serves dom path pub g w'.(tw_pulp)) as Hserve.
  { intros Hne. exists i. split; [|done]. rewrite Hk; [done|]. left. intros [= E]. by apply latest_path_inj, Hne in E. }
  rewrite Hdb5 in *. split_and!.
  - exists pub, dh, summary, os. split_and!; try done. intros Hne. exists g. by apply Hserve.
  - intros Hne. exists pub, g. split_and!; [done|by apply Hserve|done].
  - intros Hpart. rewrite Hpart in Hs5. destruct Hs5 as (g' & [(j & Hj & Hj') _] & Hg'). exists pub, g'. split_and!; [done| |done].
    exists j. by rewrite Hd'.
  - intros k Hk1 Hk2. rewrite Hk; [by rewrite Ho3, <- Hd1|]. destruct (decide (k = (dom, latest))); auto.
  - done.
  - by rewrite Htk.
  - by rewrite Hdm.
Qed.

(** [C24] A snapshot is complete. Suppose that Pulp cancels and skips no task that is waited for, and that a publication task
    that an earlier attempt has left in the payload is one for the same version. When [SnapshotHelper.Run] succeeds for a
    version of a repository, after any failures it survived, the table has one new row, whose publication publishes this
    version and whose detected OS version alone may have been filled in; it is the last snapshot of its configuration; the
    distribution at the path of the row serves a publication of the version, and so does [/latest] unless the repository is a
    partner's; both have no guard if the content is open to all, otherwise the guard Pulp gives in this domain for the
    organization of the repository (for Red Hat's and the community's: for the features of the repository); no other
    distribution and no other row has changed; and the UUID of the snapshot is saved with the task. *)
Theorem snapshot_complete now ident u dom repo v fs (w : W) fs' w' :
  tasks_complete S → resumes v w.(tw_mem) → uuid_String ident ≠ "" → uuid_String u ≠ "" →
  SnapshotHelper_Run guards scan Tang rpm_Version rpm_LessThan now ident u dom repo v (fs, w) = (inr (), (fs', w')) →
  let id := default (uuid_String ident) (GetSnapshotIdent w.(tw_mem)) in
  let path := uuid_String repo.(p_UUID) +:+ "/" +:+ id in
  let latest := GetLatestRepoDistPath (uuid_String repo.(p_UUID)) in
  let served p := ∃ pub g, version_of pub = v ∧ serves dom p pub g w'.(tw_pulp) ∧
                    guard_for (S := S) dom (needed_guard guards repo.(p_OrgID) repo.(p_FeatureName)) g in
  (∃ pub href summary os, version_of pub = v ∧ (id ≠ "latest" → ∃ g, serves dom path pub g w'.(tw_pulp)) ∧
     w.(tw_db).(snapshots) !! u = None ∧
     w'.(tw_db) = set_configs (alter (set_last_snapshot (Some u)) repo.(p_UUID))
                    (set_snapshots <[u := set_os os (snapshot_row now dom repo.(p_UUID) v pub id href summary)]> w.(tw_db))) ∧
  (id ≠ "latest" → served path) ∧ (repo.(p_Partner) = false → served latest) ∧
  (∀ k, k ≠ (dom, path) → (k = (dom, latest) → repo.(p_Partner) = true) → dists w'.(tw_pulp) !! k = dists w.(tw_pulp) !! k) ∧
  GetSnapshotUUID w'.(tw_stored) = Some (uuid_String u) ∧ w'.(tw_tasks) = w.(tw_tasks) ∧ w'.(tw_domains) = w.(tw_domains).
Proof. apply helper_run. Qed.
End Helper.

(** ** Runs *)

Module SnapEx.
#[local] Existing Instances Ex.uuid_text Ex.uuid_laws.
Definition version : string := "/pulp/cs/api/v3/repositories/rpm/rpm/r/versions/1/".
(** The response for the first configuration of the small database. *)
Definition repo : RepoResponse :=
  mk_RepoResponse 1 "name" "label" "https://a/" OriginExternal "rpm" [] "" "" "org" None None None "" "Valid" 0 0 0 0 0 "Valid" "" false
    false 11 true None None None None "" "" "" "" false "" "" "".
Definition fresh : SnapshotPayload := mk_SnapshotPayload None None None None None.
Definition w : tworld mem () SnapshotPayload := mk_tw Ex.d {["org" := "cs"]} [] mem_empty () fresh fresh.
Definition run (u : uuid) (fs : list (option goerr)) (w : tworld mem () SnapshotPayload) :=
  SnapshotHelper_Run true map_to_list None id (λ _ _, false) 0 33 u "cs" repo version (fs, w).
(** The next attempt, in which the payload is the one that was saved. *)
Definition again (w : tworld mem () SnapshotPayload) : tworld mem () SnapshotPayload := set_mem w.(tw_stored) w.
(** The call with this number fails. *)
Definition failing (n : nat) : list (option goerr) := (repeat None n ++ [Some (ErrPlain "connection reset")])%list.
End SnapEx.
#[local] Existing Instances Ex.uuid_text Ex.uuid_laws.

Lemma snapshot_complete_witness :
  ∃ w', SnapEx.run 77 [] SnapEx.w = (inr (), ([], w')) ∧ is_Some (w'.(tw_db).(snapshots) !! 77%N) ∧
    (c_LastSnapshotUUID <$> w'.(tw_db).(configs) !! 1%N) = Some (Some 77%N) ∧
    ∃ pub g, version_of pub = SnapEx.version ∧ serves "cs" (GetLatestRepoDistPath (Ex.text 1)) pub g w'.(tw_pulp).
Proof.
  destruct (SnapEx.run 77 [] SnapEx.w) as [r [fs' w']] eqn:E.
  assert (r = inr () ∧ fs' = []) as [-> ->] by (revert E; vm_compute; intros E; by simplify_eq).
  destruct (snapshot_complete true map_to_list None id (λ _ _, false) 0 33 77 "cs" SnapEx.repo SnapEx.version [] SnapEx.w [] w')
    as ((pub & href & sm & os & _ & _ & _ & Hdb) & _ & Hlat & _); [apply mem_complete|by intros t ?|done..|exact E|].
  exists w'. split; [done|]. rewrite Hdb. split_and!; [by eexists|by vm_compute|].
  destruct Hlat as (pub' & g & Hv & Hs & _); [done|]. by exists pub', g.
Defined.

(** When the attempt fails after the row was stored, the next one finds its distribution path taken, and so will all others. *)
Example retry_after_row_fails :
  let '(r1, (_, w1)) := SnapEx.run 77 (SnapEx.failing 17) SnapEx.w in
  let '(r2, (_, w2)) := SnapEx.run 78 [] (SnapEx.again w1) in
  r1 = inl (ErrWrapped "unable to save snapshot uuid" (ErrPlain "connection reset")) ∧
  r2 = inl (ErrPlain "duplicate key value violates unique constraint") ∧
  (SnapEx.run 79 [] (SnapEx.again w2)).1 = r2.
Proof. by vm_compute. Qed.

(** When it fails between the distribution and the row, the next attempt stores a row without the href of the distribution. *)
Example retry_loses_distribution_href :
  let '(r1, (_, w1)) := SnapEx.run 77 (SnapEx.failing 14) SnapEx.w in
  let '(r2, (_, w2)) := SnapEx.run 78 [] (SnapEx.again w1) in
  r1 = inl (ErrPlain "connection reset") ∧ r2 = inr () ∧
  (s_DistributionHref <$> w2.(tw_db).(snapshots) !! 78%N) = Some "" ∧
  is_Some (w2.(tw_pulp).(mem_dists) !! ("cs", Ex.text 1 +:+ "/" +:+ Ex.text 33)).
Proof. vm_compute. split_and!; try done. by eexists. Qed.

(** The clean-up of a canceled task sends its requests with the canceled context: once the distribution was made it does
    nothing at all. *)
Lemma cleanup_with_canceled_context {S C P} `{PulpClient S} `{Resumable P} `{UuidText} guards dom repo t fs (w : tworld S C P) :
  GetDistributionTaskHref w.(tw_mem) = Some t →
  ∃ w', SnapshotHelper_Cleanup guards dom repo (Some Canceled :: fs, w) = (inl Canceled, (fs, w')) ∧ w' = w.
Proof.
  intros Ht. exists (set_pulp w.(tw_pulp) w). split; [|by destruct w].
  unfold SnapshotHelper_Cleanup. erewrite bind_eq; [|done]. rewrite Ht. by repeat erewrite bind_err.
Qed.
