(* ===== verification/DeleteTask.v ===== *)
(** * tasks/delete_snapshots.go: the deletion of snapshots

    The task removes what the handlers have marked as deleted. For every snapshot: the templates that use it get the
    snapshot their date now selects, the configuration another last snapshot, the distributions of those templates and
    [/latest] another publication; then its distribution, its version in Pulp and its row go. The errors of the snapshots are
    collected; a snapshot or a configuration that is not found is skipped. *)

From S2P Require Import Prelude GoStrings GoSplit Config TxMonad Utils Models Errors DaoHelpers GoText SnapshotDao SnapshotThms TemplateDao SnapshotHandler SnapshotHandlerThms RepoConfigDao Pulp Distribution TaskEnv PublishTask.
From stdpp Require Import options.

Open Scope string_scope.

(** The texts of Pulp's refusal. *)
Definition isRepositoryVersionBlockedByDistribution (err : goerr) : bool :=
  let msg := Error err in
  strings_Contains msg "currently being used to distribute content" || strings_Contains msg "update the necessary distributions first".

(** The loop over the items of a task: a failure is kept, and the next item is tried. *)
Fixpoint collect {W A} (f : A → M W goerr ()) (l : list A) : M W goerr (list goerr) :=
  match l with
  | [] => mret []
  | a :: l' => r ← try (f a); errs ← collect f l'; mret (match r with inl e => e :: errs | inr _ => errs end)
  end.

(** [errors.As(err, &daoErr) && daoErr.NotFound] ends an item without an error. *)
Definition unless_not_found {W A} (m : M W goerr A) (msg : string) (k : A → M W goerr ()) : M W goerr () :=
  r ← try m;
  match r with
  | inl e => if is_dao_not_found e then mret () else throw (ErrWrapped msg e)
  | inr a => k a
  end.

Section Task.
Context {S C P : Type} `{HC : PulpClient S} `{HU : UuidText}.
Context (RepoContentGuards : bool) (scan : gmap uuid SnapRow → list (uuid * SnapRow)).
Context (scan_templates : gmap uuid TemplateRow → list (uuid * TemplateRow)).
Context (scan_trcs : gmap (uuid * uuid) TrcRow → list (uuid * uuid * TrcRow)).
Context (sql_like : string → string → bool) (sql_order : string → list (uuid * TemplateRow) → list (uuid * TemplateRow)).
Context (snapshots_enabled : bool) (content_path : goerr + string) (SnapshotRetainDaysLimit : Z).
Context (tasks : gmap uuid TaskView) (url_Path : string → goerr + string).
(** The order in which a map is ranged over; whether Pulp is configured. *)
Context (range : gmap string (uuid * SnapRow) → list (string * (uuid * SnapRow))) (PulpConfigured : bool).
Abbreviation TM := (M (tworld S C P) goerr).

(** ** Templates and the configuration *)

Definition templates_using (now : time) (orgID : string) (snapUUID : string) : TM (list TemplateResponse) :=
  if (orgID == RedHatOrg) || (orgID == CommunityOrg)
  then dao (InternalOnlyGetTemplatesForSnapshots scan_templates scan_trcs snapshots_enabled content_path SnapshotRetainDaysLimit now [snapUUID])
  else '(ts, _) ← dao (Template_List scan_templates scan_trcs sql_like sql_order snapshots_enabled content_path SnapshotRetainDaysLimit
                         now orgID false (-1) 0 "" (mk_TemplateFilterData "" "" "" "" "" false "" [] [snapUUID] false));
       mret ts.

(** [clock]: the time at which a template is looked at. *)
Definition replace_snapshot (clock : string → time) (orgID repo : string) (templateUpdateMap : gmap string (uuid * SnapRow))
    (template : TemplateResponse) : TM (gmap string (uuid * SnapRow)) :=
  let date := if template.(tr_row).(t_UseLatest) then clock template.(tr_UUID) else template.(tr_row).(t_Date) in
  snaps ← dao (FetchSnapshotsModelByDateAndRepository scan orgID [repo] date);
  match snaps with
  | [snap] =>
      match pg_uuid template.(tr_UUID) with
      | None => throw (invalid_uuid template.(tr_UUID))
      | Some tu => _ ← dao (UpdateSnapshots tu [repo] snaps); mret (<[template.(tr_UUID) := snap]> templateUpdateMap)
      end
  | _ => throw (ErrPlain "no other snapshot was found")
  end.

Fixpoint replace_snapshots (clock : string → time) (orgID repo : string) (templateUpdateMap : gmap string (uuid * SnapRow))
    (templates : list TemplateResponse) : TM (gmap string (uuid * SnapRow)) :=
  match templates with
  | [] => mret templateUpdateMap
  | t :: ts => m ← replace_snapshot clock orgID repo templateUpdateMap t; replace_snapshots clock orgID repo m ts
  end.

Definition updateTemplatesUsingSnap (now : time) (clock : string → time) (orgID : string) (us : uuid * SnapRow) :
    TM (gmap string (uuid * SnapRow)) :=
  templates ← templates_using now orgID (uuid_String us.1);
  replace_snapshots clock orgID (uuid_String us.2.(s_RepositoryConfigurationUUID)) ∅ templates.

Definition updateRepoConfig (orgID repoUUID snapUUID : string) : TM () :=
  '(v, _) ← dao (FetchLatestSnapshotModel repoUUID);
  if uuid_String v == snapUUID then throw (ErrPlain "no other snapshot was found")
  else
    _ ← dao (UpdateLastSnapshot orgID repoUUID (uuid_String v));
    dao (UpdateLastSnapshotTask tasks "" orgID repoUUID).

(** ** Pulp *)

Definition update_template_distribution (dom : string) (repo : RepoResponse) (templateUUID : string) (snap : uuid * SnapRow) : TM () :=
  '(distPath, distName) ← wrap ("failed to get distribution path/name for template " +:+ templateUUID) (lift (getDistPathAndName url_Path repo templateUUID));
  storedDistHref ← try (dao (GetDistributionHref templateUUID (uuid_String repo.(p_UUID))));
  match storedDistHref with
  | inr (Some _) =>
      _ ← wrap ("failed to find distribution by path " +:+ distPath +:+ " for template " +:+ templateUUID)
            (pulp (db_call (FindDistributionByPath dom distPath)));
      _ ← wrap ("failed to update distribution for template " +:+ templateUUID)
            (pulp (CreateOrUpdateDistribution RepoContentGuards dom repo snap.2.(s_PublicationHref) distName distPath));
      mret ()
  | _ => mret ()
  end.

Definition update_latest (dom : string) (repo : RepoResponse) : TM () :=
  let repoUUID := uuid_String repo.(p_UUID) in
  let latestPathIdent := GetLatestRepoDistPath repoUUID in
  latestDistro ← wrap ("failed to find latest distribution by path " +:+ latestPathIdent) (pulp (db_call (FindDistributionByPath dom latestPathIdent)));
  match latestDistro with
  | None => mret ()
  | Some latestDistro =>
      latestSnap ← try (dao (FetchLatestSnapshotForDistribution repoUUID));
      match latestSnap with
      | inl e =>
          if is_record_not_found e
          then href ← deref (d_PulpHref latestDistro);
               delete_and_poll dom href ("failed to delete latest distribution for repo " +:+ repoUUID)
                 ("failed to poll latest distribution deletion for repo " +:+ repoUUID)
          else throw (ErrWrapped ("failed to fetch latest snapshot for repo " +:+ repoUUID) e)
      | inr us =>
          _ ← wrap ("failed to update latest distribution for repo " +:+ repoUUID)
                (pulp (CreateOrUpdateLatestDistribution RepoContentGuards dom repo us.2.(s_PublicationHref)));
          mret ()
      end
  end.

Definition deleteDistributionAtPath (dom distPath : string) : TM () :=
  if distPath == "" then mret ()
  else
    dist ← wrap ("failed to find distribution at base path " +:+ distPath) (pulp (db_call (FindDistributionByPath dom distPath)));
    match dist ≫= d_PulpHref with
    | None => mret ()
    | Some href => delete_and_poll dom href ("failed to delete distribution " +:+ href +:+ " at path " +:+ distPath)
                     ("error polling distribution deletion task for " +:+ href)
    end.

Definition deleteSnapshotDistribution (dom : string) (snap : SnapRow) : TM () :=
  let href := snap.(s_DistributionHref) in
  if href != ""
  then delete_and_poll dom href ("failed to delete snapshot distribution " +:+ href) ("error polling snapshot distribution deletion task for " +:+ href)
  else wrap ("failed to delete snapshot distribution by path " +:+ snap.(s_DistributionPath)) (deleteDistributionAtPath dom snap.(s_DistributionPath)).

Definition deleteDistributionIfBlockingPublication (dom distPath publicationHref : string) : TM bool :=
  dist ← wrap ("failed to find distribution at base path " +:+ distPath) (pulp (db_call (FindDistributionByPath dom distPath)));
  match dist with
  | Some d =>
      if bool_decide (is_Some (d_PulpHref d)) && (negb (d_PublicationIsSet d) || bool_decide (d_Publication d = Some publicationHref))
      then _ ← deleteDistributionAtPath dom distPath; mret true
      else mret false
  | None => mret false
  end.

Fixpoint template_paths (repo : RepoResponse) (templates : list TemplateResponse) : TM (list string) :=
  match templates with
  | [] => mret []
  | t :: ts =>
      '(distPath, _) ← wrap ("failed to get distribution path for template " +:+ t.(tr_UUID)) (lift (getDistPathAndName url_Path repo t.(tr_UUID)));
      rest ← template_paths repo ts;
      mret (distPath :: rest)
  end.

Definition deleteDistributionsBlockingPublication (now : time) (dom : string) (snap : SnapRow) (repo : RepoResponse) (publicationHref : string) : TM () :=
  let rc := uuid_String snap.(s_RepositoryConfigurationUUID) in
  templates ← wrap ("failed to list templates for repo " +:+ rc)
    (dao (InternalOnlyGetTemplatesForRepoConfig scan_templates scan_trcs snapshots_enabled content_path SnapshotRetainDaysLimit now rc false));
  paths ← template_paths repo templates;
  iter (λ distPath, _ ← deleteDistributionIfBlockingPublication dom distPath publicationHref; mret ()) (snap.(s_DistributionPath) :: paths).

(** [fmt.Errorf("%w (also failed ...: %v)", err, cleanupErr)]: only the text of this error is looked at. *)
Definition also_failed (msg : string) (err cleanupErr : goerr) : goerr :=
  ErrPlain (msg +:+ Error err +:+ " (also failed to clean up blocking distributions: " +:+ Error cleanupErr +:+ ")").

(** An error of [m] that is not about blocking distributions is passed on by [fail]; for the others the distributions are
    removed and [again] is run. *)
Definition unblocking (now : time) (dom : string) (snap : SnapRow) (repo : RepoResponse) (m : TM ()) (msg : string)
    (fail : goerr → goerr) (again : TM ()) : TM () :=
  r ← try m;
  match r with
  | inr _ => mret ()
  | inl e =>
      if negb (isRepositoryVersionBlockedByDistribution e) then throw (fail e)
      else
        c ← try (deleteDistributionsBlockingPublication now dom snap repo snap.(s_PublicationHref));
        match c with
        | inl ce => throw (also_failed msg e ce)
        | inr _ => again
        end
  end.

Definition attemptDeleteRepositoryVersion (now : time) (dom : string) (snap : SnapRow) (repo : RepoResponse) : TM () :=
  deleteVersionHref ← wrap "failed to delete repository version" (pulp (db_call (DeleteRpmRepositoryVersion dom snap.(s_VersionHref))));
  match deleteVersionHref with
  | Some t =>
      unblocking now dom snap repo (_ ← pulp (db_call (PollTask dom t)); mret ()) "error polling repository version deletion task: "
        (ErrWrapped "error polling repository version deletion task")
        (deleteVersionHref ← wrap "failed to delete repository version after cleanup" (pulp (db_call (DeleteRpmRepositoryVersion dom snap.(s_VersionHref))));
         match deleteVersionHref with
         | Some t => _ ← wrap "error polling repository version deletion task after cleanup" (pulp (db_call (PollTask dom t))); mret ()
         | None => mret ()
         end)
  | None =>
      verify ← try (pulp (db_call (GetRpmRepositoryVersion dom snap.(s_VersionHref))));
      match verify with
      | inr _ => throw (ErrPlain "repository version still exists after delete returned no task")
      | inl _ => mret ()
      end
  end.

Definition deleteRepositoryVersion (now : time) (dom : string) (snap : SnapRow) (repo : RepoResponse) : TM () :=
  unblocking now dom snap repo (attemptDeleteRepositoryVersion now dom snap repo) "" id
    (wrap "failed to delete repository version after cleanup" (attemptDeleteRepositoryVersion now dom snap repo)).

Definition deleteOrUpdatePulpContent (now : time) (dom : string) (snap : SnapRow) (repo : RepoResponse)
    (templateUpdateMap : gmap string (uuid * SnapRow)) : TM () :=
  _ ← iter (λ '(t, s), update_template_distribution dom repo t s) (range templateUpdateMap);
  _ ← update_latest dom repo;
  _ ← deleteSnapshotDistribution dom snap;
  deleteRepositoryVersion now dom snap repo.

(** ** The task *)

Definition configurePulpClient (orgID repoUUID domainName rhDomainName communityDomainName : string) : TM string :=
  repo ← dao (RepoConfig_Fetch tasks snapshots_enabled content_path orgID repoUUID);
  mret (if (repo.(p_OrgID) == RedHatOrg) && (rhDomainName != "") then rhDomainName
        else if (repo.(p_OrgID) == CommunityOrg) && (communityDomainName != "") then communityDomainName
        else domainName).

(** One round of the loop, for a snapshot and a configuration that were found. *)
Definition delete_found (now : time) (clock : string → time) (dom orgID snapUUID : string) (us : uuid * SnapRow) (repo : RepoResponse) : TM () :=
  templateUpdateMap ← wrap ("couldn't update templates for snapshot " +:+ snapUUID) (updateTemplatesUsingSnap now clock orgID us);
  _ ← wrap ("failed to delete template snapshot associations for snapshot " +:+ snapUUID) (dao (DeleteTemplateSnapshot (uuid_String us.1)));
  _ ← (if default "" (uuid_String <$> repo.(p_LastSnapshotUUID)) == snapUUID
       then wrap ("failed to update repo config for snapshot " +:+ snapUUID) (updateRepoConfig orgID (uuid_String repo.(p_UUID)) snapUUID)
       else mret ());
  _ ← wrap ("failed to delete pulp content for snapshot " +:+ snapUUID) (deleteOrUpdatePulpContent now dom us.2 repo templateUpdateMap);
  unless_not_found (dao (Delete snapUUID)) ("failed to delete snapshot " +:+ snapUUID) mret.

Definition delete_one (now : time) (clock : string → time) (dom orgID snapUUID : string) : TM () :=
  unless_not_found (dao (FetchModel snapUUID true)) ("failed to fetch snapshot " +:+ snapUUID) (λ us,
    let rc := uuid_String us.2.(s_RepositoryConfigurationUUID) in
    unless_not_found (dao (RepoConfig_Fetch tasks snapshots_enabled content_path orgID rc))
      ("couldn't fetch repo config " +:+ rc +:+ " for snapshot " +:+ snapUUID)
      (delete_found now clock dom orgID snapUUID us)).

Definition DeleteSnapshots_Run (now : string → time) (clock : string → string → time)
    (orgID repoUUID domainName rhDomainName communityDomainName : string) (snapshotsUUIDs : list string) : TM () :=
  if negb PulpConfigured then throw (ErrPlain "no pulp client configured, can't proceed with snapshot deletion")
  else
    dom ← wrap "failed to configure pulp client" (configurePulpClient orgID repoUUID domainName rhDomainName communityDomainName);
    errs ← collect (λ u, delete_one (now u) (clock u) dom orgID u) snapshotsUUIDs;
    errors_Join errs.

Definition DeleteSnapshotsHandler (now : string → time) (clock : string → string → time) (orgId repoUUID : string) (snapshotsUUIDs : list string) : TM () :=
  domainName ← domain_dao (Domain_Fetch orgId);
  rhDomainName ← domain_dao (Domain_Fetch RedHatOrg);
  communityDomainName ← domain_dao (Domain_Fetch CommunityOrg);
  DeleteSnapshots_Run now clock orgId repoUUID domainName rhDomainName communityDomainName snapshotsUUIDs.
End Task.
