(* ===== verification/DeleteTaskThms.v ===== *)
(** * What the deletion of snapshots achieves

    The run of a task is followed by relations on the world that every step of it keeps: [preserves R] for the steps whose
    outcome may be an error that is handled later, and lemmas on successful runs for the others. *)

From S2P Require Import Prelude GoStrings GoSplit Config TxMonad Utils Models Errors DaoHelpers GoText SnapshotDao SnapshotThms TemplateDao TemplateThms SnapshotHandler SnapshotHandlerThms TemplateInv TemplateLists RepoConfigDao Pulp Distribution TaskEnv PublishTask DeleteTask.
From stdpp Require Import options.

Open Scope string_scope.

(** ** Relations kept by every outcome *)

Ltac intro_binder := lazymatch goal with |- ∀ _, _ => intros ? end.
Create HintDb preserves.
Definition preserves {W E A} (R : relation W) (m : M W E A) : Prop :=
  ∀ fs w r fs' w', m (fs, w) = (r, (fs', w')) → R w w'.

Section Preserves.
Context {W : Type} (R : relation W) `{HR : !PreOrder R}.
#[local] Set Default Proof Using "Type*".

Lemma preserves_ret {A} (a : A) : preserves R (mret a : M W goerr A).
Proof. by intros fs w r fs' w' [= <- <- <-]. Qed.
Lemma preserves_throw {A} (e : goerr) : preserves R (throw e : M W goerr A).
Proof. by intros fs w r fs' w' [= <- <- <-]. Qed.
Lemma preserves_lift {A} (x : goerr + A) : preserves R (lift x : M W goerr A).
Proof. destruct x; [apply preserves_throw|apply preserves_ret]. Qed.
Lemma preserves_deref {A} (x : option A) : preserves R (deref x : M W goerr A).
Proof. destruct x; [apply preserves_ret|apply preserves_throw]. Qed.
Lemma preserves_bind {A B} (m : M W goerr A) (k : A → M W goerr B) : preserves R m → (∀ a, preserves R (k a)) → preserves R (m ≫= k).
Proof.
  intros Hm Hk fs w r fs' w' H. unfold mbind, M_bind in H. destruct (m (fs, w)) as [[e|a] [fs1 w1]] eqn:E; [simplify_eq; by eapply Hm|].
  etrans; [by eapply Hm|by eapply Hk].
Qed.
Lemma preserves_map_err {A} g (m : M W goerr A) : preserves R m → preserves R (map_err g m).
Proof. intros Hm fs w r fs' w' H. unfold map_err in H. destruct (m (fs, w)) as [[e|a] [fs1 w1]] eqn:E; simplify_eq; by eapply Hm. Qed.
Lemma preserves_wrap {A} msg (m : M W goerr A) : preserves R m → preserves R (wrap msg m).
Proof. apply preserves_map_err. Qed.
Lemma preserves_try {A} (m : M W goerr A) : preserves R m → preserves R (try m).
Proof.
  intros Hm fs w r fs' w' H. unfold try in H. destruct (m (fs, w)) as [[e|a] [fs1 w1]] eqn:E; [destruct (is_panic e)|]; simplify_eq; by eapply Hm.
Qed.
Lemma preserves_iter {A} (f : A → M W goerr ()) l : (∀ a, preserves R (f a)) → preserves R (iter f l).
Proof. intros Hf. induction l as [|a l IH]; [apply preserves_ret|]. cbn [iter]. apply preserves_bind; auto. Qed.
End Preserves.
#[export] Hint Resolve preserves_ret preserves_throw preserves_lift preserves_deref : preserves.
(** Composed steps, down to those in the database. *)
Ltac preserves_tac :=
  repeat (first [intro_binder | solve [eauto with preserves typeclass_instances] | simple apply preserves_bind | simple apply preserves_wrap
                | simple apply preserves_map_err | simple apply preserves_try | simple apply preserves_iter | case_match]).

(** ** Faults that do not look like a missing row *)

Definition plain_error (e : goerr) : Prop := is_record_not_found e = false ∧ is_dao_not_found e = false.
Definition plain (fs : list (option goerr)) : Prop := ∀ e, Some e ∈ fs → plain_error e.

Lemma plain_honest fs : plain fs → honest fs.
Proof. intros H e He. by apply H. Qed.

Lemma plain_run {D A} (m : M D goerr A) fs d r fs' d' : consumes m → m (fs, d) = (r, (fs', d')) → plain fs → plain fs'.
Proof.
  intros Hm H Hf e He. destruct (Hm fs d) as [n Hn]. rewrite H in Hn. simpl in Hn. subst fs'.
  apply Hf. rewrite <- (take_drop n fs). set_solver.
Qed.

Lemma plain_snapshot_error e o : plain_error e → is_dao_not_found (SnapshotsDBToApiError e o) = false.
Proof.
  intros [H1 H2]. unfold SnapshotsDBToApiError. rewrite H1. change ((HttpCodeForDaoError (Some e) =? 404)%Z = false).
  apply Z.eqb_neq. revert H2. unfold is_dao_not_found, HttpCodeForDaoError. change (Some e ≫= as_dao) with (as_dao e).
  destruct (as_dao e) as [[| |? ? nf bv ae fb]|]; try done. intros ->. by destruct bv, ae, fb.
Qed.

Lemma consumes_deref {D A} (o : option A) : consumes (deref o : M D goerr A).
Proof. destruct o; [apply consumes_ret|apply consumes_throw]. Qed.
Lemma consumes_iter {D A} (f : A → M D goerr ()) l : (∀ a, consumes (f a)) → consumes (iter f l).
Proof. intros Hf. induction l as [|a l IH]; cbn [iter]; auto with consumes. Qed.
#[export] Hint Resolve consumes_deref consumes_iter : consumes.
Ltac consumes_tac :=
  repeat (first [intro_binder | solve [eauto with consumes] | simple apply consumes_bind | simple apply consumes_dao | simple apply consumes_pulp
                | simple apply consumes_wrap | simple apply consumes_map_err | simple apply consumes_try | case_match]).

(** ** The steps on Pulp *)

Section Pulp.
Context {S C P : Type} `{HC : PulpClient S} `{HL : !PulpLaws S}.
#[local] Set Default Proof Using "Type*".
Abbreviation W := (tworld S C P).

(** The database is as before, and distributions have only been removed. *)
Definition shrinks (w w' : W) : Prop := w'.(tw_db) = w.(tw_db) ∧ dists w'.(tw_pulp) ⊆ dists w.(tw_pulp).
#[global] Instance shrinks_preorder : PreOrder shrinks.
Proof. split; [by split|]. intros w1 w2 w3 [H1 H2] [H3 H4]. split; [congruence|by etrans]. Qed.
Definition same_db (w w' : W) : Prop := w'.(tw_db) = w.(tw_db).
#[global] Instance same_db_preorder : PreOrder same_db.
Proof. split; [done|]. intros w1 w2 w3 H1 H2. by etrans. Qed.

Lemma preserves_pulp {A} (m : M S goerr A) : preserves same_db (pulp m : M W goerr A).
Proof. by intros fs w r fs' w' (s & _ & ->)%pulp_run. Qed.

Lemma shrinks_dao {A} (m : DB A) : keeps m → preserves shrinks (dao m : M W goerr A).
Proof. intros Hm fs w r fs' w' (d & H & ->)%dao_run. apply Hm in H as ->. by split. Qed.
Lemma same_db_dao {A} (m : DB A) : keeps m → preserves same_db (dao m : M W goerr A).
Proof. intros Hm fs w r fs' w' (d & H & ->)%dao_run. by apply Hm in H as ->. Qed.

Lemma shrinks_call {A} (f : S → (goerr + A) * S) : (∀ s, dists (f s).2 ⊆ dists s) → preserves shrinks (pulp (db_call f) : M W goerr A).
Proof.
  intros Hf fs w r fs' w' (s & H & ->)%pulp_run. split; [done|]. cbn. specialize (Hf w.(tw_pulp)). unfold db_call in H.
  destruct fs as [|[e|] fs], (f (tw_pulp w)) as [x s1]; simplify_eq/=; done.
Qed.
Lemma shrinks_quiet {A} (f : S → (goerr + A) * S) : quiet A f → preserves shrinks (pulp (db_call f) : M W goerr A).
Proof. intros Hf. apply shrinks_call. intros s. by rewrite (quiet_dists A f s Hf). Qed.
Lemma shrinks_poll dom t : is_dist_task (task_kind t) = false → preserves shrinks (pulp (db_call (PollTask dom t)) : M W goerr TaskResponse).
Proof. intros Ht. apply shrinks_call. intros s. by rewrite poll_dists. Qed.

(** A request that answers with a task, and what follows. *)
Lemma shrinks_request {A B} (f : S → (goerr + A) * S) msg (k : A → M W goerr B) :
  (∀ s, dists (f s).2 ⊆ dists s) → (∀ s a s', f s = (inr a, s') → preserves shrinks (k a)) →
  preserves shrinks (wrap msg (pulp (db_call f)) ≫= k).
Proof.
  intros Hf Hk fs w r fs' w' H. unfold mbind, M_bind in H. destruct (wrap msg _ (fs, w)) as [[e|a] [fs1 w1]] eqn:E.
  - simplify_eq. by eapply (preserves_wrap _ msg), E; apply shrinks_call.
  - transitivity w1; [by eapply (preserves_wrap _ msg), E; apply shrinks_call|].
    apply wrap_inr, pulp_run in E as (s & E%call_inr & ->). by eapply Hk.
Qed.

Lemma shrinks_delete_and_poll dom href m1 m2 : preserves shrinks (delete_and_poll dom href m1 m2 : M W goerr ()).
Proof.
  apply shrinks_request; [intros; apply delete_shrinks|]. intros s [t|] s' H; preserves_tac.
  apply shrinks_call. intros s0. eapply deletion_poll, delete_task, H.
Qed.

(** *** The operations of the task *)

Context `{HU : UuidText}.
Context (scan_templates : gmap uuid TemplateRow → list (uuid * TemplateRow)).
Context (scan_trcs : gmap (uuid * uuid) TrcRow → list (uuid * uuid * TrcRow)).
Context (snapshots_enabled : bool) (content_path : goerr + string) (retain : Z) (url_Path : string → goerr + string) (guards : bool).

Lemma keeps_to_responses now ts : keeps (to_responses snapshots_enabled content_path retain now ts).
Proof. unfold to_responses, GetContentPath, fetchLatestSnapshotUUIDsForReposOfTemplates. keeps_tac. Qed.
Lemma keeps_repo_templates now rc b :
  keeps (InternalOnlyGetTemplatesForRepoConfig scan_templates scan_trcs snapshots_enabled content_path retain now rc b).
Proof. apply keeps_bind; [keeps_tac|intros; apply keeps_to_responses]. Qed.

Lemma shrinks_delete_at_path dom p : preserves shrinks (deleteDistributionAtPath dom p : M W goerr ()).
Proof.
  unfold deleteDistributionAtPath. preserves_tac; [apply shrinks_quiet, quiet_find|apply shrinks_delete_and_poll].
Qed.
Lemma shrinks_snapshot_distribution dom snap : preserves shrinks (deleteSnapshotDistribution dom snap : M W goerr ()).
Proof.
  unfold deleteSnapshotDistribution. preserves_tac; [apply shrinks_delete_and_poll|apply shrinks_delete_at_path].
Qed.

Lemma shrinks_blocking now dom snap repo pub :
  preserves shrinks (deleteDistributionsBlockingPublication scan_templates scan_trcs snapshots_enabled content_path retain url_Path
                       now dom snap repo pub : M W goerr ()).
Proof.
  unfold deleteDistributionsBlockingPublication.
  apply preserves_bind; [apply _|apply preserves_wrap; [apply _|]; apply shrinks_dao, keeps_repo_templates|].
  intros ts. apply preserves_bind; [apply _| |intros paths].
  - induction ts as [|t ts IH]; cbn [template_paths]; preserves_tac.
  - apply preserves_iter; [apply _|]. intros distPath. unfold deleteDistributionIfBlockingPublication.
    preserves_tac; [apply shrinks_quiet, quiet_find|apply shrinks_delete_at_path].
Qed.

Lemma shrinks_unblocking now dom snap repo m msg g again :
  preserves shrinks m → preserves shrinks again →
  preserves shrinks (unblocking scan_templates scan_trcs snapshots_enabled content_path retain url_Path
                       now dom snap repo m msg g again : M W goerr ()).
Proof. intros Hm Ha. unfold unblocking. preserves_tac. apply shrinks_blocking. Qed.

Lemma shrinks_delete_version now dom snap repo :
  preserves shrinks (deleteRepositoryVersion scan_templates scan_trcs snapshots_enabled content_path retain url_Path now dom snap repo : M W goerr ()).
Proof.
  assert (preserves shrinks (attemptDeleteRepositoryVersion scan_templates scan_trcs snapshots_enabled content_path retain url_Path
            now dom snap repo : M W goerr ())) as Ha; [|unfold deleteRepositoryVersion; apply shrinks_unblocking; preserves_tac].
  assert (∀ s, dists (DeleteRpmRepositoryVersion dom snap.(s_VersionHref) s).2 ⊆ dists s) as Hq.
  { intros s. by rewrite (quiet_dists _ _ s (quiet_delete_version dom snap.(s_VersionHref))). }
  apply shrinks_request; [done|]. intros s [t|] s' Hv; [|preserves_tac; apply shrinks_quiet, quiet_get_version].
  apply shrinks_unblocking; [preserves_tac; apply shrinks_poll; by erewrite version_task|].
  apply shrinks_request; [done|]. intros s1 [t1|] s1' Hv1; preserves_tac. apply shrinks_poll. by erewrite version_task.
Qed.

Lemma same_db_template_distribution dom repo t snap :
  preserves same_db (update_template_distribution guards url_Path dom repo t snap : M W goerr ()).
Proof. unfold update_template_distribution. preserves_tac; try apply preserves_pulp. apply same_db_dao. unfold GetDistributionHref. keeps_tac. Qed.
Lemma same_db_update_latest dom repo : preserves same_db (update_latest guards dom repo : M W goerr ()).
Proof.
  unfold update_latest, delete_and_poll. preserves_tac; try apply preserves_pulp. apply same_db_dao.
  unfold FetchLatestSnapshotForDistribution. keeps_tac.
Qed.
End Pulp.

(** ** Successful runs *)

Section Runs.
Context {S C P : Type} `{HC : PulpClient S} `{HL : !PulpLaws S} `{HU : UuidText} {HUL : UuidLaws}.
#[local] Set Default Proof Using "Type*".
Abbreviation W := (tworld S C P).

Lemma delete_and_poll_gone dom href m1 m2 fs (w : W) fs' w' :
  tasks_complete S → href ≠ "" → delete_and_poll dom href m1 m2 (fs, w) = (inr (), (fs', w')) →
  ∀ k i, dists w'.(tw_pulp) !! k = Some i → i.(i_PulpHref) ≠ Some href.
Proof.
  intros Hdone Hne (o & [fs1 w1] & (s1 & Hd%call_inr & ->)%wrap_inr%pulp_run & Hk)%bind_inr. destruct o as [t|].
  - apply bind_inr in Hk as (tr & [fs2 w2] & (s2 & Hp%call_inr & ->)%wrap_inr%pulp_run & [_ [= -> <-]]%ret_inr). cbn.
    rewrite (delete_poll _ _ _ _ _ _ _ Hd Hp (Hdone _ _ _ _ _ Hp)). by intros k i [? Hi]%map_lookup_filter_Some.
  - apply ret_inr in Hk as [_ [= -> <-]]. destruct (delete_none _ _ _ _ Hd) as [Hs Hno]. cbn. rewrite Hs. by apply Hno.
Qed.

(** Nothing is left of the distribution of a snapshot; one whose href was not stored is known by its path. *)
Definition unserved (dom : string) (snap : SnapRow) (m : gmap (string * string) DistInfo) : Prop :=
  if snap.(s_DistributionHref) == ""
  then snap.(s_DistributionPath) ≠ "" → ∀ i href, m !! (dom, snap.(s_DistributionPath)) = Some i → i.(i_PulpHref) = Some href → href = ""
  else ∀ k i, m !! k = Some i → i.(i_PulpHref) ≠ Some snap.(s_DistributionHref).

Lemma unserved_shrinks dom snap m m' : m' ⊆ m → unserved dom snap m → unserved dom snap m'.
Proof.
  intros Hm. unfold unserved. destruct (_ == "").
  - intros H Hp i href Hi. apply H; [done|]. by eapply lookup_weaken.
  - intros H k i Hi. apply (H k). by eapply lookup_weaken.
Qed.

Lemma deleteSnapshotDistribution_run dom snap fs (w : W) fs' w' :
  tasks_complete S → deleteSnapshotDistribution dom snap (fs, w) = (inr (), (fs', w')) → unserved dom snap (dists w'.(tw_pulp)).
Proof.
  intros Hdone H. unfold deleteSnapshotDistribution in H. unfold unserved.
  destruct (bool_decide_reflect (s_DistributionHref snap = "")) as [Hh|Hh]; cbn [negb] in H; [|by eapply delete_and_poll_gone].
  intros Hp i href Hi Hhr. apply wrap_inr in H. unfold deleteDistributionAtPath in H. rewrite bool_decide_false in H by done.
  apply bind_inr in H as (dist & [fs1 w1] & (s1 & [Hd1 ->]%find_call & ->)%wrap_inr%pulp_run & H).
  destruct (dists (tw_pulp w) !! (dom, s_DistributionPath snap)) as [i0|] eqn:Hi0; cbn [fmap option_fmap option_map mbind option_bind] in H.
  - unfold d_PulpHref in H. cbn [d_Info] in H. destruct (i_PulpHref i0) as [h|] eqn:Hh0.
    + pose proof (shrinks_delete_and_poll _ _ _ _ _ _ _ _ _ H) as [_ Hsub]. cbn in Hsub. rewrite Hd1 in Hsub.
      pose proof (lookup_weaken _ _ _ _ Hi Hsub) as Hi'. simplify_eq. destruct (decide (h = "")) as [|Hne]; [done|].
      by destruct (delete_and_poll_gone _ _ _ _ _ _ _ _ Hdone Hne H _ _ Hi).
    + apply ret_inr in H as [_ [= <- <-]]. cbn in Hi. rewrite Hd1 in Hi. by simplify_eq.
  - apply ret_inr in H as [_ [= <- <-]]. cbn in Hi. rewrite Hd1 in Hi. by simplify_eq.
Qed.

(** [/latest], if it is there, serves the effective latest snapshot. (A distribution always has an href.) *)
Definition latest_fresh (dom : string) (rc : uuid) (d : db) (m : gmap (string * string) DistInfo) : Prop :=
  ∀ i href, m !! (dom, GetLatestRepoDistPath (uuid_String rc)) = Some i → i.(i_PulpHref) = Some href → href ≠ "" →
    ∃ us, effective_latest d rc = Some us ∧ i.(i_Publication) = Some (Some us.2.(s_PublicationHref)).

Lemma latest_fresh_shrinks dom rc d m m' : m' ⊆ m → latest_fresh dom rc d m → latest_fresh dom rc d m'.
Proof. intros Hm H i href Hi. apply H. by eapply lookup_weaken. Qed.

Lemma update_latest_run guards dom repo fs (w : W) fs' w' :
  tasks_complete S → honest fs → update_latest guards dom repo (fs, w) = (inr (), (fs', w')) →
  latest_fresh dom repo.(p_UUID) w.(tw_db) (dists w'.(tw_pulp)).
Proof.
  intros Hdone Hf H. unfold update_latest in H. set (path := GetLatestRepoDistPath _) in H.
  apply bind_inr in H as (dist & [fs1 w1] & Hfind%wrap_inr & H).
  assert (honest fs1) as Hf1 by (eapply honest_run; [|exact Hfind|exact Hf]; auto with consumes).
  apply pulp_run in Hfind as (s1 & [Hd1 ->]%find_call & ->). intros i href Hi Hhr Hne. fold path in Hi.
  destruct (dists (tw_pulp w) !! (dom, path)) as [i0|] eqn:Hi0; cbn [fmap option_fmap option_map] in H.
  2:{ apply ret_inr in H as [_ [= <- <-]]. cbn in Hi. rewrite Hd1 in Hi. by simplify_eq. }
  apply bind_inr in H as (latest & [fs2 w2] & (d2 & Hl & ->)%try_run%dao_run & H). cbn [tw_db set_pulp] in Hl.
  apply latest_run in Hl as [-> Hl]; [|done]. rewrite Uuidify_String in Hl. destruct latest as [e|us].
  - destruct (is_record_not_found e); [|done]. apply bind_inr in H as (h & ? & [Hh ->]%deref_inr & H).
    pose proof (shrinks_delete_and_poll _ _ _ _ _ _ _ _ _ H) as [_ Hsub]. unfold d_PulpHref in Hh. cbn in Hsub, Hh.
    rewrite Hd1 in Hsub. pose proof (lookup_weaken _ _ _ _ Hi Hsub) as Hi'. simplify_eq.
    by destruct (delete_and_poll_gone _ _ _ _ _ _ _ _ Hdone Hne H _ _ Hi).
  - exists us. split; [done|].
    apply bind_inr in H as (x & [fs3 w3] & (s3 & Hc & ->)%wrap_inr%pulp_run & [_ [= <- <-]]%ret_inr).
    apply CreateOrUpdateDistribution_serves in Hc as (g & [(j & Hj & Hp & _) _] & _); [|done]. cbn in Hi.
    fold path in Hj. by simplify_eq.
Qed.

(** Elsewhere nothing is made. *)
Lemma update_latest_elsewhere guards dom repo fs (w : W) fs' w' k i :
  tasks_complete S → update_latest guards dom repo (fs, w) = (inr (), (fs', w')) →
  k ≠ (dom, GetLatestRepoDistPath (uuid_String repo.(p_UUID))) → dists w'.(tw_pulp) !! k = Some i → dists w.(tw_pulp) !! k = Some i.
Proof.
  intros Hdone H Hk Hi. unfold update_latest in H.
  apply bind_inr in H as (dist & [fs1 w1] & (s1 & [Hd1 ->]%find_call & ->)%wrap_inr%pulp_run & H). rewrite <- Hd1.
  destruct (_ <$> _) as [di|] in H; [|by apply ret_inr in H as [_ [= _ <-]]].
  apply bind_inr in H as (latest & [fs2 w2] & (d2 & _ & ->)%try_run%dao_run & H). destruct latest as [e|us].
  - destruct (is_record_not_found e); [|done]. apply bind_inr in H as (h & ? & [_ ->]%deref_inr & H).
    apply shrinks_delete_and_poll in H as [_ Hsub]. by eapply lookup_weaken in Hsub.
  - apply bind_inr in H as (x & [fs3 w3] & (s3 & Hc & ->)%wrap_inr%pulp_run & [_ [= <- <-]]%ret_inr).
    apply CreateOrUpdateDistribution_serves in Hc as (g & [_ Ho] & _); [|done]. cbn in Hi. by rewrite Ho in Hi.
Qed.

(** *** The distributions of templates *)

Context (url_Path : string → goerr + string) (guards : bool).

(** The path of the template's distribution is that of no other template, and not [/latest]. *)
Definition own_path (repo : RepoResponse) (t p : string) : Prop :=
  p ≠ GetLatestRepoDistPath (uuid_String repo.(p_UUID)) ∧ ∀ t' n', getDistPathAndName url_Path repo t' = inr (p, n') → t' = t.

(** The distribution of the template, if there is one, serves the snapshot behind the guard that the repository needs. *)
Definition serves_instead (dom : string) (repo : RepoResponse) (t : string) (s : SnapRow) (m : gmap (string * string) DistInfo) : Prop :=
  ∀ p n i, getDistPathAndName url_Path repo t = inr (p, n) → own_path repo t p → m !! (dom, p) = Some i →
    i.(i_Publication) = Some (Some s.(s_PublicationHref)) ∧
    guard_for (S := S) dom (needed_guard guards repo.(p_OrgID) repo.(p_FeatureName)) i.(i_ContentGuard).

(** A template's row has an href, which may be empty. *)
Definition href_stored (repo : RepoResponse) (t : string) (d : db) : Prop :=
  ∃ tu x href, t = uuid_String tu ∧ d.(trcs) !! (tu, repo.(p_UUID)) = Some x ∧ x.(x_DistributionHref) = Some href.

Lemma template_distribution_updated dom repo t us (w : W) fs' w' :
  tasks_complete S → update_template_distribution guards url_Path dom repo t us ([], w) = (inr (), (fs', w')) →
  w'.(tw_db) = w.(tw_db) ∧ (∀ k, (∀ p n, getDistPathAndName url_Path repo t = inr (p, n) → k ≠ (dom, p)) → dists w'.(tw_pulp) !! k = dists w.(tw_pulp) !! k) ∧
  (href_stored repo t w.(tw_db) → serves_instead dom repo t us.2 (dists w'.(tw_pulp))).
Proof.
  intros Hdone ([p n] & [fs1 w1] & [Hp [= -> ->]]%wrap_inr%lift_run & H)%bind_inr.
  apply bind_inr in H as (o & [fs2 w2] & (d2 & Ho & ->)%try_run%dao_run & H).
  assert (d2 = w.(tw_db)) as ->.
  { assert (keeps (GetDistributionHref t (uuid_String repo.(p_UUID)))) as Hk by (unfold GetDistributionHref; keeps_tac). by eapply Hk. }
  assert (set_db (tw_db w) w = w) as Ew by (by destruct w). rewrite Ew in H. destruct o as [e|[href|]].
  3: { apply ret_inr in H as [_ [= _ <-]]. split_and!; [done..|]. intros (tu & x & href & -> & Hx & Hh). exfalso.
       unfold GetDistributionHref in Ho. apply call_inr in Ho. rewrite !pg_String, Hx in Ho. cbn in Ho. by rewrite Hh in Ho. }
  { apply ret_inr in H as [_ [= _ <-]]. split_and!; [done..|]. intros (tu & x & href & -> & Hx & Hh). exfalso.
    unfold GetDistributionHref, db_call in Ho. by rewrite !pg_String in Ho. }
  apply bind_inr in H as (found & [fs3 w3] & (s3 & [Hd3 _]%find_call & ->)%wrap_inr%pulp_run & H).
  apply bind_inr in H as (r & [fs4 w4] & (s4 & Hc & ->)%wrap_inr%pulp_run & [_ [= _ <-]]%ret_inr).
  apply CreateOrUpdateDistribution_serves in Hc as (g & [(i & Hi & Hpub & Hg) Hother] & Hguard); [|done]. cbn in Hother, Hi |- *.
  split; [done|]. split; [intros k Hk; rewrite Hother, Hd3; [done|by eapply Hk]|].
  intros _ p' n' i' Hp' _ Hi'. rewrite Hp in Hp'. injection Hp' as <- <-. rewrite Hi in Hi'. injection Hi' as <-. by rewrite Hg.
Qed.

Lemma template_distributions_updated dom repo l (w : W) fs' w' :
  tasks_complete S → NoDup l.*1 → (∀ t us (w : W) fs' w', update_template_distribution guards url_Path dom repo t us ([], w) = (inr (), (fs', w')) → fs' = []) →
  iter (λ '(t, us), update_template_distribution guards url_Path dom repo t us) l ([], w) = (inr (), (fs', w')) →
  w'.(tw_db) = w.(tw_db) ∧
  (∀ t us, (t, us) ∈ l → href_stored repo t w.(tw_db) → serves_instead dom repo t us.2 (dists w'.(tw_pulp))) ∧
  ∀ p k, k = (dom, p) → (∀ t n, t ∈ l.*1 → getDistPathAndName url_Path repo t ≠ inr (p, n)) → dists w'.(tw_pulp) !! k = dists w.(tw_pulp) !! k.
Proof.
  intros Hdone Hnd Hfs. revert w. induction l as [|[t us] l IH]; intros w H; cbn [iter] in H.
  { apply ret_inr in H as [_ [= _ <-]]. split; [done|]. split; [by intros ? ? ?%not_elem_of_nil|done]. }
  apply bind_inr in H as ([] & [fs1 w1] & H1 & H). pose proof (Hfs _ _ _ _ _ H1) as ->.
  apply template_distribution_updated in H1 as (Hd1 & Ho1 & Hs1); [|done]. rewrite fmap_cons in Hnd. apply NoDup_cons in Hnd as [Hnot Hnd]. cbn in Hnot.
  apply IH in H as (Hd & Hs & Ho); [|done]. rewrite Hd1 in Hd, Hs. split; [done|]. split.
  - intros t' us' [[= -> ->]|Hin]%elem_of_cons Hst; [|by apply Hs]. intros p n i Hp Hown. rewrite (Ho p _ eq_refl).
    + by eapply Hs1.
    + intros t' n' Ht' Hp'. apply Hnot. by rewrite <- (proj2 Hown _ _ Hp').
  - intros p k -> Hno. rewrite (Ho p _ eq_refl); [apply Ho1|].
    + intros p' n Hp' [= <-]. eapply Hno; [|exact Hp']. by left.
    + intros t' n Ht'. apply Hno. by right.
Qed.

Lemma serves_instead_less dom repo t s m m' :
  (∀ k i, k ≠ (dom, GetLatestRepoDistPath (uuid_String repo.(p_UUID))) → m' !! k = Some i → m !! k = Some i) →
  serves_instead dom repo t s m → serves_instead dom repo t s m'.
Proof. intros Hm H p n i Hp Hown Hi. eapply H; [done..|]. apply Hm; [|done]. intros [= E]. by apply (proj1 Hown). Qed.
End Runs.

(** ** The templates that use a snapshot *)

Section Templates.
Context `{HU : UuidText} {HUL : UuidLaws}.
Context (scan_templates : gmap uuid TemplateRow → list (uuid * TemplateRow)).
Context (scan_trcs : gmap (uuid * uuid) TrcRow → list (uuid * uuid * TrcRow)).
Context (sql_like : string → string → bool) (sql_order : string → list (uuid * TemplateRow) → list (uuid * TemplateRow)).
Context (snapshots_enabled : bool) (content_path : goerr + string) (retain : Z).
Hypothesis scan_templates_perm : ∀ m, scan_templates m ≡ₚ map_to_list m.
Hypothesis scan_trcs_perm : ∀ m, scan_trcs m ≡ₚ map_to_list m.
Hypothesis sql_order_perm : ∀ o l, sql_order o l ≡ₚ l.
#[local] Set Default Proof Using "Type*".

Lemma to_responses_run now ts fs d rs fs' d' :
  to_responses snapshots_enabled content_path retain now ts (fs, d) = (inr rs, (fs', d')) →
  d' = d ∧ ∃ f : preloaded → TemplateResponse, rs = f <$> ts ∧ ∀ p, (f p).(tr_UUID) = uuid_String p.1.1 ∧ (f p).(tr_row) = p.1.2.
Proof.
  intros H. pose proof (keeps_to_responses _ _ _ _ _ _ _ _ _ _ H) as ->. split; [done|].
  apply bind_inr in H as (path & [fs1 d1] & _ & (last & [fs2 d2] & _ & [<- _]%ret_inr)%bind_inr).
  unfold templatesConvertToResponses. eexists. split; [reflexivity|]. by intros [[u t] rows].
Qed.

(** The response is about a template of the table. *)
Definition describes (d : db) (r : TemplateResponse) (tu : uuid) (t : TemplateRow) : Prop :=
  d.(templates) !! tu = Some t ∧ r.(tr_UUID) = uuid_String tu ∧ r.(tr_row) = template_AfterFind t.

(** Who deletes snapshots of shared repositories looks at all templates. *)
Definition in_scope (orgID : string) (t : TemplateRow) : Prop := (orgID = RedHatOrg ∨ orgID = CommunityOrg) ∨ t.(t_OrgID) = orgID.

Definition uses_snapshot (d : db) (tu u : uuid) : Prop := ∃ rc x, d.(trcs) !! (tu, rc) = Some x ∧ x.(x_SnapshotUUID) = u.

Lemma elem_of_templates_with d u p :
  p ∈ templates_with scan_templates scan_trcs d (λ kx, contains [u] kx.2.(x_SnapshotUUID)) (λ _, true) ↔
  ∃ tu t, p = (tu, template_AfterFind t, []) ∧ d.(templates) !! tu = Some t ∧ template_live t = true ∧ uses_snapshot d tu u.
Proof.
  unfold templates_with. rewrite list_elem_of_bind. split.
  - intros ([tu t] & Hp & [[Hl _] Ht]%list_elem_of_filter). rewrite scan_templates_perm, elem_of_map_to_list in Ht.
    apply list_elem_of_bind in Hp as ([[tu' rc] x] & ->%list_elem_of_singleton & [[Htu Hx] Hin]%list_elem_of_filter). cbn [fst snd] in *. subst tu'.
    rewrite scan_trcs_perm, elem_of_map_to_list in Hin. apply contains_true, list_elem_of_singleton in Hx.
    exists tu, t. split_and!; [done..|]. by exists rc, x.
  - intros (tu & t & -> & Ht & Hl & rc & x & Hx & Hu). exists (tu, t). split.
    + apply list_elem_of_bind. exists (tu, rc, x). split; [by apply list_elem_of_singleton|]. apply list_elem_of_filter.
      rewrite scan_trcs_perm, elem_of_map_to_list. split; [|done]. split; [done|]. by apply contains_true, list_elem_of_singleton.
    + apply list_elem_of_filter. by rewrite scan_templates_perm, elem_of_map_to_list.
Qed.

Lemma elem_of_listed d orgID u tu t :
  (tu, t) ∈ listed scan_templates sql_like d orgID false (mk_TemplateFilterData "" "" "" "" "" false "" [] [uuid_String u] false) ↔
  d.(templates) !! tu = Some t ∧ template_live t = true ∧ t.(t_OrgID) = orgID ∧ uses_snapshot d tu u.
Proof.
  rewrite template_list_scoped by (done || by left). unfold row_cond, uses, uses_snapshot, template_live. cbn. split.
  - intros (Ht & Hl & (Ho & _) & [[_ ?]|(rc & x & Hx & _ & Hu)]); [done|]. rewrite Hl. split_and!; [done..|].
    exists rc, x. split; [done|]. specialize (Hu ltac:(done)). by rewrite Uuidify_String, list_elem_of_singleton in Hu.
  - intros (Ht & Hl & Ho & rc & x & Hx & Hu). split_and!; try done; [by destruct (t_DeletedAt t)|].
    right. exists rc, x. split_and!; [done..|]. intros _. by rewrite Uuidify_String, list_elem_of_singleton.
Qed.

Context {S C P : Type}.
Abbreviation W := (tworld S C P).

Lemma templates_using_run now orgID u fs (w : W) ts fs' w' :
  templates_using scan_templates scan_trcs sql_like sql_order snapshots_enabled content_path retain now orgID (uuid_String u) (fs, w) =
    (inr ts, (fs', w')) →
  w' = w ∧ (∀ r, r ∈ ts → ∃ tu t, describes w.(tw_db) r tu t ∧ uses_snapshot w.(tw_db) tu u) ∧
  ∀ tu t, w.(tw_db).(templates) !! tu = Some t → template_live t = true → in_scope orgID t → uses_snapshot w.(tw_db) tu u →
    ∃ r, r ∈ ts ∧ describes w.(tw_db) r tu t.
Proof.
  unfold templates_using. destruct ((orgID == RedHatOrg) || (orgID == CommunityOrg)) eqn:Hsh.
  - intros (d & H & ->)%dao_run. apply bind_inr in H as (ps & [fs1 d1] & Hq%map_err_inr%call_inr & H).
    cbn [mapM] in Hq. rewrite pg_String in Hq. cbn in Hq. injection Hq as <- <-.
    apply to_responses_run in H as (-> & f & -> & Hf). split; [by destruct w|]. split.
    + intros r (p & -> & Hp)%list_elem_of_fmap. apply elem_of_templates_with in Hp as (tu & t & -> & Ht & _ & Hu).
      exists tu, t. destruct (Hf (tu, template_AfterFind t, [])) as [H1 H2]. by split_and!.
    + intros tu t Ht Hl _ Hu. eexists. split; [apply list_elem_of_fmap; eexists; split; [done|]; apply elem_of_templates_with; eauto 10|].
      destruct (Hf (tu, template_AfterFind t, [])) as [H1 H2]. by split_and!.
  - apply orb_false_iff in Hsh as [Hs1%bool_decide_eq_false Hs2%bool_decide_eq_false].
    intros ([ts' n] & [fs0 w0] & (d & H & ->)%dao_run & [-> [= <- <-]]%ret_inr)%bind_inr.
    apply bind_inr in H as (total & [fs1 d1] & [= <- <-]%map_err_inr%call_inr & H).
    apply bind_inr in H as (ps & [fs2 d2] & [= <- <-]%map_err_inr%call_inr & H).
    apply bind_inr in H as (rs & [fs3 d3] & (-> & f & -> & Hf)%to_responses_run & [[= <- _] [= <- <-]]%ret_inr).
    split; [by destruct w|]. unfold page. cbn [drop]. rewrite (proj2 (Z.ltb_lt (-1) 0)) by done. split.
    + intros r (p & -> & ([tu t] & -> & Hp)%list_elem_of_fmap)%list_elem_of_fmap. rewrite sql_order_perm in Hp.
      apply elem_of_listed in Hp as (Ht & _ & _ & Hu). exists tu, t. split; [|done]. by split_and!; try apply Hf.
    + intros tu t Ht Hl [[?|?]|Ho] Hu; [done..|]. eexists. split.
      * apply list_elem_of_fmap. eexists. split; [done|]. apply list_elem_of_fmap. exists (tu, t). split; [done|]. rewrite sql_order_perm.
        by apply elem_of_listed.
      * by split_and!; try apply Hf.
Qed.
End Templates.

(** ** Replacing a snapshot in templates *)

Section Replace.
Context `{HU : UuidText} {HUL : UuidLaws}.
Context (scan : gmap uuid SnapRow → list (uuid * SnapRow)).
#[local] Set Default Proof Using "Type*".

Definition replaced (v : uuid) (old : option TrcRow) : TrcRow :=
  match old with Some x => mk_TrcRow v x.(x_DistributionHref) x.(x_DeletedAt) | None => mk_TrcRow v (Some "") None end.
Lemma replaced_twice v old : replaced v (Some (replaced v old)) = replaced v old.
Proof. by destruct old. Qed.

Lemma UpdateSnapshots_one tu rc v s fs d fs' d' :
  UpdateSnapshots tu [uuid_String rc] [(v, s)] (fs, d) = (inr (), (fs', d')) →
  d' = set_trcs <[(tu, rc) := replaced v (d.(trcs) !! (tu, rc))]> d.
Proof.
  unfold UpdateSnapshots. destruct (match_snapshots _ _ _ _) as [[|? ?] rows] eqn:Hm; [|done].
  apply match_snapshots_rows in Hm as (uss & Hu & Hin & Hk). destruct uss as [|us [|? ?]]; try done.
  injection Hu as Hr%uuid_String_inj. specialize (Hin us ltac:(by left)). apply list_elem_of_singleton in Hin as ->.
  destruct rows as [|row rows]; [done|]. intros H%(create_trcs_run _ _ _ _ _ _ _ Hk)%upsert_run. destruct H as (_ & -> & _).
  unfold rows_of in *. cbn in *. subst rc. unfold set_trcs. cbn. f_equal.
Qed.

Definition date_of (clock : string → time) (tu : uuid) (t : TemplateRow) : time :=
  if t.(t_UseLatest) then clock (uuid_String tu) else t.(t_Date).

Context {S C P : Type}.
Abbreviation W := (tworld S C P).

Lemma replace_snapshot_run clock orgID rc m0 r tu t fs (w : W) m fs' w' :
  describes w.(tw_db) r tu t → replace_snapshot scan clock orgID (uuid_String rc) m0 r (fs, w) = (inr m, (fs', w')) →
  ∃ v s, snapshots_by_date scan w.(tw_db) orgID [rc] (date_of clock tu t) = [(v, s)] ∧ m = <[r.(tr_UUID) := (v, s)]> m0 ∧
    w' = set_db (set_trcs <[(tu, rc) := replaced v (w.(tw_db).(trcs) !! (tu, rc))]> w.(tw_db)) w.
Proof.
  intros (_ & Hu & Hr) (snaps & [fs1 w1] & (d1 & Hs%map_err_inr%call_inr & ->)%dao_run & H)%bind_inr.
  rewrite Hu, Hr in *. cbn [fmap list_fmap] in Hs. rewrite Uuidify_String in Hs. injection Hs as Hs <-.
  destruct snaps as [|[v s] [|? ?]]; [done| |done]. rewrite pg_String in H.
  apply bind_inr in H as ([] & [fs2 w2] & (d2 & ->%UpdateSnapshots_one & ->)%dao_run & [<- [= <- <-]]%ret_inr). by exists v, s.
Qed.

Lemma replace_snapshots_run clock orgID rc ts : ∀ m0 fs (w : W) m fs' w',
  (∀ r, r ∈ ts → ∃ tu t, describes w.(tw_db) r tu t) →
  replace_snapshots scan clock orgID (uuid_String rc) m0 ts (fs, w) = (inr m, (fs', w')) →
  ∃ tr, w' = set_db (set_trcs (λ _, tr) w.(tw_db)) w ∧
    (∀ k, (∀ r, r ∈ ts → k.2 = rc → r.(tr_UUID) ≠ uuid_String k.1) → tr !! k = w.(tw_db).(trcs) !! k) ∧
    (∀ r tu t, r ∈ ts → describes w.(tw_db) r tu t →
       ∃ v s, snapshots_by_date scan w.(tw_db) orgID [rc] (date_of clock tu t) = [(v, s)] ∧
         tr !! (tu, rc) = Some (replaced v (w.(tw_db).(trcs) !! (tu, rc))) ∧ m !! uuid_String tu = Some (v, s)) ∧
    (∀ k, (∀ r, r ∈ ts → r.(tr_UUID) ≠ k) → m !! k = m0 !! k).
Proof.
  induction ts as [|r0 ts IH]; intros m0 fs w m fs' w' Hts; cbn [replace_snapshots].
  { intros [<- [= <- <-]]%ret_inr. exists w.(tw_db).(trcs). split; [by destruct w as [[]]|]. split_and!; [done| |done]. by intros ? ? ? ?%not_elem_of_nil. }
  intros (m1 & [fs1 w1] & H1 & H)%bind_inr. destruct (Hts r0 ltac:(by left)) as (tu0 & t0 & Hr0).
  destruct (replace_snapshot_run _ _ _ _ _ _ _ _ _ _ _ _ Hr0 H1) as (v0 & s0 & Hv0 & -> & ->).
  set (old := trcs (tw_db w) !! (tu0, rc)) in *.
  apply IH in H as (tr & -> & Hout & Hin & Hm); [|intros r Hr; apply (Hts r); by right]. cbn in Hout, Hin.
  assert (∀ r tu t, r ∈ ts → describes (tw_db w) r tu t → ∃ v s,
    snapshots_by_date scan (tw_db w) orgID [rc] (date_of clock tu t) = [(v, s)] ∧
    tr !! (tu, rc) = Some (replaced v (trcs (tw_db w) !! (tu, rc))) ∧ m !! uuid_String tu = Some (v, s)) as Hin'.
  { intros r tu t Hr Hd. destruct (Hin r tu t Hr Hd) as (v & s & Hv & Htr & Hms). exists v, s. split; [exact Hv|]. split; [|done]. rewrite Htr.
    destruct (decide (tu0 = tu)) as [<-|Hne]; [|by rewrite lookup_insert_ne by congruence]. rewrite lookup_insert_eq.
    destruct Hd as (Ht & _ & _), Hr0 as (Ht0 & _ & _). simplify_eq. assert ([(v0, s0)] = [(v, s)]) as [= -> _] by exact (eq_trans (eq_sym Hv0) Hv).
    by rewrite replaced_twice. }
  exists tr. split; [done|]. split_and!; [| |intros k Hk; rewrite Hm, lookup_insert_ne; [done|apply Hk; by left|intros r Hr; apply Hk; by right]].
  - intros k Hk. rewrite Hout by (intros; apply Hk; [by right|done]). apply lookup_insert_ne. intros <-.
    apply (Hk r0 ltac:(by left) eq_refl), Hr0.
  - intros r tu t [->|Hr]%elem_of_cons Hd; [|by eapply Hin'].
    assert (tu = tu0) as -> by (apply uuid_String_inj; destruct Hd as (_ & <- & _), Hr0 as (_ & ? & _); done).
    assert (t = t0) as -> by (destruct Hd as (? & _), Hr0 as (? & _); congruence).
    destruct (decide (Exists (λ r, r.(tr_UUID) = uuid_String tu0) ts)) as [(r & Hr & Hu)%Exists_exists|Hno].
    + destruct (Hts r ltac:(by right)) as (tu & t & Hd'). assert (tu = tu0) as -> by (apply uuid_String_inj; destruct Hd' as (_ & <- & _); done).
      assert (t = t0) as -> by (destruct Hd as (? & _), Hd' as (? & _); congruence). by eapply Hin'.
    + exists v0, s0. split; [done|]. assert (∀ r, r ∈ ts → r.(tr_UUID) ≠ uuid_String tu0) as Hlast.
      { intros r Hr Hu. apply Hno, Exists_exists. by exists r. }
      split; [rewrite Hout; [by rewrite lookup_insert_eq|]; intros r Hr _; by apply Hlast|].
      rewrite Hm by done. destruct Hr0 as (_ & -> & _). by rewrite lookup_insert_eq.
Qed.
End Replace.

(** ** Which faults are left *)

Section Left.
Context {S C P : Type} `{HC : PulpClient S} `{HU : UuidText}.
Context (scan : gmap uuid SnapRow → list (uuid * SnapRow)).
Context (scan_templates : gmap uuid TemplateRow → list (uuid * TemplateRow)).
Context (scan_trcs : gmap (uuid * uuid) TrcRow → list (uuid * uuid * TrcRow)).
Context (sql_like : string → string → bool) (sql_order : string → list (uuid * TemplateRow) → list (uuid * TemplateRow)).
Context (snapshots_enabled : bool) (content_path : goerr + string) (retain : Z) (tasks : gmap uuid TaskView).
Context (url_Path : string → goerr + string) (guards : bool).
Abbreviation W := (tworld S C P).

Lemma consumes_to_responses now ts : consumes (to_responses snapshots_enabled content_path retain now ts).
Proof. unfold to_responses, GetContentPath, fetchLatestSnapshotUUIDsForReposOfTemplates. consumes_tac. Qed.

Lemma consumes_updateTemplates now clock orgID us :
  consumes (updateTemplatesUsingSnap scan scan_templates scan_trcs sql_like sql_order snapshots_enabled content_path retain now clock orgID us
            : M W goerr _).
Proof.
  apply consumes_bind.
  - unfold templates_using, InternalOnlyGetTemplatesForSnapshots, Template_List. consumes_tac; apply consumes_to_responses.
  - intros ts. generalize (∅ : gmap string (uuid * SnapRow)). induction ts as [|t ts IH]; intros m; cbn [replace_snapshots]; [apply consumes_ret|].
    apply consumes_bind; [|done]. unfold replace_snapshot, FetchSnapshotsModelByDateAndRepository, UpdateSnapshots, create_trcs, checked, upsert.
    consumes_tac.
Qed.

Lemma consumes_updateRepoConfig orgID rc snap : consumes (updateRepoConfig tasks orgID rc snap : M W goerr ()).
Proof.
  unfold updateRepoConfig, FetchLatestSnapshotModel, UpdateLastSnapshot, UpdateLastSnapshotTask, on_config. consumes_tac.
Qed.

Lemma consumes_CreateOrUpdateDistribution dom repo pub name p : consumes (CreateOrUpdateDistribution guards dom repo pub name p : M S goerr _).
Proof.
  unfold CreateOrUpdateDistribution, FetchContentGuard, createOrUpdateDistribution, createDistribution, updateDistribution. consumes_tac.
Qed.

Lemma consumes_template_distribution dom repo t snap : consumes (update_template_distribution guards url_Path dom repo t snap : M W goerr ()).
Proof.
  unfold update_template_distribution, GetDistributionHref. consumes_tac. apply consumes_CreateOrUpdateDistribution.
Qed.

Lemma consumes_delete_and_poll dom h m1 m2 : consumes (delete_and_poll dom h m1 m2 : M W goerr ()).
Proof. unfold delete_and_poll. consumes_tac. Qed.

Lemma consumes_update_latest dom repo : consumes (update_latest guards dom repo : M W goerr ()).
Proof.
  unfold update_latest, FetchLatestSnapshotForDistribution, FetchLatestPublishedSnapshotModel, FetchLatestSnapshotModel.
  consumes_tac; [apply consumes_delete_and_poll|]. apply consumes_CreateOrUpdateDistribution.
Qed.

Lemma consumes_delete_at_path dom p : consumes (deleteDistributionAtPath dom p : M W goerr ()).
Proof. unfold deleteDistributionAtPath. consumes_tac. apply consumes_delete_and_poll. Qed.

Lemma consumes_snapshot_distribution dom s : consumes (deleteSnapshotDistribution dom s : M W goerr ()).
Proof.
  unfold deleteSnapshotDistribution. destruct (_ != _); [apply consumes_delete_and_poll|apply consumes_wrap, consumes_delete_at_path].
Qed.

Lemma consumes_delete_version now dom s repo :
  consumes (deleteRepositoryVersion scan_templates scan_trcs snapshots_enabled content_path retain url_Path now dom s repo : M W goerr ()).
Proof.
  assert (∀ m msg g again, consumes m → consumes again →
    consumes (unblocking scan_templates scan_trcs snapshots_enabled content_path retain url_Path now dom s repo m msg g again : M W goerr ())) as Hu.
  { intros m msg g again Hm Ha. unfold unblocking. apply consumes_bind; [by apply consumes_try|]. intros [e|?]; [|apply consumes_ret].
    destruct (negb _); [apply consumes_throw|]. apply consumes_bind; [|intros [?|?]; [apply consumes_throw|done]]. apply consumes_try.
    apply consumes_bind; [unfold InternalOnlyGetTemplatesForRepoConfig; consumes_tac; apply consumes_to_responses|intros ts].
    apply consumes_bind; [induction ts; cbn [template_paths]; consumes_tac|intros paths]. apply consumes_iter. intros p.
    apply consumes_bind; [|intros; apply consumes_ret]. unfold deleteDistributionIfBlockingPublication.
    consumes_tac; apply consumes_delete_at_path. }
  assert (consumes (attemptDeleteRepositoryVersion scan_templates scan_trcs snapshots_enabled content_path retain url_Path now dom s repo : M W goerr ())).
  { unfold attemptDeleteRepositoryVersion. apply consumes_bind; [auto with consumes|]. intros [t|]; [|consumes_tac]. apply Hu; consumes_tac. }
  apply Hu; [done|by apply consumes_wrap].
Qed.
End Left.
