(* ===== verification/Deletion.v ===== *)
(** * A deleted snapshot is gone, and nothing refers to it

    The theorem on one round of tasks/delete_snapshots.go, from the steps of DeleteTaskThms. *)

From S2P Require Import Prelude GoStrings GoSplit Config TxMonad Utils Models Errors DaoHelpers GoText SnapshotDao SnapshotThms TemplateDao TemplateThms SnapshotHandler SnapshotHandlerThms TemplateInv TemplateLists RepoConfigDao RepoConfigThms RepoConfigListThms Pulp Distribution TaskEnv PublishTask DeleteTask DeleteTaskThms.
From stdpp Require Import options.

Open Scope string_scope.

Section Configs.
Context `{HU : UuidText} {HUL : UuidLaws}.
Context (snapshots_enabled : bool) (content_path : goerr + string) (tasks : gmap uuid TaskView).
#[local] Set Default Proof Using "Type*".

Lemma override_frame org l fs d l' fs' d' :
  override_one org l (fs, d) = (inr l', (fs', d')) → d' = d ∧ l'.(l_UUID) = l.(l_UUID) ∧ (l.(l_Config).(c_OrgID) = org → l' = l).
Proof.
  unfold override_one. destruct (IsForeignPartnerView _ _) eqn:Hv; cbn [negb]; [|by intros [<- [= <- <-]]%ret_inr].
  assert (c_OrgID (l_Config l) ≠ org) as Hne by (intros He; unfold IsForeignPartnerView in Hv; by rewrite He, bool_decide_true, andb_false_r in Hv).
  destruct (is_published _); [by intros [<- [= <- <-]]%ret_inr|].
  destruct (db_call _ _) as [[e|last] [fs1 d1]] eqn:E; intros [= <- <- <-].
  - apply call_inl in E as [->|?]; done.
  - apply call_inr in E. by injection E as _ <-.
Qed.

Lemma RepoConfig_Fetch_keeps orgID raw : keeps (RepoConfig_Fetch tasks snapshots_enabled content_path orgID raw).
Proof.
  apply keeps_bind; [apply fetch_loaded_keeps|intros l]. apply keeps_bind; [keeps_tac|intros path]. apply keeps_bind; [|intros; apply keeps_ret].
  unfold override_one. destruct (negb _); [apply keeps_ret|]. destruct (is_published _); [apply keeps_ret|]. intros fs d r fs' d'.
  destruct (db_call _ _) as [[e|last] [fs1 d1]] eqn:E; intros [= <- <- <-]; by eapply keeps_call in E.
Qed.

Lemma RepoConfig_Fetch_run orgID rc fs d p fs' d' :
  RepoConfig_Fetch tasks snapshots_enabled content_path orgID (uuid_String rc) (fs, d) = (inr p, (fs', d')) →
  d' = d ∧ p.(p_UUID) = rc ∧ ∃ c, d.(configs) !! rc = Some c ∧ config_live c = true ∧
    (c.(c_OrgID) = orgID → p.(p_LastSnapshotUUID) = c.(c_LastSnapshotUUID)).
Proof.
  intros (l & [fs1 d1] & Hl & H)%bind_inr.
  apply bind_inr in Hl as ([rc' c] & [fs0 d0] & Hc%map_err_inr%call_inr & [= <- <-]%map_err_inr%call_inr). cbv zeta in Hc. rewrite Uuidify_String in Hc.
  destruct (d.(configs) !! rc) as [c'|] eqn:Hrc; [|done]. destruct (config_live c' && _) eqn:Hlive; [|done]. injection Hc as <- -> <-.
  apply andb_true_iff in Hlive as [Hlive _]. apply bind_inr in H as (path & [fs2 d2] & Hp & H).
  assert (d2 = d) as ->.
  { destruct (_ && _) in Hp; [|by apply ret_inr in Hp as [_ [= _ <-]]].
    apply bind_inr in Hp as ([] & [fs3 d3] & ->%noop_inr & Hp). destruct content_path; [done|]. by apply ret_inr in Hp as [_ [= _ <-]]. }
  apply bind_inr in H as (l' & [fs3 d3] & (-> & Hu & Ho)%override_frame & [<- [= <- <-]]%ret_inr). cbn in Hu, Ho.
  split; [done|]. unfold convertToResponses. cbn [fmap list_fmap nth]. split.
  - destruct (p_LastSnapshot _); exact Hu.
  - exists c. split_and!; [done..|]. intros Hc. rewrite (Ho Hc). by destruct (p_LastSnapshot _).
Qed.
End Configs.

(** ** The configuration and the row *)

(** What decides which snapshot is the effective latest one. *)
Definition config_view (c : ConfigRow) : bool * bool := (config_live c, c.(c_Partner)).
Definition same_views (m m' : gmap uuid ConfigRow) : Prop := ∀ k, config_view <$> m' !! k = config_view <$> m !! k.

Lemma effective_latest_views d d' rc :
  d'.(snapshots) = d.(snapshots) → same_views d.(configs) d'.(configs) → effective_latest d' rc = effective_latest d rc.
Proof.
  intros Hs Hv. specialize (Hv rc). unfold effective_latest, published_of, live_of. rewrite Hs.
  destruct (d.(configs) !! rc) as [c|], (d'.(configs) !! rc) as [c'|]; try done. injection Hv as Hl Hp. cbn. by rewrite Hl, Hp.
Qed.

Section Rows.
Context `{HU : UuidText} {HUL : UuidLaws} {S C P : Type} (tasks : gmap uuid TaskView).
#[local] Set Default Proof Using "Type*".
Abbreviation W := (tworld S C P).

Lemma updateRepoConfig_run orgID rc raw fs (w : W) fs' w' :
  updateRepoConfig tasks orgID (uuid_String rc) raw (fs, w) = (inr (), (fs', w')) →
  ∃ v cs, best newer (live_of w.(tw_db) rc) = Some v ∧ w' = set_db (set_configs (λ _, cs) w.(tw_db)) w ∧
    same_views w.(tw_db).(configs) cs ∧
    ∀ c, w.(tw_db).(configs) !! rc = Some c → c.(c_OrgID) = orgID → c_LastSnapshotUUID <$> cs !! rc = Some (Some v.1).
Proof.
  intros ([v sv] & [fs1 w1] & (d1 & Hb%call_inr & ->)%dao_run & H)%bind_inr. rewrite Uuidify_String in Hb.
  destruct (best newer _) as [v'|] eqn:Hbest; [|done]. injection Hb as -> <-. destruct (_ == raw); [done|].
  apply bind_inr in H as ([] & [fs2 w2] & (d2 & Hu%call_inr & ->)%dao_run & (d3 & Ht%call_inr & ->)%dao_run). cbn in Hu, Ht.
  rewrite !pg_String in Hu. rewrite pg_String in Ht. cbv zeta in Ht. rewrite bool_decide_true in Ht by done. injection Ht as <-.
  exists (v, sv), (configs (set_configs (fmap (λ c, if (c.(c_OrgID) == orgID) && (c.(c_RepositoryUUID) == rc) then set_last_task None c else c)) d2)).
  split; [done|]. cbn. destruct (configs (tw_db w) !! rc) as [c|] eqn:Hc.
  2:{ injection Hu as <-. split; [by destruct w as [[]]|]. split; [|done]. intros k. rewrite lookup_fmap.
      destruct (configs (tw_db w) !! k) as [c|]; [|done]. cbn. by destruct (_ && _). }
  destruct (c_OrgID c != orgID) eqn:Ho.
  - injection Hu as <-. split; [by destruct w as [[]]|]. split.
    + intros k. rewrite lookup_fmap. destruct (configs (tw_db w) !! k) as [c'|]; [|done]. cbn. by destruct (_ && _).
    + intros c' [= <-] He. by rewrite He, bool_decide_true in Ho.
  - destruct (bool_decide (snapshots (tw_db w) !! v = None)); [done|]. injection Hu as <-. cbn. split; [by destruct w as [[]]|]. split.
    + intros k. rewrite lookup_fmap. destruct (decide (rc = k)) as [<-|Hk].
      * rewrite lookup_alter_eq, Hc. cbn. by destruct (_ && _).
      * rewrite lookup_alter_ne by done. destruct (configs (tw_db w) !! k) as [c'|]; [|done]. cbn. by destruct (_ && _).
    + intros c' [= <-] _. rewrite lookup_fmap, lookup_alter_eq, Hc. cbn. by destruct (_ && _).
Qed.

Lemma Delete_found raw u s msg fs (w : W) fs' w' :
  plain fs → pg_uuid raw = Some u → w.(tw_db).(snapshots) !! u = Some s →
  unless_not_found (dao (Delete raw)) msg mret (fs, w) = (inr (), (fs', w')) →
  w' = set_db (set_configs (fmap (λ c, if bool_decide (c.(c_LastSnapshotUUID) = Some u) then set_last_snapshot None c else c))
                 (set_snapshots (delete u) w.(tw_db))) w.
Proof.
  intros Hf Hu Hs (r & [fs1 w1] & (d1 & H & ->)%try_run%dao_run & Hk)%bind_inr. destruct r as [e|[]].
  - destruct (is_dao_not_found e) eqn:He; [|done]. exfalso. unfold Delete, first_snapshot, hard_delete, mbind, M_bind, map_err in H. rewrite Hu in H.
    destruct (db_call _ _) as [r1 [fs2 d2]] eqn:Ef in H.
    assert (plain fs2) as Hf2 by (eapply plain_run; [apply consumes_call|exact Ef|done]). apply call_cases in Ef as [(e1 & -> & -> & H1)|Ef].
    { injection H as <- _ _. rewrite (plain_snapshot_error e1 _ (Hf _ H1)) in He. done. }
    rewrite Hs in Ef. cbn in Ef. injection Ef as <- <-.
    destruct (db_call _ _) as [r2 [fs3 d3]] eqn:Eh in H. injection H as -> -> ->. apply call_cases in Eh as [(e2 & [= <-] & -> & H2)|Eh].
    + by rewrite (proj2 (Hf2 _ H2)) in He.
    + destruct (existsb _ _); [|done]. by injection Eh as <- _.
  - apply ret_inr in Hk as [_ [= -> <-]]. apply bind_inr in H as ([u' s'] & [fs2 d2] & Hf1%map_err_inr%call_inr & Hd%call_inr).
    rewrite Hu, Hs in Hf1. cbn in Hf1. injection Hf1 as <- <- <-. destruct (existsb _ _); [done|]. by injection Hd as <-.
Qed.
End Rows.

(** ** The version in Pulp *)

Lemma consumes_nil {D A} (m : M D goerr A) d r fs' d' : consumes m → m ([], d) = (r, (fs', d')) → fs' = [].
Proof. intros Hm H. destruct (Hm [] d) as [n Hn]. rewrite H in Hn. cbn in Hn. by rewrite Hn, drop_nil. Qed.

Section Version.
Context {S C P : Type} `{HC : PulpClient S} `{HV : !PulpVersions S} `{HU : UuidText}.
Context (scan_templates : gmap uuid TemplateRow → list (uuid * TemplateRow)).
Context (scan_trcs : gmap (uuid * uuid) TrcRow → list (uuid * uuid * TrcRow)).
Context (snapshots_enabled : bool) (content_path : goerr + string) (retain : Z) (url_Path : string → goerr + string).
#[local] Set Default Proof Using "Type*".
Abbreviation W := (tworld S C P).
Abbreviation unblocking := (unblocking scan_templates scan_trcs snapshots_enabled content_path retain url_Path).
Abbreviation attempt := (attemptDeleteRepositoryVersion scan_templates scan_trcs snapshots_enabled content_path retain url_Path).
Abbreviation deleteRepositoryVersion := (deleteRepositoryVersion scan_templates scan_trcs snapshots_enabled content_path retain url_Path).

(** Either the first try was enough, or the second one ends the step. *)
Lemma unblocking_run now dom snap repo m msg g again fs (w : W) fs' w' :
  unblocking now dom snap repo m msg g again (fs, w) = (inr (), (fs', w')) →
  m (fs, w) = (inr (), (fs', w')) ∨ ∃ fs1 w1, again (fs1, w1) = (inr (), (fs', w')).
Proof.
  intros (r & [fs1 w1] & Hr%try_run & H)%bind_inr. destruct r as [e|[]]; [|apply ret_inr in H as [_ [= <- <-]]; by left].
  destruct (negb _); [done|]. apply bind_inr in H as (c & [fs2 w2] & _ & H). destruct c; [done|]. right. by exists fs2, w2.
Qed.

Lemma deleted_and_polled dom h t (w : W) s1 fs1 fs' w' :
  tasks_complete S → DeleteRpmRepositoryVersion dom h w.(tw_pulp) = (inr (Some t), s1) →
  (_ ← pulp (db_call (PollTask dom t)); mret () : M W goerr ()) (fs1, set_pulp s1 w) = (inr (), (fs', w')) → ¬ version_there w'.(tw_pulp) h.
Proof.
  intros Hdone Hd (tr & [fs2 w2] & (s2 & Hp%call_inr & ->)%pulp_run & [_ [= _ <-]]%ret_inr)%bind_inr. cbn in *. eapply version_deleted; eauto.
Qed.

Lemma attempt_run now dom snap repo fs (w : W) fs' w' :
  tasks_complete S → attempt now dom snap repo (fs, w) = (inr (), (fs', w')) → ¬ version_there w'.(tw_pulp) snap.(s_VersionHref).
Proof.
  intros Hdone (o & [fs1 w1] & (s1 & Hd%call_inr & ->)%wrap_inr%pulp_run & H)%bind_inr. destruct o as [t|].
  - apply unblocking_run in H as [H|(fs2 & w2 & H)]; [by eapply deleted_and_polled|].
    apply bind_inr in H as (o & [fs3 w3] & (s3 & Hd3%call_inr & ->)%wrap_inr%pulp_run & H). destruct o as [t3|].
    + apply bind_inr in H as (tr & [fs4 w4] & (s4 & Hp%call_inr & ->)%wrap_inr%pulp_run & [_ [= _ <-]]%ret_inr). cbn in *. eapply version_deleted; eauto.
    + apply ret_inr in H as [_ [= _ <-]]. cbn. by eapply version_missing.
  - apply bind_inr in H as (v & [fs2 w2] & (s2 & Hv & ->)%try_run%pulp_run & H). destruct v; [|done]. apply ret_inr in H as [_ [= _ <-]]. cbn in *.
    apply version_missing in Hd. intros Hs. apply Hd. unfold db_call in Hv. pose proof (version_read dom (s_VersionHref snap) (s_VersionHref snap) s1) as Hr.
    destruct fs1 as [|[e|] fs1], (GetRpmRepositoryVersion _ _ s1) as [x s3]; simplify_eq/=; auto.
Qed.

Lemma version_gone now dom snap repo fs (w : W) fs' w' :
  tasks_complete S → deleteRepositoryVersion now dom snap repo (fs, w) = (inr (), (fs', w')) → ¬ version_there w'.(tw_pulp) snap.(s_VersionHref).
Proof. intros Hdone [H|(fs1 & w1 & H%wrap_inr)]%unblocking_run; by eapply attempt_run. Qed.
End Version.

(** ** One round of the task *)

Section Round.
Context {S C P : Type} `{HC : PulpClient S} `{HL : !PulpLaws S} `{HV : !PulpVersions S} `{HU : UuidText} {HUL : UuidLaws}.
Context (guards : bool) (scan : gmap uuid SnapRow → list (uuid * SnapRow)).
Context (scan_templates : gmap uuid TemplateRow → list (uuid * TemplateRow)).
Context (scan_trcs : gmap (uuid * uuid) TrcRow → list (uuid * uuid * TrcRow)).
Context (sql_like : string → string → bool) (sql_order : string → list (uuid * TemplateRow) → list (uuid * TemplateRow)).
Context (snapshots_enabled : bool) (content_path : goerr + string) (retain : Z).
Context (tasks : gmap uuid TaskView) (url_Path : string → goerr + string).
Context (range : gmap string (uuid * SnapRow) → list (string * (uuid * SnapRow))).
Hypothesis scan_perm : ∀ m, scan m ≡ₚ map_to_list m.
Hypothesis scan_templates_perm : ∀ m, scan_templates m ≡ₚ map_to_list m.
Hypothesis scan_trcs_perm : ∀ m, scan_trcs m ≡ₚ map_to_list m.
Hypothesis sql_order_perm : ∀ o l, sql_order o l ≡ₚ l.
Hypothesis range_perm : ∀ m, range m ≡ₚ map_to_list m.
#[local] Set Default Proof Using "Type*".
Abbreviation W := (tworld S C P).
Abbreviation delete_found := (delete_found guards scan scan_templates scan_trcs sql_like sql_order snapshots_enabled content_path retain tasks url_Path range).
Abbreviation delete_one := (delete_one guards scan scan_templates scan_trcs sql_like sql_order snapshots_enabled content_path retain tasks url_Path range).

(** The rows of templates: those of the snapshot are removed, or refer to another one; the others are as they were. *)
Record rows_replaced (clock : string → time) (orgID : string) (u rc : uuid) (d : db) (rows : gmap (uuid * uuid) TrcRow) : Prop := {
  rr_gone k x : rows !! k = Some x → x.(x_SnapshotUUID) ≠ u;
  rr_kept k x : d.(trcs) !! k = Some x → x.(x_SnapshotUUID) ≠ u → rows !! k = Some x;
  rr_replaced tu t x : d.(templates) !! tu = Some t → template_live t = true → in_scope orgID t →
    d.(trcs) !! (tu, rc) = Some x → x.(x_SnapshotUUID) = u →
    ∃ v s, snapshots_by_date scan d orgID [rc] (date_of clock tu t) = [(v, s)] ∧
      rows !! (tu, rc) = Some (mk_TrcRow v x.(x_DistributionHref) x.(x_DeletedAt)) }.

Lemma by_date_live d orgID repos date v s : (v, s) ∈ snapshots_by_date scan d orgID repos date → d.(snapshots) !! v = Some s ∧ is_live s = true.
Proof.
  intros [[_ Hl] Hin]%list_elem_of_filter. rewrite scan_perm in Hin. apply elem_of_map_to_list in Hin. cbn in Hl. unfold is_live. by rewrite Hl.
Qed.

Lemma update_and_delete_rows now clock orgID u s fs (w : W) m fs1 w1 fs2 w2 :
  content_ok w.(tw_db) → w.(tw_db).(snapshots) !! u = Some s → is_live s = false →
  updateTemplatesUsingSnap scan scan_templates scan_trcs sql_like sql_order snapshots_enabled content_path retain now clock orgID (u, s) (fs, w) =
    (inr m, (fs1, w1)) →
  dao (DeleteTemplateSnapshot (uuid_String u)) (fs1, w1) = (inr (), (fs2, w2)) →
  ∃ rows, w2 = set_db (set_trcs (λ _, rows) w.(tw_db)) w ∧ rows_replaced clock orgID u s.(s_RepositoryConfigurationUUID) w.(tw_db) rows ∧
    ∀ tu t x, w.(tw_db).(templates) !! tu = Some t → template_live t = true → in_scope orgID t →
      w.(tw_db).(trcs) !! (tu, s.(s_RepositoryConfigurationUUID)) = Some x → x.(x_SnapshotUUID) = u →
      ∃ vs, snapshots_by_date scan w.(tw_db) orgID [s.(s_RepositoryConfigurationUUID)] (date_of clock tu t) = [vs] ∧ m !! uuid_String tu = Some vs.
Proof.
  intros Hok Hs Hl (ts & [fs0 w0] & H%templates_using_run & Hr)%bind_inr; [|done..]. destruct H as (-> & Hdesc & Hall).
  apply replace_snapshots_run in Hr as (tr & -> & Hout & Hin & _); [|intros r Hi; destruct (Hdesc r Hi) as (tu & t & ? & _); eauto].
  intros (d2 & [= <-]%map_err_inr%call_inr & ->)%dao_run. rewrite Uuidify_String. eexists. split; [reflexivity|]. cbn. split; [|intros tu t x Ht Htl Hsc Hx Hxu;
    destruct (Hall tu t Ht Htl Hsc) as (r & Hr & Hd); [by exists s.(s_RepositoryConfigurationUUID), x|];
    destruct (Hin r tu t Hr Hd) as (v & s' & Hv & _ & Hmv); by exists (v, s')].
  assert (∀ v s' orgID repos date, (v, s') ∈ snapshots_by_date scan (tw_db w) orgID repos date → v ≠ u) as Hne.
  { intros v s' ? ? ? [Hv Hlv]%by_date_live ->. congruence. }
  split.
  - by intros k x [_ ?]%map_lookup_filter_Some.
  - intros k x Hk Hx. apply map_lookup_filter_Some. split; [|done]. rewrite Hout; [done|].
    intros r Hr Hrc Hu. destruct (Hdesc r Hr) as (tu & t & (_ & Hu' & _) & rc' & y & Hy & Hyu).
    assert (tu = k.1) as -> by (apply uuid_String_inj; congruence).
    destruct (Hok _ _ _ Hy) as (_ & _ & s1 & Hs1 & Hr1). cbn in Hyu. rewrite Hyu, Hs in Hs1. injection Hs1 as <-.
    destruct k as [tu rc]. cbn in *. subst rc. rewrite Hr1 in Hk. congruence.
  - intros tu t x Ht Htl Hsc Hx Hxu. destruct (Hall tu t Ht Htl Hsc) as (r & Hr & Hd); [by exists s.(s_RepositoryConfigurationUUID), x|].
    destruct (Hin r tu t Hr Hd) as (v & s' & Hv & Htr & _). cbn in Hv, Htr. exists v, s'. split; [exact Hv|].
    apply map_lookup_filter_Some. rewrite Htr, Hx. split; [done|].
    cbn. eapply Hne. rewrite Hv. by left.
Qed.

(** What is left when a snapshot was removed; [calm]: no request has failed. *)
Record removed (calm : Prop) (clock : string → time) (dom orgID raw : string) (repo : RepoResponse) (u : uuid) (s : SnapRow) (w w' : W) : Prop := {
  rm_snapshots : w'.(tw_db).(snapshots) = delete u w.(tw_db).(snapshots);
  rm_templates : w'.(tw_db).(templates) = w.(tw_db).(templates);
  rm_repositories : w'.(tw_db).(repositories) = w.(tw_db).(repositories);
  rm_rows : rows_replaced clock orgID u s.(s_RepositoryConfigurationUUID) w.(tw_db) w'.(tw_db).(trcs);
  rm_not_last rc c : w'.(tw_db).(configs) !! rc = Some c → c.(c_LastSnapshotUUID) ≠ Some u;
  rm_last c : w.(tw_db).(configs) !! s.(s_RepositoryConfigurationUUID) = Some c → c.(c_OrgID) = orgID →
    c.(c_LastSnapshotUUID) = Some u → raw = uuid_String u →
    ∃ v, best newer (live_of w.(tw_db) s.(s_RepositoryConfigurationUUID)) = Some v ∧
      c_LastSnapshotUUID <$> w'.(tw_db).(configs) !! s.(s_RepositoryConfigurationUUID) = Some (Some v.1);
  rm_latest : latest_fresh dom s.(s_RepositoryConfigurationUUID) w.(tw_db) (dists w'.(tw_pulp));
  rm_unserved : unserved dom s (dists w'.(tw_pulp));
  rm_version : ¬ version_there w'.(tw_pulp) s.(s_VersionHref);
  rm_moved tu t x href : calm → w.(tw_db).(templates) !! tu = Some t → template_live t = true → in_scope orgID t →
    w.(tw_db).(trcs) !! (tu, s.(s_RepositoryConfigurationUUID)) = Some x → x.(x_SnapshotUUID) = u → x.(x_DistributionHref) = Some href →
    ∃ v s', snapshots_by_date scan w.(tw_db) orgID [s.(s_RepositoryConfigurationUUID)] (date_of clock tu t) = [(v, s')] ∧
      serves_instead (S := S) url_Path guards dom repo (uuid_String tu) s' (dists w'.(tw_pulp)) }.

Lemma pulp_content_run now dom s repo m fs (w : W) fs' w' :
  tasks_complete S → plain fs →
  deleteOrUpdatePulpContent guards scan_templates scan_trcs snapshots_enabled content_path retain url_Path range now dom s repo m (fs, w) =
    (inr (), (fs', w')) →
  plain fs' ∧ w'.(tw_db) = w.(tw_db) ∧ latest_fresh dom repo.(p_UUID) w.(tw_db) (dists w'.(tw_pulp)) ∧ unserved dom s (dists w'.(tw_pulp)) ∧
  ¬ version_there w'.(tw_pulp) s.(s_VersionHref) ∧
  (fs = [] → ∀ t us, m !! t = Some us → href_stored repo t w.(tw_db) →
     serves_instead (S := S) url_Path guards dom repo t us.2 (dists w'.(tw_pulp))).
Proof.
  intros Hdone Hf ([] & [fs1 w1] & H1 & ([] & [fs2 w2] & H2 & ([] & [fs3 w3] & H3 & H4)%bind_inr)%bind_inr)%bind_inr.
  assert (plain fs1) as Hf1.
  { eapply plain_run; [|exact H1|done]. apply consumes_iter. intros [? ?]. apply consumes_template_distribution. }
  assert (plain fs2) as Hf2 by (eapply plain_run; [|exact H2|done]; apply consumes_update_latest).
  assert (plain fs3) as Hf3 by (eapply plain_run; [|exact H3|done]; apply consumes_snapshot_distribution).
  split; [eapply plain_run; [|exact H4|done]; apply consumes_delete_version|].
  assert (tw_db w1 = tw_db w) as E1.
  { eapply (preserves_iter same_db); [|exact H1]. intros [? ?]. apply same_db_template_distribution. }
  pose proof (same_db_update_latest _ _ _ _ _ _ _ _ H2) as E2. unfold same_db in E2.
  pose proof (shrinks_snapshot_distribution _ _ _ _ _ _ _ H3) as [E3 S3].
  pose proof (shrinks_delete_version _ _ _ _ _ _ _ _ _ _ _ _ _ _ _ H4) as [E4 S4].
  split; [congruence|]. pose proof (λ k i, update_latest_elsewhere _ _ _ _ _ _ _ k i Hdone H2) as L2.
  apply update_latest_run in H2; [|done|by apply plain_honest]. apply deleteSnapshotDistribution_run in H3; [|done].
  split; [rewrite <- E1; by do 2 (eapply latest_fresh_shrinks; [done|])|]. split; [by eapply unserved_shrinks|].
  split; [by eapply version_gone|]. intros -> t us Hm Hst.
  apply template_distributions_updated in H1 as (_ & Hs & _); [|done|rewrite range_perm; apply NoDup_fst_map_to_list|].
  2: { intros t0 us0 w0 fs0 w0' H0. eapply consumes_nil; [|exact H0]. apply consumes_template_distribution. }
  eapply serves_instead_less, Hs; [|rewrite range_perm; by apply elem_of_map_to_list|done].
  intros k i Hk Hi. apply (L2 k i Hk). eapply lookup_weaken; [|exact S3]. by eapply lookup_weaken.
Qed.

Lemma delete_found_run now clock dom orgID raw u s repo fs (w : W) fs' w' :
  content_ok w.(tw_db) → tasks_complete S → plain fs → pg_uuid raw = Some u → w.(tw_db).(snapshots) !! u = Some s → is_live s = false →
  repo.(p_UUID) = s.(s_RepositoryConfigurationUUID) →
  (∀ c, w.(tw_db).(configs) !! s.(s_RepositoryConfigurationUUID) = Some c → c.(c_OrgID) = orgID → repo.(p_LastSnapshotUUID) = c.(c_LastSnapshotUUID)) →
  delete_found now clock dom orgID raw (u, s) repo (fs, w) = (inr (), (fs', w')) → removed (fs = []) clock dom orgID raw repo u s w w'.
Proof.
  intros Hok Hdone Hf Hu Hs Hl Hrc Hlast (m & [fs1 w1] & H1%wrap_inr & ([] & [fs2 w2] & H2%wrap_inr & H)%bind_inr)%bind_inr.
  assert (plain fs1) as Hf1 by (eapply plain_run; [|exact H1|done]; apply consumes_updateTemplates).
  assert (plain fs2) as Hf2 by (eapply plain_run; [|exact H2|done]; unfold DeleteTemplateSnapshot; consumes_tac).
  destruct (update_and_delete_rows _ _ _ _ _ _ _ _ _ _ _ _ Hok Hs Hl H1 H2) as (rows & -> & Hrows & Hmap).
  assert (fs = [] → fs2 = []) as Hn2.
  { intros ->. assert (fs1 = []) as -> by (eapply consumes_nil; [|exact H1]; apply consumes_updateTemplates).
    eapply consumes_nil; [|exact H2]. unfold DeleteTemplateSnapshot. consumes_tac. }
  clear H1 H2.
  apply bind_inr in H as ([] & [fs3 w3] & H3 & ([] & [fs4 w4] & H4%wrap_inr & H5)%bind_inr). rewrite Hrc in *.
  set (rc := s_RepositoryConfigurationUUID s) in *.
  assert (plain fs3 ∧ (fs2 = [] → fs3 = []) ∧ ∃ cs, w3 = set_db (set_configs (λ _, cs) (set_trcs (λ _, rows) w.(tw_db))) w ∧ same_views w.(tw_db).(configs) cs ∧
    (default "" (uuid_String <$> repo.(p_LastSnapshotUUID)) = raw → ∃ v, best newer (live_of w.(tw_db) rc) = Some v ∧
       ∀ c, w.(tw_db).(configs) !! rc = Some c → c.(c_OrgID) = orgID → c_LastSnapshotUUID <$> cs !! rc = Some (Some v.1))) as (Hf3 & Hn3 & cs & -> & Hv & Hcs).
  { destruct (bool_decide_reflect (default "" (uuid_String <$> p_LastSnapshotUUID repo) = raw)) as [He|He].
    - apply wrap_inr in H3. split; [eapply plain_run; [|exact H3|done]; apply consumes_updateRepoConfig|].
      split; [intros ->; eapply consumes_nil; [|exact H3]; apply consumes_updateRepoConfig|].
      apply updateRepoConfig_run in H3 as (v & cs & Hb & -> & Hv & Hc). exists cs. split; [done|]. split; [done|]. intros _. by exists v.
    - apply ret_inr in H3 as [_ [= <- <-]]. split; [done|]. split; [done|]. exists w.(tw_db).(configs). by split. }
  apply pulp_content_run in H4 as (Hf4 & Hdb4 & Hfresh & Huns & Hver & Hmoved); [|done..]. rewrite Hrc in Hfresh. fold rc in Hfresh.
  assert (w4.(tw_db).(snapshots) !! u = Some s) as Hs4 by by rewrite Hdb4.
  rewrite (Delete_found _ _ _ _ _ _ _ _ Hf4 Hu Hs4 H5), Hdb4. split; cbn; try done.
  - intros rc' c. rewrite lookup_fmap. intros (c0 & _ & ->)%fmap_Some. destruct (_ == Some u) eqn:Hb; [done|by apply bool_decide_eq_false in Hb].
  - intros c Hc Ho Hcl ->. rewrite (Hlast c Hc Ho), Hcl in Hcs. destruct (Hcs eq_refl) as (v & Hb & Hc'). exists v. split; [done|].
    specialize (Hc' c Hc Ho). rewrite lookup_fmap. fold rc. destruct (cs !! rc) as [c1|]; [|done]. cbn in Hc' |- *. injection Hc' as Hc1.
    rewrite bool_decide_false; [by rewrite Hc1|]. rewrite Hc1. intros [= Hvu].
    apply (best_some newer newer_irrefl newer_trans) in Hb as [[[_ Hlv] Hin]%list_elem_of_filter _]. destruct v as [v sv]. cbn in *. subst v.
    apply elem_of_map_to_list in Hin. rewrite Hs in Hin. injection Hin as <-. unfold is_live in Hl. by rewrite Hlv in Hl.
  - intros i href Hi Hh Hne. destruct (Hfresh i href Hi Hh Hne) as (us & He & Hp). exists us. split; [|done]. rewrite <- He. symmetry.
    by apply effective_latest_views.
  - intros tu t x href Hcalm Ht Htl Hsc Hx Hxu Hh. destruct (rr_replaced _ _ _ _ _ _ Hrows tu t x Ht Htl Hsc Hx Hxu) as (v & s' & Hv' & Hrow).
    destruct (Hmap tu t x Ht Htl Hsc Hx Hxu) as (vs & Hvs & Hmv). assert ([vs] = [(v, s')]) as [= ->] by exact (eq_trans (eq_sym Hvs) Hv').
    exists v, s'. split; [done|]. apply (Hmoved (Hn3 (Hn2 Hcalm)) _ _ Hmv). rewrite <- Hrc in Hrow. exists tu. by eexists _, href.
Qed.

Lemma removed_calm (calm calm' : Prop) clock dom orgID raw repo u s (w w' : W) :
  (calm' → calm) → removed calm clock dom orgID raw repo u s w w' → removed calm' clock dom orgID raw repo u s w w'.
Proof. intros Hc []. split; eauto. Qed.

(** [C26] A deleted snapshot is gone. Suppose that the rows of templates refer to existing templates and to snapshots of their
    repository, and that Pulp cancels and skips no task that is waited for. When a round of the task succeeds for a snapshot
    that is marked as deleted, after any failures that do not look like a missing row, then either there was nothing to do (no
    row of this UUID, or the configuration is not found) and nothing has changed, or: exactly the row of the snapshot has been
    removed; no template refers to it any more: every live template in scope that did refers to the snapshot that its date
    selects now, with its distribution kept, and the rows of other snapshots are as they were; no configuration has it as its
    last snapshot, and its own configuration, if it is the organization's and the payload spells the UUID in its canonical
    form, has the newest live one instead if it had it; the distribution of the snapshot is gone, and so is its version in
    Pulp; [/latest], if there is one, serves the effective latest snapshot; and, when no request failed, the distribution of
    each of these templates whose href was stored (not null) and whose path is its own, if it is there, serves the snapshot
    that replaces the deleted one, behind the guard of the repository. *)
Theorem snapshot_deletion_complete now clock dom orgID raw fs (w : W) fs' w' :
  content_ok w.(tw_db) → tasks_complete S → plain fs →
  (∀ u s, pg_uuid raw = Some u → w.(tw_db).(snapshots) !! u = Some s → is_live s = false) →
  delete_one now clock dom orgID raw (fs, w) = (inr (), (fs', w')) →
  (w' = w ∧ ∃ u, pg_uuid raw = Some u ∧
     (w.(tw_db).(snapshots) !! u = None ∨
      ∃ s fs1 e fs2, w.(tw_db).(snapshots) !! u = Some s ∧ is_dao_not_found e = true ∧
        RepoConfig_Fetch tasks snapshots_enabled content_path orgID (uuid_String s.(s_RepositoryConfigurationUUID)) (fs1, w.(tw_db)) =
          (inl e, (fs2, w.(tw_db))))) ∨
  ∃ u s repo, pg_uuid raw = Some u ∧ w.(tw_db).(snapshots) !! u = Some s ∧ repo.(p_UUID) = s.(s_RepositoryConfigurationUUID) ∧
    (∃ fs1 fs2, RepoConfig_Fetch tasks snapshots_enabled content_path orgID (uuid_String s.(s_RepositoryConfigurationUUID)) (fs1, w.(tw_db)) =
       (inr repo, (fs2, w.(tw_db)))) ∧
    removed (fs = []) clock dom orgID raw repo u s w w'.
Proof.
  intros Hok Hdone Hf Hmark (r & [fs1 w1] & Hm%try_run & H)%bind_inr.
  assert (plain fs1) as Hf1 by (eapply plain_run; [|exact Hm|done]; unfold FetchModel, first_snapshot; consumes_tac).
  assert (fs = [] → fs1 = []) as Hn1 by (intros ->; eapply consumes_nil; [|exact Hm]; unfold FetchModel, first_snapshot; consumes_tac).
  apply dao_run in Hm as (d1 & Hm & ->). destruct r as [e|[u s]].
  - destruct (is_dao_not_found e) eqn:He; [|done]. apply ret_inr in H as [_ [= <- <-]]. left.
    unfold FetchModel, map_err in Hm. destruct (first_snapshot _ _ _ _) as [[e1|?] [fs2 d2]] eqn:Ef in Hm; [|done]. injection Hm as <- -> ->.
    apply call_cases in Ef as [(e2 & [= ->] & -> & He2)|Ef]; [by rewrite (plain_snapshot_error e2 _ (Hf _ He2)) in He|].
    destruct (pg_uuid raw) as [u|]; [|by injection Ef as <- _].
    destruct (snapshots (tw_db w) !! u) as [s|] eqn:Hs; [by rewrite andb_false_r in Ef || done|]. injection Ef as _ <-.
    split; [by destruct w|]. exists u. split; [done|]. by left.
  - apply FetchModel_run in Hm as (-> & Hu & Hs & _). assert (set_db (tw_db w) w = w) as Hw by by destruct w. rewrite Hw in H. cbn in H.
    apply bind_inr in H as (r & [fs2 w2] & Hr%try_run & H). apply dao_run in Hr as (d2 & Hr & ->).
    destruct r as [e|repo].
    + destruct (is_dao_not_found e) eqn:He; [|done]. apply ret_inr in H as [_ [= <- <-]]. left.
      pose proof (RepoConfig_Fetch_keeps _ _ _ _ _ _ _ _ _ _ Hr) as ->. split; [done|]. exists u. split; [done|]. right. by exists s, fs1, e, fs2.
    + assert (plain fs2) as Hf2.
      { eapply plain_run; [|exact Hr|done]. unfold RepoConfig_Fetch, fetch_loaded, fetchRepoConfig, preload_associations, override_one, db_noop.
        consumes_tac. intros fs0 d0. destruct (consumes_call (λ d, (inr (best newer (published_of d (l_UUID a))), d)) fs0 d0) as [n Hn].
        exists n. rewrite <- Hn. by destruct (db_call _ _) as [[] []]. }
      assert (fs = [] → fs2 = []) as Hn.
      { intros ->%Hn1. eapply consumes_nil; [|exact Hr].
        unfold RepoConfig_Fetch, fetch_loaded, fetchRepoConfig, preload_associations, override_one, db_noop. consumes_tac.
        intros fs0 d0. destruct (consumes_call (λ d, (inr (best newer (published_of d (l_UUID a))), d)) fs0 d0) as [n Hn].
        exists n. rewrite <- Hn. by destruct (db_call _ _) as [[] []]. }
      pose proof (RepoConfig_Fetch_keeps _ _ _ _ _ _ _ _ _ _ Hr) as ->. pose proof Hr as Hr'.
      apply RepoConfig_Fetch_run in Hr as (_ & Hid & c & Hc & _ & Hcl). rewrite Hw in H. right. exists u, s, repo. split_and!; [done..|eauto|].
      eapply removed_calm, delete_found_run; [exact Hn|done..|by eapply Hmark|done| |exact H]. intros c' Hc' Ho. rewrite Hc in Hc'. injection Hc' as <-. auto.
Qed.
End Round.

#[local] Existing Instances Ex.uuid_text Ex.uuid_laws.

Module DeleteEx.
Definition gone : SnapRow :=
  mk_SnapRow 1 (20 * Second)%Z (Some (30 * Second)%Z) "version6" "publication6" "path6" "repo6" (mem_dist_href "cs" "path6") ∅ ∅ ∅ "" false.
Definition template : TemplateRow := mk_TemplateRow "t" "org" "" (5 * Second)%Z "9" "x86_64" "" "" None "" "" true false None None.
Definition d : db :=
  mk_db {[1%N := set_last_snapshot (Some 6%N) (Ex.config 11 "org" false)]} {[11%N := Ex.repository "https://a/" OriginExternal false]}
    (<[5%N := Ex.snap 1 (10 * Second)%Z false]> {[6%N := gone]}) {[31%N := template]} {[(31%N, 1%N) := mk_TrcRow 6 (Some "dist") None]}.
Definition latest : string := GetLatestRepoDistPath (Ex.text 1).
Definition dist (path : string) : DistInfo := mk_DistInfo (Some (mem_dist_href "cs" path)) "name" (Some (Some "publication6")) None.
Definition w : tworld mem () () :=
  mk_tw d ∅ [] (mk_mem (<[("cs", latest) := dist latest]> {[("cs", "path6") := dist "path6"]}) ∅ ∅ [] ∅) () () ().
Definition delete_one : string → M (tworld mem () ()) goerr () :=
  delete_one true map_to_list map_to_list map_to_list (λ _ _, true) (λ _ l, l) true (inr "https://pulp/") 365 ∅ (λ _, inr "/x/") map_to_list
    (40 * Second)%Z (λ _, (40 * Second)%Z) "cs" "org".
End DeleteEx.

Lemma snapshot_deletion_complete_witness : ∃ w', let d' := w'.(tw_db) in
  DeleteEx.delete_one (Ex.text 6) ([], DeleteEx.w) = (inr (), ([], w')) ∧ d'.(snapshots) !! 6%N = None ∧
  (∀ k x, d'.(trcs) !! k = Some x → x.(x_SnapshotUUID) ≠ 6%N) ∧ d'.(trcs) !! (31%N, 1%N) = Some (mk_TrcRow 5 (Some "dist") None) ∧
  c_LastSnapshotUUID <$> d'.(configs) !! 1%N = Some (Some 5%N) ∧ latest_fresh "cs" 1 DeleteEx.d (dists w'.(tw_pulp)) ∧
  ¬ version_there w'.(tw_pulp) "version6".
Proof.
  assert (content_ok DeleteEx.d) as Hok.
  { intros tu rc x Hx. change (({[(31%N, 1%N) := mk_TrcRow 6 (Some "dist") None]} : gmap (uuid * uuid) TrcRow) !! (tu, rc) = Some x) in Hx.
    apply lookup_singleton_Some in Hx as [[= <- <-] <-]. split; [by eexists|]. split; [by eexists|]. exists DeleteEx.gone. by split; [vm_compute|]. }
  assert (plain []) as Hf by by intros e ?%not_elem_of_nil.
  assert (∀ u, pg_uuid (Ex.text 6) = Some u → u = 6%N) as Hu by (vm_compute; intros; by simplify_eq).
  assert (∀ s, DeleteEx.d.(snapshots) !! 6%N = Some s → s = DeleteEx.gone) as Hs by (vm_compute; intros; by simplify_eq).
  pose proof (snapshot_deletion_complete true map_to_list map_to_list map_to_list (λ _ _, true) (λ _ l, l) true (inr "https://pulp/") 365 ∅
    (λ _, inr "/x/") map_to_list (λ _, reflexivity _) (λ _, reflexivity _) (λ _, reflexivity _) (λ _ _, reflexivity _) (λ _, reflexivity _)
    (40 * Second)%Z (λ _, (40 * Second)%Z) "cs" "org" (Ex.text 6) [] DeleteEx.w) as H.
  destruct (DeleteEx.delete_one (Ex.text 6) ([], DeleteEx.w)) as [r [fs' w']] eqn:E.
  assert (r = inr () ∧ fs' = [] ∧ w'.(tw_db).(snapshots) !! 6%N = None) as (-> & -> & Hn) by (revert E; vm_compute; intros E; by simplify_eq).
  specialize (H [] w' Hok mem_complete Hf). exists w'. split; [reflexivity|].
  destruct H as [(-> & _)|(u & s & repo & ->%Hu & ->%Hs & _ & _ & Hrm)]; [|exact E|discriminate Hn|].
  { intros u s ->%Hu ->%Hs. reflexivity. }
  clear E Hn Hok Hf Hu Hs. destruct Hrm as [H1 _ _ [R1 _ R3] _ H5 H6 _ Hver _]. split_and!; [by rewrite H1, lookup_delete_eq|exact R1| | |exact H6|exact Hver].
  - destruct (R3 31%N DeleteEx.template (mk_TrcRow 6 (Some "dist") None)) as (v & s & Hv & Hr); [done|done|by right|done|done|].
    assert (v = 5%N) as -> by (revert Hv; vm_compute; intros; by simplify_eq). exact Hr.
  - destruct (H5 (set_last_snapshot (Some 6%N) (Ex.config 11 "org" false))) as (v & Hv & Hl); [done..|].
    assert (v.1 = 5%N) as <- by (revert Hv; vm_compute; intros; by simplify_eq). exact Hl.
Defined.
