(* ===== verification/Candlepin.v ===== *)
(** * The Candlepin client: clients/candlepin_client

    The functions of content.go, product.go, pool.go and environment.go that the tasks use, over the generated client as the
    class [CandlepinApi]; what the tasks rely on of the service is [CandlepinLaws], and [cpmem] is a Candlepin in memory. *)

From S2P Require Import Prelude GoStrings GoSplit Config TxMonad Utils Errors GoText SnapshotDao TemplateDao TaskEnv.
From stdpp Require Import options.

Open Scope string_scope.

(** ** Transfer objects (caliri) *)

Record ContentDTO := mk_ContentDTO {
  ct_Id : option string; ct_Type : option string; ct_Label : option string; ct_Name : option string; ct_Vendor : option string;
  ct_GpgUrl : option string; ct_ContentUrl : option string }.
Record ContentOverrideDTO := mk_ContentOverrideDTO { ov_Name : option string; ov_ContentLabel : option string; ov_Value : option string }.
(** [ev_Content]: [GetContentId] of the contents. *)
Record EnvironmentDTO := mk_EnvironmentDTO { ev_Name : option string; ev_Content : list string }.

(** A failed request: the status and the body of the response if there is one, and the error. *)
Record ApiError := mk_ApiError { ae_Response : option (Z * string); ae_Error : goerr }.
Definition not_found_response (e : ApiError) : bool := match e.(ae_Response) with Some (status, _) => (status =? 404)%Z | None => false end.

Class CandlepinApi (C : Type) := {
  GetContentsByOwner (owner : string) (labels : list string) : C → (ApiError + list ContentDTO) * C;
  api_CreateContentBatch (owner : string) (content : list ContentDTO) : C → (ApiError + ()) * C;
  api_CreateContent (owner : string) (content : ContentDTO) : C → (ApiError + ()) * C;
  api_UpdateContent (owner id : string) (content : ContentDTO) : C → (ApiError + ()) * C;
  GetContentById (owner id : string) : C → (ApiError + ContentDTO) * C;
  RemoveContent (owner id : string) : C → (ApiError + ()) * C;
  GetProductById (owner id : string) : C → (ApiError + string) * C;
  api_CreateProduct (owner id : string) : C → (ApiError + ()) * C;
  AddContentsToProduct (owner id : string) (contents : list string) : C → (ApiError + ()) * C;
  api_RemoveContentFromProduct (owner id content : string) : C → (ApiError + ()) * C;
  GetProductsByOwner (owner : string) (ids : list string) : C → (ApiError + list string) * C;
  (** The identifiers of pools. *)
  ListOwnerPools (owner product : string) : C → (ApiError + list (option string)) * C;
  api_CreatePool (owner product : string) : C → (ApiError + option string) * C;
  api_CreateEnvironment (owner id name prefix : string) : C → (ApiError + EnvironmentDTO) * C;
  GetEnvironment (id : string) : C → (ApiError + EnvironmentDTO) * C;
  UpdateEnvironment (id name : string) : C → (ApiError + EnvironmentDTO) * C;
  api_DeleteEnvironment (id : string) : C → (ApiError + ()) * C;
  PromoteContent (id : string) (contents : list string) : C → (ApiError + ()) * C;
  DemoteContent (id : string) (contents : list string) : C → (ApiError + ()) * C;
  PutEnvironmentContentOverrides (id : string) (dtos : list ContentOverrideDTO) : C → (ApiError + ()) * C;
  GetEnvironmentContentOverrides (id : string) : C → (ApiError + list ContentOverrideDTO) * C;
  DeleteEnvironmentContentOverrides (id : string) (dtos : list ContentOverrideDTO) : C → (ApiError + ()) * C
}.

(** ** client.go and owner.go *)

Definition DevelOrgKey : string := "content-sources-test".
Definition YumRepoType : string := "yum".
Definition OverrideNameBaseUrl : string := "baseurl".
Definition OverrideNameCaCert : string := "sslcacert".
Definition OverrideSSLVerifyStatus : string := "sslverifystatus".
Definition OverrideModuleHotfixes : string := "module_hotfixes".

(** Of the error with the body only the text is looked at. *)
Definition errorWithResponseBody (message : string) (e : ApiError) : goerr :=
  match e.(ae_Response) with
  | Some (_, body) => ErrWrapped message (ErrPlain (Error e.(ae_Error) +:+ ": " +:+ body))
  | None => e.(ae_Error)
  end.

(** [strings.ReplaceAll(s, "-", "")] *)
Definition GetContentID (repoConfigUUID : string) : string := of_chars (base.filter (λ a, a ≠ "-"%char) (chars repoConfigUUID)).
Definition GetProductID (ownerKey : string) : string := "product-" +:+ ownerKey.

Section Client.
Context {C : Type} `{CandlepinApi C} (DevelOrg : bool).
Abbreviation CM := (M C goerr).

Definition OwnerKey (orgID : string) : string := if DevelOrg then DevelOrgKey else orgID.

(** A request; before it the client is set up, which may fail. [handle] is given the error of the request. *)
Definition request {A B} (f : C → (ApiError + A) * C) (handle : ApiError → goerr + B) (ok : A → B) : CM B :=
  db_call (λ c, let '(r, c') := f c in (match r with inl e => handle e | inr a => inr (ok a) end, c')).
Definition failing {B} (message : string) (e : ApiError) : goerr + B := inl (errorWithResponseBody message e).
Definition or_else {B} (none : B) (message : string) (e : ApiError) : goerr + B :=
  if not_found_response e then inr none else inl (errorWithResponseBody message e).

(** ** content.go *)

Definition ListContents (orgID : string) : CM (list string * list string) :=
  contents ← request (GetContentsByOwner (OwnerKey orgID) []) (failing "could not fetch contents for owner") id;
  match mapM ct_Label contents, mapM ct_Id contents with
  | Some labels, Some ids => mret (labels, ids)
  | _, _ => throw Panic
  end.

Definition CreateContentBatch (orgID : string) (content : list ContentDTO) : CM () :=
  request (api_CreateContentBatch (OwnerKey orgID) content) (failing "couldn't create content batch") id.

Definition CreateContent (orgID : string) (content : ContentDTO) : CM () :=
  request (api_CreateContent (OwnerKey orgID) content) (failing "couldn't create content batch") id.

Definition UpdateContent (orgID repoConfigUUID : string) (content : ContentDTO) : CM () :=
  request (api_UpdateContent (OwnerKey orgID) (GetContentID repoConfigUUID) content) (failing "couldn't update content") id.

(** The labels of the answer are read, and dropped. *)
Definition FetchContentsByLabel (orgID : string) (labels : list string) : CM (list ContentDTO) :=
  match labels with
  | [] => mret []
  | _ =>
      contents ← request (GetContentsByOwner (OwnerKey orgID) labels) (failing "could not fetch contents for owner") id;
      match mapM ct_Label contents with Some _ => mret contents | None => throw Panic end
  end.

Definition FetchContent (orgID repoConfigUUID : string) : CM (option ContentDTO) :=
  request (GetContentById (OwnerKey orgID) (GetContentID repoConfigUUID)) (or_else None "couldn't fetch content") Some.

Definition DeleteContent (orgID repoConfigUUID : string) : CM () :=
  request (RemoveContent (OwnerKey orgID) (GetContentID repoConfigUUID)) (or_else () "couldn't delete content") id.

(** ** product.go *)

Definition FetchProduct (orgID productID : string) : CM (option string) :=
  request (GetProductById (OwnerKey orgID) productID) (or_else None "couldn't fetch product") Some.

(** The client is set up once more. *)
Definition CreateProduct (orgID : string) : CM () :=
  _ ← (db_noop : CM ());
  let productID := GetProductID (OwnerKey orgID) in
  found ← FetchProduct (OwnerKey orgID) productID;
  match found with
  | Some _ => mret ()
  | None => request (api_CreateProduct (OwnerKey orgID) productID) (failing "couldn't create product") id
  end.

Definition AddContentBatchToProduct (orgID : string) (contentIDs : list string) : CM () :=
  request (AddContentsToProduct (OwnerKey orgID) (GetProductID (OwnerKey orgID)) (remove_dups contentIDs))
    (failing "couldn't add contents to product") id.

Definition RemoveContentFromProduct (orgID repoConfigUUID : string) : CM () :=
  request (api_RemoveContentFromProduct (OwnerKey orgID) (GetProductID (OwnerKey orgID)) (GetContentID repoConfigUUID))
    (or_else () "couldn't remove content from product") id.

(** An error of the set-up of the client is dropped. *)
Definition ListProducts (orgID : string) (productIDs : list string) : CM (list string) := λ w,
  match (db_noop : CM ()) w with
  | (inl _, w') => (inr [], w')
  | (inr _, (fs', c)) =>
      let '(r, c') := GetProductsByOwner (OwnerKey orgID) productIDs c in
      (match r with inl e => or_else [] "couldn't list products" e | inr ps => inr ps end, (fs', c'))
  end.

(** ** pool.go *)

(** The number of pools is looked at before the error: a failed request reads as an owner without a pool. *)
Definition FetchPool (orgID : string) : CM (option (option string)) :=
  request (ListOwnerPools (OwnerKey orgID) (GetProductID (OwnerKey orgID))) (λ _, inr None) head.

Definition CreatePool (orgID : string) : CM string :=
  _ ← (db_noop : CM ());
  found ← FetchPool (OwnerKey orgID);
  match found with
  | Some id => mret (default "" id)
  | None => request (api_CreatePool (OwnerKey orgID) (GetProductID (OwnerKey orgID))) (failing "couldn't create pool") (default "")
  end.

(** ** environment.go *)

Definition CreateEnvironment (orgID name templateUUID prefix : string) : CM EnvironmentDTO :=
  request (api_CreateEnvironment (OwnerKey orgID) (GetEnvironmentID templateUUID) name prefix) (failing "couldn't create environment") id.

Definition FetchEnvironment (templateID : string) : CM (option EnvironmentDTO) :=
  request (GetEnvironment (GetEnvironmentID templateID)) (or_else None "couldn't fetch environment") Some.

Definition PromoteContentToEnvironment (templateID : string) (repoConfigUUIDs : list string) : CM () :=
  request (PromoteContent (GetEnvironmentID templateID) (GetContentID <$> repoConfigUUIDs)) (failing "couldn't promote content to environment") id.

Definition DemoteContentFromEnvironment (templateID : string) (repoConfigUUIDs : list string) : CM () :=
  request (DemoteContent (GetEnvironmentID templateID) (GetContentID <$> repoConfigUUIDs)) (failing "couldn't promote content to environment") id.

Definition UpdateContentOverrides (templateID : string) (dtos : list ContentOverrideDTO) : CM () :=
  request (PutEnvironmentContentOverrides (GetEnvironmentID templateID) dtos) (failing "could not override environment contents") id.

Definition RemoveContentOverrides (templateUUID : string) (toRemove : list ContentOverrideDTO) : CM () :=
  request (DeleteEnvironmentContentOverrides (GetEnvironmentID templateUUID) toRemove) (failing "could not remove overrides") id.

Definition FetchContentOverrides (templateUUID : string) : CM (list ContentOverrideDTO) :=
  request (GetEnvironmentContentOverrides (GetEnvironmentID templateUUID)) (failing "could not fetch environment contents") id.

Definition DeleteEnvironment (templateUUID : string) : CM () :=
  request (api_DeleteEnvironment (GetEnvironmentID templateUUID)) (or_else () "couldn't delete environment") id.

Definition RenameEnvironment (templateUUID name : string) : CM EnvironmentDTO :=
  request (UpdateEnvironment (GetEnvironmentID templateUUID) name) (failing "couldn't update environment") id.
End Client.

Lemma request_inr {C A B} (f : C → (ApiError + A) * C) (handle : ApiError → goerr + B) ok fs c b fs' c' :
  request f handle ok (fs, c) = (inr b, (fs', c')) →
  (∃ a, f c = (inr a, c') ∧ b = ok a) ∨ ∃ e, f c = (inl e, c') ∧ handle e = inr b.
Proof.
  intros H%call_inr. destruct (f c) as [[e|a] c1]; [right|left]; simplify_eq; eauto.
Qed.
Lemma consumes_request {C A B} (f : C → (ApiError + A) * C) (handle : ApiError → goerr + B) ok : consumes (request f handle ok).
Proof. apply consumes_call. Qed.
#[export] Hint Resolve consumes_request : consumes.

(** ** What the tasks rely on *)

(** Requests that leave the environments alone. *)
Inductive cp_quiet {C} `{CandlepinApi C} : ∀ A, (C → (ApiError + A) * C) → Prop :=
  | cpq_contents o l : cp_quiet _ (GetContentsByOwner o l)
  | cpq_create_batch o l : cp_quiet _ (api_CreateContentBatch o l)
  | cpq_create_content o x : cp_quiet _ (api_CreateContent o x)
  | cpq_update_content o i x : cp_quiet _ (api_UpdateContent o i x)
  | cpq_content o i : cp_quiet _ (GetContentById o i)
  | cpq_product o i : cp_quiet _ (GetProductById o i)
  | cpq_create_product o i : cp_quiet _ (api_CreateProduct o i)
  | cpq_add o i l : cp_quiet _ (AddContentsToProduct o i l)
  | cpq_pools o p : cp_quiet _ (ListOwnerPools o p)
  | cpq_create_pool o p : cp_quiet _ (api_CreatePool o p)
  | cpq_environment i : cp_quiet _ (GetEnvironment i)
  | cpq_rename i n : cp_quiet _ (UpdateEnvironment i n)
  | cpq_overrides i : cp_quiet _ (GetEnvironmentContentOverrides i).

(** Requests before the contents are looked up, which leave them alone. *)
Inductive cp_keeps {C} `{CandlepinApi C} : ∀ A, (C → (ApiError + A) * C) → Prop :=
  | cpk_product o i : cp_keeps _ (GetProductById o i)
  | cpk_create_product o i : cp_keeps _ (api_CreateProduct o i)
  | cpk_pools o p : cp_keeps _ (ListOwnerPools o p)
  | cpk_create_pool o p : cp_keeps _ (api_CreatePool o p)
  | cpk_environment i : cp_keeps _ (GetEnvironment i)
  | cpk_create_environment o i n p : cp_keeps _ (api_CreateEnvironment o i n p).

Definition has_label (labels : list string) (x : ContentDTO) : Prop := x.(ct_Label) ∈ Some <$> labels.
#[global] Instance has_label_dec labels x : Decision (has_label labels x) := decide (x.(ct_Label) ∈ Some <$> labels).

(** An override is known by the label of the content and its name. *)
Definition override_key (o : ContentOverrideDTO) : option (string * string) := l ← o.(ov_ContentLabel); n ← o.(ov_Name); Some (l, n).
Definition override_entry (o : ContentOverrideDTO) : option (string * string * string) := k ← override_key o; v ← o.(ov_Value); Some (k, v).
Definition put_overrides (m : gmap (string * string) string) (dtos : list ContentOverrideDTO) : gmap (string * string) string :=
  foldl (λ m o, match override_entry o with Some (k, v) => <[k := v]> m | None => m end) m dtos.

Class CandlepinLaws (C : Type) `{CandlepinApi C} := {
  env_content : C → string → gset string;
  env_overrides : C → string → gmap (string * string) string;
  owner_contents : C → string → list ContentDTO;
  keeps_contents A f c o : cp_keeps A f → owner_contents (f c).2 o = owner_contents c o;
  labelled_contents o ls c cs c' : ls ≠ [] → GetContentsByOwner o ls c = (inr cs, c') → cs ≡ₚ base.filter (has_label ls) (owner_contents c o);
  quiet_environments A f c id : cp_quiet A f → env_content (f c).2 id = env_content c id ∧ env_overrides (f c).2 id = env_overrides c id;
  environment_content id c e c' : GetEnvironment id c = (inr e, c') → list_to_set e.(ev_Content) = env_content c id;
  renamed_content id n c e c' : UpdateEnvironment id n c = (inr e, c') → list_to_set e.(ev_Content) = env_content c id;
  created_content o id n p c e c' : api_CreateEnvironment o id n p c = (inr e, c') → list_to_set e.(ev_Content) = env_content c' id;
  promote_content id l c c' : PromoteContent id l c = (inr (), c') →
    env_content c' id = env_content c id ∪ list_to_set l ∧ env_overrides c' id = env_overrides c id;
  demote_content id l c c' : DemoteContent id l c = (inr (), c') →
    env_content c' id = env_content c id ∖ list_to_set l ∧ env_overrides c' id = env_overrides c id;
  put_content id l c c' : PutEnvironmentContentOverrides id l c = (inr (), c') →
    env_content c' id = env_content c id ∧ env_overrides c' id = put_overrides (env_overrides c id) l;
  get_overrides id c l c' : GetEnvironmentContentOverrides id c = (inr l, c') →
    override_entry <$> l ≡ₚ Some <$> map_to_list (env_overrides c id);
  delete_overrides id l c c' : DeleteEnvironmentContentOverrides id l c = (inr (), c') →
    env_content c' id = env_content c id ∧
    env_overrides c' id = base.filter (λ kv, kv.1 ∉ omap override_key l) (env_overrides c id)
}.

(** ** A Candlepin in memory *)

Record cpenv := mk_cpenv { ce_name : string; ce_content : list string; ce_overrides : gmap (string * string) string }.
Record cpmem := mk_cpmem { cm_envs : gmap string cpenv; cm_contents : list ContentDTO; cm_products : gset string; cm_pools : gmap string string }.
Definition cm_missing : ApiError := mk_ApiError (Some (404%Z, "")) (ErrPlain "404 Not Found").
Definition cm_set (f : gmap string cpenv → gmap string cpenv) (c : cpmem) : cpmem := mk_cpmem (f c.(cm_envs)) c.(cm_contents) c.(cm_products) c.(cm_pools).
Definition cm_dto (e : cpenv) : EnvironmentDTO := mk_EnvironmentDTO (Some e.(ce_name)) e.(ce_content).
Definition cm_override (kv : string * string * string) : ContentOverrideDTO := mk_ContentOverrideDTO (Some kv.1.2) (Some kv.1.1) (Some kv.2).

(** A change of an environment that is there. *)
Definition cm_change {A} (id : string) (f : cpenv → cpenv) (answer : cpenv → A) (c : cpmem) : (ApiError + A) * cpmem :=
  match c.(cm_envs) !! id with
  | Some e => (inr (answer (f e)), cm_set <[id := f e]> c)
  | None => (inl cm_missing, c)
  end.

#[global] Instance cpmem_api : CandlepinApi cpmem := {
  GetContentsByOwner o ls c := (inr (base.filter (λ x, ls = [] ∨ has_label ls x) c.(cm_contents)), c);
  api_CreateContentBatch o l c := (inr (), mk_cpmem c.(cm_envs) (c.(cm_contents) ++ l) c.(cm_products) c.(cm_pools));
  api_CreateContent o x c := (inr (), mk_cpmem c.(cm_envs) (c.(cm_contents) ++ [x]) c.(cm_products) c.(cm_pools));
  api_UpdateContent o i x c := (inr (), c);
  GetContentById o i c := (match head (base.filter (λ x, x.(ct_Id) = Some i) c.(cm_contents)) with Some x => inr x | None => inl cm_missing end, c);
  RemoveContent o i c := (inr (), mk_cpmem c.(cm_envs) (base.filter (λ x, x.(ct_Id) ≠ Some i) c.(cm_contents)) c.(cm_products) c.(cm_pools));
  GetProductById o i c := (if bool_decide (i ∈ c.(cm_products)) then inr i else inl cm_missing, c);
  api_CreateProduct o i c := (inr (), mk_cpmem c.(cm_envs) c.(cm_contents) ({[i]} ∪ c.(cm_products)) c.(cm_pools));
  AddContentsToProduct o i l c := (inr (), c);
  api_RemoveContentFromProduct o i x c := (inr (), c);
  GetProductsByOwner o ids c := (inr (base.filter (λ i, i ∈ c.(cm_products)) ids), c);
  ListOwnerPools o p c := (inr (match c.(cm_pools) !! p with Some i => [Some i] | None => [] end), c);
  api_CreatePool o p c := (inr (Some ("pool-" +:+ p)), mk_cpmem c.(cm_envs) c.(cm_contents) c.(cm_products) (<[p := "pool-" +:+ p]> c.(cm_pools)));
  api_CreateEnvironment o id n p c := let e := mk_cpenv n [] ∅ in (inr (cm_dto e), cm_set <[id := e]> c);
  GetEnvironment id c := (match c.(cm_envs) !! id with Some e => inr (cm_dto e) | None => inl cm_missing end, c);
  UpdateEnvironment id n := cm_change id (λ e, mk_cpenv n e.(ce_content) e.(ce_overrides)) cm_dto;
  api_DeleteEnvironment id c := (inr (), cm_set (delete id) c);
  PromoteContent id l := cm_change id (λ e, mk_cpenv e.(ce_name) (e.(ce_content) ++ l) e.(ce_overrides)) (λ _, ());
  DemoteContent id l := cm_change id (λ e, mk_cpenv e.(ce_name) (base.filter (λ x, x ∉ l) e.(ce_content)) e.(ce_overrides)) (λ _, ());
  PutEnvironmentContentOverrides id l := cm_change id (λ e, mk_cpenv e.(ce_name) e.(ce_content) (put_overrides e.(ce_overrides) l)) (λ _, ());
  GetEnvironmentContentOverrides id c :=
    (match c.(cm_envs) !! id with Some e => inr (cm_override <$> map_to_list e.(ce_overrides)) | None => inl cm_missing end, c);
  DeleteEnvironmentContentOverrides id l :=
    cm_change id (λ e, mk_cpenv e.(ce_name) e.(ce_content) (base.filter (λ kv, kv.1 ∉ omap override_key l) e.(ce_overrides))) (λ _, ())
}.

Definition cm_content (c : cpmem) (id : string) : gset string := match c.(cm_envs) !! id with Some e => list_to_set e.(ce_content) | None => ∅ end.
Definition cm_overrides (c : cpmem) (id : string) : gmap (string * string) string := match c.(cm_envs) !! id with Some e => e.(ce_overrides) | None => ∅ end.

Lemma cm_change_inr {A} id f (answer : cpenv → A) c a c' :
  cm_change id f answer c = (inr a, c') → ∃ e, c.(cm_envs) !! id = Some e ∧ a = answer (f e) ∧ c' = cm_set <[id := f e]> c.
Proof. unfold cm_change. destruct (cm_envs c !! id) as [e|]; intros; simplify_eq; eauto. Qed.

#[global] Instance cpmem_laws : CandlepinLaws cpmem.
Proof.
  refine {| env_content := cm_content; env_overrides := cm_overrides; owner_contents c _ := c.(cm_contents) |}; unfold cm_content, cm_overrides.
  - intros A f c o []; done.
  - simpl. intros o ls c cs c' Hls [= <- <-]. rewrite (list_filter_iff _ (has_label ls)); [done|]. naive_solver.
  - intros A f c id []; try done. simpl. unfold cm_change. destruct (cm_envs c !! i) as [e|] eqn:E; [|done]. cbn.
    destruct (decide (i = id)) as [<-|]; [by rewrite lookup_insert_eq, E|by rewrite lookup_insert_ne].
  - simpl. intros id c e c' H. case_match; by simplify_eq.
  - intros id n c e c' (e0 & -> & -> & _)%cm_change_inr. done.
  - simpl. intros o id n p c e c' [= <- <-]. cbn. by rewrite lookup_insert_eq.
  - intros id l c c' (e & -> & _ & ->)%cm_change_inr. cbn. rewrite lookup_insert_eq. cbn. by rewrite list_to_set_app_L.
  - intros id l c c' (e & -> & _ & ->)%cm_change_inr. cbn. rewrite lookup_insert_eq. cbn. split; [|done].
    apply set_eq. intros x. rewrite elem_of_difference, !elem_of_list_to_set, list_elem_of_filter. tauto.
  - intros id l c c' (e & -> & _ & ->)%cm_change_inr. cbn. by rewrite lookup_insert_eq.
  - simpl. intros id c l c' H. case_match; simplify_eq. rewrite <- list_fmap_compose.
    erewrite list_fmap_ext; [done|]. by intros ? [[] ?].
  - intros id l c c' (e & -> & _ & ->)%cm_change_inr. cbn. by rewrite lookup_insert_eq.
Defined.

(** A listing of the pools that fails makes another pool. *)
Example pool_created_twice {C} `{CandlepinApi C} c c1 c2 e id o :
  ListOwnerPools o (GetProductID o) c = (inl e, c1) → api_CreatePool o (GetProductID o) c1 = (inr (Some id), c2) →
  CreatePool false o ([], c) = (inr id, ([], c2)).
Proof. intros H1 H2. unfold CreatePool, FetchPool, request, mbind, M_bind, db_noop, db_call, OwnerKey. by rewrite H1, H2. Qed.
