(* ===== verification/TemplateTask.v ===== *)
(** * tasks/update_template_content.go, candlepin_helpers.go, update_latest_snapshot.go and delete_templates.go

    The tasks that bring Pulp and Candlepin in line with a template. [RunPulp] makes, changes and removes the distributions
    of the template's repositories and stores the snapshots they serve; [RunCandlepin] sets the content of the template's
    environment and the overrides of it. The payload of the task is in memory ([tw_mem]) and is saved once, with the pool.
    Notifications ([event.SendTemplateEvent]) are not modelled. *)

From S2P Require Import Prelude GoStrings GoSplit Config TxMonad Utils Models Errors DaoHelpers GoText SnapshotDao TemplateDao SnapshotHandler RepoConfigDao Pulp Distribution TaskEnv PublishTask DeleteTask Candlepin.
From stdpp Require Import options.

Open Scope string_scope.

(** payloads/update_template_content.go *)
Record UpdateTemplateContentPayload := mk_UTCP {
  tp_TemplateUUID : string; tp_RepoConfigUUIDs : list string; tp_TriggeredByRepositoryUUID : option string; tp_PoolID : option string }.
Definition set_RepoConfigUUIDs (l : list string) (p : UpdateTemplateContentPayload) : UpdateTemplateContentPayload :=
  mk_UTCP p.(tp_TemplateUUID) l p.(tp_TriggeredByRepositoryUUID) p.(tp_PoolID).
Definition set_PoolID (id : string) (p : UpdateTemplateContentPayload) : UpdateTemplateContentPayload :=
  mk_UTCP p.(tp_TemplateUUID) p.(tp_RepoConfigUUIDs) p.(tp_TriggeredByRepositoryUUID) (Some id).
Definition set_RepositoryUUIDS (l : list string) (t : TemplateResponse) : TemplateResponse :=
  mk_TemplateResponse t.(tr_UUID) t.(tr_row) t.(tr_RHSMEnvironmentID) l t.(tr_Snapshots) t.(tr_ToBeDeletedSnapshots).

(** The domains a task looks up. *)
Record domain_names := mk_domain_names { domainName : string; rhDomainName : string; communityDomainName : string }.

(** ** Labels, overrides and lists *)

Definition getRepoVendor (repo : RepoResponse) : string := if repo.(p_OrgID) == RedHatOrg then "Red Hat" else "Custom".

Definition difference (a b : list string) : list string := base.filter (λ x, x ∉ b) a.

(** [\d*] *)
Fixpoint span_digits (s : string) : string * string :=
  match s with
  | String c s' => if is_digit c then let '(d, r) := span_digits s' in (String c d, r) else ("", s)
  | "" => ("", "")
  end.
Definition HasPrefix (s prefix : string) : bool := has_prefix (chars prefix) (chars s).
(** [-for-.+-(e4s|eus)-rpms$]: the text between has a character, and no newline. *)
Definition extended_suffix (s : string) : bool :=
  HasPrefix s "-for-" && (HasSuffix s "-e4s-rpms" || HasSuffix s "-eus-rpms") && (15 <=? String.length s)%nat &&
  negb (strings_Contains (str_take (String.length s - 14) (str_drop 5 s)) (String "010" "")).
(** The groups of [^(rhel-\d+)\.\d+(-for-.+-(e4s|eus)-rpms)$]. *)
Definition extended_release_groups (label : string) : option (string * string) :=
  if HasPrefix label "rhel-" then
    let '(major, rest) := span_digits (str_drop 5 label) in
    match rest with
    | String "." rest =>
        let '(minor, suffix) := span_digits rest in
        if (major != "") && (minor != "") && extended_suffix suffix then Some ("rhel-" +:+ major, suffix) else None
    | _ => None
    end
  else None.
Definition normalizeExtendedReleaseLabel (label : string) : string :=
  match extended_release_groups label with Some (g1, g2) => g1 +:+ g2 | None => label end.

(** Whether an override is expected; [None] is the dereference of a nil pointer. *)
Fixpoint override_found (existing : ContentOverrideDTO) (expected : list ContentOverrideDTO) : option bool :=
  match expected with
  | [] => Some false
  | e :: expected' =>
      n ← existing.(ov_Name); n' ← e.(ov_Name);
      if n == n'
      then l ← existing.(ov_ContentLabel); l' ← e.(ov_ContentLabel);
           if l == l' then Some true else override_found existing expected'
      else override_found existing expected'
  end.
Fixpoint UnneededOverrides (existing expected : list ContentOverrideDTO) : option (list ContentOverrideDTO) :=
  match existing with
  | [] => Some []
  | o :: existing' =>
      found ← override_found o expected;
      rest ← UnneededOverrides existing' expected;
      Some (if found : bool then rest else o :: rest)
  end.

Section Helpers.
Context `{UuidText} (externalURL fullRootPath : string).
(** [net/url]: the path of a URL, and [url.JoinPath]. *)
Context (url_Path : string → goerr + string) (JoinPath : string → list string → goerr + string).

Definition genContentDto (repo : RepoResponse) (contentURL : string) : ContentDTO :=
  let uuid_ := uuid_String repo.(p_UUID) in
  let gpgKeyUrl := if (repo.(p_OrgID) != RedHatOrg) && (repo.(p_GpgKey) != "")
                   then CandlepinContentGpgKeyUrl externalURL fullRootPath repo.(p_OrgID) uuid_ else Some "" in
  mk_ContentDTO (Some (GetContentID uuid_)) (Some YumRepoType) (Some repo.(p_Label)) (Some repo.(p_Name)) (Some (getRepoVendor repo))
    gpgKeyUrl (Some contentURL).

Definition GenContentDto (repo : RepoResponse) : ContentDTO :=
  genContentDto repo (if repo.(p_Origin) == OriginUpload then repo.(p_LatestSnapshotURL) else repo.(p_URL)).

(** config/paths.go *)
Definition EnvironmentPrefix (rhContentPath rhDomain templateUUID : string) : goerr + string :=
  JoinPath rhContentPath [rhDomain; "templates"; templateUUID].

Definition isExtendedReleaseRepo (repo : RepoResponse) : bool := (repo.(p_OrgID) == RedHatOrg) && (repo.(p_ExtendedRelease) != "").
Definition shouldOverrideURL (repo : RepoResponse) : bool :=
  isExtendedReleaseRepo repo || (repo.(p_Origin) == OriginExternal) || (repo.(p_Origin) == OriginCommunity) || (repo.(p_Origin) == OriginUpload).
Definition content_label (repo : RepoResponse) : string :=
  if isExtendedReleaseRepo repo then normalizeExtendedReleaseLabel repo.(p_Label) else repo.(p_Label).

Definition override (name label value : string) : ContentOverrideDTO := mk_ContentOverrideDTO (Some name) (Some label) (Some value).

Definition contentOverridesForRepo (dom templateUUID pulpContentPath : string) (repo : RepoResponse) (requireLastSnapshot : bool) :
    goerr + list ContentOverrideDTO :=
  if requireLastSnapshot && negb (bool_decide (is_Some repo.(p_LastSnapshot))) then inr []
  else
    let label := content_label repo in
    let mapping := [override OverrideNameCaCert label " "; override OverrideSSLVerifyStatus label "0"] in
    if shouldOverrideURL repo then
      match getDistPathAndName url_Path repo templateUUID with
      | inl e => inl e
      | inr (distPath, _) =>
          match JoinPath pulpContentPath [dom; distPath] with
          | inl e => inl e
          | inr path => inr (mapping ++ [override OverrideNameBaseUrl label path] ++
                             (if repo.(p_ModuleHotfixes) then [override OverrideModuleHotfixes label "1"] else []))%list
          end
      end
    else inr mapping.
Definition ContentOverridesForRepo (dom templateUUID pulpContentPath : string) (repo : RepoResponse) : goerr + list ContentOverrideDTO :=
  contentOverridesForRepo dom templateUUID pulpContentPath repo true.
End Helpers.

(** A loop that goes on with what it has computed. *)
Fixpoint foldM {W A B} (f : A → B → M W goerr A) (a : A) (l : list B) : M W goerr A :=
  match l with [] => mret a | b :: l' => a' ← f a b; foldM f a' l' end.

Section Task.
Context {S C : Type} `{HC : PulpClient S} `{HK : CandlepinApi C} `{HU : UuidText}.
Context (RepoContentGuards DevelOrg : bool) (scan : gmap uuid SnapRow → list (uuid * SnapRow)).
Context (scan_templates : gmap uuid TemplateRow → list (uuid * TemplateRow)).
Context (scan_trcs : gmap (uuid * uuid) TrcRow → list (uuid * uuid * TrcRow)).
Context (sql_like : string → string → bool) (sql_order : string → list (uuid * TemplateRow) → list (uuid * TemplateRow)).
Context (snapshots_enabled : bool) (content_path : goerr + string) (SnapshotRetainDaysLimit : Z).
Context (tasks : gmap uuid TaskView) (externalURL fullRootPath : string).
Context (url_Path : string → goerr + string) (JoinPath : string → list string → goerr + string).

(** The UUID of a template in a statement. *)
Definition template_id {W} (templateUUID : string) : M W goerr uuid :=
  match pg_uuid templateUUID with Some tu => mret tu | None => throw (invalid_uuid templateUUID) end.

Section Payload.
Context {P : Type}.
Abbreviation TM := (M (tworld S C P) goerr).

Definition template_fetch (now : time) (orgId templateUUID : string) (includeSoftDel : bool) : TM TemplateResponse :=
  dao (Template_Fetch scan_trcs snapshots_enabled content_path SnapshotRetainDaysLimit now orgId templateUUID includeSoftDel).
Definition repo_fetch (repoConfigUUID : string) : TM RepoResponse := dao (FetchWithoutOrgID tasks repoConfigUUID false).
Definition repo_domain (orgId : string) (ds : domain_names) (repo : RepoResponse) : TM string :=
  repositoryDomain repo orgId ds.(domainName) ds.(rhDomainName) ds.(communityDomainName).
Definition fetch_domains (orgId : string) : TM domain_names :=
  own ← domain_dao (Domain_Fetch orgId);
  rh ← domain_dao (Domain_Fetch RedHatOrg);
  community ← domain_dao (Domain_Fetch CommunityOrg);
  mret (mk_domain_names own rh community).

Definition lookupTemplate (now : time) (orgId templateUUID : string) : TM (option TemplateResponse) :=
  template ← template_fetch now orgId templateUUID true;
  match template.(tr_row).(t_DeletedAt) with
  | Some _ => mret None
  | None => t ← template_fetch now orgId templateUUID false; mret (Some t)
  end.

(** ** Pulp *)

Definition find_snapshot (snaps : list (uuid * SnapRow)) (repoConfigUUID : string) : option (uuid * SnapRow) :=
  snd <$> list_find (λ us, uuid_String us.2.(s_RepositoryConfigurationUUID) = repoConfigUUID) snaps.

Definition add_repo (orgId : string) (ds : domain_names) (templateUUID : string) (snaps : list (uuid * SnapRow))
    (hrefs : gmap string string) (repoConfigUUID : string) : TM (gmap string string) :=
  repo ← repo_fetch repoConfigUUID;
  dom ← repo_domain orgId ds repo;
  match find_snapshot snaps repoConfigUUID with
  | None => throw (ErrPlain ("no snapshot found for repository " +:+ repoConfigUUID))
  | Some snap =>
      '(distPath, distName) ← lift (getDistPathAndName url_Path repo templateUUID);
      '(distHref, _) ← pulp (CreateOrUpdateTemplateDistribution RepoContentGuards dom repo snap orgId distName distPath);
      mret (<[repoConfigUUID := distHref]> hrefs)
  end.
Definition handleReposAdded (orgId : string) (ds : domain_names) (templateUUID : string) (reposAdded : list string)
    (snaps : list (uuid * SnapRow)) (hrefs : gmap string string) : TM (gmap string string) :=
  foldM (add_repo orgId ds templateUUID snaps) hrefs reposAdded.

(** [*distResp.PulpHref] panics without a distribution or an href. *)
Definition keep_repo (orgId : string) (ds : domain_names) (templateUUID : string) (snaps : list (uuid * SnapRow))
    (hrefs : gmap string string) (repoConfigUUID : string) : TM (gmap string string) :=
  repo ← repo_fetch repoConfigUUID;
  dom ← repo_domain orgId ds repo;
  match find_snapshot snaps repoConfigUUID with
  | None => mret hrefs
  | Some snap =>
      '(distPath, distName) ← lift (getDistPathAndName url_Path repo templateUUID);
      _ ← pulp (CreateOrUpdateTemplateDistribution RepoContentGuards dom repo snap orgId distName distPath);
      distResp ← pulp (db_call (FindDistributionByPath dom distPath));
      href ← deref (distResp ≫= d_PulpHref);
      mret (<[repoConfigUUID := href]> hrefs)
  end.
Definition handleReposUnchanged (orgId : string) (ds : domain_names) (templateUUID : string) (reposUnchanged : list string)
    (snaps : list (uuid * SnapRow)) (hrefs : gmap string string) : TM (gmap string string) :=
  foldM (keep_repo orgId ds templateUUID snaps) hrefs reposUnchanged.

Definition delete_distribution (dom href : string) : TM () :=
  taskHref ← pulp (db_call (DeleteRpmDistribution dom href));
  match taskHref with Some t => _ ← pulp (db_call (PollTask dom t)); mret () | None => mret () end.

(** A repository without a row ends the loop. *)
Fixpoint handleReposRemoved (orgId : string) (ds : domain_names) (templateUUID : string) (reposRemoved : list string) : TM () :=
  match reposRemoved with
  | [] => mret ()
  | repoConfigUUID :: rest =>
      repo ← repo_fetch repoConfigUUID;
      dom ← repo_domain orgId ds repo;
      distHref ← dao (GetDistributionHref templateUUID repoConfigUUID);
      match distHref with
      | None => mret ()
      | Some href => _ ← delete_distribution dom href; handleReposRemoved orgId ds templateUUID rest
      end
  end.

Definition RunPulp (now : time) (orgId : string) (ds : domain_names) (template : TemplateResponse) (templateUUID : string)
    (repoConfigUUIDs : list string) : TM () :=
  match repoConfigUUIDs with
  | [] => mret ()
  | _ =>
      changes ← wrap "error getting repo changes" (dao (GetRepoChanges scan_trcs templateUUID repoConfigUUIDs));
      let templateDate := if template.(tr_row).(t_UseLatest) then now else template.(tr_row).(t_Date) in
      snaps ← dao (FetchSnapshotsModelByDateAndRepository scan orgId changes.(all) templateDate);
      hrefs ← handleReposAdded orgId ds templateUUID changes.(added) snaps ∅;
      _ ← (match changes.(removed) with
           | [] => mret ()
           | removed =>
               _ ← handleReposRemoved orgId ds templateUUID removed;
               wrap "error in DeleteTemplateRepoConfigs"
                 (dao (DeleteTemplateRepoConfigs templateUUID (changes.(unchanged) ++ changes.(added))%list))
           end);
      hrefs ← handleReposUnchanged orgId ds templateUUID changes.(unchanged) snaps hrefs;
      tu ← template_id templateUUID;
      _ ← wrap "error updating distribution hrefs" (dao (UpdateDistributionHrefs tu repoConfigUUIDs snaps hrefs));
      wrap "error updating template snapshots" (dao (UpdateSnapshots tu repoConfigUUIDs snaps))
  end.

(** ** Candlepin *)

Definition fetchOrCreateEnvironment (orgId : string) (template : TemplateResponse) (templateUUID prefix : string) : TM EnvironmentDTO :=
  env ← cp (FetchEnvironment templateUUID);
  match env with
  | Some env => mret env
  | None => cp (CreateEnvironment DevelOrg orgId template.(tr_row).(t_Name) template.(tr_UUID) prefix)
  end.

Definition RunEnvironmentCreate (orgId : string) (ds : domain_names) (template : TemplateResponse) (templateUUID : string) : TM EnvironmentDTO :=
  rhContentPath ← lift content_path;
  prefix ← lift (EnvironmentPrefix JoinPath rhContentPath ds.(rhDomainName) templateUUID);
  env ← fetchOrCreateEnvironment orgId template templateUUID prefix;
  _ ← (if template.(tr_row).(t_RHSMEnvironmentCreated) then mret ()
       else tu ← template_id template.(tr_UUID); dao (SetEnvironmentCreated tu));
  mret env.

Definition renameEnvironmentIfNeeded (template : TemplateResponse) (env : EnvironmentDTO) : TM EnvironmentDTO :=
  name ← deref env.(ev_Name);
  if template.(tr_row).(t_Name) == name then mret env
  else cp (RenameEnvironment template.(tr_UUID) template.(tr_row).(t_Name)).

Definition getRedHatContentIDs (orgId : string) (rhRepos : list RepoResponse) : TM (list string) :=
  let labels := (λ r, if r.(p_ExtendedRelease) != "" then normalizeExtendedReleaseLabel r.(p_Label) else r.(p_Label)) <$> rhRepos in
  contents ← cp (FetchContentsByLabel DevelOrg orgId labels);
  deref (mapM ct_Id contents).

Definition contentURLForRepo (orgId : string) (ds : domain_names) (repo : RepoResponse) (contentPath : string) : TM string :=
  if repo.(p_Origin) != OriginUpload then mret repo.(p_URL)
  else
    let uuid_ := uuid_String repo.(p_UUID) in
    dom ← repo_domain orgId ds repo;
    if dom == "" then throw (ErrPlain ("cannot generate Candlepin content URL for upload repository " +:+ uuid_ +:+ ": Pulp domain is empty"))
    else
      contentURL ← wrap ("cannot generate Candlepin content URL for upload repository " +:+ uuid_)
                     (lift (JoinPath contentPath [dom; uuid_; "latest"]));
      mret (contentURL +:+ "/").

Fixpoint createContentItems (orgId : string) (ds : domain_names) (repos : list RepoResponse) (contentPath : string) :
    TM (list ContentDTO * list string) :=
  match repos with
  | [] => mret ([], [])
  | repo :: repos' =>
      if repo.(p_OrgID) == RedHatOrg then createContentItems orgId ds repos' contentPath
      else
        contentURL ← contentURLForRepo orgId ds repo contentPath;
        '(content, ids) ← createContentItems orgId ds repos' contentPath;
        let item := genContentDto externalURL fullRootPath repo contentURL in
        id ← deref item.(ct_Id);
        mret (item :: content, id :: ids)
  end.

Definition getContentList (orgId : string) (ds : domain_names) (templateUUID : string) (repoConfigUUIDs : list string) (contentPath : string) :
    TM (list ContentDTO * list string * list string) :=
  match repoConfigUUIDs with
  | [] => throw (ErrPlain ("update template content: no repository config uuids available for template " +:+ templateUUID))
  | _ =>
      repos ← foldM (λ acc u, repo ← repo_fetch u; mret (acc ++ [repo])%list) [] repoConfigUUIDs;
      let rhRepos := base.filter (λ r, (r.(p_OrgID) == RedHatOrg) = true) repos in
      let customRepos := base.filter (λ r, (r.(p_OrgID) == RedHatOrg) = false) repos in
      rhContentIDs ← getRedHatContentIDs orgId rhRepos;
      '(contentToCreate, customContentIDs) ← createContentItems orgId ds customRepos contentPath;
      mret (contentToCreate, customContentIDs, rhContentIDs)
  end.

Definition repo_overrides (orgId : string) (ds : domain_names) (contentPath : string) (template : TemplateResponse)
    (mapping : list ContentOverrideDTO) (repoConfigUUID : string) : TM (list ContentOverrideDTO) :=
  repo ← repo_fetch repoConfigUUID;
  dom ← repo_domain orgId ds repo;
  repoOver ← lift (contentOverridesForRepo url_Path JoinPath dom template.(tr_UUID) contentPath repo false);
  mret (mapping ++ repoOver)%list.
Definition GenOverrideDTO (orgId : string) (ds : domain_names) (contentPath : string) (template : TemplateResponse)
    (repoConfigUUIDs : list string) : TM (list ContentOverrideDTO) :=
  match repoConfigUUIDs with
  | [] => throw (ErrPlain ("refusing to list repository configs for template " +:+ template.(tr_UUID) +:+
                           ": no repository config UUIDs (unfiltered list would include unrelated orgs)"))
  | _ => foldM (repo_overrides orgId ds contentPath template) [] repoConfigUUIDs
  end.

Definition RemoveUneededOverrides (templateUUID : string) (expectedDTOs : list ContentOverrideDTO) : TM () :=
  existingDtos ← cp (FetchContentOverrides templateUUID);
  toDelete ← deref (UnneededOverrides existingDtos expectedDTOs);
  match toDelete with [] => mret () | _ => cp (RemoveContentOverrides templateUUID toDelete) end.

Definition promoteContent (templateUUID : string) (repoConfigUUIDs : list string) : TM () := cp (PromoteContentToEnvironment templateUUID repoConfigUUIDs).
Definition demoteContent (templateUUID : string) (repoConfigUUIDs : list string) : TM () := cp (DemoteContentFromEnvironment templateUUID repoConfigUUIDs).
End Payload.

(** ** The task *)

Abbreviation UM := (M (tworld S C UpdateTemplateContentPayload) goerr).

(** The second part of [RunCandlepin]: the content and the overrides of the environment. *)
Definition set_environment (orgId : string) (ds : domain_names) (template : TemplateResponse) (templateUUID : string)
    (repoConfigUUIDs : list string) (contentPath : string) (env : EnvironmentDTO) (contentIDs : list string) : UM () :=
  env ← renameEnvironmentIfNeeded template env;
  let contentInEnv := env.(ev_Content) in
  let contentToPromote := difference contentIDs contentInEnv in
  let contentToDemote := difference contentInEnv contentIDs in
  _ ← (match contentToPromote with [] => mret () | l => promoteContent templateUUID l end);
  _ ← (match contentToDemote with [] => mret () | l => demoteContent templateUUID l end);
  overrideDtos ← GenOverrideDTO orgId ds contentPath template repoConfigUUIDs;
  _ ← RemoveUneededOverrides template.(tr_UUID) overrideDtos;
  cp (UpdateContentOverrides templateUUID overrideDtos).

Definition RunCandlepin (orgId : string) (ds : domain_names) (template : TemplateResponse) (templateUUID : string)
    (repoConfigUUIDs : list string) (env : EnvironmentDTO) : UM () :=
  _ ← cp (CreateProduct DevelOrg orgId);
  poolID ← cp (CreatePool DevelOrg orgId);
  _ ← modify_mem (set_PoolID poolID);
  _ ← UpdatePayload;
  contentPath ← lift content_path;
  '(customContent, customContentIDs, rhContentIDs) ← getContentList orgId ds templateUUID repoConfigUUIDs contentPath;
  _ ← iter (λ item, cp (CreateContent DevelOrg orgId item)) customContent;
  _ ← cp (AddContentBatchToProduct DevelOrg orgId customContentIDs);
  set_environment orgId ds template templateUUID repoConfigUUIDs contentPath env (customContentIDs ++ rhContentIDs)%list.

(** Whether the task is skipped, and the template and the repositories it goes on with. *)
Definition prepareTriggeredUpdate (template : TemplateResponse) (triggeredBy : option string) (repoConfigUUIDs : list string) :
    UM (bool * TemplateResponse * list string) :=
  match triggeredBy with
  | None => mret (false, template, repoConfigUUIDs)
  | Some repoUUID =>
      repo ← wrap ("error fetching triggering repository " +:+ repoUUID) (repo_fetch repoUUID);
      if negb repo.(p_Partner)
      then throw (ErrPlain ("repository " +:+ repoUUID +:+ " triggered partner template reconciliation but is not a partner repository"))
      else
        hasPublishedSnapshot ← wrap ("error checking published snapshots for repository " +:+ repoUUID) (dao (HasPublishedSnapshot repoUUID));
        let uuids := template.(tr_RepositoryUUIDS) in
        if negb (contains uuids repoUUID) then mret (false, template, uuids)
        else if hasPublishedSnapshot : bool then mret (template.(tr_row).(t_UseLatest), template, uuids)
        else if negb template.(tr_row).(t_UseLatest) && (repo.(p_OrgID) == template.(tr_row).(t_OrgID)) then mret (false, template, uuids)
        else
          let desired := base.filter (λ u, u ≠ repoUUID) uuids in
          mret (false, set_RepositoryUUIDS desired template, desired)
  end.

(** [now]: the times of the lookup and of [RunPulp]. *)
Definition UpdateTemplateContentHandler (now now' : time) (orgId : string) : UM () := λ '(fs, w),
  let payload := w.(tw_mem) in
  let templateUUID := payload.(tp_TemplateUUID) in
  (found ← lookupTemplate now orgId templateUUID;
   match found with
   | None => mret ()
   | Some template =>
       if bool_decide (payload.(tp_TriggeredByRepositoryUUID) = None) && bool_decide (payload.(tp_RepoConfigUUIDs) = [])
       then throw (ErrPlain ("update template content: no repository config UUIDs in task payload (template " +:+ templateUUID +:+ ")"))
       else
         ds ← fetch_domains orgId;
         '(skip, template, uuids) ← prepareTriggeredUpdate template payload.(tp_TriggeredByRepositoryUUID) payload.(tp_RepoConfigUUIDs);
         _ ← modify_mem (set_RepoConfigUUIDs uuids);
         if skip : bool then mret ()
         else if bool_decide (uuids = [])
         then throw (ErrPlain ("update template content: no repository config UUIDs available for template " +:+ templateUUID))
         else
           tu ← template_id template.(tr_UUID);
           _ ← dao (UpdateLastError template.(tr_row).(t_OrgID) tu "");
           env ← RunEnvironmentCreate orgId ds template templateUUID;
           _ ← RunPulp now' orgId ds template templateUUID uuids;
           RunCandlepin orgId ds template templateUUID uuids env
   end) (fs, w).
End Task.
