(* ===== verification/TemplateCandlepin.v ===== *)
(** * What the template task does to Candlepin

    When [RunCandlepin] succeeds, the environment of the template has the contents of its repositories and the overrides they
    need, and nothing else. The steps that only read are followed by the relation [cp_same]; loops by an invariant. *)

From S2P Require Import Prelude GoStrings GoSplit Config TxMonad Utils Models Errors DaoHelpers GoText SnapshotDao SnapshotThms TemplateDao SnapshotHandler SnapshotHandlerThms RepoConfigDao Pulp Distribution TaskEnv PublishTask DeleteTask DeleteTaskThms Candlepin TemplateTask.
From stdpp Require Import options.

Open Scope string_scope.

(** ** Loops *)

Lemma foldM_run {W A B} (f : A → B → M W goerr A) (I : list B → A → W → Prop) l pre a fs w a' fs' w' :
  (∀ pre b a fs w a' fs' w', b ∈ l → I pre a w → f a b (fs, w) = (inr a', (fs', w')) → I (pre ++ [b])%list a' w') →
  I pre a w → foldM f a l (fs, w) = (inr a', (fs', w')) → I (pre ++ l)%list a' w'.
Proof.
  revert pre a fs w. induction l as [|b l IH]; intros pre a fs w Hf HI H; cbn [foldM] in H.
  - apply ret_inr in H as [-> [= -> ->]]. by rewrite app_nil_r.
  - apply bind_inr in H as (a1 & [fs1 w1] & Hb & H). change (b :: l) with ([b] ++ l)%list. rewrite (assoc app). eapply IH; [|by eapply Hf; [left|..]|done]. intros. eapply Hf; [by right|done..].
Qed.

(** ** Overrides *)

Lemma put_overrides_covered dtos : ∀ m m',
  (∀ k, m !! k = m' !! k ∨ k ∈ (omap override_entry dtos).*1) → put_overrides m dtos = put_overrides m' dtos.
Proof.
  induction dtos as [|o dtos IH]; intros m m' H; cbn.
  - apply map_eq. intros k. destruct (H k) as [|Hk]; [done|]. by apply not_elem_of_nil in Hk.
  - apply IH. intros k. specialize (H k). cbn in H. destruct (override_entry o) as [[k0 v]|]; [|done].
    destruct (decide (k0 = k)) as [<-|]; [left; by rewrite !lookup_insert_eq|]. rewrite !lookup_insert_ne by done.
    cbn in H. rewrite elem_of_cons in H. naive_solver.
Qed.

(** The overrides made by the tasks name their content, their name and their value. *)
Definition complete (o : ContentOverrideDTO) : Prop := ∃ n l v, o = override n l v.

Lemma override_found_complete n l v expected :
  Forall complete expected →
  ∃ b, override_found (override n l v) expected = Some b ∧ (b = true ↔ (l, n) ∈ omap override_key expected).
Proof.
  induction 1 as [|e es (n' & l' & v' & ->) _ (b & Hb & IH)]; [exists false; split; [done|]; split; [done|by intros ?%not_elem_of_nil]|].
  cbn. destruct (n == n') eqn:En; [destruct (l == l') eqn:El|].
  - exists true. split; [done|]. apply bool_decide_eq_true in En as ->, El as ->. set_solver.
  - exists b. split; [done|]. rewrite IH. cbn. rewrite elem_of_cons. apply bool_decide_eq_false in El. naive_solver.
  - exists b. split; [done|]. rewrite IH. cbn. rewrite elem_of_cons. apply bool_decide_eq_false in En. naive_solver.
Qed.

Lemma entry_complete o kv : override_entry o = Some kv → o = override kv.1.2 kv.1.1 kv.2.
Proof. destruct o as [[n|] [l|] [v|]]; by intros [= <-]. Qed.

Lemma unneeded_keys existing expected toDelete :
  Forall complete existing → Forall complete expected → UnneededOverrides existing expected = Some toDelete →
  ∀ k, k ∈ omap override_key toDelete ↔ k ∈ omap override_key existing ∧ k ∉ omap override_key expected.
Proof.
  intros Hex He. revert toDelete. induction Hex as [|o ex (n & l & v & ->) _ IH]; intros del H k; cbn in H.
  - simplify_eq. set_solver.
  - destruct (override_found_complete n l v expected He) as (b & Hb & Hin). rewrite Hb in H. cbn in H.
    destruct (UnneededOverrides ex expected) as [rest|]; [|done]. cbn in H. specialize (IH _ eq_refl k).
    destruct b; simplify_eq; cbn; rewrite !elem_of_cons; [naive_solver|].
    assert ((l, n) ∉ omap override_key expected) by (intros ?%Hin; done). naive_solver.
Qed.

Lemma keys_of_entries l : Forall complete l → (omap override_entry l).*1 = omap override_key l.
Proof. induction 1 as [|o l (n & b & v & ->) _ IH]; [done|]. cbn. by f_equal. Qed.

Lemma contentOverrides_complete `{UuidText} url_Path JoinPath dom t path repo b l :
  contentOverridesForRepo url_Path JoinPath dom t path repo b = inr l → Forall complete l.
Proof.
  assert (∀ n a v, complete (override n a v)) as Hc by (by do 3 eexists).
  unfold contentOverridesForRepo. intros Hl.
  repeat (case_match; simplify_eq/=); repeat constructor; auto.
Qed.

(** ** What the reading steps return *)

Definition repo_view `{UuidText} (tasks : gmap uuid TaskView) (d : db) (u : string) : option RepoResponse :=
  c ← d.(configs) !! Uuidify u; if config_live c then Some (ModelToApiFields (load tasks d (Uuidify u, c))) else None.

Definition domain_of (t : gmap string string) (orgId : string) (ds : domain_names) (repo : RepoResponse) : string :=
  if repo.(p_OrgID) == RedHatOrg then ds.(rhDomainName)
  else if repo.(p_OrgID) == CommunityOrg then ds.(communityDomainName)
  else if repo.(p_OrgID) == orgId then ds.(domainName)
  else default "" (t !! repo.(p_OrgID)).

Section Reads.
Context {S C P : Type} `{HU : UuidText} (tasks : gmap uuid TaskView).
Abbreviation W := (tworld S C P).
#[local] Set Default Proof Using "Type*".

Lemma set_db_id (w : W) : set_db w.(tw_db) w = w.
Proof. by destruct w. Qed.
Lemma set_domains_id (w : W) : set_domains w.(tw_domains) w = w.
Proof. by destruct w. Qed.

Lemma repo_fetch_run u fs (w : W) r fs' w' :
  repo_fetch tasks u (fs, w) = (inr r, (fs', w')) → w' = w ∧ repo_view tasks w.(tw_db) u = Some r.
Proof.
  intros (d & H%map_err_inr & ->)%dao_run.
  apply bind_inr in H as (c & [fs1 d1] & Hc%call_inr & (l & [fs2 d2] & Hl%call_inr & [<- [= -> ->]]%ret_inr)%bind_inr).
  unfold or_not_found in Hc. cbn [orb] in Hc. injection Hl as <- <-. unfold repo_view.
  destruct (configs (tw_db w) !! Uuidify u) as [c0|]; cbn in Hc |- *; [|done].
  destruct (config_live c0); simplify_eq/=. by rewrite set_db_id.
Qed.

Lemma repo_domain_run orgId ds repo fs (w : W) dom fs' w' :
  repo_domain orgId ds repo (fs, w) = (inr dom, (fs', w')) → w' = w ∧ dom = domain_of w.(tw_domains) orgId ds repo.
Proof.
  unfold repo_domain, repositoryDomain, domain_of. repeat case_match; [by intros [-> [= _ ->]]%ret_inr..|].
  intros (d & Hd%call_inr & ->)%wrap_inr%domain_run. injection Hd as <- <-. by rewrite set_domains_id.
Qed.
End Reads.

(** ** Steps that leave the environments alone *)

Section Same.
Context {S C P : Type} `{HK : CandlepinApi C} `{HKL : !CandlepinLaws C}.
Abbreviation W := (tworld S C P).
#[local] Set Default Proof Using "Type*".

Definition cp_same (w w' : W) : Prop :=
  w'.(tw_db) = w.(tw_db) ∧ w'.(tw_domains) = w.(tw_domains) ∧ w'.(tw_pulp) = w.(tw_pulp) ∧
  ∀ id, env_content w'.(tw_cp) id = env_content w.(tw_cp) id ∧ env_overrides w'.(tw_cp) id = env_overrides w.(tw_cp) id.
(** The contents of owners stay too. *)
Definition cp_early (w w' : W) : Prop := cp_same w w' ∧ ∀ o, owner_contents w'.(tw_cp) o = owner_contents w.(tw_cp) o.

#[export] Instance cp_same_preorder : PreOrder cp_same.
Proof.
  split; [by intros w; split_and!|]. intros w1 w2 w3 (? & ? & ? & Ha) (? & ? & ? & Hb). split_and!; [congruence..|].
  intros id. destruct (Ha id), (Hb id). split; congruence.
Qed.
#[export] Instance cp_early_preorder : PreOrder cp_early.
Proof. split; [by split|]. intros w1 w2 w3 [? H1] [? H2]. split; [by etrans|]. intros o. by rewrite H2, H1. Qed.

Lemma same_request {A B} (f : C → (ApiError + A) * C) (handle : ApiError → goerr + B) ok :
  cp_quiet A f → preserves cp_same (cp (request f handle ok) : M W goerr B).
Proof.
  intros Hq fs w r fs' w' (c & H & ->)%cp_run. split_and!; [done..|]. intros id. cbn.
  destruct (call_cases _ _ _ _ _ _ H) as [(e & _ & -> & _)|Hf]; [done|]. destruct (f (tw_cp w)) as [r1 c1] eqn:E. simplify_eq/=.
  pose proof (quiet_environments A f (tw_cp w) id Hq) as Hs. by rewrite E in Hs.
Qed.
Lemma early_request {A B} (f : C → (ApiError + A) * C) (handle : ApiError → goerr + B) ok :
  cp_quiet A f → cp_keeps A f → preserves cp_early (cp (request f handle ok) : M W goerr B).
Proof.
  intros Hq Hk fs w r fs' w' H. split; [by eapply same_request in H|]. apply cp_run in H as (c & H & ->). intros o. cbn.
  destruct (call_cases _ _ _ _ _ _ H) as [(e & _ & -> & _)|Hf]; [done|]. destruct (f (tw_cp w)) as [r1 c1] eqn:E. simplify_eq/=.
  pose proof (keeps_contents A f (tw_cp w) o Hk) as Hs. by rewrite E in Hs.
Qed.
Lemma early_noop : preserves cp_early (cp db_noop : M W goerr ()).
Proof.
  intros fs w r fs' w' (c & H & ->)%cp_run.
  assert (c = tw_cp w) as -> by (destruct (call_cases _ _ _ _ _ _ H) as [(e & _ & -> & _)|Hf]; by simplify_eq). by destruct w.
Qed.
Lemma early_mem f : preserves cp_early (modify_mem f : M W goerr ()).
Proof. intros fs w r fs' w' H. unfold modify_mem in H. simplify_eq. by split. Qed.
Lemma early_payload : preserves cp_early (UpdatePayload : M W goerr ()).
Proof. intros fs w r fs' w' H. destruct (call_cases _ _ _ _ _ _ H) as [(e & _ & -> & _)|Hf]; simplify_eq; [done|]. by split. Qed.
End Same.

(** [zoom] and composition. *)
Lemma zoom_bind {W D E A B} (get : W → D) (set : D → W → W) (m : M D E A) (k : A → M D E B) w :
  (∀ d x, get (set d x) = d) → (∀ d d' x, set d (set d' x) = set d x) →
  zoom get set (m ≫= k) w = (zoom get set m ≫= λ a, zoom get set (k a)) w.
Proof.
  intros Hg Hs. destruct w as [fs w]. unfold zoom, mbind, M_bind. destruct (m (fs, get w)) as [[e|a] [fs1 d1]]; [done|].
  rewrite Hg. destruct (k a (fs1, d1)) as [r [fs2 d2]]. by rewrite Hs.
Qed.
Lemma cp_bind {S C P A B} (m : M C goerr A) (k : A → M C goerr B) (w : list (option goerr) * tworld S C P) :
  cp (m ≫= k) w = (cp m ≫= λ a, cp (k a)) w.
Proof. by apply zoom_bind. Qed.
Lemma cp_ret {S C P A} (a : A) (w : list (option goerr) * tworld S C P) : cp (mret a) w = (mret a : M (tworld S C P) goerr A) w.
Proof. destruct w as [fs []]. done. Qed.
Lemma cp_throw {S C P A} (e : goerr) (w : list (option goerr) * tworld S C P) : cp (throw e : M C goerr A) w = throw e w.
Proof. destruct w as [fs []]. done. Qed.
Lemma preserves_ext {W A} (R : relation W) (m m' : M W goerr A) : (∀ w, m w = m' w) → preserves R m' → preserves R m.
Proof. intros He Hm fs w r fs' w' H. rewrite He in H. by eapply Hm. Qed.

Section Steps.
Context {S C P : Type} `{HC : PulpClient S} `{HK : CandlepinApi C} `{HKL : !CandlepinLaws C} `{HU : UuidText}.
Context (DevelOrg : bool).
Abbreviation W := (tworld S C P).
#[local] Set Default Proof Using "Type*".

Lemma early_CreateProduct orgId : preserves (cp_early (S := S) (P := P)) (cp (CreateProduct DevelOrg orgId)).
Proof.
  eapply preserves_ext; [intros; apply cp_bind|]. simple apply preserves_bind; [apply _|apply early_noop|]. intros _.
  eapply preserves_ext; [intros; apply cp_bind|]. simple apply preserves_bind; [apply _|apply early_request; constructor|].
  intros [x|]; [|apply early_request; constructor]. eapply preserves_ext; [intros; apply cp_ret|]. apply preserves_ret, _.
Qed.
Lemma early_CreatePool orgId : preserves (cp_early (S := S) (P := P)) (cp (CreatePool DevelOrg orgId)).
Proof.
  eapply preserves_ext; [intros; apply cp_bind|]. simple apply preserves_bind; [apply _|apply early_noop|]. intros _.
  eapply preserves_ext; [intros; apply cp_bind|]. simple apply preserves_bind; [apply _|apply early_request; constructor|].
  intros [x|]; [|apply early_request; constructor]. eapply preserves_ext; [intros; apply cp_ret|]. apply preserves_ret, _.
Qed.

Definition has_ids (contents : list ContentDTO) (ids : list string) : Prop := mapM ct_Id contents = Some ids.

(** The contents of the owner that carry one of the labels. *)
Lemma FetchContentsByLabel_run orgId labels fs (w : W) contents fs' w' :
  cp (FetchContentsByLabel DevelOrg orgId labels) (fs, w) = (inr contents, (fs', w')) →
  cp_same w w' ∧ contents ≡ₚ base.filter (has_label labels) (owner_contents w.(tw_cp) (OwnerKey DevelOrg orgId)).
Proof.
  destruct labels as [|l labels].
  - change (FetchContentsByLabel DevelOrg orgId []) with (mret [] : M C goerr (list ContentDTO)). rewrite cp_ret.
    intros [<- [= _ <-]]%ret_inr. split; [done|]. induction (owner_contents _ _) as [|x xs IH]; [done|].
    rewrite filter_cons_False; [done|]. unfold has_label. set_solver.
  - unfold FetchContentsByLabel. rewrite cp_bind.
    intros (cs & [fs1 w1] & Hr & H)%bind_inr. destruct (mapM ct_Label cs) eqn:E; [|by rewrite cp_throw in H].
    rewrite cp_ret in H. apply ret_inr in H as [<- [= _ <-]]. split; [eapply same_request in Hr; [done|constructor]|].
    apply cp_run in Hr as (c1 & [(a & Ha & ->)|(e & _ & He)]%request_inr & ->); [|done]. by eapply labelled_contents.
Qed.
End Steps.

(** ** The contents and the overrides a template needs *)

Definition is_red_hat (r : RepoResponse) : bool := r.(p_OrgID) == RedHatOrg.
Definition content_id `{UuidText} (r : RepoResponse) : string := GetContentID (uuid_String r.(p_UUID)).
Definition rh_label (r : RepoResponse) : string :=
  if r.(p_ExtendedRelease) != "" then normalizeExtendedReleaseLabel r.(p_Label) else r.(p_Label).

Lemma dashless_filter s : GetContentID (GetContentID s) = GetContentID s.
Proof.
  unfold GetContentID. rewrite chars_of_chars. f_equal. apply list_filter_filter_l. naive_solver.
Qed.

Section Content.
Context {S C P : Type} `{HC : PulpClient S} `{HK : CandlepinApi C} `{HKL : !CandlepinLaws C} `{HU : UuidText}.
Context (DevelOrg : bool) (tasks : gmap uuid TaskView) (externalURL fullRootPath : string).
Context (JoinPath : string → list string → goerr + string).
Abbreviation W := (tworld S C P).
#[local] Set Default Proof Using "Type*".

(** The identifiers of the contents: those of the repositories of organizations are made from their UUIDs, those of Red
    Hat's are the identifiers of the owner's contents with their labels. *)
Definition template_contents (d : db) (contents : list ContentDTO) (uuids ids : list string) : Prop :=
  ∃ repos rhContents rh, mapM (repo_view tasks d) uuids = Some repos ∧
    rhContents ≡ₚ base.filter (has_label (rh_label <$> base.filter (λ r, is_red_hat r = true) repos)) contents ∧
    has_ids rhContents rh ∧ ids = ((content_id <$> base.filter (λ r, is_red_hat r = false) repos) ++ rh)%list.

Lemma createContentItems_run orgId ds repos path fs (w : W) content ids fs' w' :
  Forall (λ r, is_red_hat r = false) repos →
  createContentItems externalURL fullRootPath JoinPath orgId ds repos path (fs, w) = (inr (content, ids), (fs', w')) →
  w' = w ∧ ids = content_id <$> repos.
Proof.
  intros Hr. revert fs w content ids fs' w'. induction Hr as [|r repos Hn _ IH]; intros fs w content ids fs' w' H; cbn [createContentItems] in H.
  - apply ret_inr in H. naive_solver.
  - unfold is_red_hat in Hn. rewrite Hn in H.
    apply bind_inr in H as (url & [fs1 w1] & Hu & H). assert (w1 = w) as ->.
    { unfold contentURLForRepo in Hu. case_match; [by apply ret_inr in Hu as [_ [= _ ->]]|].
      apply bind_inr in Hu as (dom & [fs2 w2] & [-> ->]%repo_domain_run & Hu). case_match; [done|].
      apply bind_inr in Hu as (u & [fs3 w3] & [_ [= -> ->]]%wrap_inr%lift_run & [_ [= _ ->]]%ret_inr). done. }
    apply bind_inr in H as ([content' ids'] & [fs2 w2] & [-> ->]%IH & H).
    apply bind_inr in H as (i & w3 & [[= <-] ->]%deref_inr & [[= _ <-] [= _ <-]]%ret_inr). done.
Qed.

Lemma getContentList_run orgId ds t uuids path fs (w : W) content custom rh fs' w' :
  getContentList DevelOrg tasks externalURL fullRootPath JoinPath orgId ds t uuids path (fs, w) = (inr (content, custom, rh), (fs', w')) →
  cp_same w w' ∧ template_contents w.(tw_db) (owner_contents w.(tw_cp) (OwnerKey DevelOrg orgId)) uuids (custom ++ rh).
Proof.
  unfold getContentList. intros H. assert (∃ u us, uuids = u :: us) as (u & us & ->) by (destruct uuids; [done|eauto]).
  revert H. generalize (u :: us) as l. intros l H.
  apply bind_inr in H as (repos & [fs1 w1] & Hf & H).
  apply (foldM_run _ (λ pre acc w1, w1 = w ∧ Forall2 (λ u r, repo_view tasks (tw_db w) u = Some r) pre acc) _ [] []) in Hf as [-> Hrepos].
  2: { intros pre b a fs0 w0 a' fs0' w0' _ [-> Ha] (r & [fs2 w2] & [-> Hr]%repo_fetch_run & [<- [= _ <-]]%ret_inr)%bind_inr.
       split; [done|]. apply Forall2_app; [done|by repeat constructor]. }
  2: { split; [done|constructor]. }
  cbn [app] in Hrepos. apply bind_inr in H as (rhIDs & [fs2 w2] & Hrh & H). unfold getRedHatContentIDs in Hrh.
  apply bind_inr in Hrh as (contents & [fs3 w3] & [Hs Hc]%FetchContentsByLabel_run & [Hids [= -> ->]]%deref_inr).
  apply bind_inr in H as ([content' custom'] & [fs4 w4] & [-> ->]%createContentItems_run & [[= <- <- <-] [= _ <-]]%ret_inr).
  2: { apply list.Forall_forall. intros r Hr%list_elem_of_filter. apply Hr. }
  split; [done|]. apply mapM_Some in Hrepos. exists repos, contents, rhIDs. split_and!; [done..|]. done.
Qed.

Context (url_Path : string → goerr + string).

(** The overrides of the repositories, in the order of the repositories. *)
Definition template_overrides (w : W) (orgId : string) (ds : domain_names) (path t : string) (uuids : list string)
    (overrides : list ContentOverrideDTO) : Prop :=
  ∃ ls, overrides = concat ls ∧ Forall2 (λ u l, ∃ repo, repo_view tasks w.(tw_db) u = Some repo ∧
    contentOverridesForRepo url_Path JoinPath (domain_of w.(tw_domains) orgId ds repo) t path repo false = inr l) uuids ls.

Lemma GenOverrideDTO_run orgId ds path template uuids fs (w : W) l fs' w' :
  GenOverrideDTO tasks url_Path JoinPath orgId ds path template uuids (fs, w) = (inr l, (fs', w')) →
  w' = w ∧ template_overrides w orgId ds path template.(tr_UUID) uuids l ∧ Forall complete l.
Proof.
  unfold GenOverrideDTO. intros H. assert (∃ u us, uuids = u :: us) as (u & us & ->) by (destruct uuids; [done|eauto]).
  revert H. generalize (u :: us) as us'. intros us' H. change us' with ([] ++ us')%list at 1.
  revert H. apply (foldM_run _ (λ pre acc w1, w1 = w ∧ template_overrides w orgId ds path (tr_UUID template) pre acc ∧ Forall complete acc)).
  - intros pre b a fs0 w0 a' fs0' w0' _ (-> & (ls & -> & Hls) & Hc) H.
    apply bind_inr in H as (repo & [fs1 w1] & [-> Hr]%repo_fetch_run & H).
    apply bind_inr in H as (dom & [fs2 w2] & [-> ->]%repo_domain_run & H).
    apply bind_inr in H as (ov & [fs3 w3] & [Ho [= -> ->]]%lift_run & [<- [= _ <-]]%ret_inr).
    split; [done|]. split; [|apply Forall_app; split; [done|by eapply contentOverrides_complete]].
    exists (ls ++ [ov])%list. split; [rewrite concat_app; cbn; by rewrite app_nil_r|]. apply Forall2_app; [done|]. repeat constructor. eauto.
  - split; [done|]. split; [exists []; split; [done|constructor]|constructor].
Qed.

End Content.

(** ** Overrides in Candlepin *)

Section Overrides.
Context {S C P : Type} `{HC : PulpClient S} `{HK : CandlepinApi C} `{HKL : !CandlepinLaws C}.
Abbreviation W := (tworld S C P).
#[local] Set Default Proof Using "Type*".

Definition same_but_cp (w w' : W) : Prop := w'.(tw_db) = w.(tw_db) ∧ w'.(tw_domains) = w.(tw_domains) ∧ w'.(tw_pulp) = w.(tw_pulp).

Lemma RemoveUneeded_run t expected fs (w : W) fs' w' :
  Forall complete expected → RemoveUneededOverrides t expected (fs, w) = (inr (), (fs', w')) →
  same_but_cp w w' ∧ env_content w'.(tw_cp) (GetEnvironmentID t) = env_content w.(tw_cp) (GetEnvironmentID t) ∧
  ∀ k, is_Some (env_overrides w'.(tw_cp) (GetEnvironmentID t) !! k) → k ∈ omap override_key expected.
Proof.
  intros He H. unfold RemoveUneededOverrides in H.
  apply bind_inr in H as (existing & [fs1 w1] & Hf & H). pose proof (same_request _ _ _ (cpq_overrides _) _ _ _ _ _ Hf) as (? & ? & ? & Hsame).
  apply cp_run in Hf as (c1 & [(a & Ha & ->)|(e & _ & Hx)]%request_inr & ->); [|done]. apply get_overrides in Ha. cbn [id] in *.
  assert (Forall complete a) as Hca.
  { apply list.Forall_forall. intros o Ho. assert (override_entry o ∈ override_entry <$> a) as Hin by set_solver.
    rewrite Ha in Hin. apply list_elem_of_fmap in Hin as (kv & Hkv%entry_complete & _). by do 3 eexists. }
  assert (∀ k, is_Some (env_overrides (tw_cp w) (GetEnvironmentID t) !! k) → k ∈ omap override_key a) as Hkeys.
  { intros k [v Hv]. assert (Some (k, v) ∈ override_entry <$> a) as Hin.
    { rewrite Ha. apply list_elem_of_fmap_2. by apply elem_of_map_to_list. }
    apply list_elem_of_fmap in Hin as (o & Ho%symmetry%entry_complete & Hin). apply list_elem_of_omap. exists o. split; [done|].
    rewrite Ho. by destruct k. }
  apply bind_inr in H as (del & w2 & [Hdel ->]%deref_inr & H). pose proof (unneeded_keys _ _ _ Hca He Hdel) as Hk.
  destruct (Hsame (GetEnvironmentID t)) as [Hc1 Ho1]. cbn in Hc1, Ho1.
  destruct del as [|x del].
  - apply ret_inr in H as [_ [= _ <-]]. split; [done|]. cbn. split; [done|]. intros k Hs. rewrite Ho1 in Hs.
    destruct (decide (k ∈ omap override_key expected)); [done|]. exfalso. apply (not_elem_of_nil k), Hk. auto.
  - apply cp_run in H as (c2 & [([] & Hr & _)|(e & _ & Hx)]%request_inr & ->); [|done]. apply delete_overrides in Hr as [Hc2 Ho2].
    split; [done|]. cbn in *. split; [congruence|]. intros k [v Hv]. rewrite Ho2 in Hv. apply map_lookup_filter_Some in Hv as [Hv Hn].
    rewrite Ho1 in Hv. cbn in Hn. destruct (decide (k ∈ omap override_key expected)); [done|]. destruct Hn. apply Hk. eauto.
Qed.
End Overrides.

(** ** The environment *)

(** What is promoted and demoted makes the content of the environment [ids], if no identifier has a dash. *)
Lemma difference_plain (l l' : list string) :
  (∀ x, x ∈ l → GetContentID x = x) → GetContentID <$> difference l l' = difference l l'.
Proof.
  intros H. rewrite <- (list_fmap_id (difference l l')) at 2. apply Forall_fmap_ext, list.Forall_forall.
  intros x [_ Hx]%list_elem_of_filter. by apply H.
Qed.
Lemma promoted_demoted (inEnv ids : list string) :
  (∀ x, x ∈ inEnv ∨ x ∈ ids → GetContentID x = x) →
  (list_to_set inEnv ∪ list_to_set (GetContentID <$> difference ids inEnv)) ∖ list_to_set (GetContentID <$> difference inEnv ids)
  = (list_to_set ids : gset string).
Proof.
  intros H. rewrite !difference_plain by auto. apply set_eq. intros x. unfold difference.
  rewrite elem_of_difference, elem_of_union, !elem_of_list_to_set, !list_elem_of_filter.
  destruct (decide (x ∈ ids)), (decide (x ∈ inEnv)); naive_solver.
Qed.

Section Environment.
Context {S C : Type} `{HC : PulpClient S} `{HK : CandlepinApi C} `{HKL : !CandlepinLaws C} `{HU : UuidText}.
Abbreviation W := (tworld S C UpdateTemplateContentPayload).
#[local] Set Default Proof Using "Type*".

Lemma promote_run t l fs (w : W) fs' w' :
  (match l with [] => mret () | _ => promoteContent t l end) (fs, w) = (inr (), (fs', w')) →
  same_but_cp w w' ∧
  env_content w'.(tw_cp) (GetEnvironmentID t) = env_content w.(tw_cp) (GetEnvironmentID t) ∪ list_to_set (GetContentID <$> l).
Proof.
  destruct l as [|x l].
  - intros [_ [= _ <-]]%ret_inr. split; [done|]. set_solver.
  - intros (c & [([] & Hp & _)|(e & _ & Hx)]%request_inr & ->)%cp_run; [|done]. apply promote_content in Hp as [Hp _]. split; [done|]. exact Hp.
Qed.
Lemma demote_run t l fs (w : W) fs' w' :
  (match l with [] => mret () | _ => demoteContent t l end) (fs, w) = (inr (), (fs', w')) →
  same_but_cp w w' ∧
  env_content w'.(tw_cp) (GetEnvironmentID t) = env_content w.(tw_cp) (GetEnvironmentID t) ∖ list_to_set (GetContentID <$> l).
Proof.
  destruct l as [|x l].
  - intros [_ [= _ <-]]%ret_inr. split; [done|]. set_solver.
  - intros (c & [([] & Hp & _)|(e & _ & Hx)]%request_inr & ->)%cp_run; [|done]. apply demote_content in Hp as [Hp _]. split; [done|]. exact Hp.
Qed.

Lemma rename_run template env fs (w : W) env' fs' w' :
  list_to_set env.(ev_Content) = env_content w.(tw_cp) (GetEnvironmentID template.(tr_UUID)) →
  renameEnvironmentIfNeeded template env (fs, w) = (inr env', (fs', w')) →
  cp_same w w' ∧ list_to_set env'.(ev_Content) = env_content w'.(tw_cp) (GetEnvironmentID template.(tr_UUID)).
Proof.
  intros He (name & w1 & [_ ->]%deref_inr & H)%bind_inr. case_match; [by apply ret_inr in H as [<- [= _ <-]]|].
  pose proof (same_request _ _ _ (cpq_rename _ _) _ _ _ _ _ H) as Hs. split; [done|]. destruct Hs as (_ & _ & _ & Hs).
  destruct (Hs (GetEnvironmentID (tr_UUID template))) as [-> _].
  apply cp_run in H as (c & [(a & Ha & ->)|(e & _ & Hx)]%request_inr & ->); [|done]. by eapply renamed_content.
Qed.

Lemma same_cp_trans w1 w2 w3 : same_but_cp w1 w2 → same_but_cp w2 w3 → same_but_cp (S := S) (C := C) (P := UpdateTemplateContentPayload) w1 w3.
Proof. unfold same_but_cp. intros (? & ? & ?) (? & ? & ?). split_and!; congruence. Qed.
Lemma cp_same_but w1 w2 : cp_same w1 w2 → same_but_cp (S := S) (C := C) (P := UpdateTemplateContentPayload) w1 w2.
Proof. unfold cp_same, same_but_cp. naive_solver. Qed.

Context (tasks : gmap uuid TaskView).
Context (url_Path : string → goerr + string) (JoinPath : string → list string → goerr + string).

(** The environment has the contents [ids], if no identifier involved has a dash, and exactly the overrides of the repositories. *)
Definition environment_set (w : W) (orgId : string) (ds : domain_names) (path t : string) (uuids ids : list string) (w' : W) : Prop :=
  let id := GetEnvironmentID t in
  ((∀ x, x ∈ env_content w.(tw_cp) id ∨ x ∈ ids → GetContentID x = x) → env_content w'.(tw_cp) id = list_to_set ids) ∧
  ∃ overrides, template_overrides tasks JoinPath url_Path w orgId ds path t uuids overrides ∧
    env_overrides w'.(tw_cp) id = put_overrides ∅ overrides.

Lemma template_overrides_same (w w' : W) orgId ds path t uuids l :
  same_but_cp w w' → template_overrides tasks JoinPath url_Path w' orgId ds path t uuids l →
  template_overrides tasks JoinPath url_Path w orgId ds path t uuids l.
Proof. intros (Hd & Hm & _). unfold template_overrides. by rewrite Hd, Hm. Qed.

Lemma set_environment_run orgId ds template uuids path env ids fs (w : W) fs' w' :
  list_to_set env.(ev_Content) = env_content w.(tw_cp) (GetEnvironmentID template.(tr_UUID)) →
  set_environment tasks url_Path JoinPath orgId ds template template.(tr_UUID) uuids path env ids (fs, w) = (inr (), (fs', w')) →
  same_but_cp w w' ∧ environment_set w orgId ds path template.(tr_UUID) uuids ids w'.
Proof.
  intros He (env' & [fs1 w1] & [Hs1 He1]%rename_run & H)%bind_inr; [|done].
  apply bind_inr in H as ([] & [fs2 w2] & [Hs2 Hp]%promote_run & H).
  apply bind_inr in H as ([] & [fs3 w3] & [Hs3 Hd]%demote_run & H).
  apply bind_inr in H as (dtos & [fs4 w4] & (-> & Hov & Hc)%GenOverrideDTO_run & H).
  apply bind_inr in H as ([] & [fs5 w5] & (Hs5 & Hc5 & Hk)%RemoveUneeded_run & H); [|done].
  apply cp_run in H as (c & [([] & Hu & _)|(e & _ & Hx)]%request_inr & ->); [|done]. apply put_content in Hu as [Hc6 Ho6].
  destruct Hs1 as (? & ? & ? & Hsame). assert (same_but_cp w w3) as Hw3.
  { eapply same_cp_trans; [|done]. by eapply same_cp_trans; [|done]. }
  split; [eapply same_cp_trans; [done|]; eapply same_cp_trans; [done|done]|]. split.
  - intros Hplain. cbn. rewrite Hc6, Hc5, Hd, Hp, <- He1. apply promoted_demoted. intros x Hx. apply Hplain.
    destruct (Hsame (GetEnvironmentID (tr_UUID template))) as [<- _]. rewrite <- He1. by rewrite elem_of_list_to_set.
  - exists dtos. split; [by eapply template_overrides_same|]. cbn. rewrite Ho6. apply put_overrides_covered.
    intros k. rewrite keys_of_entries by done. destruct (env_overrides (tw_cp w5) _ !! k) eqn:E; [right; apply Hk; by eexists|].
    left. by rewrite lookup_empty.
Qed.
End Environment.

Section Candlepin.
Context {S C : Type} `{HC : PulpClient S} `{HK : CandlepinApi C} `{HKL : !CandlepinLaws C} `{HU : UuidText}.
Context (DevelOrg : bool) (content_path : goerr + string) (tasks : gmap uuid TaskView) (externalURL fullRootPath : string).
Context (url_Path : string → goerr + string) (JoinPath : string → list string → goerr + string).
Abbreviation W := (tworld S C UpdateTemplateContentPayload).
#[local] Set Default Proof Using "Type*".

Lemma RunCandlepin_run orgId ds template uuids env fs (w : W) fs' w' :
  list_to_set env.(ev_Content) = env_content w.(tw_cp) (GetEnvironmentID template.(tr_UUID)) →
  RunCandlepin DevelOrg content_path tasks externalURL fullRootPath url_Path JoinPath orgId ds template template.(tr_UUID) uuids env (fs, w)
    = (inr (), (fs', w')) →
  same_but_cp w w' ∧ ∃ path ids, content_path = inr path ∧
    template_contents tasks w.(tw_db) (owner_contents w.(tw_cp) (OwnerKey DevelOrg orgId)) uuids ids ∧
    environment_set tasks url_Path JoinPath w orgId ds path template.(tr_UUID) uuids ids w'.
Proof.
  intros He H. unfold RunCandlepin in H.
  apply bind_inr in H as ([] & [fs1 w1] & H1%early_CreateProduct & H).
  apply bind_inr in H as (pool & [fs2 w2] & H2%early_CreatePool & H).
  apply bind_inr in H as ([] & [fs3 w3] & H3%early_mem & H).
  apply bind_inr in H as ([] & [fs4 w4] & H4%early_payload & H).
  apply bind_inr in H as (path & w5 & [Hpath ->]%lift_run & H).
  assert (cp_early w w4) as [Hs4 Hcon] by (etrans; [done|]; etrans; [done|]; by etrans). clear H1 H2 H3 H4.
  apply bind_inr in H as ([[content custom] rh] & [fs5 w5] & [Hs5 Hids]%getContentList_run & H).
  apply bind_inr in H as ([] & [fs6 w6] & H6 & H).
  assert (cp_same w5 w6) as Hs6.
  { revert H6. apply (preserves_iter cp_same). intros item. apply same_request. constructor. }
  apply bind_inr in H as ([] & [fs7 w7] & H7 & H).
  assert (cp_same w6 w7) as Hs7 by (revert H7; apply same_request; constructor). clear H6 H7.
  assert (cp_same w w7) as Hs by (etrans; [exact Hs4|]; etrans; [exact Hs5|]; by etrans).
  pose proof Hs as (Hdb & Hdm & _ & Hsame). destruct (Hsame (GetEnvironmentID (tr_UUID template))) as [Hcont Hovr].
  apply set_environment_run in H as [Hs8 [Hset1 (overrides & Hov & Hset2)]]; [|by rewrite Hcont].
  split; [eapply same_cp_trans; [by apply cp_same_but|done]|].
  exists path, (custom ++ rh)%list. split_and!; [done| |].
  - destruct Hs4 as (Hd4 & _). by rewrite <- Hd4, <- Hcon.
  - split; [by rewrite <- Hcont|]. exists overrides. split; [|done]. eapply template_overrides_same; [|done]. by apply cp_same_but.
Qed.
End Candlepin.
