(* ===== verification/TemplatePulp.v ===== *)
(** * What the template task does to Pulp and to the rows of the template

    When [RunPulp] succeeds, the rows of the template are those of the requested repositories and refer to the snapshots
    selected by the template's date, and what is served at the places of these repositories is the publication of those
    snapshots, under the right guard. *)

From S2P Require Import Prelude GoStrings GoSplit Config TxMonad Utils Models Errors DaoHelpers GoText SnapshotDao SnapshotThms TemplateDao TemplateThms TemplateLists SnapshotHandler SnapshotHandlerThms RepoConfigDao Pulp Distribution TaskEnv PublishTask DeleteTask DeleteTaskThms Candlepin TemplateTask TemplateCandlepin.
From stdpp Require Import options.

Open Scope string_scope.

Lemma Forall2_in_l {A B} (R : A → B → Prop) l k x : Forall2 R l k → x ∈ l → ∃ y, y ∈ k ∧ R x y.
Proof. intros H (i & Hi)%list_elem_of_lookup_1. destruct (Forall2_lookup_l _ _ _ _ _ H Hi) as (y & Hy & ?). eauto using list_elem_of_lookup_2. Qed.
Lemma Forall2_in_r {A B} (R : A → B → Prop) l k y : Forall2 R l k → y ∈ k → ∃ x, x ∈ l ∧ R x y.
Proof. intros H (i & Hi)%list_elem_of_lookup_1. destruct (Forall2_lookup_r _ _ _ _ _ H Hi) as (x & Hx & ?). eauto using list_elem_of_lookup_2. Qed.

(** ** Deleting by href *)

Definition hrefs_removed (hrefs : list string) (m m' : gmap (string * string) DistInfo) : Prop :=
  (∀ k i, m' !! k = Some i → m !! k = Some i ∧ ∀ h, h ∈ hrefs → h ≠ "" → i.(i_PulpHref) ≠ Some h) ∧
  (∀ k i, m !! k = Some i → i.(i_PulpHref) ∉ Some <$> hrefs → m' !! k = Some i).

Lemma hrefs_removed_nil m : hrefs_removed [] m m.
Proof. split; [|done]. intros k i H. split; [done|]. by intros h ?%not_elem_of_nil. Qed.

Lemma hrefs_removed_cons h hs m1 m2 m3 : hrefs_removed [h] m1 m2 → hrefs_removed hs m2 m3 → hrefs_removed (h :: hs) m1 m3.
Proof.
  intros [Ha Hb] [Hc Hd]. split.
  - intros k i [Hi Hhs]%Hc. apply Ha in Hi as [Hi Hh]. split; [done|]. intros h' [->|?]%elem_of_cons; [|auto].
    apply Hh. by left.
  - intros k i Hi Hn. cbn in Hn. apply not_elem_of_cons in Hn as [Hn1 Hn2]. apply Hd; [|done]. apply Hb; [done|].
    cbn. intros [?|?%not_elem_of_nil]%elem_of_cons; done.
Qed.

Section Delete.
Context {S C P : Type} `{HC : PulpClient S} `{HL : !PulpLaws S}.
Abbreviation W := (tworld S C P).
#[local] Set Default Proof Using "Type*".

Lemma delete_distribution_run dom href fs (w : W) fs' w' :
  tasks_complete S → delete_distribution dom href (fs, w) = (inr (), (fs', w')) →
  ∃ s, w' = set_pulp s w ∧ hrefs_removed [href] (dists w.(tw_pulp)) (dists s).
Proof.
  intros Hdone (o & [fs1 w1] & (s1 & Hd%call_inr & ->)%pulp_run & H)%bind_inr. destruct o as [t|].
  - apply bind_inr in H as (tr & [fs2 w2] & (s2 & Hp%call_inr & ->)%pulp_run & [_ [= _ <-]]%ret_inr). exists s2. split; [done|].
    rewrite (delete_poll _ _ _ _ _ _ _ Hd Hp (Hdone _ _ _ _ _ Hp)). split.
    + intros k i [Hi Hn]%map_lookup_filter_Some. split; [done|]. by intros h ->%list_elem_of_singleton _.
    + intros k i Hi Hn. apply map_lookup_filter_Some. split; [done|]. cbn in *. set_solver.
  - apply ret_inr in H as [_ [= _ <-]]. exists s1. split; [done|]. destruct (delete_none _ _ _ _ Hd) as [-> Hno]. split; [|done].
    intros k i Hi. split; [done|]. intros h ->%list_elem_of_singleton Hne. by eapply Hno.
Qed.
End Delete.

(** ** Rows *)

Definition only_trcs (d d' : db) : Prop := d' = set_trcs (λ _, d'.(trcs)) d.
Lemma only_trcs_trans d1 d2 d3 : only_trcs d1 d2 → only_trcs d2 d3 → only_trcs d1 d3.
Proof. unfold only_trcs. intros -> ->. done. Qed.
Lemma only_trcs_set f d : only_trcs d (set_trcs f d).
Proof. done. Qed.

Lemma repo_view_trcs `{UuidText} tasks d d' u : only_trcs d d' → repo_view tasks d' u = repo_view tasks d u.
Proof. by intros ->. Qed.

Section Rows.
Context `{HU : UuidText} {HUL : UuidLaws}.
#[local] Set Default Proof Using "Type*".

(** The rows for repositories that all have a snapshot in the list, which is the first one of the repository. *)
Lemma matched_rows tu snaps href uuids rows :
  match_snapshots tu snaps href uuids = ([], rows) →
  ∃ uss, Forall2 (λ u us, u = uuid_String (repo_of us) ∧ find_snapshot snaps u = Some us) uuids uss ∧
    with_keys rows = Some (rows_of tu href uss).
Proof.
  revert rows. induction uuids as [|repo uuids IH]; intros rows Hc; cbn [match_snapshots] in Hc; [simplify_eq; by exists []|].
  destruct (match_snapshots tu snaps href uuids) as [missing rest] eqn:Hm.
  destruct (list_find _ snaps) as [[i us]|] eqn:Hf; simplify_eq. destruct (IH rest eq_refl) as (uss & Hall & Hk).
  pose proof (proj1 (list_find_Some _ _ _ _) Hf) as (_ & Hr & _). exists (us :: uss). split.
  - constructor; [|done]. split; [done|]. unfold find_snapshot. by rewrite Hf.
  - unfold with_keys in *. cbn. rewrite <- Hr, pg_String. cbn. by rewrite Hk.
Qed.

(** A statement that writes the rows of the repositories [uuids] from their snapshots. *)
Definition rows_written (merge : TrcRow → TrcRow → TrcRow) (tu : uuid) (snaps : list (uuid * SnapRow)) (href : string → string)
    (uuids : list string) (d d' : db) : Prop :=
  only_trcs d d' ∧
  (∀ u, u ∈ uuids → ∃ us, u = uuid_String (repo_of us) ∧ find_snapshot snaps u = Some us ∧
     let x := mk_TrcRow us.1 (Some (href u)) None in
     d'.(trcs) !! (tu, repo_of us) = Some (match d.(trcs) !! (tu, repo_of us) with Some old => merge old x | None => x end)) ∧
  (∀ k, ¬ (k.1 = tu ∧ uuid_String k.2 ∈ uuids) → d'.(trcs) !! k = d.(trcs) !! k).

Lemma rows_written_upsert merge tu snaps href uuids uss fs d fs' d' :
  Forall2 (λ u us, u = uuid_String (repo_of us) ∧ find_snapshot snaps u = Some us) uuids uss →
  upsert merge (rows_of tu href uss) (fs, d) = (inr (inr ()), (fs', d')) → rows_written merge tu snaps href uuids d d'.
Proof.
  intros Hall (Hnd & -> & _)%upsert_run. split; [done|]. split.
  - intros u Hu. destruct (Forall2_in_l _ _ _ _ Hall Hu) as (us & Hus & -> & Hf). exists us. split; [done|]. split; [done|].
    cbn. erewrite upsert_in; [done|done|]. unfold rows_of. by eapply (list_elem_of_fmap_2 (λ us, (tu, repo_of us, mk_TrcRow us.1 (Some (href (uuid_String (repo_of us)))) None))).
  - intros k Hk. cbn. apply upsert_out. rewrite rows_of_keys. intros (us & -> & Hus)%list_elem_of_fmap. apply Hk. split; [done|]. cbn.
    destruct (Forall2_in_r _ _ _ _ Hall Hus) as (u & Hu & <- & _). done.
Qed.

Lemma UpdateDistributionHrefs_run tu uuids snaps hrefs fs d fs' d' :
  UpdateDistributionHrefs tu uuids snaps hrefs (fs, d) = (inr (), (fs', d')) →
  rows_written merge_href tu snaps (λ u, default "" (hrefs !! u)) uuids d d'.
Proof.
  unfold UpdateDistributionHrefs. destruct (match_snapshots _ _ _ _) as [[|? ?] rows] eqn:Hm; [|done].
  apply matched_rows in Hm as (uss & Hall & Hk). intros H%(create_trcs_run _ _ _ _ _ _ _ Hk). by eapply rows_written_upsert.
Qed.
Lemma UpdateSnapshots_run tu uuids snaps fs d fs' d' :
  uuids ≠ [] → UpdateSnapshots tu uuids snaps (fs, d) = (inr (), (fs', d')) →
  rows_written merge_only_snapshot tu snaps (λ _, "") uuids d d'.
Proof.
  intros Hne. unfold UpdateSnapshots. destruct (match_snapshots _ _ _ _) as [[|? ?] rows] eqn:Hm; [|by destruct rows].
  apply matched_rows in Hm as (uss & Hall & Hk). destruct rows as [|row rows].
  - cbn in Hk. destruct Hall; [done|]. done.
  - intros H%(create_trcs_run _ _ _ _ _ _ _ Hk). by eapply rows_written_upsert.
Qed.
End Rows.

(** ** Distributions *)

Section Served.
Context {S C P : Type} `{HC : PulpClient S} `{HL : !PulpLaws S} `{HU : UuidText}.
Context (guards : bool) (tasks : gmap uuid TaskView) (url_Path : string → goerr + string).
Context (d : db) (doms : gmap string string) (orgId : string) (ds : domain_names) (t : string) (snaps : list (uuid * SnapRow)).
Abbreviation W := (tworld S C P).
#[local] Set Default Proof Using "Type*".

(** Where the content of a repository is served for the template. *)
Definition repo_place (u : string) : option (RepoResponse * (string * string)) :=
  repo ← repo_view tasks d u;
  match getDistPathAndName url_Path repo t with inr (p, _) => Some (repo, (domain_of doms orgId ds repo, p)) | inl _ => None end.

(** The distribution serves the snapshot, which may be served to the organization, behind the guard it needs. *)
Definition serves_snapshot (dom : string) (repo : RepoResponse) (snap : uuid * SnapRow) (i : DistInfo) : Prop :=
  i.(i_Publication) = Some (Some snap.2.(s_PublicationHref)) ∧
  guard_for (S := S) dom (template_guard guards repo orgId) i.(i_ContentGuard) ∧ may_serve repo orgId snap.2.

(** What is at the place of the repository, if anything, serves the snapshot chosen for it ... *)
Definition served_only (s : S) (u : string) : Prop :=
  ∃ repo k snap, repo_place u = Some (repo, k) ∧ find_snapshot snaps u = Some snap ∧ ∀ i, dists s !! k = Some i → serves_snapshot k.1 repo snap i.
(** ... and it is there. *)
Definition served_repo (s : S) (u : string) : Prop :=
  served_only s u ∧ ∃ repo k i, repo_place u = Some (repo, k) ∧ dists s !! k = Some i.

(** One repository: its distribution is made or changed, and no other. *)
Definition place_step (u : string) (s s' : S) : Prop :=
  ∃ repo k snap i, repo_place u = Some (repo, k) ∧ find_snapshot snaps u = Some snap ∧ dists s' !! k = Some i ∧
    serves_snapshot k.1 repo snap i ∧ ∀ k', k' ≠ k → dists s' !! k' = dists s !! k'.

Lemma template_distribution_step repo snap name p u fs s r fs' s' :
  tasks_complete S → repo_view tasks d u = Some repo → find_snapshot snaps u = Some snap → getDistPathAndName url_Path repo t = inr (p, name) →
  CreateOrUpdateTemplateDistribution guards (domain_of doms orgId ds repo) repo snap orgId name p (fs, s) = (inr r, (fs', s')) →
  place_step u s s'.
Proof.
  intros Hdone Hr Hf Hp (g & [(i & Hi & Hpub & Hg) Hother] & Hguard)%CreateOrUpdateTemplateDistribution_serves; [|done].
  exists repo, (domain_of doms orgId ds repo, p), snap, i. unfold repo_place. rewrite Hr. cbn. rewrite Hp. split_and!; try done.
  split; [done|]. by rewrite Hg.
Qed.

Lemma add_repo_run hrefs u fs (w : W) hrefs' fs' w' :
  tasks_complete S → only_trcs d w.(tw_db) → w.(tw_domains) = doms →
  add_repo guards tasks url_Path orgId ds t snaps hrefs u (fs, w) = (inr hrefs', (fs', w')) →
  ∃ s, w' = set_pulp s w ∧ place_step u w.(tw_pulp) s.
Proof.
  intros Hdone Hd Hm H. unfold add_repo in H.
  apply bind_inr in H as (repo & [fs1 w1] & [-> Hr]%repo_fetch_run & H).
  apply bind_inr in H as (dom & [fs2 w2] & [-> ->]%repo_domain_run & H).
  destruct (find_snapshot snaps u) as [snap|] eqn:Hf; [|done].
  apply bind_inr in H as ([p name] & w3 & [Hp ->]%lift_run & H).
  apply bind_inr in H as ([href x] & [fs4 w4] & (s & Hc & ->)%pulp_run & [_ [= _ <-]]%ret_inr).
  exists s. split; [done|]. rewrite (repo_view_trcs _ _ _ _ Hd) in Hr. rewrite Hm in Hc. by eapply template_distribution_step.
Qed.

(** A repository that had a distribution: also, the href that is noted is that of its distribution. *)
Lemma keep_repo_run hrefs u fs (w : W) hrefs' fs' w' :
  tasks_complete S → only_trcs d w.(tw_db) → w.(tw_domains) = doms →
  keep_repo guards tasks url_Path orgId ds t snaps hrefs u (fs, w) = (inr hrefs', (fs', w')) →
  find_snapshot snaps u = None ∧ w' = w ∧ hrefs' = hrefs ∨
  ∃ s repo k i, w' = set_pulp s w ∧ place_step u w.(tw_pulp) s ∧ repo_place u = Some (repo, k) ∧ dists s !! k = Some i ∧
    ∃ href, i.(i_PulpHref) = Some href ∧ hrefs' = <[u := href]> hrefs.
Proof.
  intros Hdone Hd Hm H. unfold keep_repo in H.
  apply bind_inr in H as (repo & [fs1 w1] & [-> Hr]%repo_fetch_run & H).
  apply bind_inr in H as (dom & [fs2 w2] & [-> ->]%repo_domain_run & H).
  destruct (find_snapshot snaps u) as [snap|] eqn:Hf; [|left; by apply ret_inr in H as [<- [= _ <-]]].
  apply bind_inr in H as ([p name] & w3 & [Hp ->]%lift_run & H).
  apply bind_inr in H as ([href0 x] & [fs4 w4] & (s & Hc & ->)%pulp_run & H).
  apply bind_inr in H as (dist & [fs5 w5] & (s' & [Hq ->]%find_call & ->)%pulp_run & H).
  apply bind_inr in H as (href & w6 & [Hh ->]%deref_inr & [<- [= _ <-]]%ret_inr).
  right. rewrite (repo_view_trcs _ _ _ _ Hd) in Hr. rewrite Hm in Hc, Hh. eapply template_distribution_step in Hc; [|done..]. cbn in Hq, Hh.
  destruct Hc as (repo' & k & snap' & i & Hk & Hs & Hi & Hsv & Ho).
  exists s', repo', k, i. split; [done|]. split; [exists repo', k, snap', i; by rewrite !Hq|]. rewrite Hq. split_and!; [done..|].
  assert (k = (domain_of doms orgId ds repo, p)) as ->.
  { unfold repo_place in Hk. rewrite Hr in Hk. cbn in Hk. rewrite Hp in Hk. by simplify_eq. }
  rewrite Hi in Hh. cbn in Hh. by exists href.
Qed.

Context (uuids : list string).
(** No two of the repositories are served at the same place. *)
Definition places_apart : Prop := ∀ u v r r' k,
  u ∈ uuids → v ∈ uuids → repo_place u = Some (r, k) → repo_place v = Some (r', k) → u = v.

Lemma place_step_self u s s' : place_step u s s' → served_repo s' u.
Proof.
  intros (repo & k & snap & i & Hk & Hf & Hi & Hs & _). split; [|by exists repo, k, i].
  exists repo, k, snap. split; [done|]. split; [done|]. intros i' Hi'. by simplify_eq.
Qed.
Lemma place_step_only u v s s' : places_apart → u ∈ uuids → v ∈ uuids → place_step u s s' → served_only s v → served_only s' v.
Proof.
  intros Hap Hu Hv Hstep (repo & k & snap & Hk & Hf & Hs). destruct (decide (u = v)) as [->|Hne]; [by apply place_step_self in Hstep as [? _]|].
  destruct Hstep as (repo' & k' & snap' & i' & Hk' & _ & _ & _ & Ho). exists repo, k, snap. split; [done|]. split; [done|].
  rewrite Ho; [done|]. intros ->. apply Hne. by eapply Hap.
Qed.
Lemma place_step_repo u v s s' : places_apart → u ∈ uuids → v ∈ uuids → place_step u s s' → served_repo s v → served_repo s' v.
Proof.
  intros Hap Hu Hv Hstep [Honly (repo & k & i & Hk & Hi)]. destruct (decide (u = v)) as [->|Hne]; [by eapply place_step_self|].
  split; [by apply (place_step_only u v s s')|]. destruct Hstep as (repo' & k' & snap' & i' & Hk' & _ & _ & _ & Ho). exists repo, k, i.
  split; [done|]. rewrite Ho; [done|]. intros ->. apply Hne. by eapply Hap.
Qed.

(** Elsewhere nothing changes. *)
Definition elsewhere (s s' : S) : Prop := ∀ k, (∀ u repo, u ∈ uuids → repo_place u ≠ Some (repo, k)) → dists s' !! k = dists s !! k.
Lemma place_step_elsewhere u s s' : u ∈ uuids → place_step u s s' → elsewhere s s'.
Proof. intros Hu (repo & k & snap & i & Hk & _ & _ & _ & Ho) k' Hk'. apply Ho. intros ->. by apply (Hk' u repo). Qed.
End Served.

(** ** The loops *)

Section Loops.
Context {S C P : Type} `{HC : PulpClient S} `{HL : !PulpLaws S} `{HU : UuidText} {HUL : UuidLaws}.
Context (guards : bool) (tasks : gmap uuid TaskView) (url_Path : string → goerr + string).
Context (d : db) (doms : gmap string string) (orgId : string) (ds : domain_names) (t : string) (snaps : list (uuid * SnapRow)).
Context (uuids : list string).
Abbreviation W := (tworld S C P).
Abbreviation served_repo := (served_repo guards tasks url_Path d doms orgId ds t snaps).
Abbreviation served_only := (served_only guards tasks url_Path d doms orgId ds t snaps).
Abbreviation repo_place := (repo_place tasks url_Path d doms orgId ds t).
Abbreviation elsewhere := (elsewhere tasks url_Path d doms orgId ds t uuids).
Hypothesis apart : places_apart tasks url_Path d doms orgId ds t uuids.
Hypothesis done_tasks : tasks_complete S.
#[local] Set Default Proof Using "Type*".

Lemma handleReposAdded_run l fs (w : W) hrefs fs' w' :
  (∀ u, u ∈ l → u ∈ uuids) → only_trcs d w.(tw_db) → w.(tw_domains) = doms →
  handleReposAdded guards tasks url_Path orgId ds t l snaps ∅ (fs, w) = (inr hrefs, (fs', w')) →
  ∃ s, w' = set_pulp s w ∧ (∀ u, u ∈ l → served_repo s u) ∧ elsewhere w.(tw_pulp) s.
Proof.
  intros Hl Hd Hm H. unfold handleReposAdded in H.
  apply (foldM_run _ (λ pre _ w1, (∀ u, u ∈ pre → u ∈ uuids) ∧ ∃ s, w1 = set_pulp s w ∧ (∀ u, u ∈ pre → served_repo s u) ∧ elsewhere w.(tw_pulp) s)
           l []) in H as [_ H]; [exact H| |].
  - intros pre b a fs0 w0 a' fs0' w0' Hb [Hpre (s & -> & Hs & He)] (s' & -> & Hstep)%(add_repo_run _ _ _ d doms); [|done..].
    cbn in Hstep. split; [intros u [?| ->%list_elem_of_singleton]%elem_of_app; auto|]. exists s'. split; [done|]. split.
    + intros u [Hu| ->%list_elem_of_singleton]%elem_of_app; [|by eapply place_step_self].
      by apply (place_step_repo _ _ _ _ _ _ _ _ _ uuids b u s s'); auto.
    + intros k Hk. rewrite <- (He k Hk). by apply (place_step_elsewhere guards tasks url_Path d doms orgId ds t snaps uuids b s s'); auto.
  - split; [by intros u ?%not_elem_of_nil|]. exists (tw_pulp w). split; [by destruct w|]. split; [by intros u ?%not_elem_of_nil|done].
Qed.

(** The href noted for a repository is that of its distribution. *)
Definition noted (hrefs : gmap string string) (s : S) (u : string) : Prop :=
  ∃ repo k i href, repo_place u = Some (repo, k) ∧ dists s !! k = Some i ∧ i.(i_PulpHref) = Some href ∧ hrefs !! u = Some href.

Lemma noted_step b u hrefs href s s' :
  b ∈ uuids → u ∈ uuids → b ≠ u → place_step guards tasks url_Path d doms orgId ds t snaps b s s' → noted hrefs s u → noted (<[b := href]> hrefs) s' u.
Proof.
  intros Hb Hu Hne (rb & kb & sb & ib & Hkb & _ & _ & _ & Ho) (repo & k & i & h & Hk & Hi & Hh & Hn).
  exists repo, k, i, h. rewrite lookup_insert_ne by done. split_and!; try done. rewrite Ho; [done|]. intros ->. apply Hne. by eapply apart.
Qed.

Lemma handleReposUnchanged_run l hrefs0 fs (w : W) hrefs fs' w' :
  (∀ u, u ∈ l → u ∈ uuids) → only_trcs d w.(tw_db) → w.(tw_domains) = doms →
  handleReposUnchanged guards tasks url_Path orgId ds t l snaps hrefs0 (fs, w) = (inr hrefs, (fs', w')) →
  ∃ s, w' = set_pulp s w ∧ (∀ u, u ∈ l → find_snapshot snaps u = None ∨ served_repo s u ∧ noted hrefs s u) ∧
    (∀ u, u ∈ uuids → served_only w.(tw_pulp) u → served_only s u) ∧
    (∀ u, u ∈ uuids → served_repo w.(tw_pulp) u → served_repo s u) ∧ elsewhere w.(tw_pulp) s.
Proof.
  intros Hl Hd Hm H. unfold handleReposUnchanged in H.
  apply (foldM_run _ (λ pre hrefs w1, (∀ u, u ∈ pre → u ∈ uuids) ∧ ∃ s, w1 = set_pulp s w ∧
           (∀ u, u ∈ pre → find_snapshot snaps u = None ∨ served_repo s u ∧ noted hrefs s u) ∧
           (∀ u, u ∈ uuids → served_only w.(tw_pulp) u → served_only s u) ∧
           (∀ u, u ∈ uuids → served_repo w.(tw_pulp) u → served_repo s u) ∧ elsewhere w.(tw_pulp) s) l []) in H as [_ H]; [exact H| |].
  - intros pre b a fs0 w0 a' fs0' w0' Hb [Hpre (s & -> & Hs & Ho & Hr & He)] Hrun. split; [intros u [?| ->%list_elem_of_singleton]%elem_of_app; auto|].
    apply (keep_repo_run _ _ _ d doms) in Hrun as [(Hn & -> & ->)|(s' & repo & k & i & -> & Hstep & Hk & Hi & href & Hh & ->)]; [| |done..].
    { exists s. split; [done|]. split; [|done]. intros u [Hu| ->%list_elem_of_singleton]%elem_of_app; auto. }
    cbn in Hstep. assert (b ∈ uuids) as Hbu by auto. exists s'. split; [done|]. split; [|split; [|split]].
    + intros u Hu. destruct (decide (b = u)) as [<-|Hne].
      { right. split; [by eapply place_step_self|]. exists repo, k, i, href. by rewrite lookup_insert_eq. }
      apply elem_of_app in Hu as [Hu| ->%list_elem_of_singleton]; [|done]. destruct (Hs u Hu) as [?|[Hsv Hnt]]; [by left|right]. split.
      * by apply (place_step_repo _ _ _ _ _ _ _ _ _ uuids b u s s'); auto.
      * by apply (noted_step b u _ _ s s'); auto.
    + intros u Hu Hsv. by apply (place_step_only _ _ _ _ _ _ _ _ _ uuids b u s s'); auto.
    + intros u Hu Hsv. by apply (place_step_repo _ _ _ _ _ _ _ _ _ uuids b u s s'); auto.
    + intros k' Hk'. rewrite <- (He k' Hk'). by apply (place_step_elsewhere guards tasks url_Path d doms orgId ds t snaps uuids b s s'); auto.
  - split; [by intros u ?%not_elem_of_nil|]. exists (tw_pulp w). split; [by destruct w|]. split; [by intros u ?%not_elem_of_nil|done].
Qed.
End Loops.

Section Removed.
Context {S C P : Type} `{HC : PulpClient S} `{HL : !PulpLaws S} `{HU : UuidText} {HUL : UuidLaws}.
Context (tasks : gmap uuid TaskView).
Abbreviation W := (tworld S C P).
#[local] Set Default Proof Using "Type*".

(** The href stored for a repository of a template. *)
Definition stored_href (d : db) (tu : uuid) (u href : string) : Prop :=
  ∃ rc x, u = uuid_String rc ∧ d.(trcs) !! (tu, rc) = Some x ∧ x.(x_DistributionHref) = Some href.

(** No repository that satisfies [P] has a null href. *)
Definition hrefs_known (d : db) (tu : uuid) (P : string → Prop) : Prop :=
  ∀ rc x, P (uuid_String rc) → d.(trcs) !! (tu, rc) = Some x → x.(x_DistributionHref) ≠ None.

Lemma handleReposRemoved_run orgId ds tu l fs (w : W) fs' w' :
  tasks_complete S → (∀ u, u ∈ l → ∃ rc, u = uuid_String rc ∧ is_Some (w.(tw_db).(trcs) !! (tu, rc))) →
  handleReposRemoved tasks orgId ds (uuid_String tu) l (fs, w) = (inr (), (fs', w')) →
  ∃ s l' hrefs, w' = set_pulp s w ∧ l' ⊆ l ∧ (hrefs_known w.(tw_db) tu (.∈ l) → l' = l) ∧
    Forall2 (stored_href w.(tw_db) tu) l' hrefs ∧ hrefs_removed hrefs (dists w.(tw_pulp)) (dists s).
Proof.
  intros Hdone. revert fs w. induction l as [|u l IH]; intros fs w Hl H; cbn [handleReposRemoved] in H.
  { apply ret_inr in H as [_ [= _ <-]]. exists (tw_pulp w), [], []. split; [by destruct w|]. split_and!; [done..|constructor|apply hrefs_removed_nil]. }
  apply bind_inr in H as (repo & [fs1 w1] & [-> Hr]%repo_fetch_run & H).
  apply bind_inr in H as (dom & [fs2 w2] & [-> _]%repo_domain_run & H).
  apply bind_inr in H as (o & [fs3 w3] & (d3 & Ho%call_inr & ->)%dao_run & H).
  destruct (Hl u ltac:(by left)) as (rc & -> & x & Hx). rewrite !pg_String, Hx in Ho. injection Ho as <- <-.
  rewrite set_db_id in H. cbn in H. destruct (x_DistributionHref x) as [href|] eqn:Hhref.
  2: { apply ret_inr in H as [_ [= _ <-]]. exists (tw_pulp w), [], []. split; [by destruct w|].
       split_and!; [apply list_subseteq_nil| |constructor|apply hrefs_removed_nil]. intros Hk. by apply (Hk rc x) in Hx; [|left]. }
  apply bind_inr in H as ([] & [fs4 w4] & (s & -> & Hs)%delete_distribution_run & H); [|done].
  apply IH in H as (s' & l' & hrefs & -> & Hsub & Hfull & Hst & Hrm); [|intros u' Hu'; apply (Hl u'); by right]. cbn in Hfull, Hst, Hrm.
  exists s', (uuid_String rc :: l'), (href :: hrefs). split; [done|]. split_and!; [by apply list_subseteq_skip| |constructor; [by exists rc, x|done]|by eapply hrefs_removed_cons].
  intros Hk. f_equal. apply Hfull. intros rc' x' Hin. apply Hk. by right.
Qed.
End Removed.

(** ** The whole run *)

Section Run.
Context {S C P : Type} `{HC : PulpClient S} `{HL : !PulpLaws S} `{HU : UuidText} {HUL : UuidLaws}.
Context (scan : gmap uuid SnapRow → list (uuid * SnapRow)).
Context (scan_trcs : gmap (uuid * uuid) TrcRow → list (uuid * uuid * TrcRow)).
Hypothesis scan_perm : ∀ m, scan m ≡ₚ map_to_list m.
Hypothesis scan_trcs_perm : ∀ m, scan_trcs m ≡ₚ map_to_list m.
#[local] Set Default Proof Using "Type*".

Lemma changes_all new rows x :
  x ∈ all (foldr (classify new) (mk_RepoChanges [] [] [] []) rows) → ∃ kx, kx ∈ rows ∧ x = uuid_String kx.1.2.
Proof.
  induction rows as [|kx rows IH]; cbn; [by intros ?%not_elem_of_nil|]. unfold classify at 1.
  assert (x ∈ uuid_String kx.1.2 :: all (foldr (classify new) (mk_RepoChanges [] [] [] []) rows) → ∃ kx', kx' ∈ kx :: rows ∧ x = uuid_String kx'.1.2) as Hc.
  { intros [->|(kx' & ? & ?)%IH]%elem_of_cons; [exists kx; split; [by left|done]|exists kx'; split; [by right|done]]. }
  by repeat case_match.
Qed.

Lemma changes_run tu new fs d c fs' d' :
  GetRepoChanges scan_trcs (uuid_String tu) new (fs, d) = (inr c, (fs', d')) →
  d' = d ∧ (∀ x, x ∈ c.(added) ∨ x ∈ c.(unchanged) → x ∈ new) ∧
  (∀ x, x ∈ c.(removed) → x ∉ new ∧ ∃ rc, x = uuid_String rc ∧ is_Some (d.(trcs) !! (tu, rc))) ∧
  (∀ x, x ∈ c.(all) → ∃ rc, x = uuid_String rc ∧ is_Some (d.(trcs) !! (tu, rc))) ∧
  (∀ rc x, d.(trcs) !! (tu, rc) = Some x →
     uuid_String rc ∈ (if decide (uuid_String rc ∈ new) then if decide (href_field x = "") then c.(added) else c.(unchanged) else c.(removed))).
Proof.
  intros H%map_err_inr%call_inr. rewrite pg_String in H. injection H as Hc <-.
  assert (∀ kx, kx ∈ base.filter (λ kx : uuid * uuid * TrcRow, kx.1.1 = tu) (scan_trcs d.(trcs)) ↔
            kx.1.1 = tu ∧ d.(trcs) !! (tu, kx.1.2) = Some kx.2) as Hrow.
  { intros [[tu' rc] x]. rewrite list_elem_of_filter, scan_trcs_perm, elem_of_map_to_list. cbn. naive_solver. }
  pose proof (classify_spec new _ c (eq_sym Hc)) as Hcl. split; [done|]. split_and!.
  - intros x. destruct (Hcl x) as (-> & -> & _). naive_solver.
  - intros x. destruct (Hcl x) as (_ & _ & ->). intros ([[tu' rc] y] & [_ Hy]%Hrow & -> & Hn). split; [done|]. cbn in *. eauto.
  - intros x. rewrite <- Hc. intros ([[tu' rc] y] & [_ Hy]%Hrow & ->)%changes_all. cbn in *. eauto.
  - intros rc x Hx. destruct (Hcl (uuid_String rc)) as (Ha & Hu & Hr). assert (((tu, rc), x) ∈ base.filter (λ kx : uuid * uuid * TrcRow, kx.1.1 = tu) (scan_trcs d.(trcs))) as Hin by (by apply Hrow).
    repeat case_decide; [apply Ha|apply Hu|apply Hr]; by exists (tu, rc, x).
Qed.

(** The snapshot found for a repository is the one nearest to the date. *)
Lemma found_nearest d orgId repos date u us :
  find_snapshot (snapshots_by_date scan d orgId repos date) u = Some us →
  u = uuid_String (repo_of us) ∧ repo_of us ∈ repos ∧ nearest (candidate d orgId [repo_of us]) date us.
Proof.
  unfold find_snapshot. destruct (list_find _ _) as [[i us']|] eqn:Hf; intros [= ->].
  apply list_find_Some in Hf as (Hi%list_elem_of_lookup_2 & Hu & _). split; [done|].
  apply (elem_of_snapshots_by_date scan scan_perm), (combined_nearest scan scan_perm) in Hi as [(Hs & Hin & Hl & Hr) Hbest]. split; [done|].
  assert (∀ y, candidate d orgId [repo_of us] y → candidate d orgId repos y ∧ repo_of y = repo_of us) as Hcand.
  { intros y (? & Hy%list_elem_of_singleton & ? & ?). split; [|done]. split_and!; try done. by rewrite Hy. }
  split; [split_and!; try done; by apply list_elem_of_singleton|].
  destruct Hbest as [[Hup Hb]|Hb]; [left; split; [done|]|right]; intros y [Hy _]%Hcand; auto.
Qed.

Lemma two_statements tu snaps href uuids d1 d2 d3 u :
  rows_written merge_href tu snaps href uuids d1 d2 → rows_written merge_only_snapshot tu snaps (λ _, "") uuids d2 d3 → u ∈ uuids →
  ∃ us, u = uuid_String (repo_of us) ∧ find_snapshot snaps u = Some us ∧
    d3.(trcs) !! (tu, repo_of us) = Some (mk_TrcRow us.1 (Some (href u)) (d1.(trcs) !! (tu, repo_of us) ≫= x_DeletedAt)).
Proof.
  intros (_ & H1 & _) (_ & H2 & _) Hu. destruct (H1 u Hu) as (us & -> & Hf & Hx), (H2 _ Hu) as (us' & _ & Hf' & Hx').
  rewrite Hf in Hf'. injection Hf' as <-. exists us. split; [done|]. split; [done|]. rewrite Hx', Hx.
  by destruct (trcs d1 !! (tu, repo_of us)) as [[]|].
Qed.

Lemma DeleteTemplateRepoConfigs_run tu keep fs d fs' d' :
  keep ≠ [] → DeleteTemplateRepoConfigs (uuid_String tu) keep (fs, d) = (inr (), (fs', d')) →
  only_trcs d d' ∧ (∀ rc, uuid_String rc ∈ keep → d'.(trcs) !! (tu, rc) = d.(trcs) !! (tu, rc)) ∧
  (∀ k, k.1 ≠ tu → d'.(trcs) !! k = d.(trcs) !! k) ∧ (∀ rc, rc ∉ Uuidify <$> keep → d'.(trcs) !! (tu, rc) = None).
Proof.
  intros Hne H%map_err_inr%call_inr. injection H as <-. rewrite Uuidify_String. split; [done|]. cbn. split_and!.
  - intros rc Hrc. assert (rc ∈ Uuidify <$> keep) by (apply list_elem_of_fmap; exists (uuid_String rc); by rewrite Uuidify_String).
    destruct (trcs d !! (tu, rc)) as [x|] eqn:Hx; [apply map_lookup_filter_Some; cbn; naive_solver|apply map_lookup_filter_None; by left].
  - intros k Hk. destruct (trcs d !! k) as [x|] eqn:Hx; [apply map_lookup_filter_Some; cbn; naive_solver|apply map_lookup_filter_None; by left].
  - intros rc Hrc. apply map_lookup_filter_None. right. intros x Hx Hn. apply Hn. done.
Qed.

Context (tasks : gmap uuid TaskView).
Abbreviation W := (tworld S C P).

(** The rows of the template after the repositories that are not asked for any more have been removed. *)
Definition rows_kept (tu : uuid) (uuids : list string) (d d' : db) : Prop :=
  only_trcs d d' ∧ (∀ k, k.1 ≠ tu → d'.(trcs) !! k = d.(trcs) !! k) ∧
  (∀ rc, uuid_String rc ∈ uuids → d'.(trcs) !! (tu, rc) = d.(trcs) !! (tu, rc)) ∧
  (∀ rc, uuid_String rc ∉ uuids → d'.(trcs) !! (tu, rc) = None).

(** The requested repositories all have a row. *)
Definition all_rows (tu : uuid) (uuids : list string) (d : db) : Prop :=
  uuids ≠ [] ∧ ∀ u, u ∈ uuids → ∃ rc, u = uuid_String rc ∧ is_Some (d.(trcs) !! (tu, rc)).

Lemma removal_run orgId ds tu uuids c fs0 fs (w : W) fs' w' :
  tasks_complete S → GetRepoChanges scan_trcs (uuid_String tu) uuids (fs0, w.(tw_db)) = (inr c, (fs, w.(tw_db))) → all_rows tu uuids w.(tw_db) →
  ∀ (w1 : W) fs1, w1.(tw_db) = w.(tw_db) → (match c.(removed) with
   | [] => mret ()
   | removed =>
       _ ← handleReposRemoved tasks orgId ds (uuid_String tu) removed;
       wrap "error in DeleteTemplateRepoConfigs" (dao (DeleteTemplateRepoConfigs (uuid_String tu) (c.(unchanged) ++ c.(added))%list))
   end) (fs1, w1) = (inr (), (fs', w')) →
  ∃ s d1 l' hrefs, w' = set_pulp s (set_db d1 w1) ∧ rows_kept tu uuids w.(tw_db) d1 ∧
    l' ⊆ c.(removed) ∧ (hrefs_known w.(tw_db) tu (.∈ c.(removed)) → l' = c.(removed)) ∧
    Forall2 (stored_href w.(tw_db) tu) l' hrefs ∧ hrefs_removed hrefs (dists w1.(tw_pulp)) (dists s).
Proof.
  intros Hdone (_ & Hnew & Hrem & _ & Hcl)%changes_run [Hne Hall] w1 fs1 Hw1 H.
  assert (∀ rc, uuid_String rc ∈ uuids → uuid_String rc ∈ (c.(unchanged) ++ c.(added))%list) as Hkeep.
  { intros rc Hrc. destruct (Hall _ Hrc) as (rc' & <-%uuid_String_inj & x & Hx). specialize (Hcl rc x Hx).
    rewrite decide_True in Hcl by done. apply elem_of_app. case_decide; auto. }
  destruct (removed c) as [|r rs] eqn:Hr.
  - apply ret_inr in H as [_ [= _ <-]]. exists (tw_pulp w1), (tw_db w1), [], []. split; [by destruct w1|].
    split; [|split_and!; [done..|constructor|apply hrefs_removed_nil]]. rewrite Hw1. split; [by destruct (tw_db w)|]. split; [done|]. split; [done|].
    intros rc Hrc. destruct (trcs (tw_db w) !! (tu, rc)) as [x|] eqn:Hx; [|done]. specialize (Hcl rc x Hx).
    rewrite decide_False in Hcl by done. by apply not_elem_of_nil in Hcl.
  - apply bind_inr in H as ([] & [fs2 w2] & (s & l' & hrefs & -> & Hsub & Hfull & Hst & Hh)%handleReposRemoved_run & H); [|done|].
    2: { rewrite Hw1. intros u Hu. by apply Hrem. }
    apply wrap_inr, dao_run in H as (d1 & H & ->). cbn in H. rewrite Hw1 in *.
    assert (c.(unchanged) ++ c.(added) ≠ [])%list as Hk.
    { destruct uuids as [|u us]; [done|]. destruct (Hall u ltac:(by left)) as (rc & -> & _). intros E.
      specialize (Hkeep rc ltac:(by left)). rewrite E in Hkeep. by apply not_elem_of_nil in Hkeep. }
    apply DeleteTemplateRepoConfigs_run in H as (Ho & Hsame & Hother & Hgone); [|done].
    exists s, d1, l', hrefs. split; [by destruct w1|]. split; [|done]. split; [done|]. split; [done|]. split; [auto|].
    intros rc Hrc. apply Hgone. intros (x & -> & Hx)%list_elem_of_fmap. apply Hrc.
    assert (x ∈ uuids) as Hxu by (apply Hnew; apply elem_of_app in Hx; tauto). destruct (Hall x Hxu) as (rc' & -> & _). by rewrite Uuidify_String.
Qed.

Context (guards : bool) (url_Path : string → goerr + string).
Abbreviation place w orgId ds tu := (repo_place tasks url_Path (tw_db w) (tw_domains w) orgId ds (uuid_String tu)).
Abbreviation no_place w orgId ds tu uuids k := (∀ u repo, u ∈ uuids → place w orgId ds tu u ≠ Some (repo, k)).

Record content_applied (orgId : string) (ds : domain_names) (tu : uuid) (date : time) (uuids : list string) (w w' : W) : Prop := {
  ca_rest : w' = set_pulp w'.(tw_pulp) (set_db w'.(tw_db) w);
  ca_tables : only_trcs w.(tw_db) w'.(tw_db);
  ca_others k : k.1 ≠ tu → w'.(tw_db).(trcs) !! k = w.(tw_db).(trcs) !! k;
  ca_removed rc : uuid_String rc ∉ uuids → w'.(tw_db).(trcs) !! (tu, rc) = None;
  ca_rows u : u ∈ uuids → ∃ us old href repo k,
    u = uuid_String (repo_of us) ∧ nearest (candidate w.(tw_db) orgId [repo_of us]) date us ∧
    w.(tw_db).(trcs) !! (tu, repo_of us) = Some old ∧
    w'.(tw_db).(trcs) !! (tu, repo_of us) = Some (mk_TrcRow us.1 (Some href) old.(x_DeletedAt)) ∧
    place w orgId ds tu u = Some (repo, k) ∧
    (∀ i, dists w'.(tw_pulp) !! k = Some i → serves_snapshot (S := S) guards orgId k.1 repo us i) ∧
    (href_field old ≠ "" → ∃ i, dists w'.(tw_pulp) !! k = Some i ∧ i.(i_PulpHref) = Some href) ∧
    ((∀ rc, is_Some (w.(tw_db).(trcs) !! (tu, rc)) → uuid_String rc ∈ uuids) → is_Some (dists w'.(tw_pulp) !! k));
  ca_elsewhere k i : no_place w orgId ds tu uuids k → dists w'.(tw_pulp) !! k = Some i →
    dists w.(tw_pulp) !! k = Some i ∧
    (hrefs_known w.(tw_db) tu (.∉ uuids) →
     ∀ rc x href, w.(tw_db).(trcs) !! (tu, rc) = Some x → uuid_String rc ∉ uuids → x.(x_DistributionHref) = Some href → href ≠ "" →
       i.(i_PulpHref) ≠ Some href);
  ca_untouched k i : no_place w orgId ds tu uuids k → dists w.(tw_pulp) !! k = Some i →
    (∀ rc x href, w.(tw_db).(trcs) !! (tu, rc) = Some x → uuid_String rc ∉ uuids → x.(x_DistributionHref) = Some href → i.(i_PulpHref) ≠ Some href) →
    dists w'.(tw_pulp) !! k = Some i }.

Abbreviation apart w orgId ds tu uuids := (places_apart tasks url_Path (tw_db w) (tw_domains w) orgId ds (uuid_String tu) uuids).

(** The rows at the end, from the two statements that write them. *)
Lemma rows_at_end orgId tu date uuids repos href d d1 d2 d3 :
  let snaps := snapshots_by_date scan d orgId repos date in
  rows_kept tu uuids d d1 → rows_written merge_href tu snaps href uuids d1 d2 → rows_written merge_only_snapshot tu snaps (λ _, "") uuids d2 d3 →
  all_rows tu uuids d →
  only_trcs d d3 ∧ (∀ k, k.1 ≠ tu → d3.(trcs) !! k = d.(trcs) !! k) ∧ (∀ rc, uuid_String rc ∉ uuids → d3.(trcs) !! (tu, rc) = None) ∧
  ∀ u, u ∈ uuids → ∃ us old, u = uuid_String (repo_of us) ∧ find_snapshot snaps u = Some us ∧ nearest (candidate d orgId [repo_of us]) date us ∧
    d.(trcs) !! (tu, repo_of us) = Some old ∧ d3.(trcs) !! (tu, repo_of us) = Some (mk_TrcRow us.1 (Some (href u)) old.(x_DeletedAt)).
Proof.
  intros snaps (Ho1 & Hk1 & Hin1 & Hout1) H2 H3 [_ Hall]. pose proof H2 as (Ho2 & _ & Hsame2). pose proof H3 as (Ho3 & _ & Hsame3).
  split; [by eapply only_trcs_trans; [|done]; eapply only_trcs_trans|].
  split; [intros k Hk; rewrite Hsame3, Hsame2 by naive_solver; auto|].
  split; [intros rc Hrc; rewrite Hsame3, Hsame2 by naive_solver; auto|].
  intros u Hu. destruct (two_statements _ _ _ _ _ _ _ _ H2 H3 Hu) as (us & -> & Hf & Hx).
  destruct (found_nearest _ _ _ _ _ _ Hf) as (_ & _ & Hn). destruct (Hall _ Hu) as (rc & <-%uuid_String_inj & old & Hold).
  exists us, old. split_and!; try done. by rewrite Hx, Hin1, Hold.
Qed.

Lemma RunPulp_run now orgId ds template tu uuids fs (w : W) fs' w' :
  tasks_complete S → apart w orgId ds tu uuids → uuids ≠ [] →
  RunPulp guards scan scan_trcs tasks url_Path now orgId ds template (uuid_String tu) uuids (fs, w) = (inr (), (fs', w')) →
  content_applied orgId ds tu (if template.(tr_row).(t_UseLatest) then now else template.(tr_row).(t_Date)) uuids w w'.
Proof.
  intros Hdone Hap Hne H. destruct uuids as [|u0 us0]; [done|]. unfold RunPulp in H. revert H Hap Hne. generalize (u0 :: us0) as uuids.
  clear u0 us0. intros uuids H Hap Hne. set (date := if t_UseLatest _ then _ else _) in *.
  apply bind_inr in H as (c & [fs1 w1] & (d1 & Hc & ->)%wrap_inr%dao_run & H). pose proof (changes_run _ _ _ _ _ _ _ Hc) as (-> & Hnew & Hrem & Hallc & Hcl).
  rewrite set_db_id in H. apply bind_inr in H as (snaps & [fs2 w2] & (d2 & Hs%map_err_inr%call_inr & ->)%dao_run & H).
  injection Hs as Hs <-. rewrite set_db_id in H.
  apply bind_inr in H as (hrefs & [fs3 w3] & Hadd & H). apply bind_inr in H as ([] & [fs4 w4] & Hdel & H).
  apply bind_inr in H as (hrefs' & [fs5 w5] & Hunch & H). apply bind_inr in H as (tu' & w6 & Htu & H).
  unfold template_id in Htu. rewrite pg_String in Htu. apply ret_inr in Htu as [<- <-].
  apply bind_inr in H as ([] & [fs7 w7] & (d7 & Hw1%UpdateDistributionHrefs_run & ->)%wrap_inr%dao_run & H).
  apply wrap_inr, dao_run in H as (d8 & Hw2%UpdateSnapshots_run & ->); [|done]. cbn in Hw2.
  assert (all_rows tu uuids w.(tw_db)) as Hall.
  { split; [done|]. intros u Hu. destruct Hw1 as (_ & Hw1 & _). destruct (Hw1 u Hu) as (us & -> & Hf & _). rewrite <- Hs in Hf.
    apply found_nearest in Hf as (_ & Hin & _). apply list_elem_of_fmap in Hin as (x & Hx & Hin). destruct (Hallc x Hin) as (rc & -> & Hrow).
    rewrite Uuidify_String in Hx. rewrite Hx. eauto. }
  apply (handleReposAdded_run _ _ _ (tw_db w) (tw_domains w) _ _ _ _ uuids) in Hadd as (s3 & -> & Hserved & Helse3); [|done|done| |by destruct (tw_db w)|done].
  2: { intros u Hu. apply Hnew. by left. }
  eapply (removal_run orgId ds tu uuids c fs fs1 w) in Hdel as (s4 & d4 & l' & gone & -> & Hkept & Hsub & Hfull & Hst & Hrm); [|done|done|done|done]. cbn in Hrm.
  apply (handleReposUnchanged_run _ _ _ (tw_db w) (tw_domains w) _ _ _ _ uuids) in Hunch as (s5 & -> & Hun & Honly & Hrep & Helse5); [|done|done| |by apply Hkept|done].
  2: { intros u Hu. apply Hnew. by right. }
  cbn in Hw1, Honly, Hrep, Helse5. rewrite <- Hs in *.
  destruct (rows_at_end _ _ _ _ _ _ _ _ _ _ Hkept Hw1 Hw2 Hall) as (Htab & Hoth & Hgone & Hrows).
  split; cbn; [by destruct w|done|done|done| | |].
  - intros u Hu. destruct (Hrows u Hu) as (us & old & Hur & Hf & Hn & Hold & Hx). subst u. specialize (Hcl _ _ Hold). rewrite decide_True in Hcl by done.
    exists us, old, (default "" (hrefs' !! uuid_String (repo_of us))). case_decide as Hh.
    + destruct (Hserved _ Hcl) as [Hso (repo & k & i & Hk & Hi)].
      assert (served_only guards tasks url_Path (tw_db w) (tw_domains w) orgId ds (uuid_String tu) (snapshots_by_date scan (tw_db w) orgId (Uuidify <$> all c) date) s5 (uuid_String (repo_of us))) as (repo' & k' & us' & Hk' & Hf' & Hsrv).
      { apply Honly; [done|]. destruct Hso as (r1 & k1 & us1 & H1 & H2 & H3). exists r1, k1, us1. split; [done|]. split; [done|].
        intros i1 Hi1. apply H3. by apply Hrm. }
      rewrite Hf in Hf'. injection Hf' as <-. exists repo', k'. split_and!; try done.
      intros Hno. destruct Hrep with (uuid_String (repo_of us)) as [_ (r1 & k1 & i1 & H1 & H2)]; [done| |].
      2: { rewrite Hk' in H1. injection H1 as _ <-. by eexists. }
      assert (removed c = []) as Hre.
      { destruct (removed c) as [|x l] eqn:E; [done|]. destruct (Hrem x) as (Hx1 & rc & -> & Hrow); [by left|]. by apply Hno in Hrow. }
      rewrite Hre in Hsub. assert (l' = []) as -> by (destruct l' as [|x l']; [done|]; exfalso; apply (not_elem_of_nil x), Hsub; by left). apply Forall2_nil_inv_l in Hst as ->. destruct Hso as (r1 & k1 & us1 & H1 & H2 & H3). split.
      * exists r1, k1, us1. split; [done|]. split; [done|]. intros i1 Hi1. apply H3. by apply Hrm.
      * exists repo, k, i. split; [done|]. apply Hrm; [done|]. by intros ?%not_elem_of_nil.
    + destruct (Hun _ Hcl) as [Hno|[[(repo & k & us' & Hk & Hf' & Hsrv) _] (repo' & k' & i & href & Hk' & Hi & Hh' & Hn')]]; [by rewrite Hf in Hno|].
      rewrite Hf in Hf'. injection Hf' as <-. rewrite Hk in Hk'. injection Hk' as <- <-. exists repo, k. rewrite Hn' in Hx |- *. split_and!; try done; eauto.
  - intros k i Hk Hi. rewrite Helse5 in Hi by done. apply Hrm in Hi as [Hi Hnot]. rewrite Helse3 in Hi by done. split; [done|].
    intros Hknown rc x href Hx Hrc Hh Hhx. apply Hnot; [|done]. specialize (Hcl _ _ Hx). rewrite decide_False in Hcl by done.
    rewrite <- Hfull in Hcl by (intros rc' x' [Hrc' _]%Hrem; by apply Hknown).
    destruct (Forall2_in_l _ _ _ _ Hst Hcl) as (h & Hin & rc' & x' & <-%uuid_String_inj & Hx' & Hh'). by simplify_eq.
  - intros k i Hk Hi Hnot. rewrite Helse5 by done. apply Hrm; [by rewrite Helse3|]. intros (h & Hh & Hin)%list_elem_of_fmap.
    destruct (Forall2_in_r _ _ _ _ Hst Hin) as (u & Hu%Hsub & rc & x & -> & Hx & Hhx).
    by apply (Hnot rc x h); [|apply Hrem| |].
Qed.
End Run.
