(* ===== verification/TemplateSync.v ===== *)
(** * The template task as a whole

    [UpdateTemplateContentHandler] looks the template up, decides which repositories it should have, and brings its
    environment, its distributions and rows, and the content of the environment in line. *)

From S2P Require Import Prelude GoStrings GoSplit Config TxMonad Utils Models Errors DaoHelpers GoText SnapshotDao SnapshotThms TemplateDao TemplateThms TemplateLists SnapshotHandler SnapshotHandlerThms RepoConfigDao Pulp Distribution TaskEnv PublishTask DeleteTask DeleteTaskThms Candlepin TemplateTask TemplateCandlepin TemplatePulp.
From stdpp Require Import options.

Open Scope string_scope.

Lemma filter_all {A} (P : A → Prop) `{!∀ x, Decision (P x)} (l : list A) : (∀ x, x ∈ l → P x) → base.filter P l = l.
Proof.
  induction l as [|x l IH]; intros Hl; [done|]. rewrite filter_cons_True by (apply Hl; by left). f_equal. apply IH. intros y Hy. apply Hl. by right.
Qed.

(** The domains of the tasks of an organization. *)
Definition domains_of (doms : gmap string string) (orgId : string) : domain_names :=
  mk_domain_names (default "" (doms !! orgId)) (default "" (doms !! RedHatOrg)) (default "" (doms !! CommunityOrg)).

Section Sync.
Context {S C : Type} `{HC : PulpClient S} `{HL : !PulpLaws S} `{HK : CandlepinApi C} `{HKL : !CandlepinLaws C} `{HU : UuidText} {HUL : UuidLaws}.
Context (scan_trcs : gmap (uuid * uuid) TrcRow → list (uuid * uuid * TrcRow)).
Context (tasks : gmap uuid TaskView).
Abbreviation W := (tworld S C UpdateTemplateContentPayload).
#[local] Set Default Proof Using "Type*".

(** The repositories of the template. *)
Definition current_repositories (d : db) (tu : uuid) : list string :=
  (λ kx : uuid * uuid * TrcRow, uuid_String kx.1.2) <$> base.filter (λ kx, kx.1.1 = tu ∧ kx.2.(x_DeletedAt) = None) (scan_trcs d.(trcs)).

(** Whether there is nothing to do, and the repositories the template should have. A repository of a partner that triggered
    the task stays if it has a published snapshot, or if the template is its owner's and has a fixed date. *)
Definition desired (d : db) (tu : uuid) (t : TemplateRow) (p : UpdateTemplateContentPayload) : option (bool * list string) :=
  match p.(tp_TriggeredByRepositoryUUID) with
  | None => Some (false, p.(tp_RepoConfigUUIDs))
  | Some r =>
      repo ← repo_view tasks d r;
      rc ← pg_uuid r;
      if repo.(p_Partner) then
        let all := current_repositories d tu in
        let published := (0 <? length (published_of d rc))%nat in
        Some (contains all r && published && t.(t_UseLatest),
              if published || (negb t.(t_UseLatest) && (repo.(p_OrgID) == t.(t_OrgID))) then all else base.filter (λ u, u ≠ r) all)
      else None
  end.

Section Lookup.
Context (snapshots_enabled : bool) (content_path : goerr + string) (retain : Z).

Lemma template_fetch_run now orgId tu b fs (w : W) r fs' w' :
  template_fetch scan_trcs snapshots_enabled content_path retain now orgId (uuid_String tu) b (fs, w) = (inr r, (fs', w')) →
  w' = w ∧ ∃ t, describes w.(tw_db) r tu t ∧ t.(t_OrgID) = orgId ∧ (b = false → template_live t = true ∧ r.(tr_RepositoryUUIDS) = current_repositories w.(tw_db) tu).
Proof.
  intros (d & H & ->)%dao_run. unfold Template_Fetch in H.
  apply bind_inr in H as ([[u t] rows] & [fs1 d1] & Hf%map_err_inr & H).
  apply bind_inr in Hf as ([u' t'] & [fs2 d2] & Hf%call_inr & Hp%call_inr). rewrite Uuidify_String in Hf.
  destruct (templates (tw_db w) !! tu) as [t0|] eqn:Ht; [|done]. destruct (t_OrgID t0 == orgId) eqn:Ho; [|done]. apply bool_decide_eq_true in Ho.
  cbn [andb] in Hf. destruct (b || template_live t0) eqn:Hl; [|done]. injection Hf as <- <- <-. injection Hp as <- <- Hrows <-.
  apply bind_inr in H as (rs & [fs3 d3] & H & Hr).
  apply bind_inr in H as (path & [fs4 d4] & Hpath & (last & [fs5 d5] & Hlast%map_err_inr%call_inr & [<- [= -> ->]]%ret_inr)%bind_inr).
  injection Hlast as _ <-. apply ret_inr in Hr as [<- [= _ <-]].
  assert (d4 = tw_db w) as ->.
  { unfold GetContentPath in Hpath. destruct snapshots_enabled; [destruct content_path; [done|]|]; by apply ret_inr in Hpath as [_ [= _ ->]]. }
  rewrite set_db_id. split; [done|]. exists t0. split; [done|]. split; [done|]. intros ->. split; [done|]. cbn.
  rewrite <- Hrows. cbn. unfold current_repositories. rewrite <- list_fmap_compose.
  rewrite (list_filter_iff _ (λ kx : uuid * uuid * TrcRow, kx.1.1 = tu ∧ kx.2.(x_DeletedAt) = None)); [done|naive_solver].
Qed.

Lemma lookupTemplate_run now orgId tu fs (w : W) o fs' w' :
  lookupTemplate scan_trcs snapshots_enabled content_path retain now orgId (uuid_String tu) (fs, w) = (inr o, (fs', w')) →
  w' = w ∧ ∃ r t, o = Some r ∧ describes w.(tw_db) r tu t ∧ t.(t_OrgID) = orgId ∧ template_live t = true ∧
    r.(tr_RepositoryUUIDS) = current_repositories w.(tw_db) tu.
Proof.
  intros (r0 & [fs1 w1] & (-> & t0 & (_ & _ & Hrow) & _)%template_fetch_run & H)%bind_inr. rewrite Hrow in H. cbn in H.
  apply bind_inr in H as (r & [fs2 w2] & (-> & t & Hd & Ho & Hl)%template_fetch_run & [<- [= _ <-]]%ret_inr).
  destruct (Hl eq_refl) as [Hl1 Hl2]. split; [done|]. exists r, t. done.
Qed.

(** A template that is deleted is not skipped: its lookup fails. *)
Lemma deleted_template_fails now orgId tu t fs (w : W) :
  w.(tw_db).(templates) !! tu = Some t → template_live t = false →
  ∃ e, (lookupTemplate scan_trcs snapshots_enabled content_path retain now orgId (uuid_String tu) (fs, w)).1 = inl e.
Proof.
  intros Ht Hl. destruct (lookupTemplate _ _ _ _ _ _ _ (fs, w)) as [[e|o] [fs' w']] eqn:E; [by exists e|].
  apply lookupTemplate_run in E as (_ & r & t' & _ & (Ht' & _) & _ & Hl' & _). congruence.
Qed.
End Lookup.

Lemma fetch_domains_run orgId fs (w : W) ds fs' w' :
  fetch_domains orgId (fs, w) = (inr ds, (fs', w')) → w' = w ∧ ds = domains_of w.(tw_domains) orgId.
Proof.
  assert (∀ o fs (w : W) x fs' w', domain_dao (Domain_Fetch o) (fs, w) = (inr x, (fs', w')) → w' = w ∧ x = default "" (w.(tw_domains) !! o)) as Hf.
  { intros o fs0 w0 x fs0' w0' (d & Hd%call_inr & ->)%domain_run. injection Hd as <- <-. by destruct w0. }
  intros (a & [fs1 w1] & [-> ->]%Hf & H)%bind_inr. apply bind_inr in H as (b & [fs2 w2] & [-> ->]%Hf & H).
  apply bind_inr in H as (c & [fs3 w3] & [-> ->]%Hf & [<- [= _ <-]]%ret_inr). done.
Qed.

Lemma prepare_run template t tu p fs (w : W) skip template' uuids fs' w' :
  describes w.(tw_db) template tu t → template.(tr_RepositoryUUIDS) = current_repositories w.(tw_db) tu →
  prepareTriggeredUpdate tasks template p.(tp_TriggeredByRepositoryUUID) p.(tp_RepoConfigUUIDs) (fs, w) = (inr (skip, template', uuids), (fs', w')) →
  w' = w ∧ desired w.(tw_db) tu t p = Some (skip, uuids) ∧ template'.(tr_UUID) = template.(tr_UUID) ∧ template'.(tr_row) = template.(tr_row).
Proof.
  intros (_ & _ & Hrow) Hall. unfold prepareTriggeredUpdate, desired. destruct (tp_TriggeredByRepositoryUUID p) as [r|].
  2: { intros [[= <- <- <-] [= _ <-]]%ret_inr. done. }
  intros (repo & [fs1 w1] & [-> ->]%wrap_inr%repo_fetch_run & H)%bind_inr. cbn [mbind option_bind].
  destruct (p_Partner repo); [|done]. cbn [negb] in H.
  apply bind_inr in H as (published & [fs2 w2] & (d & Hp%call_inr & ->)%wrap_inr%dao_run & H).
  destruct (pg_uuid r) as [rc|]; [|done]. injection Hp as Hp <-. rewrite set_db_id in H. cbn [mbind option_bind]. rewrite <- Hall, Hp. rewrite Hrow in H. cbn [t_UseLatest t_OrgID template_AfterFind] in H.
  destruct (contains (tr_RepositoryUUIDS template) r) eqn:Hc; cbn [negb andb] in H |- *.
  2: { apply ret_inr in H as [[= <- <- <-] [= _ <-]]. split; [done|]. split; [|done]. f_equal. f_equal. case_match; [done|].
       apply contains_false in Hc. apply filter_all. intros x Hx ->. done. }
  destruct published; cbn [orb andb]; [by apply ret_inr in H as [[= <- <- <-] [= _ <-]]|].
  destruct (negb (t_UseLatest t) && (p_OrgID repo == t_OrgID t)); by apply ret_inr in H as [[= <- <- <-] [= _ <-]].
Qed.

(** ** The environment is there *)

Section Create.
Context (DevelOrg : bool) (content_path : goerr + string) (JoinPath : string → list string → goerr + string).

Definition set_template (tu : uuid) (t : TemplateRow) (w : W) : W := set_db (set_templates <[tu := t]> w.(tw_db)) w.

(** The environment is found or made, and the template says so. *)
Definition environment_there (tu : uuid) (t : TemplateRow) (w w' : W) (env : EnvironmentDTO) : Prop :=
  (∃ c, w' = set_cp c (set_template tu t w)) ∧ (∀ o, owner_contents w'.(tw_cp) o = owner_contents w.(tw_cp) o) ∧
  list_to_set env.(ev_Content) = env_content w'.(tw_cp) (GetEnvironmentID (uuid_String tu)).

Lemma fetchOrCreate_run orgId template tu prefix fs (w : W) env fs' w' :
  template.(tr_UUID) = uuid_String tu →
  fetchOrCreateEnvironment DevelOrg orgId template (uuid_String tu) prefix (fs, w) = (inr env, (fs', w')) →
  (∃ c, w' = set_cp c w) ∧ (∀ o, owner_contents w'.(tw_cp) o = owner_contents w.(tw_cp) o) ∧
  list_to_set env.(ev_Content) = env_content w'.(tw_cp) (GetEnvironmentID (uuid_String tu)).
Proof.
  intros Hu (o & [fs1 w1] & Hf & H)%bind_inr.
  pose proof (early_request _ _ _ (cpq_environment _) (cpk_environment _) _ _ _ _ _ Hf) as [(_ & _ & _ & Hsame) Hk1].
  apply cp_run in Hf as (c1 & Hf & ->). destruct o as [env0|].
  - apply ret_inr in H as [<- [= _ <-]]. split; [by eexists|]. split; [done|].
    destruct (Hsame (GetEnvironmentID (uuid_String tu))) as [-> _].
    apply request_inr in Hf as [(a & Ha & [= <-])|(e & _ & He)]; [by eapply environment_content|]. unfold or_else in He. by destruct (not_found_response e).
  - apply cp_run in H as (c2 & [(a & Ha & ->)|(e & _ & He)]%request_inr & ->); [|done]. rewrite Hu in Ha. cbn in Ha.
    split; [by eexists|]. split; [|by eapply created_content]. intros o. cbn. rewrite <- (Hk1 o). cbn.
    pose proof (keeps_contents _ _ c1 o (cpk_create_environment (OwnerKey DevelOrg orgId) (GetEnvironmentID (uuid_String tu)) (t_Name (tr_row template)) prefix)) as Hk2.
    by rewrite Ha in Hk2.
Qed.

Lemma RunEnvironmentCreate_run orgId ds template tu t fs (w : W) env fs' w' :
  template.(tr_UUID) = uuid_String tu → template.(tr_row).(t_RHSMEnvironmentCreated) = t.(t_RHSMEnvironmentCreated) →
  w.(tw_db).(templates) !! tu = Some t →
  RunEnvironmentCreate DevelOrg content_path JoinPath orgId ds template (uuid_String tu) (fs, w) = (inr env, (fs', w')) →
  environment_there tu (template_set_status true t.(t_LastUpdateSnapshotError) t.(t_LastUpdateTaskUUID) t) w w' env.
Proof.
  intros Hu Hr Ht (path & w1 & [_ ->]%lift_run & H)%bind_inr. apply bind_inr in H as (prefix & w2 & [_ ->]%lift_run & H).
  apply bind_inr in H as (env0 & [fs3 w3] & ((c & ->) & Hk & Hc)%fetchOrCreate_run & H); [|done].
  apply bind_inr in H as ([] & [fs4 w4] & Hset & [<- [= _ <-]]%ret_inr). rewrite Hr in Hset.
  destruct (t_RHSMEnvironmentCreated t) eqn:He.
  - apply ret_inr in Hset as [_ [= _ <-]]. split; [|done]. exists c. unfold set_template, set_templates. rewrite insert_id; [by destruct w as [[]]|].
    rewrite Ht. f_equal. destruct t; cbn in *; by subst.
  - apply bind_inr in Hset as (tu' & [fs5 w5] & Htu & (d & Hd%call_inr & ->)%dao_run). unfold template_id in Htu. rewrite Hu, pg_String in Htu.
    apply ret_inr in Htu as [<- [= _ <-]]. injection Hd as <-. split; [|done]. exists c. unfold set_template, set_templates, set_db, set_cp. cbn.
    do 2 f_equal. apply map_eq. intros k. destruct (decide (tu = k)) as [<-|]; [by rewrite lookup_insert_eq, lookup_alter_eq, Ht|by rewrite lookup_insert_ne, lookup_alter_ne].
Qed.

Lemma environment_there_alter f tu t (w w' : W) env :
  environment_there tu t (set_db (set_templates (alter f tu) w.(tw_db)) w) w' env → environment_there tu t w w' env.
Proof.
  intros ((c & ->) & Hown & Hcont). split; [|done]. exists c. unfold set_template, set_db, set_templates. cbn. do 3 f_equal.
  apply map_eq. intros k. destruct (decide (tu = k)) as [<-|]; [by rewrite !lookup_insert_eq|by rewrite !lookup_insert_ne, lookup_alter_ne].
Qed.
End Create.

(** ** The handler *)

Section Handler.
Context (guards DevelOrg : bool) (scan : gmap uuid SnapRow → list (uuid * SnapRow)).
Context (snapshots_enabled : bool) (content_path : goerr + string) (retain : Z) (externalURL fullRootPath : string).
Context (url_Path : string → goerr + string) (JoinPath : string → list string → goerr + string).
Hypothesis scan_perm : ∀ m, scan m ≡ₚ map_to_list m.
Hypothesis scan_trcs_perm : ∀ m, scan_trcs m ≡ₚ map_to_list m.

(** The three phases of the task: the environment, Pulp and the rows, Candlepin. *)
Definition synchronized (orgId : string) (tu : uuid) (t : TemplateRow) (date : time) (uuids : list string) (w w' : W) : Prop :=
  let ds := domains_of w.(tw_domains) orgId in
  ∃ env w1 w2 path ids,
    environment_there tu (template_set_status true (Some "") t.(t_LastUpdateTaskUUID) t) (set_mem (set_RepoConfigUUIDs uuids w.(tw_mem)) w) w1 env ∧
    content_applied tasks guards url_Path orgId ds tu date uuids w1 w2 ∧
    content_path = inr path ∧
    template_contents tasks w2.(tw_db) (owner_contents w.(tw_cp) (OwnerKey DevelOrg orgId)) uuids ids ∧
    environment_set tasks url_Path JoinPath w2 orgId ds path (uuid_String tu) uuids ids w' ∧ same_but_cp w2 w'.

(** [C27] A template and what is served for it. Suppose that Pulp cancels and skips no task that is waited for, and that no
    two repositories of the template are served at the same path of the same domain. When [UpdateTemplateContentHandler]
    returns without an error, after any failures, the template is one of the organization and not deleted, the payload has the
    repositories it should have, and either there is nothing to do (a published snapshot of a partner's repository in a
    template that uses the latest one, for which another task is on its way) and nothing but the payload has changed, or: (1)
    the environment of the template is there, the template is marked so and its error is cleared; (2) the rows of the template
    are exactly those of the repositories and refer to the snapshot nearest to the date of the template that the organization
    may read, every distribution at the place of one of the repositories serves the publication of that snapshot without a
    guard if it needs none and otherwise behind the guard of its organization or features, the stored href is that of the
    distribution for the repositories that had one before, distributions elsewhere are only removed, and only those whose href
    was stored for a removed repository; all of these are removed if none of the removed repositories has a null href (one
    with a null href ends the loop); (3) the environment has exactly the overrides the repositories need, and, if the
    identifiers of Candlepin have no dashes, their contents. *)
Theorem template_content_synchronized now now' orgId tu fs w fs' w' :
  tasks_complete S → w.(tw_mem).(tp_TemplateUUID) = uuid_String tu →
  (∀ t skip uuids, desired w.(tw_db) tu t w.(tw_mem) = Some (skip, uuids) →
     places_apart tasks url_Path w.(tw_db) w.(tw_domains) orgId (domains_of w.(tw_domains) orgId) (uuid_String tu) uuids) →
  UpdateTemplateContentHandler guards DevelOrg scan scan_trcs snapshots_enabled content_path retain tasks externalURL fullRootPath url_Path JoinPath
    now now' orgId (fs, w) = (inr (), (fs', w')) →
  ∃ t skip uuids, w.(tw_db).(templates) !! tu = Some t ∧ t.(t_OrgID) = orgId ∧ template_live t = true ∧
    desired w.(tw_db) tu t w.(tw_mem) = Some (skip, uuids) ∧
    if skip : bool then w' = set_mem (set_RepoConfigUUIDs uuids w.(tw_mem)) w
    else synchronized orgId tu t (if t.(t_UseLatest) then now' else t.(t_Date)) uuids w w'.
Proof.
  intros Hdone Hpay Hap H. unfold UpdateTemplateContentHandler in H. cbv beta iota zeta in H. rewrite Hpay in H.
  apply bind_inr in H as (o & [fs1 w1] & (-> & template & t & -> & Hdesc & Ho & Hlive & Hrepos)%lookupTemplate_run & H).
  destruct (_ && _) in H; [done|].
  apply bind_inr in H as (ds & [fs2 w2] & [-> ->]%fetch_domains_run & H).
  apply bind_inr in H as ([[skip template'] uuids] & [fs3 w3] & Hprep & H).
  apply (prepare_run template t tu) in Hprep as (-> & Hdes & Hu' & Hr'); [|done..].
  destruct Hdesc as (Ht & Hu & Hr). exists t, skip, uuids. do 4 (split; [done|]).
  apply bind_inr in H as ([] & [fs4 w4] & Hm & H). unfold modify_mem in Hm. injection Hm as <- <-.
  destruct skip; [by apply ret_inr in H as [_ [= _ <-]]|]. case_bool_decide as Hne; [done|].
  rewrite Hu', Hu in H. rewrite Hr', Hr in H. unfold template_id in H at 1. rewrite pg_String in H.
  apply bind_inr in H as (tu' & w5 & [<- <-]%ret_inr & H).
  apply bind_inr in H as ([] & [fs6 w6] & (d6 & H6%call_inr & ->)%dao_run & H). injection H6 as <-.
  apply bind_inr in H as (env & [fs7 w7] & Henv & H). apply bind_inr in H as ([] & [fs8 w8] & Hpulp & Hcp).
  eapply (RunEnvironmentCreate_run _ _ _ _ _ _ tu (template_set_status t.(t_RHSMEnvironmentCreated) (Some "") t.(t_LastUpdateTaskUUID) t)) in Henv.
  2: { by rewrite Hu'. }
  2: { by rewrite Hr', Hr. }
  2: { cbn. rewrite lookup_alter_eq, Ht. cbn. by rewrite Ho, bool_decide_true. }
  apply (environment_there_alter _ tu _ (set_mem (set_RepoConfigUUIDs uuids (tw_mem w)) w)) in Henv. pose proof Henv as ((c & ->) & Hown & Hcont). cbn in Hown, Hcont.
  apply (RunPulp_run scan scan_trcs scan_perm scan_trcs_perm) in Hpulp; [|done|by eapply Hap|done].
  rewrite Hr', Hr in Hpulp. cbn [t_UseLatest t_Date template_AfterFind] in Hpulp. pose proof (ca_rest _ _ _ _ _ _ _ _ _ _ Hpulp) as E8.
  assert (uuid_String tu = tr_UUID template') as Eu by congruence. rewrite Eu in Hcp.
  apply RunCandlepin_run in Hcp as [Hsame (path & ids & Hpath & Hids & Hset)]; [|rewrite E8, <- Eu; exact Hcont]. rewrite <- Eu in Hset.
  eexists env, _, w8, path, ids. split; [exact Henv|]. split; [exact Hpulp|]. split_and!; try done. rewrite E8 in Hids at 2. by rewrite <- Hown.
Qed.
End Handler.
End Sync.

#[local] Existing Instances Ex.uuid_text Ex.uuid_laws.

Module TemplateEx.
Definition template : TemplateRow := mk_TemplateRow "t" "org" "" (15 * Second)%Z "9" "x86_64" "" "" None "" "" false false (Some "failed") None.
(** Repository 1 is new to the template; repository 2, of a partner, has been removed from it. *)
Definition d : db :=
  mk_db (configs Ex.d) (repositories Ex.d) (snapshots Ex.d) {[31%N := template]}
    (<[(31%N, 1%N) := mk_TrcRow 6 (Some "") None]> {[(31%N, 2%N) := mk_TrcRow 7 (Some (mem_dist_href "pd" "old")) (Some 0%Z)]}).
Definition w : tworld mem cpmem UpdateTemplateContentPayload :=
  let p := mk_UTCP (Ex.text 31) [Ex.text 1] None None in
  mk_tw d {["org" := "cs"]} []
    (mk_mem {[("pd", "old") := mk_DistInfo (Some (mem_dist_href "pd" "old")) "name" (Some (Some "publication")) None]} ∅ ∅ [] ∅)
    (mk_cpmem ∅ [] ∅ ∅) p p.
Definition join (base : string) (elems : list string) : goerr + string := inr (strings_Join "/" (base :: elems)).
Definition handler : M (tworld mem cpmem UpdateTemplateContentPayload) goerr () :=
  UpdateTemplateContentHandler true false map_to_list map_to_list true (inr "https://pulp/") 365 ∅ "https://host/" "/api" (λ _, inr "/x/") join
    (40 * Second)%Z (40 * Second)%Z "org".

Lemma rows_known : hrefs_known d 31%N (.∉ [Ex.text 1]).
Proof.
  intros rc x _ Hx. change ((<[(31%N, 1%N) := mk_TrcRow 6 (Some "") None]> {[(31%N, 2%N) := mk_TrcRow 7 (Some (mem_dist_href "pd" "old")) (Some 0%Z)]}
    : gmap (uuid * uuid) TrcRow) !! (31%N, rc) = Some x) in Hx.
  by apply lookup_insert_Some in Hx as [[_ <-]|[_ [_ <-]%lookup_singleton_Some]].
Qed.
End TemplateEx.

Lemma template_content_synchronized_witness : ∃ w', let d' := w'.(tw_db) in
  TemplateEx.handler ([], TemplateEx.w) = (inr (), ([], w')) ∧
  d'.(trcs) !! (31%N, 2%N) = None ∧ dists w'.(tw_pulp) !! ("pd", "old") = None ∧
  ∃ us href, nearest (candidate TemplateEx.d "org" [1%N]) (15 * Second)%Z us ∧ d'.(trcs) !! (31%N, 1%N) = Some (mk_TrcRow us.1 (Some href) None).
Proof.
  pose proof (template_content_synchronized (HU := Ex.uuid_text) (HUL := Ex.uuid_laws) map_to_list ∅ true false map_to_list true (inr "https://pulp/") 365
    "https://host/" "/api" (λ _, inr "/x/") TemplateEx.join (λ _, reflexivity _) (λ _, reflexivity _) (40 * Second)%Z (40 * Second)%Z "org" 31%N
    [] TemplateEx.w) as H.
  change (UpdateTemplateContentHandler _ _ _ _ _ _ _ _ _ _ _ _ _ _ _) with TemplateEx.handler in H.
  destruct (TemplateEx.handler ([], TemplateEx.w)) as [r [fs' w']] eqn:E.
  assert (r = inr () ∧ fs' = []) as (-> & ->) by (revert E; vm_compute; intros E; by simplify_eq).
  exists w'. split; [done|]. specialize (H [] w' mem_complete eq_refl). clear E.
  destruct H as (t & skip & uuids & Ht & _ & _ & Hdes & Hs); [|done|].
  { intros t skip uuids [= <- <-] u v r r' k Hu%list_elem_of_singleton Hv%list_elem_of_singleton _ _. by rewrite Hu, Hv. }
  injection Hdes as <- <-. assert (t = TemplateEx.template) as -> by (revert Ht; vm_compute; intros; by simplify_eq).
  destruct Hs as (env & w1 & w2 & path & ids & ((c & ->) & _ & _) & [_ _ _ Hrm Hrows Helse _] & _ & _ & _ & (-> & _ & ->)).
  split; [apply (Hrm 2%N); by_decide|]. split.
  - destruct (dists (tw_pulp w2) !! ("pd", "old")) as [i|] eqn:Hi; [|done]. apply Helse in Hi as [Hi Hno].
    + exfalso. apply (Hno TemplateEx.rows_known 2%N (mk_TrcRow 7 (Some (mem_dist_href "pd" "old")) (Some 0%Z)) (mem_dist_href "pd" "old")); [reflexivity|by_decide|done..|].
      revert Hi. vm_compute. intros; by simplify_eq.
    + intros u repo ->%list_elem_of_singleton. vm_compute. intros; by simplify_eq.
  - destruct (Hrows (Ex.text 1) ltac:(by left)) as (us & old & href & repo & k & Hu & Hn & Ho & Hx & _).
    change (Ex.text 1) with (@uuid_String Ex.uuid_text 1%N) in Hu. apply uuid_String_inj in Hu. rewrite <- Hu in *. exists us, href. split; [exact Hn|].
    assert (old = mk_TrcRow 6 (Some "") None) as -> by (revert Ho; vm_compute; intros; by simplify_eq). exact Hx.
Defined.
