(* ===== verification/LatestTask.v ===== *)
(** * tasks/update_latest_snapshot.go and delete_templates.go

    After a snapshot or a publication, the templates that use the latest snapshot of a repository are moved to it; a
    repository of a partner that has no published snapshot any more is instead removed from them, by tasks that are enqueued.
    The deletion of a template removes its distributions, its environment and its row. *)

From S2P Require Import Prelude GoStrings GoSplit Config TxMonad Utils Models Errors DaoHelpers GoText SnapshotDao SnapshotThms TemplateDao SnapshotHandler SnapshotHandlerThms RepoConfigDao Pulp Distribution TaskEnv PublishTask DeleteTask Candlepin TemplateTask.
From stdpp Require Import options.

Open Scope string_scope.

Section Task.
Context {S C P : Type} `{HC : PulpClient S} `{HK : CandlepinApi C} `{HU : UuidText}.
Context (RepoContentGuards : bool).
Context (scan_templates : gmap uuid TemplateRow → list (uuid * TemplateRow)).
Context (scan_trcs : gmap (uuid * uuid) TrcRow → list (uuid * uuid * TrcRow)).
Context (sql_like : string → string → bool) (sql_order : string → list (uuid * TemplateRow) → list (uuid * TemplateRow)).
Context (snapshots_enabled : bool) (content_path : goerr + string) (SnapshotRetainDaysLimit : Z).
Context (tasks : gmap uuid TaskView) (url_Path : string → goerr + string) (new_id : list QTask → uuid).
Abbreviation TM := (M (tworld S C P) goerr).

(** ** update_latest_snapshot.go *)

(** A template whose repository is removed because nothing of it is published. The task of the caller has the identifier
    [task]; the handler always sets it and the queue. *)
Definition enqueueTemplateRemovalTasks (task : uuid) (accountId repoUUID : string) (templates : list TemplateResponse) : TM () :=
  iter (λ template,
    _ ← wrap ("error enqueueing template cleanup for template " +:+ template.(tr_UUID))
          (enqueue new_id UpdateTemplateContentTask (SnapshotHandler.UpdateTemplateContentPayload template.(tr_UUID) [] (Some repoUUID))
             template.(tr_row).(t_OrgID) accountId
             template.(tr_UUID) ObjectTypeTemplate [task]);
    mret ()) templates.

Definition updateLatestSnapshot (dom : string) (repo : RepoResponse) (template : TemplateResponse) (snap : uuid * SnapRow) : TM () :=
  '(distPath, distName) ← lift (getDistPathAndName url_Path repo template.(tr_UUID));
  _ ← pulp (CreateOrUpdateTemplateDistribution RepoContentGuards dom repo snap template.(tr_row).(t_OrgID) distName distPath);
  distResp ← pulp (db_call (FindDistributionByPath dom distPath));
  href ← deref (distResp ≫= d_PulpHref);
  let repoUUID := uuid_String repo.(p_UUID) in
  tu ← template_id template.(tr_UUID);
  _ ← dao (UpdateDistributionHrefs tu [repoUUID] [snap] {[repoUUID := href]});
  dao (UpdateSnapshots tu [repoUUID] [snap]).

(** One template: a failure is stored with it. *)
Definition update_template (orgID : string) (ds : domain_names) (repo : RepoResponse) (snap : uuid * SnapRow) (template : TemplateResponse) : TM () :=
  dom ← repo_domain orgID ds repo;
  r ← try (updateLatestSnapshot dom repo template snap);
  match r with
  | inr _ => mret ()
  | inl err =>
      tu ← template_id template.(tr_UUID);
      _ ← dao (UpdateLastError template.(tr_row).(t_OrgID) tu (Error err));
      throw err
  end.

Definition latest_templates (now : time) (orgID repoConfigUUID : string) (repo : RepoResponse) : TM (list TemplateResponse) :=
  if (orgID == RedHatOrg) || (orgID == CommunityOrg) || repo.(p_Partner)
  then dao (InternalOnlyGetTemplatesForRepoConfig scan_templates scan_trcs snapshots_enabled content_path SnapshotRetainDaysLimit now repoConfigUUID true)
  else '(ts, _) ← dao (Template_List scan_templates scan_trcs sql_like sql_order snapshots_enabled content_path SnapshotRetainDaysLimit
                         now orgID false (-1) 0 "" (mk_TemplateFilterData "" "" "" "" "" false "" [repoConfigUUID] [] true));
       mret ts.

Definition UpdateLatestSnapshot_Run (now : time) (task : uuid) (accountId orgID : string) (ds : domain_names) (repoConfigUUID : string) : TM () :=
  repo ← repo_fetch tasks repoConfigUUID;
  templates ← latest_templates now orgID repoConfigUUID repo;
  let repoUUID := uuid_String repo.(p_UUID) in
  unpublished ← (if repo.(p_Partner)
                 then hasPublishedSnapshot ← wrap ("error checking published snapshots for repository " +:+ repoUUID) (dao (HasPublishedSnapshot repoUUID));
                      mret (negb hasPublishedSnapshot)
                 else mret false);
  if unpublished : bool then enqueueTemplateRemovalTasks task accountId repoUUID templates
  else
    snap ← dao (FetchLatestSnapshotForDistribution repoUUID);
    iter (update_template orgID ds repo snap) templates.

Definition UpdateLatestSnapshotHandler (now : time) (task : uuid) (accountId orgID repoConfigUUID : string) : TM () :=
  ds ← fetch_domains orgID;
  UpdateLatestSnapshot_Run now task accountId orgID ds repoConfigUUID.

(** ** delete_templates.go *)

(** The distribution of a repository of the template; a repository that is not found or has no snapshot is skipped. *)
Definition delete_repo_distribution (ds : domain_names) (orgID templateUUID repoConfigUUID : string) : TM () :=
  unless_not_found (dao (RepoConfig_Fetch tasks snapshots_enabled content_path orgID repoConfigUUID)) ("failed to fetch repo config " +:+ repoConfigUUID) (λ repo,
    match repo.(p_LastSnapshot) with
    | None => mret ()
    | Some _ =>
        let dom := if repo.(p_OrgID) == RedHatOrg then ds.(rhDomainName)
                   else if repo.(p_OrgID) == CommunityOrg then ds.(communityDomainName) else ds.(domainName) in
        distHref ← wrap ("error getting distribution href for repo " +:+ repoConfigUUID) (dao (GetDistributionHref templateUUID repoConfigUUID));
        match distHref with
        | None => mret ()
        | Some href =>
            delete_and_poll dom href ("failed to delete rpm distribution " +:+ href +:+ " for repo " +:+ repoConfigUUID)
              ("error polling distribution deletion task for repo " +:+ repoConfigUUID)
        end
    end).

Definition deleteDistributions (ds : domain_names) (orgID templateUUID : string) (repoConfigUUIDs : list string) : TM () :=
  errs ← collect (delete_repo_distribution ds orgID templateUUID) repoConfigUUIDs;
  errors_Join errs.

Definition deleteTemplate (orgID templateUUID : string) : TM () :=
  unless_not_found (dao (Template_Delete orgID templateUUID)) "failed to delete template" mret.

Definition DeleteTemplates_Run (PulpConfigured CandlepinConfigured : bool) (ds : domain_names) (orgID templateUUID : string)
    (repoConfigUUIDs : list string) : TM () :=
  _ ← (if PulpConfigured then deleteDistributions ds orgID templateUUID repoConfigUUIDs else mret ());
  _ ← (if CandlepinConfigured then wrap "failed to delete candlepin environment" (cp (DeleteEnvironment templateUUID)) else mret ());
  deleteTemplate orgID templateUUID.

Definition DeleteTemplateHandler (PulpConfigured CandlepinConfigured : bool) (orgID templateUUID : string) (repoConfigUUIDs : list string) : TM () :=
  ds ← fetch_domains orgID;
  DeleteTemplates_Run PulpConfigured CandlepinConfigured ds orgID templateUUID repoConfigUUIDs.
End Task.
