(* ===== verification/LatestThms.v ===== *)
(** * What the update of the latest snapshot achieves

    Every template that uses the latest snapshot of the repository refers to the effective latest snapshot afterwards and
    serves its publication; if a partner has nothing published any more, the removal of the repository from every such
    template is enqueued instead. *)

From S2P Require Import Prelude GoStrings GoSplit Config TxMonad Utils Models Errors DaoHelpers GoText SnapshotDao SnapshotThms TemplateDao TemplateThms TemplateLists SnapshotHandler SnapshotHandlerThms RepoConfigDao Pulp Distribution TaskEnv PublishTask DeleteTask DeleteTaskThms Candlepin TemplateTask TemplateCandlepin TemplatePulp LatestTask.
From stdpp Require Import options.

Open Scope string_scope.

#[local] Instance TrcRow_eq_dec : EqDecision TrcRow.
Proof. solve_decision. Defined.
#[local] Instance DistInfo_eq_dec : EqDecision DistInfo.
Proof. solve_decision. Defined.

(** ** Paths *)

Lemma app_string_inj_r a b c : b +:+ a = c +:+ a → b = c.
Proof. intros H%(f_equal chars). rewrite !chars_app in H. apply app_inv_tail in H. by apply (f_equal of_chars) in H; rewrite !of_chars_chars in H. Qed.

(** The templates of a repository are served at different paths. *)
Lemma paths_differ `{UuidText} `{!UuidLaws} url_Path repo tu tu' p n n' :
  getDistPathAndName url_Path repo (uuid_String tu) = inr (p, n) → getDistPathAndName url_Path repo (uuid_String tu') = inr (p, n') → tu = tu'.
Proof.
  unfold getDistPathAndName, customTemplateSnapshotPath. destruct (_ == RedHatOrg); [destruct (getRHRepoContentPath _ _) as [|q]; [done|]|];
    intros [= <- _] [= Hp _]; cbn in Hp; apply uuid_String_inj; symmetry; by eapply app_string_inj_r.
Qed.

(** ** Which templates *)

Section Which.
Context `{HU : UuidText} {HUL : UuidLaws}.
Context (scan_templates : gmap uuid TemplateRow → list (uuid * TemplateRow)).
Context (scan_trcs : gmap (uuid * uuid) TrcRow → list (uuid * uuid * TrcRow)).
Context (sql_like : string → string → bool) (sql_order : string → list (uuid * TemplateRow) → list (uuid * TemplateRow)).
Context (snapshots_enabled : bool) (content_path : goerr + string) (retain : Z).
Hypothesis scan_templates_perm : ∀ m, scan_templates m ≡ₚ map_to_list m.
Hypothesis scan_trcs_perm : ∀ m, scan_trcs m ≡ₚ map_to_list m.
Hypothesis sql_order_perm : ∀ o l, sql_order o l ≡ₚ l.
#[local] Set Default Proof Using "Type*".

Lemma templates_with_elem d f g p :
  p ∈ templates_with scan_templates scan_trcs d f g ↔
  ∃ tu t, p = (tu, template_AfterFind t, []) ∧ d.(templates) !! tu = Some t ∧ template_live t = true ∧ g t = true ∧
    ∃ rc x, d.(trcs) !! (tu, rc) = Some x ∧ f (tu, rc, x) = true.
Proof.
  unfold templates_with. rewrite list_elem_of_bind. split.
  - intros ([tu t] & Hp & [[Hl Hg] Ht]%list_elem_of_filter). rewrite scan_templates_perm, elem_of_map_to_list in Ht.
    apply list_elem_of_bind in Hp as ([[tu' rc] x] & ->%list_elem_of_singleton & [[Htu Hx] Hin]%list_elem_of_filter). cbn [fst snd] in *. subst tu'.
    rewrite scan_trcs_perm, elem_of_map_to_list in Hin. exists tu, t. split_and!; [done..|]. by exists rc, x.
  - intros (tu & t & -> & Ht & Hl & Hg & rc & x & Hx & Hu). exists (tu, t). split.
    + apply list_elem_of_bind. exists (tu, rc, x). split; [by apply list_elem_of_singleton|]. apply list_elem_of_filter.
      by rewrite scan_trcs_perm, elem_of_map_to_list.
    + apply list_elem_of_filter. by rewrite scan_templates_perm, elem_of_map_to_list.
Qed.

(** With at most one row per template, every template is there once. *)
Lemma templates_with_once d f g :
  (∀ tu rc rc' x x', d.(trcs) !! (tu, rc) = Some x → d.(trcs) !! (tu, rc') = Some x' → f (tu, rc, x) = true → f (tu, rc', x') = true → rc = rc') →
  NoDup ((λ p : preloaded, p.1.1) <$> templates_with scan_templates scan_trcs d f g).
Proof.
  intros Hone. unfold templates_with. set (R := λ ut : uuid * TemplateRow, base.filter (λ kx : uuid * uuid * TrcRow, kx.1.1 = ut.1 ∧ f kx = true) (scan_trcs d.(trcs))).
  assert (∀ ut, (length (R ut) ≤ 1)%nat) as Hlen.
  { intros ut. assert (NoDup (R ut)) as Hnd by (apply NoDup_filter; rewrite scan_trcs_perm; apply NoDup_map_to_list).
    assert (∀ k k', k ∈ R ut → k' ∈ R ut → k = k') as Heq.
    { intros [[tu rc] x] [[tu' rc'] x'] [[H1 H2] H3]%list_elem_of_filter [[H1' H2'] H3']%list_elem_of_filter. cbn in H1, H1'. subst tu tu'.
      rewrite scan_trcs_perm, elem_of_map_to_list in H3, H3'. assert (rc = rc') as <- by (by eapply Hone). congruence. }
    destruct (R ut) as [|k [|k' l]]; cbn; [lia..|]. exfalso. apply NoDup_cons in Hnd as [Hn _]. apply Hn.
    rewrite (Heq k k'); [by left|by left|by right; left]. }
  assert (NoDup (base.filter (λ ut : uuid * TemplateRow, template_live ut.2 = true ∧ g ut.2 = true) (scan_templates d.(templates))).*1) as Hnd.
  { eapply sublist_NoDup; [|apply fmap_sublist, sublist_filter]. rewrite scan_templates_perm. apply NoDup_fst_map_to_list. }
  revert Hnd. generalize (base.filter (λ ut : uuid * TemplateRow, template_live ut.2 = true ∧ g ut.2 = true) (scan_templates d.(templates))) as L.
  clear Hone. induction L as [|ut L IH]; intros Hnd; [by apply NoDup_nil_2|]. rewrite fmap_cons in Hnd. apply NoDup_cons in Hnd as [Hn Hnd].
  rewrite bind_cons, fmap_app. specialize (Hlen ut). unfold R in Hlen. destruct (base.filter _ (scan_trcs _)) as [|k [|k' l]]; [by apply IH| |cbn in Hlen; lia].
  cbn. apply NoDup_cons. split; [|by apply IH]. intros (p & Hp & Hin)%list_elem_of_fmap. apply Hn.
  apply list_elem_of_bind in Hin as (ut' & Hin & HL). apply list_elem_of_bind in Hin as (k' & ->%list_elem_of_singleton & _). cbn in Hp. rewrite Hp.
  by apply list_elem_of_fmap_2.
Qed.

(** Repositories that others use are looked for in the templates of every organization. *)
Definition latest_scope (orgID : string) (repo : RepoResponse) (t : TemplateRow) : Prop :=
  (orgID = RedHatOrg ∨ orgID = CommunityOrg ∨ repo.(p_Partner) = true) ∨ t.(t_OrgID) = orgID.

Context {S C P : Type}.
Abbreviation W := (tworld S C P).

Lemma uuids_once (f : preloaded → TemplateResponse) l :
  (∀ p, (f p).(tr_UUID) = uuid_String p.1.1 ∧ (f p).(tr_row) = p.1.2) → NoDup ((λ p : preloaded, p.1.1) <$> l) → NoDup (tr_UUID <$> (f <$> l)).
Proof using HUL.
  intros Hf Hnd. assert (tr_UUID <$> (f <$> l) = uuid_String <$> ((λ p : preloaded, p.1.1) <$> l)) as ->.
  { clear Hnd. induction l as [|p l IH]; [done|]. rewrite !fmap_cons, IH. by destruct (Hf p) as [-> _]. }
  apply NoDup_fmap_2_strong; [|done]. intros u u' _ _. apply uuid_String_inj.
Qed.

Lemma latest_templates_run now orgID rc repo fs (w : W) ts fs' w' :
  latest_templates scan_templates scan_trcs sql_like sql_order snapshots_enabled content_path retain now orgID (uuid_String rc) repo (fs, w) =
    (inr ts, (fs', w')) →
  w' = w ∧ (∀ r, r ∈ ts → ∃ tu t, describes w.(tw_db) r tu t ∧ template_live t = true ∧ t.(t_UseLatest) = true ∧ is_Some (w.(tw_db).(trcs) !! (tu, rc))) ∧
  NoDup (tr_UUID <$> ts) ∧
  ∀ tu t x, w.(tw_db).(templates) !! tu = Some t → template_live t = true → t.(t_UseLatest) = true → latest_scope orgID repo t →
    w.(tw_db).(trcs) !! (tu, rc) = Some x → trc_live x = true → ∃ r, r ∈ ts ∧ describes w.(tw_db) r tu t.
Proof.
  unfold latest_templates. destruct (_ || _) eqn:Hsh.
  - intros (d & H & ->)%dao_run. apply bind_inr in H as (ps & [fs1 d1] & Hq%map_err_inr%call_inr & H). rewrite Uuidify_String in Hq.
    injection Hq as <- <-. apply to_responses_run in H as (-> & f & -> & Hf). split; [by destruct w|]. split_and!.
    + intros r (p & -> & Hp)%list_elem_of_fmap. apply templates_with_elem in Hp as (tu & t & -> & Ht & Hl & Hg & rc' & x & Hx & Hc).
      cbn [fst snd] in Hc. apply andb_true_iff in Hc as [->%bool_decide_eq_true _].
      exists tu, t. destruct (Hf (tu, template_AfterFind t, [])) as [H1 H2]. split; [done|]. split; [done|]. split; [done|]. by eexists.
    + eapply (uuids_once f); [apply Hf|]. apply templates_with_once. intros tu rc1 rc2 x1 x2 _ _ H1 H2. cbn [fst snd] in H1, H2.
      apply andb_true_iff in H1 as [->%bool_decide_eq_true _], H2 as [->%bool_decide_eq_true _]. done.
    + intros tu t x Ht Hl Hu _ Hx Hlx. eexists. split; [apply list_elem_of_fmap; eexists; split; [done|]; apply templates_with_elem; exists tu, t; split_and!; try done; exists rc, x; split; [done|]; cbn [fst snd]; by rewrite bool_decide_true|].
      destruct (Hf (tu, template_AfterFind t, [])) as [H1 H2]. by split_and!.
  - apply orb_false_iff in Hsh as [[Hs1%bool_decide_eq_false Hs2%bool_decide_eq_false]%orb_false_iff Hs3].
    intros ([ts' n] & [fs0 w0] & (d & H & ->)%dao_run & [-> [= <- <-]]%ret_inr)%bind_inr.
    apply bind_inr in H as (total & [fs1 d1] & [= <- <-]%map_err_inr%call_inr & H).
    apply bind_inr in H as (ps & [fs2 d2] & [= <- <-]%map_err_inr%call_inr & H).
    apply bind_inr in H as (rs & [fs3 d3] & (-> & f & -> & Hf)%to_responses_run & [[= <- _] [= <- <-]]%ret_inr).
    split; [by destruct w|]. unfold page. cbn [drop]. rewrite (proj2 (Z.ltb_lt (-1) 0)) by done. split_and!.
    + intros r (p & -> & ([tu t] & -> & Hp)%list_elem_of_fmap)%list_elem_of_fmap. rewrite sql_order_perm in Hp.
      apply template_list_scoped in Hp as (Ht & Hl & Hcond & Hu); [|done|by right]. unfold row_cond, uses in *. cbn in Hcond, Hu.
      destruct Hu as [[? _]|(rc' & x & Hx & Hr & _)]; [done|]. specialize (Hr ltac:(done)). rewrite Uuidify_String, list_elem_of_singleton in Hr. subst rc'.
      exists tu, t. split; [by split_and!; try apply Hf|]. split; [unfold template_live; by rewrite Hl|]. split; [by apply Hcond|by eexists].
    + eapply (uuids_once f); [apply Hf|]. rewrite <- list_fmap_compose. cbn. rewrite sql_order_perm. unfold listed.
      eapply sublist_NoDup; [|apply fmap_sublist, sublist_filter]. rewrite scan_templates_perm. apply NoDup_fst_map_to_list.
    + intros tu t x Ht Hl Hu Hsc Hx _. assert (t_OrgID t = orgID) as Ho by (destruct Hsc as [[?|[?|?]]|?]; congruence). eexists. split.
      * apply list_elem_of_fmap. eexists. split; [done|]. apply list_elem_of_fmap. exists (tu, t). split; [done|]. rewrite sql_order_perm.
        apply template_list_scoped; [done|by right|]. split; [done|]. split; [by unfold template_live in Hl; destruct (t_DeletedAt t)|].
        unfold row_cond, uses. cbn. split; [by split_and!|]. right. exists rc, x. split; [done|]. split; [|done]. intros _. by rewrite Uuidify_String, list_elem_of_singleton.
      * by split_and!; try apply Hf.
Qed.
End Which.

(** ** One template *)

Section Move.
Context {S C P : Type} `{HC : PulpClient S} `{HL : !PulpLaws S} `{HU : UuidText} {HUL : UuidLaws}.
Context (guards : bool) (tasks : gmap uuid TaskView) (url_Path : string → goerr + string).
Abbreviation W := (tworld S C P).
#[local] Set Default Proof Using "Type*".

Lemma latest_found raw fs d us fs' d' :
  FetchLatestSnapshotForDistribution raw (fs, d) = (inr us, (fs', d')) → d' = d ∧ effective_latest d (Uuidify raw) = Some us.
Proof.
  intros (p & [fs1 d1] & Hp%call_inr & H)%bind_inr. unfold effective_latest. destruct (d.(configs) !! Uuidify raw) as [c|]; [|done]. cbn.
  destruct (config_live c); [|done]. injection Hp as <- <-. destruct (c_Partner c); apply call_inr in H; destruct (best newer _); cbn in H; by simplify_eq.
Qed.

(** The template [tu] of the organization [org] uses the snapshot [us] of the repository: its row and its distribution. *)
Definition moved (dom : string) (repo : RepoResponse) (us : uuid * SnapRow) (tu : uuid) (org : string) (d : db) (s : S) : Prop :=
  ∃ p n i href x, getDistPathAndName url_Path repo (uuid_String tu) = inr (p, n) ∧ dists s !! (dom, p) = Some i ∧
    i.(i_PulpHref) = Some href ∧ serves_snapshot (S := S) guards org dom repo us i ∧
    d.(trcs) !! (tu, repo.(p_UUID)) = Some x ∧ x.(x_SnapshotUUID) = us.1 ∧ x.(x_DistributionHref) = Some href.

(** A step for the template [tu] touches its row and its distribution only. *)
Definition move_step (dom : string) (repo : RepoResponse) (tu : uuid) (w w' : W) : Prop :=
  ∃ s d, w' = set_pulp s (set_db d w) ∧ only_trcs w.(tw_db) d ∧
    (∀ k, k ≠ (tu, repo.(p_UUID)) → d.(trcs) !! k = w.(tw_db).(trcs) !! k) ∧
    (∀ k, (∀ p n, getDistPathAndName url_Path repo (uuid_String tu) = inr (p, n) → k ≠ (dom, p)) → dists s !! k = dists w.(tw_pulp) !! k).

Lemma updateLatestSnapshot_run dom repo template us tu t fs (w : W) fs' w' :
  tasks_complete S → describes w.(tw_db) template tu t →
  updateLatestSnapshot guards url_Path dom repo template us (fs, w) = (inr (), (fs', w')) →
  move_step dom repo tu w w' ∧ moved dom repo us tu t.(t_OrgID) w'.(tw_db) w'.(tw_pulp).
Proof.
  intros Hdone (Ht & Hu & Hr) H. unfold updateLatestSnapshot in H. rewrite Hu, Hr in H.
  apply bind_inr in H as ([p n] & w1 & [Hp ->]%lift_run & H).
  apply bind_inr in H as (r & [fs2 w2] & (s2 & Hc & ->)%pulp_run & H).
  apply CreateOrUpdateTemplateDistribution_serves in Hc as (g & [(i & Hi & Hpub & Hg) Hother] & Hguard); [|done].
  apply bind_inr in H as (dist & [fs3 w3] & (s3 & [Hq ->]%find_call & ->)%pulp_run & H). cbn in Hq.
  apply bind_inr in H as (href & w4 & [Hh ->]%deref_inr & H). cbn in Hh. rewrite Hi in Hh. cbn in Hh.
  apply bind_inr in H as (tu' & [fs5 w5] & Htu & H). unfold template_id in Htu. rewrite pg_String in Htu. apply ret_inr in Htu as [<- [= <- <-]].
  apply bind_inr in H as ([] & [fs6 w6] & (d6 & H6%UpdateDistributionHrefs_run & ->)%dao_run & (d7 & H7%UpdateSnapshots_run & ->)%dao_run); [|done].
  cbn in H6, H7. set (u := uuid_String (p_UUID repo)) in *.
  destruct (two_statements _ _ _ _ _ _ _ u H6 H7 ltac:(by left)) as (us' & Eu & Hf & Hx).
  assert (us' = us) as ->.
  { unfold find_snapshot, list_find in Hf. destruct (decide _) in Hf; by simplify_eq/=. }
  apply uuid_String_inj in Eu. destruct H6 as (Ho6 & _ & Hs6), H7 as (Ho7 & _ & Hs7). split.
  - exists s3, d7. split; [by destruct w|]. split; [eapply only_trcs_trans; [exact Ho6|exact Ho7]|]. split.
    + intros k Hk. rewrite Hs7, Hs6; [done|..]; intros [Hk1 Hk2%list_elem_of_singleton%uuid_String_inj]; apply Hk; destruct k; cbn in *; congruence.
    + intros k Hk. rewrite Hq. apply Hother. by eapply Hk.
  - exists p, n, i, href. eexists. cbn. rewrite Hq, Hi. split; [done|]. split; [done|]. split; [done|].
    split; [split; [done|]; by rewrite Hg|]. rewrite Eu. split; [exact Hx|]. split; [done|]. cbn. by rewrite lookup_singleton_eq.
Qed.

Lemma moved_step dom repo us tu tu' org (w w' : W) :
  tu ≠ tu' → move_step dom repo tu w w' → moved dom repo us tu' org w.(tw_db) w.(tw_pulp) → moved dom repo us tu' org w'.(tw_db) w'.(tw_pulp).
Proof.
  intros Hne (s & d & -> & _ & Hrows & Hd) (p & n & i & href & x & Hp & Hi & Hh & Hs & Hx & Hx1 & Hx2). exists p, n, i, href, x. cbn.
  split_and!; try done; [rewrite Hd; [done|]|rewrite Hrows; [done|congruence]]. intros p' n' Hp' [= ->]. by apply Hne, (paths_differ url_Path repo _ _ p' n' n).
Qed.

(** One round of the loop. *)
Lemma update_template_run orgID ds repo us r tu t fs (w : W) fs' w' :
  tasks_complete S → describes w.(tw_db) r tu t →
  update_template guards url_Path orgID ds repo us r (fs, w) = (inr (), (fs', w')) →
  let dom := domain_of w.(tw_domains) orgID ds repo in
  move_step dom repo tu w w' ∧ moved dom repo us tu t.(t_OrgID) w'.(tw_db) w'.(tw_pulp).
Proof.
  intros Hdone Hd (dom & [fs1 w1] & [-> ->]%repo_domain_run & H)%bind_inr.
  apply bind_inr in H as (x & [fs2 w2] & Htry%try_run & H). destruct x as [e|[]].
  - apply bind_inr in H as (tu' & w3 & _ & H). by apply bind_inr in H as ([] & w4 & _ & H).
  - apply ret_inr in H as [_ [= _ <-]]. by eapply updateLatestSnapshot_run.
Qed.

Record all_moved (dom : string) (repo : RepoResponse) (us : uuid * SnapRow) (ts : list TemplateResponse) (w w' : W) : Prop := {
  am_world : ∃ s d, w' = set_pulp s (set_db d w) ∧ only_trcs w.(tw_db) d;
  am_moved r tu t : r ∈ ts → describes w.(tw_db) r tu t → moved dom repo us tu t.(t_OrgID) w'.(tw_db) w'.(tw_pulp);
  am_still tu t : w.(tw_db).(templates) !! tu = Some t → moved dom repo us tu t.(t_OrgID) w.(tw_db) w.(tw_pulp) →
    moved dom repo us tu t.(t_OrgID) w'.(tw_db) w'.(tw_pulp);
  am_rows k : w'.(tw_db).(trcs) !! k ≠ w.(tw_db).(trcs) !! k → k.2 = repo.(p_UUID) ∧ ∃ r, r ∈ ts ∧ r.(tr_UUID) = uuid_String k.1;
  am_dists k : dists w'.(tw_pulp) !! k ≠ dists w.(tw_pulp) !! k →
    ∃ r tu p n, r ∈ ts ∧ r.(tr_UUID) = uuid_String tu ∧ getDistPathAndName url_Path repo (uuid_String tu) = inr (p, n) ∧ k = (dom, p) }.

Lemma move_all orgID ds repo us ts fs (w : W) fs' w' :
  tasks_complete S → (∀ r, r ∈ ts → ∃ tu t, describes w.(tw_db) r tu t) →
  iter (update_template guards url_Path orgID ds repo us) ts (fs, w) = (inr (), (fs', w')) →
  all_moved (domain_of w.(tw_domains) orgID ds repo) repo us ts w w'.
Proof.
  intros Hdone. revert fs w. induction ts as [|r ts IH]; intros fs w Hts H; cbn [iter] in H.
  { apply ret_inr in H as [_ [= _ <-]]. split; [exists (tw_pulp w), (tw_db w); by destruct w as [[]]|by intros ? ? ? ?%not_elem_of_nil|done..]. }
  apply bind_inr in H as ([] & [fs1 w1] & H1 & H). destruct (Hts r ltac:(by left)) as (tu & t & Hd).
  pose proof (update_template_run _ _ _ _ _ _ _ _ _ _ _ Hdone Hd H1) as [Hstep Hmoved]. cbv zeta in Hstep, Hmoved.
  pose proof Hstep as (s1 & d1 & Ew & Ho & Hrows & Hdists).
  assert (templates d1 = templates (tw_db w)) as Htab by by rewrite Ho.
  assert (∀ r tu t, describes (tw_db w1) r tu t ↔ describes (tw_db w) r tu t) as Hdesc by (intros; rewrite Ew; unfold describes; cbn; by rewrite Htab).
  apply IH in H as [(s2 & d2 & E2 & Ho2) Hm Hst Hr Hk]; [|intros r' Hr'; destruct (Hts r' ltac:(by right)) as (? & ? & ?); setoid_rewrite Hdesc; eauto].
  assert (tw_domains w1 = tw_domains w) as Edom by (by rewrite Ew). rewrite Edom in *. split.
  - exists s2, d2. split; [by rewrite E2, Ew; destruct w|]. rewrite Ew in Ho2. cbn in Ho2. by eapply only_trcs_trans.
  - intros r' tu' t' [->|Hr']%elem_of_cons Hd'; [|by eapply Hm; [|apply Hdesc]]. destruct Hd as (Ht & Hu & _), Hd' as (Ht' & Hu' & _).
    assert (tu' = tu) as -> by (apply uuid_String_inj; congruence). assert (t' = t) as -> by congruence. apply Hst; [by rewrite Ew; cbn; rewrite Htab|done].
  - intros tu' t' Ht' Hmv. apply Hst; [by rewrite Ew; cbn; rewrite Htab|]. destruct Hd as (Ht & _). destruct (decide (tu = tu')) as [<-|Hne]; [by assert (t' = t) as -> by congruence|].
    by eapply moved_step.
  - intros k Hne. destruct (decide (trcs (tw_db w') !! k = trcs (tw_db w1) !! k)) as [E|E].
    + destruct Hd as (_ & Hu & _). destruct (decide (k = (tu, p_UUID repo))) as [->|Hk']; [split; [done|]; exists r; split; [by left|done]|].
      destruct Hne. rewrite E, Ew. cbn. by apply Hrows.
    + destruct (Hr k E) as (? & r' & ? & ?). split; [done|]. exists r'. split; [by right|done].
  - intros k Hne. destruct (decide (dists (tw_pulp w') !! k = dists (tw_pulp w1) !! k)) as [E|E].
    + destruct Hd as (_ & Hu & _). destruct Hmoved as (p & n & _ & _ & _ & Hp & _). exists r, tu, p, n. split; [by left|]. split; [done|]. split; [done|].
      destruct (decide (k = (domain_of (tw_domains w) orgID ds repo, p))) as [|Hk']; [done|]. destruct Hne. rewrite E, Ew. cbn. apply Hdists.
      intros p' n' Hp'. rewrite Hp in Hp'. by injection Hp' as <- _.
    + destruct (Hk k E) as (r' & tu' & p & n & ? & ? & ? & ?). exists r', tu', p, n. split; [by right|done].
Qed.
End Move.

(** ** The task *)

Section Latest.
Context {S C P : Type} `{HC : PulpClient S} `{HL : !PulpLaws S} `{HU : UuidText} {HUL : UuidLaws}.
Context (guards : bool) (scan_templates : gmap uuid TemplateRow → list (uuid * TemplateRow)).
Context (scan_trcs : gmap (uuid * uuid) TrcRow → list (uuid * uuid * TrcRow)).
Context (sql_like : string → string → bool) (sql_order : string → list (uuid * TemplateRow) → list (uuid * TemplateRow)).
Context (snapshots_enabled : bool) (content_path : goerr + string) (retain : Z).
Context (tasks : gmap uuid TaskView) (url_Path : string → goerr + string) (new_id : list QTask → uuid).
Hypothesis scan_templates_perm : ∀ m, scan_templates m ≡ₚ map_to_list m.
Hypothesis scan_trcs_perm : ∀ m, scan_trcs m ≡ₚ map_to_list m.
Hypothesis sql_order_perm : ∀ o l, sql_order o l ≡ₚ l.
Abbreviation W := (tworld S C P).
#[local] Set Default Proof Using "Type*".

(** The task that removes the repository from a template. *)
Definition removal_task (task : uuid) (account repoUUID : string) (r : TemplateResponse) (q : QTask) : Prop :=
  ∃ id, q = mk_QTask id UpdateTemplateContentTask (SnapshotHandler.UpdateTemplateContentPayload r.(tr_UUID) [] (Some repoUUID))
              r.(tr_row).(t_OrgID) account r.(tr_UUID) ObjectTypeTemplate [task] true.

Lemma enqueue_all task account repoUUID ts fs (w : W) fs' w' :
  enqueueTemplateRemovalTasks new_id task account repoUUID ts (fs, w) = (inr (), (fs', w')) →
  ∃ qs, w' = set_tasks (w.(tw_tasks) ++ qs)%list w ∧ Forall2 (removal_task task account repoUUID) ts qs.
Proof.
  unfold enqueueTemplateRemovalTasks. revert fs w. induction ts as [|r ts IH]; intros fs w H; cbn [iter] in H.
  { apply ret_inr in H as [_ [= _ <-]]. exists []. split; [rewrite app_nil_r; by destruct w|constructor]. }
  apply bind_inr in H as ([] & [fs1 w1] & H1 & H). apply bind_inr in H1 as (id & [fs2 w2] & He%wrap_inr%call_inr & [_ [= _ <-]]%ret_inr).
  injection He as <- <-. apply IH in H as (qs & -> & Hqs). eexists (_ :: qs). split; [cbn; by rewrite <- (assoc app)|].
  constructor; [by eexists|done].
Qed.


(** ** Deleting a template *)

Lemma Template_Delete_run orgID tu fs d fs' d' :
  Template_Delete orgID (uuid_String tu) (fs, d) = (inr (), (fs', d')) →
  d' = set_trcs (base.filter (λ kx : uuid * uuid * TrcRow, kx.1.1 ≠ tu)) (set_templates (delete tu) d).
Proof.
  intros ([u t] & [fs1 d1] & Hf%map_err_inr%call_inr & H%call_inr)%bind_inr. rewrite Uuidify_String in Hf.
  destruct (templates d !! tu) as [t0|]; [|done]. destruct (_ && _); [|done]. injection Hf as <- <- <-. by injection H as <-.
Qed.
End Latest.

#[local] Existing Instances Ex.uuid_text Ex.uuid_laws.

Module LatestEx.
(** The template uses the latest snapshot and is still at the one before it. *)
Definition template : TemplateRow := mk_TemplateRow "t" "org" "" 0%Z "9" "x86_64" "" "" None "" "" true true None None.
Definition w : tworld mem () () :=
  mk_tw (mk_db (configs Ex.d) (repositories Ex.d) (snapshots Ex.d) {[31%N := template]} {[(31%N, 1%N) := mk_TrcRow 5 (Some "") None]})
    {["org" := "cs"]} [] (mk_mem ∅ ∅ ∅ [] ∅) () () ().
Definition run : M (tworld mem () ()) goerr () :=
  UpdateLatestSnapshot_Run true map_to_list map_to_list (λ _ _, false) (λ _ l, l) true (inr "https://pulp/") 365 ∅ (λ _, inr "/x/") (λ _, 99%N)
    (40 * Second)%Z 77%N "account" "org" (mk_domain_names "cs" "rh" "community") (Ex.text 1).
End LatestEx.

