(* ===== verification/RepoDeleteTask.v ===== *)
(** * tasks/delete_repository_snapshots.go

    The deletion of a repository: its content in Candlepin, its distributions, those of the templates that use it, its
    snapshots, its remote and its repository in Pulp, and the configuration last. *)

From S2P Require Import Prelude GoStrings GoSplit Config TxMonad Utils Models Errors DaoHelpers GoText SnapshotDao SnapshotThms TemplateDao SnapshotHandler SnapshotHandlerThms RepoConfigDao Pulp Distribution TaskEnv PublishTask DeleteTask Candlepin TemplateTask.
From stdpp Require Import options.

Open Scope string_scope.

Module RepoDelete.
Section Task.
Context {S C P : Type} `{HC : PulpClient S} `{HK : CandlepinApi C} `{HU : UuidText}.
Context (DevelOrg : bool) (scan : gmap uuid SnapRow → list (uuid * SnapRow)).
Context (scan_templates : gmap uuid TemplateRow → list (uuid * TemplateRow)).
Context (scan_trcs : gmap (uuid * uuid) TrcRow → list (uuid * uuid * TrcRow)).
Context (sql_like : string → string → bool) (sql_order : string → list (uuid * TemplateRow) → list (uuid * TemplateRow)).
Context (snapshots_enabled : bool) (content_path : goerr + string) (SnapshotRetainDaysLimit : Z).
Context (tasks : gmap uuid TaskView) (PulpConfigured CandlepinConfigured : bool).
Abbreviation TM := (M (tworld S C P) goerr).

(** The domain of the client, if there is one. [name]: the random name of a new domain. *)
Definition lookupOptionalPulpClient (name orgId : string) : TM (option string) :=
  if negb PulpConfigured then mret None
  else
    domainName ← domain_dao (FetchOrCreateDomain name orgId);
    domainFound ← pulp (db_call (LookupDomain domainName));
    mret (if domainFound != "" then Some domainName else None).

Definition fetchSnapshots (repoConfigUUID : string) : TM (list (uuid * SnapRow)) := dao (FetchForRepoConfigUUID scan repoConfigUUID true).

Definition deleteRpmDistribution (dom href : string) : TM () :=
  delete_and_poll dom href ("failed to delete rpm distribution " +:+ href) ("error polling distribution deletion task for " +:+ href).

Definition deleteDistributionAtPath (dom distPath : string) : TM () :=
  if distPath == "" then mret ()
  else
    dist ← wrap ("failed to find distribution at base path " +:+ distPath) (pulp (db_call (FindDistributionByPath dom distPath)));
    match dist ≫= d_PulpHref with
    | None => mret ()
    | Some href => deleteRpmDistribution dom href
    end.

Definition deleteSnapshotDistribution (dom : string) (snap : SnapRow) : TM () :=
  if snap.(s_DistributionHref) != "" then deleteRpmDistribution dom snap.(s_DistributionHref)
  else deleteDistributionAtPath dom snap.(s_DistributionPath).

Definition deleteRpmRepoAndRemote (dom repoConfigUUID : string) : TM () :=
  remoteResp ← wrap "failed to look up rpm remote" (pulp (db_call (GetRpmRemoteByName dom repoConfigUUID)));
  _ ← match remoteResp with
      | None => mret ()
      | Some remoteHref =>
          href ← deref remoteHref;
          task ← wrap ("failed to delete rpm remote " +:+ href) (pulp (db_call (DeleteRpmRemote dom href)));
          _ ← wrap ("error polling rpm remote deletion task for " +:+ href) (pulp (db_call (PollTask dom task)));
          mret ()
      end;
  repoResp ← wrap "failed to look up rpm repository" (pulp (db_call (GetRpmRepositoryByName dom repoConfigUUID)));
  match repoResp with
  | None => mret ()
  | Some repo =>
      href ← deref repo.(pr_PulpHref);
      task ← wrap ("failed to delete rpm repository " +:+ href) (pulp (db_call (DeleteRpmRepository dom href)));
      _ ← wrap ("error polling rpm repository deletion task for " +:+ href) (pulp (db_call (PollTask dom task)));
      mret ()
  end.

Definition deleteSnapshot (snapUUID : string) : TM () :=
  unless_not_found (dao (Delete snapUUID)) ("error deleting snapshot " +:+ snapUUID) mret.

Definition deleteTemplateSnapshot (snapshotUUID : string) : TM () :=
  unless_not_found (dao (DeleteTemplateSnapshot snapshotUUID)) ("error deleting template snapshot " +:+ snapshotUUID) mret.

Definition deleteRepoConfig (orgId repoConfigUUID : string) : TM () :=
  unless_not_found (dao (RepoConfig_Delete orgId repoConfigUUID)) "error deleting repository configuration" mret.

(** The text of the first error is kept, the error is not. *)
Definition candlepinRHContentId (templateOrgId repoConfigUuid : string) : TM string :=
  rConfig ← map_err (catch (λ err, ErrPlain ("error fetching repo config " +:+ Error err))) (dao (FetchWithoutOrgID tasks repoConfigUuid true));
  let at_ := templateOrgId +:+ "/" +:+ rConfig.(p_Label) in
  cpContent ← wrap ("failed to fetch content for repo " +:+ at_) (cp (FetchContentsByLabel DevelOrg templateOrgId [rConfig.(p_Label)]));
  match head cpContent ≫= ct_Id with
  | None => throw (ErrPlain ("missing content for candlepin content for repo " +:+ at_))
  | Some id => mret id
  end.

Definition deleteCandlepinContent (now : time) (orgId repoConfigUUID : string) : TM () :=
  if negb CandlepinConfigured then mret ()
  else if orgId == RedHatOrg then
    templates ← wrap "couldn't get templates for repo config"
      (dao (InternalOnlyGetTemplatesForRepoConfig scan_templates scan_trcs snapshots_enabled content_path SnapshotRetainDaysLimit now repoConfigUUID false));
    iter (λ template,
      contentId ← candlepinRHContentId template.(tr_row).(t_OrgID) repoConfigUUID;
      wrap ("couldn't demote content from environment for template " +:+ template.(tr_UUID))
        (cp (DemoteContentFromEnvironment template.(tr_UUID) [contentId]))) templates
  else
    _ ← wrap "failed to remove content from candlepin product" (cp (RemoveContentFromProduct DevelOrg orgId repoConfigUUID));
    wrap "error deleting candlepin content" (cp (DeleteContent DevelOrg orgId repoConfigUUID)).

(** One template; a failure is kept, and the next template follows. *)
Definition delete_template_distribution (dom repoConfigUUID : string) (template : TemplateResponse) : TM () :=
  let tu := template.(tr_UUID) in
  distHref ← wrap ("failed to get distribution href for template " +:+ tu) (dao (GetDistributionHref tu repoConfigUUID));
  match distHref with
  | None => mret ()
  | Some href => delete_and_poll dom href ("failed to delete rpm distribution " +:+ href +:+ " for template " +:+ tu)
                   ("error polling distribution deletion task for template " +:+ tu)
  end.

Definition repo_templates (now : time) (orgId repoConfigUUID : string) : TM (list TemplateResponse) :=
  wrap "failed to get templates for repo config"
    (if orgId == RedHatOrg
     then dao (InternalOnlyGetTemplatesForRepoConfig scan_templates scan_trcs snapshots_enabled content_path SnapshotRetainDaysLimit now repoConfigUUID false)
     else '(ts, _) ← dao (Template_List scan_templates scan_trcs sql_like sql_order snapshots_enabled content_path SnapshotRetainDaysLimit
                            now orgId true (-1) 0 "" (mk_TemplateFilterData "" "" "" "" "" false "" [repoConfigUUID] [] false));
          mret ts).

Definition deleteTemplateRepoDistributions (now : time) (dom orgId repoConfigUUID : string) : TM () :=
  templates ← repo_templates now orgId repoConfigUUID;
  errs ← collect (delete_template_distribution dom repoConfigUUID) templates;
  errors_Join errs.

(** One snapshot. *)
Definition delete_snapshot_content (dom : string) (us : uuid * SnapRow) : TM () :=
  _ ← deleteSnapshotDistribution dom us.2;
  _ ← deleteTemplateSnapshot (uuid_String us.1);
  deleteSnapshot (uuid_String us.1).

Definition delete_latest (dom repoConfigUUID : string) : TM () :=
  let latestPathIdent := repoConfigUUID +:+ "/latest" in
  latestDistro ← wrap ("failed to find latest distribution by path " +:+ latestPathIdent) (pulp (db_call (FindDistributionByPath dom latestPathIdent)));
  match latestDistro with
  | None => mret ()
  | Some dist => href ← deref (d_PulpHref dist); wrap ("failed to delete latest distribution " +:+ href) (deleteRpmDistribution dom href)
  end.

(** An error of the query of the snapshots is dropped. *)
Definition delete_pulp_content (now : time) (dom orgId repoConfigUUID : string) : TM () :=
  r ← try (fetchSnapshots repoConfigUUID);
  let snaps := match r with inr l => l | inl _ => [] end in
  _ ← delete_latest dom repoConfigUUID;
  _ ← deleteTemplateRepoDistributions now dom orgId repoConfigUUID;
  snapErrs ← collect (delete_snapshot_content dom) snaps;
  _ ← errors_Join snapErrs;
  deleteRpmRepoAndRemote dom repoConfigUUID.

Definition Run (now : time) (pulpClient : option string) (orgId repoConfigUUID : string) : TM () :=
  _ ← deleteCandlepinContent now orgId repoConfigUUID;
  _ ← (match pulpClient with
       | Some dom => if PulpConfigured then delete_pulp_content now dom orgId repoConfigUUID else mret ()
       | None => mret ()
       end);
  deleteRepoConfig orgId repoConfigUUID.

Definition DeleteRepositorySnapshotsHandler (name : string) (now : time) (orgId repoConfigUUID : string) : TM () :=
  pulpClient ← lookupOptionalPulpClient name orgId;
  Run now pulpClient orgId repoConfigUUID.
End Task.
End RepoDelete.
