(* ===== verification/RepoDeletion.v ===== *)
(** * What the deletion of a repository achieves

    When the task succeeds, nothing is left of the repository: no configuration, no snapshot, no content of a template, and no
    distribution. The error of the query of the snapshots is dropped by the task, but a configuration that still has
    snapshots cannot be removed, so that the task does not succeed without them. *)

From S2P Require Import Prelude GoStrings GoSplit Config TxMonad Utils Models Errors DaoHelpers GoText SnapshotDao SnapshotThms TemplateDao TemplateThms TemplateLists SnapshotHandler SnapshotHandlerThms RepoConfigDao Pulp Distribution TaskEnv PublishTask DeleteTask DeleteTaskThms Deletion Candlepin TemplateTask TemplateCandlepin TemplatePulp LatestThms RepoDeleteTask.
From stdpp Require Import options.

Open Scope string_scope.

(** A loop that keeps the failures and had none. *)
Lemma collect_iter {W A} (f : A → M W goerr ()) l fs w fs' w' :
  (errs ← collect f l; errors_Join errs) (fs, w) = (inr (), (fs', w')) → iter f l (fs, w) = (inr (), (fs', w')).
Proof.
  intros (errs & [fs1 w1] & Hc & H)%bind_inr. destruct errs as [|e errs]; [|done]. apply ret_inr in H as [_ [= -> ->]].
  revert fs w Hc. induction l as [|a l IH]; intros fs w Hc; cbn [collect iter] in *.
  { by apply ret_inr in Hc as [_ [= -> ->]]. }
  apply bind_inr in Hc as (r & [fs2 w2] & Hr%try_run & Hc). apply bind_inr in Hc as (errs & [fs3 w3] & Hl & [Hn [= <- <-]]%ret_inr).
  destruct r as [e|[]]; [done|]. subst errs. unfold mbind, M_bind. rewrite Hr. by apply IH.
Qed.

Lemma iter_each {W A} (R : relation W) `{!PreOrder R} (f : A → M W goerr ()) (Q : A → W → Prop) l fs w fs' w' :
  (∀ a fs w fs' w', f a (fs, w) = (inr (), (fs', w')) → R w w' ∧ Q a w') → (∀ a w w', R w w' → Q a w → Q a w') →
  iter f l (fs, w) = (inr (), (fs', w')) → R w w' ∧ ∀ a, a ∈ l → Q a w'.
Proof.
  intros Hf Hm. revert fs w. induction l as [|a l IH]; intros fs w H; cbn [iter] in H.
  { apply ret_inr in H as [_ [= _ <-]]. split; [done|]. by intros a ?%not_elem_of_nil. }
  apply bind_inr in H as ([] & [fs1 w1] & [Hr Hq]%Hf & [HR HQ]%IH). split; [by etrans|].
  intros b [->|Hb]%elem_of_cons; [by eapply Hm|auto].
Qed.

(** ** Distributions that are left *)

(** No distribution is new. (The deletion of a repository takes the publication from those that served it.) *)
Definition less (m m' : gmap (string * string) DistInfo) : Prop :=
  ∀ k i, m' !! k = Some i → ∃ j, m !! k = Some j ∧ j.(i_PulpHref) = i.(i_PulpHref).
#[global] Instance less_preorder : PreOrder less.
Proof.
  split; [intros m k i; eauto|]. intros m1 m2 m3 H1 H2 k i (j & (j' & ? & ?)%H1 & ?)%H2. exists j'. split; [done|congruence].
Qed.
Lemma less_subseteq m m' : m' ⊆ m → less m m'.
Proof. intros Hm k i Hi. exists i. split; [|done]. by eapply lookup_weaken. Qed.

Definition no_href (h : string) (m : gmap (string * string) DistInfo) : Prop := ∀ k i, m !! k = Some i → i.(i_PulpHref) ≠ Some h.
Lemma no_href_less h m m' : less m m' → no_href h m → no_href h m'.
Proof. intros Hm H k i (j & Hj & <-)%Hm. by eapply H. Qed.

(** The href stored in a row of a template, if there is one, is that of no distribution. *)
Definition href_gone (x : TrcRow) (m : gmap (string * string) DistInfo) : Prop :=
  ∀ href, x.(x_DistributionHref) = Some href → href ≠ "" → no_href href m.
Lemma href_gone_less x m m' : less m m' → href_gone x m → href_gone x m'.
Proof. intros Hm H href Hx Hne. eapply no_href_less; [done|]. by apply H. Qed.

(** At the path there is no distribution. (One always has an href.) *)
Definition no_path (dom p : string) (m : gmap (string * string) DistInfo) : Prop :=
  ∀ i href, m !! (dom, p) = Some i → i.(i_PulpHref) = Some href → href = "".
Lemma no_path_less dom p m m' : less m m' → no_path dom p m → no_path dom p m'.
Proof. intros Hm H i href (j & Hj & Hh)%Hm. rewrite <- Hh. by apply H. Qed.

Lemma unserved_less dom snap m m' : less m m' → unserved dom snap m → unserved dom snap m'.
Proof.
  intros Hm. unfold unserved. destruct (_ == ""); [|by apply no_href_less]. intros H Hp. specialize (H Hp). by eapply no_path_less.
Qed.

(** What the task relies on when it deletes the remote and the repository: no distribution is made. *)
Class PulpDeletions (S : Type) `{PulpLaws S} := {
  remote_deletion dom h s : less (dists s) (dists (DeleteRpmRemote dom h s).2);
  remote_deletion_task dom h s t s1 s2 : DeleteRpmRemote dom h s = (inr t, s1) → less (dists s2) (dists (PollTask dom t s2).2);
  repository_deletion dom h s : less (dists s) (dists (DeleteRpmRepository dom h s).2);
  repository_deletion_task dom h s t s1 s2 : DeleteRpmRepository dom h s = (inr t, s1) → less (dists s2) (dists (PollTask dom t s2).2)
}.
#[global] Instance mem_deletions : PulpDeletions mem.
Proof. by split. Qed.

(** ** Rows that are left *)

Section Rows.
Definition forget (l : list uuid) (c : ConfigRow) : ConfigRow :=
  match c.(c_LastSnapshotUUID) with
  | Some u => if bool_decide (u ∈ l) then set_last_snapshot None c else c
  | None => c
  end.

(** The snapshots [l] are removed; rows of templates go at most with their snapshot, which is no configuration's last one. *)
Record without (l : list uuid) (d d' : db) : Prop := {
  wo_snapshots : d'.(snapshots) = base.filter (λ us, us.1 ∉ l) d.(snapshots);
  wo_configs : d'.(configs) = forget l <$> d.(configs);
  wo_trcs : d'.(trcs) ⊆ d.(trcs);
  wo_kept k x : d.(trcs) !! k = Some x → x.(x_SnapshotUUID) ∉ l → d'.(trcs) !! k = Some x;
  wo_templates : d'.(templates) = d.(templates);
  wo_repositories : d'.(repositories) = d.(repositories) }.

Lemma without_nil d : without [] d d.
Proof.
  split; try done.
  - symmetry. apply map_filter_id. intros. apply not_elem_of_nil.
  - symmetry. erewrite map_fmap_ext; [apply map_fmap_id|]. intros k c _. unfold forget. destruct (c_LastSnapshotUUID c); [|done].
    rewrite bool_decide_false; [done|]. apply not_elem_of_nil.
Qed.

Lemma without_cons u l d d1 d2 : without [u] d d1 → without l d1 d2 → without (u :: l) d d2.
Proof.
  intros [Hs Hc Ht Hk Hte Hr] [Hs' Hc' Ht' Hk' Hte' Hr']. split; try congruence; try by etrans.
  - rewrite Hs', Hs, map_filter_filter. apply map_filter_ext. intros k s _. cbn. set_solver.
  - rewrite Hc', Hc, <- map_fmap_compose. apply map_fmap_ext. intros k c _. unfold forget. cbn.
    destruct c as [f la o a r p fe e ev last t n del]. cbn. destruct last as [v|]; [|done]. cbn.
    destruct (decide (v = u)) as [->|Hne].
    + rewrite (bool_decide_true (u ∈ [u])) by set_solver. cbn. by rewrite bool_decide_true by set_solver.
    + rewrite (bool_decide_false (v ∈ [u])) by set_solver. cbn. destruct (decide (v ∈ l)).
      * by rewrite !bool_decide_true by set_solver.
      * by rewrite !bool_decide_false by set_solver.
  - intros k x Hx [Hn Hl]%not_elem_of_cons. apply Hk'; [|done]. apply Hk; [done|]. by rewrite list_elem_of_singleton.
Qed.
End Rows.

(** ** Steps on Pulp *)

Section Pulp.
Context {S C P : Type} `{HC : PulpClient S} `{HL : !PulpLaws S}.
Abbreviation W := (tworld S C P).
#[local] Set Default Proof Using "Type*".

Definition thins (w w' : W) : Prop := w'.(tw_db) = w.(tw_db) ∧ less (dists w.(tw_pulp)) (dists w'.(tw_pulp)).
#[global] Instance thins_preorder : PreOrder thins.
Proof. split; [by split|]. intros w1 w2 w3 [H1 H2] [H3 H4]. split; [congruence|by etrans]. Qed.
Lemma shrinks_thins w w' : shrinks w w' → thins w w'.
Proof. intros [Hd Hm]. split; [done|]. by apply less_subseteq. Qed.

Lemma delete_run dom href m1 m2 fs (w : W) fs' w' :
  tasks_complete S → delete_and_poll dom href m1 m2 (fs, w) = (inr (), (fs', w')) →
  shrinks w w' ∧ (href ≠ "" → no_href href (dists w'.(tw_pulp))).
Proof.
  intros Hdone H. split; [by eapply shrinks_delete_and_poll|]. intros Hne k i. by eapply delete_and_poll_gone.
Qed.

(** The distribution found at a path is deleted. *)
Lemma deleted_at dom p i0 href m1 m2 fs (w : W) fs' w' :
  tasks_complete S → dists w.(tw_pulp) !! (dom, p) = Some i0 → i0.(i_PulpHref) = Some href →
  delete_and_poll dom href m1 m2 (fs, w) = (inr (), (fs', w')) → thins w w' ∧ no_path dom p (dists w'.(tw_pulp)).
Proof.
  intros Hdone Hi Hh [Hs Hno]%delete_run; [|done]. split; [by apply shrinks_thins|]. destruct Hs as [_ Hsub].
  intros i h Hi' Hh'. pose proof (lookup_weaken _ _ _ _ Hi' Hsub) as E. destruct (decide (href = "")) as [|Hne]; [congruence|].
  destruct (Hno Hne _ _ Hi'). congruence.
Qed.

Lemma at_path_run dom p fs (w : W) fs' w' :
  tasks_complete S → p ≠ "" → RepoDelete.deleteDistributionAtPath dom p (fs, w) = (inr (), (fs', w')) →
  thins w w' ∧ no_path dom p (dists w'.(tw_pulp)).
Proof.
  intros Hdone Hp H. unfold RepoDelete.deleteDistributionAtPath in H. rewrite bool_decide_false in H by done.
  apply bind_inr in H as (dist & [fs1 w1] & (s1 & [Hd1 ->]%find_call & ->)%wrap_inr%pulp_run & H).
  assert (thins w (set_pulp s1 w)) as Ht by (split; [done|cbn; rewrite Hd1; reflexivity]).
  destruct (dists (tw_pulp w) !! (dom, p)) as [i0|] eqn:Hi0; cbn [fmap option_fmap option_map mbind option_bind] in H.
  - unfold d_PulpHref in H. cbn [d_Info] in H. destruct (i_PulpHref i0) as [h|] eqn:Hh0.
    + apply (deleted_at dom p i0) in H as [Ht' Hn]; [|done|cbn; by rewrite Hd1|done]. split; [by etrans|done].
    + apply ret_inr in H as [_ [= <- <-]]. split; [done|]. intros i h Hi Hh. cbn in Hi. rewrite Hd1 in Hi. by simplify_eq.
  - apply ret_inr in H as [_ [= <- <-]]. split; [done|]. intros i h Hi Hh. cbn in Hi. rewrite Hd1 in Hi. by simplify_eq.
Qed.

Lemma snapshot_distribution_run dom snap fs (w : W) fs' w' :
  tasks_complete S → RepoDelete.deleteSnapshotDistribution dom snap (fs, w) = (inr (), (fs', w')) →
  thins w w' ∧ unserved dom snap (dists w'.(tw_pulp)).
Proof.
  intros Hdone H. unfold RepoDelete.deleteSnapshotDistribution in H. unfold unserved.
  destruct (bool_decide_reflect (s_DistributionHref snap = "")) as [Hh|Hh]; cbn [negb] in H.
  - destruct (decide (s_DistributionPath snap = "")) as [Hp|Hp].
    + unfold RepoDelete.deleteDistributionAtPath in H. rewrite Hp, bool_decide_true in H by done. by apply ret_inr in H as [_ [= _ <-]].
    + apply at_path_run in H as [Ht Hn]; [|done..]. split; [done|]. by intros _.
  - apply delete_run in H as [Hs Hn]; [|done]. split; [by apply shrinks_thins|by apply Hn].
Qed.

Lemma delete_latest_run dom rc fs (w : W) fs' w' :
  tasks_complete S → RepoDelete.delete_latest dom rc (fs, w) = (inr (), (fs', w')) →
  thins w w' ∧ no_path dom (rc +:+ "/latest") (dists w'.(tw_pulp)).
Proof.
  intros Hdone H. unfold RepoDelete.delete_latest in H. set (p := rc +:+ "/latest") in *.
  apply bind_inr in H as (dist & [fs1 w1] & (s1 & [Hd1 ->]%find_call & ->)%wrap_inr%pulp_run & H).
  assert (thins w (set_pulp s1 w)) as Ht by (split; [done|cbn; rewrite Hd1; reflexivity]).
  destruct (dists (tw_pulp w) !! (dom, p)) as [i0|] eqn:Hi0; cbn [fmap option_fmap option_map mbind option_bind] in H.
  - apply bind_inr in H as (href & ? & [Hh ->]%deref_inr & H%wrap_inr). unfold d_PulpHref in Hh. cbn in Hh.
    apply (deleted_at dom p i0) in H as [Ht' Hn]; [|done|cbn; by rewrite Hd1|done]. split; [by etrans|done].
  - apply ret_inr in H as [_ [= <- <-]]. split; [done|]. intros i h Hi Hh. cbn in Hi. rewrite Hd1 in Hi. by simplify_eq.
Qed.

(** A request whose effect and whose task make no distribution. *)
Lemma thins_request (f : S → (goerr + string) * S) dom m1 m2 fs (w : W) fs' w' :
  (∀ s, less (dists s) (dists (f s).2)) → (∀ s t s1 s2, f s = (inr t, s1) → less (dists s2) (dists (PollTask dom t s2).2)) →
  (task ← wrap m1 (pulp (db_call f)); _ ← wrap m2 (pulp (db_call (PollTask dom task))); mret ()) (fs, w) = (inr (), (fs', w')) → thins w w'.
Proof.
  intros Hf Ht (t & [fs1 w1] & (s1 & Hc%call_inr & ->)%wrap_inr%pulp_run & H)%bind_inr.
  apply bind_inr in H as (tr & [fs2 w2] & (s2 & Hp%call_inr & ->)%wrap_inr%pulp_run & [_ [= _ <-]]%ret_inr).
  split; [done|]. cbn in *. specialize (Hf (tw_pulp w)). specialize (Ht _ _ _ s1 Hc). rewrite Hc in Hf. rewrite Hp in Ht. by etrans.
Qed.

Lemma quiet_thins {A} (f : S → (goerr + A) * S) msg fs (w : W) a fs' w' :
  quiet A f → wrap msg (pulp (db_call f)) (fs, w) = (inr a, (fs', w')) → thins w w'.
Proof. intros Hq (s & Hc%call_inr & ->)%wrap_inr%pulp_run. split; [done|]. cbn. pose proof (quiet_dists A f (tw_pulp w) Hq) as E. rewrite Hc in E. cbn in E. rewrite E. reflexivity. Qed.

Context `{HD : !PulpDeletions S}.

Lemma repo_and_remote_run dom rc fs (w : W) fs' w' :
  RepoDelete.deleteRpmRepoAndRemote dom rc (fs, w) = (inr (), (fs', w')) → thins w w'.
Proof.
  intros (remote & [fs1 w1] & H1%quiet_thins & H)%bind_inr; [|auto with go].
  apply bind_inr in H as ([] & [fs2 w2] & H2 & H). apply bind_inr in H as (repo & [fs3 w3] & H3%quiet_thins & H); [|auto with go].
  transitivity w1; [done|]. transitivity w2.
  { destruct remote as [href|]; [|by apply ret_inr in H2 as [_ [= _ <-]]]. apply bind_inr in H2 as (h & ? & [_ ->]%deref_inr & H2).
    eapply thins_request, H2; [intros; apply remote_deletion|intros; by eapply remote_deletion_task]. }
  transitivity w3; [done|]. destruct repo as [r|]; [|by apply ret_inr in H as [_ [= _ <-]]]. apply bind_inr in H as (h & ? & [_ ->]%deref_inr & H).
  eapply thins_request, H; [intros; apply repository_deletion|intros; by eapply repository_deletion_task].
Qed.
End Pulp.

(** ** The templates that have the repository *)

Section Templates.
Context {S C P : Type} `{HC : PulpClient S} `{HL : !PulpLaws S} `{HU : UuidText} {HUL : UuidLaws}.
Context (scan_templates : gmap uuid TemplateRow → list (uuid * TemplateRow)).
Context (scan_trcs : gmap (uuid * uuid) TrcRow → list (uuid * uuid * TrcRow)).
Context (sql_like : string → string → bool) (sql_order : string → list (uuid * TemplateRow) → list (uuid * TemplateRow)).
Context (snapshots_enabled : bool) (content_path : goerr + string) (retain : Z).
Hypothesis scan_templates_perm : ∀ m, scan_templates m ≡ₚ map_to_list m.
Hypothesis scan_trcs_perm : ∀ m, scan_trcs m ≡ₚ map_to_list m.
Hypothesis sql_order_perm : ∀ o l, sql_order o l ≡ₚ l.
Abbreviation W := (tworld S C P).
#[local] Set Default Proof Using "Type*".

(** Whose templates the task looks at: for a repository of Red Hat all live ones with a live row, else those of the organization. *)
Definition looked_at (orgId : string) (t : TemplateRow) (x : TrcRow) : Prop :=
  if bool_decide (orgId = RedHatOrg) then template_live t = true ∧ trc_live x = true else t.(t_OrgID) = orgId.

Lemma repo_templates_run now orgId rc fs (w : W) ts fs' w' :
  RepoDelete.repo_templates scan_templates scan_trcs sql_like sql_order snapshots_enabled content_path retain now orgId (uuid_String rc) (fs, w) =
    (inr ts, (fs', w')) →
  w' = w ∧ ∀ tu t x, w.(tw_db).(templates) !! tu = Some t → w.(tw_db).(trcs) !! (tu, rc) = Some x → looked_at orgId t x →
    ∃ r, r ∈ ts ∧ r.(tr_UUID) = uuid_String tu.
Proof.
  unfold RepoDelete.repo_templates, looked_at. intros H%wrap_inr. case_bool_decide as Ho.
  - apply dao_run in H as (d & H & ->). apply bind_inr in H as (ps & [fs1 d1] & Hq%map_err_inr%call_inr & H). rewrite Uuidify_String in Hq.
    injection Hq as <- <-. apply to_responses_run in H as (-> & f & -> & Hf). split; [by destruct w|]. intros tu t x Ht Hx [Hl Hxl].
    exists (f (tu, template_AfterFind t, [])). split; [|apply Hf]. apply list_elem_of_fmap_2, (templates_with_elem scan_templates scan_trcs); [done..|].
    exists tu, t. split_and!; try done. exists rc, x. split; [done|]. cbn [fst snd]. by rewrite bool_decide_true.
  - apply bind_inr in H as ([ts' n] & [fs0 w0] & (d & H & ->)%dao_run & [-> [= <- <-]]%ret_inr).
    apply bind_inr in H as (total & [fs1 d1] & [= <- <-]%map_err_inr%call_inr & H).
    apply bind_inr in H as (ps & [fs2 d2] & [= <- <-]%map_err_inr%call_inr & H).
    apply bind_inr in H as (rs & [fs3 d3] & (-> & f & -> & Hf)%to_responses_run & [[= <- _] [= <- <-]]%ret_inr).
    split; [by destruct w|]. intros tu t x Ht Hx Hot. exists (f (preload_template scan_trcs true (tw_db w) (tu, t))). split; [|apply Hf].
    apply list_elem_of_fmap_2, list_elem_of_fmap_2. unfold page. cbn [drop]. rewrite (proj2 (Z.ltb_lt (-1) 0)) by done.
    rewrite sql_order_perm. unfold listed. apply list_elem_of_filter. rewrite scan_templates_perm, elem_of_map_to_list. split; [|done].
    split; [by left|]. cbn [tf_RepositoryUUIDs tf_SnapshotUUIDs length Nat.eqb andb]. apply existsb_exists. exists (tu, rc, x). split; [by rewrite <- list_elem_of_In, elem_of_map_to_list|]. cbn [fst snd].
    rewrite bool_decide_true by done. cbn [andb]. apply filter_one_kind; [by right|]. unfold row_cond. cbn. split; [by split_and!|]. split; [|done].
    intros _. exists rc, x. by rewrite Uuidify_String, list_elem_of_singleton.
Qed.

(** A template's distribution. *)
Lemma template_distribution_run dom rc r fs (w : W) fs' w' :
  tasks_complete S → RepoDelete.delete_template_distribution dom (uuid_String rc) r (fs, w) = (inr (), (fs', w')) →
  shrinks w w' ∧ ∀ tu x, r.(tr_UUID) = uuid_String tu → w'.(tw_db).(trcs) !! (tu, rc) = Some x → href_gone x (dists w'.(tw_pulp)).
Proof.
  intros Hdone (o & [fs1 w1] & (d1 & Ho%call_inr & ->)%wrap_inr%dao_run & H)%bind_inr. rewrite pg_String in Ho.
  assert (d1 = tw_db w) as -> by (by destruct (pg_uuid _); simplify_eq). rewrite set_db_id in H.
  assert (shrinks w w') as Hs.
  { destruct o as [href|]; [by eapply shrinks_delete_and_poll|by apply ret_inr in H as [_ [= _ <-]]]. }
  split; [done|]. destruct Hs as [-> _]. intros tu x Hr Hx href Hhref Hne. rewrite Hr, pg_String, Hx in Ho. injection Ho as <-. cbn in H. rewrite Hhref in H.
  by apply delete_run in H as [_ Hn]; [auto|].
Qed.

Lemma template_distributions_run now dom orgId rc fs (w : W) fs' w' :
  tasks_complete S →
  RepoDelete.deleteTemplateRepoDistributions scan_templates scan_trcs sql_like sql_order snapshots_enabled content_path retain now dom orgId (uuid_String rc)
    (fs, w) = (inr (), (fs', w')) →
  thins w w' ∧ ∀ tu t x, w.(tw_db).(templates) !! tu = Some t → w.(tw_db).(trcs) !! (tu, rc) = Some x → looked_at orgId t x →
    href_gone x (dists w'.(tw_pulp)).
Proof.
  intros Hdone (ts & [fs1 w1] & [-> Hts]%repo_templates_run & H%collect_iter)%bind_inr.
  apply (iter_each shrinks _ (λ r w', ∀ tu x, r.(tr_UUID) = uuid_String tu → w'.(tw_db).(trcs) !! (tu, rc) = Some x → href_gone x (dists w'.(tw_pulp)))) in H as [Hs Hall].
  - split; [by apply shrinks_thins|]. intros tu t x Ht Hx Hl. destruct (Hts tu t x Ht Hx Hl) as (r & Hr & Hu).
    apply (Hall r Hr tu); [done|]. by rewrite (proj1 Hs).
  - intros. by eapply template_distribution_run.
  - intros r w0 w1 [Hd Hm] H0 tu x. rewrite Hd. intros Hu Hx. eapply href_gone_less; [by apply less_subseteq|]. by eapply H0.
Qed.
End Templates.

(** ** Faults that are left *)

Lemma consumes_collect {D A} (f : A → M D goerr ()) l : (∀ a, consumes (f a)) → consumes (collect f l).
Proof. intros Hf. induction l as [|a l IH]; cbn [collect]; [apply consumes_ret|]. apply consumes_bind; [auto with consumes|]. intros r. auto with consumes. Qed.
Lemma consumes_errors_Join {D} errs : consumes (errors_Join errs : M D goerr ()).
Proof. destruct errs; [apply consumes_ret|apply consumes_throw]. Qed.
Lemma consumes_unless_not_found {D A} (m : M D goerr A) msg k : consumes m → (∀ a, consumes (k a)) → consumes (unless_not_found m msg k).
Proof. intros Hm Hk. apply consumes_bind; [by apply consumes_try|]. intros [e|a]; [destruct (is_dao_not_found e)|]; auto with consumes. Qed.
#[export] Hint Resolve consumes_errors_Join : consumes.

Section Faults.
Context {S C P : Type} `{HC : PulpClient S} `{HK : CandlepinApi C} `{HU : UuidText}.
Context (DevelOrg : bool) (scan : gmap uuid SnapRow → list (uuid * SnapRow)).
Context (scan_templates : gmap uuid TemplateRow → list (uuid * TemplateRow)).
Context (scan_trcs : gmap (uuid * uuid) TrcRow → list (uuid * uuid * TrcRow)).
Context (sql_like : string → string → bool) (sql_order : string → list (uuid * TemplateRow) → list (uuid * TemplateRow)).
Context (snapshots_enabled : bool) (content_path : goerr + string) (retain : Z) (tasks : gmap uuid TaskView) (CandlepinConfigured : bool).
Abbreviation W := (tworld S C P).

Lemma consumes_candlepin_content now orgId rc :
  consumes (RepoDelete.deleteCandlepinContent DevelOrg scan_templates scan_trcs snapshots_enabled content_path retain tasks CandlepinConfigured
              now orgId rc : M W goerr ()).
Proof.
  unfold RepoDelete.deleteCandlepinContent, RepoDelete.candlepinRHContentId, InternalOnlyGetTemplatesForRepoConfig, FetchWithoutOrgID, preload_associations,
    DemoteContentFromEnvironment, RemoveContentFromProduct, DeleteContent, FetchContentsByLabel. consumes_tac.
  - apply consumes_to_responses.
  - apply consumes_iter. intros r. consumes_tac. apply consumes_cp. consumes_tac.
Qed.

Lemma consumes_pulp_delete dom href : consumes (RepoDelete.deleteRpmDistribution dom href : M W goerr ()).
Proof. apply consumes_delete_and_poll. Qed.
#[local] Hint Resolve consumes_pulp_delete consumes_delete_and_poll : consumes.

Lemma consumes_delete_latest dom rc : consumes (RepoDelete.delete_latest dom rc : M W goerr ()).
Proof. unfold RepoDelete.delete_latest. consumes_tac. Qed.

Lemma consumes_template_distributions now dom orgId rc :
  consumes (RepoDelete.deleteTemplateRepoDistributions scan_templates scan_trcs sql_like sql_order snapshots_enabled content_path retain now dom orgId rc
    : M W goerr ()).
Proof.
  apply consumes_bind; [|intros ts; apply consumes_bind; [apply consumes_collect; intros r|auto with consumes]].
  - unfold RepoDelete.repo_templates, InternalOnlyGetTemplatesForRepoConfig, Template_List. consumes_tac; apply consumes_to_responses.
  - unfold RepoDelete.delete_template_distribution, GetDistributionHref. consumes_tac.
Qed.

Lemma consumes_snapshot_content dom us : consumes (RepoDelete.delete_snapshot_content dom us : M W goerr ()).
Proof.
  unfold RepoDelete.delete_snapshot_content, RepoDelete.deleteSnapshotDistribution, RepoDelete.deleteDistributionAtPath, RepoDelete.deleteTemplateSnapshot,
    RepoDelete.deleteSnapshot, DeleteTemplateSnapshot, Delete, first_snapshot, hard_delete. consumes_tac; apply consumes_unless_not_found; consumes_tac.
Qed.

Lemma consumes_repo_and_remote dom rc : consumes (RepoDelete.deleteRpmRepoAndRemote dom rc : M W goerr ()).
Proof. unfold RepoDelete.deleteRpmRepoAndRemote. consumes_tac. Qed.
End Faults.

(** ** The snapshots *)

Section Snapshots.
Context {S C P : Type} `{HC : PulpClient S} `{HL : !PulpLaws S} `{HU : UuidText} {HUL : UuidLaws}.
Abbreviation W := (tworld S C P).
#[local] Set Default Proof Using "Type*".

Lemma template_snapshot_run u fs (w : W) fs' w' :
  RepoDelete.deleteTemplateSnapshot (uuid_String u) (fs, w) = (inr (), (fs', w')) →
  ∃ rows, w' = set_db (set_trcs (λ _, rows) w.(tw_db)) w ∧ rows ⊆ w.(tw_db).(trcs) ∧
    ∀ k x, w.(tw_db).(trcs) !! k = Some x → x.(x_SnapshotUUID) ≠ u → rows !! k = Some x.
Proof.
  intros (r & [fs1 w1] & (d1 & H & ->)%try_run%dao_run & Hk)%bind_inr.
  assert (w' = set_db d1 w) as -> by (destruct r as [e|[]]; [destruct (is_dao_not_found e); [|done]|]; by apply ret_inr in Hk as [_ [= _ <-]]).
  unfold DeleteTemplateSnapshot, map_err in H. destruct (db_call _ _) as [r1 [fs2 d2]] eqn:E in H.
  assert (d2 = d1) as -> by (by destruct r1; simplify_eq). clear H. exists (trcs d1). rewrite Uuidify_String in E.
  apply call_cases in E as [(e & _ & -> & _)|[= _ <-]]; [split; [by destruct w as [[]]|done]|]. cbn. split; [done|].
  split; [apply map_filter_subseteq|]. intros k x Hx Hne. by apply map_lookup_filter_Some.
Qed.

Lemma snapshot_content_run dom u s fs (w : W) fs' w' :
  tasks_complete S → plain fs → w.(tw_db).(snapshots) !! u = Some s → RepoDelete.delete_snapshot_content dom (u, s) (fs, w) = (inr (), (fs', w')) →
  plain fs' ∧ less (dists w.(tw_pulp)) (dists w'.(tw_pulp)) ∧ unserved dom s (dists w'.(tw_pulp)) ∧ without [u] w.(tw_db) w'.(tw_db).
Proof.
  intros Hdone Hf Hs H. split; [eapply plain_run; [|exact H|done]; apply consumes_snapshot_content|].
  apply bind_inr in H as ([] & [fs1 w1] & H1 & H). apply bind_inr in H as ([] & [fs2 w2] & H2 & H). cbn [fst snd] in *.
  assert (plain fs1) as Hf1.
  { eapply plain_run; [|exact H1|done]. unfold RepoDelete.deleteSnapshotDistribution, RepoDelete.deleteDistributionAtPath.
    consumes_tac; apply consumes_pulp_delete. }
  assert (plain fs2) as Hf2.
  { eapply plain_run; [|exact H2|done]. unfold RepoDelete.deleteTemplateSnapshot, DeleteTemplateSnapshot. apply consumes_unless_not_found; consumes_tac. }
  apply snapshot_distribution_run in H1 as [[Hdb Hl] Hu]; [|done]. apply template_snapshot_run in H2 as (rows & -> & Hsub & Hkeep).
  apply (Delete_found _ u s) in H; [|done|apply pg_String|cbn; by rewrite Hdb]. subst w'. cbn. rewrite Hdb in *.
  split; [done|]. split; [done|]. split; try done; cbn.
  - apply map_eq. intros k. destruct (decide (k = u)) as [->|Hne].
    + rewrite lookup_delete_eq. symmetry. apply map_lookup_filter_None. right. intros x _ []. by left.
    + rewrite lookup_delete_ne by done. destruct (snapshots (tw_db w) !! k) as [x|] eqn:Hx.
      * symmetry. apply map_lookup_filter_Some. split; [done|]. cbn. by rewrite list_elem_of_singleton.
      * symmetry. apply map_lookup_filter_None. by left.
  - apply map_fmap_ext. intros k c _. unfold forget. destruct (c_LastSnapshotUUID c) as [v|]; [|by rewrite bool_decide_false].
    destruct (decide (v = u)) as [->|Hne]; [by rewrite !bool_decide_true by set_solver|]. rewrite !bool_decide_false; [done|set_solver|congruence].
  - intros k x Hx Hn. apply Hkeep; [done|]. by rewrite list_elem_of_singleton in Hn.
Qed.

Lemma snapshots_run dom snaps fs (w : W) fs' w' :
  tasks_complete S → plain fs → NoDup snaps.*1 → (∀ us, us ∈ snaps → w.(tw_db).(snapshots) !! us.1 = Some us.2) →
  iter (RepoDelete.delete_snapshot_content dom) snaps (fs, w) = (inr (), (fs', w')) →
  plain fs' ∧ less (dists w.(tw_pulp)) (dists w'.(tw_pulp)) ∧ (∀ us, us ∈ snaps → unserved dom us.2 (dists w'.(tw_pulp))) ∧
  without snaps.*1 w.(tw_db) w'.(tw_db).
Proof.
  intros Hdone. revert fs w. induction snaps as [|[u s] snaps IH]; intros fs w Hf Hnd Hall H; cbn [iter] in H.
  { apply ret_inr in H as [_ [= -> <-]]. split; [done|]. split; [reflexivity|]. split; [by intros ? ?%not_elem_of_nil|apply without_nil]. }
  cbn in Hnd. apply NoDup_cons in Hnd as [Hnu Hnd].
  apply bind_inr in H as ([] & [fs1 w1] & (Hf1 & Hl1 & Hu1 & Hw1)%snapshot_content_run & H); [|done|done|apply (Hall (u, s)); by left].
  apply IH in H as (Hf2 & Hl2 & Hu2 & Hw2); [|done|done|].
  - split; [done|]. split; [by etrans|]. split; [|by eapply without_cons]. intros us [->|Hin]%elem_of_cons; [by eapply unserved_less|auto].
  - intros us Hin. rewrite (wo_snapshots _ _ _ Hw1). apply map_lookup_filter_Some. split; [apply Hall; by right|]. cbn.
    rewrite list_elem_of_singleton. intros E. apply Hnu. rewrite <- E. by apply list_elem_of_fmap_2.
Qed.

(** ** The configuration *)

Lemma plain_repo_error e o : plain_error e → is_dao_not_found (RepositoryDBErrorToApi e o) = false.
Proof using.
  intros [H1 H2]. unfold RepositoryDBErrorToApi, repo_error_to_api. rewrite H1. change ((HttpCodeForDaoError (Some e) =? 404)%Z = false).
  apply Z.eqb_neq. revert H2. unfold is_dao_not_found, HttpCodeForDaoError. change (Some e ≫= as_dao) with (as_dao e).
  destruct (as_dao e) as [[| |? ? nf bv ae fb]|]; try done. intros ->. by destruct bv, ae, fb.
Qed.

Lemma config_deleted_run orgId rc c fs (w : W) fs' w' :
  plain fs → w.(tw_db).(configs) !! rc = Some c → c.(c_OrgID) = orgId →
  RepoDelete.deleteRepoConfig orgId (uuid_String rc) (fs, w) = (inr (), (fs', w')) →
  (∀ u s, w.(tw_db).(snapshots) !! u = Some s → s.(s_RepositoryConfigurationUUID) ≠ rc) ∧
  w' = set_db (set_trcs (base.filter (λ kx : uuid * uuid * TrcRow, kx.1.2 ≠ rc)) (set_configs (delete rc) w.(tw_db))) w.
Proof.
  intros Hf Hc Ho (r & [fs1 w1] & (d1 & H & ->)%try_run%dao_run & Hk)%bind_inr. destruct r as [e|[]].
  - destruct (is_dao_not_found e) eqn:He; [|done]. exfalso. unfold RepoConfig_Delete, mbind, M_bind, map_err in H.
    destruct (db_call _ _) as [r1 [fs2 d2]] eqn:Ef in H.
    assert (plain fs2) as Hf2 by (eapply plain_run; [apply consumes_call|exact Ef|done]). apply call_cases in Ef as [(e1 & -> & -> & H1)|Ef].
    { injection H as <- _ _. rewrite (plain_repo_error e1 _ (Hf _ H1)) in He. done. }
    rewrite Uuidify_String, Hc in Ef. cbn in Ef. rewrite bool_decide_true in Ef by done. cbn in Ef. injection Ef as <- <-.
    destruct (db_call _ _) as [r2 [fs3 d3]] eqn:Eh in H. injection H as -> -> ->. apply call_cases in Eh as [(e2 & [= <-] & -> & H2)|Eh].
    + by rewrite (proj2 (Hf2 _ H2)) in He.
    + destruct (existsb _ _); [|done]. by injection Eh as <- _.
  - apply ret_inr in Hk as [_ [= -> <-]]. apply bind_inr in H as ([u' c'] & [fs2 d2] & Hf1%map_err_inr%call_inr & Hd%call_inr).
    rewrite Uuidify_String, Hc in Hf1. cbn in Hf1. rewrite bool_decide_true in Hf1 by done. cbn in Hf1. injection Hf1 as <- <- <-.
    destruct (existsb _ _) eqn:He; [done|]. injection Hd as <-. split; [|done]. intros u s Hs Hrc.
    apply not_true_iff_false in He. apply He, existsb_exists. exists (u, s). rewrite <- list_elem_of_In, elem_of_map_to_list.
    split; [done|]. cbn. by rewrite bool_decide_true.
Qed.
End Snapshots.

(** ** The task *)

Section Task.
Context {S C P : Type} `{HC : PulpClient S} `{HL : !PulpLaws S} `{HK : CandlepinApi C} `{HU : UuidText} {HUL : UuidLaws}.
Context (DevelOrg : bool) (scan : gmap uuid SnapRow → list (uuid * SnapRow)).
Context (scan_templates : gmap uuid TemplateRow → list (uuid * TemplateRow)).
Context (scan_trcs : gmap (uuid * uuid) TrcRow → list (uuid * uuid * TrcRow)).
Context (sql_like : string → string → bool) (sql_order : string → list (uuid * TemplateRow) → list (uuid * TemplateRow)).
Context (snapshots_enabled : bool) (content_path : goerr + string) (retain : Z) (tasks : gmap uuid TaskView) (CandlepinConfigured : bool).
Abbreviation W := (tworld S C P).

Definition aside (w w' : W) : Prop := w'.(tw_db) = w.(tw_db) ∧ w'.(tw_pulp) = w.(tw_pulp).
#[local] Instance aside_preorder : PreOrder aside.
Proof. split; [by split|]. intros w1 w2 w3 [H1 H2] [H3 H4]. split; congruence. Qed.
Lemma aside_cp {A} (m : M C goerr A) : preserves aside (cp m : M W goerr A).
Proof. by intros fs w r fs' w' (c & _ & ->)%cp_run. Qed.
Lemma aside_dao {A} (m : DB A) : keeps m → preserves aside (dao m : M W goerr A).
Proof. intros Hm fs w r fs' w' (d & H & ->)%dao_run. apply Hm in H as ->. by split. Qed.

Lemma candlepin_content_run now orgId rc :
  preserves aside (RepoDelete.deleteCandlepinContent DevelOrg scan_templates scan_trcs snapshots_enabled content_path retain tasks CandlepinConfigured
              now orgId rc : M W goerr ()).
Proof.
  unfold RepoDelete.deleteCandlepinContent, RepoDelete.candlepinRHContentId. preserves_tac; try apply aside_cp; apply aside_dao.
  - apply keeps_repo_templates.
  - unfold FetchWithoutOrgID, preload_associations. apply keeps_map_err, keeps_bind; [apply keeps_call; by intros|]. intros c.
    apply keeps_bind; [by apply keeps_call|intros; apply keeps_ret].
Qed.

Context `{HD : !PulpDeletions S}.
Hypothesis scan_perm : ∀ m, scan m ≡ₚ map_to_list m.
Hypothesis scan_templates_perm : ∀ m, scan_templates m ≡ₚ map_to_list m.
Hypothesis scan_trcs_perm : ∀ m, scan_trcs m ≡ₚ map_to_list m.
Hypothesis sql_order_perm : ∀ o l, sql_order o l ≡ₚ l.
#[local] Set Default Proof Using "Type*".

(** What has been removed in Pulp: the snapshots [gone], the latest distribution and those of the templates. *)
Record pulp_clean (dom orgId : string) (rc : uuid) (gone : list uuid) (w w' : W) : Prop := {
  pc_less : less (dists w.(tw_pulp)) (dists w'.(tw_pulp));
  pc_snapshots u s : u ∈ gone → w.(tw_db).(snapshots) !! u = Some s → unserved dom s (dists w'.(tw_pulp));
  pc_latest : no_path dom (uuid_String rc +:+ "/latest") (dists w'.(tw_pulp));
  pc_templates tu t x : w.(tw_db).(templates) !! tu = Some t → w.(tw_db).(trcs) !! (tu, rc) = Some x → looked_at orgId t x →
    href_gone x (dists w'.(tw_pulp)) }.

Definition of_repo (d : db) (rc u : uuid) : Prop := ∃ s, d.(snapshots) !! u = Some s ∧ s.(s_RepositoryConfigurationUUID) = rc.

(** Either all snapshots of the repository were found and removed, or none was removed. *)
Lemma repo_content_run now dom orgId rc fs (w : W) fs' w' :
  tasks_complete S → plain fs →
  RepoDelete.delete_pulp_content scan scan_templates scan_trcs sql_like sql_order snapshots_enabled content_path retain now dom orgId (uuid_String rc)
    (fs, w) = (inr (), (fs', w')) →
  plain fs' ∧ ∃ gone, without gone w.(tw_db) w'.(tw_db) ∧ pulp_clean dom orgId rc gone w w' ∧
    (gone = [] ∨ ∀ u, u ∈ gone ↔ of_repo w.(tw_db) rc u).
Proof.
  intros Hdone Hf (r & [fs1 w1] & H1 & H)%bind_inr.
  assert (plain fs1) as Hf1 by (eapply plain_run; [|exact H1|done]; unfold RepoDelete.fetchSnapshots, FetchForRepoConfigUUID; consumes_tac).
  apply try_run, dao_run in H1 as (d1 & H1 & ->). assert (d1 = tw_db w) as -> by (by eapply keeps_FetchForRepoConfigUUID). rewrite set_db_id in H. cbv zeta in H.
  set (snaps := match r with inr l => l | inl _ => [] end) in H.
  apply bind_inr in H as ([] & [fs2 w2] & H2 & H). assert (plain fs2) as Hf2 by (eapply plain_run; [|exact H2|done]; apply consumes_delete_latest).
  apply bind_inr in H as ([] & [fs3 w3] & H3 & H). assert (plain fs3) as Hf3 by (eapply plain_run; [|exact H3|done]; apply consumes_template_distributions).
  apply bind_inr in H as (errs & [fs4 w4] & H4 & H). apply bind_inr in H as ([] & [fs5 w5] & H5 & H).
  assert (iter (RepoDelete.delete_snapshot_content dom) snaps (fs3, w3) = (inr (), (fs5, w5))) as Hit.
  { apply collect_iter. unfold mbind, M_bind. by rewrite H4. }
  apply delete_latest_run in H2 as [[E2 L2] N2]; [|done]. apply template_distributions_run in H3 as [[E3 L3] N3]; [|done..]. rewrite E2 in *.
  assert ((∀ us, us ∈ snaps → w.(tw_db).(snapshots) !! us.1 = Some us.2) ∧ NoDup snaps.*1 ∧
          (snaps.*1 = [] ∨ ∀ u, u ∈ snaps.*1 ↔ of_repo (tw_db w) rc u)) as (Hsn & Hnd & Hex).
  { subst snaps. destruct r as [e|l]; [split; [by intros ? ?%not_elem_of_nil|]; split; [constructor|by left]|].
    apply call_inr in H1. rewrite pg_String in H1. injection H1 as <-. split; [|split].
    - intros us [_ Hin]%list_elem_of_filter. rewrite scan_perm in Hin. destruct us. by apply elem_of_map_to_list in Hin.
    - eapply sublist_NoDup; [|apply fmap_sublist, sublist_filter]. rewrite scan_perm. apply NoDup_fst_map_to_list.
    - right. intros u. rewrite list_elem_of_fmap. split.
      + intros ([u' s] & -> & [[Hrc _] Hin]%list_elem_of_filter). rewrite scan_perm in Hin. apply elem_of_map_to_list in Hin. by exists s.
      + intros (s & Hs & Hrc). exists (u, s). split; [done|]. apply list_elem_of_filter. split; [by split; [|left]|].
        rewrite scan_perm. by apply elem_of_map_to_list. }
  apply snapshots_run in Hit as (Hf5 & L5 & U5 & W5); [|done|done|done|by rewrite E3]. rewrite E3 in W5.
  pose proof (repo_and_remote_run _ _ _ _ _ _ H) as [E6 L6]. split; [eapply plain_run; [|exact H|done]; apply consumes_repo_and_remote|].
  exists snaps.*1. rewrite E6. split; [done|]. split; [|done]. split.
  - transitivity (dists (tw_pulp w2)); [done|]. transitivity (dists (tw_pulp w3)); [done|]. by transitivity (dists (tw_pulp w5)).
  - intros u s ([u' s'] & -> & Hin)%list_elem_of_fmap Hs. cbn in Hs. pose proof (Hsn _ Hin) as Hs'. cbn in Hs'. simplify_eq.
    eapply unserved_less, (U5 _ Hin). done.
  - eapply no_path_less, N2. transitivity (dists (tw_pulp w3)); [done|]. by transitivity (dists (tw_pulp w5)).
  - intros tu t x Ht Hx Hl. eapply href_gone_less, N3; [by transitivity (dists (tw_pulp w5))|..]; eauto.
Qed.

(** [C29] A repository is deleted completely. Suppose that Pulp is configured, the organization has a domain, Pulp cancels and
    skips no task that is waited for, and no failure of a request looks like a missing row. When the task that deletes a
    repository of the organization succeeds: exactly the snapshots of the repository are removed, with them at most the rows
    of templates that refer to one of them, no configuration has one of them as its last snapshot, the configuration is gone
    with all its rows of templates; in Pulp, nothing new is served, and there is no distribution left of these snapshots, none
    at the path of the latest distribution, and none with an href that was stored, neither null nor empty, for one of the
    templates the task looks at (those of the organization; for Red Hat all live ones with a live row). A distribution of a
    template whose stored href is null or empty is not found by the task. This holds although the task ignores a failure to
    read the snapshots: then it succeeds only without snapshots. *)
Theorem repository_deletion_complete now dom orgId rc c fs w fs' w' :
  tasks_complete S → plain fs → w.(tw_db).(configs) !! rc = Some c → c.(c_OrgID) = orgId →
  RepoDelete.Run DevelOrg scan scan_templates scan_trcs sql_like sql_order snapshots_enabled content_path retain tasks true CandlepinConfigured
    now (Some dom) orgId (uuid_String rc) (fs, w) = (inr (), (fs', w')) →
  ∃ gone d1, (∀ u, u ∈ gone ↔ of_repo w.(tw_db) rc u) ∧ without gone w.(tw_db) d1 ∧
    w'.(tw_db) = set_trcs (base.filter (λ kx : uuid * uuid * TrcRow, kx.1.2 ≠ rc)) (set_configs (delete rc) d1) ∧
    pulp_clean dom orgId rc gone w w'.
Proof.
  intros Hdone Hf Hc Ho ([] & [fs1 w1] & H1 & H)%bind_inr.
  assert (plain fs1) as Hf1 by (eapply plain_run; [|exact H1|done]; apply consumes_candlepin_content).
  apply candlepin_content_run in H1 as [E1 P1].
  apply bind_inr in H as ([] & [fs2 w2] & (Hf2 & gone & Hw & Hp & Hg)%repo_content_run & H); [|done..]. rewrite E1 in Hw, Hg.
  apply (config_deleted_run _ _ (forget gone c)) in H as [Hnone ->]; [|done|by rewrite (wo_configs _ _ _ Hw), lookup_fmap, Hc|].
  2: { unfold forget. destruct (c_LastSnapshotUUID c); [|done]. by destruct (bool_decide _). }
  assert (∀ u, u ∈ gone ↔ of_repo (tw_db w) rc u) as Hex.
  { destruct Hg as [->|Hg]; [|done]. intros u. split; [by intros ?%not_elem_of_nil|]. intros (s & Hs & Hrc). exfalso. apply (Hnone u s); [|done].
    rewrite (wo_snapshots _ _ _ Hw). apply map_lookup_filter_Some. split; [done|]. cbn. apply not_elem_of_nil. }
  exists gone, (tw_db w2). split; [done|]. split; [done|]. split; [done|]. destruct Hp as [L U N T]. rewrite E1, P1 in *. by split.
Qed.
End Task.

#[local] Existing Instances Ex.uuid_text Ex.uuid_laws.

Module RepoDeletionEx.
(** The repository has two snapshots, one of them served, and is in a template. *)
Definition template : TemplateRow := mk_TemplateRow "t" "org" "" 0%Z "9" "x86_64" "" "" None "" "" true true None None.
Definition w : tworld mem cpmem () :=
  mk_tw (mk_db (configs Ex.d) (repositories Ex.d) (snapshots Ex.d) {[31%N := template]} {[(31%N, 1%N) := mk_TrcRow 5 (Some "there") None]})
    {["org" := "cs"]} []
    (mk_mem {[("cs", "path") := mk_DistInfo (Some "dist") "name" (Some (Some "publication")) None;
              ("cs", "templates") := mk_DistInfo (Some "there") "name" (Some (Some "publication")) None]} ∅ ∅ [] ∅)
    (mk_cpmem ∅ [] ∅ ∅) () ().
Definition run : M (tworld mem cpmem ()) goerr () :=
  RepoDelete.Run false map_to_list map_to_list map_to_list (λ _ _, false) (λ _ l, l) true (inr "https://pulp/") 365 ∅ true true 0%Z (Some "cs") "org" (Ex.text 1).
End RepoDeletionEx.

Lemma repository_deletion_complete_witness : ∃ w', RepoDeletionEx.run ([], RepoDeletionEx.w) = (inr (), ([], w')) ∧
  w'.(tw_db).(configs) !! 1%N = None ∧ w'.(tw_db).(snapshots) !! 5%N = None ∧ no_href "dist" (dists w'.(tw_pulp)) ∧ no_href "there" (dists w'.(tw_pulp)).
Proof.
  pose proof (repository_deletion_complete (HU := Ex.uuid_text) (HUL := Ex.uuid_laws) (S := mem) (C := cpmem) (P := ()) false map_to_list map_to_list map_to_list
    (λ _ _, false) (λ _ l, l) true (inr "https://pulp/") 365 ∅ true (λ _, reflexivity _) (λ _, reflexivity _) (λ _, reflexivity _) (λ _ _, reflexivity _)
    0%Z "cs" "org" 1%N (Ex.config 11 "org" false) [] RepoDeletionEx.w) as H.
  change (RepoDelete.Run _ _ _ _ _ _ _ _ _ _ _ _ _ _ _ _) with RepoDeletionEx.run in H.
  destruct (RepoDeletionEx.run ([], RepoDeletionEx.w)) as [r [fs' w']] eqn:E.
  assert (r = inr () ∧ fs' = []) as (-> & ->) by (revert E; vm_compute; intros E; by simplify_eq).
  exists w'. split; [done|]. clear E. destruct (H [] w' mem_complete) as (gone & d1 & Hex & Hwo & -> & [_ Hs _ Ht]); [by intros ? ?%not_elem_of_nil|done..|].
  assert (5%N ∈ gone) as H5 by (apply Hex; eexists; by split).
  split; [apply lookup_delete_eq|]. split.
  - cbn. rewrite (wo_snapshots _ _ _ Hwo). apply map_lookup_filter_None. right. by intros s _ [].
  - split; [exact (Hs 5%N _ H5 eq_refl)|]. apply (Ht 31%N RepoDeletionEx.template (mk_TrcRow 5 (Some "there") None)); done.
Defined.
