(* ===== verification/TemplateDeletion.v ===== *)
(** * What the deletion of a template achieves

    The template and its rows are removed after its distributions and its environment. *)

From S2P Require Import Prelude GoStrings GoSplit Config TxMonad Utils Models Errors DaoHelpers GoText SnapshotDao SnapshotThms TemplateDao TemplateThms TemplateLists SnapshotHandler SnapshotHandlerThms RepoConfigDao Pulp Distribution TaskEnv PublishTask DeleteTask DeleteTaskThms Deletion Candlepin TemplateTask TemplateCandlepin TemplatePulp LatestTask LatestThms RepoDeletion.
From stdpp Require Import options.

Open Scope string_scope.

(** ** Failures of composed operations *)

Lemma bind_cases {D E A B} (m : M D E A) (k : A → M D E B) w r w' :
  (m ≫= k) w = (r, w') → (∃ e, r = inl e ∧ m w = (inl e, w')) ∨ ∃ a w1, m w = (inr a, w1) ∧ k a w1 = (r, w').
Proof. unfold mbind, M_bind. destruct (m w) as [[e|a] w1]; intros H; [left|right]; simplify_eq; eauto. Qed.
Lemma map_err_fails {D E A} (g : E → E) (m : M D E A) w e w' : map_err g m w = (inl e, w') → ∃ e', e = g e' ∧ m w = (inl e', w').
Proof. unfold map_err. destruct (m w) as [[e'|a] w1]; intros; simplify_eq; eauto. Qed.

Section Runs.
Context {S C P : Type} `{HC : PulpClient S} `{HL : !PulpLaws S} `{HK : CandlepinApi C} `{HU : UuidText} {HUL : UuidLaws}.
Context (snapshots_enabled : bool) (path : string) (tasks : gmap uuid TaskView).
Abbreviation W := (tworld S C P).
#[local] Set Default Proof Using "Type*".

Lemma plain_template_error e o : plain_error e → is_dao_not_found (TemplateDBToApiError (OtherError e) o) = false.
Proof using.
  intros [H1 H2]. unfold TemplateDBToApiError. rewrite H1. change ((HttpCodeForDaoError (Some e) =? 404)%Z = false).
  apply Z.eqb_neq. revert H2. unfold is_dao_not_found, HttpCodeForDaoError. change (Some e ≫= as_dao) with (as_dao e).
  destruct (as_dao e) as [[| |? ? nf bv ae fb]|]; try done. intros ->. by destruct bv, ae, fb.
Qed.

(** A repository of the organization whose last snapshot is not deleted. *)
Definition own_snapshotted (d : db) (orgID : string) (rc : uuid) : Prop :=
  ∃ c u s, d.(configs) !! rc = Some c ∧ config_live c = true ∧ c.(c_OrgID) = orgID ∧ c.(c_LastSnapshotUUID) = Some u ∧
    d.(snapshots) !! u = Some s ∧ is_live s = true.

(** It is found, with its snapshot, unless a request fails. *)
Lemma own_fetched orgID rc fs d r fs' d' :
  plain fs → own_snapshotted d orgID rc →
  RepoConfig_Fetch tasks snapshots_enabled (inr path) orgID (uuid_String rc) (fs, d) = (r, (fs', d')) →
  match r with inr p => is_Some p.(p_LastSnapshot) | inl e => is_dao_not_found e = false end.
Proof.
  intros Hf (c & u & s & Hc & Hl & Ho & Hu & Hs & Hsl) H.
  apply bind_cases in H as [(e & -> & H)|(l & [fs1 d1] & H1 & H)].
  { apply bind_cases in H as [(e' & [= <-] & (e2 & -> & H)%map_err_fails)|([rc' c'] & [fs1 d1] & H1 & (e2 & -> & H)%map_err_fails)].
    - apply plain_repo_error. apply call_cases in H as [(e3 & [= <-] & _ & He)|H]; [by apply Hf|]. cbv zeta in H. rewrite Uuidify_String, Hc, Hl in H.
      cbn in H. rewrite Ho, bool_decide_true in H by done. done.
    - apply plain_repo_error. apply call_cases in H as [(e3 & [= <-] & _ & He)|H]; [|done].
      eapply (plain_run _ _ _ _ _ _ (consumes_map_err _ _ (consumes_call _)) H1 Hf), He. }
  assert (plain fs1) as Hf1 by (eapply plain_run; [|exact H1|done]; unfold fetch_loaded, fetchRepoConfig, preload_associations; consumes_tac).
  apply bind_inr in H1 as ([rc' c'] & [fs0 d0] & H1%map_err_inr%call_inr & [= <- <-]%map_err_inr%call_inr). cbv zeta in H1.
  rewrite Uuidify_String, Hc, Hl in H1. destruct (true && _) in H1; [|done]. injection H1 as <- <- <-.
  apply bind_cases in H as [(e & -> & H)|(x & [fs2 d2] & H2 & H)].
  { destruct (_ && _) in H; [|done]. apply bind_cases in H as [(e' & [= <-] & H)|(x & ? & _ & H)]; [|done].
    apply call_cases in H as [(e3 & [= <-] & _ & He)|H]; [by apply Hf1|done]. }
  clear H2. unfold override_one in H. cbn [l_Config] in H. assert (IsForeignPartnerView c orgID = false) as Hv.
  { unfold IsForeignPartnerView. cbn. rewrite Ho, bool_decide_true by done. by rewrite andb_false_r. }
  rewrite Hv in H. cbn in H. injection H as <- _ _. unfold last_snapshot_response. cbn. rewrite Hu. cbn. rewrite Hs. cbn. rewrite Hsl. cbn. by eexists.
Qed.

(** What one repository of the template leaves: the stored href is served no more. *)
Definition undistributed (orgID : string) (tu : uuid) (raw : string) (w : W) : Prop :=
  ∀ rc x, raw = uuid_String rc → own_snapshotted w.(tw_db) orgID rc → w.(tw_db).(trcs) !! (tu, rc) = Some x → href_gone x (dists w.(tw_pulp)).

Lemma repo_distribution_run ds orgID tu raw fs (w : W) fs' w' :
  tasks_complete S → plain fs →
  delete_repo_distribution snapshots_enabled (inr path) tasks ds orgID (uuid_String tu) raw (fs, w) = (inr (), (fs', w')) →
  shrinks w w' ∧ undistributed orgID tu raw w'.
Proof.
  intros Hdone Hf H. assert (shrinks w w') as Hs.
  { revert H. assert (preserves shrinks (delete_repo_distribution snapshots_enabled (inr path) tasks ds orgID (uuid_String tu) raw : M W goerr ())) as Hp.
    { unfold delete_repo_distribution, unless_not_found. preserves_tac;
        first [apply shrinks_delete_and_poll|apply shrinks_dao, RepoConfig_Fetch_keeps|apply shrinks_dao, keeps_call; intros; by repeat case_match]. }
    apply Hp. }
  split; [done|]. intros rc x -> Hown Hx href Hhref Hne. destruct Hs as [Hd _]. rewrite Hd in Hown, Hx.
  apply bind_inr in H as (r & [fs1 w1] & (d1 & H1 & ->)%try_run%dao_run & H).
  pose proof (own_fetched _ _ _ _ _ _ _ Hf Hown H1) as Hr. destruct r as [e|p]; [by rewrite Hr in H|]. destruct Hr as [sn Hr]. rewrite Hr in H.
  assert (d1 = tw_db w) as -> by (by eapply RepoConfig_Fetch_keeps). rewrite set_db_id in H.
  apply bind_inr in H as (o & [fs2 w2] & (d2 & Ho%call_inr & ->)%wrap_inr%dao_run & H). rewrite !pg_String, Hx in Ho. injection Ho as <- <-.
  rewrite set_db_id in H. cbn in H. rewrite Hhref in H. by apply delete_run in H as [_ Hn]; [apply Hn|].
Qed.

Lemma consumes_repo_distribution ds orgID tu raw :
  consumes (delete_repo_distribution snapshots_enabled (inr path) tasks ds orgID tu raw : M W goerr ()).
Proof.
  apply consumes_unless_not_found.
  - unfold RepoConfig_Fetch, fetch_loaded, fetchRepoConfig, preload_associations, override_one, db_noop. consumes_tac.
    intros fs0 d0. destruct (consumes_call (λ d, (inr (best newer (published_of d (l_UUID a))), d)) fs0 d0) as [n Hn].
    exists n. rewrite <- Hn. by destruct (db_call _ _) as [[] []].
  - intros p. unfold GetDistributionHref. consumes_tac; apply consumes_delete_and_poll.
Qed.

Lemma distributions_run ds orgID tu raws fs (w : W) fs' w' :
  tasks_complete S → plain fs →
  deleteDistributions snapshots_enabled (inr path) tasks ds orgID (uuid_String tu) raws (fs, w) = (inr (), (fs', w')) →
  plain fs' ∧ shrinks w w' ∧ ∀ raw, raw ∈ raws → undistributed orgID tu raw w'.
Proof.
  intros Hdone Hf H%collect_iter. revert fs w Hf H. induction raws as [|raw raws IH]; intros fs w Hf H; cbn [iter] in H.
  { apply ret_inr in H as [_ [= -> <-]]. split; [done|]. split; [reflexivity|]. by intros ? ?%not_elem_of_nil. }
  apply bind_inr in H as ([] & [fs1 w1] & H1 & H).
  assert (plain fs1) as Hf1 by (eapply plain_run; [|exact H1|done]; apply consumes_repo_distribution).
  apply repo_distribution_run in H1 as [Hs1 Hu1]; [|done..]. apply IH in H as (Hf2 & Hs2 & Hu2); [|done].
  split; [done|]. split; [by etrans|]. intros raw' [->|Hin]%elem_of_cons; [|auto]. destruct Hs2 as [Hd Hm].
  intros rc x Hr Hown Hx. rewrite Hd in Hown, Hx. eapply href_gone_less; [by apply less_subseteq|]. by eapply Hu1.
Qed.

Definition same_cp (w w' : W) : Prop := w'.(tw_cp) = w.(tw_cp).
#[local] Instance same_cp_preorder : PreOrder same_cp.
Proof using. split; [done|]. intros w1 w2 w3 H1 H2. by etrans. Qed.
Lemma same_cp_dao {A} (m : DB A) : preserves same_cp (dao m : M W goerr A).
Proof using. by intros fs w r fs' w' (d & _ & ->)%dao_run. Qed.
Lemma same_cp_pulp {A} (m : M S goerr A) : preserves same_cp (pulp m : M W goerr A).
Proof using. by intros fs w r fs' w' (d & _ & ->)%pulp_run. Qed.
Lemma distributions_keep_cp ds orgID tu raws :
  preserves same_cp (deleteDistributions snapshots_enabled (inr path) tasks ds orgID tu raws : M W goerr ()).
Proof.
  apply preserves_bind; [apply _| |intros [|e errs]; [apply preserves_ret|apply preserves_throw]; apply _].
  induction raws as [|raw raws IH]; cbn [collect]; preserves_tac. unfold delete_repo_distribution, unless_not_found, delete_and_poll.
  preserves_tac; first [apply same_cp_dao|apply same_cp_pulp].
Qed.

(** The template is found unless a request fails. *)
Lemma template_deleted_run orgID tu t fs (w : W) fs' w' :
  plain fs → w.(tw_db).(templates) !! tu = Some t → t.(t_OrgID) = orgID →
  deleteTemplate orgID (uuid_String tu) (fs, w) = (inr (), (fs', w')) →
  w' = set_db (set_trcs (base.filter (λ kx : uuid * uuid * TrcRow, kx.1.1 ≠ tu)) (set_templates (delete tu) w.(tw_db))) w.
Proof.
  intros Hf Ht Ho (r & [fs1 w1] & (d1 & H & ->)%try_run%dao_run & Hk)%bind_inr. destruct r as [e|[]].
  - destruct (is_dao_not_found e) eqn:He; [|done]. exfalso.
    apply bind_cases in H as [(e' & [= <-] & (e2 & -> & H)%map_err_fails)|([u' t'] & [fs2 d2] & H1 & H)].
    + apply call_cases in H as [(e3 & [= <-] & _ & Hin)|H]; [by rewrite plain_template_error in He by auto|].
      rewrite Uuidify_String, Ht, Ho, bool_decide_true in H by done. done.
    + apply call_cases in H as [(e3 & [= <-] & _ & Hin)|H]; [|done].
      assert (plain fs2) as Hf2 by (eapply plain_run; [|exact H1|done]; unfold first_template; consumes_tac).
      by rewrite (proj2 (Hf2 _ Hin)) in He.
  - apply Template_Delete_run in H as ->. by apply ret_inr in Hk as [_ [= _ <-]].
Qed.

(** [C30] A template is deleted. Suppose that Pulp and Candlepin are configured, the content path of Pulp is known, Pulp
    cancels and skips no task that is waited for, and no failure of a request looks like a missing row. When the task that
    deletes a template of the organization succeeds: exactly the template and its rows are removed; its environment has been
    deleted or was not there; in Pulp, distributions were only removed, and for each repository listed in the payload that is
    the organization's own, is not deleted and has a last snapshot that is not deleted, there is no distribution left with the
    href stored for it, if that is neither null nor empty. *)
Theorem template_deletion_complete ds orgID tu t raws fs (w : W) fs' w' :
  tasks_complete S → plain fs → w.(tw_db).(templates) !! tu = Some t → t.(t_OrgID) = orgID →
  DeleteTemplates_Run snapshots_enabled (inr path) tasks true true ds orgID (uuid_String tu) raws (fs, w) = (inr (), (fs', w')) →
  w'.(tw_db) = set_trcs (base.filter (λ kx : uuid * uuid * TrcRow, kx.1.1 ≠ tu)) (set_templates (delete tu) w.(tw_db)) ∧
  (∃ r, api_DeleteEnvironment (GetEnvironmentID (uuid_String tu)) w.(tw_cp) = (r, w'.(tw_cp)) ∧
        (r = inr () ∨ ∃ e, r = inl e ∧ not_found_response e = true)) ∧
  dists w'.(tw_pulp) ⊆ dists w.(tw_pulp) ∧
  ∀ rc x, uuid_String rc ∈ raws → own_snapshotted w.(tw_db) orgID rc → w.(tw_db).(trcs) !! (tu, rc) = Some x → href_gone x (dists w'.(tw_pulp)).
Proof.
  intros Hdone Hf Ht Ho ([] & [fs1 w1] & H1 & H)%bind_inr. pose proof (distributions_keep_cp _ _ _ _ _ _ _ _ _ H1) as Hcp.
  apply distributions_run in H1 as (Hf1 & [Hd1 Hs1] & Hu1); [|done..].
  apply bind_inr in H as ([] & [fs2 w2] & H2 & H).
  assert (plain fs2) as Hf2 by (eapply plain_run; [|exact H2|done]; apply consumes_wrap, consumes_cp, consumes_request).
  apply wrap_inr, cp_run in H2 as (c & H2 & ->). apply (template_deleted_run _ _ t) in H as ->; [|done|cbn; by rewrite Hd1|done]. cbn.
  split; [by rewrite Hd1|]. split.
  - rewrite <- Hcp. apply request_inr in H2 as [([] & H2 & _)|(e & H2 & He)]; eexists; (split; [exact H2|]); [by left|right].
    exists e. split; [done|]. unfold or_else in He. by destruct (not_found_response e).
  - split; [done|]. intros rc x Hin Hown Hx. apply (Hu1 _ Hin rc); rewrite ?Hd1; done.
Qed.
End Runs.

#[local] Existing Instances Ex.uuid_text Ex.uuid_laws.

Module TemplateDeletionEx.
Definition template : TemplateRow := mk_TemplateRow "t" "org" "" 0%Z "9" "x86_64" "" "" (Some 1%Z) "" "" true true None None.
(** The last snapshot of the repository is 6. *)
Definition w : tworld mem cpmem () :=
  mk_tw (mk_db (alter (set_last_snapshot (Some 6%N)) 1%N (configs Ex.d)) (repositories Ex.d) (snapshots Ex.d) {[31%N := template]}
           {[(31%N, 1%N) := mk_TrcRow 5 (Some "there") None]})
    {["org" := "cs"]} []
    (mk_mem {[("cs", "templates") := mk_DistInfo (Some "there") "name" (Some (Some "publication")) None]} ∅ ∅ [] ∅)
    (mk_cpmem ∅ [] ∅ ∅) () ().
Definition run : M (tworld mem cpmem ()) goerr () :=
  DeleteTemplates_Run true (inr "https://pulp/") ∅ true true (mk_domain_names "cs" "rh" "community") "org" (Ex.text 31) [Ex.text 1].
End TemplateDeletionEx.

Lemma template_deletion_complete_witness : ∃ w', TemplateDeletionEx.run ([], TemplateDeletionEx.w) = (inr (), ([], w')) ∧
  w'.(tw_db).(templates) !! 31%N = None ∧ no_href "there" (dists w'.(tw_pulp)).
Proof.
  pose proof (template_deletion_complete (HU := Ex.uuid_text) (HUL := Ex.uuid_laws) (S := mem) (C := cpmem) (P := ()) true "https://pulp/" ∅
    (mk_domain_names "cs" "rh" "community") "org" 31%N TemplateDeletionEx.template [Ex.text 1] [] TemplateDeletionEx.w) as H.
  change (DeleteTemplates_Run _ _ _ _ _ _ _ _ _) with TemplateDeletionEx.run in H.
  destruct (TemplateDeletionEx.run ([], TemplateDeletionEx.w)) as [r [fs' w']] eqn:E.
  assert (r = inr () ∧ fs' = []) as (-> & ->) by (revert E; vm_compute; intros E; by simplify_eq).
  exists w'. split; [done|]. clear E. destruct (H [] w' mem_complete) as (-> & _ & _ & Hno); [by intros ? ?%not_elem_of_nil|done..|].
  split; [apply lookup_delete_eq|]. apply (Hno 1%N (mk_TrcRow 5 (Some "there") None)); [by left| |done..].
  eexists _, 6%N, _. split; [vm_compute; reflexivity|]. split; [done|]. split; [done|]. split; [done|]. split; [vm_compute; reflexivity|done].
Defined.
