(* ===== verification/UploadTask.v ===== *)
(** * Uploaded packages: dao/uploads.go, tasks/add_uploads.go and bulk_remove_rpms.go

    Packages are uploaded in chunks to Pulp; the table [uploads] remembers which chunks of which file are there. A task turns
    finished uploads into artifacts and those into packages, adds them to the repository, and takes a snapshot of the new
    version; another one removes packages. Both then store the packages of the version as the content of the repository.

    The tables of [SnapshotDao.v] and those of [Content.v] are parts of one database; here they stand side by side, together
    with the table of uploads. (Both have the table of repositories: the tasks read it through the first before they write
    to it through the second.) Where the source puts no colon before a wrapped error, the model does. *)

From S2P Require Import Prelude GoStrings GoSplit Config TxMonad Utils Models Content Introspect Errors DaoHelpers GoText SnapshotDao SnapshotThms TemplateDao SnapshotHandler SnapshotHandlerThms RepoConfigDao Pulp Distribution TaskEnv PublishTask SnapshotSearch SnapshotTask.
From stdpp Require Import pretty options.

Open Scope string_scope.

(** ** dao/uploads.go *)

(** models.Upload; the primary key is the UUID, a text. *)
Record UploadRow := mk_UploadRow {
  up_CreatedAt : time; up_OrgID : string; up_ChunkSize : Z; up_Size : Z; up_Sha256 : string; up_ChunkList : list string }.
Abbreviation uploads := (gmap string UploadRow).
Abbreviation UpM := (M uploads goerr).

Definition Upload_validate (uploadUUID : string) (t : UploadRow) : option string :=
  if uploadUUID == "" then Some "Upload UUID cannot be blank."
  else if t.(up_OrgID) == "" then Some "Org ID cannot be blank."
  else if t.(up_ChunkSize) == 0%Z then Some "ChunkSize cannot be 0."
  else if t.(up_Size) == 0%Z then Some "Size cannot be 0."
  else if t.(up_Sha256) == "" then Some "Sha256 cannot be blank." else None.

Definition StoreFileUpload (now : time) (orgID uploadUUID sha256 : string) (chunkSize uploadSize : Z) : UpM () :=
  let upload := mk_UploadRow now orgID chunkSize uploadSize sha256 [] in
  match Upload_validate uploadUUID upload with
  | Some msg => throw (ErrPlain msg)
  | None => db_call (λ t, match t !! uploadUUID with
                          | Some _ => (inl (ErrPlain "duplicate key value violates unique constraint"), t)
                          | None => (inr (), <[uploadUUID := upload]> t)
                          end)
  end.

Definition same_upload (orgID sha256 : string) (chunkSize uploadSize : Z) (r : UploadRow) : bool :=
  (r.(up_OrgID) == orgID) && (r.(up_ChunkSize) == chunkSize) && (r.(up_Sha256) == sha256) && (r.(up_Size) == uploadSize).

(** [Order("created_at DESC").First]: the key decides between equal times. [text_lt] is the order of texts of the database. *)
Definition upload_newer (text_lt : string → string → bool) (x y : string * UploadRow) : bool :=
  (y.2.(up_CreatedAt) <? x.2.(up_CreatedAt))%Z || ((x.2.(up_CreatedAt) =? y.2.(up_CreatedAt))%Z && text_lt x.1 y.1).

(** The error that is looked at is not the one of the query: a failure reads as a file that was not uploaded before. *)
Definition GetExistingUploadIDAndCompletedChunks (text_lt : string → string → bool) (orgID sha256 : string) (chunkSize uploadSize : Z) :
    UpM (string * list string) := λ w,
  match (db_call (λ t, (inr (best (upload_newer text_lt) (base.filter (λ kr, same_upload orgID sha256 chunkSize uploadSize kr.2 = true) (map_to_list t))), t))
         : UpM (option (string * UploadRow))) w with
  | (inr (Some (k, r)), w') => (inr (k, r.(up_ChunkList)), w')
  | (inr None, w') | (inl _, w') => (inr ("", []), w')
  end.

Definition add_chunk (orgID sha256 : string) (r : UploadRow) : UploadRow :=
  if (r.(up_OrgID) == orgID) && negb (contains r.(up_ChunkList) sha256)
  then mk_UploadRow r.(up_CreatedAt) r.(up_OrgID) r.(up_ChunkSize) r.(up_Size) r.(up_Sha256) (r.(up_ChunkList) ++ [sha256])%list
  else r.
Definition StoreChunkUpload (orgID uploadUUID sha256 : string) : UpM () :=
  db_call (λ t, (inr (), alter (add_chunk orgID sha256) uploadUUID t)).

Definition DeleteUpload `{UuidText} (uploadUUID : string) : UpM () :=
  db_call (λ t, (inr (), delete (uuid_String (Uuidify uploadUUID)) t)).

(** [today]: the midnight before now. *)
Definition ListUploadsForCleanup (today : time) : UpM (list (string * UploadRow)) :=
  db_call (λ t, (inr (base.filter (λ kr, (kr.2.(up_CreatedAt) < today - Day)%Z) (map_to_list t)), t)).

(** ** The requests of these tasks *)

(** zest.RpmPackageResponse *)
Record RpmPackage := mk_RpmPackage {
  pk_Name : option string; pk_Arch : option string; pk_Version : option string; pk_Release : option string; pk_Epoch : option string;
  pk_Sha256 : option string; pk_Summary : option string }.

Class UploadClient (S : Type) := {
  LookupArtifact (dom sha256 : string) : S → (goerr + option string) * S;
  (** The href of the task, if there is one. *)
  FinishUpload (dom href sha256 : string) : S → (goerr + option string) * S;
  LookupPackage (dom sha256 : string) : S → (goerr + option string) * S;
  CreatePackage (dom artifactHref : string) : S → (goerr + string) * S;
  (** A page of the packages of a version, and their number. *)
  ListVersionPackages (dom versionHref : string) (offset limit : nat) : S → (goerr + list RpmPackage * nat) * S
}.

(** ** strconv.ParseInt(s, 10, 32) *)

Fixpoint parse_uint (n : Z) (s : list ascii) : string + Z :=
  match s with
  | [] => inr n
  | c :: s' =>
      if is_digit c then
        let n1 := (n * 10 + Z.of_nat (Ascii.nat_of_ascii c - Ascii.nat_of_ascii "0"))%Z in
        if (2 ^ 32 - 1 <? n1)%Z then inl "value out of range" else parse_uint n1 s'
      else inl "invalid syntax"
  end.
Definition parse_digits (s : list ascii) : string + Z := match s with [] => inl "invalid syntax" | _ => parse_uint 0 s end.
Definition quote : string := String (ascii_of_N 34) "".
Definition ParseInt32 (s : string) : goerr + Z :=
  let fail msg := inl (ErrPlain ("strconv.ParseInt: parsing " +:+ quote +:+ s +:+ quote +:+ ": " +:+ msg)) in
  let '(neg, digits) := match chars s with
                        | "+"%char :: s' => (false, s')
                        | "-"%char :: s' => (true, s')
                        | s' => (false, s')
                        end in
  match parse_digits digits with
  | inl msg => fail msg
  | inr n => if neg : bool then if (2 ^ 31 <? n)%Z then fail "value out of range" else inr (- n)%Z
             else if (2 ^ 31 <=? n)%Z then fail "value out of range" else inr n
  end.

(** ** The world *)

Record uworld (S C P : Type) := mk_uw { uw_tw : tworld S C P; uw_content : store; uw_uploads : uploads }.
#[global] Arguments mk_uw {S C P}.
#[global] Arguments uw_tw {S C P}.
#[global] Arguments uw_content {S C P}.
#[global] Arguments uw_uploads {S C P}.

Section World.
Context {S C P : Type}.
Abbreviation U := (uworld S C P).
Definition set_tw (w : tworld S C P) (x : U) : U := mk_uw w x.(uw_content) x.(uw_uploads).
Definition set_content_store (d : store) (x : U) : U := mk_uw x.(uw_tw) d x.(uw_uploads).
Definition set_uploads (t : uploads) (x : U) : U := mk_uw x.(uw_tw) x.(uw_content) t.
Definition tw {A} (m : M (tworld S C P) goerr A) : M U goerr A := zoom uw_tw set_tw m.
Definition uploads_dao {A} (m : UpM A) : M U goerr A := zoom uw_uploads set_uploads m.

(** An operation on the content, whose errors are texts. It consumes faults from the front of the list. *)
Definition content {A} (m : M store string A) : M U goerr A := λ '(fs, x),
  let '(r, (fs', d)) := m (option_map Error <$> fs, x.(uw_content)) in
  (match r with inl e => inl (ErrPlain e) | inr a => inr a end, (drop (length fs - length fs') fs, set_content_store d x)).
End World.

(** ** Steps of both tasks *)

Section Steps.
Context {S C P : Type} `{HC : PulpClient S} `{HUp : UploadClient S} `{HU : UuidText}.
Abbreviation UM := (M (uworld S C P) goerr).
Definition ask {A} (f : S → (goerr + A) * S) : UM A := tw (pulp (db_call f)).

(** The pages of a version. [fuel] bounds the number of rounds; [Diverges] stands for a loop that goes on. *)
Definition Diverges : goerr := ErrPlain "the loop goes on".
Fixpoint more_packages (fuel : nat) (dom versionHref : string) (initial limit : nat) (pkgs : list RpmPackage) (total : nat) : UM (list RpmPackage) :=
  if (length pkgs <? total)%nat then
    match fuel with
    | O => throw Diverges
    | Datatypes.S fuel' =>
        let initial := (initial + limit)%nat in
        '(pkgList, _) ← ask (ListVersionPackages dom versionHref initial limit);
        more_packages fuel' dom versionHref initial limit (pkgs ++ pkgList)%list total
    end
  else mret pkgs.
Definition ListVersionAllPackages (fuel : nat) (dom versionHref : string) : UM (list RpmPackage) :=
  let limit := 300%nat in
  '(pkgs, total) ← ask (ListVersionPackages dom versionHref 0 limit);
  more_packages fuel dom versionHref 0 limit pkgs total.

(** One package of the loop. ([ParseInt] with 32 bits leaves nothing for the check of the bounds after it.) *)
Definition to_yum (versionHref : string) (rpm : RpmPackage) : goerr + yum_Package :=
  match (match rpm.(pk_Epoch) with Some e => ParseInt32 e | None => inr 0%Z end) with
  | inl e => inl e
  | inr epoch =>
      match rpm.(pk_Name), rpm.(pk_Arch), rpm.(pk_Version), rpm.(pk_Release), rpm.(pk_Sha256), rpm.(pk_Summary) with
      | Some name, Some arch, Some version, Some release, Some sha, Some summary => inr (mk_yum_Package name arch version release epoch sha summary)
      | _, _, _, _, _, _ => inl (ErrPlain ("received nil values for rpm packages in version " +:+ versionHref +:+ " from pulp"))
      end
  end.
Fixpoint to_yums (versionHref : string) (pkgs : list RpmPackage) : goerr + list yum_Package :=
  match pkgs with
  | [] => inr []
  | rpm :: pkgs' => match to_yum versionHref rpm with
                    | inl e => inl e
                    | inr p => match to_yums versionHref pkgs' with inl e => inl e | inr l => inr (p :: l) end
                    end
  end.

Definition imported (now : time) (repositoryUUID : uuid) (count : Z) : RepositoryUpdate :=
  mk_RepositoryUpdate repositoryUUID None None None (Some now) (Some now) (Some now) None (Some StatusValid) (Some count) None None (Some 0%Z).

Definition ImportPackageData (fuel lim : nat) (ids : nat → uuid) (now : time) (dom : string) (repo : RepoResponse) (versionHref : string) : UM () :=
  pkgs ← wrap "could not list all packages" (ListVersionAllPackages fuel dom versionHref);
  yumPkgs ← lift (to_yums versionHref pkgs);
  _ ← wrap "could not insert packages" (content (Rpm_InsertForRepository lim ids repo.(p_RepositoryUUID) yumPkgs));
  content (Update (imported now repo.(p_RepositoryUUID) (Z.of_nat (length yumPkgs)))).

(** Up to two created resources are accepted. *)
Definition modified_version (msg : string) (result : TaskResponse) : UM string :=
  match result.(t_CreatedResources) with
  | [] => mret ""
  | r :: _ => if (2 <? length result.(t_CreatedResources))%nat then throw (ErrPlain (msg +:+ ": [" +:+ strings_Join " " result.(t_CreatedResources) +:+ "]")) else mret r
  end.
Definition modify_content (dom : string) (repo : RepoResponse) (add remove : list string) (looking many : string) : UM string :=
  pulpRepo ← wrap looking (ask (GetRpmRepositoryByName dom (uuid_String repo.(p_UUID))));
  href ← deref (pulpRepo ≫= pr_PulpHref);
  task ← wrap "could not modify repository contents" (ask (ModifyRpmRepositoryContent dom href add remove));
  result ← wrap "modify repo task failed" (ask (PollTask dom task));
  modified_version many result.
End Steps.

(** ** The payloads *)

(** [R] is what a task has besides the state of the snapshot. *)
Record UploadPayload (R : Type) := mk_UploadPayload {
  ap_Request : R; ap_VersionHref : option string; ap_PublicationTaskHref : option string; ap_DistributionTaskHref : option string;
  ap_SnapshotIdent : option string; ap_SnapshotUUID : option string }.
#[global] Arguments mk_UploadPayload {R}.
#[global] Arguments ap_Request {R}.
#[global] Arguments ap_VersionHref {R}.
#[global] Arguments ap_PublicationTaskHref {R}.
#[global] Arguments ap_DistributionTaskHref {R}.
#[global] Arguments ap_SnapshotIdent {R}.
#[global] Arguments ap_SnapshotUUID {R}.

(** What is saved is kept as it is, the empty string too. *)
#[global] Instance upload_resumable {R} : Resumable (UploadPayload R) := {
  GetPublicationTaskHref := ap_PublicationTaskHref;
  SetPublicationTaskHref h p := mk_UploadPayload p.(ap_Request) p.(ap_VersionHref) (Some h) p.(ap_DistributionTaskHref) p.(ap_SnapshotIdent) p.(ap_SnapshotUUID);
  GetDistributionTaskHref := ap_DistributionTaskHref;
  SetDistributionTaskHref h p := mk_UploadPayload p.(ap_Request) p.(ap_VersionHref) p.(ap_PublicationTaskHref) (Some h) p.(ap_SnapshotIdent) p.(ap_SnapshotUUID);
  GetSnapshotIdent := ap_SnapshotIdent;
  SetSnapshotIdent h p := mk_UploadPayload p.(ap_Request) p.(ap_VersionHref) p.(ap_PublicationTaskHref) p.(ap_DistributionTaskHref) (Some h) p.(ap_SnapshotUUID);
  GetSnapshotUUID := ap_SnapshotUUID;
  SetSnapshotUUID h p := mk_UploadPayload p.(ap_Request) p.(ap_VersionHref) p.(ap_PublicationTaskHref) p.(ap_DistributionTaskHref) p.(ap_SnapshotIdent) (Some h) }.
#[global] Instance upload_resumable_laws {R} : ResumableLaws (UploadPayload R).
Proof. by split. Qed.

Definition set_VersionHref {R} (v : string) (p : UploadPayload R) : UploadPayload R :=
  mk_UploadPayload p.(ap_Request) (Some v) p.(ap_PublicationTaskHref) p.(ap_DistributionTaskHref) p.(ap_SnapshotIdent) p.(ap_SnapshotUUID).

(** AddUploadsPayload and BulkRemoveRpmsPayload *)
Record AddUploadsRequest := mk_AddUploadsRequest { ar_RepositoryConfigUUID : string; ar_Artifacts : list Artifact; ar_Uploads : list Upload }.
Abbreviation AddUploadsPayload := (UploadPayload AddUploadsRequest).
Record RemoveRpmsRequest := mk_RemoveRpmsRequest { rr_RepositoryConfigUUID : string; rr_RpmUuids : list string }.
Abbreviation BulkRemoveRpmsPayload := (UploadPayload RemoveRpmsRequest).

(** ** The second half of both tasks *)

Section Snapshot.
Context {S C R : Type} `{HC : PulpClient S} `{HUp : UploadClient S} `{HU : UuidText}.
Context (RepoContentGuards : bool) (scan : gmap uuid SnapRow → list (uuid * SnapRow)).
Context (Tang : option Tangy) (rpm_Version : string → string) (rpm_LessThan : string → string → bool).
Context (fuel lim : nat) (ids : nat → uuid).
Abbreviation UM := (M (uworld S C (UploadPayload R)) goerr).

Definition save_version (v : string) : UM () := wrap "could not update payload" (tw (save (set_VersionHref v))).

(** The snapshot of a version and its packages; the clean-up of a canceled task is deferred, and its errors are logged. *)
Definition snapshot_version (now now' : time) (ident u : uuid) (dom : string) (repo : RepoResponse) (versionHref : string) : UM () :=
  r ← try (_ ← tw (SnapshotHelper_Run RepoContentGuards scan Tang rpm_Version rpm_LessThan now ident u dom repo versionHref);
           wrap "could not import package data" (ImportPackageData fuel lim ids now' dom repo versionHref));
  match r with
  | inr _ => mret ()
  | inl e => _ ← (if is_canceled e then _ ← try (tw (SnapshotHelper_Cleanup RepoContentGuards dom repo)); mret () else mret ()); throw e
  end.
End Snapshot.

(** ** add_uploads.go *)

Section AddUploads.
Context {S C : Type} `{HC : PulpClient S} `{HUp : UploadClient S} `{HU : UuidText}.
Context (RepoContentGuards : bool) (scan : gmap uuid SnapRow → list (uuid * SnapRow)).
Context (Tang : option Tangy) (rpm_Version : string → string) (rpm_LessThan : string → string → bool).
Context (tasks : gmap uuid TaskView) (snapshots_enabled : bool) (content_path : goerr + string) (PulpConfigured : bool).
Context (fuel lim : nat) (ids : nat → uuid).
Abbreviation UM := (M (uworld S C AddUploadsPayload) goerr).

(** One upload: the artifact that is there, or the task that makes it. *)
Definition convert_upload (dom : string) (upload : Upload) : UM (option (Artifact + Upload * string)) :=
  found ← wrap "could not lookup artifact" (ask (LookupArtifact dom upload.(u_Sha256)));
  match found with
  | Some href => mret (Some (inl (mk_Artifact href upload.(u_Sha256))))
  | None =>
      let upload := if (upload.(u_Href) == "") && (upload.(u_Uuid) != "")
                    then mk_Upload upload.(u_Uuid) ("/api/pulp/" +:+ dom +:+ "/api/v3/uploads/" +:+ upload.(u_Uuid) +:+ "/") upload.(u_Sha256)
                    else upload in
      task ← wrap "could not finish upload" (ask (FinishUpload dom upload.(u_Href) upload.(u_Sha256)));
      mret ((λ t, inr (upload, t)) <$> task)
  end.

(** The artifacts found and the uploads that are pending. *)
Fixpoint convert_uploads (dom : string) (uploads : list Upload) (artifacts : list Artifact) (pending : list (Upload * string)) :
    UM (list Artifact * list (Upload * string)) :=
  match uploads with
  | [] => mret (artifacts, pending)
  | upload :: uploads' =>
      r ← convert_upload dom upload;
      match r with
      | Some (inl a) => convert_uploads dom uploads' (artifacts ++ [a])%list pending
      | Some (inr p) => convert_uploads dom uploads' artifacts (pending ++ [p])%list
      | None => convert_uploads dom uploads' artifacts pending
      end
  end.

(** The one resource a task has created. *)
Definition one_created (result : TaskResponse) : UM string :=
  match result.(t_CreatedResources) with
  | [r] => mret r
  | l => throw (ErrPlain ("expected one created resource but got " +:+ pretty (length l)))
  end.

Fixpoint finish_uploads (dom : string) (pending : list (Upload * string)) (artifacts : list Artifact) : UM (list Artifact) :=
  match pending with
  | [] => mret artifacts
  | (upload, taskHref) :: pending' =>
      r ← try (ask (PollTask dom taskHref));
      match r with
      | inl err =>
          _ ← wrap "could not delete upload record" (uploads_dao (DeleteUpload upload.(u_Uuid)));
          throw (ErrWrapped "finish upload task failed unexpectedly " err)
      | inr result =>
          href ← one_created result;
          finish_uploads dom pending' (artifacts ++ [mk_Artifact href upload.(u_Sha256)])%list
      end
  end.

Definition ConvertUploadsToArtifacts (dom : string) (p : AddUploadsPayload) : UM (list Artifact) :=
  '(artifacts, pending) ← convert_uploads dom p.(ap_Request).(ar_Uploads) p.(ap_Request).(ar_Artifacts) [];
  finish_uploads dom pending artifacts.

Fixpoint lookup_packages (dom : string) (artifacts : list Artifact) (contentHrefs pending : list string) : UM (list string * list string) :=
  match artifacts with
  | [] => mret (contentHrefs, pending)
  | artifact :: artifacts' =>
      pkg ← wrap "could not lookup package" (ask (LookupPackage dom artifact.(a_Sha256)));
      match pkg with
      | Some href => lookup_packages dom artifacts' (contentHrefs ++ [href])%list pending
      | None =>
          task ← wrap "could not create package" (ask (CreatePackage dom artifact.(a_Href)));
          lookup_packages dom artifacts' contentHrefs (pending ++ [task])%list
      end
  end.

Fixpoint finish_packages (dom : string) (pending contentHrefs : list string) : UM (list string) :=
  match pending with
  | [] => mret contentHrefs
  | taskHref :: pending' =>
      result ← wrap "finish upload task failed unexpectedly " (ask (PollTask dom taskHref));
      href ← one_created result;
      finish_packages dom pending' (contentHrefs ++ [href])%list
  end.

Definition ConvertArtifactsToPackages (dom : string) (artifacts : list Artifact) : UM (list string) :=
  '(contentHrefs, pending) ← lookup_packages dom artifacts [] [];
  finish_packages dom pending contentHrefs.

Definition AddContentToRepo (dom : string) (repo : RepoResponse) (contentHrefs : list string) : UM string :=
  modify_content dom repo contentHrefs [] "could not get repository info"
    "unexpectedly got more than 1 Created resources after ModifyRpmRepositoryContent".

(** The version to take a snapshot of, if there is one. *)
Definition uploaded_version (dom : string) (repo : RepoResponse) (p : AddUploadsPayload) : UM (option string) :=
  artifacts ← wrap "could not convert uploads to artifacts" (ConvertUploadsToArtifacts dom p);
  contentHrefs ← wrap "could not convert artifacts to contentHrefs" (ConvertArtifactsToPackages dom artifacts);
  versionHref ← AddContentToRepo dom repo contentHrefs;
  if versionHref == ""
  then wrap "failed to get orphaned latest version" (tw (GetOrphanedLatestVersion scan dom p.(ap_Request).(ar_RepositoryConfigUUID)))
  else mret (Some versionHref).

Definition AddUploads_Run (now now' : time) (ident u : uuid) (dom : string) (repo : RepoResponse) : UM () :=
  p ← tw get_mem;
  version ← (match p.(ap_VersionHref) with
             | Some v => mret (Some v)
             | None => v ← uploaded_version dom repo p;
                       match v with Some v => _ ← save_version v; mret (Some v) | None => mret None end
             end);
  match version with
  | None => mret ()
  | Some v => snapshot_version RepoContentGuards scan Tang rpm_Version rpm_LessThan fuel lim ids now now' ident u dom repo v
  end.

Definition AddUploadsHandler (now now' : time) (ident u : uuid) (orgId : string) : UM () :=
  if negb PulpConfigured then mret ()
  else
    domainName ← tw (domain_dao (Domain_Fetch orgId));
    p ← tw get_mem;
    repo ← wrap "could not fetch repository config"
             (tw (dao (RepoConfig_Fetch tasks snapshots_enabled content_path orgId p.(ap_Request).(ar_RepositoryConfigUUID))));
    if (repo.(p_Origin) != OriginUpload) || negb repo.(p_Snapshot)
    then throw (ErrPlain "cannot upload to a non snapshot or non-upload repository")
    else AddUploads_Run now now' ident u domainName repo.
End AddUploads.

(** ** bulk_remove_rpms.go *)

Definition TrimPrefix (s prefix : string) : string :=
  if has_prefix (chars prefix) (chars s) then str_drop (String.length prefix) s else s.
Definition rpmChecksumHexForPulp (checksum : string) : string := TrimPrefix (TrimPrefix checksum "SHA256:") "sha256:".

(** dao/rpms.go, in a world with the tables ([on]) and the content ([reading]). [isOwnedRepository] finds the rows and counts
    them; the association is loaded with a query of its own. *)
Section Fetch.
Context {W : Type} `{HU : UuidText} (on : ∀ A, SnapshotDao.DB A → M W goerr A) (reading : ∀ A, (store → A) → M W goerr A).
Context (scan_rpms : gmap uuid Rpm → list (uuid * Rpm)).

Definition Rpm_FetchForRepository (orgID repositoryConfigUUID : string) (rpmUUIDs : list string) : M W goerr (list (uuid * Rpm)) :=
  owned ← map_err (catch (λ e, RepositoryDBErrorToApi e (Some repositoryConfigUUID)))
            (_ ← on _ (db_noop : SnapshotDao.DB ());
             on _ (db_call (λ d, (inr (match d.(configs) !! Uuidify repositoryConfigUUID with
                                       | Some c => config_live c && contains [orgID; RedHatOrg; CommunityOrg; LightwellOrg; LightwellDemoOrg] c.(c_OrgID)
                                       | None => false
                                       end), d))));
  if negb owned then throw (DaoError None ("Could not find repository with UUID " +:+ repositoryConfigUUID) true false false false)
  else
    repositoryConfig ← on _ (db_call (λ d, match pg_uuid repositoryConfigUUID with
                                           | None => (inl (invalid_uuid repositoryConfigUUID), d)
                                           | Some rc => (or_not_found (c ← d.(configs) !! rc; if config_live c then Some c else None), d)
                                           end));
    _ ← on _ (db_noop : SnapshotDao.DB ());
    rpms ← reading _ (λ d, base.filter (λ ur, (repositoryConfig.(c_RepositoryUUID), ur.1) ∈ d.(t_rpms).(links) ∧ ur.1 ∈ Uuidify <$> rpmUUIDs)
                             (scan_rpms d.(t_rpms).(rows)));
    if (length rpms =? length rpmUUIDs)%nat then mret rpms
    else throw (DaoError None "One or more RPM UUIDs were not found for this repository" true false false false).
End Fetch.

Section BulkRemove.
Context {S C : Type} `{HC : PulpClient S} `{HUp : UploadClient S} `{HU : UuidText}.
Context (RepoContentGuards : bool) (scan : gmap uuid SnapRow → list (uuid * SnapRow)).
Context (Tang : option Tangy) (rpm_Version : string → string) (rpm_LessThan : string → string → bool).
Context (tasks : gmap uuid TaskView) (snapshots_enabled : bool) (content_path : goerr + string) (PulpConfigured : bool).
Context (fuel lim : nat) (ids : nat → uuid) (scan_rpms : gmap uuid Rpm → list (uuid * Rpm)).
Abbreviation UM := (M (uworld S C BulkRemoveRpmsPayload) goerr).

Definition fetch_rpms : string → string → list string → UM (list (uuid * Rpm)) :=
  Rpm_FetchForRepository (λ _ m, tw (dao m)) (λ _ f, content (db_call (λ d, (inr (f d), d)))) scan_rpms.

Fixpoint package_hrefs (dom : string) (rpms : list (uuid * Rpm)) : UM (list string) :=
  match rpms with
  | [] => mret []
  | (u, rpm) :: rpms' =>
      href ← wrap "could not lookup package in pulp" (ask (LookupPackage dom (rpmChecksumHexForPulp rpm.(rpm_Checksum))));
      match href with
      | None => throw (ErrPlain ("package for RPM " +:+ uuid_String u +:+ " not found in pulp"))
      | Some href => hrefs ← package_hrefs dom rpms'; mret (href :: hrefs)
      end
  end.

(** An empty href, when nothing was removed, is passed on. *)
Definition removeContentFromRepo (orgID dom : string) (repo : RepoResponse) (p : BulkRemoveRpmsPayload) : UM string :=
  rpms ← wrap "could not fetch RPMs" (fetch_rpms orgID p.(ap_Request).(rr_RepositoryConfigUUID) p.(ap_Request).(rr_RpmUuids));
  contentHrefs ← package_hrefs dom rpms;
  modify_content dom repo [] contentHrefs "could not get repository" "unexpectedly got more than 1 Created resource after ModifyRpmRepositoryContent".

Definition BulkRemoveRpms_Run (now now' : time) (ident u : uuid) (orgID dom : string) (repo : RepoResponse) : UM () :=
  p ← tw get_mem;
  versionHref ← (match p.(ap_VersionHref) with
                 | Some v => mret v
                 | None => v ← removeContentFromRepo orgID dom repo p; _ ← save_version v; mret v
                 end);
  snapshot_version RepoContentGuards scan Tang rpm_Version rpm_LessThan fuel lim ids now now' ident u dom repo versionHref.

Definition BulkRemoveRpmsHandler (now now' : time) (ident u : uuid) (orgId : string) : UM () :=
  if negb PulpConfigured then mret ()
  else
    p ← tw get_mem;
    repo ← wrap "could not fetch repository config"
             (tw (dao (RepoConfig_Fetch tasks snapshots_enabled content_path orgId p.(ap_Request).(rr_RepositoryConfigUUID))));
    domainName ← tw (domain_dao (Domain_Fetch orgId));
    BulkRemoveRpms_Run now now' ident u orgId domainName repo.
End BulkRemove.
