(* ===== verification/UploadThms.v ===== *)
(** * What the tasks on uploaded packages achieve

    The list of the packages of a version ends and is complete; a task that succeeds leaves a snapshot of its version and
    exactly the packages of the version as the content of the repository; an upload that was begun is found again. *)

From S2P Require Import Prelude GoStrings GoSplit Config TxMonad Utils Models Content ContentTables ContentThms Introspect IntrospectThms Errors DaoHelpers GoText SnapshotDao SnapshotThms TemplateDao SnapshotHandler SnapshotHandlerThms RepoConfigDao RepoConfigThms PulpTask Pulp Distribution TaskEnv PublishTask SnapshotSearch SnapshotTask SnapshotTaskThms DeleteTaskThms UploadTask.
From stdpp Require Import options.

Open Scope string_scope.

(** ** What the tasks rely on *)

(** A version of a repository has its packages for ever; they are listed page by page. The list leaves distributions alone.
    Artifacts and packages are known by their checksum: one that is found has the checksum asked for, a finished upload makes
    an artifact of its checksum, and an artifact a package of its own. A new version has the packages that were added to it;
    when there is no new version, the latest one has them already. *)
Class UploadLaws (S : Type) `{UploadClient S} `{PulpLaws S} := {
  version_packages : string → list RpmPackage;
  package_page dom v off lim s l n s' :
    ListVersionPackages dom v off lim s = (inr (l, n), s') → l = take lim (drop off (version_packages v)) ∧ n = length (version_packages v);
  package_list_dists dom v off lim s : dists (ListVersionPackages dom v off lim s).2 = dists s;
  artifact_checksum : string → string;
  package_checksum : string → string;
  artifact_found dom sha s h s' : LookupArtifact dom sha s = (inr (Some h), s') → artifact_checksum h = sha;
  upload_task dom href sha s o s' : FinishUpload dom href sha s = (inr o, s') → ∃ t, o = Some t ∧ task_kind t = ArtifactTask sha;
  artifact_made dom t sha s tr s' h :
    task_kind t = ArtifactTask sha → PollTask dom t s = (inr tr, s') → h ∈ tr.(t_CreatedResources) → artifact_checksum h = sha;
  package_found dom sha s h s' : LookupPackage dom sha s = (inr (Some h), s') → package_checksum h = sha;
  package_task dom a s t s' : CreatePackage dom a s = (inr t, s') → task_kind t = PackageTask a;
  package_made dom t a s tr s' h :
    task_kind t = PackageTask a → PollTask dom t s = (inr tr, s') → h ∈ tr.(t_CreatedResources) → package_checksum h = artifact_checksum a;
  content_added dom name pr href add remove s0 s t s1 tr s2 :
    GetRpmRepositoryByName dom name s0 = (inr (Some pr), s) → pr.(pr_PulpHref) = Some href →
    ModifyRpmRepositoryContent dom href add remove s = (inr t, s1) → PollTask dom t s1 = (inr tr, s2) → t_State tr = COMPLETED →
    match tr.(t_CreatedResources) with
    | v :: _ => v ≠ "" ∧ ∀ h, h ∈ add → Some (package_checksum h) ∈ pk_Sha256 <$> version_packages v
    | [] => ∀ pr' s3 v, GetRpmRepositoryByName dom name s2 = (inr (Some pr'), s3) → pr'.(pr_LatestVersionHref) = Some v →
              ∀ h, h ∈ add → Some (package_checksum h) ∈ pk_Sha256 <$> version_packages v
    end
}.

Section World.
Context {S C P : Type}.
Abbreviation U := (uworld S C P).
Lemma tw_run {A} (m : M (tworld S C P) goerr A) fs (x : U) r fs' x' :
  tw m (fs, x) = (r, (fs', x')) → ∃ w, m (fs, x.(uw_tw)) = (r, (fs', w)) ∧ x' = set_tw w x.
Proof. apply zoom_run. Qed.

Lemma content_run {A} (m : M store string A) fs (x : U) a fs' x' :
  content m (fs, x) = (inr a, (fs', x')) → ∃ fs0 fs1 d, m (fs0, x.(uw_content)) = (inr a, (fs1, d)) ∧ x' = set_content_store d x.
Proof.
  unfold content. destruct (m _) as [[e|b] [fs1 d]] eqn:Hm; [done|]. intros [= -> _ <-]. eauto.
Qed.

Lemma tw_bind {A B} (m : M (tworld S C P) goerr A) (k : A → M (tworld S C P) goerr B) w :
  tw (m ≫= k) w = (tw m ≫= λ a, tw (k a) : M U goerr B) w.
Proof.
  destruct w as [fs x]. unfold tw, zoom, mbind, M_bind. destruct (m (fs, uw_tw x)) as [[e|a] [fs1 w1]]; [done|]. cbn.
  destruct (k a (fs1, w1)) as [? []]. by destruct x.
Qed.
End World.

(** ** The pages *)

Section Pages.
Context {S C P : Type} `{HC : PulpClient S} `{HUp : UploadClient S} `{HL : !PulpLaws S} `{HUL : !UploadLaws S}.
Abbreviation U := (uworld S C P).
#[local] Set Default Proof Using "Type*".

Lemma page_run dom v off lim fs (x : U) l n fs' x' :
  ask (ListVersionPackages dom v off lim) (fs, x) = (inr (l, n), (fs', x')) →
  l = take lim (drop off (version_packages v)) ∧ n = length (version_packages v) ∧
  ∃ s, x' = set_tw (set_pulp s x.(uw_tw)) x ∧ dists s = dists x.(uw_tw).(tw_pulp).
Proof.
  intros (w & (s & Hc%call_inr & ->)%pulp_run & ->)%tw_run. apply package_page in Hc as Hp. destruct Hp as [-> ->].
  split; [done|]. split; [done|]. exists s. split; [done|]. pose proof (package_list_dists dom v off lim x.(uw_tw).(tw_pulp)) as E. by rewrite Hc in E.
Qed.

Lemma more_packages_run fuel dom v initial limit pkgs fs (x : U) l fs' x' :
  pkgs = take (initial + limit) (version_packages v) →
  more_packages fuel dom v initial limit pkgs (length (version_packages v)) (fs, x) = (inr l, (fs', x')) →
  l = version_packages v ∧ ∃ s, x' = set_tw (set_pulp s x.(uw_tw)) x ∧ dists s = dists x.(uw_tw).(tw_pulp).
Proof.
  revert initial pkgs fs x. induction fuel as [|fuel IH]; intros initial pkgs fs x -> H; cbn [more_packages] in H; rewrite length_take in H;
    destruct (Nat.ltb_spec (Nat.min (initial + limit) (length (version_packages v))) (length (version_packages v))) as [Hlt|Hge].
  1: done.
  1, 3: apply ret_inr in H as [Hl [= _ <-]]; rewrite take_ge in Hl by lia; (split; [done|]); exists x.(uw_tw).(tw_pulp); by destruct x as [[]].
  apply bind_inr in H as ([pg n] & [fs1 x1] & (-> & -> & s1 & -> & Hs1)%page_run & H).
  apply IH in H as (-> & s & -> & Hs).
  - split; [done|]. exists s. split; [by destruct x as [[]]|]. by rewrite Hs.
  - apply take_take_drop.
Qed.

Lemma all_packages_run fuel dom v fs (x : U) l fs' x' :
  ListVersionAllPackages fuel dom v (fs, x) = (inr l, (fs', x')) →
  l = version_packages v ∧ ∃ s, x' = set_tw (set_pulp s x.(uw_tw)) x ∧ dists s = dists x.(uw_tw).(tw_pulp).
Proof.
  intros ([pkgs n] & [fs1 x1] & (-> & -> & s1 & -> & Hs1)%page_run & H)%bind_inr.
  apply more_packages_run in H as (-> & s & -> & Hs); [|by rewrite drop_0].
  split; [done|]. exists s. split; [by destruct x as [[]]|]. by rewrite Hs.
Qed.
End Pages.

(** ** The list ends *)

Section Total.
Context {S C P : Type} `{HC : PulpClient S} `{HUp : UploadClient S} `{HL : !PulpLaws S} `{HUL : !UploadLaws S}.
Abbreviation U := (uworld S C P).
#[local] Set Default Proof Using "Type*".
(** The service answers. *)
Definition pages_answered : Prop := ∀ dom v off lim s, ∃ p s', ListVersionPackages dom v off lim s = (inr p, s').

Lemma page_total dom v off lim (x : U) :
  pages_answered →
  ∃ x', ask (ListVersionPackages dom v off lim) ([], x) =
          (inr (take lim (drop off (version_packages v)), length (version_packages v)), ([], x')).
Proof.
  intros Ha. destruct (Ha dom v off lim x.(uw_tw).(tw_pulp)) as ([l n] & s' & Hp). apply package_page in Hp as Hl. destruct Hl as [-> ->].
  eexists. unfold ask, tw, pulp, zoom, db_call. rewrite Hp. done.
Qed.

Lemma more_packages_total fuel dom v initial limit (x : U) :
  pages_answered → (length (version_packages v) ≤ initial + limit + fuel * limit)%nat →
  ∃ x', more_packages fuel dom v initial limit (take (initial + limit) (version_packages v)) (length (version_packages v)) ([], x) =
          (inr (version_packages v), ([], x')).
Proof.
  intros Ha. revert initial x. induction fuel as [|fuel IH]; intros initial x Hf; cbn [more_packages]; rewrite length_take;
    destruct (Nat.ltb_spec (Nat.min (initial + limit) (length (version_packages v))) (length (version_packages v))) as [Hlt|Hge].
  1: lia.
  1, 3: exists x; rewrite take_ge by lia; done.
  destruct (page_total dom v (initial + limit) limit x Ha) as [x1 H1]. erewrite bind_eq by exact H1. cbn beta iota.
  rewrite take_take_drop. apply IH. lia.
Qed.

Lemma all_packages_total fuel dom v (x : U) :
  pages_answered → (length (version_packages v) ≤ 300 * (fuel + 1))%nat →
  ∃ x', ListVersionAllPackages fuel dom v ([], x) = (inr (version_packages v), ([], x')).
Proof.
  intros Ha Hf. destruct (page_total dom v 0 300 x Ha) as [x1 H1].
  destruct (more_packages_total fuel dom v 0 300 x1 Ha) as [x2 H2]; [lia|]. exists x2. unfold ListVersionAllPackages.
  erewrite bind_eq by exact H1. cbn beta iota. by rewrite drop_0.
Qed.
End Total.

(** ** The content of the repository *)

Section ImportData.
Context {S C P : Type} `{HC : PulpClient S} `{HUp : UploadClient S} `{HL : !PulpLaws S} `{HUL : !UploadLaws S}.
Context (fuel lim : nat) (ids : nat → uuid).
Abbreviation U := (uworld S C P).
#[local] Set Default Proof Using "Type*".

Lemma to_yum_checksum v rpm p : to_yum v rpm = inr p → rpm.(pk_Sha256) = Some p.(yp_Checksum).
Proof. unfold to_yum. intros. repeat (case_match; simplify_eq/=; try done). Qed.
Lemma to_yums_checksums v pkgs l : to_yums v pkgs = inr l → pk_Sha256 <$> pkgs = Some <$> (yp_Checksum <$> l).
Proof.
  revert l. induction pkgs as [|rpm pkgs IH]; intros l H; [by simplify_eq/=|]. cbn in H.
  destruct (to_yum v rpm) as [e|p] eqn:Hp; [done|]. destruct (to_yums v pkgs) as [e|l'] eqn:Hl; [done|]. simplify_eq/=.
  f_equal; [by eapply to_yum_checksum|by apply IH].
Qed.

(** The packages of the version are those of the repository, and its row says so; other repositories keep theirs. *)
Definition content_imported (now : time) (repo : uuid) (v : string) (d d' : store) : Prop :=
  (∀ k, has_content rpm_Checksum d'.(t_rpms) repo k ↔ Some k ∈ pk_Sha256 <$> version_packages v) ∧
  (∃ m, d'.(Content.repositories) !! repo = Some m ∧ m.(r_LastIntrospectionStatus) = StatusValid ∧
        m.(r_PackageCount) = Z.of_nat (length (version_packages v)) ∧ m.(r_LastIntrospectionSuccessTime) = Some now ∧
        m.(r_FailedIntrospectionsCount) = 0%Z) ∧
  (∀ repo' u, repo' ≠ repo → (repo', u) ∈ d'.(t_rpms).(links) ↔ (repo', u) ∈ d.(t_rpms).(links)) ∧
  d.(t_rpms).(rows) ⊆ d'.(t_rpms).(rows).

Lemma import_run now dom repo v fs (x : U) fs' x' :
  (0 < lim)%nat → rpms_ok x.(uw_content) →
  ImportPackageData fuel lim ids now dom repo v (fs, x) = (inr (), (fs', x')) →
  content_imported now repo.(p_RepositoryUUID) v x.(uw_content) x'.(uw_content) ∧
  ∃ s, x'.(uw_tw) = set_pulp s x.(uw_tw) ∧ dists s = dists x.(uw_tw).(tw_pulp).
Proof.
  intros Hlim Hok H. unfold ImportPackageData in H.
  apply bind_inr in H as (pkgs & [fs1 x1] & (-> & s & -> & Hs)%wrap_inr%all_packages_run & H).
  apply bind_inr in H as (l & [fs2 x2] & [Hl [= -> ->]]%lift_run & H). apply to_yums_checksums in Hl as Hsum.
  apply bind_inr in H as (n & [fs3 x3] & (fs4 & fs5 & d & Hins & ->)%wrap_inr%content_run & H).
  apply content_run in H as (fs6 & fs7 & d' & (m & Hm & ->)%Update_cases & ->). cbn in *.
  pose proof (Rpm_insert_frame lim ids repo.(p_RepositoryUUID) l _ fs4 _ (frame_refl _ _ _ _ Hok)) as Hfr. rewrite Hins in Hfr.
  destruct Hfr as [_ (_ & Hrows & Hoth)]. apply Rpm_insert_inr in Hins as [Hc _]; [|done].
  split; [|by exists s]. split_and!.
  - intros k. cbn. rewrite Hc, Hsum, (list_elem_of_fmap Some). split; [intros ?; by exists k|]. by intros (? & [= ->] & ?).
  - exists (updated_row (imported now repo.(p_RepositoryUUID) (Z.of_nat (length l))) m). split; [apply lookup_insert_eq|].
    split_and!; try done. cbn. apply (f_equal length) in Hsum. by rewrite !length_fmap in Hsum; rewrite Hsum.
  - exact Hoth.
  - exact Hrows.
Qed.
End ImportData.

(** ** What precedes the snapshot *)

Section Asked.
Context {S C P : Type}.
Abbreviation U := (uworld S C P).

(** Only Pulp and the table of uploads have changed. *)
Definition asked (x x' : U) : Prop :=
  base_same x.(uw_tw) x'.(uw_tw) ∧ x'.(uw_tw).(tw_mem) = x.(uw_tw).(tw_mem) ∧ x'.(uw_tw).(tw_stored) = x.(uw_tw).(tw_stored) ∧
  x'.(uw_content) = x.(uw_content).
#[global] Instance asked_preorder : PreOrder asked.
Proof. split; [done|]. unfold asked, base_same. intros x y z Hxy Hyz. destruct_and!. split_and!; congruence. Qed.

Lemma asked_ask {A} (f : S → (goerr + A) * S) : preserves asked (ask f : M U goerr A).
Proof. by intros fs x r fs' x' (w & (s & _ & ->)%pulp_run & ->)%tw_run. Qed.
Lemma asked_pulp {A} (m : M S goerr A) : preserves asked (tw (pulp m) : M U goerr A).
Proof. by intros fs x r fs' x' (w & (s & _ & ->)%pulp_run & ->)%tw_run. Qed.
Lemma asked_uploads {A} (m : UpM A) : preserves asked (uploads_dao m : M U goerr A).
Proof. by intros fs x r fs' x' (t & _ & ->)%zoom_run. Qed.
Lemma asked_dao {A} (f : db → (goerr + A) * db) : (∀ d, (f d).2 = d) → preserves asked (tw (dao (db_call f)) : M U goerr A).
Proof.
  intros Hf fs x r fs' x' (w & (d & H & ->)%dao_run & ->)%tw_run.
  assert (d = x.(uw_tw).(tw_db)) as -> by (apply call_cases in H as [(e & _ & -> & _)|H]; [done|]; by rewrite <- (Hf (tw_db (uw_tw x))), H).
  by destruct x as [[]].
Qed.
Lemma asked_content {A} (f : store → (string + A) * store) : (∀ d, (f d).2 = d) → preserves asked (content (db_call f) : M U goerr A).
Proof.
  intros Hf fs x r fs' x' H. unfold content in H. destruct (db_call f _) as [r1 [fs1 d]] eqn:Hc. injection H as _ _ <-.
  specialize (Hf x.(uw_content)). unfold db_call in Hc. split; [done|]. split; [done|]. split; [done|]. cbn.
  destruct (option_map Error <$> fs) as [|[e|] l], (f (uw_content x)); simplify_eq/=; done.
Qed.
End Asked.
#[export] Hint Resolve asked_ask asked_pulp asked_uploads : preserves.

Section Steps.
Context {S C P : Type} `{HC : PulpClient S} `{HUp : UploadClient S} `{HU : UuidText}.
Abbreviation U := (uworld S C P).
#[local] Set Default Proof Using "Type*".

Lemma asked_modified msg tr : preserves asked (modified_version msg tr : M U goerr string).
Proof. unfold modified_version. preserves_tac. Qed.
#[local] Hint Resolve asked_modified : preserves.
Lemma asked_modify dom repo add remove m1 m2 : preserves asked (modify_content dom repo add remove m1 m2 : M U goerr string).
Proof. unfold modify_content. preserves_tac. Qed.
End Steps.
#[export] Hint Resolve asked_modify : preserves.

Section AddSteps.
Context {S C : Type} `{HC : PulpClient S} `{HUp : UploadClient S} `{HU : UuidText}.
Context (scan : gmap uuid SnapRow → list (uuid * SnapRow)) (scan_rpms : gmap uuid Rpm → list (uuid * Rpm)).
#[local] Set Default Proof Using "Type*".

Lemma asked_convert_upload dom up : preserves asked (convert_upload dom up : M (uworld S C AddUploadsPayload) goerr _).
Proof. unfold convert_upload. preserves_tac. Qed.
#[local] Hint Resolve asked_convert_upload : preserves.
Lemma asked_convert dom l arts pend : preserves asked (convert_uploads dom l arts pend : M (uworld S C AddUploadsPayload) goerr _).
Proof. revert arts pend. induction l as [|up l IH]; intros arts pend; cbn [convert_uploads]; preserves_tac. Qed.
Lemma asked_one tr : preserves asked (one_created tr : M (uworld S C AddUploadsPayload) goerr _).
Proof. unfold one_created. preserves_tac. Qed.
#[local] Hint Resolve asked_convert asked_one : preserves.
Lemma asked_finish dom pend arts : preserves asked (finish_uploads dom pend arts : M (uworld S C AddUploadsPayload) goerr _).
Proof. revert arts. induction pend as [|[up t] pend IH]; intros arts; cbn [finish_uploads]; preserves_tac. Qed.
Lemma asked_lookup dom arts hrefs pend : preserves asked (lookup_packages dom arts hrefs pend : M (uworld S C AddUploadsPayload) goerr _).
Proof. revert hrefs pend. induction arts as [|a arts IH]; intros hrefs pend; cbn [lookup_packages]; preserves_tac. Qed.
Lemma asked_finish_packages dom pend hrefs : preserves asked (finish_packages dom pend hrefs : M (uworld S C AddUploadsPayload) goerr _).
Proof. revert hrefs. induction pend as [|t pend IH]; intros hrefs; cbn [finish_packages]; preserves_tac. Qed.
#[local] Hint Resolve asked_finish asked_lookup asked_finish_packages : preserves.

Lemma asked_orphaned {P} dom id : preserves asked (tw (GetOrphanedLatestVersion scan dom id) : M (uworld S C P) goerr _).
Proof.
  intros fs x r fs' x'. unfold GetOrphanedLatestVersion. rewrite tw_bind. revert fs x r fs' x'. apply preserves_bind; [apply _|auto with preserves|].
  intros resp. destruct (resp ≫= pr_LatestVersionHref) as [href|]; [|by intros fs x r fs' x' (w & [= <- <- <-] & ->)%tw_run; destruct x as [[]]].
  intros fs x r fs' x'. rewrite tw_bind. revert fs x r fs' x'. apply preserves_bind; [apply _| |].
  - apply asked_dao. intros d. by destruct (pg_uuid id).
  - intros snap fs x r fs' x' (w & [= <- <- <-] & ->)%tw_run. by destruct x as [[]].
Qed.
#[local] Hint Resolve asked_orphaned : preserves.
Lemma asked_uploaded dom repo p : preserves asked (uploaded_version scan dom repo p : M (uworld S C AddUploadsPayload) goerr _).
Proof. unfold uploaded_version, ConvertUploadsToArtifacts, ConvertArtifactsToPackages, AddContentToRepo. preserves_tac. Qed.

Lemma asked_hrefs dom rpms : preserves asked (package_hrefs dom rpms : M (uworld S C BulkRemoveRpmsPayload) goerr _).
Proof. induction rpms as [|[u rpm] rpms IH]; cbn [package_hrefs]; preserves_tac. Qed.
Lemma asked_fetch org id l : preserves asked (fetch_rpms scan_rpms org id l : M (uworld S C BulkRemoveRpmsPayload) goerr _).
Proof.
  unfold fetch_rpms, Rpm_FetchForRepository. preserves_tac; first [apply asked_dao|apply asked_content]; intros d; by repeat case_match.
Qed.
#[local] Hint Resolve asked_hrefs asked_fetch : preserves.
Lemma asked_removed org dom repo p : preserves asked (removeContentFromRepo scan_rpms org dom repo p : M (uworld S C BulkRemoveRpmsPayload) goerr _).
Proof. unfold removeContentFromRepo. preserves_tac. Qed.
End AddSteps.

(** ** The uploads become packages of a version *)

Section Converted.
Context {S C : Type} `{HC : PulpClient S} `{HUp : UploadClient S} `{HL : !PulpLaws S} `{HUL : !UploadLaws S}.
Abbreviation U := (uworld S C AddUploadsPayload).
#[local] Set Default Proof Using "Type*".

Lemma ask_run {A} (f : S → (goerr + A) * S) fs (x : U) a fs' x' :
  ask f (fs, x) = (inr a, (fs', x')) → ∃ s, f x.(uw_tw).(tw_pulp) = (inr a, s) ∧ x'.(uw_tw).(tw_pulp) = s.
Proof. intros (w & (s & H%call_inr & ->)%pulp_run & ->)%tw_run. by exists s. Qed.

(** An artifact has the checksum it is listed with. *)
Definition artifact_ok (a : Artifact) : Prop := artifact_checksum a.(a_Href) = a.(a_Sha256).
Definition pending_ok (p : Upload * string) : Prop := task_kind p.2 = ArtifactTask p.1.(u_Sha256).

Lemma convert_upload_run dom up fs (x : U) r fs' x' :
  convert_upload dom up (fs, x) = (inr r, (fs', x')) →
  match r with
  | Some (inl a) => artifact_ok a ∧ a.(a_Sha256) = up.(u_Sha256)
  | Some (inr p) => pending_ok p ∧ p.1.(u_Sha256) = up.(u_Sha256)
  | None => False
  end.
Proof.
  intros (found & [fs1 x1] & (s1 & Hf & _)%wrap_inr%ask_run & H)%bind_inr. destruct found as [href|].
  { apply ret_inr in H as [<- _]. split; [by eapply artifact_found|done]. }
  cbv zeta in H. set (up' := if _ && _ then _ else _) in H.
  assert (up'.(u_Sha256) = up.(u_Sha256)) as Eu by (subst up'; by destruct (_ && _)).
  apply bind_inr in H as (o & [fs2 x2] & (s2 & Ht & _)%wrap_inr%ask_run & [<- _]%ret_inr).
  destruct (upload_task _ _ _ _ _ _ Ht) as (t & -> & Hk). cbn. split; [|done]. unfold pending_ok. cbn. by rewrite Eu in *.
Qed.

(** The checksums of a list of artifacts and of one of pending uploads. *)
Definition held (arts : list Artifact) (pend : list (Upload * string)) : list string :=
  ((a_Sha256 <$> arts) ++ ((λ p, p.1.(u_Sha256)) <$> pend))%list.

Lemma convert_uploads_run dom l arts pend fs (x : U) arts' pend' fs' x' :
  Forall artifact_ok arts → Forall pending_ok pend →
  convert_uploads dom l arts pend (fs, x) = (inr (arts', pend'), (fs', x')) →
  Forall artifact_ok arts' ∧ Forall pending_ok pend' ∧ (held arts pend ++ (u_Sha256 <$> l))%list ⊆ held arts' pend'.
Proof.
  revert arts pend fs x. induction l as [|up l IH]; intros arts pend fs x Ha Hp H; cbn [convert_uploads] in H.
  { apply ret_inr in H as [[= <- <-] _]. split_and!; [done..|]. by rewrite app_nil_r. }
  apply bind_inr in H as (r & [fs1 x1] & Hr%convert_upload_run & H). destruct r as [[a|p]|]; [| |done]; destruct Hr as [Hok Hsha].
  - apply IH in H as (Ha' & Hp' & Hsub); [|by apply Forall_app_2; [|constructor]|done]. split_and!; [done..|]. etrans; [|exact Hsub].
    unfold held. rewrite fmap_app, fmap_cons. cbn [fmap list_fmap]. rewrite Hsha. set_solver.
  - apply IH in H as (Ha' & Hp' & Hsub); [|done|by apply Forall_app_2; [|constructor]]. split_and!; [done..|]. etrans; [|exact Hsub].
    unfold held. rewrite fmap_app, fmap_cons. cbn [fmap list_fmap]. rewrite Hsha. set_solver.
Qed.

Lemma one_created_run tr fs (x : U) h fs' x' : one_created tr (fs, x) = (inr h, (fs', x')) → h ∈ tr.(t_CreatedResources) ∧ x' = x.
Proof. unfold one_created. destruct (t_CreatedResources tr) as [|r [|? ?]]; try done. intros [<- [= _ <-]]%ret_inr. split; [by left|done]. Qed.

Context `{HU : UuidText}.
Lemma finish_uploads_run dom pend arts fs (x : U) arts' fs' x' :
  Forall artifact_ok arts → Forall pending_ok pend → finish_uploads dom pend arts (fs, x) = (inr arts', (fs', x')) →
  Forall artifact_ok arts' ∧ held arts pend ⊆ a_Sha256 <$> arts'.
Proof.
  revert arts fs x. induction pend as [|[up t] pend IH]; intros arts fs x Ha Hp H; cbn [finish_uploads] in H.
  { apply ret_inr in H as [<- _]. split; [done|]. unfold held. by rewrite app_nil_r. }
  apply Forall_cons in Hp as [Hk Hp]. apply bind_inr in H as ([e|tr] & [fs1 x1] & Hr%try_run & H).
  { by apply bind_inr in H as (? & ? & ? & H). }
  apply ask_run in Hr as (s & Hr & _). apply bind_inr in H as (h & [fs2 x2] & [Hh ->]%one_created_run & H).
  apply IH in H as [Ha' Hsub]; [split; [done|]| |done].
  - etrans; [|exact Hsub]. unfold held. rewrite fmap_app, fmap_cons. cbn. set_solver.
  - apply Forall_app_2; [done|]. constructor; [|constructor]. by eapply artifact_made.
Qed.

(** The checksums of packages, and of packages to be made. *)
Definition packaged (sha : string) (hrefs pend : list string) : Prop :=
  sha ∈ package_checksum <$> hrefs ∨ ∃ t a, t ∈ pend ∧ task_kind t = PackageTask a ∧ artifact_checksum a = sha.

Lemma lookup_packages_run dom arts hrefs pend fs (x : U) hrefs' pend' fs' x' :
  Forall artifact_ok arts → lookup_packages dom arts hrefs pend (fs, x) = (inr (hrefs', pend'), (fs', x')) →
  (∀ t, t ∈ pend → ∃ a, task_kind t = PackageTask a) → (∀ t, t ∈ pend' → ∃ a, task_kind t = PackageTask a) ∧
  ∀ sha, packaged sha hrefs pend ∨ sha ∈ a_Sha256 <$> arts → packaged sha hrefs' pend'.
Proof.
  revert hrefs pend fs x. induction arts as [|a arts IH]; intros hrefs pend fs x Ha H Hp; cbn [lookup_packages] in H.
  { apply ret_inr in H as [[= <- <-] _]. split; [done|]. by intros sha [?|?%not_elem_of_nil]. }
  apply Forall_cons in Ha as [Hok Ha]. apply bind_inr in H as (pkg & [fs1 x1] & (s & Hf & _)%wrap_inr%ask_run & H). destruct pkg as [h|].
  - apply IH in H as [Hp' Hall]; [|done..]. split; [done|]. intros sha Hs. apply Hall. apply package_found in Hf.
    unfold packaged in *. rewrite fmap_app. set_solver.
  - apply bind_inr in H as (t & [fs2 x2] & (s2 & Ht%package_task & _)%wrap_inr%ask_run & H).
    apply IH in H as [Hp' Hall]; [|done|intros t' [? | ->%list_elem_of_singleton]%elem_of_app; eauto]. split; [done|].
    intros sha Hs. apply Hall. rewrite fmap_cons, elem_of_cons in Hs. destruct Hs as [[Hs|(t' & a' & Hin & Hk & Hc)]|[->|Hs]]; [by left; left| | |by right].
    + left. right. exists t', a'. split; [by apply elem_of_app; left|done].
    + left. right. exists t, a.(a_Href). split_and!; [apply elem_of_app; right; by apply list_elem_of_singleton|done..].
Qed.

Lemma finish_packages_run dom pend hrefs fs (x : U) hrefs' fs' x' :
  finish_packages dom pend hrefs (fs, x) = (inr hrefs', (fs', x')) → ∀ sha, packaged sha hrefs pend → sha ∈ package_checksum <$> hrefs'.
Proof.
  revert hrefs fs x. induction pend as [|t pend IH]; intros hrefs fs x H sha; cbn [finish_packages] in H.
  { apply ret_inr in H as [<- _]. by intros [?|(t & a & ?%not_elem_of_nil & _)]. }
  apply bind_inr in H as (tr & [fs1 x1] & (s & Hr & _)%wrap_inr%ask_run & H). apply bind_inr in H as (h & [fs2 x2] & [Hh ->]%one_created_run & H).
  intros Hs. apply (IH _ _ _ H). unfold packaged in *. rewrite fmap_app. destruct Hs as [Hs|(t' & a & [->|Hin]%elem_of_cons & Hk & <-)].
  - left. by apply elem_of_app; left.
  - left. apply elem_of_app. right. apply list_elem_of_singleton. symmetry. by eapply package_made.
  - right. by exists t', a.
Qed.

(** The files of a request. *)
Definition files (p : AddUploadsPayload) : list string :=
  ((a_Sha256 <$> p.(ap_Request).(ar_Artifacts)) ++ (u_Sha256 <$> p.(ap_Request).(ar_Uploads)))%list.
Definition holds (v : string) (shas : list string) : Prop := ∀ sha, sha ∈ shas → Some sha ∈ pk_Sha256 <$> version_packages v.

Context `{HUu : !UuidLaws} (scan : gmap uuid SnapRow → list (uuid * SnapRow)).
Hypothesis scan_perm : ∀ m, scan m ≡ₚ map_to_list m.

(** A version that was made has the packages; otherwise the latest version has them. *)
Lemma modify_run dom repo add looking many fs (x : U) v fs' x' :
  tasks_complete S → modify_content dom repo add [] looking many (fs, x) = (inr v, (fs', x')) →
  if decide (v = "")
  then ∀ pr s v', GetRpmRepositoryByName dom (uuid_String repo.(p_UUID)) x'.(uw_tw).(tw_pulp) = (inr (Some pr), s) →
         pr.(pr_LatestVersionHref) = Some v' → holds v' (package_checksum <$> add)
  else holds v (package_checksum <$> add).
Proof.
  intros Hdone (o & [fs1 x1] & (s1 & Hg & E1)%wrap_inr%ask_run & H)%bind_inr. apply bind_inr in H as (href & w2 & [Ho ->]%deref_inr & H).
  apply bind_inr in H as (t & [fs3 x3] & (s3 & Hm & E3)%wrap_inr%ask_run & H).
  apply bind_inr in H as (tr & [fs4 x4] & (s4 & Hp & E4)%wrap_inr%ask_run & H). rewrite E1 in Hm. rewrite E3 in Hp.
  destruct o as [pr|]; [|done]. pose proof (content_added _ _ _ _ _ _ _ _ _ _ _ _ Hg Ho Hm Hp (Hdone _ _ _ _ _ Hp)) as Hc.
  assert (∀ v', (∀ h, h ∈ add → Some (package_checksum h) ∈ pk_Sha256 <$> version_packages v') → holds v' (package_checksum <$> add)) as Hh.
  { intros v' Hv' sha (h & -> & Hin)%list_elem_of_fmap. by apply Hv'. }
  unfold modified_version in H. destruct (t_CreatedResources tr) as [|r l].
  - apply ret_inr in H as [<- [= _ <-]]. rewrite decide_True by done. rewrite E4. intros pr' s v' H1 H2. apply Hh. by eapply Hc.
  - destruct (2 <? length (r :: l))%nat; [done|]. apply ret_inr in H as [<- _]. destruct Hc as [Hne Hc]. rewrite decide_False by done. by apply Hh.
Qed.

(** A version without a snapshot, or none if there is no version, or one with a snapshot. *)
Definition snapshotted (d : db) (rc : uuid) (v : string) : Prop :=
  ∃ u s, d.(snapshots) !! u = Some s ∧ s.(s_RepositoryConfigurationUUID) = rc ∧ s.(s_VersionHref) = v ∧ is_live s = true.

Lemma orphaned_run dom rc fs (x : U) o fs' x' :
  tw (GetOrphanedLatestVersion scan dom (uuid_String rc)) (fs, x) = (inr o, (fs', x')) →
  ∃ pr s, GetRpmRepositoryByName dom (uuid_String rc) x.(uw_tw).(tw_pulp) = (inr pr, s) ∧
    match o with
    | Some v => pr ≫= pr_LatestVersionHref = Some v
    | None => ∀ v, pr ≫= pr_LatestVersionHref = Some v → snapshotted x.(uw_tw).(tw_db) rc v
    end.
Proof.
  intros (w & (pr & [fs1 w1] & (s & Hg%call_inr & ->)%pulp_run & H)%bind_inr & ->)%tw_run. exists pr, s. split; [done|].
  destruct (pr ≫= pr_LatestVersionHref) as [v|]; [|by apply ret_inr in H as [<- _]].
  apply bind_inr in H as (snap & [fs2 w2] & (d & Hs%call_inr & ->)%dao_run & [<- _]%ret_inr). rewrite pg_String in Hs. cbv zeta in Hs.
  destruct (best _ _) as [us|] eqn:Hb; cbn in Hs; injection Hs as <- <-; [|done]. intros v' [= <-].
  apply best_in in Hb. apply list_elem_of_filter in Hb as [(Hrc & Hv & Hl) Hin]. rewrite scan_perm in Hin. destruct us as [u sn].
  apply elem_of_map_to_list in Hin. exists u, sn. split_and!; try done. unfold is_live. cbn in Hl. by rewrite Hl.
Qed.

Lemma uploaded_run dom repo p fs (x : U) o fs' x' :
  tasks_complete S → Forall artifact_ok p.(ap_Request).(ar_Artifacts) → p.(ap_Request).(ar_RepositoryConfigUUID) = uuid_String repo.(p_UUID) →
  uploaded_version scan dom repo p (fs, x) = (inr o, (fs', x')) →
  match o with
  | Some v => holds v (files p)
  | None => ∃ pr s s', GetRpmRepositoryByName dom (uuid_String repo.(p_UUID)) s = (inr pr, s') ∧
              ∀ pr' v, pr = Some pr' → pr'.(pr_LatestVersionHref) = Some v → holds v (files p) ∧ snapshotted x.(uw_tw).(tw_db) repo.(p_UUID) v
  end.
Proof.
  intros Hdone Hok Hrc (arts & [fs1 x1] & Ha%wrap_inr & H)%bind_inr. apply bind_inr in H as (hrefs & [fs2 x2] & Hh%wrap_inr & H).
  apply bind_inr in H as (v & [fs3 x3] & Hm & H).
  assert (x3.(uw_tw).(tw_db) = x.(uw_tw).(tw_db)) as Edb.
  { assert (asked x x3) as [(? & _) _]; [|done]. transitivity x1; [|transitivity x2].
    - eapply (preserves_bind asked); [| |exact Ha]; [apply asked_convert|intros [? ?]; apply asked_finish].
    - eapply (preserves_bind asked); [| |exact Hh]; [apply asked_lookup|intros [? ?]; apply asked_finish_packages].
    - eapply asked_modify, Hm. }
  assert (∀ v', holds v' (package_checksum <$> hrefs) → holds v' (files p)) as Hfiles.
  { intros v' Hv' sha Hs. apply Hv'.
    apply bind_inr in Ha as ([arts1 pend1] & [fs4 x4] & Hc & Ha). apply convert_uploads_run in Hc as (Ha1 & Hp1 & Hsub); [|done|constructor].
    apply finish_uploads_run in Ha as [Ha2 Hsub2]; [|done..].
    apply bind_inr in Hh as ([hrefs1 pend2] & [fs5 x5] & Hl & Hh). apply lookup_packages_run in Hl as [_ Hl]; [|done|by intros t ?%not_elem_of_nil].
    apply (finish_packages_run _ _ _ _ _ _ _ _ Hh), Hl. right. apply Hsub2, Hsub. unfold held. cbn. by rewrite app_nil_r. }
  apply modify_run in Hm; [|done]. case_bool_decide as Hv; [subst v; rewrite decide_True in Hm by done|rewrite decide_False in Hm by done].
  - rewrite Hrc in H. apply wrap_inr, orphaned_run in H as (pr & s & Hg & Ho). destruct o as [v|].
    + destruct pr as [pr|]; [|done]. apply Hfiles. by eapply Hm.
    + exists pr, x3.(uw_tw).(tw_pulp), s. split; [done|]. intros pr' v -> Hl. split; [apply Hfiles; by eapply Hm|]. rewrite <- Edb. by apply Ho.
  - apply ret_inr in H as [<- _]. by apply Hfiles.
Qed.
End Converted.

(** ** Both tasks *)

Section Tasks.
Context {S C R : Type} `{HC : PulpClient S} `{HUp : UploadClient S} `{HL : !PulpLaws S} `{HUL : !UploadLaws S} `{HU : UuidText} `{HUu : !UuidLaws}.
Context (guards : bool) (scan : gmap uuid SnapRow → list (uuid * SnapRow)).
Context (Tang : option Tangy) (rpm_Version : string → string) (rpm_LessThan : string → string → bool).
Context (fuel lim : nat) (ids : nat → uuid).
Abbreviation U := (uworld S C (UploadPayload R)).
#[local] Set Default Proof Using "Type*".

(** A publication is saved with its version. *)
Definition payload_ok (p : UploadPayload R) : Prop :=
  ∀ t, p.(ap_PublicationTaskHref) = Some t → ∃ v, p.(ap_VersionHref) = Some v ∧ task_kind t = PublicationTask v.

(** The requests for packages leave a snapshot that was taken as it is. *)
Lemma snapshot_taken_pulp now ident u dom repo v (w w1 : tworld S C (UploadPayload R)) s :
  dists s = dists w1.(tw_pulp) → snapshot_taken guards now ident u dom repo v w w1 → snapshot_taken guards now ident u dom repo v w (set_pulp s w1).
Proof. unfold snapshot_taken, serves. intros Hs H. cbn. by rewrite Hs. Qed.

(** What a task that succeeds has done for a version. *)
Definition version_recorded (now now' : time) (ident u : uuid) (dom : string) (repo : RepoResponse) (v : string) (x x' : U) : Prop :=
  snapshot_taken guards now ident u dom repo v x.(uw_tw) x'.(uw_tw) ∧
  content_imported now' repo.(p_RepositoryUUID) v x.(uw_content) x'.(uw_content).

Lemma snapshot_version_run now now' ident u dom repo v fs (x : U) fs' x' :
  tasks_complete S → resumes v x.(uw_tw).(tw_mem) → uuid_String ident ≠ "" → uuid_String u ≠ "" → (0 < lim)%nat → rpms_ok x.(uw_content) →
  snapshot_version guards scan Tang rpm_Version rpm_LessThan fuel lim ids now now' ident u dom repo v (fs, x) = (inr (), (fs', x')) →
  version_recorded now now' ident u dom repo v x x'.
Proof.
  intros Hdone Hres Hi Hu Hlim Hok H. apply bind_inr in H as ([e|[]] & [fs1 x1] & Hr%try_run & H).
  { by apply bind_inr in H as (? & ? & ? & H). }
  apply ret_inr in H as [_ [= -> ->]]. apply bind_inr in Hr as ([] & [fs2 x2] & (w & Hh & ->)%tw_run & Himp%wrap_inr).
  apply helper_run in Hh; [|done..]. apply import_run in Himp as (Hc & s & Hw & Hs); [|done..].
  split; [|done]. rewrite Hw. by apply snapshot_taken_pulp.
Qed.

Lemma save_version_run v fs (x : U) fs' x' :
  save_version v (fs, x) = (inr (), (fs', x')) →
  base_same x.(uw_tw) x'.(uw_tw) ∧ x'.(uw_tw).(tw_mem) = set_VersionHref v x.(uw_tw).(tw_mem) ∧ x'.(uw_content) = x.(uw_content).
Proof. intros (w & Hs & ->)%wrap_inr%tw_run. apply save_run in Hs as (? & _ & ? & _). done. Qed.

(** A version that was just made has no publication yet. *)
Lemma resumes_new v p : payload_ok p → p.(ap_VersionHref) = None → resumes v (set_VersionHref v p).
Proof. intros Hok Hv t Ht. destruct (Hok t Ht) as (v' & Hv' & _). by rewrite Hv in Hv'. Qed.
Lemma resumes_old v p : payload_ok p → p.(ap_VersionHref) = Some v → resumes v p.
Proof. intros Hok Hv t Ht. destruct (Hok t Ht) as (v' & Hv' & Hk). by simplify_eq. Qed.
End Tasks.

Section Complete.
Context {S C : Type} `{HC : PulpClient S} `{HUp : UploadClient S} `{HL : !PulpLaws S} `{HUL : !UploadLaws S} `{HU : UuidText} `{HUu : !UuidLaws}.
Context (guards : bool) (scan : gmap uuid SnapRow → list (uuid * SnapRow)) (scan_rpms : gmap uuid Rpm → list (uuid * Rpm)).
Context (Tang : option Tangy) (rpm_Version : string → string) (rpm_LessThan : string → string → bool).
Context (fuel lim : nat) (ids : nat → uuid).
Hypothesis scan_perm : ∀ m, scan m ≡ₚ map_to_list m.
#[local] Set Default Proof Using "Type*".

(** What an earlier attempt on the request saved: a version it saved has the files of the request. *)
Definition uploads_ok (p : AddUploadsPayload) : Prop :=
  payload_ok p ∧ ∀ v, p.(ap_VersionHref) = Some v → holds v (files p).


(** The packages are out: the same of the task that removes them, which always records a version. *)
Theorem BulkRemoveRpms_complete now now' ident u org dom repo fs (x : uworld S C BulkRemoveRpmsPayload) fs' x' :
  tasks_complete S → payload_ok x.(uw_tw).(tw_mem) → uuid_String ident ≠ "" → uuid_String u ≠ "" → (0 < lim)%nat → rpms_ok x.(uw_content) →
  BulkRemoveRpms_Run guards scan Tang rpm_Version rpm_LessThan fuel lim ids scan_rpms now now' ident u org dom repo (fs, x) = (inr (), (fs', x')) →
  ∃ v x1, (x.(uw_tw).(tw_mem).(ap_VersionHref) = Some v ∨ x.(uw_tw).(tw_mem).(ap_VersionHref) = None) ∧
    base_same x.(uw_tw) x1.(uw_tw) ∧ x1.(uw_content) = x.(uw_content) ∧ x1.(uw_tw).(tw_mem).(ap_VersionHref) = Some v ∧
    version_recorded guards now now' ident u dom repo v x1 x'.
Proof.
  intros Hdone Hp Hi Hu Hlim Hok H. apply bind_inr in H as (p & [fs0 x0] & (w & (-> & -> & ->)%get_mem_run & ->)%tw_run & H).
  replace (set_tw (uw_tw x) x) with x in H by (by destruct x).
  apply bind_inr in H as (v & [fs1 x1] & Hv & H). exists v.
  destruct (ap_VersionHref (tw_mem (uw_tw x))) as [v0|] eqn:Ev.
  - apply ret_inr in Hv as [<- [= <- <-]]. exists x. split_and!; [by left|done..|].
    eapply snapshot_version_run; [done|by apply resumes_old|done..].
  - apply bind_inr in Hv as (v' & [fs2 x2] & Ha%asked_removed & Hv).
    apply bind_inr in Hv as ([] & [fs3 x3] & (Hb & Hm & Hc)%save_version_run & [<- [= <- <-]]%ret_inr). exists x3.
    destruct Ha as (Hba & Hma & _ & Hca). rewrite Hma in Hm. rewrite Hca in Hc.
    split_and!; [by right|by eapply base_trans|done|by rewrite Hm|].
    eapply snapshot_version_run; [done|rewrite Hm; by apply resumes_new|done..|by rewrite Hc|done].
Qed.
End Complete.

(** ** An upload is taken up again *)

Definition with_chunks (r : UploadRow) (l : list string) : UploadRow :=
  mk_UploadRow r.(up_CreatedAt) r.(up_OrgID) r.(up_ChunkSize) r.(up_Size) r.(up_Sha256) l.
(** The chunks, each once, in the order in which they came first. *)
Definition chunks_of : list string → list string := foldl (λ l c, if contains l c then l else (l ++ [c])%list) [].

Lemma chunks_of_spec l : NoDup (chunks_of l) ∧ ∀ c, c ∈ chunks_of l ↔ c ∈ l.
Proof.
  induction l as [|c l [IH1 IH2]] using rev_ind; [split; [apply NoDup_nil_2|done]|]. unfold chunks_of in *. rewrite foldl_app. cbn.
  destruct (contains _ c) eqn:Hc; [apply contains_true in Hc|apply contains_false in Hc].
  - split; [done|]. intros c'. rewrite IH2. rewrite IH2 in Hc. set_solver.
  - split; [|set_solver]. apply NoDup_app. split_and!; [done|set_solver|apply NoDup_singleton].
Qed.

Lemma chunks_run org k r chunks t : r.(up_OrgID) = org → t !! k = Some (with_chunks r (chunks_of [])) →
  iter (StoreChunkUpload org k) chunks ([], t) = (inr (), ([], <[k := with_chunks r (chunks_of chunks)]> t)).
Proof.
  intros Horg. change (chunks_of chunks) with (foldl (λ l c, if contains l c then l else (l ++ [c])%list) (chunks_of []) chunks).
  generalize (chunks_of []) as acc. revert t. induction chunks as [|c chunks IH]; intros t acc Ht; cbn [iter foldl].
  { by rewrite insert_id. }
  erewrite bind_eq; [|done]. rewrite (IH _ (if contains acc c then acc else (acc ++ [c])%list)).
  - f_equal. f_equal. apply map_eq. intros i. destruct (decide (i = k)) as [->|Hi]; [by rewrite !lookup_insert_eq|].
    by rewrite !lookup_insert_ne, lookup_alter_ne.
  - rewrite lookup_alter_eq, Ht. cbn. unfold add_chunk, with_chunks. cbn. rewrite bool_decide_true by done. unfold contains. by destruct (existsb _ acc).
Qed.

Section Resume.
Context (text_lt : string → string → bool).
Context (lt_irrefl : ∀ a, text_lt a a = false) (lt_trans : ∀ a b c, text_lt a b = true → text_lt b c = true → text_lt a c = true).
#[local] Set Default Proof Using "Type*".

Lemma upload_newer_irrefl (x : string * UploadRow) : upload_newer text_lt x x = false.
Proof. unfold upload_newer. by rewrite Z.ltb_irrefl, Z.eqb_refl, lt_irrefl. Qed.
Lemma upload_newer_trans (x y z : string * UploadRow) : upload_newer text_lt x y = true → upload_newer text_lt y z = true → upload_newer text_lt x z = true.
Proof.
  unfold upload_newer. rewrite !orb_true_iff, !andb_true_iff, !Z.ltb_lt, !Z.eqb_eq.
  intros [H|[H1 H2]] [H'|[H1' H2']]; [left; lia|left; lia|left; lia|right]. split; [lia|by eapply lt_trans].
Qed.

(** The row that is strictly the newest is the one that is found. *)
Lemma best_newest (l : list (string * UploadRow)) k r :
  (k, r) ∈ l → (∀ y, y ∈ l → y = (k, r) ∨ (y.2.(up_CreatedAt) < r.(up_CreatedAt))%Z) → best (upload_newer text_lt) l = Some (k, r).
Proof.
  intros Hin Hall. destruct (best_defined _ upload_newer_irrefl upload_newer_trans l _ Hin) as [x Hx]. rewrite Hx.
  apply (best_some _ upload_newer_irrefl upload_newer_trans) in Hx as [Hxl Hmax]. destruct (Hall x Hxl) as [->|Hlt]; [done|].
  specialize (Hmax _ Hin). unfold upload_newer in Hmax. apply orb_false_iff in Hmax as [Hmax%Z.ltb_ge _]. simpl in Hmax. lia.
Qed.

(** An upload that was begun is found again, with the chunks that arrived, each once: the client sends only the others. A
    begun upload of the same file that is older does not matter, and other rows are as before. *)
Theorem upload_resumed now org k sha chunkSize size chunks t :
  Upload_validate k (mk_UploadRow now org chunkSize size sha []) = None → t !! k = None →
  (∀ k' r, t !! k' = Some r → same_upload org sha chunkSize size r = true → (r.(up_CreatedAt) < now)%Z) →
  ∃ l t', (_ ← StoreFileUpload now org k sha chunkSize size; _ ← iter (StoreChunkUpload org k) chunks;
           GetExistingUploadIDAndCompletedChunks text_lt org sha chunkSize size) ([], t) = (inr (k, l), ([], t')) ∧
    NoDup l ∧ (∀ c, c ∈ l ↔ c ∈ chunks) ∧ delete k t' = t.
Proof.
  intros Hval Hk Hold. set (r := mk_UploadRow now org chunkSize size sha []).
  exists (chunks_of chunks), (<[k := with_chunks r (chunks_of chunks)]> t).
  split_and!; [|apply chunks_of_spec..|by rewrite delete_insert_eq, delete_id].
  erewrite bind_eq; [|by unfold StoreFileUpload; rewrite Hval; cbn; rewrite Hk].
  erewrite bind_eq; [|apply (chunks_run org k r); [done|by rewrite lookup_insert_eq]]. rewrite insert_insert_eq.
  unfold GetExistingUploadIDAndCompletedChunks. cbn. rewrite (best_newest _ k (with_chunks r (chunks_of chunks))); [done| |].
  - rewrite list_elem_of_filter, elem_of_map_to_list, lookup_insert_eq. split; [|done]. cbn. unfold same_upload. cbn. by rewrite !bool_decide_true.
  - intros [k' r'] [Hs Hin%elem_of_map_to_list]%list_elem_of_filter. destruct (decide (k' = k)) as [->|Hne].
    + rewrite lookup_insert_eq in Hin. left. by simplify_eq.
    + rewrite lookup_insert_ne in Hin by done. right. by eapply Hold.
Qed.
End Resume.

Lemma upload_resumed_witness :
  let old := mk_UploadRow 1 "org" 5 10 "sum" ["c9"] in
  ∃ l t', (_ ← StoreFileUpload 7 "org" "new" "sum" 5 10; _ ← iter (StoreChunkUpload "org" "new") ["c1"; "c2"; "c1"];
           GetExistingUploadIDAndCompletedChunks (λ a b, (String.length a <? String.length b)%nat) "org" "sum" 5 10) ([], {["old" := old]}) = (inr ("new", l), ([], t')) ∧
    NoDup l ∧ (∀ c, c ∈ l ↔ c ∈ ["c1"; "c2"; "c1"]) ∧ delete "new" t' = {["old" := old]}.
Proof.
  intros old. apply upload_resumed; [| |done|done|].
  - intros a. apply Nat.ltb_irrefl.
  - intros a b c. rewrite !Nat.ltb_lt. lia.
  - intros k' r [<- <-]%lookup_singleton_Some _. by vm_compute.
Defined.

(** ** A run: a file is uploaded, and the version it makes has more than one page of packages *)

Module UpEx.
#[local] Existing Instances Ex.uuid_text Ex.uuid_laws.
Definition pkg (name sum : string) : RpmPackage := mk_RpmPackage (Some name) (Some "x86_64") (Some "1.0") (Some "1") (Some "0") (Some sum) (Some "summary").
(** A version has the packages it is named by. *)
Definition packages (v : string) : list RpmPackage := (λ h, pkg "name" (mem_package_checksum h)) <$> mem_contents v.

#[export] Instance mem_uploads : UploadClient mem := {
  LookupArtifact dom sha256 s := (inr None, s);
  FinishUpload dom href sha256 s := (inr (Some (mem_artifact_task sha256)), s);
  LookupPackage dom sha256 s := (inr (if sha256 == "aa" then Some (mem_package_href sha256) else None), s);
  CreatePackage dom artifact s := (inr (mem_package_task artifact), s);
  ListVersionPackages dom v off lim s := (inr (take lim (drop off (packages v)), length (packages v)), s) }.

Lemma mem_kind_artifact sha : mem_kind (mem_artifact_task sha) = ArtifactTask sha.
Proof. unfold mem_kind, mem_artifact_task. rewrite !bool_decide_false by done. simpl has_prefix at 1. by rewrite has_prefix_own, str_drop_app. Qed.
Lemma mem_kind_package a : mem_kind (mem_package_task a) = PackageTask a.
Proof.
  unfold mem_kind, mem_package_task. rewrite !bool_decide_false by done. simpl has_prefix at 1. simpl has_prefix at 1. by rewrite has_prefix_own, str_drop_app.
Qed.

#[export] Instance mem_upload_laws : UploadLaws mem.
Proof.
  refine {| version_packages := packages; artifact_checksum := mem_artifact_checksum; package_checksum := mem_package_checksum |}.
  - by intros dom v off lim s l n s' [= <- <- _].
  - done.
  - done.
  - intros dom href sha s o s' [= <- _]. eexists. split; [done|apply mem_kind_artifact].
  - intros dom t sha s tr s' h Hk [= <- _]. cbn [task_kind mem_laws] in Hk. unfold mem_answer. cbn. rewrite Hk. intros ->%list_elem_of_singleton.
    apply (str_drop_app mem_artifact_root).
  - intros dom sha s h s'. cbn. case_bool_decide; [|done]. intros [= <- _]. apply (str_drop_app mem_package_root).
  - intros dom a s t s' [= <- _]. apply mem_kind_package.
  - intros dom t a s tr s' h Hk [= <- _]. cbn [task_kind mem_laws] in Hk. unfold mem_answer. cbn. rewrite Hk. intros ->%list_elem_of_singleton.
    apply (str_drop_app mem_package_root).
  - intros dom name pr href add remove s0 s t s1 tr s2 _ _ [= <- <-] [= <- <-] _. cbn. rewrite lookup_insert_eq. cbn. split; [done|].
    intros h Hh. unfold packages. rewrite mem_contents_version. apply list_elem_of_fmap. eexists. split; [|apply list_elem_of_fmap; eexists; split; [done|]].
    + done.
    + apply elem_of_app. by left.
Defined.

Definition request : AddUploadsRequest := mk_AddUploadsRequest (Ex.text 1) [mk_Artifact (mem_artifact_href "aa") "aa"] [mk_Upload "u" "" "dd"].
Definition start : AddUploadsPayload := mk_UploadPayload request None None None None None.
(** The repository has more packages than a page. *)
Definition version : string := mem_version_href (repeat (mem_package_href "ee") 300).
Definition s : mem := mk_mem ∅ ∅ {[ ("cs", Ex.text 1) := Some version ]} [] ∅.
Definition x : uworld mem () AddUploadsPayload :=
  mk_uw (mk_tw Ex.d {["org" := "cs"]} [] s () start start)
    (mk_store {[ 11%N := mk_Repository "" OriginUpload "Pending" None None None None "" 0 0 0 3 false ]} (mk_table ∅ ∅) (mk_table ∅ ∅) (mk_table ∅ ∅) (mk_table ∅ ∅)) ∅.
Definition run := AddUploads_Run true map_to_list None id (λ _ _, false) 1 100 ex_ids 0 5 33 77 "cs" SnapEx.repo ([], x).
End UpEx.
#[local] Existing Instances Ex.uuid_text Ex.uuid_laws UpEx.mem_uploads UpEx.mem_upload_laws.

Lemma UpEx_ok : rpms_ok UpEx.x.(uw_content).
Proof. split; [done|]. intros repo u H. by apply elem_of_empty in H. Qed.

