(* ===== verification/UpdateRepoTask.v ===== *)
(** * tasks/update_repository.go

    When a repository changes, its content in Candlepin is updated, and so are its overrides in the environments of the
    templates of the organization that have it. The theorem says which overrides these environments have afterwards. *)

From S2P Require Import Prelude GoStrings GoSplit Config TxMonad Utils Models Errors DaoHelpers GoText SnapshotDao SnapshotThms TemplateDao TemplateThms SnapshotHandler SnapshotHandlerThms RepoConfigDao Pulp Distribution TaskEnv PublishTask DeleteTask DeleteTaskThms Candlepin TemplateTask TemplateCandlepin.
From stdpp Require Import options.

Open Scope string_scope.

(** ** candlepin_client/environment.go *)

(** The overrides with a label; [None] is the dereference of a nil pointer. *)
Fixpoint overrides_with (label : string) (overrides : list ContentOverrideDTO) : option (list ContentOverrideDTO) :=
  match overrides with
  | [] => Some []
  | o :: overrides' =>
      l ← o.(ov_ContentLabel);
      rest ← overrides_with label overrides';
      Some (if l == label then o :: rest else rest)
  end.

Section Task.
Context {S C P : Type} `{HC : PulpClient S} `{HK : CandlepinApi C} `{HU : UuidText}.
Context (DevelOrg : bool) (externalURL fullRootPath : string).
Context (scan_templates : gmap uuid TemplateRow → list (uuid * TemplateRow)).
Context (scan_trcs : gmap (uuid * uuid) TrcRow → list (uuid * uuid * TrcRow)).
Context (sql_like : string → string → bool) (sql_order : string → list (uuid * TemplateRow) → list (uuid * TemplateRow)).
Context (snapshots_enabled : bool) (content_path : goerr + string) (SnapshotRetainDaysLimit : Z).
Context (tasks : gmap uuid TaskView) (CandlepinConfigured : bool).
Context (url_Path : string → goerr + string) (JoinPath : string → list string → goerr + string).
Abbreviation TM := (M (tworld S C P) goerr).

(** The identifier of an environment is given as that of the template; dashes are removed again. *)
Definition FetchContentOverridesForRepo (templateUUID label : string) : TM (list ContentOverrideDTO) :=
  overrides ← cp (FetchContentOverrides (GetEnvironmentID templateUUID));
  deref (overrides_with label overrides).

Definition UpdateCPContent (orgID : string) (repo : RepoResponse) : TM () :=
  wrap "could not update repository for gpg key update"
    (cp (UpdateContent DevelOrg orgID (uuid_String repo.(p_UUID)) (GenContentDto externalURL fullRootPath repo))).

(** One template. *)
Definition update_overrides (dom : string) (repo : RepoResponse) (template : TemplateResponse) : TM () :=
  existingOverrides ← wrap "could not list content for template & repo config" (FetchContentOverridesForRepo template.(tr_UUID) repo.(p_Label));
  path ← lift content_path;
  expected ← wrap "could not generate overrides" (lift (ContentOverridesForRepo url_Path JoinPath dom template.(tr_UUID) path repo));
  unneeded ← deref (UnneededOverrides existingOverrides expected);
  _ ← (match unneeded with [] => mret () | _ => wrap "could not remove overrides" (cp (RemoveContentOverrides (GetEnvironmentID template.(tr_UUID)) unneeded)) end);
  match expected with [] => mret () | _ => wrap "could not update overrides" (cp (UpdateContentOverrides (GetEnvironmentID template.(tr_UUID)) expected)) end.

Definition listed_templates (now : time) (orgID : string) (repo : RepoResponse) : DB (list TemplateResponse * Z) :=
  Template_List scan_templates scan_trcs sql_like sql_order snapshots_enabled content_path SnapshotRetainDaysLimit
    now orgID false (-1) 0 "" (mk_TemplateFilterData "" "" "" "" "" false "" [uuid_String repo.(p_UUID)] [] false).

Definition UpdateRepository_UpdateContentOverrides (now : time) (orgID dom : string) (repo : RepoResponse) : TM () :=
  '(templates, _) ← wrap "could not list templates for repo config" (dao (listed_templates now orgID repo));
  iter (update_overrides dom repo) templates.

Definition UpdateRepository_Run (now : time) (orgID dom : string) (repo : RepoResponse) : TM () :=
  content ← cp (FetchContent DevelOrg orgID (uuid_String repo.(p_UUID)));
  match content with
  | None => mret ()
  | Some _ =>
      _ ← wrap "could not udpate GPG Key" (UpdateCPContent orgID repo);
      wrap "could not update environment overrides" (UpdateRepository_UpdateContentOverrides now orgID dom repo)
  end.

Definition UpdateRepositoryHandler (now : time) (orgID repoConfigUUID : string) : TM () :=
  if negb CandlepinConfigured then mret ()
  else
    domainName ← domain_dao (Domain_Fetch orgID);
    repo ← wrap "could not fetch repository config" (dao (RepoConfig_Fetch tasks snapshots_enabled content_path orgID repoConfigUUID));
    UpdateRepository_Run now orgID domainName repo.
End Task.

(** ** What the task relies on: overrides of one environment are not those of another *)

Class OverrideFrame (C : Type) `{CandlepinLaws C} := {
  put_elsewhere id id' l c : id' ≠ id → env_overrides (PutEnvironmentContentOverrides id l c).2 id' = env_overrides c id';
  delete_elsewhere id id' l c : id' ≠ id → env_overrides (DeleteEnvironmentContentOverrides id l c).2 id' = env_overrides c id'
}.

#[global] Instance cpmem_frame : OverrideFrame cpmem.
Proof.
  split; intros id id' l c Hne; cbn; unfold cm_change, cm_overrides; destruct (c.(cm_envs) !! id); cbn; try done; by rewrite lookup_insert_ne.
Qed.

(** ** The overrides *)

Lemma overrides_with_elem label l l' : overrides_with label l = Some l' → ∀ o, o ∈ l' ↔ o ∈ l ∧ o.(ov_ContentLabel) = Some label.
Proof.
  revert l'. induction l as [|x l IH]; intros l' H o; cbn in H; [simplify_eq; set_solver|].
  destruct (ov_ContentLabel x) as [b|] eqn:Hb; [|done]. cbn in H. destruct (overrides_with label l) as [rest|]; [|done]. cbn in H.
  specialize (IH _ eq_refl o). destruct (b == label) eqn:E; [apply bool_decide_eq_true in E as ->|apply bool_decide_eq_false in E];
    simplify_eq; rewrite !elem_of_cons, IH; naive_solver.
Qed.

(** What is there under other labels stays; under the label of the repository, there is what is expected. *)
Definition overrides_for (label : string) (m : gmap (string * string) string) (expected : list ContentOverrideDTO) : gmap (string * string) string :=
  put_overrides (base.filter (λ kv, kv.1.1 ≠ label) m) expected.

Lemma overrides_settled label m l existing expected unneeded :
  override_entry <$> l ≡ₚ Some <$> map_to_list m → Forall complete expected →
  overrides_with label l = Some existing → UnneededOverrides existing expected = Some unneeded →
  put_overrides (base.filter (λ kv, kv.1 ∉ omap override_key unneeded) m) expected = overrides_for label m expected.
Proof.
  intros Hl Hexp Hex Hun.
  assert (∀ o, o ∈ l → ∃ k v, m !! k = Some v ∧ o = override k.2 k.1 v) as Hentry.
  { intros o Ho. assert (override_entry o ∈ override_entry <$> l) as Hin by set_solver. rewrite Hl in Hin.
    apply list_elem_of_fmap in Hin as ([k v] & Hkv%entry_complete & Hin%elem_of_map_to_list). by exists k, v. }
  pose proof (overrides_with_elem _ _ _ Hex) as Hwith.
  assert (Forall complete existing) as Hc.
  { apply list.Forall_forall. intros o [(k & v & _ & ->)%Hentry _]%Hwith. by do 3 eexists. }
  assert (∀ k, k ∈ omap override_key existing ↔ is_Some (m !! k) ∧ k.1 = label) as Hkeys.
  { intros k. rewrite list_elem_of_omap. split.
    - intros (o & [(k' & v & Hm & ->)%Hentry Hb]%Hwith & Hk). destruct k'. cbn in Hk, Hb. simplify_eq/=. split; [by eexists|done].
    - intros [[v Hv] Hk]. assert (Some (k, v) ∈ override_entry <$> l) as Hin.
      { rewrite Hl. apply list_elem_of_fmap_2. by apply elem_of_map_to_list. }
      apply list_elem_of_fmap in Hin as (o & Ho%symmetry%entry_complete & Hin). subst o. eexists. rewrite Hwith.
      split; [split; [done|by cbn; rewrite Hk]|by destruct k]. }
  pose proof (unneeded_keys _ _ _ Hc Hexp Hun) as Hk. unfold overrides_for. apply put_overrides_covered. intros k.
  rewrite keys_of_entries by done. destruct (decide (k ∈ omap override_key expected)) as [|Hne]; [by right|left].
  apply option_eq. intros v. rewrite !map_lookup_filter_Some, Hk, Hkeys. cbn. split.
  - intros [Hm Hn]. split; [done|]. intros Hlab. apply Hn. split; [|done]. split; [by eexists|done].
  - intros [Hm Hn]. split; [done|]. by intros [[_ ?] _].
Qed.

Section Thms.
Context {S C P : Type} `{HC : PulpClient S} `{HK : CandlepinApi C} `{HKL : !CandlepinLaws C} `{HF : !OverrideFrame C} `{HU : UuidText}.
Context (content_path : goerr + string) (url_Path : string → goerr + string) (JoinPath : string → list string → goerr + string).
Abbreviation W := (tworld S C P).
#[local] Set Default Proof Using "Type*".

Lemma environment_twice t : GetEnvironmentID (GetEnvironmentID t) = GetEnvironmentID t.
Proof. unfold GetEnvironmentID, GetContentID. rewrite chars_of_chars, list_filter_filter_l; [done|by intros]. Qed.

Lemma removed_run t unneeded fs (w : W) fs' w' :
  (match unneeded with [] => mret () | _ => wrap "could not remove overrides" (cp (RemoveContentOverrides (GetEnvironmentID t) unneeded)) end : M W goerr ()) (fs, w)
    = (inr (), (fs', w')) →
  same_but_cp w w' ∧
  env_overrides w'.(tw_cp) (GetEnvironmentID t) = base.filter (λ kv, kv.1 ∉ omap override_key unneeded) (env_overrides w.(tw_cp) (GetEnvironmentID t)) ∧
  ∀ id, id ≠ GetEnvironmentID t → env_overrides w'.(tw_cp) id = env_overrides w.(tw_cp) id.
Proof.
  destruct unneeded as [|o l].
  - intros [_ [= _ <-]]%ret_inr. split; [done|]. split; [|done]. symmetry. apply map_filter_id. intros k v _. apply not_elem_of_nil.
  - intros (c & [([] & Hr & _)|(e & _ & Hx)]%request_inr & ->)%wrap_inr%cp_run; [|done]. rewrite environment_twice in Hr. split; [done|].
    split; [by apply delete_overrides in Hr as [_ Ho]|]. intros id Hne. cbn.
    pose proof (delete_elsewhere (GetEnvironmentID t) id (o :: l) (tw_cp w) Hne) as Hd. by rewrite Hr in Hd.
Qed.

Lemma updated_run t expected fs (w : W) fs' w' :
  (match expected with [] => mret () | _ => wrap "could not update overrides" (cp (UpdateContentOverrides (GetEnvironmentID t) expected)) end : M W goerr ()) (fs, w)
    = (inr (), (fs', w')) →
  same_but_cp w w' ∧ env_overrides w'.(tw_cp) (GetEnvironmentID t) = put_overrides (env_overrides w.(tw_cp) (GetEnvironmentID t)) expected ∧
  ∀ id, id ≠ GetEnvironmentID t → env_overrides w'.(tw_cp) id = env_overrides w.(tw_cp) id.
Proof.
  destruct expected as [|o l].
  - by intros [_ [= _ <-]]%ret_inr.
  - intros (c & [([] & Hr & _)|(e & _ & Hx)]%request_inr & ->)%wrap_inr%cp_run; [|done]. rewrite environment_twice in Hr. split; [done|].
    split; [by apply put_content in Hr as [_ Ho]|]. intros id Hne. cbn.
    pose proof (put_elsewhere (GetEnvironmentID t) id (o :: l) (tw_cp w) Hne) as Hd. by rewrite Hr in Hd.
Qed.

(** The overrides a template needs for the repository. *)
Definition expected_for (dom : string) (repo : RepoResponse) (template : TemplateResponse) (expected : list ContentOverrideDTO) : Prop :=
  ∃ path, content_path = inr path ∧ ContentOverridesForRepo url_Path JoinPath dom template.(tr_UUID) path repo = inr expected.

Lemma update_overrides_run dom repo t fs (w : W) fs' w' :
  update_overrides content_path url_Path JoinPath dom repo t (fs, w) = (inr (), (fs', w')) →
  same_but_cp w w' ∧
  (∃ expected, expected_for dom repo t expected ∧
    env_overrides w'.(tw_cp) (GetEnvironmentID t.(tr_UUID)) = overrides_for repo.(p_Label) (env_overrides w.(tw_cp) (GetEnvironmentID t.(tr_UUID))) expected) ∧
  ∀ id, id ≠ GetEnvironmentID t.(tr_UUID) → env_overrides w'.(tw_cp) id = env_overrides w.(tw_cp) id.
Proof.
  intros H. apply bind_inr in H as (existing & [fs1 w1] & Hf%wrap_inr & H).
  apply bind_inr in Hf as (l & [fs0 w0] & Hf & [Hex [= -> ->]]%deref_inr).
  pose proof (same_request _ _ _ (cpq_overrides _) _ _ _ _ _ Hf) as (Hd1 & Hd2 & Hd3 & Hsame).
  apply cp_run in Hf as (c1 & [(a & Ha & ->)|(e & _ & Hx)]%request_inr & ->); [|done]. apply get_overrides in Ha. rewrite environment_twice in Ha.
  apply bind_inr in H as (path & [fs2 w2] & [Hp [= -> ->]]%lift_run & H).
  apply bind_inr in H as (expected & [fs3 w3] & [He [= -> ->]]%wrap_inr%lift_run & H).
  apply bind_inr in H as (unneeded & [fs4 w4] & [Hun [= -> ->]]%deref_inr & H).
  apply bind_inr in H as ([] & [fs5 w5] & (Hb5 & Ho5 & He5)%removed_run & (Hb6 & Ho6 & He6)%updated_run).
  split; [unfold same_but_cp in *; cbn in Hb5; destruct_and!; split_and!; congruence|]. split.
  - exists expected. split; [by exists path|]. rewrite Ho6, Ho5. destruct (Hsame (GetEnvironmentID (tr_UUID t))) as [_ ->].
    eapply overrides_settled; [done|by eapply contentOverrides_complete|done..].
  - intros id Hne. rewrite He6, He5 by done. apply Hsame.
Qed.

(** Every template of the list has the overrides it needs; other environments are as before. *)
Definition overrides_updated (dom : string) (repo : RepoResponse) (templates : list TemplateResponse) (w w' : W) : Prop :=
  same_but_cp w w' ∧
  (∀ t, t ∈ templates → ∃ expected, expected_for dom repo t expected ∧
    env_overrides w'.(tw_cp) (GetEnvironmentID t.(tr_UUID)) = overrides_for repo.(p_Label) (env_overrides w.(tw_cp) (GetEnvironmentID t.(tr_UUID))) expected) ∧
  ∀ id, (∀ t, t ∈ templates → id ≠ GetEnvironmentID t.(tr_UUID)) → env_overrides w'.(tw_cp) id = env_overrides w.(tw_cp) id.

Lemma update_all_run dom repo templates fs (w : W) fs' w' :
  NoDup (GetEnvironmentID ∘ tr_UUID <$> templates) →
  iter (update_overrides content_path url_Path JoinPath dom repo) templates (fs, w) = (inr (), (fs', w')) →
  overrides_updated dom repo templates w w'.
Proof.
  revert fs w. induction templates as [|t ts IH]; intros fs w Hnd H; cbn [iter] in H.
  - apply ret_inr in H as [_ [= _ <-]]. split; [done|]. split; [by intros t ?%not_elem_of_nil|done].
  - apply bind_inr in H as ([] & [fs1 w1] & (Hb1 & (expected & Hex & Ho) & Hoth)%update_overrides_run & H).
    rewrite fmap_cons in Hnd. apply NoDup_cons in Hnd as [Hnin Hnd]. apply IH in H as (Hb & Hts & Hrest); [|done].
    assert (∀ t', t' ∈ ts → GetEnvironmentID t'.(tr_UUID) ≠ GetEnvironmentID t.(tr_UUID)) as Hne.
    { intros t' Ht' E. apply Hnin. apply list_elem_of_fmap. by exists t'. }
    split; [unfold same_but_cp in *; destruct_and!; split_and!; congruence|]. split.
    + intros t' [->|Ht']%elem_of_cons.
      * exists expected. split; [done|]. rewrite Hrest; [done|]. intros t' Ht' E. by apply (Hne t').
      * destruct (Hts t' Ht') as (ex & Hex' & Ho'). exists ex. split; [done|]. by rewrite Ho', Hoth by (by apply Hne).
    + intros id Hid. rewrite Hrest by (intros t' Ht'; apply Hid; by right). apply Hoth, Hid. by left.
Qed.
End Thms.

Section Update.
Context {S C P : Type} `{HC : PulpClient S} `{HK : CandlepinApi C} `{HKL : !CandlepinLaws C} `{HF : !OverrideFrame C} `{HU : UuidText}.
Context (DevelOrg : bool) (externalURL fullRootPath : string).
Context (scan_templates : gmap uuid TemplateRow → list (uuid * TemplateRow)).
Context (scan_trcs : gmap (uuid * uuid) TrcRow → list (uuid * uuid * TrcRow)).
Context (sql_like : string → string → bool) (sql_order : string → list (uuid * TemplateRow) → list (uuid * TemplateRow)).
Context (snapshots_enabled : bool) (content_path : goerr + string) (retain : Z).
Context (url_Path : string → goerr + string) (JoinPath : string → list string → goerr + string).
Abbreviation W := (tworld S C P).
#[local] Set Default Proof Using "Type*".

Lemma keeps_listed now orgID repo :
  keeps (listed_templates scan_templates scan_trcs sql_like sql_order snapshots_enabled content_path retain now orgID repo).
Proof. unfold listed_templates, Template_List, to_responses, GetContentPath, fetchLatestSnapshotUUIDsForReposOfTemplates. keeps_tac. Qed.

(** When the task succeeds, either Candlepin does not have the content, and nothing but the state of the service behind the
    answer has changed, or every template that was listed has, under the label of the repository, exactly the overrides
    it needs, and its other overrides as before; so have all other environments. The tables and Pulp are not changed. *)
Theorem repository_overrides_updated now orgID dom repo fs (w : W) fs' w' :
  UpdateRepository_Run DevelOrg externalURL fullRootPath scan_templates scan_trcs sql_like sql_order snapshots_enabled content_path retain
    url_Path JoinPath now orgID dom repo (fs, w) = (inr (), (fs', w')) →
  cp_same w w' ∨
  ∃ fs1 fs2 templates n,
    listed_templates scan_templates scan_trcs sql_like sql_order snapshots_enabled content_path retain now orgID repo (fs1, w.(tw_db))
      = (inr (templates, n), (fs2, w.(tw_db))) ∧
    (NoDup (GetEnvironmentID ∘ tr_UUID <$> templates) → overrides_updated content_path url_Path JoinPath dom repo templates w w').
Proof.
  intros H. apply bind_inr in H as (content & [fs1 w1] & H1 & H). pose proof (same_request _ _ _ (cpq_content _ _) _ _ _ _ _ H1) as Hs1.
  destruct content as [x|]; [|apply ret_inr in H as [_ [= _ <-]]; by left]. right.
  apply bind_inr in H as ([] & [fs2 w2] & H2%wrap_inr%wrap_inr & H%wrap_inr).
  pose proof (same_request _ _ _ (cpq_update_content _ _ _) _ _ _ _ _ H2) as Hs2.
  assert (cp_same w w2) as (Hd & Hdm & Hp & Hs) by (by etrans).
  apply bind_inr in H as ([templates n] & [fs3 w3] & (d & Hl & ->)%wrap_inr%dao_run & H).
  pose proof (keeps_listed _ _ _ _ _ _ _ _ Hl) as ->. rewrite Hd in Hl. exists fs2, fs3, templates, n. split; [done|].
  intros Hnd. apply update_all_run in H as (Hb & Hts & Hrest); [|done]. rewrite set_db_id in *.
  split; [unfold same_but_cp in *; destruct_and!; split_and!; congruence|]. split.
  - intros t Ht. destruct (Hts t Ht) as (ex & Hex & Ho). exists ex. split; [done|]. rewrite Ho. by destruct (Hs (GetEnvironmentID (tr_UUID t))) as [_ ->].
  - intros id Hid. rewrite Hrest by done. apply Hs.
Qed.
End Update.
