(* ===== verification/RepoHandler.v ===== *)
(** * handler/repositories.go: the requests that change repositories

    The handlers that create, update and delete configurations, take snapshots, start introspections and change the content
    of uploaded repositories: the checks, the calls of the data layer, the tasks that are handed to the queue and the tasks
    that are canceled. [world] is the one of [SnapshotHandler.v]. The binding of requests is left out, and so are the two
    handlers that pass chunks of files on to Pulp. Most enqueueing errors are logged only. *)

From S2P Require Import Prelude GoStrings GoSplit Config TxMonad Utils Models Content Introspect Errors DaoHelpers GoText SnapshotDao SnapshotThms TemplateDao SnapshotHandler SnapshotHandlerThms RepoConfigDao RepoConfigDue Pulp Distribution TaskEnv SnapshotTask UploadTask.
From stdpp Require Import pretty options.

Open Scope string_scope.

Inductive answer :=
  | Failed (errs : list HandlerError)
  | Crashed
  | NoContent
  | Repo (code : Z) (r : RepoResponse)
  | Repos (code : Z) (l : list RepoResponse)
  | Imported (code : Z) (l : list (RepoResponse * list import_warning))
  | TaskInfo (code : Z) (t : QTask)
  | Text (code : Z) (s : string).

(** An error in a list of errors: [HandlerError.Error] and [ErrorResponse.Error]. *)
Definition HandlerError_Error (e : HandlerError) : string :=
  "code=" +:+ pretty e.(Status) +:+ ", title=" +:+ e.(Title) +:+ ", detail=" +:+ e.(Detail).
Definition newline : string := String (ascii_of_N 10) "".
Definition ErrorResponse_Error (errs : list HandlerError) : string :=
  foldr (λ e msg, "error: " +:+ HandlerError_Error e +:+ " " +:+ newline +:+ msg) "" errs.

(** [Duration.String] of whole seconds. *)
Definition Duration_String (seconds : Z) : string :=
  let h := (seconds / 3600)%Z in
  let m := (seconds / 60 mod 60)%Z in
  let s := (seconds mod 60)%Z in
  ((if (0 <? h)%Z then pretty h +:+ "h" else "") +:+
   (if (0 <? h)%Z || (0 <? m)%Z then pretty m +:+ "m" else "") +:+ pretty s +:+ "s")%string.

Definition dao_failure (title : string) (e : goerr) : list HandlerError := NewErrorResponse (HttpCodeForDaoError (Some e)) title (Error e).
Definition BulkCreateLimit : nat := 20.

(** api/repositories.go *)
Definition Introspectable (r : RepoResponse) : bool := (r.(p_Origin) != OriginUpload) && (r.(p_Origin) != OriginLightwell).

Definition set_p_LastSnapshotTaskUUID (t : option uuid) (p : RepoResponse) : RepoResponse :=
  mk_RepoResponse p.(p_UUID) p.(p_Name) p.(p_Label) p.(p_URL) p.(p_Origin) p.(p_ContentType) p.(p_DistributionVersions)
    p.(p_DistributionArch) p.(p_AccountID) p.(p_OrgID) p.(p_LastIntrospectionTime) p.(p_LastIntrospectionSuccessTime)
    p.(p_LastIntrospectionUpdateTime) p.(p_LastIntrospectionError) p.(p_LastIntrospectionStatus) p.(p_FailedIntrospectionsCount)
    p.(p_FailedSnapshotCount) p.(p_PackageCount) p.(p_BuildCount) p.(p_VersionCount) p.(p_Status) p.(p_GpgKey) p.(p_MetadataVerification)
    p.(p_ModuleHotfixes) p.(p_RepositoryUUID) p.(p_Snapshot) p.(p_LastSnapshotUUID) p.(p_LastSnapshot) t p.(p_LastSnapshotTask)
    p.(p_LatestSnapshotURL) p.(p_FeatureName) p.(p_ExtendedRelease) p.(p_ExtendedReleaseVersion) p.(p_Partner) p.(p_SecurityLevel)
    p.(p_PublishedDistURL) p.(p_PublishedDistBasePath).

Section Handlers.
Context `{HU : UuidText} (valid_uri : string → bool).
Context (new_id : list QTask → uuid) (task_rows : list QTask → gmap uuid TaskView).
(** A task that has failed and waits for a retry counts as active, and canceling does not change that at once. *)
Context (retrying : QTask → bool).
Context (snapshots_enabled snapshots_accessible : bool) (content_path : goerr + string) (PulpConfigured : bool).
Context (content : store) (scan_rpms : gmap uuid Rpm → list (uuid * Rpm)) (IntrospectApiTimeLimitSec : Z).

(** handler/features.go; [snapshots_accessible] is the answer of [FeatureAccessible]. *)
Definition CheckSnapshotAccessible : option (list HandlerError) :=
  if negb snapshots_enabled then Some (NewErrorResponse 400 "Snapshotting Feature is disabled." "")
  else if snapshots_accessible then None
  else Some (NewErrorResponse 400 "Cannot manage repository snapshots" "Neither the user nor the account is allowed.").
Definition CheckSnapshotForRepo (snapshotParam : option bool) : option (list HandlerError) :=
  if default false snapshotParam then CheckSnapshotAccessible else None.
(** The loop returns in its first round. *)
Definition CheckSnapshotForRepos (repos : list RepositoryRequest) : option (list HandlerError) :=
  match repos with [] => None | repo :: _ => CheckSnapshotForRepo repo.(rq_Snapshot) end.

(** An error becomes the answer. *)
Definition answering {A} (title : string) (m : HM A) (k : A → HM answer) : HM answer :=
  r ← attempt m; match r with inl e => mret (Failed (dao_failure title e)) | inr a => k a end.
Definition checking (denied : option (list HandlerError)) (k : HM answer) : HM answer :=
  match denied with Some errs => mret (Failed errs) | None => k end.

Definition fetch_repo (orgID uuid_ : string) : HM RepoResponse :=
  on_rows task_rows (λ rows, RepoConfig_Fetch rows snapshots_enabled content_path orgID uuid_).

(** ** dao/task_info.go *)

Definition TasksDBToApiError (e : goerr) (uuid_ : string) : goerr :=
  Wrap (if is_record_not_found e then DaoError None ("Task with UUID " +:+ uuid_ +:+ " not found") true false false false
        else DaoError None (Error e) (HttpCodeForDaoError (Some e) =? 404)%Z false false false) e.

(** A task whose repository has only deleted configurations is hidden. *)
Definition task_shown (d : db) (orgIDs : list string) (t : QTask) : bool :=
  let rcs := base.filter (λ kc, t.(q_ObjectType) = ObjectTypeRepository ∧ pg_uuid t.(q_ObjectUUID) = Some kc.2.(c_RepositoryUUID) ∧
                                kc.2.(c_OrgID) ∈ orgIDs) (map_to_list d.(configs)) in
  contains orgIDs t.(q_OrgId) && (bool_decide (rcs = []) || existsb (λ kc, config_live kc.2) rcs).
Definition fetch_task (orgID id : string) : HM QTask :=
  map_err (λ e, TasksDBToApiError e id)
    (db_call (λ w, match list_find (λ t, t.(q_Id) = Uuidify id ∧ task_shown w.(w_db) [RedHatOrg; orgID; CommunityOrg] t = true) w.(w_tasks) with
                   | Some (_, t) => (inr t, w)
                   | None => (inl ErrRecordNotFound, w)
                   end)).

(** ** tasks/client/client.go *)

Definition cancel_task (id : uuid) (t : QTask) : QTask :=
  if (bool_decide (t.(q_Id) = id) || bool_decide (id ∈ t.(q_Dependencies))) && negb (retrying t)
  then mk_QTask t.(q_Id) t.(q_Typename) t.(q_Payload) t.(q_OrgId) t.(q_AccountId) t.(q_ObjectUUID) t.(q_ObjectType) t.(q_Dependencies) false
  else t.
(** The task and those that depend on it. *)
Definition TaskClient_Cancel (id : uuid) : HM () :=
  t ← db_call (λ w, match list_find (λ t, t.(q_Id) = id) w.(w_tasks) with
                    | Some (_, t) => (inr t, w)
                    | None => (inl (ErrPlain "task does not exist"), w)
                    end);
  if negb (contains CancellableTasks t.(q_Typename)) then throw (ErrPlain "task is not cancellable")
  else db_call (λ w, (inr (), mk_world w.(w_db) (cancel_task id <$> w.(w_tasks)))).

(** ** Tasks of the handlers *)

Definition enqueue_for (typename : string) (p : payload) (orgId : string) (response : RepoResponse) (deps : list uuid) : HM uuid :=
  EnqueueTask new_id typename p orgId response.(p_AccountID) (uuid_String response.(p_RepositoryUUID)) ObjectTypeRepository deps.
Definition update_last_task (taskID : uuid) (response : RepoResponse) : HM () :=
  on_rows task_rows (λ rows, UpdateLastSnapshotTask rows (uuid_String taskID) response.(p_OrgID) (uuid_String response.(p_RepositoryUUID))).

Definition enqueueUpdateLatestSnapshotEvent (orgID : string) (snapshotTaskID : uuid) (response : RepoResponse) : HM () :=
  if negb PulpConfigured then mret ()
  else _ ← logged (enqueue_for UpdateLatestSnapshotTask (UpdateLatestSnapshotPayload (uuid_String response.(p_UUID))) orgID response [snapshotTaskID]); mret ().

(** The response is updated in place. A failure to enqueue gives the text of the nil UUID. *)
Definition enqueueSnapshotEvent (response : RepoResponse) : HM (string * RepoResponse) :=
  if negb PulpConfigured then mret ("", response)
  else
    taskID ← logged (enqueue_for RepositorySnapshotTask SnapshotHandler.SnapshotPayload response.(p_OrgID) response []);
    match taskID with
    | None => mret (uuid_String uuid_Nil, response)
    | Some id =>
        saved ← logged (update_last_task id response);
        let response := match saved with Some _ => set_p_LastSnapshotTaskUUID (Some id) response | None => response end in
        _ ← enqueueUpdateLatestSnapshotEvent response.(p_OrgID) id response;
        mret (uuid_String id, response)
    end.

Definition enqueueIntrospectEvent (response : RepoResponse) (orgID : string) : HM string :=
  taskID ← logged (enqueue_for IntrospectTask (IntrospectPayload response.(p_URL) true (Some response.(p_Origin))) orgID response []);
  mret (uuid_String (default uuid_Nil taskID)).

(** The priority of the task is left out. *)
Definition enqueueUpdateEvent (response : RepoResponse) (orgID : string) : HM () :=
  _ ← logged (enqueue_for UpdateRepositoryTask (UpdateRepositoryPayload (uuid_String response.(p_UUID))) orgID response []); mret ().

Definition enqueueSnapshotDeleteEvent (orgID : string) (repo : RepoResponse) : HM () :=
  _ ← logged (enqueue_for DeleteRepositorySnapshotsTask (DeleteRepositorySnapshotsPayload (uuid_String repo.(p_UUID))) orgID repo []); mret ().

Definition enqueueAddUploadsEvent (response : RepoResponse) (orgID : string) (artifacts : list Artifact) (uploads : list Upload) : HM string :=
  taskID ← logged (enqueue_for AddUploadsTask (AddUploadsTaskPayload (uuid_String response.(p_UUID)) artifacts uploads) orgID response []);
  match taskID with
  | None => mret (uuid_String uuid_Nil)
  | Some id =>
      _ ← logged (update_last_task id response);
      _ ← enqueueUpdateLatestSnapshotEvent response.(p_OrgID) id response;
      mret (uuid_String id)
  end.

(** Here a failure to save the task keeps the templates from following. *)
Definition enqueueBulkRemoveRpmsEvent (orgID : string) (response : RepoResponse) (rpmUuids : list string) : HM string :=
  taskID ← logged (enqueue_for BulkRemoveRpmsTask (BulkRemoveRpmsTaskPayload (uuid_String response.(p_UUID)) rpmUuids) orgID response []);
  match taskID with
  | None => mret ""
  | Some id =>
      saved ← logged (update_last_task id response);
      _ ← (match saved with Some _ => enqueueUpdateLatestSnapshotEvent response.(p_OrgID) id response | None => mret () end);
      mret (uuid_String id)
  end.

(** [Some]: the error response. *)
Fixpoint cancel_all (taskIDs : list uuid) : HM (option (list HandlerError)) :=
  match taskIDs with
  | [] => mret None
  | id :: taskIDs' =>
      r ← attempt (TaskClient_Cancel id);
      match r with inl e => mret (Some (NewErrorResponse 500 "Error canceling introspect" (Error e))) | inr _ => cancel_all taskIDs' end
  end.
Definition cancelIntrospectAndSnapshot (orgID : string) (repoConfig : RepoResponse) : HM (option (list HandlerError)) :=
  r ← attempt (TaskInfo_FetchActiveTasks orgID (uuid_String repoConfig.(p_RepositoryUUID)) [RepositorySnapshotTask; IntrospectTask]);
  match r with
  | inl e => mret (Some (dao_failure "Error checking if introspect is in progress" e))
  | inr taskIDs => cancel_all taskIDs
  end.

(** ** Creating *)

Definition start_tasks (orgID : string) (response : RepoResponse) : HM RepoResponse :=
  '(_, response) ← (if response.(p_Snapshot) then enqueueSnapshotEvent response else mret ("", response));
  _ ← (if Introspectable response then _ ← enqueueIntrospectEvent response orgID; mret () else mret ());
  mret response.

Definition createRepository (now : time) (suffix : string) (ru cu : uuid) (accountID orgID : string) (req : RepositoryRequest) : HM answer :=
  let req := RepositoryRequest_FillDefaults accountID orgID req in
  checking (CheckSnapshotForRepo req.(rq_Snapshot))
    (answering "Error creating repository" (on_rows task_rows (λ rows, RepoConfig_Create valid_uri now rows suffix ru cu req))
       (λ response, response ← start_tasks orgID response; mret (Repo 201 response))).

Fixpoint each {A B} (f : A → HM B) (l : list A) : HM (list B) :=
  match l with
  | [] => mret []
  | a :: l' => b ← f a; bs ← each f l'; mret (b :: bs)
  end.

Definition failures (title : string) (errs : list (option goerr)) : answer :=
  match NewErrorResponseFromError title errs with Some l => Failed l | None => Crashed end.

Definition bulkCreateRepositories (now : time) (suffix : string) (accountID orgID : string) (reqs : list (uuid * uuid * RepositoryRequest)) : HM answer :=
  if (BulkCreateLimit <? length reqs)%nat
  then mret (Failed (NewErrorResponse 413 "Error creating repositories" "Cannot create more than 20 repositories at once."))
  else
    let reqs := prod_map id (RepositoryRequest_FillDefaults accountID orgID) <$> reqs in
    checking (CheckSnapshotForRepos reqs.*2)
      ('(responses, errs) ← on_db (RepoConfig_BulkCreate valid_uri now suffix reqs);
       match errs with
       | _ :: _ => mret (failures "Error creating repository" errs)
       | [] => responses ← each (start_tasks orgID) responses; mret (Repos 201 responses)
       end).

(** What a repository of an import gets; [None] is an index out of range. *)
Definition import_tasks (orgID : string) (repo : RepoResponse * list import_warning) : HM (option (RepoResponse * list import_warning)) :=
  let '(response, warnings) := repo in
  if response.(p_Origin) == OriginCommunity then mret (Some repo)
  else
    match (if response.(p_Origin) == OriginUpload
           then match warnings with [] => None | UploadWarning _ :: _ => Some true | FieldWarning _ _ _ :: _ => Some false end
           else Some false) with
    | None => mret None
    | Some first =>
        '(_, response) ← (if first : bool then enqueueSnapshotEvent response else mret ("", response));
        '(_, response) ← (if bool_decide (warnings = []) && response.(p_Snapshot) then enqueueSnapshotEvent response else mret ("", response));
        _ ← (if bool_decide (warnings = []) && Introspectable response then _ ← enqueueIntrospectEvent response orgID; mret () else mret ());
        mret (Some (response, warnings))
    end.
Fixpoint import_all (orgID : string) (repos : list (RepoResponse * list import_warning)) : HM (option (list (RepoResponse * list import_warning))) :=
  match repos with
  | [] => mret (Some [])
  | repo :: repos' =>
      r ← import_tasks orgID repo;
      match r with
      | None => mret None
      | Some repo => rest ← import_all orgID repos'; mret ((λ l, repo :: l) <$> rest)
      end
  end.

Definition bulkImportRepositories (now : time) (suffix : string) (accountID orgID : string) (reqs : list (uuid * uuid * uuid * RepositoryRequest)) : HM answer :=
  if (BulkCreateLimit <? length reqs)%nat
  then mret (Failed (NewErrorResponse 413 "Error importing repositories" "Cannot import more than 20 repositories at once."))
  else
    let reqs := prod_map id (RepositoryRequest_FillDefaults accountID orgID) <$> reqs in
    checking (CheckSnapshotForRepos reqs.*2)
      ('(responses, errs) ← on_rows task_rows (λ rows, BulkImport valid_uri now rows suffix reqs);
       match errs with
       | _ :: _ => mret (failures "Error importing repositories" errs)
       | [] => r ← import_all orgID responses; mret (match r with Some l => Imported 201 l | None => Crashed end)
       end).

(** ** Reading *)

(** [features] is the answer of the feature service, nothing when it fails. The error whose code is asked for is nil. *)
Definition RepositoryHandler_fetch (features : list string) (orgID uuid_ : string) : HM answer :=
  answering "Error fetching repository" (fetch_repo orgID uuid_)
    (λ response,
       mret (if ((response.(p_OrgID) == RedHatOrg) || (response.(p_OrgID) == LightwellOrg)) && negb (AnyFeatureMatch response.(p_FeatureName) features)
             then Failed (NewErrorResponse (HttpCodeForDaoError None) "Error fetching repository" "Account does not have access to this repository")
             else Repo 200 response)).

Definition getGpgKeyFile (uuid_ : string) : HM answer :=
  answering "Error fetching repository" (on_rows task_rows (λ rows, FetchWithoutOrgID rows uuid_ false))
    (λ resp, mret (if resp.(p_GpgKey) == "" then Failed (NewErrorResponse 404 "Error fetching gpg key" "no GPG key found for this repository")
                   else Text 200 resp.(p_GpgKey))).

(** ** Updating *)

Definition update (now : time) (ru : uuid) (orgID uuid_ : string) (repoParams : RepositoryUpdateRequest) (fillDefaults : bool) : HM answer :=
  checking (CheckSnapshotForRepo repoParams.(RepoConfigDao.ru_Snapshot))
    (let repoParams := if fillDefaults then RepositoryUpdateRequest_FillDefaults repoParams else repoParams in
     answering "Error fetching repository" (fetch_repo orgID uuid_) (λ repoConfig,
     answering "Error updating repository" (on_rows task_rows (λ rows, RepoConfig_Update valid_uri now rows ru orgID uuid_ repoParams)) (λ urlUpdated,
       failed ← (if urlUpdated : bool then cancelIntrospectAndSnapshot orgID repoConfig else mret None);
       checking failed
         (answering "Error fetching repository" (fetch_repo orgID uuid_) (λ response,
            let snapshottingNowEnabled := negb repoConfig.(p_Snapshot) && response.(p_Snapshot) in
            '(_, response) ← (if (urlUpdated && response.(p_Snapshot)) || snapshottingNowEnabled then enqueueSnapshotEvent response else mret ("", response));
            _ ← (if urlUpdated || snapshottingNowEnabled then _ ← enqueueIntrospectEvent response orgID; mret () else mret ());
            _ ← enqueueUpdateEvent response orgID;
            mret (Repo 200 response)))))).

(** ** Deleting *)

Definition deleteRepository (now : time) (orgID uuid_ : string) : HM answer :=
  answering "Error fetching repository" (fetch_repo orgID uuid_) (λ repoConfig,
    failed ← cancelIntrospectAndSnapshot orgID repoConfig;
    checking failed
      (answering "Error deleting repository" (on_db (RepoConfig_SoftDelete now orgID uuid_)) (λ _,
         _ ← enqueueSnapshotDeleteEvent orgID repoConfig; mret NoContent))).

(** One round: the response, and the error. *)
Definition prepare_deletion (orgID uuid_ : string) : HM (goerr + RepoResponse) :=
  r ← attempt (fetch_repo orgID uuid_);
  match r with
  | inl e => mret (inl e)
  | inr repoConfig =>
      failed ← cancelIntrospectAndSnapshot orgID repoConfig;
      mret (match failed with Some errs => inl (ErrPlain (ErrorResponse_Error errs)) | None => inr repoConfig end)
  end.
Definition error_of {A} (r : goerr + A) : option goerr := match r with inl e => Some e | inr _ => None end.
Definition response_of {A} (r : goerr + A) : option A := match r with inl _ => None | inr a => Some a end.

Definition bulkDeleteRepositories (now : time) (orgID : string) (uuids : list string) : HM answer :=
  if (length uuids =? 0)%nat
  then mret (Failed (NewErrorResponse 400 "Error deleting repositories" "Request body must contain at least 1 repository UUID to delete."))
  else if (BulkDeleteLimit <? length uuids)%nat
  then mret (Failed (NewErrorResponse 413 "Error deleting repositories" "Cannot delete more than 100 repositories at once."))
  else
    results ← each (prepare_deletion orgID) uuids;
    if has_error (error_of <$> results) then mret (failures "Error deleting repositories" (error_of <$> results))
    else
      errs ← on_rows task_rows (λ rows, RepoConfig_BulkDelete now rows orgID uuids);
      match errs with
      | _ :: _ => mret (failures "Error deleting repositories" errs)
      | [] => _ ← each (enqueueSnapshotDeleteEvent orgID) (omap response_of results); mret NoContent
      end.

(** ** Snapshots and introspection *)

Definition createSnapshot (orgID uuid_ : string) : HM answer :=
  checking CheckSnapshotAccessible
    (answering "Error fetching repository" (fetch_repo orgID uuid_) (λ response,
       if response.(p_Origin) == OriginUpload
       then mret (Failed (NewErrorResponse 400 "Cannot snapshot this repository" "Upload repositories cannot be snapshotted.  To create a new snapshot, upload more content"))
       else if response.(p_Origin) == OriginLightwell
       then mret (Failed (NewErrorResponse 400 "Cannot snapshot this repository" "Lightwell repositories cannot be snapshotted"))
       else
         answering "Error checking snapshot task" (TaskInfo_FetchActiveTasks orgID (uuid_String response.(p_RepositoryUUID)) [RepositorySnapshotTask]) (λ taskIDs,
           if (0 <? length taskIDs)%nat then mret (Failed (NewErrorResponse 409 "Error snapshotting repository" "This repository is currently being snapshotted."))
           else if negb response.(p_Snapshot) then mret (Failed (NewErrorResponse 400 "Error snapshotting repository" "Snapshotting not yet enabled for this repository."))
           else
             '(taskID, _) ← enqueueSnapshotEvent response;
             answering "Error fetching task info" (fetch_task orgID taskID) (λ resp, mret (TaskInfo 200 resp))))).

(** dao/repositories.go, on the rows of this database. *)
Definition fetch_for_url (url origin : string) : DB (uuid * RepositoryRow) :=
  db_call (λ d, (or_not_found (first_row (λ kr, (r_url kr.2 == CleanupURL url) && (r_origin kr.2 == origin)) d.(repositories)), d)).
Definition update_row (u : RepositoryUpdate) : DB () :=
  _ ← (db_call (λ d, (or_not_found (d.(repositories) !! u.(ru_UUID)), d)) : DB RepositoryRow);
  db_call (λ d, (inr (), SnapshotDao.set_repositories (alter (λ r,
                   mk_RepositoryRow (repository_MapForUpdate (internalToModel u r.(r_model)) r.(r_model)) r.(r_content_type)
                     r.(r_security_level) r.(r_published_url) r.(r_published_base_path)) u.(ru_UUID)) d)).

Definition reset_update (id : uuid) (resetCount : bool) : RepositoryUpdate :=
  mk_RepositoryUpdate id None None None None None None None (Some "Pending") None None None (if resetCount then Some 0%Z else None).

Definition introspect (now : time) (orgID uuid_ : string) (ResetCount : bool) : HM answer :=
  answering "Error fetching repository" (fetch_repo orgID uuid_) (λ response,
    if response.(p_Origin) == OriginUpload
    then mret (Failed (NewErrorResponse 400 "Cannot introspect this repository" "upload repositories cannot be introspected"))
    else if response.(p_Origin) == OriginLightwell
    then mret (Failed (NewErrorResponse 400 "Cannot introspect this repository" "lightwell repositories cannot be introspected"))
    else
      answering "Error fetching repository uuid" (on_db (fetch_for_url response.(p_URL) response.(p_Origin))) (λ '(id, row),
        let repo := row.(r_model) in
        let limit := (Second * IntrospectApiTimeLimitSec)%Z in
        let recent := match repo.(r_LastIntrospectionTime) with
                      | Some t => if (now - t <? limit)%Z then Some (limit - (now - t))%Z else None
                      | None => None
                      end in
        match recent with
        | Some wait => mret (Failed (NewErrorResponse 400 "Error introspecting repository"
                                       ("This repository has been introspected recently. Try again in " +:+ Duration_String (wait / Second))))
        | None =>
            if (FailedIntrospectionsLimit + 1 <=? repo.(r_FailedIntrospectionsCount))%Z && negb ResetCount
            then mret (Failed (NewErrorResponse 400 "Too many failed introspections"
                                 ("This repository has failed introspecting " +:+ pretty repo.(r_FailedIntrospectionsCount) +:+ " times.")))
            else
              answering "Error resetting failed introspections count" (on_db (update_row (reset_update id ResetCount))) (λ _,
                taskID ← enqueueIntrospectEvent response orgID;
                answering "error fetching task info" (fetch_task orgID taskID) (λ resp, mret (TaskInfo 200 resp)))
        end)).

(** ** Uploaded packages *)

Definition addUploads (orgID uuid_ : string) (artifacts : list Artifact) (uploads : list Upload) : HM answer :=
  answering "Error fetching repository uuid" (fetch_repo orgID uuid_) (λ response,
    if response.(p_Origin) != OriginUpload
    then mret (Failed (NewErrorResponse 400 "Cannot add uploads to this repository" "Can only add them to repositories of type 'upload'"))
    else
      answering "Error checking if bulk-remove-rpms or update-latest-snapshot is in progress"
        (TaskInfo_FetchActiveTasks orgID (uuid_String response.(p_RepositoryUUID)) [UpdateLatestSnapshotTask; BulkRemoveRpmsTask]) (λ activeTaskIDs,
        if (0 <? length activeTaskIDs)%nat
        then mret (Failed (NewErrorResponse 409 "Error add uploads" "This repository content is currently being changed. Try again later."))
        else
          taskID ← enqueueAddUploadsEvent response orgID artifacts uploads;
          answering "error fetching task info" (fetch_task orgID taskID) (λ resp, mret (TaskInfo 201 resp)))).

Definition handler_rpms : string → string → list string → HM (list (uuid * Rpm)) :=
  Rpm_FetchForRepository (λ _ m, on_db m) (λ _ f, db_call (λ w, (inr (f content), w))) scan_rpms.

Definition bulkRemoveRpms (orgID repositoryUuid : string) (rpmUuids : list string) : HM answer :=
  if (length rpmUuids =? 0)%nat then mret (Failed (NewErrorResponse 400 "No rpm_uuids provided" "rpm_uuids cannot be empty"))
  else
    answering "Error fetching repository" (fetch_repo orgID repositoryUuid) (λ repository,
      if repository.(p_Origin) != OriginUpload
      then mret (Failed (NewErrorResponse 400 "Cannot remove RPMs from this repository" "Only upload repositories support removing RPMs"))
      else
        answering "Error checking if add-uploads, bulk-remove-rpms or update-latest-snapshot is in progress"
          (TaskInfo_FetchActiveTasks orgID (uuid_String repository.(p_RepositoryUUID)) [UpdateLatestSnapshotTask; AddUploadsTask; BulkRemoveRpmsTask])
          (λ activeTaskIDs,
          if (0 <? length activeTaskIDs)%nat
          then mret (Failed (NewErrorResponse 409 "Error bulk remove rpms" "This repository content is currently being changed. Try again later."))
          else
            answering "Error validating RPMs for the repository" (handler_rpms orgID repositoryUuid rpmUuids) (λ _,
              taskID ← enqueueBulkRemoveRpmsEvent orgID repository rpmUuids;
              answering "Error fetching task info" (fetch_task orgID taskID) (λ response, mret (TaskInfo 201 response))))).
End Handlers.
