(* ===== verification/RepoHandlerThms.v ===== *)
(** * What the handlers of repositories guarantee

    A deleted repository has no snapshot or introspection left to run but those that wait for a retry; a request that fails
    has not changed the tables; changes of the content of a repository exclude one another. The last section shows the
    check of a bulk request that looks at the first repository only. *)

From S2P Require Import Prelude GoStrings GoSplit Config TxMonad Utils Models Content Introspect Errors DaoHelpers GoText SnapshotDao SnapshotThms TemplateDao SnapshotHandler SnapshotHandlerThms RepoConfigDao RepoConfigDue Pulp Distribution TaskEnv SnapshotTask DeleteTaskThms Deletion UploadTask RepoHandler.
From stdpp Require Import options.

Open Scope string_scope.

(** ** Steps *)

Lemma answering_run {A} title (m : HM A) k fs w r fs' w' :
  answering title m k (fs, w) = (r, (fs', w')) →
  (∃ e, m (fs, w) = (inl e, (fs', w')) ∧ r = inr (Failed (dao_failure title e))) ∨
  ∃ a fs1 w1, m (fs, w) = (inr a, (fs1, w1)) ∧ k a (fs1, w1) = (r, (fs', w')).
Proof.
  unfold answering. rewrite attempt_bind. destruct (m (fs, w)) as [[e|a] [fs1 w1]]; intros H.
  - left. exists e. unfold mret, M_ret in H. by simplify_eq.
  - right. by exists a, fs1, w1.
Qed.

Lemma logged_value {A} (m : HM A) fs w o fs' w' :
  logged m (fs, w) = (inr o, (fs', w')) → ∃ r, m (fs, w) = (r, (fs', w')) ∧ o = match r with inr a => Some a | inl _ => None end.
Proof. unfold logged. rewrite attempt_bind. destruct (m (fs, w)) as [r [fs1 w1]]. intros [<- [= <- <-]]%ret_inr. by exists r. Qed.

Lemma keeps_on_rows {A} rows (m : gmap uuid TaskView → DB A) : (∀ ts, keeps (m ts)) → keeps (on_rows rows m).
Proof. intros Hm fs w r fs' w' H. unfold on_rows in H. by eapply keeps_on_db in H. Qed.

Section Active.
Context `{HU : UuidText} {HUL : UuidLaws}.
#[local] Set Default Proof Using "Type*".

(** ** Active tasks *)

Definition task_of (orgID : string) (repo : uuid) (types : list string) (t : QTask) : Prop :=
  t.(q_OrgId) = orgID ∧ pg_uuid t.(q_ObjectUUID) = Some repo ∧ t.(q_Typename) ∈ types ∧ t.(q_active) = true.

Lemma active_run orgID repo types fs w r fs' w' :
  TaskInfo_FetchActiveTasks orgID (uuid_String repo) types (fs, w) = (r, (fs', w')) →
  w' = w ∧ ∀ ids, r = inr ids → ∀ id, id ∈ ids ↔ ∃ t, t ∈ w.(w_tasks) ∧ task_of orgID repo types t ∧ t.(q_Id) = id.
Proof.
  intros H. split; [by eapply keeps_call in H|]. intros ids ->. apply call_inr in H. injection H as <- _. intros id.
  rewrite list_elem_of_fmap. setoid_rewrite list_elem_of_filter. rewrite Uuidify_String. unfold task_of. naive_solver.
Qed.

(** A handler that finds the repository busy refuses. *)
Lemma busy_answer orgID repo types title e k fs w r fs' w' t :
  t ∈ w.(w_tasks) → task_of orgID repo types t →
  answering title (TaskInfo_FetchActiveTasks orgID (uuid_String repo) types) (λ ids, if (0 <? length ids)%nat then mret (Failed e) else k ids) (fs, w)
    = (inr r, (fs', w')) →
  w' = w ∧ ∃ errs, r = Failed errs.
Proof.
  intros Ht Hb [(e' & H & [= ->])|(ids & fs1 & w1 & H & Hk)]%answering_run; apply active_run in H as [-> Hids]; [eauto|].
  assert (t.(q_Id) ∈ ids) as Hin by (apply (Hids _ eq_refl); eauto).
  destruct (Nat.ltb_spec 0 (length ids)) as [|Hz]; [|destruct ids; [by apply not_elem_of_nil in Hin|simpl in Hz; lia]].
  apply ret_inr in Hk as [<- [= _ <-]]. eauto.
Qed.

End Active.

Section Handlers.
Context `{HU : UuidText} {HUL : UuidLaws}.
Context (new_id : list QTask → uuid) (task_rows : list QTask → gmap uuid TaskView).
Context (snapshots_enabled snapshots_accessible : bool) (content_path : goerr + string) (PulpConfigured : bool).
Context (content : store) (scan_rpms : gmap uuid Rpm → list (uuid * Rpm)).
#[local] Set Default Proof Using "Type*".

Abbreviation fetching := (fetch_repo task_rows snapshots_enabled content_path).

Lemma fetch_repo_keeps orgID raw : keeps (fetching orgID raw).
Proof. apply keeps_on_rows. intros ts. apply RepoConfig_Fetch_keeps. Qed.

(** The response is that of the configuration; an organization sees its own one unchanged. *)
Lemma fetch_repo_run orgID rc fs w p fs' w' :
  fetching orgID (uuid_String rc) (fs, w) = (inr p, (fs', w')) →
  w' = w ∧ ∃ c, w.(w_db).(configs) !! rc = Some c ∧ config_live c = true ∧ p.(p_UUID) = rc ∧ p.(p_RepositoryUUID) = c.(c_RepositoryUUID) ∧
    (c.(c_OrgID) = orgID → p.(p_OrgID) = orgID).
Proof.
  intros H. pose proof (fetch_repo_keeps _ _ _ _ _ _ _ H) as ->. split; [done|]. destruct w as [d ts].
  apply on_db_inr in H as (d' & H & [= <-]). cbn [w_tasks w_db] in H. set (rows := task_rows ts) in H. cbn [w_db].
  apply bind_inr in H as (l & [fs1 d1] & Hl & H).
  apply bind_inr in Hl as ([rc' c] & [fs0 d0] & Hc%map_err_inr%call_inr & [= <- <-]%map_err_inr%call_inr). cbv zeta in Hc. rewrite Uuidify_String in Hc.
  destruct (d.(configs) !! rc) as [c'|] eqn:Hrc; [|done]. destruct (config_live c' && _) eqn:Hlive; [|done]. injection Hc as <- -> <-.
  apply andb_true_iff in Hlive as [Hlive _]. exists c. split; [done|]. split; [done|].
  apply bind_inr in H as (path & [fs2 d2] & _ & H). apply bind_inr in H as (l' & [fs3 d3] & Ho & [<- _]%ret_inr).
  pose proof Ho as (_ & Hu & Hl)%override_frame. cbn in Hu, Hl.
  assert (c_RepositoryUUID (l_Config l') = c_RepositoryUUID c) as Hr.
  { unfold override_one in Ho. cbn in Ho. destruct (IsForeignPartnerView c orgID); cbn [negb] in Ho; [|by apply ret_inr in Ho as [<- _]].
    destruct (is_published _); [by apply ret_inr in Ho as [<- _]|]. revert Ho. destruct (db_call _ _) as [[] []]; by intros [= <- _ _]. }
  unfold convertToResponses. cbn [fmap list_fmap nth]. split_and!.
  - destruct (p_LastSnapshot _); exact Hu.
  - destruct (p_LastSnapshot _); exact Hr.
  - intros Hc. rewrite (Hl Hc). by destruct (p_LastSnapshot _).
Qed.

(** ** Changes of the content exclude one another *)

Section Busy.
Context (orgID : string) (rc : uuid) (c : ConfigRow) (w : world) (t : QTask).
Context (Hc : w.(w_db).(configs) !! rc = Some c) (Ht : t ∈ w.(w_tasks)).

Lemma addUploads_busy arts ups fs r fs' w' :
  task_of orgID c.(c_RepositoryUUID) [UpdateLatestSnapshotTask; BulkRemoveRpmsTask] t →
  addUploads new_id task_rows snapshots_enabled content_path PulpConfigured orgID (uuid_String rc) arts ups (fs, w) = (inr r, (fs', w')) →
  w' = w ∧ ∃ errs, r = Failed errs.
Proof.
  intros Hb [(e & H & [= ->])|(p & fs1 & w1 & H & Hk)]%answering_run; [apply fetch_repo_keeps in H as ->; eauto|].
  apply fetch_repo_run in H as (-> & c' & Hc' & _ & _ & Hr & _). rewrite Hc in Hc'. injection Hc' as <-. rewrite Hr in Hk.
  destruct (p_Origin p != OriginUpload); [apply ret_inr in Hk as [<- [= _ <-]]; eauto|]. by eapply busy_answer in Hk.
Qed.

Lemma createSnapshot_busy fs r fs' w' :
  task_of orgID c.(c_RepositoryUUID) [RepositorySnapshotTask] t →
  createSnapshot new_id task_rows snapshots_enabled snapshots_accessible content_path PulpConfigured orgID (uuid_String rc) (fs, w) = (inr r, (fs', w')) →
  w' = w ∧ ∃ errs, r = Failed errs.
Proof.
  intros Hb H. unfold createSnapshot, checking in H. destruct (CheckSnapshotAccessible _ _); [apply ret_inr in H as [<- [= _ <-]]; eauto|].
  apply answering_run in H as [(e & H & [= ->])|(p & fs1 & w1 & H & Hk)]; [apply fetch_repo_keeps in H as ->; eauto|].
  apply fetch_repo_run in H as (-> & c' & Hc' & _ & _ & Hr & _). rewrite Hc in Hc'. injection Hc' as <-. rewrite Hr in Hk.
  destruct (p_Origin p == OriginUpload); [apply ret_inr in Hk as [<- [= _ <-]]; eauto|].
  destruct (p_Origin p == OriginLightwell); [apply ret_inr in Hk as [<- [= _ <-]]; eauto|]. by eapply busy_answer in Hk.
Qed.

Lemma bulkRemoveRpms_busy rpms fs r fs' w' :
  task_of orgID c.(c_RepositoryUUID) [UpdateLatestSnapshotTask; AddUploadsTask; BulkRemoveRpmsTask] t →
  bulkRemoveRpms new_id task_rows snapshots_enabled content_path PulpConfigured content scan_rpms orgID (uuid_String rc) rpms (fs, w) = (inr r, (fs', w')) →
  w' = w ∧ ∃ errs, r = Failed errs.
Proof.
  intros Hb H. unfold bulkRemoveRpms in H. destruct (length rpms =? 0)%nat; [apply ret_inr in H as [<- [= _ <-]]; eauto|].
  apply answering_run in H as [(e & H & [= ->])|(p & fs1 & w1 & H & Hk)]; [apply fetch_repo_keeps in H as ->; eauto|].
  apply fetch_repo_run in H as (-> & c' & Hc' & _ & _ & Hr & _). rewrite Hc in Hc'. injection Hc' as <-. rewrite Hr in Hk.
  destruct (p_Origin p != OriginUpload); [apply ret_inr in Hk as [<- [= _ <-]]; eauto|]. by eapply busy_answer in Hk.
Qed.
End Busy.

(** ** What an accepted upload leaves *)

Lemma consumes_fetch ts orgID raw : consumes (RepoConfig_Fetch ts snapshots_enabled content_path orgID raw).
Proof.
  unfold RepoConfig_Fetch, fetch_loaded, fetchRepoConfig, preload_associations, override_one, db_noop. consumes_tac. intros fs d.
  destruct (consumes_call (λ d, (inr (best newer (published_of d (l_UUID a))), d)) fs d) as [n Hn]. exists n. rewrite <- Hn. by destruct (db_call _ _) as [[] []].
Qed.
(** No failures are left where there were none. *)
Lemma fetch_healthy orgID raw w r fs' w' : fetching orgID raw ([], w) = (r, (fs', w')) → fs' = [].
Proof.
  unfold fetch_repo, on_rows, on_db. destruct (consumes_fetch (task_rows (w_tasks w)) orgID raw [] (w_db w)) as [n Hn].
  destruct (RepoConfig_Fetch _ _ _ _ _ _) as [r1 [fs1 d1]]. intros [= _ <- _]. cbn in Hn. by rewrite drop_nil in Hn.
Qed.
Lemma active_healthy orgID obj types w r fs' w' : TaskInfo_FetchActiveTasks orgID obj types ([], w) = (r, (fs', w')) → fs' = [].
Proof. by intros [= _ <- _]. Qed.

Lemma enqueue_run typename p org acc obj ty deps fs w o fs' w' :
  logged (EnqueueTask new_id typename p org acc obj ty deps) (fs, w) = (inr o, (fs', w')) →
  (o = None ∧ w' = w ∧ fs ≠ []) ∨
  (o = Some (new_id w.(w_tasks)) ∧ (fs = [] → fs' = []) ∧
   w' = mk_world w.(w_db) (w.(w_tasks) ++ [mk_QTask (new_id w.(w_tasks)) typename p org acc obj ty deps true])).
Proof. intros (r & H & ->)%logged_value. destruct fs as [|[e|] fs]; cbn in H; simplify_eq/=; [by right|by left|by right]. Qed.

(** The tasks are left alone. *)
Lemma update_last_task_run id response fs w o fs' w' :
  logged (update_last_task task_rows id response) (fs, w) = (inr o, (fs', w')) → w'.(w_tasks) = w.(w_tasks) ∧ (fs = [] → fs' = []).
Proof.
  intros (r & H & _)%logged_value. destruct w as [d ts]. unfold update_last_task, on_rows, on_db in H. cbn [w_db w_tasks] in H.
  destruct (UpdateLastSnapshotTask _ _ _ _ _) as [r1 [fs1 d1]] eqn:E. simplify_eq/=. split; [done|]. intros ->.
  unfold UpdateLastSnapshotTask, on_config, db_call in E. cbn in E. by repeat (case_match; simplify_eq/=).
Qed.

(** An upload whose task is enqueued: the task that follows it is enqueued too, or Pulp is not configured, or something failed. *)
Lemma upload_enqueued response orgID arts ups fs w id fs' w' :
  enqueueAddUploadsEvent new_id task_rows PulpConfigured response orgID arts ups (fs, w) = (inr id, (fs', w')) →
  (id = uuid_String uuid_Nil ∧ w' = w) ∨
  ∃ t1 l, w'.(w_tasks) = (w.(w_tasks) ++ t1 :: l)%list ∧ task_of orgID response.(p_RepositoryUUID) [AddUploadsTask] t1 ∧
    (∀ t2, t2 ∈ l → task_of response.(p_OrgID) response.(p_RepositoryUUID) [UpdateLatestSnapshotTask] t2 ∧ t2.(q_Dependencies) = [t1.(q_Id)]) ∧
    (PulpConfigured = true → fs = [] → l ≠ []).
Proof.
  intros H. unfold enqueueAddUploadsEvent, enqueue_for in H.
  apply bind_inr in H as (o & [fs1 w1] & [(-> & -> & _)|(-> & Hf1 & ->)]%enqueue_run & H); [apply ret_inr in H as [<- [= _ <-]]; by left|right].
  apply bind_inr in H as (o2 & [fs2 w2] & [Hts Hf2]%update_last_task_run & H).
  apply bind_inr in H as ([] & [fs3 w3] & Hlat & [_ [= _ <-]]%ret_inr). cbn [w_tasks] in Hts.
  unfold enqueueUpdateLatestSnapshotEvent, enqueue_for in Hlat. destruct PulpConfigured; cbn [negb] in Hlat.
  - apply bind_inr in Hlat as (o3 & [fs4 w4] & [(-> & -> & Hne)|(-> & _ & ->)]%enqueue_run & [_ [= _ <-]]%ret_inr).
    + rewrite Hts. eexists _, []. split; [reflexivity|]. unfold task_of. cbn. rewrite pg_String. split_and!; try done; [set_solver|by intros ? ?%not_elem_of_nil|].
      intros _ ->. by destruct Hne; auto.
    + cbn [w_tasks]. rewrite Hts, <- app_assoc. cbn [app]. eexists _, [_]. split; [reflexivity|]. unfold task_of. cbn. rewrite pg_String. split_and!; try done; [set_solver|].
      intros t2 ->%list_elem_of_singleton. cbn. rewrite pg_String. split_and!; try done; set_solver.
  - apply ret_inr in Hlat as [_ [= _ <-]]. rewrite Hts. eexists _, []. split; [reflexivity|]. unfold task_of. cbn. rewrite pg_String.
    split_and!; try done; [set_solver|by intros ? ?%not_elem_of_nil].
Qed.

(** [C23] After an upload was accepted, until its tasks have ended, requests to remove packages of the repository are refused and change
    nothing, whatever fails. So are further uploads, provided that the task by which the templates follow the upload was enqueued: it
    is if Pulp is configured and nothing fails; a failure to enqueue it is only logged. *)
Theorem uploads_serialized orgID rc c arts ups fs w code t fs' w' :
  (∀ t', t' ∈ w.(w_tasks) → t'.(q_Id) ≠ uuid_Nil) → w.(w_db).(configs) !! rc = Some c → c.(c_OrgID) = orgID →
  addUploads new_id task_rows snapshots_enabled content_path PulpConfigured orgID (uuid_String rc) arts ups (fs, w) = (inr (TaskInfo code t), (fs', w')) →
  ∃ l, w'.(w_tasks) = (w.(w_tasks) ++ l)%list ∧ (PulpConfigured = true → fs = [] → length l ≠ 1%nat) ∧
  ∀ w2, (∀ t', t' ∈ w'.(w_tasks) → t' ∈ w2.(w_tasks)) → c_RepositoryUUID <$> w2.(w_db).(configs) !! rc = Some c.(c_RepositoryUUID) →
  (∀ rpms fs2 r fs3 w3,
     bulkRemoveRpms new_id task_rows snapshots_enabled content_path PulpConfigured content scan_rpms orgID (uuid_String rc) rpms (fs2, w2) = (inr r, (fs3, w3)) →
     w3 = w2 ∧ ∃ errs, r = Failed errs) ∧
  (length l ≠ 1%nat → ∀ arts' ups' fs2 r fs3 w3,
     addUploads new_id task_rows snapshots_enabled content_path PulpConfigured orgID (uuid_String rc) arts' ups' (fs2, w2) = (inr r, (fs3, w3)) →
     w3 = w2 ∧ ∃ errs, r = Failed errs).
Proof.
  intros Hnil Hc Horg [(e & _ & [=])|(p & fs1 & w1 & H & Hk)]%answering_run.
  assert (fs = [] → fs1 = []) as Hf1 by (intros ->; by eapply fetch_healthy in H).
  apply fetch_repo_run in H as (-> & c' & Hc' & _ & _ & Hr & Ho). rewrite Hc in Hc'. injection Hc' as <-. specialize (Ho Horg).
  destruct (p_Origin p != OriginUpload); [by apply ret_inr in Hk as [? _]|].
  apply answering_run in Hk as [(e & _ & [=])|(ids & fs2 & w1 & Ha & Hk)].
  assert (fs = [] → fs2 = []) as Hf2 by (intros Hf; rewrite (Hf1 Hf) in Ha; by eapply active_healthy in Ha).
  apply active_run in Ha as [-> _]. destruct (0 <? length ids)%nat; [by apply ret_inr in Hk as [? _]|].
  apply bind_inr in Hk as (id & [fs3 w3] & He & Hk).
  apply answering_run in Hk as [(e & _ & [=])|(t' & fs4 & w4 & Hf & [_ [= _ <-]]%ret_inr)].
  assert (w4 = w3) as -> by (apply (keeps_map_err _ (db_call _)) in Hf; [done|]; apply keeps_call; intros ?; by repeat case_match).
  apply upload_enqueued in He as [[-> ->]|(t1 & l & Hw & Ht1 & Hl & Hne)].
  { exfalso. apply map_err_inr, call_inr in Hf. rewrite Uuidify_String in Hf.
    destruct (list_find _ (w_tasks w)) as [[i x]|] eqn:E; [|done]. apply list_find_Some in E as (Hi & [Hx _] & _).
    apply (Hnil x); [by eapply list_elem_of_lookup_2|done]. }
  exists (t1 :: l). split; [done|]. split; [intros Hp Hfs; specialize (Hne Hp (Hf2 Hfs)); destruct l; [done|cbn; lia]|].
  intros w2 Hts Hrc. destruct (w2.(w_db).(configs) !! rc) as [c2|] eqn:Hc2; [|done]. injection Hrc as Hrc. rewrite Hr, <- Hrc in Ht1.
  assert (∀ t2, t2 ∈ t1 :: l → t2 ∈ w2.(w_tasks)) as Hin by (intros t2 Ht2; apply Hts; rewrite Hw; set_solver). split.
  - intros *. eapply (bulkRemoveRpms_busy _ _ _ _ _ Hc2 (Hin t1 ltac:(left))). destruct Ht1 as (? & ? & ? & ?). split_and!; set_solver.
  - intros Hlen *. destruct l as [|t2 l]; [done|]. destruct (Hl t2 ltac:(left)) as [Ht2 _]. rewrite Ho, Hr, <- Hrc in Ht2.
    eapply (addUploads_busy _ _ _ _ _ Hc2 (Hin t2 ltac:(set_solver))). destruct Ht2 as (? & ? & ? & ?). split_and!; set_solver.
Qed.
End Handlers.

(** ** Deleting *)

Section Delete.
Context `{HU : UuidText} {HUL : UuidLaws} (retrying : QTask → bool).
Context (new_id : list QTask → uuid) (task_rows : list QTask → gmap uuid TaskView).
Context (snapshots_enabled : bool) (content_path : goerr + string).
#[local] Set Default Proof Using "Type*".

(** Tasks are only taken out of the running; what is still active was so before. *)
Definition calmed (w w' : world) : Prop :=
  w'.(w_db) = w.(w_db) ∧ q_Id <$> w'.(w_tasks) = q_Id <$> w.(w_tasks) ∧ ∀ t, t ∈ w'.(w_tasks) → t.(q_active) = true → t ∈ w.(w_tasks).
Lemma calmed_refl w : calmed w w.
Proof. by split_and!. Qed.
Lemma calmed_trans w1 w2 w3 : calmed w1 w2 → calmed w2 w3 → calmed w1 w3.
Proof. intros (? & ? & H1) (? & ? & H2). split_and!; [congruence..|]. auto. Qed.

Lemma cancel_task_id id t : (cancel_task retrying id t).(q_Id) = t.(q_Id).
Proof. unfold cancel_task. by case_match. Qed.
Lemma cancel_task_active id t : (cancel_task retrying id t).(q_active) = true → cancel_task retrying id t = t ∧ (t.(q_Id) = id → retrying t = true).
Proof.
  unfold cancel_task. destruct (_ && _) eqn:E; [done|]. intros Ha. split; [done|]. intros Hid. rewrite bool_decide_true in E by done.
  cbn in E. by destruct (retrying t).
Qed.

Lemma cancel_run id fs w r fs' w' :
  TaskClient_Cancel retrying id (fs, w) = (r, (fs', w')) →
  calmed w w' ∧ (r = inr () → ∀ t, t ∈ w'.(w_tasks) → t.(q_active) = true → t.(q_Id) = id → retrying t = true).
Proof.
  unfold TaskClient_Cancel, mbind, M_bind. destruct (db_call _ (fs, w)) as [[e|t0] [fs1 w1]] eqn:E.
  - intros [= <- <- <-]. apply keeps_call in E as ->; [|intros ?; by repeat case_match]. split; [apply calmed_refl|done].
  - apply keeps_call in E as ->; [|intros ?; by repeat case_match]. destruct (contains _ _); cbn [negb]; [|by intros [= <- <- <-]; split; [apply calmed_refl|]].
    intros H. apply call_cases in H as [(e & -> & -> & _)|[= <- <-]]; [split; [apply calmed_refl|done]|].
    assert (∀ t, t ∈ cancel_task retrying id <$> w.(w_tasks) → t.(q_active) = true → t ∈ w.(w_tasks) ∧ (t.(q_Id) = id → retrying t = true)) as Hall.
    { intros t (t' & -> & Hin)%list_elem_of_fmap Ha. by apply cancel_task_active in Ha as [-> Hr]. }
    split; [split_and!; [done| |]|].
    + cbn. rewrite <- list_fmap_compose. apply list_fmap_ext. intros i t _. apply cancel_task_id.
    + intros t Hin Ha. by apply Hall.
    + intros _ t Hin Ha. by apply Hall.
Qed.

Lemma cancel_all_run ids fs w o fs' w' :
  cancel_all retrying ids (fs, w) = (inr o, (fs', w')) →
  calmed w w' ∧ (o = None → ∀ t, t ∈ w'.(w_tasks) → t.(q_active) = true → t.(q_Id) ∈ ids → retrying t = true).
Proof.
  revert fs w. induction ids as [|id ids IH]; intros fs w H; cbn [cancel_all] in H.
  - apply ret_inr in H as [_ [= _ <-]]. split; [apply calmed_refl|]. by intros _ t _ _ ?%not_elem_of_nil.
  - rewrite attempt_bind in H. destruct (TaskClient_Cancel retrying id (fs, w)) as [r [fs1 w1]] eqn:E. apply cancel_run in E as [Hc1 Hr1].
    destruct r as [e|[]]; [apply ret_inr in H as [<- [= _ <-]]; by split|]. apply IH in H as [Hc2 Hr2]. split; [by eapply calmed_trans|].
    intros -> t Hin Ha [Hid|Hid]%elem_of_cons; [|by apply Hr2]. apply Hr1; [done|by apply Hc2|done..].
Qed.

Definition repo_tasks : list string := [RepositorySnapshotTask; IntrospectTask].

Lemma cancel_repo_run orgID p fs w o fs' w' :
  cancelIntrospectAndSnapshot retrying orgID p (fs, w) = (inr o, (fs', w')) →
  calmed w w' ∧ (o = None → ∀ t, t ∈ w'.(w_tasks) → task_of orgID p.(p_RepositoryUUID) repo_tasks t → retrying t = true).
Proof.
  unfold cancelIntrospectAndSnapshot. rewrite attempt_bind. destruct (TaskInfo_FetchActiveTasks _ _ _ _) as [r [fs1 w1]] eqn:E.
  apply active_run in E as [-> Hids]. destruct r as [e|ids]; [intros [<- [= _ <-]]%ret_inr; split; [apply calmed_refl|done]|].
  intros [Hc Hr]%cancel_all_run. split; [done|]. intros -> t Hin Ht. pose proof Ht as (_ & _ & _ & Ha). apply Hr; [done..|].
  apply (Hids _ eq_refl). exists t. split; [by apply Hc|done].
Qed.

Lemma soft_delete_run now orgID rc fs d r fs' d' :
  RepoConfig_SoftDelete now orgID (uuid_String rc) (fs, d) = (r, (fs', d')) →
  match r with
  | inl _ => d' = d
  | inr _ => ∃ c, d.(configs) !! rc = Some c ∧ c.(c_OrgID) = orgID ∧ ∃ c', d' = set_configs <[rc := c']> d ∧ config_live c' = false
  end.
Proof.
  unfold RepoConfig_SoftDelete. unfold mbind at 1, M_bind at 1. set (m := map_err _ _). destruct (m (fs, d)) as [[e|[u c]] [fs1 d1]] eqn:E.
  - intros [= <- <- <-]. assert (keeps m) as Hk by (apply keeps_map_err, keeps_call; intros ?; by destruct (pg_uuid _)). by apply Hk in E.
  - apply map_err_inr, call_inr in E. rewrite pg_String in E. destruct (configs d !! rc) as [c0|] eqn:Hc; [|done]. cbn in E.
    destruct (bool_decide _) eqn:Ho; [|done]. apply bool_decide_eq_true in Ho. injection E as <- <- <-.
    destruct (config_live c0) eqn:Hl.
    + intros H. apply call_cases in H as [(e & -> & -> & _)|[= <- <-]]; [done|]. exists c0. split_and!; [done..|].
      exists (set_config_deleted (Some now) c0). split; [|done]. destruct d as [cs ? ? ? ?]. cbn in *. unfold set_configs. cbn. f_equal.
      apply map_eq. intros i. destruct (decide (i = rc)) as [->|]; [by rewrite lookup_alter_eq, Hc, lookup_insert_eq; cbn; rewrite Hl|].
      by rewrite lookup_alter_ne, lookup_insert_ne.
    + intros [= <- <- <-]. exists c0. split_and!; [done..|]. exists c0. split; [|done]. destruct d as [cs ? ? ? ?]. cbn in *. unfold set_configs. cbn.
      by rewrite insert_id.
Qed.

(** Failures are consumed from the front of the list. *)
Lemma consumes_attempt {A} (m : HM A) : consumes m → consumes (attempt m).
Proof. intros Hm fs w. destruct (Hm fs w) as [n Hn]. exists n. unfold attempt. by destruct (m (fs, w)) as [? []]. Qed.
Lemma consumes_on_db {A} (m : DB A) : consumes m → consumes (on_db m).
Proof. intros Hm fs w. destruct (Hm fs w.(w_db)) as [n Hn]. exists n. unfold on_db. by destruct (m (fs, w_db w)) as [? []]. Qed.
Lemma consumes_cancel orgID p : consumes (cancelIntrospectAndSnapshot retrying orgID p).
Proof.
  apply consumes_bind; [apply consumes_attempt, consumes_call|]. intros [e|ids]; [apply consumes_ret|].
  induction ids as [|id ids IH]; cbn [cancel_all]; [apply consumes_ret|]. apply consumes_bind; [|intros [e|[]]; [apply consumes_ret|done]].
  apply consumes_attempt. unfold TaskClient_Cancel. consumes_tac.
Qed.
Lemma consumes_soft_delete now orgID raw : consumes (on_db (RepoConfig_SoftDelete now orgID raw)).
Proof. apply consumes_on_db. unfold RepoConfig_SoftDelete, soft_delete_config. consumes_tac. Qed.
Lemma healthy {W A} (m : M W goerr A) w r fs' w' : consumes m → m ([], w) = (r, (fs', w')) → fs' = [].
Proof. intros Hm H. destruct (Hm [] w) as [n Hn]. rewrite H in Hn. cbn in Hn. by rewrite drop_nil in Hn. Qed.

Lemma delete_enqueued orgID p fs w o fs' w' :
  enqueueSnapshotDeleteEvent new_id orgID p (fs, w) = (o, (fs', w')) →
  w'.(w_db) = w.(w_db) ∧ ∃ l, w'.(w_tasks) = (w.(w_tasks) ++ l)%list ∧
    (∀ t, t ∈ l → t.(q_Typename) = DeleteRepositorySnapshotsTask ∧ t.(q_Payload) = DeleteRepositorySnapshotsPayload (uuid_String p.(p_UUID))) ∧
    (fs = [] → l ≠ []).
Proof.
  unfold enqueueSnapshotDeleteEvent, logged, enqueue_for. unfold mbind at 1, M_bind at 1. rewrite attempt_bind.
  destruct (EnqueueTask _ _ _ _ _ _ _ _ _) as [r [fs1 w1]] eqn:E. intros [= _ _ <-].
  destruct fs as [|[e|] fs]; cbn in E; simplify_eq/=; (split; [done|]).
  - eexists. split; [done|]. split; [by intros t ->%list_elem_of_singleton|done].
  - exists []. rewrite app_nil_r. split; [done|]. split; [by intros t ?%not_elem_of_nil|done].
  - eexists. split; [done|]. split; [by intros t ->%list_elem_of_singleton|done].
Qed.

(** [C22] When a repository is deleted, its configuration of the organization is marked as deleted and no other row has changed; no
    snapshot and no introspection of it is active but those that wait for a retry; new tasks are only deletions of this
    repository, and there is one if nothing failed. When the answer is an error, the tables are as they were, no
    task was added, and none became active. *)
Theorem deletion_calms_repository now orgID rc fs w r fs' w' :
  deleteRepository new_id task_rows retrying snapshots_enabled content_path now orgID (uuid_String rc) (fs, w) = (inr r, (fs', w')) →
  match r with
  | NoContent =>
      ∃ c, w.(w_db).(configs) !! rc = Some c ∧ c.(c_OrgID) = orgID ∧
        (∃ c', w'.(w_db) = set_configs <[rc := c']> w.(w_db) ∧ config_live c' = false) ∧
        (∀ t, t ∈ w'.(w_tasks) → task_of orgID c.(c_RepositoryUUID) repo_tasks t → retrying t = true) ∧
        (∀ t, t ∈ w'.(w_tasks) → t.(q_active) = true → t ∈ w.(w_tasks) ∨ t.(q_Payload) = DeleteRepositorySnapshotsPayload (uuid_String rc)) ∧
        (fs = [] → ∃ t, t ∈ w'.(w_tasks) ∧ t.(q_Payload) = DeleteRepositorySnapshotsPayload (uuid_String rc))
  | _ => calmed w w'
  end.
Proof.
  intros [(e & H & [= ->])|(p & fs1 & w1 & H & Hk)]%answering_run; [apply fetch_repo_keeps in H as ->; apply calmed_refl|].
  assert (fs = [] → fs1 = []) as Hf1 by (intros ->; by eapply fetch_healthy in H).
  apply fetch_repo_run in H as (-> & c & Hc & _ & Hid & Hr & _).
  apply bind_inr in Hk as (o & [fs2 w2] & Hcan & Hk). pose proof Hcan as [Hcalm Hret]%cancel_repo_run.
  assert (fs = [] → fs2 = []) as Hf2 by (intros Hf; rewrite (Hf1 Hf) in Hcan; by eapply healthy in Hcan; [|apply consumes_cancel]).
  destruct o as [errs|]; [apply ret_inr in Hk as [<- [= _ <-]]; done|]. specialize (Hret eq_refl). destruct Hcalm as (Hdb & Hids & Hact).
  destruct w2 as [d2 ts2]. cbn in Hdb. subst d2.
  apply answering_run in Hk as [(e & Hd & [= ->])|(x & fs3 & w3 & Hd & Hk)];
    [apply on_db_inr in Hd as (d' & ->%soft_delete_run & ->); by split_and!|].
  assert (fs = [] → fs3 = []) as Hf3 by (intros Hf; rewrite (Hf2 Hf) in Hd; by eapply healthy in Hd; [|apply consumes_soft_delete]).
  apply on_db_inr in Hd as (d' & Hd%soft_delete_run & ->).
  destruct Hd as (c1 & Hc1 & Horg & c' & -> & Hdead). rewrite Hc in Hc1. injection Hc1 as <-.
  apply bind_inr in Hk as ([] & [fs4 w4] & (Hdb4 & l & Hl & Hty & Hne)%delete_enqueued & [<- [= _ <-]]%ret_inr). cbn [w_db w_tasks] in Hdb4, Hl.
  exists c. split; [done|]. split; [done|]. split; [by exists c'|]. rewrite Hl, Hid in *. split_and!.
  - intros t [Hin|Hin]%elem_of_app Ht; [apply Hret; [done|]; by rewrite Hr|].
    destruct (Hty t Hin) as [Hn _], Ht as (_ & _ & Ht & _). rewrite Hn in Ht. unfold repo_tasks in Ht.
    rewrite !elem_of_cons, elem_of_nil in Ht. by destruct Ht as [?|[?|?]].
  - intros t [Hin|Hin]%elem_of_app Ha; [left; by apply Hact|right; by apply Hty].
  - intros Hf. destruct l as [|t l]; [by destruct Hne; auto|exists t; split; [set_solver|apply Hty; left]].
Qed.
End Delete.

(** ** Runs *)

#[local] Existing Instances Ex.uuid_text Ex.uuid_laws.

Module HandlerEx.
Definition row (t : QTask) : TaskView := mk_TaskView t.(q_Typename) (if t.(q_active) then "pending" else "canceled") 0 t.(q_OrgId) None None None.
Definition rows (ts : list QTask) : gmap uuid TaskView := list_to_map ((λ t, (t.(q_Id), row t)) <$> ts).
Definition new_id (ts : list QTask) : uuid := N.of_nat (100 + length ts).
Definition snapshotting : QTask := mk_QTask 50 RepositorySnapshotTask SnapshotHandler.SnapshotPayload "org" "" (Ex.text 11) ObjectTypeRepository [] true.
Definition following : QTask :=
  mk_QTask 51 UpdateLatestSnapshotTask (UpdateLatestSnapshotPayload (Ex.text 1)) "org" "" (Ex.text 11) ObjectTypeRepository [50%N] true.
Definition w : world := mk_world Ex.d [snapshotting; following].
Definition delete : (goerr + answer) * (list (option goerr) * world) :=
  deleteRepository new_id rows (λ _, false) true (inr "https://pulp/") (30 * Second)%Z "org" (Ex.text 1) ([], w).
Definition add : (goerr + answer) * (list (option goerr) * world) :=
  addUploads new_id rows true (inr "https://pulp/") true "partner" (Ex.text 2) [] [mk_Upload "u" "" "dd"] ([], w).
End HandlerEx.

Lemma deletion_calms_repository_witness :
  ∃ w', HandlerEx.delete = (inr NoContent, ([], w')) ∧ (∀ t, t ∈ w'.(w_tasks) → ¬ task_of "org" 11 repo_tasks t) ∧
    ∃ t, t ∈ w'.(w_tasks) ∧ t.(q_Payload) = DeleteRepositorySnapshotsPayload (Ex.text 1).
Proof.
  assert (HandlerEx.delete.1 = inr NoContent) as Hr by (vm_compute; reflexivity).
  assert (HandlerEx.delete.2.1 = []) as Hf by (vm_compute; reflexivity).
  destruct HandlerEx.delete as [r [fs' w']] eqn:E. simpl in Hr, Hf. subst r fs'. exists w'. split; [done|].
  destruct (deletion_calms_repository (λ _, false) HandlerEx.new_id HandlerEx.rows true (inr "https://pulp/") (30 * Second)%Z "org" 1 [] HandlerEx.w
              NoContent [] w' E) as (c & Hc & _ & _ & Hcalm & _ & Hnew).
  assert (c.(c_RepositoryUUID) = 11%N) as Hrepo by (change (configs Ex.d !! 1%N = Some c) in Hc; vm_compute in Hc; by injection Hc as <-).
  rewrite Hrepo in Hcalm. split; [|by apply Hnew]. intros t Hin Ht. by specialize (Hcalm t Hin Ht).
Defined.

Lemma uploads_serialized_witness :
  ∃ t w', HandlerEx.add = (inr (TaskInfo 201 t), ([], w')) ∧
    ∀ r fs3 w3, addUploads HandlerEx.new_id HandlerEx.rows true (inr "https://pulp/") true "partner" (Ex.text 2) [] [] ([], w') = (inr r, (fs3, w3)) →
      w3 = w' ∧ ∃ errs, r = Failed errs.
Proof.
  destruct HandlerEx.add as [r [fs' w']] eqn:E.
  assert (∃ t, r = inr (TaskInfo 201 t) ∧ fs' = [] ∧ c_RepositoryUUID <$> w'.(w_db).(configs) !! 2%N = Some 12%N) as (t & -> & -> & Hc).
  { assert (∃ t, HandlerEx.add.1 = inr (TaskInfo 201 t) ∧ HandlerEx.add.2.1 = [] ∧ c_RepositoryUUID <$> HandlerEx.add.2.2.(w_db).(configs) !! 2%N = Some 12%N) as H
      by (eexists; split_and!; vm_compute; reflexivity). by rewrite E in H. }
  exists t, w'. split; [done|]. intros r fs3 w3.
  assert (∃ c, configs Ex.d !! 2%N = Some c ∧ c.(c_OrgID) = "partner" ∧ c.(c_RepositoryUUID) = 12%N) as (c & Hc0 & Ho & Hr)
    by (eexists; split_and!; vm_compute; reflexivity).
  destruct (uploads_serialized HandlerEx.new_id HandlerEx.rows true (inr "https://pulp/") true (mk_store ∅ (mk_table ∅ ∅) (mk_table ∅ ∅) (mk_table ∅ ∅) (mk_table ∅ ∅))
              map_to_list "partner" 2 c [] [mk_Upload "u" "" "dd"] [] HandlerEx.w 201 t [] w') as (l & _ & Hl & Hall); [|exact Hc0|exact Ho|exact E|].
  { intros t' Ht'. repeat (apply elem_of_cons in Ht' as [->|Ht']; [done|]). by apply not_elem_of_nil in Ht'. }
  apply (Hall w'); [done|by rewrite Hc, Hr|]. by apply Hl.
Defined.

(** A failure to enqueue the task that follows an upload is only logged: the answer is a success, and the next upload is accepted. *)
Example upload_not_followed :
  let run fs w := addUploads HandlerEx.new_id HandlerEx.rows true (inr "https://pulp/") true "partner" (Ex.text 2) [] [mk_Upload "u" "" "dd"] (fs, w) in
  let accepted r := match r with inr (TaskInfo 201 _) => true | _ => false end in
  let first := run (replicate 5 None ++ [Some (ErrPlain "timeout")])%list HandlerEx.w in
  accepted first.1 = true ∧ accepted (run [] first.2.2).1 = true.
Proof. by vm_compute. Qed.

(** Whether snapshots may be taken is checked for the first repository of a bulk request only: the second one asks for
    snapshots although the feature is disabled, and the check passes. *)
Example bulk_check_stops_at_first :
  let req s := mk_RepositoryRequest "" "org" None None None None None None None None s None None in
  CheckSnapshotForRepos false false [req (Some false); req (Some true)] = None ∧
  is_Some (CheckSnapshotForRepos false false [req (Some true); req (Some false)]).
Proof. by split; [|eexists]. Qed.

(** A Red Hat repository of a feature the account does not have is refused with the status of an internal error. *)
Example denied_with_500 :
  let d := set_configs <[1%N := mk_ConfigRow (mk_ConfigFields "name" ["any"] "any" "" false false true) "label" RedHatOrg "" 11 false "RHEL-EUS" "" "" None None 0 None]> Ex.d in
  (RepositoryHandler_fetch HandlerEx.rows true (inr "https://pulp/") [] "org" (Ex.text 1) ([], mk_world d [])).1 =
    inr (Failed (NewErrorResponse 500 "Error fetching repository" "Account does not have access to this repository")).
Proof. by vm_compute. Qed.
